(* ===== verification/_CoqProject ===== *)
-Q . S2P
Prelude.v
Bits.v
BitUtils.v
Mem.v
ObjectHeader.v
Mirror.v
ReclamationTable.v
Stub.v
Stream.v
RteLock.v
Allocator.v
LargeObjectSpace.v
SwapState.v
Swap.v
SwapFile.v
SwapCycle.v
Access.v
SwapInvariant.v
SwapRuns.v
Histogram.v
Instrumentation.v
SpaceBitmap.v
TaskProcessor.v
RosAlloc.v
RosAllocPages.v
RosAllocFreePages.v
RosAllocSegments.v
RosAllocSlots.v
RosAllocRuns.v
RosAllocIndex.v
RosAllocAlloc.v
RosAllocFree.v
RosAllocSpec.v
RosAllocInspect.v
RosAllocTheorems.v
RosAllocSpace.v
RosAllocSpaceInvariant.v
RosAllocSpaceSpec.v
RosAllocSpaceTheorems.v
StubSpaces.v
DivRem.v
ParallelMove.v
LockWord.v
MonitorPool.v
Monitor.v
MonitorInvariant.v
MonitorSteps.v
MonitorSpec.v
MonitorRuns.v
