(* ===== verification/Prelude.v ===== *)
(** * Marvin-ART: a verification of parts of the runtime and of its compiler

    Marvin extends the Android Runtime with swapping of single objects: cold
    objects are written to a swap file, their pages are given back to the
    kernel, and small stubs stand for them in the heap until they are accessed
    again.  This library models the code that Marvin adds, and parts of the
    runtime and of the ARM64 code generator that it lives in, and proves that
    they do what they are there for.  All paths are relative to src/.

    ** How code is modelled

    Functions are Rocq functions on the state that they touch.  An integer of
    [w] bits is a [Z] with its wrap-around written out ([wrap], [swrap]); a
    double is an IEEE binary64 number.  Memory is a map from addresses to bytes
    (Mem).  An operation ends in an [outcome]: [Done], [Aborted] for a failed
    CHECK, [Faulted] for an access outside of what exists, or [Diverged]; the
    swapping code is written in the state monad [M] of this file over outcomes.
    Concurrent code is a state machine whose steps are the accesses of shared
    variables or the critical sections of a mutex, and which interleave in any
    order.  What is not under src/ (the kernel, the file system, logarithms) is an
    argument, with what is relied on as named hypotheses or as a class; a part
    that another one only uses through its interface is a class as well, and
    the part that implements it an instance.

    ** The files

    - Prelude (this file): integers, outcomes, the monad with its triples
      [hoare] and invariants [keeps], lemmas on lists and sums, tactics and the
      hint databases.
    - Bits, ObjectHeader: the bit field helpers of mirror::Object and the four
      bytes that Marvin adds to the object header (runtime/mirror/object.h,
      object-inl.h, marvin_common.h).  The accessors refine updates of a record
      of fields; "cold" means not written in the last samples.
    - BitUtils: runtime/base/bit_utils.h (counting, rounding, range tests, bit
      iterators).
    - Mem, Mirror: memory; classes, sizes and reference fields of objects.
    - ReclamationTable, RteLock: the table shared with the kernel
      (runtime/marvin_reclamation_table.h, .cc), its slots, and the lock of an
      entry as an interleaving of app threads, compiled code and the kernel:
      mutual exclusion, progress, transparency for one thread, and the ways in
      which updates can be lost.
    - Stub: runtime/marvin_stub.h, .cc.  A stub preserves the references of its
      object.
    - Stream: std::fstream on a device of bounded capacity.
    - Allocator, LargeObjectSpace: the interface of allocators, and FreeListSpace
      (runtime/gc/space/large_object_space.h, .cc), which implements it: best fit,
      coalescing, no failed check.
    - SwapState, Swap: the state and the functions of runtime/marvin_swap.cc.
      SwapFile: the swap file, its validation and compaction.  SwapCycle: an
      object that is written, reclaimed and read back is unchanged.  Access:
      field accesses through stubs (the SWAP_PREAMBLE macros).  SwapInvariant:
      the maps, the write queue and the file stay consistent under all entry
      points.  SwapRuns: schedules, and runs that lose data.
    - Histogram, Instrumentation: runtime/marvin_histogram.h,
      marvin_bivariate_histogram.h, marvin_instrumentation.h and their .cc files.
    - SpaceBitmap: runtime/gc/accounting/space_bitmap.h, .cc.  A bitmap is a set of
      addresses, the fast traversal is the simple loop, sweeping frees exactly
      the garbage, and racing threads mark an object once.
    - TaskProcessor: runtime/gc/task_processor.h, .cc, which runs Marvin's write
      task: tasks run once, in order and in time.
    - RosAlloc: runtime/gc/allocator/rosalloc.h, .cc, the allocator of the main
      space: pages, page runs, runs of slots with their free lists, thread-local
      runs, single and bulk frees, revocation, trimming, inspection.  RosAllocPages,
      RosAllocFreePages, RosAllocSegments: the page map and the set of free page
      runs, allocation and release of pages.  RosAllocSlots, RosAllocRuns,
      RosAllocIndex: the slots of a run, the invariant of a heap of runs and
      large blocks, and where a block lies.  RosAllocAlloc, RosAllocFree: every
      allocation and free keeps the invariant and has the effect that it should.
      RosAllocSpec: the abstract heap, a map of blocks with their contents, which
      RosAlloc refines.  RosAllocInspect: the inspection of all blocks.
      RosAllocTheorems: the refinement and what follows from it.
    - RosAllocSpace: runtime/gc/space/rosalloc_space.h, -inl.h, .cc with what it
      inherits from malloc_space.h, .cc and space.h, .cc: creation, growth
      (MoreCore), footprint limits, allocation, frees, live and mark bitmaps,
      sweeping, clearing, the split into a zygote and an allocation space.
      RosAllocSpaceInvariant: its invariant.  RosAllocSpaceSpec: a specification of
      the space with blocks and two sets of bits, and that each call follows
      it.  RosAllocSpaceTheorems: the theorems.
    - StubSpaces: RosAllocSpace is an [Allocator], and CreateStubs moves exactly
      the objects that are to get a stub.
    - DivRem, ParallelMove: compiler/optimizing, for ARM64: integer division by
      constants, and the resolution of parallel moves, are correct for the
      semantics of the instructions that are emitted.
    - LockWord, MonitorPool, Monitor: the lock word of an object
      (runtime/lock_word.h), the pool of monitors (runtime/monitor_pool.h, .cc) and
      the operations on the lock of an object (runtime/monitor.h, .cc,
      IdentityHashCode of runtime/mirror/object.cc) as a state machine.
      MonitorInvariant and MonitorSteps: its invariant.  MonitorSpec: the
      abstract reentrant lock with waiting, which it refines.  MonitorRuns: the
      theorems, and runs of the machine with the pool.

    ** How the parts interact

    The collector calls CheckAndUpdate, CreateStubs, SwapObjectsOut and
    GcRecordFree of Swap; these use Mirror and Stub for objects and their stubs,
    FreeListSpace through the laws of [Allocator] for the space of resident
    copies, ReclamationTable for the entries and Stream for the file.  The main
    space, in which stubs are allocated, is any [Allocator]; RosAllocSpace is one.
    It calls RosAlloc, which calls back MoreCore when it needs more pages, and
    sweeps with the walk of SpaceBitmap.  Access
    composes the preamble of the accessors with SwapInOnDemand.  TaskProcessor
    runs the write task.  Instrumentation reads headers through stubs and fills
    histograms, through the class [BinDivision].  Monitor creates and releases
    monitors through the class [IdPool], of which MonitorPool is the instance,
    and keeps them in the lock words of LockWord.

    ** Bounds and fuel

    - Access: an accessor calls itself on the object of a stub; fuel 2 is
      enough, as the object of a stub is not a stub (a hypothesis).
    - BitUtils, SpaceBitmap: one round for every bit of a word; the theorems show
      that this is enough.
    - DivRem: the loop for the magic number ends within 64 rounds for every
      divisor (proved).
    - ParallelMove: the recursion of PerformMove and the loop over pending moves
      are bounded by the number of moves (proved enough).
    - LargeObjectSpace: walks have a round for every slot of the side table.
    - RosAlloc: walks of the page map have a round for every page, walks of a
      run a round for every slot; sizes of requests leave room for one page
      below 2^64.
    - MonitorPool: searches have a round for every chunk of the lists.
    - Monitor: theorems are on runs of fewer than 2^31 events, which keeps the
      recursion count, a 32-bit int, from overflowing.
    - RteLock: the mutual exclusion theorem is for fewer than 256 threads, since
      the counter has 8 bits; what happens at 256 is a theorem as well.

    ** Not modelled

    - The collectors and the heap: Swap takes what they do as arguments or as
      arbitrary changes between its steps.
    - RosAlloc's mutexes (its operations are atomic steps), its variants for
      memory tools, its dumps and statistics; DlMallocSpace, which calls a library
      that is not under src/; ZygoteSpace, which frees nothing.
    - LargeObjectMapSpace, which keeps one mapping for each object.
    - SpaceBitmap::InOrderWalk, which follows the fields of objects.
    - ThreadList::SuspendThreadByThreadId: one step in Monitor.
    - The machine code for stub checks but for its lock sequence; the rest of
      the compiler; the interpreter, the class linker, the verifier, JNI, JDWP;
      the tools.  They are large and Marvin does not change them.
    - ParallelMoveResolverWithSwap, which only x86 uses.
    - Printing, logging, tracing and lock profiling.
    - Weak memory: atomics are sequentially consistent. *)
From stdpp Require Import prelude gmap sorting.
From Stdlib Require Import ZArith Lia Btauto.
Open Scope Z_scope.

(** * Machine integers

    A [w]-bit unsigned integer is a [Z] in the range [0 <= z < 2^w]; a value
    of a wider type is converted by taking it modulo [2^w], as C++ does. *)
Definition wrap (w z : Z) : Z := z mod 2 ^ w.
Abbreviation u8 := (wrap 8).
Abbreviation u16 := (wrap 16).
Abbreviation u32 := (wrap 32).
Abbreviation u64 := (wrap 64).
Definition in_width (w z : Z) : Prop := 0 <= z < 2 ^ w.

(** Two's complement reading of the low [w] bits. *)
Definition swrap (w z : Z) : Z := (z + 2 ^ (w - 1)) mod 2 ^ w - 2 ^ (w - 1).
Abbreviation i32 := (swrap 32).
Abbreviation i64 := (swrap 64).

(** * Outcomes of a run

    [Done] is a normal return; [Aborted] is a failed [CHECK] or a
    [LOG(FATAL)]; [Faulted] is an access through a null or dangling pointer;
    [Diverged] is a spin loop that no other thread of the run releases. *)
Inductive outcome (A : Type) : Type :=
| Done (a : A)
| Aborted
| Faulted
| Diverged.
Arguments Done {A} _.
Arguments Aborted {A}.
Arguments Faulted {A}.
Arguments Diverged {A}.

Definition outcome_bind_def {A B} (f : A -> outcome B) (o : outcome A) : outcome B :=
  match o with
  | Done a => f a
  | Aborted => Aborted
  | Faulted => Faulted
  | Diverged => Diverged
  end.
#[global] Instance outcome_ret : MRet outcome := fun A a => Done a.
#[global] Instance outcome_bind : MBind outcome := @outcome_bind_def.

(** State passing over outcomes. *)
Definition M (S A : Type) : Type := S -> outcome (A * S).
#[global] Instance M_ret S : MRet (M S) := fun A a s => Done (a, s).
#[global] Instance M_bind S : MBind (M S) :=
  fun A B f m s => match m s with
                   | Done (a, s') => f a s'
                   | Aborted => Aborted
                   | Faulted => Faulted
                   | Diverged => Diverged
                   end.

Definition gets {S A} (f : S -> A) : M S A := fun s => Done (f s, s).
Definition modify {S} (f : S -> S) : M S unit := fun s => Done (tt, f s).
Definition abort {S A} : M S A := fun _ => Aborted.
Definition fault {S A} : M S A := fun _ => Faulted.
(** [CHECK(b)] *)
Definition check {S} (b : bool) : M S unit := if b then mret tt else abort.
Definition when {S} (b : bool) (m : M S unit) : M S unit := if b then m else mret tt.

Fixpoint mfor {S A} (l : list A) (body : A -> M S unit) : M S unit :=
  match l with
  | [] => mret tt
  | a :: l => body a ;; mfor l body
  end.

Lemma obind_done {A B} (a : A) (f : A -> outcome B) : (Done a ≫= f) = f a.
Proof. done. Qed.

(** The state a run ends in, for runs that are evaluated. *)
Definition is_done {A} (r : outcome A) : bool := match r with Done _ => true | _ => false end.
Definition final_state {S} (r : outcome (unit * S)) (default : S) : S :=
  match r with Done (_, s) => s | _ => default end.
Lemma run_done {S} (r : outcome (unit * S)) (d : S) : is_done r = true -> r = Done (tt, final_state r d).
Proof. by destruct r as [[[] ?]| | |]. Qed.

(** Equations of the monad, in the form in which a run is stepped. *)
Section Bind.
Context {S A B C : Type}.
Implicit Types (m : M S A) (k : A -> M S B) (s : S).
Lemma bind_done m k s a s' : m s = Done (a, s') -> (m ≫= k) s = k a s'.
Proof. unfold mbind, M_bind. by intros ->. Qed.
Lemma bind_ret a k s : (mret a ≫= k) s = k a s.
Proof. done. Qed.
Lemma bind_assoc m k (k' : B -> M S C) s : ((m ≫= k) ≫= k') s = (m ≫= (fun a => k a ≫= k')) s.
Proof. unfold mbind, M_bind. by destruct (m s) as [[? ?]| | |]. Qed.
Lemma bind_gets (f : S -> A) k s : (gets f ≫= k) s = k (f s) s.
Proof. done. Qed.
End Bind.
Lemma bind_modify {S B} (f : S -> S) (k : unit -> M S B) s : (modify f ≫= k) s = k tt (f s).
Proof. done. Qed.
Lemma bind_check {S B} (b : bool) (k : unit -> M S B) s : b = true -> (check b ≫= k) s = k tt s.
Proof. by intros ->. Qed.

(** ** Partial correctness of actions *)
Section Hoare.
Context {S : Type}.
Definition hoare {A} (P : S -> Prop) (m : M S A) (Q : A -> S -> Prop) : Prop :=
  forall s a s', P s -> m s = Done (a, s') -> Q a s'.
Definition keeps {A} (P : S -> Prop) (m : M S A) : Prop := hoare P m (fun _ => P).

Lemma hoare_bind {A B} P (m : M S A) (k : A -> M S B) Q Q' :
  hoare P m Q -> (forall a, hoare (Q a) (k a) Q') -> hoare P (m ≫= k) Q'.
Proof.
  intros Hm Hk s b s' Hs H. unfold mbind, M_bind in H.
  destruct (m s) as [[a s1]| | |] eqn:E; try done. eapply Hk; [|exact H]. by eapply Hm.
Qed.
Lemma keeps_bind {A B} P (m : M S A) (k : A -> M S B) :
  keeps P m -> (forall a, keeps P (k a)) -> keeps P (m ≫= k).
Proof. apply hoare_bind. Qed.
Lemma keeps_ret {A} P (a : A) : keeps P (mret a).
Proof. intros s b s' Hs [= <- <-]. done. Qed.
Lemma keeps_gets {A} P (f : S -> A) : keeps P (gets f).
Proof. intros s b s' Hs [= <- <-]. done. Qed.
Lemma keeps_modify P (f : S -> S) : (forall s, P s -> P (f s)) -> keeps P (modify f).
Proof. intros H s b s' Hs [= <- <-]. by apply H. Qed.
Lemma keeps_check P b : keeps P (check b).
Proof. destruct b; [apply keeps_ret | by intros s a s' _ [=]]. Qed.
Lemma keeps_abort {A} P : keeps P (abort (A := A)).
Proof. by intros s a s' _ [=]. Qed.
Lemma keeps_when P b m : keeps P m -> keeps P (when b m).
Proof. intros H. destruct b; [done | apply keeps_ret]. Qed.
Lemma keeps_if {A} P (b : bool) (m m' : M S A) : keeps P m -> keeps P m' -> keeps P (if b then m else m').
Proof. by destruct b. Qed.
Lemma keeps_mfor {A} P (l : list A) body : (forall a, keeps P (body a)) -> keeps P (mfor l body).
Proof. intros H. induction l; [apply keeps_ret | by apply keeps_bind]. Qed.
Lemma keeps_and {A} P Q (m : M S A) : keeps P m -> keeps Q m -> keeps (fun s => P s /\ Q s) m.
Proof. intros HP HQ s a s' [H1 H2] H. split; [by eapply HP | by eapply HQ]. Qed.
Lemma hoare_keep {A B} P (m : M S A) (k : A -> M S B) Q : keeps P m -> (forall a, hoare P (k a) Q) -> hoare P (m ≫= k) Q.
Proof. apply hoare_bind. Qed.
Lemma hoare_fact {A} (P : Prop) I (m : M S A) Q : (P -> hoare I m Q) -> hoare (fun s => I s /\ P) m Q.
Proof. intros H s a s' [Hi Hp] E. by apply (H Hp s). Qed.
Lemma hoare_ret {A} P (a : A) (Q : A -> S -> Prop) : (forall s, P s -> Q a s) -> hoare P (mret a) Q.
Proof. intros H s b s' Hs [= <- <-]. by apply H. Qed.
End Hoare.

Create HintDb keeps discriminated.
#[export] Hint Resolve keeps_ret keeps_gets keeps_check keeps_abort keeps_when keeps_if keeps_mfor : keeps.

Ltac keep_step :=
  first [ solve [eauto with keeps]
        | apply keeps_bind; [|intros ?]
        | apply keeps_when | apply keeps_if | apply keeps_mfor; intros ?
        | match goal with |- keeps _ (match ?x with _ => _ end) => destruct x end ].
Ltac keep := repeat keep_step.

(** * [std::map] and [std::set]

    Keys are addresses; iteration visits the keys in increasing order. *)
Definition key_le {V} (x y : Z * V) : Prop := x.1 <= y.1.
#[global] Instance key_le_dec {V} : RelDecision (@key_le V).
Proof. intros x y; unfold key_le; apply _. Defined.
Definition iter_map {V} (m : gmap Z V) : list (Z * V) := merge_sort key_le (map_to_list m).
Definition iter_set (s : gset Z) : list Z := merge_sort Z.le (elements s).

Lemma iter_map_perm {V} (m : gmap Z V) : iter_map m ≡ₚ map_to_list m.
Proof. apply merge_sort_Permutation. Qed.
Lemma elem_of_iter_map {V} (m : gmap Z V) k v : (k, v) ∈ iter_map m <-> m !! k = Some v.
Proof. rewrite iter_map_perm. apply elem_of_map_to_list. Qed.
Lemma NoDup_iter_map {V} (m : gmap Z V) : NoDup (iter_map m).*1.
Proof. rewrite iter_map_perm. apply NoDup_fst_map_to_list. Qed.
Lemma elem_of_iter_map_fst {V} (m : gmap Z V) k : k ∈ (iter_map m).*1 <-> is_Some (m !! k).
Proof.
  rewrite list_elem_of_fmap. split.
  - intros ([k' v] & -> & H). apply elem_of_iter_map in H. by exists v.
  - intros [v H]. exists (k, v). split; [done|]. by apply elem_of_iter_map.
Qed.
Lemma elem_of_iter_set (s : gset Z) x : x ∈ iter_set s <-> x ∈ s.
Proof. unfold iter_set. rewrite (merge_sort_Permutation Z.le). apply elem_of_elements. Qed.
Lemma NoDup_iter_set (X : gset Z) : NoDup (iter_set X).
Proof. unfold iter_set. rewrite (merge_sort_Permutation Z.le). apply NoDup_elements. Qed.
Lemma length_iter_set (X : gset Z) : length (iter_set X) = size X.
Proof. unfold iter_set. by rewrite (merge_sort_Permutation Z.le). Qed.

(** * Proof automation *)
Create HintDb marvin discriminated.
Create Rewrite HintDb zbits.

Lemma shiftr_ones n k : 0 <= k <= n -> Z.shiftr (Z.ones n) k = Z.ones (n - k).
Proof.
  intros. apply Z.bits_inj'; intros i Hi.
  rewrite Z.shiftr_spec, !Z.testbit_ones_nonneg by lia.
  destruct (Z.ltb_spec (i + k) n), (Z.ltb_spec i (n - k)); lia || reflexivity.
Qed.

Lemma in_width_testbit w z i : 0 <= w -> in_width w z -> w <= i -> Z.testbit z i = false.
Proof.
  unfold in_width; intros Hw Hz Hi.
  rewrite <- (Z.mod_small z (2 ^ w)) by lia. apply Z.mod_pow2_bits_high; lia.
Qed.

Lemma testbit_wrap w z i : 0 <= w -> Z.testbit (wrap w z) i = (i <? w) && Z.testbit z i.
Proof. intros; unfold wrap. now rewrite Z.testbit_mod_pow2. Qed.

#[export] Hint Rewrite Z.land_spec Z.lor_spec Z.lxor_spec Z.bits_0 : zbits.
#[export] Hint Rewrite Z.lnot_spec Z.shiftl_spec Z.shiftr_spec testbit_wrap
  Z.testbit_ones_nonneg using lia : zbits.

(** Decide the comparisons the goal branches on. *)
Ltac split_ltb :=
  repeat match goal with
         | |- context [?a <? ?b] => destruct (Z.ltb_spec a b); try lia
         | |- context [?a <=? ?b] => destruct (Z.leb_spec a b); try lia
         | |- context [?a =? ?b] => destruct (Z.eqb_spec a b); try lia
         end.

(** Bits out of the width of a word, or of negative index, are [false]. *)
Ltac kill_bits :=
  repeat match goal with
         | H : in_width ?w ?z |- context [Z.testbit ?z ?i] =>
             rewrite (in_width_testbit w z i) by (lia || assumption)
         | |- context [Z.testbit ?z ?i] => rewrite (Z.testbit_neg_r z i) by lia
         | |- context [Z.testbit (Z.ones ?n) ?i] => rewrite (Z.testbit_ones_nonneg n i) by lia
         end.

Ltac bit_solve :=
  repeat (progress (autorewrite with zbits; kill_bits; split_ltb));
  simpl; try (f_equal; lia); try btauto; try reflexivity.

(** Equality of integers bit by bit. *)
Ltac bitwise := apply Z.bits_inj'; intros ? ?; bit_solve.

(** Expose the bounds of the common widths to [lia]. *)
Ltac widths :=
  unfold in_width in *;
  change (2 ^ 4) with 16 in *; change (2 ^ 8) with 256 in *; change (2 ^ 16) with 65536 in *;
  change (2 ^ 32) with 4294967296 in *; change (2 ^ 64) with 18446744073709551616 in *.
Ltac width_lia := widths; lia.
(** Linear arithmetic with division and modulo by constants. *)
Ltac div_lia := widths; Z.div_mod_to_equations; lia.

(** Signed words can be reduced at any point of a sum. *)
Lemma swrap_add_l w a b : 0 < w -> swrap w (swrap w a + b) = swrap w (a + b).
Proof.
  intros Hw. unfold swrap. f_equal.
  replace ((a + 2 ^ (w - 1)) mod 2 ^ w - 2 ^ (w - 1) + b + 2 ^ (w - 1))
    with ((a + 2 ^ (w - 1)) mod 2 ^ w + b) by lia.
  rewrite Z.add_mod_idemp_l by (pose proof (Z.pow_pos_nonneg 2 w); lia). f_equal. lia.
Qed.
Lemma swrap_small w z : 0 < w -> - 2 ^ (w - 1) <= z < 2 ^ (w - 1) -> swrap w z = z.
Proof.
  intros Hw Hz. unfold swrap. assert (E : 2 ^ w = 2 * 2 ^ (w - 1)).
  { rewrite <- (Z.pow_succ_r 2 (w - 1)) by lia. f_equal. lia. }
  rewrite Z.mod_small; lia.
Qed.
Lemma swrap_add_r w a b : 0 < w -> swrap w (a + swrap w b) = swrap w (a + b).
Proof. intros Hw. by rewrite Z.add_comm, swrap_add_l, Z.add_comm by done. Qed.

Lemma wrap_range w z : 0 <= w -> in_width w (wrap w z).
Proof. intros; apply Z.mod_pos_bound, Z.pow_pos_nonneg; lia. Qed.

Lemma wrap_small w z : in_width w z -> wrap w z = z.
Proof. apply Z.mod_small. Qed.

Lemma wrap_wrap w z : wrap w (wrap w z) = wrap w z.
Proof. unfold wrap. apply Zmod_mod. Qed.

Lemma in_width_wrap w z : 0 <= w -> wrap w z = z -> in_width w z.
Proof. intros Hw <-. now apply wrap_range. Qed.

(** Arithmetic modulo [2 ^ w]. *)
Lemma wrap_add w a b : wrap w (wrap w a + wrap w b) = wrap w (a + b).
Proof. unfold wrap. by rewrite <- Zplus_mod. Qed.
Lemma wrap_sub w a b : wrap w (wrap w a - wrap w b) = wrap w (a - b).
Proof. unfold wrap. by rewrite <- Zminus_mod. Qed.
Lemma wrap_mul w a b : wrap w (wrap w a * wrap w b) = wrap w (a * b).
Proof. unfold wrap. by rewrite <- Zmult_mod. Qed.
Lemma wrap_add_mult w a k : 0 <= w -> wrap w (a + k * 2 ^ w) = wrap w a.
Proof. intros Hw. unfold wrap. apply Z.mod_add. pose proof (Z.pow_pos_nonneg 2 w). lia. Qed.
Lemma swrap_eq_wrap w z : 0 < w -> exists k, swrap w z = z + k * 2 ^ w.
Proof.
  intros Hw. exists (- ((z + 2 ^ (w - 1)) / 2 ^ w)). unfold swrap.
  pose proof (Z.div_mod (z + 2 ^ (w - 1)) (2 ^ w)). pose proof (Z.pow_pos_nonneg 2 w). lia.
Qed.
Lemma wrap_swrap w z : 0 < w -> wrap w (swrap w z) = wrap w z.
Proof. intros Hw. destruct (swrap_eq_wrap w z Hw) as [k ->]. apply wrap_add_mult. lia. Qed.
Lemma swrap_congr w a b : 0 < w -> wrap w a = wrap w b -> swrap w a = swrap w b.
Proof.
  intros Hw E. unfold swrap. f_equal. unfold wrap in E. rewrite <- (Z.add_mod_idemp_l a), <- (Z.add_mod_idemp_l b), E;
    [done | pose proof (Z.pow_pos_nonneg 2 w); lia..].
Qed.
Lemma swrap_range w z : 0 < w -> - 2 ^ (w - 1) <= swrap w z < 2 ^ (w - 1).
Proof.
  intros Hw. unfold swrap. pose proof (Z.mod_pos_bound (z + 2 ^ (w - 1)) (2 ^ w)). pose proof (Z.pow_pos_nonneg 2 w).
  assert (E : 2 ^ w = 2 * 2 ^ (w - 1)) by (rewrite <- (Z.pow_succ_r 2 (w - 1)) by lia; f_equal; lia). lia.
Qed.

Lemma lor_in_width w a b : 0 <= w -> in_width w a -> in_width w b -> in_width w (Z.lor a b).
Proof. intros. apply in_width_wrap; [done|]. bitwise. Qed.

Lemma land_in_width_l w a b : 0 <= w -> in_width w a -> in_width w (Z.land a b).
Proof. intros. apply in_width_wrap; [done|]. bitwise. Qed.

Lemma land_in_width_r w a b : 0 <= w -> in_width w b -> in_width w (Z.land a b).
Proof. intros. apply in_width_wrap; [done|]. bitwise. Qed.

Lemma in_width_mono w w' z : w <= w' -> in_width w z -> in_width w' z.
Proof. unfold in_width. intros Hw [? ?]. pose proof (Z.pow_le_mono_r 2 w w'). lia. Qed.

#[export] Hint Resolve wrap_range wrap_small lor_in_width land_in_width_l land_in_width_r : marvin.

(** * Filtered lists *)
Lemma filter_ext_in {A} (P Q : A -> Prop) `{!forall x, Decision (P x), !forall x, Decision (Q x)} (l : list A) :
  (forall x, x ∈ l -> P x <-> Q x) -> filter P l = filter Q l.
Proof.
  induction l as [|x l IH]; intros HPQ; [done|]. rewrite !filter_cons, IH by set_solver.
  destruct (decide (P x)), (decide (Q x)); set_solver.
Qed.
Lemma filter_none {A} (P : A -> Prop) `{!forall x, Decision (P x)} (l : list A) :
  (forall x, x ∈ l -> ~ P x) -> filter P l = [].
Proof.
  induction l as [|x l IH]; intros HP; [done|]. rewrite filter_cons_False, IH by set_solver. done.
Qed.
Lemma alter_as_insert {A} (f : A -> A) i (l : list A) x : l !! i = Some x -> alter f i l = <[i := f x]> l.
Proof.
  intros Hx. apply list_eq. intros j. destruct (decide (i = j)) as [<-|Hne].
  - rewrite list_lookup_alter_eq, list_lookup_insert_eq by (by apply lookup_lt_Some in Hx). by rewrite Hx.
  - by rewrite list_lookup_alter_ne, list_lookup_insert_ne.
Qed.

(** Sums of a measure over a list. *)
Fixpoint sumZ {A} (f : A -> Z) (l : list A) : Z :=
  match l with [] => 0 | x :: l => f x + sumZ f l end.
Lemma sumZ_insert {A} (f : A -> Z) (l : list A) i x y :
  l !! i = Some x -> sumZ f (<[i := y]> l) = sumZ f l - f x + f y.
Proof.
  revert i. induction l as [|z l IH]; intros [|i] E; simplify_eq/=; [lia|]. rewrite (IH i) by done. lia.
Qed.
Lemma sumZ_nonneg {A} (f : A -> Z) (l : list A) : (forall x, 0 <= f x) -> 0 <= sumZ f l.
Proof. intros Hf. induction l as [|x l IH]; cbn; [lia|]. pose proof (Hf x). lia. Qed.
Lemma sumZ_lookup {A} (f : A -> Z) (l : list A) i x :
  (forall x, 0 <= f x) -> l !! i = Some x -> f x <= sumZ f l.
Proof.
  intros Hf. revert i. induction l as [|z l IH]; intros [|i] E; simplify_eq/=.
  - pose proof (sumZ_nonneg f l Hf). lia.
  - pose proof (IH i E). pose proof (Hf z). lia.
Qed.
Lemma sumZ_replicate {A} (f : A -> Z) n x : f x = 0 -> sumZ f (replicate n x) = 0.
Proof. intros E. induction n; cbn; lia. Qed.
