(* ===== verification/Bits.v ===== *)
(** Bit fields of the object header: the static helpers of
    [mirror::Object] (runtime/mirror/object.h) that read, set, clear and
    assign [width] bits at [offset] of a 32-bit or an 8-bit word, their
    atomic 8-bit versions, and the self test [TestBitMethods]
    (runtime/mirror/object.cc). *)
From stdpp Require Import prelude.
From Stdlib Require Import ZArith Lia Btauto.
From S2P Require Import Prelude.
Open Scope Z_scope.

(** ** 32-bit fields: every operand is [uint32_t]. *)
Definition GetBits32 (data offset width : Z) : Z :=
  Z.land (Z.shiftr data offset) (Z.shiftr 0xffffffff (32 - width)).
Definition SetBits32 (data offset width : Z) : Z :=
  Z.lor data (u32 (Z.shiftl (Z.shiftr 0xffffffff (32 - width)) offset)).
Definition ClearBits32 (data offset width : Z) : Z :=
  Z.land data (u32 (Z.lnot (u32 (Z.shiftl (Z.shiftr 0xffffffff (32 - width)) offset)))).
Definition AssignBits32 (data val offset width : Z) : Z :=
  let data := ClearBits32 data offset width in
  Z.lor data (Z.land (u32 (Z.shiftl val offset)) (Z.shiftr 0xffffffff (32 - width - offset))).

(** ** 8-bit fields: the operands are promoted to [int], the result is
    converted back to [uint8_t]. *)
Definition GetBits8 (data offset width : Z) : Z :=
  u8 (Z.land (Z.shiftr data offset) (Z.shiftr 0xff (8 - width))).
Definition SetBits8 (data offset width : Z) : Z :=
  u8 (Z.lor data (Z.shiftl (Z.shiftr 0xff (8 - width)) offset)).
Definition ClearBits8 (data offset width : Z) : Z :=
  u8 (Z.land data (Z.lnot (Z.shiftl (Z.shiftr 0xff (8 - width)) offset))).
Definition AssignBits8 (data val offset width : Z) : Z :=
  let data := ClearBits8 data offset width in
  u8 (Z.lor data (Z.land (Z.shiftl val offset) (Z.shiftr 0xff (8 - width - offset)))).

(** ** Atomic 8-bit fields: [fetch_or] and [fetch_and] take their argument
    as a [uint8_t]. *)
Definition GetBitsAtomic8 (data offset width : Z) : Z :=
  u8 (Z.land (Z.shiftr data offset) (Z.shiftr 0xff (8 - width))).
Definition SetBitsAtomic8 (data offset width : Z) : Z :=
  Z.lor data (u8 (Z.shiftl (Z.shiftr 0xff (8 - width)) offset)).
Definition ClearBitsAtomic8 (data offset width : Z) : Z :=
  Z.land data (u8 (Z.lnot (Z.shiftl (Z.shiftr 0xff (8 - width)) offset))).

(** [TestBitMethods]: the fifteen results the method computes, against the
    fifteen it expects. *)
Definition test_bit_results : list Z :=
  [ GetBits32 0xabcdef12 4 12;
    GetBits32 0xffffffff 17 7;
    SetBits32 0x00000000 4 12;
    SetBits32 0x00000000 17 7;
    ClearBits32 0xffffffff 4 12;
    ClearBits32 0xffffffff 17 7;
    AssignBits32 0xabcdef12 0x88888 4 12;
    AssignBits32 0xffffffff 0xe 16 8;
    GetBits8 0xd9 2 4;
    SetBits8 0x00 5 2;
    ClearBits8 0xff 3 3;
    AssignBits8 0xbb 0x1 1 4;
    GetBitsAtomic8 0xd9 2 4;
    SetBitsAtomic8 0x00 5 2;
    ClearBitsAtomic8 0xff 3 3 ].
Definition test_bit_expected : list Z :=
  [ 0xef1; 0x7f; 0x0000fff0; 0x00fe0000; 0xffff000f; 0xff01ffff; 0xabcd8882; 0xff0effff;
    6; 0x60; 0xc7; 0xa3; 6; 0x60; 0xc7 ].
Definition TestBitMethods : bool :=
  forallb (fun p => p.1 =? p.2) (zip test_bit_results test_bit_expected).

(** ** Bit-level characterisations

    A field [(offset, width)] fits a byte when [0 <= offset], [1 <= width]
    and [offset + width <= 8]; outside of that the C++ shifts are by a
    negative amount. *)
Definition field8 (offset width : Z) : Prop :=
  0 <= offset /\ 1 <= width /\ offset + width <= 8.
Definition field32 (offset width : Z) : Prop :=
  0 <= offset /\ 1 <= width /\ offset + width <= 32.

Definition in_field (offset width i : Z) : bool := (offset <=? i) && (i <? offset + width).

Lemma mask8_ones k : 0 <= k <= 8 -> Z.shiftr 0xff k = Z.ones (8 - k).
Proof. change 0xff with (Z.ones 8). apply shiftr_ones. Qed.

Lemma mask32_ones k : 0 <= k <= 32 -> Z.shiftr 0xffffffff k = Z.ones (32 - k).
Proof. change 0xffffffff with (Z.ones 32). apply shiftr_ones. Qed.

(** Unfold the field operations to masks made of [Z.ones]. *)
Ltac to_ones :=
  unfold AssignBits8, AssignBits32;
  unfold GetBits8, SetBits8, ClearBits8, GetBitsAtomic8, SetBitsAtomic8,
    ClearBitsAtomic8, GetBits32, SetBits32, ClearBits32,
    field8, field32, in_field in *; cbv zeta;
  repeat match goal with
         | |- context [Z.shiftr 255 ?k] => rewrite (mask8_ones k) by lia
         | |- context [Z.shiftr 4294967295 ?k] => rewrite (mask32_ones k) by lia
         end.

Ltac bits_at := intros; to_ones; bit_solve.

Lemma SetBits8_testbit d o w i :
  field8 o w -> in_width 8 d -> 0 <= i ->
  Z.testbit (SetBits8 d o w) i = Z.testbit d i || in_field o w i.
Proof. bits_at. Qed.

Lemma ClearBits8_testbit d o w i :
  field8 o w -> in_width 8 d -> 0 <= i ->
  Z.testbit (ClearBits8 d o w) i = Z.testbit d i && negb (in_field o w i).
Proof. bits_at. Qed.

Lemma AssignBits8_testbit d v o w i :
  field8 o w -> in_width 8 d -> 0 <= i ->
  Z.testbit (AssignBits8 d v o w) i =
    if in_field o w i then Z.testbit v (i - o) else Z.testbit d i.
Proof. bits_at. Qed.

Lemma GetBits8_testbit d o w i :
  field8 o w -> in_width 8 d -> 0 <= i ->
  Z.testbit (GetBits8 d o w) i = (i <? w) && Z.testbit d (i + o).
Proof. bits_at. Qed.

Lemma SetBits32_testbit d o w i :
  field32 o w -> in_width 32 d -> 0 <= i ->
  Z.testbit (SetBits32 d o w) i = Z.testbit d i || in_field o w i.
Proof. bits_at. Qed.

Lemma ClearBits32_testbit d o w i :
  field32 o w -> in_width 32 d -> 0 <= i ->
  Z.testbit (ClearBits32 d o w) i = Z.testbit d i && negb (in_field o w i).
Proof. bits_at. Qed.

Lemma AssignBits32_testbit d v o w i :
  field32 o w -> in_width 32 d -> 0 <= i ->
  Z.testbit (AssignBits32 d v o w) i =
    if in_field o w i then Z.testbit v (i - o) else Z.testbit d i.
Proof. bits_at. Qed.

Lemma GetBits32_testbit d o w i :
  field32 o w -> in_width 32 d -> 0 <= i ->
  Z.testbit (GetBits32 d o w) i = (i <? w) && Z.testbit d (i + o).
Proof. bits_at. Qed.

Lemma atomic8_agree d o w :
  field8 o w -> in_width 8 d ->
  GetBitsAtomic8 d o w = GetBits8 d o w /\
  SetBitsAtomic8 d o w = SetBits8 d o w /\
  ClearBitsAtomic8 d o w = ClearBits8 d o w.
Proof. intros; split_and!; apply Z.bits_inj'; bits_at. Qed.

Lemma fields8_width d v o w :
  field8 o w -> in_width 8 d ->
  in_width 8 (SetBits8 d o w) /\ in_width 8 (ClearBits8 d o w) /\
  in_width 8 (AssignBits8 d v o w) /\ in_width 8 (GetBits8 d o w).
Proof.
  intros; split_and!; unfold SetBits8, ClearBits8, AssignBits8, GetBits8; cbv zeta;
    apply wrap_range; lia.
Qed.

(** ** Properties *)

(** A read of an assigned field and of a disjoint one, bit by bit. *)
Ltac read_assigned get_tb assign_tb :=
  apply Z.bits_inj'; intros i Hi;
  rewrite !get_tb, ?assign_tb by (done || lia);
  unfold in_field in *; rewrite ?Z.testbit_mod_pow2 by lia; split_ltb; simpl;
  try reflexivity; f_equal; lia.

(** Field algebra of the 8-bit helpers. Assigning a field and reading it
    back gives the assigned value truncated to the field's width; a field
    disjoint from it is unchanged; the word stays a byte. *)
Theorem assign_read_bits8 d v o w o' w' :
  field8 o w -> field8 o' w' -> in_width 8 d ->
  o + w <= o' \/ o' + w' <= o ->
  GetBits8 (AssignBits8 d v o w) o w = v mod 2 ^ w /\
  GetBits8 (AssignBits8 d v o w) o' w' = GetBits8 d o' w' /\
  in_width 8 (AssignBits8 d v o w).
Proof.
  intros Hf Hf' Hd Hdisj.
  assert (Hw : in_width 8 (AssignBits8 d v o w)) by now apply fields8_width.
  pose proof Hf as (? & ? & ?). pose proof Hf' as (? & ? & ?).
  split_and!; [| | done]; read_assigned GetBits8_testbit AssignBits8_testbit.
Qed.

Lemma assign_read_bits8_witness :
  GetBits8 (AssignBits8 0xa5 0x13 0 4) 0 4 = 3 /\
  GetBits8 (AssignBits8 0xa5 0x13 0 4) 4 4 = GetBits8 0xa5 4 4.
Proof.
  destruct (assign_read_bits8 0xa5 0x13 0 4 4 4) as (H1 & H2 & _);
    [unfold field8; lia .. | unfold in_width; lia | lia | ].
  split; [exact H1 | exact H2].
Defined.

(** The same for the 32-bit helpers. *)
Theorem assign_read_bits32 d v o w o' w' :
  field32 o w -> field32 o' w' -> in_width 32 d ->
  o + w <= o' \/ o' + w' <= o ->
  GetBits32 (AssignBits32 d v o w) o w = v mod 2 ^ w /\
  GetBits32 (AssignBits32 d v o w) o' w' = GetBits32 d o' w' /\
  in_width 32 (AssignBits32 d v o w).
Proof.
  intros Hf Hf' Hd Hdisj.
  assert (Hw : in_width 32 (AssignBits32 d v o w)) by (unfold AssignBits32, ClearBits32; auto 6 with marvin zarith).
  pose proof Hf as (? & ? & ?). pose proof Hf' as (? & ? & ?).
  split_and!; [| | done]; read_assigned GetBits32_testbit AssignBits32_testbit.
Qed.

Lemma assign_read_bits32_witness :
  GetBits32 (AssignBits32 0xabcdef12 0x88888 4 12) 4 12 = 0x888 /\
  GetBits32 (AssignBits32 0xabcdef12 0x88888 4 12) 16 8 = 0xcd.
Proof.
  destruct (assign_read_bits32 0xabcdef12 0x88888 4 12 16 8) as (H1 & H2 & _);
    [unfold field32; lia .. | unfold in_width; lia | lia | ].
  split; [exact H1 | exact H2].
Defined.

(** The runtime's own self test of the helpers passes. *)
Theorem TestBitMethods_passes : TestBitMethods = true.
Proof. vm_compute. reflexivity. Qed.
