(* ===== verification/BitUtils.v ===== *)
(** Bit utilities (runtime/base/bit_utils.h).

    The templates over an integer type [T] take its number of bits [w] as an
    argument; rounding and alignment are those of 64-bit integers.  The compiler
    intrinsics __builtin_clz and __builtin_ctz count in 32 or in 64 bits, as the
    source selects them. *)
From stdpp Require Import prelude list numbers.
From Stdlib Require Import ZArith Lia ZifyBool Btauto.
From S2P Require Import Prelude.
Open Scope Z_scope.

(** ** Definitions *)

(** [CLZ] uses the intrinsic for [unsigned int] for a type of the size of
    [uint32_t], and the one for [unsigned long long] for all others. *)
Definition builtin_width (w : Z) : Z := if w =? 32 then 32 else 64.
Definition CLZ (w x : Z) : Z := builtin_width w - 1 - Z.log2 x.
Fixpoint ctz_pos (p : positive) : Z :=
  match p with xO p => 1 + ctz_pos p | _ => 0 end.
Definition CTZ (x : Z) : Z := match x with Zpos p => ctz_pos p | _ => 64 end.
Fixpoint popcount_pos (p : positive) : Z :=
  match p with xO p => popcount_pos p | xI p => 1 + popcount_pos p | xH => 1 end.
Definition POPCOUNT (x : Z) : Z := match x with Zpos p => popcount_pos p | _ => 0 end.

Definition MostSignificantBit (w value : Z) : Z := if value =? 0 then -1 else w - 1 - CLZ w value.
Definition LeastSignificantBit (value : Z) : Z := if value =? 0 then -1 else CTZ value.
Definition MinimumBitsToStore (w value : Z) : Z := u64 (MostSignificantBit w value + 1).
Definition RoundUpToPowerOfTwo (w x : Z) : Z :=
  if x <? 2 then x else wrap w (Z.shiftl 1 (w - CLZ w (wrap w (x - 1)))).
Definition IsPowerOfTwo (x : Z) : bool := Z.land x (x - 1) =? 0.
Definition WhichPowerOf2 (x : Z) : Z := CTZ x.

Definition RoundDown (x n : Z) : Z := Z.land x (u64 (- n)).
Definition RoundUp (x n : Z) : Z := RoundDown (u64 (x + n - 1)) n.
Definition IsAligned (x n : Z) : bool := Z.land x (n - 1) =? 0.

Definition Low16Bits (value : Z) : Z := u16 value.
Definition High16Bits (value : Z) : Z := u16 (Z.shiftr value 16).
Definition Low32Bits (value : Z) : Z := u32 value.
Definition High32Bits (value : Z) : Z := u32 (Z.shiftr value 32).

(** The tests on a signed type of [w] bits; [None] is a failed CHECK. *)
Definition IsInt_checked (w N value : Z) : option bool :=
  if N =? w then Some true
  else if (0 <? N) && (N <? w) then
    let limit := Z.shiftl 1 (N - 1) in Some ((- limit <=? value) && (value <? limit))
  else None.
Definition GetIntLimit (bits : Z) : Z := Z.shiftl 1 (bits - 1).
Definition IsInt (w kBits value : Z) : bool :=
  if kBits =? w then true else (- GetIntLimit kBits <=? value) && (value <? GetIntLimit kBits).
Definition IsUint (w kBits value : Z) : bool :=
  (0 <=? value) && ((kBits =? w) || (wrap w value <=? wrap w (GetIntLimit kBits * 2 - 1))).
Definition IsAbsoluteUint (w kBits value : Z) : bool :=
  if kBits =? w then true
  else IsUint w kBits (if value <? 0 then wrap w (wrap w (-1 - value) + 1) else wrap w value).
Definition MaxInt_unsigned (w bits : Z) : Z :=
  if bits =? w then 2 ^ w - 1 else wrap w (wrap w (Z.shiftl 1 bits) - 1).
Definition MaxInt_signed (w bits : Z) : Z :=
  if bits =? w then 2 ^ (w - 1) - 1 else if bits =? 1 then 0 else MaxInt_unsigned w (bits - 1).
Definition MinInt_signed (w bits : Z) : Z :=
  if bits =? w then - 2 ^ (w - 1) else if bits =? 1 then -1 else -1 - MaxInt_signed w bits.

(** The iterators: the bits that a range-based for visits.  [operator++] clears
    the bit that [operator*] gives. *)
Fixpoint iterate_bits (deref : Z -> Z) (fuel : nat) (bits_ : Z) : list Z :=
  match fuel with
  | O => []
  | S fuel =>
      if bits_ =? 0 then []
      else deref bits_ :: iterate_bits deref fuel (Z.ldiff bits_ (Z.shiftl 1 (deref bits_)))
  end.
(** A word of [w] bits has at most [w] set ones. *)
Definition LowToHighBits (w bits : Z) : list Z := iterate_bits CTZ (Z.to_nat w) bits.
Definition HighToLowBits (w bits : Z) : list Z := iterate_bits (fun b => w - 1 - CLZ w b) (Z.to_nat w) bits.

(** ** Lowest and highest set bit *)
Lemma ctz_pos_nonneg p : 0 <= ctz_pos p.
Proof. induction p; simpl; lia. Qed.
Lemma ctz_pos_spec p : Z.testbit (Zpos p) (ctz_pos p) = true /\ forall j, 0 <= j < ctz_pos p -> Z.testbit (Zpos p) j = false.
Proof.
  induction p as [p IH|p [IH1 IH2]|]; simpl ctz_pos; [split; [done | lia] | | split; [done | lia]].
  rewrite Pos2Z.inj_xO. pose proof (ctz_pos_nonneg p). split.
  - replace (1 + ctz_pos p) with (Z.succ (ctz_pos p)) by lia. by rewrite Z.testbit_even_succ.
  - intros j Hj. destruct (decide (j = 0)) as [->|]; [by rewrite Z.testbit_even_0|].
    replace j with (Z.succ (j - 1)) by lia. rewrite Z.testbit_even_succ by lia. apply IH2. lia.
Qed.
Lemma CTZ_spec w x :
  0 < x < 2 ^ w -> 0 <= CTZ x < w /\ Z.testbit x (CTZ x) = true /\ forall j, 0 <= j < CTZ x -> Z.testbit x j = false.
Proof.
  intros Hx. destruct x as [|p|p]; [lia | | lia]. simpl. destruct (ctz_pos_spec p) as [H1 H2].
  pose proof (ctz_pos_nonneg p). split_and!; [done | | done | done].
  destruct (Z.ltb_spec (ctz_pos p) w); [done|]. rewrite Z.bits_above_log2 in H1; [done | lia |].
  apply Z.log2_lt_pow2; [lia|]. eapply Z.lt_le_trans; [apply Hx | apply Z.pow_le_mono_r; lia].
Qed.
Lemma log2_bit x : 0 < x -> Z.testbit x (Z.log2 x) = true /\ forall j, Z.log2 x < j -> Z.testbit x j = false.
Proof.
  intros Hx. split; [by apply Z.bit_log2|]. intros j Hj. apply Z.bits_above_log2; [lia | done].
Qed.

(** ** The set bits of a word *)
Definition set_bits (x lo n : Z) : list Z := filter (fun i => Z.testbit x i = true) (seqZ lo n).

Lemma elem_of_set_bits x lo n i : i ∈ set_bits x lo n <-> lo <= i < lo + n /\ Z.testbit x i = true.
Proof. unfold set_bits. rewrite list_elem_of_filter, elem_of_seqZ. naive_solver lia. Qed.
Lemma set_bits_app x lo n m : 0 <= n -> 0 <= m -> set_bits x lo (n + m) = set_bits x lo n ++ set_bits x (lo + n) m.
Proof. intros. unfold set_bits. by rewrite seqZ_app, list.filter_app by done. Qed.
Lemma set_bits_ext x y lo n : (forall i, lo <= i < lo + n -> Z.testbit x i = Z.testbit y i) -> set_bits x lo n = set_bits y lo n.
Proof.
  intros H. apply filter_ext_in. intros i Hi%elem_of_seqZ. by rewrite H.
Qed.
Lemma set_bits_none x lo n : (forall i, lo <= i < lo + n -> Z.testbit x i = false) -> set_bits x lo n = [].
Proof.
  intros H. apply filter_none. intros i Hi%elem_of_seqZ. by rewrite H.
Qed.
Lemma set_bits_one x i : set_bits x i 1 = if Z.testbit x i then [i] else [].
Proof.
  unfold set_bits. rewrite seqZ_cons, seqZ_nil, filter_cons by lia. destruct (Z.testbit x i) eqn:E.
  - by rewrite decide_True.
  - by rewrite decide_False.
Qed.
Lemma set_bits_split x lo n i :
  lo <= i < lo + n -> Z.testbit x i = true ->
  set_bits x lo n = set_bits x lo (i - lo) ++ i :: set_bits x (i + 1) (lo + n - i - 1).
Proof.
  intros Hi Hb. replace n with ((i - lo) + (1 + (lo + n - i - 1))) at 1 by lia.
  rewrite set_bits_app, (set_bits_app x _ 1), set_bits_one by lia.
  replace (lo + (i - lo)) with i by lia. by rewrite Hb.
Qed.

Lemma testbit_clear x s i : 0 <= s -> Z.testbit (Z.ldiff x (Z.shiftl 1 s)) i = Z.testbit x i && negb (i =? s).
Proof.
  intros Hs. destruct (Z.ltb_spec i 0); [by rewrite !Z.testbit_neg_r by lia|].
  rewrite Z.ldiff_spec, Z.shiftl_1_l. destruct (Z.eqb_spec i s) as [->|].
  - by rewrite Z.pow2_bits_true by lia.
  - by rewrite Z.pow2_bits_false by lia.
Qed.
Lemma clear_range x s w : 0 <= x < 2 ^ w -> 0 <= Z.ldiff x (Z.shiftl 1 s) < 2 ^ w.
Proof.
  intros Hx. assert (0 <= Z.ldiff x (Z.shiftl 1 s)) by (apply Z.ldiff_nonneg; lia). split; [done|].
  destruct (Z.ltb_spec w 0); [by rewrite Z.pow_neg_r in * by lia; lia|].
  apply Z.bounded_iff_bits_nonneg'; [lia | done|]. intros i Hi. rewrite Z.ldiff_spec.
  rewrite (proj1 (Z.bounded_iff_bits_nonneg' w x ltac:(lia) ltac:(lia)) Hx i Hi). done.
Qed.

Lemma iterate_low w fuel : forall k x,
  0 <= k <= w -> 0 <= x < 2 ^ w -> (forall i, 0 <= i < k -> Z.testbit x i = false) -> w - k <= Z.of_nat fuel ->
  iterate_bits CTZ fuel x = set_bits x k (w - k).
Proof.
  induction fuel as [|fuel IH]; intros k x Hk Hx Hlow Hf.
  - replace (w - k) with 0 by lia. by rewrite set_bits_none by lia.
  - simpl. destruct (Z.eqb_spec x 0) as [->|Hne]; [symmetry; apply set_bits_none; intros; apply Z.bits_0|].
    destruct (CTZ_spec w x) as ([Hs0 Hs] & Hb & Hbelow); [lia|]. set (s := CTZ x) in *.
    assert (k <= s). { destruct (Z.leb_spec k s); [done|]. rewrite Hlow in Hb by lia. done. }
    rewrite (set_bits_split x k (w - k) s), (set_bits_none x k) by (try done; intros; try apply Hbelow; lia).
    simpl. f_equal. rewrite (IH (s + 1)).
    + replace (k + (w - k) - s - 1) with (w - (s + 1)) by lia. apply set_bits_ext. intros i Hi.
      rewrite testbit_clear by done. by rewrite (proj2 (Z.eqb_neq i s)), andb_true_r by lia.
    + lia.
    + by apply clear_range.
    + intros i Hi. rewrite testbit_clear by done. destruct (Z.eqb_spec i s) as [->|]; [btauto|].
      rewrite Hbelow by lia. done.
    + lia.
Qed.
Lemma iterate_high fuel : forall k x (deref : Z -> Z),
  (forall y, 0 < y -> deref y = Z.log2 y) -> 0 <= k <= Z.of_nat fuel -> 0 <= x < 2 ^ k ->
  iterate_bits deref fuel x = reverse (set_bits x 0 k).
Proof.
  induction fuel as [|fuel IH]; intros k x deref Hd Hk Hx.
  - replace k with 0 by lia. by rewrite set_bits_none by lia.
  - simpl. destruct (Z.eqb_spec x 0) as [->|Hne]; [by rewrite set_bits_none by (intros; apply Z.bits_0)|].
    rewrite Hd by lia. destruct (log2_bit x) as [Hb Habove]; [lia|]. pose proof (Z.log2_nonneg x).
    assert (Z.log2 x < k) by (apply Z.log2_lt_pow2; lia). set (s := Z.log2 x) in *.
    rewrite (set_bits_split x 0 k s), (set_bits_none x (s + 1)) by (try done; intros; try apply Habove; lia).
    rewrite reverse_app. simpl. f_equal. rewrite (IH s), Z.sub_0_r; [|done | lia |].
    + f_equal. apply set_bits_ext. intros i Hi. rewrite testbit_clear by done.
      by rewrite (proj2 (Z.eqb_neq i s)), andb_true_r by lia.
    + apply Z.bounded_iff_bits_nonneg'; [done | by apply (clear_range x s k) |].
      intros i Hi. rewrite testbit_clear by done. destruct (Z.eqb_spec i s) as [->|]; [btauto|].
      by rewrite Habove by lia.
Qed.

(** Clearing a bit that is set, by exclusive or. *)
Lemma lxor_clear x s : 0 <= s -> Z.testbit x s = true -> Z.lxor x (Z.shiftl 1 s) = Z.ldiff x (Z.shiftl 1 s).
Proof.
  intros Hs Hb. apply Z.bits_inj'. intros i Hi. rewrite testbit_clear, Z.lxor_spec, Z.shiftl_1_l by done.
  destruct (Z.eqb_spec i s) as [->|].
  - by rewrite Hb, Z.pow2_bits_true.
  - rewrite Z.pow2_bits_false by lia. btauto.
Qed.

(** ** Rounding *)
Lemma land_opp_pow2 x k : 0 <= k <= 64 -> in_width 64 x -> Z.land x (u64 (- 2 ^ k)) = x / 2 ^ k * 2 ^ k.
Proof.
  intros Hk Hx. rewrite <- Z.shiftr_div_pow2, <- Z.shiftl_mul_pow2 by lia.
  replace (- 2 ^ k) with (Z.lnot (Z.ones k)) by (rewrite Z.ones_equiv; unfold Z.lnot; lia).
  apply Z.bits_inj'. intros i Hi. rewrite Z.land_spec, testbit_wrap, Z.lnot_spec, Z.shiftl_spec by lia.
  destruct (Z.ltb_spec i k).
  - rewrite Z.ones_spec_low, (Z.testbit_neg_r _ (i - k)) by lia. btauto.
  - rewrite Z.ones_spec_high, Z.shiftr_spec by lia. replace (i - k + k) with i by lia.
    destruct (Z.ltb_spec i 64); [btauto|]. rewrite (in_width_testbit 64 x i) by done. btauto.
Qed.

(** ** Powers of two *)
Lemma MSB_log2 w v : w = 32 \/ w = 64 -> 0 < v -> MostSignificantBit w v = Z.log2 v.
Proof.
  intros Hw Hv. unfold MostSignificantBit, CLZ, builtin_width.
  destruct (Z.eqb_spec v 0), (Z.eqb_spec w 32); lia.
Qed.
Lemma RoundUpToPowerOfTwo_done w x :
  w = 32 \/ w = 64 -> 2 <= x <= 2 ^ (w - 1) -> RoundUpToPowerOfTwo w x = 2 ^ (Z.log2 (x - 1) + 1).
Proof.
  intros Hw Hx. unfold RoundUpToPowerOfTwo. destruct (Z.ltb_spec x 2); [lia|].
  assert (Hp : 2 ^ (w - 1) < 2 ^ w) by (apply Z.pow_lt_mono_r; lia).
  assert (Hl : Z.log2 (x - 1) < w - 1) by (apply Z.log2_lt_pow2; lia). pose proof (Z.log2_nonneg (x - 1)).
  rewrite (wrap_small w (x - 1)) by (unfold in_width; lia). rewrite Z.shiftl_1_l.
  assert (w - CLZ w (x - 1) = Z.log2 (x - 1) + 1) as ->.
  { unfold CLZ, builtin_width. destruct (Z.eqb_spec w 32); lia. }
  apply wrap_small. split; [apply Z.pow_nonneg; lia | apply Z.pow_lt_mono_r; lia].
Qed.

Lemma RoundUp_pow2 k x : 0 <= k < 31 -> 0 <= x -> x + 2 ^ k <= 2 ^ 64 -> RoundUp x (2 ^ k) = (x + 2 ^ k - 1) / 2 ^ k * 2 ^ k.
Proof.
  intros Hk Hx Hx64. assert (Hp : 0 < 2 ^ k) by (apply Z.pow_pos_nonneg; lia). unfold RoundUp, RoundDown.
  by rewrite wrap_small, land_opp_pow2 by (unfold in_width; lia).
Qed.

(** Rounding is exact. For an alignment that is a power of two and an
    address range that does not wrap around, [RoundDown] is the greatest multiple
    of the alignment that is not above the value, [RoundUp] the least that is not
    below it, and [IsAligned] tells the multiples; [RoundUpToPowerOfTwo] is the
    least power of two that is not below the value. *)
Theorem rounding_exact k x w y :
  0 <= k < 31 -> 0 <= x -> x + 2 ^ k <= 2 ^ 64 -> (w = 32 \/ w = 64) -> 1 <= y <= 2 ^ (w - 1) ->
  (exists q, RoundDown x (2 ^ k) = q * 2 ^ k /\ q * 2 ^ k <= x < (q + 1) * 2 ^ k) /\
  (exists q, RoundUp x (2 ^ k) = q * 2 ^ k /\ (q - 1) * 2 ^ k < x <= q * 2 ^ k) /\
  IsAligned x (2 ^ k) = (x mod 2 ^ k =? 0) /\
  (exists j, RoundUpToPowerOfTwo w y = 2 ^ j /\ 0 <= j /\ y <= 2 ^ j /\ forall i, 0 <= i < j -> 2 ^ i < y).
Proof.
  intros Hk Hx Hx64 Hw Hy. assert (Hp : 0 < 2 ^ k) by (apply Z.pow_pos_nonneg; lia).
  split_and!.
  - exists (x / 2 ^ k). unfold RoundDown. rewrite land_opp_pow2 by (unfold in_width; lia). split; [done|].
    pose proof (Z.div_mod x (2 ^ k)). pose proof (Z.mod_pos_bound x (2 ^ k)). lia.
  - exists ((x + 2 ^ k - 1) / 2 ^ k). rewrite RoundUp_pow2 by lia. split; [done|].
    pose proof (Z.div_mod (x + 2 ^ k - 1) (2 ^ k)). pose proof (Z.mod_pos_bound (x + 2 ^ k - 1) (2 ^ k)). lia.
  - unfold IsAligned. replace (2 ^ k - 1) with (Z.ones k) by (rewrite Z.ones_equiv; lia). by rewrite Z.land_ones by lia.
  - destruct (decide (y = 1)) as [->|Hne].
    + exists 0. split_and!; [by destruct Hw as [-> | ->] | lia | lia | lia].
    + exists (Z.log2 (y - 1) + 1). destruct (Z.log2_spec (y - 1)) as [H1 H2]; [lia|]. pose proof (Z.log2_nonneg (y - 1)).
      rewrite RoundUpToPowerOfTwo_done by (try done; lia). rewrite <- Z.add_1_r in H2. split_and!; [done | lia | lia|].
      intros i Hi. assert (2 ^ i <= 2 ^ Z.log2 (y - 1)) by (apply Z.pow_le_mono_r; lia). lia.
Qed.

Lemma rounding_exact_witness : exists q, RoundUp 5000 4096 = q * 4096 /\ (q - 1) * 4096 < 5000 <= q * 4096.
Proof. exact (proj1 (proj2 (rounding_exact 12 5000 32 9 ltac:(lia) ltac:(lia) ltac:(lia) ltac:(lia) ltac:(lia)))). Defined.

Lemma head_iterate deref n x :
  (n <> 0)%nat -> head (iterate_bits deref n x) = if x =? 0 then None else Some (deref x).
Proof. destruct n as [|n]; [done|]. intros _. cbn [iterate_bits]. by destruct (x =? 0). Qed.

(** The bit iterators visit every set bit once. On a word of 32 or 64 bits
    the fuel is enough: [LowToHighBits] lists the positions of the set bits in
    increasing and [HighToLowBits] in decreasing order; the first ones are
    [LeastSignificantBit] and [MostSignificantBit]. *)
Theorem bit_iteration w x :
  w = 32 \/ w = 64 -> 0 <= x < 2 ^ w ->
  LowToHighBits w x = set_bits x 0 w /\ HighToLowBits w x = reverse (set_bits x 0 w) /\
  head (LowToHighBits w x) = (if x =? 0 then None else Some (LeastSignificantBit x)) /\
  head (HighToLowBits w x) = (if x =? 0 then None else Some (MostSignificantBit w x)).
Proof.
  intros Hw Hx. unfold LowToHighBits, HighToLowBits. split_and!.
  - rewrite (iterate_low w _ 0), Z.sub_0_r; [done | lia | done | lia | lia].
  - apply iterate_high; [|lia | done]. intros y Hy. unfold CLZ, builtin_width. destruct (Z.eqb_spec w 32); lia.
  - unfold LeastSignificantBit. rewrite head_iterate by lia. by destruct (x =? 0).
  - unfold MostSignificantBit. rewrite head_iterate by lia. by destruct (x =? 0).
Qed.
Lemma bit_iteration_witness : LowToHighBits 32 0x8011 = [0; 4; 15] /\ HighToLowBits 32 0x8011 = [15; 4; 0].
Proof.
  destruct (bit_iteration 32 0x8011) as (-> & -> & _); [lia | lia|]. split; vm_compute; reflexivity.
Defined.

(** [CLZ] counts in 64 bits for the types of 8 and 16 bits, and the position of
    their highest bit comes out negative. *)
Lemma MostSignificantBit_uint16 : MostSignificantBit 16 1 = -48.
Proof. reflexivity. Qed.

(** ** Ranges *)

(** The range tests are exact. For a signed type of [w] bits and a value of
    it: [IsInt] with [k] bits tests the range of a two's complement number of [k]
    bits, which is from [MinInt] to [MaxInt]; [IsUint] tests that of an unsigned
    one; and [IsAbsoluteUint] tests that of the absolute value, also for the
    least value, which has no opposite. *)
Theorem range_tests_exact w k v :
  0 < k < w -> - 2 ^ (w - 1) <= v < 2 ^ (w - 1) ->
  IsInt w k v = bool_decide (- 2 ^ (k - 1) <= v < 2 ^ (k - 1)) /\
  IsInt w k v = bool_decide (MinInt_signed w k <= v <= MaxInt_signed w k) /\
  IsInt_checked w k v = Some (IsInt w k v) /\
  IsUint w k v = bool_decide (0 <= v < 2 ^ k) /\
  IsAbsoluteUint w k v = bool_decide (Z.abs v < 2 ^ k).
Proof.
  intros Hk Hv. assert (Hkw : 2 ^ k <= 2 ^ (w - 1)) by (apply Z.pow_le_mono_r; lia).
  assert (Hw : 2 ^ w = 2 * 2 ^ (w - 1)) by (rewrite <- Z.pow_succ_r by lia; f_equal; lia).
  assert (Hk1 : 2 ^ k = 2 * 2 ^ (k - 1)) by (rewrite <- Z.pow_succ_r by lia; f_equal; lia).
  assert (0 < 2 ^ (k - 1)) by (apply Z.pow_pos_nonneg; lia).
  assert (Hu : forall u, 0 <= u < 2 ^ w -> IsUint w k u = bool_decide (0 <= u < 2 ^ k)).
  { intros u Hu. unfold IsUint, GetIntLimit. rewrite Z.shiftl_1_l, !wrap_small by (unfold in_width; lia).
    rewrite (proj2 (Z.eqb_neq k w)) by lia. case_bool_decide; lia. }
  assert (Hi : IsInt w k v = bool_decide (- 2 ^ (k - 1) <= v < 2 ^ (k - 1))).
  { unfold IsInt, GetIntLimit. rewrite Z.shiftl_1_l, (proj2 (Z.eqb_neq k w)) by lia. case_bool_decide; lia. }
  split_and!; [done | | | |].
  - assert (Hm : MaxInt_signed w k = 2 ^ (k - 1) - 1).
    { unfold MaxInt_signed. rewrite (proj2 (Z.eqb_neq k w)) by lia. destruct (Z.eqb_spec k 1) as [->|]; [done|].
      unfold MaxInt_unsigned. rewrite (proj2 (Z.eqb_neq (k - 1) w)), Z.shiftl_1_l by lia.
      rewrite !wrap_small by (unfold in_width; rewrite ?wrap_small by (unfold in_width; lia); lia). done. }
    assert (MinInt_signed w k = - 2 ^ (k - 1)) as ->.
    { unfold MinInt_signed. rewrite Hm, (proj2 (Z.eqb_neq k w)) by lia. destruct (Z.eqb_spec k 1) as [->|]; [done | lia]. }
    rewrite Hi, Hm. apply bool_decide_ext. lia.
  - unfold IsInt_checked. rewrite Hi, Z.shiftl_1_l, (proj2 (Z.eqb_neq k w)) by lia.
    replace ((0 <? k) && (k <? w)) with true by lia. f_equal. by case_bool_decide; lia.
  - destruct (Z.ltb_spec v 0).
    + unfold IsUint. rewrite (proj2 (Z.leb_gt 0 v)), bool_decide_eq_false_2 by lia. done.
    + apply Hu. lia.
  - unfold IsAbsoluteUint. rewrite (proj2 (Z.eqb_neq k w)) by lia. destruct (Z.ltb_spec v 0).
    + rewrite (wrap_small w (-1 - v)), wrap_small by (unfold in_width; rewrite ?wrap_small by (unfold in_width; lia); lia).
      rewrite Hu by lia. apply bool_decide_ext. lia.
    + rewrite wrap_small, Hu by (unfold in_width; lia). apply bool_decide_ext. lia.
Qed.
Lemma range_tests_exact_witness : IsAbsoluteUint 32 8 (-255) = true /\ IsInt 32 12 (-2048) = true.
Proof.
  destruct (range_tests_exact 32 8 (-255)) as (_ & _ & _ & _ & ->); [lia | lia|].
  destruct (range_tests_exact 32 12 (-2048)) as (-> & _); [lia | lia|]. split; vm_compute; reflexivity.
Defined.
