(* ===== verification/Mem.v ===== *)
(** Byte-addressed memory of the process, as the runtime reads and writes it:
    little-endian words of 1, 2, 4 and 8 bytes, [memcpy], and the zero pages
    that [mmap] hands out and [madvise(MADV_DONTNEED)] brings back.

    A memory is a finite map from addresses to bytes; an address that was
    never written reads as [0].  Two memories are equivalent when every
    address reads the same in both. *)
From stdpp Require Import prelude gmap.
From Stdlib Require Import ZArith Lia.
From S2P Require Import Prelude.
Open Scope Z_scope.

Abbreviation mem := (gmap Z Z).

Definition load8 (m : mem) (a : Z) : Z := default 0 (m !! a).
Definition store8 (m : mem) (a v : Z) : mem := <[a := u8 v]> m.

(** Little-endian words of [n] bytes. *)
Fixpoint loadw (n : nat) (m : mem) (a : Z) : Z :=
  match n with
  | O => 0
  | S n => load8 m a + 256 * loadw n m (a + 1)
  end.
Fixpoint storew (n : nat) (m : mem) (a v : Z) : mem :=
  match n with
  | O => m
  | S n => store8 (storew n m (a + 1) (v / 256)) a v
  end.
Abbreviation load16 := (loadw 2).
Abbreviation load32 := (loadw 4).
Abbreviation load64 := (loadw 8).
Abbreviation store16 := (storew 2).
Abbreviation store32 := (storew 4).
Abbreviation store64 := (storew 8).

Fixpoint load_bytes (m : mem) (a : Z) (n : nat) : list Z :=
  match n with
  | O => []
  | S n => load8 m a :: load_bytes m (a + 1) n
  end.
Fixpoint store_bytes (m : mem) (a : Z) (bs : list Z) : mem :=
  match bs with
  | [] => m
  | b :: bs => store_bytes (store8 m a b) (a + 1) bs
  end.

(** [std::memcpy] of [n] bytes; the ranges do not overlap in the callers. *)
Definition memcpy (m : mem) (dst src n : Z) : mem :=
  store_bytes m dst (load_bytes m src (Z.to_nat n)).

(** [madvise(a, n, MADV_DONTNEED)] on an anonymous private mapping: the range
    reads as zero afterwards. *)
Definition madvise_dontneed (m : mem) (a n : Z) : mem :=
  store_bytes m a (replicate (Z.to_nat n) 0).

(** Every byte of memory is a byte. *)
Definition mem_ok (m : mem) : Prop := map_Forall (fun _ v => in_width 8 v) m.

(** Equivalence of memories, and agreement on a range and outside of one. *)
Definition mem_eq (m1 m2 : mem) : Prop := forall a, load8 m1 a = load8 m2 a.
Definition agree_on (m1 m2 : mem) (a n : Z) : Prop :=
  forall x, a <= x < a + n -> load8 m1 x = load8 m2 x.
Definition agree_outside (m1 m2 : mem) (a n : Z) : Prop :=
  forall x, ~ (a <= x < a + n) -> load8 m1 x = load8 m2 x.
#[export] Instance mem_equiv : Equiv mem := mem_eq.

#[export] Instance mem_eq_equivalence : Equivalence mem_eq.
Proof.
  split; [intros m a; done | intros m1 m2 H a; by rewrite H | intros m1 m2 m3 H1 H2 a].
  by rewrite H1.
Qed.

(** ** Bytes *)
Lemma load8_store8_eq m a v : load8 (store8 m a v) a = u8 v.
Proof. unfold load8, store8. by rewrite lookup_insert_eq. Qed.

Lemma load8_store8_ne m a b v : a <> b -> load8 (store8 m a v) b = load8 m b.
Proof. intros. unfold load8, store8. by rewrite lookup_insert_ne. Qed.

Lemma load8_store8 m a b v : load8 (store8 m a v) b = if decide (a = b) then u8 v else load8 m b.
Proof. case_decide; [subst; apply load8_store8_eq | by apply load8_store8_ne]. Qed.

Lemma mem_ok_load8 m a : mem_ok m -> in_width 8 (load8 m a).
Proof.
  intros H. unfold load8. destruct (m !! a) eqn:E; [by eapply H | unfold in_width; simpl; lia].
Qed.

Lemma mem_ok_store8 m a v : mem_ok m -> mem_ok (store8 m a v).
Proof. intros H. apply map_Forall_insert_2; [apply wrap_range; lia | done]. Qed.

Lemma mem_ok_empty : mem_ok ∅.
Proof. apply map_Forall_empty. Qed.

(** ** Byte strings *)
Lemma load8_store_bytes bs m a x :
  load8 (store_bytes m a bs) x =
    if decide (a <= x < a + Z.of_nat (length bs)) then u8 (nth (Z.to_nat (x - a)) bs 0) else load8 m x.
Proof.
  revert m a; induction bs as [|b bs IH]; intros m a; simpl.
  { rewrite decide_False by lia. done. }
  rewrite IH, load8_store8.
  destruct (decide (a = x)) as [->|Hne].
  - rewrite decide_False by lia. rewrite decide_True by lia.
    replace (Z.to_nat (x - x)) with O by lia. done.
  - destruct (decide (a + 1 <= x < a + 1 + Z.of_nat (length bs))).
    + rewrite decide_True by lia.
      replace (Z.to_nat (x - a)) with (S (Z.to_nat (x - (a + 1)))) by lia. done.
    + rewrite decide_False by lia. done.
Qed.

Lemma length_load_bytes m a n : length (load_bytes m a n) = n.
Proof. revert a; induction n as [|n IH]; intros a; simpl; [done | by rewrite IH]. Qed.

Lemma nth_load_bytes m a n i : (i < n)%nat -> nth i (load_bytes m a n) 0 = load8 m (a + Z.of_nat i).
Proof.
  revert a i; induction n as [|n IH]; intros a [|i] Hi; simpl; try lia.
  - f_equal; lia.
  - rewrite IH by lia. f_equal; lia.
Qed.

Lemma load_bytes_ext m1 m2 a n :
  agree_on m1 m2 a (Z.of_nat n) -> load_bytes m1 a n = load_bytes m2 a n.
Proof.
  unfold agree_on. revert a; induction n as [|n IH]; intros a H; simpl; [done|].
  rewrite (H a), IH; [done | intros x Hx; apply H; lia | lia].
Qed.

Lemma load_bytes_store_bytes m a bs :
  Forall (in_width 8) bs -> load_bytes (store_bytes m a bs) a (length bs) = bs.
Proof.
  intros Hbs. apply (nth_ext _ _ 0 0); [by rewrite length_load_bytes|].
  rewrite length_load_bytes. intros i Hi.
  rewrite nth_load_bytes, load8_store_bytes, decide_True by lia.
  replace (Z.to_nat (a + Z.of_nat i - a)) with i by lia.
  apply wrap_small. rewrite Forall_forall in Hbs. apply Hbs, list_elem_of_In, nth_In. done.
Qed.

Lemma load_bytes_ok m a n : mem_ok m -> Forall (in_width 8) (load_bytes m a n).
Proof. intros H; revert a; induction n; intros a; simpl; constructor; auto using mem_ok_load8. Qed.

Lemma mem_ok_store_bytes m a bs : mem_ok m -> mem_ok (store_bytes m a bs).
Proof. revert m a; induction bs; intros; simpl; auto using mem_ok_store8. Qed.

Lemma store_bytes_outside m a bs : agree_outside (store_bytes m a bs) m a (Z.of_nat (length bs)).
Proof. intros x Hx. rewrite load8_store_bytes, decide_False by lia. done. Qed.

Lemma load8_memcpy m d s n x : mem_ok m -> 0 <= n ->
  load8 (memcpy m d s n) x = if decide (d <= x < d + n) then load8 m (s + (x - d)) else load8 m x.
Proof.
  intros Hm Hn. unfold memcpy. rewrite load8_store_bytes, length_load_bytes, Z2Nat.id by lia.
  case_decide; [|done]. rewrite nth_load_bytes, Z2Nat.id by lia.
  apply wrap_small, mem_ok_load8, Hm.
Qed.

Lemma load8_madvise m a n x : 0 <= n ->
  load8 (madvise_dontneed m a n) x = if decide (a <= x < a + n) then 0 else load8 m x.
Proof.
  intros Hn. unfold madvise_dontneed. rewrite load8_store_bytes, length_replicate, Z2Nat.id by lia.
  case_decide; [|done]. rewrite nth_lookup.
  rewrite lookup_replicate_2 by lia. done.
Qed.

Lemma mem_ok_memcpy m d s n : mem_ok m -> mem_ok (memcpy m d s n).
Proof. apply mem_ok_store_bytes. Qed.

Lemma mem_ok_madvise m a n : mem_ok m -> mem_ok (madvise_dontneed m a n).
Proof. apply mem_ok_store_bytes. Qed.

(** ** Words *)
Lemma pow2_bytes_succ n : 2 ^ (8 * Z.of_nat (S n)) = 256 * 2 ^ (8 * Z.of_nat n).
Proof. replace (8 * Z.of_nat (S n)) with (8 + 8 * Z.of_nat n) by lia. by rewrite Z.pow_add_r by lia. Qed.

Lemma loadw_range n m a : mem_ok m -> in_width (8 * Z.of_nat n) (loadw n m a).
Proof.
  intros Hm; revert a; induction n as [|n IH]; intros a; simpl loadw.
  - unfold in_width; simpl; lia.
  - pose proof (mem_ok_load8 m a Hm) as H8. specialize (IH (a + 1)).
    unfold in_width in *. rewrite pow2_bytes_succ. change (2 ^ 8) with 256 in H8. lia.
Qed.

Lemma loadw_ext n m1 m2 a : agree_on m1 m2 a (Z.of_nat n) -> loadw n m1 a = loadw n m2 a.
Proof.
  unfold agree_on; revert a; induction n as [|n IH]; intros a H; simpl; [done|].
  rewrite (H a), IH; [done | intros x Hx; apply H; lia | lia].
Qed.

Lemma storew_outside n m a v : agree_outside (storew n m a v) m a (Z.of_nat n).
Proof.
  unfold agree_outside; revert a v; induction n as [|n IH]; intros a v x Hx; simpl; [done|].
  rewrite load8_store8_ne by lia. apply IH. lia.
Qed.

Lemma mem_ok_storew n m a v : mem_ok m -> mem_ok (storew n m a v).
Proof. intros Hm; revert a v; induction n; intros; simpl; auto using mem_ok_store8. Qed.

Lemma loadw_storew_eq n m a v : loadw n (storew n m a v) a = wrap (8 * Z.of_nat n) v.
Proof.
  revert a v; induction n as [|n IH]; intros a v; simpl storew; simpl loadw.
  - unfold wrap. by rewrite Z.mod_1_r.
  - rewrite load8_store8_eq.
    rewrite (loadw_ext n _ (storew n m (a + 1) (v / 256))).
    2: { intros x Hx. apply load8_store8_ne. lia. }
    rewrite IH. unfold wrap. rewrite pow2_bytes_succ. change (2 ^ 8) with 256.
    rewrite Z.rem_mul_r by lia. lia.
Qed.

Lemma loadw_storew_ne n n' m a b v :
  a + Z.of_nat n <= b \/ b + Z.of_nat n' <= a ->
  loadw n' (storew n m a v) b = loadw n' m b.
Proof. intros H. apply loadw_ext. intros x Hx. apply storew_outside. lia. Qed.

Lemma loadw_store8_ne n' m a b v :
  a + 1 <= b \/ b + Z.of_nat n' <= a -> loadw n' (store8 m a v) b = loadw n' m b.
Proof. intros H. apply loadw_ext. intros x Hx. apply load8_store8_ne. lia. Qed.

Lemma load8_storew_ne n m a b v :
  b < a \/ a + Z.of_nat n <= b -> load8 (storew n m a v) b = load8 m b.
Proof. intros H. apply storew_outside. lia. Qed.

(** A word is made of the bytes it covers. *)
Lemma loadw_byte n m a i : mem_ok m -> (i < n)%nat ->
  load8 m (a + Z.of_nat i) = loadw n m a / 2 ^ (8 * Z.of_nat i) mod 256.
Proof.
  intros Hm; revert a i; induction n as [|n IH]; intros a i Hi; [lia|].
  pose proof (mem_ok_load8 m a Hm) as H8. unfold in_width in H8. change (2 ^ 8) with 256 in H8.
  simpl loadw. destruct i as [|i].
  - change (2 ^ (8 * Z.of_nat 0)) with 1. rewrite Z.div_1_r.
    replace (load8 m a + 256 * loadw n m (a + 1)) with (load8 m a + loadw n m (a + 1) * 256) by lia.
    rewrite Z.mod_add, Z.mod_small by lia. f_equal. lia.
  - rewrite pow2_bytes_succ, <- Z.div_div by lia.
    replace (load8 m a + 256 * loadw n m (a + 1)) with (load8 m a + loadw n m (a + 1) * 256) by lia.
    rewrite Z.div_add, (Z.div_small (load8 m a)) by lia. rewrite Z.add_0_l, <- IH by lia.
    f_equal. lia.
Qed.

#[export] Hint Resolve mem_ok_load8 mem_ok_store8 mem_ok_storew mem_ok_store_bytes mem_ok_memcpy
  mem_ok_madvise loadw_range : marvin.

Create Rewrite HintDb mem.
#[export] Hint Rewrite load8_store8_eq loadw_storew_eq : mem.
#[export] Hint Rewrite load8_store8_ne loadw_storew_ne loadw_store8_ne load8_storew_ne using lia : mem.
Ltac simpl_mem := autorewrite with mem.

#[export] Instance load8_proper : Proper (mem_eq ==> eq ==> eq) load8.
Proof. intros m1 m2 H a b <-. apply H. Qed.
#[export] Instance loadw_proper n : Proper (mem_eq ==> eq ==> eq) (loadw n).
Proof. intros m1 m2 H a b <-. apply loadw_ext. intros x _. apply H. Qed.
#[export] Instance store8_proper : Proper (mem_eq ==> eq ==> eq ==> mem_eq) store8.
Proof. intros m1 m2 H a b <- v w <- x. rewrite !load8_store8. case_decide; [done | apply H]. Qed.
#[export] Instance storew_proper n : Proper (mem_eq ==> eq ==> eq ==> mem_eq) (storew n).
Proof.
  intros m1 m2 H a b <- v w <-. revert a v; induction n; intros a v; simpl; [done|].
  by apply store8_proper.
Qed.

#[global] Arguments loadw : simpl never.
#[global] Arguments storew : simpl never.
#[global] Arguments load_bytes : simpl never.
#[global] Arguments store_bytes : simpl never.
