(* ===== verification/ObjectHeader.v ===== *)
(** The four bytes that Marvin adds to the header of every managed object
    (runtime/mirror/object.h): flags, access bits, dirty byte and the two
    shift registers of the Clock working-set estimate, with the accessors of
    runtime/mirror/object-inl.h and the temperature test of
    runtime/marvin_common.h.

    The accessors act on the byte memory at the object's address, so that
    what they do to a word that is not an object (a stub) is also defined.
    [header_of] reads the bytes as the fields the block comment of object.h
    lays out, and [header_refines] shows that every accessor acts on that
    field alone. *)
From stdpp Require Import prelude gmap.
From Stdlib Require Import ZArith Lia Btauto.
From S2P Require Import Prelude Bits Mem.
Open Scope Z_scope.

(** ** Layout of [mirror::Object]: byte offsets of the members. *)
Definition klass_offset : Z := 0.
Definition monitor_offset : Z := 4.
Definition x_flags_offset : Z := 8.
Definition x_shift_regs_offset : Z := 9.
Definition x_dirty_bit_offset : Z := 10.
Definition x_access_bits_offset : Z := 11.
Definition x_padding_offset : Z := 12.
Definition kObjectHeaderSize : Z := 16.

Definition x_flags (m : mem) (o : Z) : Z := load8 m (o + x_flags_offset).
Definition x_shift_regs (m : mem) (o : Z) : Z := load8 m (o + x_shift_regs_offset).
Definition x_dirty_bit (m : mem) (o : Z) : Z := load8 m (o + x_dirty_bit_offset).
Definition x_access_bits (m : mem) (o : Z) : Z := load8 m (o + x_access_bits_offset).

(** ** Accessors *)
Definition to_bool (z : Z) : bool := negb (z =? 0).

Definition GetIgnoreReadFlag (m : mem) (o : Z) : bool :=
  to_bool (GetBits8 (x_access_bits m o) 0 1).
Definition SetIgnoreReadFlag (m : mem) (o : Z) : mem :=
  store8 m (o + x_access_bits_offset) (SetBits8 (x_access_bits m o) 0 1).
Definition ClearIgnoreReadFlag (m : mem) (o : Z) : mem :=
  store8 m (o + x_access_bits_offset) (ClearBits8 (x_access_bits m o) 0 1).

Definition GetWriteBit (m : mem) (o : Z) : bool :=
  to_bool (GetBits8 (x_access_bits m o) 2 1).
Definition SetWriteBit (m : mem) (o : Z) : mem :=
  store8 m (o + x_access_bits_offset) (SetBits8 (x_access_bits m o) 2 1).
Definition ClearWriteBit (m : mem) (o : Z) : mem :=
  store8 m (o + x_access_bits_offset) (ClearBits8 (x_access_bits m o) 2 1).

Definition GetReadBit (m : mem) (o : Z) : bool :=
  to_bool (GetBits8 (x_access_bits m o) 1 1).
Definition SetReadBit (m : mem) (o : Z) : mem :=
  store8 m (o + x_access_bits_offset) (SetBits8 (x_access_bits m o) 1 1).
Definition ClearReadBit (m : mem) (o : Z) : mem :=
  store8 m (o + x_access_bits_offset) (ClearBits8 (x_access_bits m o) 1 1).

Definition GetWriteShiftRegister (m : mem) (o : Z) : Z := GetBits8 (x_shift_regs m o) 0 4.
Definition UpdateWriteShiftRegister (m : mem) (o : Z) (written : bool) : mem :=
  let oldVal := GetWriteShiftRegister m o in
  let newVal := u8 (Z.lor (Z.shiftr oldVal 1) (Z.shiftl (Z.b2z written) (4 - 1))) in
  store8 m (o + x_shift_regs_offset) (AssignBits8 (x_shift_regs m o) newVal 0 4).

Definition GetReadShiftRegister (m : mem) (o : Z) : Z := GetBits8 (x_shift_regs m o) 4 4.
Definition UpdateReadShiftRegister (m : mem) (o : Z) (read : bool) : mem :=
  let oldVal := GetReadShiftRegister m o in
  let newVal := u8 (Z.lor (Z.shiftr oldVal 1) (Z.shiftl (Z.b2z read) (4 - 1))) in
  store8 m (o + x_shift_regs_offset) (AssignBits8 (x_shift_regs m o) newVal 4 4).

Definition GetDirtyBit (m : mem) (o : Z) : bool := to_bool (x_dirty_bit m o).
Definition SetDirtyBit (m : mem) (o : Z) : mem := store8 m (o + x_dirty_bit_offset) 1.
Definition ClearDirtyBit (m : mem) (o : Z) : mem := store8 m (o + x_dirty_bit_offset) 0.

Definition GetStubFlag (m : mem) (o : Z) : bool := to_bool (GetBitsAtomic8 (x_flags m o) 7 1).
Definition GetNoSwapFlag (m : mem) (o : Z) : bool := to_bool (GetBitsAtomic8 (x_flags m o) 2 1).
Definition SetNoSwapFlag (m : mem) (o : Z) : mem :=
  store8 m (o + x_flags_offset) (SetBitsAtomic8 (x_flags m o) 2 1).

Definition GetPadding (m : mem) (o : Z) : Z := load32 m (o + x_padding_offset).
Definition SetPadding (m : mem) (o v : Z) : mem := store32 m (o + x_padding_offset) v.

(** ** Temperature (marvin_common.h) *)
Definition objectIsCold (writeShiftRegVal : Z) (wasWritten : bool) : bool :=
  (writeShiftRegVal <? 2) && negb wasWritten.
Definition objectIsLarge (objectSize : Z) : bool := 2 * 1024 <=? objectSize.

(** ** The abstract header *)
Record header := mkHeader {
  h_ignore_read : bool;
  h_read : bool;
  h_write : bool;
  h_no_swap : bool;
  h_stub : bool;
  h_dirty : bool;
  h_wsr : Z;
  h_rsr : Z
}.

Definition header_of (m : mem) (o : Z) : header :=
  mkHeader (GetIgnoreReadFlag m o) (GetReadBit m o) (GetWriteBit m o) (GetNoSwapFlag m o)
    (GetStubFlag m o) (GetDirtyBit m o) (GetWriteShiftRegister m o) (GetReadShiftRegister m o).

Inductive header_op :=
| OpSetIgnoreRead | OpClearIgnoreRead
| OpSetWrite | OpClearWrite
| OpSetRead | OpClearRead
| OpUpdateWsr (written : bool) | OpUpdateRsr (read : bool)
| OpSetDirty | OpClearDirty
| OpSetNoSwap.

Definition exec_op (op : header_op) (m : mem) (o : Z) : mem :=
  match op with
  | OpSetIgnoreRead => SetIgnoreReadFlag m o
  | OpClearIgnoreRead => ClearIgnoreReadFlag m o
  | OpSetWrite => SetWriteBit m o
  | OpClearWrite => ClearWriteBit m o
  | OpSetRead => SetReadBit m o
  | OpClearRead => ClearReadBit m o
  | OpUpdateWsr w => UpdateWriteShiftRegister m o w
  | OpUpdateRsr r => UpdateReadShiftRegister m o r
  | OpSetDirty => SetDirtyBit m o
  | OpClearDirty => ClearDirtyBit m o
  | OpSetNoSwap => SetNoSwapFlag m o
  end.

(** What the operations mean: one field each; a shift register moves down by
    one and takes the new sample as its top bit. *)
Definition shift_in (r : Z) (b : bool) : Z := r / 2 + 8 * Z.b2z b.

Definition spec_op (op : header_op) (h : header) : header :=
  let '(mkHeader i r w n s d wsr rsr) := h in
  match op with
  | OpSetIgnoreRead => mkHeader true r w n s d wsr rsr
  | OpClearIgnoreRead => mkHeader false r w n s d wsr rsr
  | OpSetWrite => mkHeader i r true n s d wsr rsr
  | OpClearWrite => mkHeader i r false n s d wsr rsr
  | OpSetRead => mkHeader i true w n s d wsr rsr
  | OpClearRead => mkHeader i false w n s d wsr rsr
  | OpUpdateWsr b => mkHeader i r w n s d (shift_in wsr b) rsr
  | OpUpdateRsr b => mkHeader i r w n s d wsr (shift_in rsr b)
  | OpSetDirty => mkHeader i r w n s true wsr rsr
  | OpClearDirty => mkHeader i r w n s false wsr rsr
  | OpSetNoSwap => mkHeader i r w true s d wsr rsr
  end.

Definition exec_ops (ops : list header_op) (m : mem) (o : Z) : mem :=
  fold_left (fun m op => exec_op op m o) ops m.
Definition spec_ops (ops : list header_op) (h : header) : header :=
  fold_left (fun h op => spec_op op h) ops h.

(** ** Lemmas: a byte is checked by trying all 256 values. *)
Definition all_bytes : list Z := seqZ 0 256.

Lemma byte_cases (P : Z -> bool) b :
  forallb P all_bytes = true -> in_width 8 b -> P b = true.
Proof.
  intros HP Hb. rewrite forallb_forall in HP. apply HP.
  apply list_elem_of_In, elem_of_seqZ. unfold in_width in Hb. lia.
Qed.

(** Header fields as functions of the three bytes they live in. *)
Definition header_bytes (f s d a : Z) : header :=
  mkHeader (to_bool (GetBits8 a 0 1)) (to_bool (GetBits8 a 1 1)) (to_bool (GetBits8 a 2 1))
    (to_bool (GetBitsAtomic8 f 2 1)) (to_bool (GetBitsAtomic8 f 7 1)) (to_bool d)
    (GetBits8 s 0 4) (GetBits8 s 4 4).


Lemma byte_dec (P : Z -> Prop) `{!forall z, Decision (P z)} b :
  forallb (fun z => bool_decide (P z)) all_bytes = true -> in_width 8 b -> P b.
Proof. intros HP Hb. apply (bool_decide_eq_true_1 (P b)), (byte_cases _ b HP Hb). Qed.

(** Prove a decidable statement about a byte [b] by evaluation. *)
Ltac by_bytes b :=
  match goal with
  | H : in_width 8 b |- ?G =>
      match eval pattern b in G with
      | ?P _ => apply (byte_dec P b); [vm_compute; reflexivity | exact H]
      end
  end.

Definition access_view (a : Z) : bool * bool * bool :=
  (to_bool (GetBits8 a 0 1), to_bool (GetBits8 a 1 1), to_bool (GetBits8 a 2 1)).

Lemma access_set a : in_width 8 a ->
  access_view (SetBits8 a 0 1) = (true, (access_view a).1.2, (access_view a).2) /\
  access_view (SetBits8 a 1 1) = ((access_view a).1.1, true, (access_view a).2) /\
  access_view (SetBits8 a 2 1) = ((access_view a).1.1, (access_view a).1.2, true).
Proof. intros H. by_bytes a. Qed.

Lemma access_clear a : in_width 8 a ->
  access_view (ClearBits8 a 0 1) = (false, (access_view a).1.2, (access_view a).2) /\
  access_view (ClearBits8 a 1 1) = ((access_view a).1.1, false, (access_view a).2) /\
  access_view (ClearBits8 a 2 1) = ((access_view a).1.1, (access_view a).1.2, false).
Proof. intros H. by_bytes a. Qed.

Definition shift_value (old : Z) (b : bool) : Z :=
  u8 (Z.lor (Z.shiftr old 1) (Z.shiftl (Z.b2z b) (4 - 1))).

Lemma shift_regs_update s b : in_width 8 s ->
  GetBits8 (AssignBits8 s (shift_value (GetBits8 s 0 4) b) 0 4) 0 4 = shift_in (GetBits8 s 0 4) b /\
  GetBits8 (AssignBits8 s (shift_value (GetBits8 s 0 4) b) 0 4) 4 4 = GetBits8 s 4 4 /\
  GetBits8 (AssignBits8 s (shift_value (GetBits8 s 4 4) b) 4 4) 4 4 = shift_in (GetBits8 s 4 4) b /\
  GetBits8 (AssignBits8 s (shift_value (GetBits8 s 4 4) b) 4 4) 0 4 = GetBits8 s 0 4.
Proof. intros H. destruct b; by_bytes s. Qed.

Lemma flags_no_swap f : in_width 8 f ->
  to_bool (GetBitsAtomic8 (SetBitsAtomic8 f 2 1) 2 1) = true /\
  to_bool (GetBitsAtomic8 (SetBitsAtomic8 f 2 1) 7 1) = to_bool (GetBitsAtomic8 f 7 1).
Proof. intros H. by_bytes f. Qed.

Lemma header_of_bytes m o :
  header_of m o = header_bytes (x_flags m o) (x_shift_regs m o) (x_dirty_bit m o) (x_access_bits m o).
Proof. reflexivity. Qed.

Lemma exec_op_outside op m o : agree_outside (exec_op op m o) m (o + 8) 4.
Proof.
  intros x Hx. destruct op; simpl;
    match goal with
    | |- load8 (?f _ _) _ = _ => unfold f
    | |- load8 (?f _ _ _) _ = _ => unfold f
    end; cbv zeta; apply load8_store8_ne;
    unfold x_access_bits_offset, x_shift_regs_offset, x_dirty_bit_offset, x_flags_offset; lia.
Qed.

Lemma exec_op_ok op m o : mem_ok m -> mem_ok (exec_op op m o).
Proof. intros. destruct op; apply mem_ok_store8; done. Qed.

(** The header after a store to one of its bytes. *)
Ltac header_store :=
  intros Hx; rewrite header_of_bytes; unfold x_flags, x_shift_regs, x_dirty_bit, x_access_bits,
    x_access_bits_offset, x_shift_regs_offset, x_dirty_bit_offset, x_flags_offset;
  rewrite load8_store8_eq, !load8_store8_ne by lia; by rewrite wrap_small.

Lemma header_store8_access m o a : in_width 8 a ->
  header_of (store8 m (o + x_access_bits_offset) a) o =
  header_bytes (x_flags m o) (x_shift_regs m o) (x_dirty_bit m o) a.
Proof. header_store. Qed.

Lemma header_store8_shift m o s : in_width 8 s ->
  header_of (store8 m (o + x_shift_regs_offset) s) o =
  header_bytes (x_flags m o) s (x_dirty_bit m o) (x_access_bits m o).
Proof. header_store. Qed.

Lemma header_store8_dirty m o d : in_width 8 d ->
  header_of (store8 m (o + x_dirty_bit_offset) d) o =
  header_bytes (x_flags m o) (x_shift_regs m o) d (x_access_bits m o).
Proof. header_store. Qed.

Lemma header_store8_flags m o f : in_width 8 f ->
  header_of (store8 m (o + x_flags_offset) f) o =
  header_bytes f (x_shift_regs m o) (x_dirty_bit m o) (x_access_bits m o).
Proof. header_store. Qed.

Ltac access_case H :=
  unfold SetIgnoreReadFlag, ClearIgnoreReadFlag, SetWriteBit, ClearWriteBit, SetReadBit, ClearReadBit;
  rewrite header_store8_access by (apply fields8_width; unfold field8; (lia || done));
  rewrite header_of_bytes; unfold header_bytes; simpl;
  unfold access_view in H; simpl in H; destruct H as (? & ? & ?); simplify_eq;
  congruence.

Lemma exec_op_spec op m o : mem_ok m -> header_of (exec_op op m o) o = spec_op op (header_of m o).
Proof.
  intros Hm.
  assert (Ha : in_width 8 (x_access_bits m o)) by (apply mem_ok_load8; done).
  assert (Hs : in_width 8 (x_shift_regs m o)) by (apply mem_ok_load8; done).
  assert (Hf : in_width 8 (x_flags m o)) by (apply mem_ok_load8; done).
  pose proof (access_set _ Ha) as HS. pose proof (access_clear _ Ha) as HC.
  destruct op; simpl exec_op.
  1-6: first [access_case HS | access_case HC].
  - unfold UpdateWriteShiftRegister, GetWriteShiftRegister; fold (shift_value (GetBits8 (x_shift_regs m o) 0 4) written).
    rewrite header_store8_shift by (apply fields8_width; unfold field8; (lia || done)).
    destruct (shift_regs_update _ written Hs) as (H1 & H2 & _).
    rewrite header_of_bytes; unfold header_bytes; simpl. by rewrite H1, H2.
  - unfold UpdateReadShiftRegister, GetReadShiftRegister; fold (shift_value (GetBits8 (x_shift_regs m o) 4 4) read).
    rewrite header_store8_shift by (apply fields8_width; unfold field8; (lia || done)).
    destruct (shift_regs_update _ read Hs) as (_ & _ & H1 & H2).
    rewrite header_of_bytes; unfold header_bytes; simpl. by rewrite H1, H2.
  - unfold SetDirtyBit. rewrite header_store8_dirty by (unfold in_width; lia). reflexivity.
  - unfold ClearDirtyBit. rewrite header_store8_dirty by (unfold in_width; lia). reflexivity.
  - unfold SetNoSwapFlag. destruct (flags_no_swap _ Hf) as (H1 & H2).
    rewrite header_store8_flags.
    + rewrite header_of_bytes; unfold header_bytes; simpl. by rewrite H1, H2.
    + apply lor_in_width; [lia | done | apply wrap_range; lia].
Qed.

(** ** Properties *)

(** C39: the accessors implement the documented layout. Any sequence of header
    operations on an object has, on the fields read back from memory, exactly
    the effect of the same sequence on an abstract header in which every
    operation changes one field; no byte outside the four header bytes
    changes. *)
Theorem header_refines ops m o :
  mem_ok m ->
  header_of (exec_ops ops m o) o = spec_ops ops (header_of m o) /\
  agree_outside (exec_ops ops m o) m (o + 8) 4.
Proof.
  revert m; induction ops as [|op ops IH]; intros m Hm; simpl.
  - split; [done | by intros ? ?].
  - destruct (IH (exec_op op m o)) as [H1 H2]; [by apply exec_op_ok|].
    split; [by rewrite H1, exec_op_spec|].
    intros x Hx. rewrite H2 by done. by apply exec_op_outside.
Qed.

Lemma header_refines_witness :
  header_of (exec_ops [OpSetWrite; OpSetDirty; OpUpdateWsr true; OpClearWrite; OpUpdateWsr false] ∅ 0x1000) 0x1000
  = mkHeader false false false false false true 4 0.
Proof.
  etransitivity; [apply (header_refines [OpSetWrite; OpSetDirty; OpUpdateWsr true; OpClearWrite; OpUpdateWsr false] ∅ 0x1000)|].
  - apply mem_ok_empty.
  - vm_compute. reflexivity.
Defined.

(** The register after a history of samples, oldest first. *)
Definition history (r : Z) (samples : list bool) : Z := fold_left shift_in samples r.

Lemma shift_in_range r b : in_width 4 r -> in_width 4 (shift_in r b).
Proof. unfold shift_in. intros. destruct b; unfold Z.b2z; div_lia. Qed.

Lemma history_range r l : in_width 4 r -> in_width 4 (history r l).
Proof. revert r; induction l; intros; simpl; auto using shift_in_range. Qed.

(** What "cold" means. When the collector has sampled an object at least
    four times, the write shift register is below 2 and the write bit is
    clear exactly when none of the last three samples and no write since
    then was recorded; older writes do not matter. *)
Theorem objectIsCold_history r l w4 w3 w2 w1 w0 :
  in_width 4 r ->
  objectIsCold (history r (l ++ [w4; w3; w2; w1])) w0 = negb (w3 || w2 || w1 || w0).
Proof.
  intros Hr. unfold history. rewrite fold_left_app. fold (history r l).
  pose proof (history_range r l Hr) as H. revert H. generalize (history r l). intros z Hz.
  simpl.
  assert (Hs : shift_in (shift_in (shift_in (shift_in z w4) w3) w2) w1
               = Z.b2z w4 + 2 * Z.b2z w3 + 4 * Z.b2z w2 + 8 * Z.b2z w1).
  { unfold shift_in. destruct w4, w3, w2, w1; unfold Z.b2z; div_lia. }
  rewrite Hs. unfold objectIsCold. destruct w4, w3, w2, w1, w0; reflexivity.
Qed.

Lemma objectIsCold_history_witness :
  objectIsCold (history 0 ([true] ++ [true; false; false; false])) false = true.
Proof. rewrite (objectIsCold_history 0 [true] true false false false false); [reflexivity | unfold in_width; lia]. Defined.
