(* ===== verification/Mirror.v ===== *)
(** Managed objects as the swapping code sees them (runtime/mirror/object-inl.h,
    array-inl.h, class-inl.h): field access on an object that is not a stub,
    [SizeOf], the type tests of [objectIsSwappableType]
    (runtime/marvin_common.h) and [VisitReferences].

    The metadata of classes is a table [ct] from the address of a class to
    what the code reads of it; class objects are never swapped out, and reads
    of their fields leave the memory alone.  Objects are bytes of the memory,
    with the class word at offset 0. *)
From stdpp Require Import prelude gmap list.
From Stdlib Require Import ZArith Lia Btauto.
From S2P Require Import Prelude Bits Mem ObjectHeader.
Open Scope Z_scope.

(** ** Classes *)
Definition kClassFlagNormal : Z := 0x0.
Definition kClassFlagNoReferenceFields : Z := 0x1.
Definition kClassFlagString : Z := 0x4.
Definition kClassFlagObjectArray : Z := 0x8.
Definition kClassFlagClass : Z := 0x10.
Definition kClassFlagClassLoader : Z := 0x20.
Definition kClassFlagDexCache : Z := 0x40.
Definition kClassFlagReference : Z :=
  Z.lor (Z.lor 0x80 0x100) (Z.lor 0x200 0x400).
Definition kClassWalkSuper : Z := 0xC0000000.
Definition ClassOffset : Z := klass_offset.

Record ClassInfo := mkClass {
  class_flags_ : Z;
  super_class_ : Z;                    (* 0 for java.lang.Object *)
  num_reference_instance_fields_ : Z;
  reference_instance_offsets_ : Z;     (* uint32_t bitmap, or kClassWalkSuper *)
  object_size_ : Z;
  component_type_ : option (bool * Z); (* of an array class: primitive?, size shift *)
  is_java_lang_Class_ : bool;
  class_size_ : Z;
  static_reference_offsets_ : list Z   (* of a resolved class *)
}.

(** ** Field access on an object that is not a stub *)
Definition note_read (m : mem) (o : Z) : mem := if GetIgnoreReadFlag m o then m else SetReadBit m o.
Definition note_write (m : mem) (o : Z) : mem := SetDirtyBit (SetWriteBit m o) o.

(** [GetField<kSize>] and [SetField<kSize>], for a size of [n] bytes. *)
Definition GetField (n : nat) (m : mem) (o field_offset : Z) : Z * mem :=
  let m := note_read m o in (loadw n m (o + field_offset), m).
Definition SetField (n : nat) (m : mem) (o field_offset new_value : Z) : mem :=
  note_write (storew n m (o + field_offset) new_value) o.
Definition GetFieldObject (m : mem) (o field_offset : Z) : Z * mem := GetField 4 m o field_offset.
Definition SetFieldObjectWithoutWriteBarrier (m : mem) (o field_offset new_value : Z) : mem :=
  note_write (store32 m (o + field_offset) new_value) o.
(** The compare-and-swap family: no header bit is touched.  The result is
    whether the swap took place. *)
Definition CasField (n : nat) (m : mem) (o field_offset old_value new_value : Z) : bool * mem :=
  if loadw n m (o + field_offset) =? old_value
  then (true, storew n m (o + field_offset) new_value)
  else (false, m).
Definition GetClass (m : mem) (o : Z) : Z * mem := GetFieldObject m o ClassOffset.

(** ** Arrays *)
Definition length_offset : Z := 16.
Definition first_element_offset : Z := 20.
Definition GetLength (m : mem) (o : Z) : Z * mem := GetField 4 m o length_offset.
Definition DataOffset (component_size : Z) : Z :=
  (first_element_offset + component_size - 1) / component_size * component_size.
Definition OffsetOfElement (i : Z) : Z := DataOffset 4 + i * 4.

Section Classes.
Context (ct : gmap Z ClassInfo).

Definition class_of (k : Z) : outcome ClassInfo :=
  match ct !! k with Some c => Done c | None => Faulted end.

(** The class and its super classes, up to java.lang.Object. *)
Fixpoint super_chain (fuel : nat) (k : Z) : outcome (list ClassInfo) :=
  match fuel with
  | O => Diverged
  | S fuel =>
      if k =? 0 then Done []
      else c ← class_of k; l ← super_chain fuel (super_class_ c); Done (c :: l)
  end.
(** More than enough for a hierarchy without cycles. *)
Definition chain_fuel : nat := S (size ct).

(** ** Sizes and types *)
Definition IsArrayClass (c : ClassInfo) : bool :=
  match component_type_ c with Some _ => true | None => false end.
Definition IsObjectArrayClass (c : ClassInfo) : bool :=
  match component_type_ c with Some (primitive, _) => negb primitive | None => false end.
Definition IsStringClass (c : ClassInfo) : bool :=
  negb (Z.land (class_flags_ c) kClassFlagString =? 0).
Definition IsClassLoaderClass (c : ClassInfo) : bool := class_flags_ c =? kClassFlagClassLoader.
Definition IsDexCacheClass (c : ClassInfo) : bool :=
  negb (Z.land (class_flags_ c) kClassFlagDexCache =? 0).
Definition IsTypeOfReferenceClass (c : ClassInfo) : bool :=
  negb (Z.land (class_flags_ c) kClassFlagReference =? 0).

Definition Array_SizeOf (m : mem) (o shift : Z) : Z :=
  let component_count := load32 m (o + length_offset) in
  DataOffset (Z.shiftl 1 shift) + Z.shiftl component_count shift.
(** sizeof(String) is 24: the header, [count_] and [hash_code_]. *)
Definition String_SizeOf (m : mem) (o : Z) : Z :=
  (24 + 2 * load32 m (o + 16) + 7) / 8 * 8.
(** [SizeOf] with the object's IgnoreReadFlag set, as the swapping code calls
    it.  Sizes are of type size_t. *)
Definition SizeOf (m : mem) (o : Z) : outcome Z :=
  c ← class_of (load32 m o);
  match component_type_ c with
  | Some (_, shift) => Done (u64 (Array_SizeOf m o shift))
  | None =>
      if is_java_lang_Class_ c then (ck ← class_of o; Done (u64 (class_size_ ck)))
      else if IsStringClass c then Done (u64 (String_SizeOf m o))
      else Done (u64 (object_size_ c))
  end.

Lemma SizeOf_range m o n : SizeOf m o = Done n -> in_width 64 n.
Proof.
  intros H. unfold SizeOf in H. destruct (class_of (load32 m o)) as [c| | |]; try done. rewrite obind_done in H.
  destruct (component_type_ c) as [[? ?]|]; [injection H as <-; by apply wrap_range|].
  destruct (is_java_lang_Class_ c).
  - destruct (class_of o); try done. rewrite obind_done in H. injection H as <-. by apply wrap_range.
  - destruct (IsStringClass c); injection H as <-; by apply wrap_range.
Qed.

Definition objectIsSwappableType (m : mem) (o : Z) : outcome bool :=
  c ← class_of (load32 m o);
  Done ((IsArrayClass c && negb (IsObjectArrayClass c))
        || (negb (IsArrayClass c) && negb (is_java_lang_Class_ c) && negb (IsClassLoaderClass c)
            && negb (IsDexCacheClass c) && negb (IsStringClass c) && negb (IsTypeOfReferenceClass c))).

(** ** [VisitReferences] *)

(** The offsets of [VisitFieldsReferences<false>], from the bitmap; a 32-bit
    bitmap is zero after 32 shifts. *)
Fixpoint bitmap_offsets (fuel : nat) (ref_offsets field_offset : Z) : list Z :=
  match fuel with
  | O => []
  | S fuel =>
      if ref_offsets =? 0 then []
      else (if Z.land ref_offsets 1 =? 0 then [] else [field_offset]) ++
           bitmap_offsets fuel (Z.shiftr ref_offsets 1) (field_offset + 4)
  end.
(** The slow path: walk up the inheritance hierarchy. *)
Definition GetFirstReferenceInstanceFieldOffset (super : option ClassInfo) : Z :=
  match super with
  | Some s => (object_size_ s + 3) / 4 * 4
  | None => ClassOffset
  end.
Fixpoint walk_offsets (chain : list ClassInfo) : list Z :=
  match chain with
  | [] => []
  | c :: chain =>
      let base := GetFirstReferenceInstanceFieldOffset (head chain) in
      filter (fun off => off <> ClassOffset)
        ((fun i => base + 4 * Z.of_nat i) <$> seq 0 (Z.to_nat (num_reference_instance_fields_ c)))
      ++ walk_offsets chain
  end.
Definition instance_offsets (k : Z) : outcome (list Z) :=
  c ← class_of k;
  if negb (reference_instance_offsets_ c =? kClassWalkSuper)
  then Done (bitmap_offsets 32 (reference_instance_offsets_ c) kObjectHeaderSize)
  else chain ← super_chain chain_fuel k; Done (walk_offsets chain).

(** What is visited after the class word.  The native roots of classes, class
    loaders and dex caches are left to [VisitRoot], which every visitor of the
    swapping code leaves empty. *)
Definition body_offsets (m : mem) (k o : Z) : outcome (list Z) :=
  c ← class_of k;
  let class_flags := class_flags_ c in
  if class_flags =? kClassFlagNormal then instance_offsets k
  else if Z.land class_flags kClassFlagNoReferenceFields =? 0 then
    if class_flags =? kClassFlagClass then
      l ← instance_offsets k; ck ← class_of o; Done (l ++ static_reference_offsets_ ck)
    else if class_flags =? kClassFlagObjectArray then
      Done ((fun i => OffsetOfElement (Z.of_nat i)) <$> seq 0 (Z.to_nat (load32 m (o + length_offset))))
    else instance_offsets k
  else Done [].
Definition is_reference (k : Z) : outcome bool :=
  c ← class_of k;
  Done (negb (class_flags_ c =? kClassFlagNormal)
        && (Z.land (class_flags_ c) kClassFlagNoReferenceFields =? 0)
        && negb (class_flags_ c =? kClassFlagClass) && negb (class_flags_ c =? kClassFlagObjectArray)
        && IsTypeOfReferenceClass c).

(** Visitors run on the memory and a state [V] of their own. *)
Definition on_mem {V} (f : mem -> mem) : M (mem * V) unit := modify (fun s => (f s.1, s.2)).
Definition read_class {V} (o : Z) : M (mem * V) Z :=
  fun s => let '(k, m) := GetClass s.1 o in Done (k, (m, s.2)).
Definition from_mem {V A} (f : mem -> outcome A) : M (mem * V) A :=
  fun s => a ← f s.1; Done (a, s).

Definition VisitReferences {V} (visitor : Z -> Z -> M (mem * V) unit)
    (ref_visitor : Z -> Z -> M (mem * V) unit) (o : Z) : M (mem * V) unit :=
  on_mem (fun m => SetIgnoreReadFlag m o);;
  k ← read_class o;
  visitor o ClassOffset;;
  k ← read_class o;
  offsets ← from_mem (fun m => body_offsets m k o);
  mfor offsets (visitor o);;
  r ← from_mem (fun _ => is_reference k);
  when r (ref_visitor k o);;
  on_mem (fun m => ClearIgnoreReadFlag m o).
End Classes.
