(* ===== verification/ReclamationTable.v ===== *)
(** The reclamation table shared with the kernel: [TableEntry] and
    [ReclamationTable] (runtime/marvin_reclamation_table.h and .cc).

    The table is the list of its entries together with the base address that
    [mmap] returned; the address of entry [i] is [base + 12 * i].  The
    sequential reading of the locking methods is here; their concurrent
    behaviour is in RteLock. *)
From stdpp Require Import prelude gmap list.
From Stdlib Require Import ZArith Lia Btauto.
From S2P Require Import Prelude Bits ObjectHeader.
Open Scope Z_scope.

Definition OCCUPIED_BIT_OFFSET : Z := 0.
Definition KERNEL_LOCK_BIT_OFFSET : Z := 1.
Definition RESIDENT_BIT_OFFSET : Z := 2.

(** ** [TableEntry] *)
Record TableEntry := mkEntry {
  bit_flags_ : Z;          (* std::atomic<uint8_t> *)
  app_lock_counter_ : Z;   (* std::atomic<uint8_t> *)
  num_pages_ : Z;          (* uint16_t *)
  object_address_ : Z;     (* uint32_t *)
  stub_back_pointer_ : Z   (* uint32_t, only used by compiled code *)
}.
Definition sizeof_TableEntry : Z := 12.

Definition GetBit (e : TableEntry) (offset : Z) : bool :=
  to_bool (Z.land (Z.shiftr (bit_flags_ e) offset) 0x1).
Definition SetBit (e : TableEntry) (offset : Z) : TableEntry :=
  mkEntry (Z.lor (bit_flags_ e) (u8 (Z.shiftl 1 offset))) (app_lock_counter_ e) (num_pages_ e)
    (object_address_ e) (stub_back_pointer_ e).
Definition ClearBit (e : TableEntry) (offset : Z) : TableEntry :=
  mkEntry (Z.land (bit_flags_ e) (u8 (Z.lnot (Z.shiftl 1 offset)))) (app_lock_counter_ e)
    (num_pages_ e) (object_address_ e) (stub_back_pointer_ e).

Definition GetOccupiedBit (e : TableEntry) : bool := GetBit e OCCUPIED_BIT_OFFSET.
Definition SetOccupiedBit (e : TableEntry) : TableEntry := SetBit e OCCUPIED_BIT_OFFSET.
Definition ClearOccupiedBit (e : TableEntry) : TableEntry := ClearBit e OCCUPIED_BIT_OFFSET.
Definition GetKernelLockBit (e : TableEntry) : bool := GetBit e KERNEL_LOCK_BIT_OFFSET.
Definition SetKernelLockBit (e : TableEntry) : TableEntry := SetBit e KERNEL_LOCK_BIT_OFFSET.
Definition ClearKernelLockBit (e : TableEntry) : TableEntry := ClearBit e KERNEL_LOCK_BIT_OFFSET.
Definition GetResidentBit (e : TableEntry) : bool := GetBit e RESIDENT_BIT_OFFSET.
Definition SetResidentBit (e : TableEntry) : TableEntry := SetBit e RESIDENT_BIT_OFFSET.
Definition ClearResidentBit (e : TableEntry) : TableEntry := ClearBit e RESIDENT_BIT_OFFSET.

Definition set_counter (e : TableEntry) (c : Z) : TableEntry :=
  mkEntry (bit_flags_ e) c (num_pages_ e) (object_address_ e) (stub_back_pointer_ e).
Definition GetAppLockCounter (e : TableEntry) : Z := app_lock_counter_ e.
Definition IncrAppLockCounter (e : TableEntry) : TableEntry :=
  set_counter e (u8 (app_lock_counter_ e + 1)).
Definition DecrAppLockCounter (e : TableEntry) : TableEntry :=
  set_counter e (u8 (app_lock_counter_ e - 1)).
Definition ZeroAppLockCounter (e : TableEntry) : TableEntry := set_counter e 0.

Definition GetNumPages (e : TableEntry) : Z := num_pages_ e.
Definition SetNumPages (e : TableEntry) (num : Z) : TableEntry :=
  mkEntry (bit_flags_ e) (app_lock_counter_ e) (u16 num) (object_address_ e) (stub_back_pointer_ e).
Definition RTE_GetObjectAddress (e : TableEntry) : Z := object_address_ e.
Definition RTE_SetObjectAddress (e : TableEntry) (obj : Z) : TableEntry :=
  mkEntry (bit_flags_ e) (app_lock_counter_ e) (num_pages_ e) (u32 obj) (stub_back_pointer_ e).

(** The two spin loops read the kernel lock bit; in a run in which no other
    thread clears it, a set bit keeps the caller in the loop. *)
Definition LockFromAppThread (e : TableEntry) : outcome TableEntry :=
  if GetKernelLockBit e then Diverged
  else
    let e := IncrAppLockCounter e in
    if GetKernelLockBit e then Diverged else Done e.
Definition UnlockFromAppThread (e : TableEntry) : TableEntry := DecrAppLockCounter e.

(** ** [ReclamationTable] *)
Record ReclamationTable := mkTable {
  base_address_ : Z;
  entries : list TableEntry
}.
Definition num_entries_ (t : ReclamationTable) : Z := Z.of_nat (length (entries t)).

(** A page of a fresh anonymous mapping reads as zero. *)
Definition zero_entry : TableEntry := mkEntry 0 0 0 0 0.

(** [mmap_result] is what [mmap] returned: [None] is [MAP_FAILED]. *)
Definition CreateTable (mmap_result : option Z) (numEntries : Z) : ReclamationTable :=
  match mmap_result with
  | None => mkTable 0 []
  | Some baseAddress => mkTable baseAddress (replicate (Z.to_nat numEntries) zero_entry)
  end.

Definition IsValid (t : ReclamationTable) : bool := negb (base_address_ t =? 0).

(** The initialisation of an entry found free. *)
Definition init_entry (e : TableEntry) : TableEntry :=
  SetOccupiedBit (RTE_SetObjectAddress (SetNumPages (ZeroAppLockCounter e) 0) 0).

(** [CreateEntry]: scan from [Begin()] to [End()].  The result is the index
    of the entry, [None] for [nullptr]. *)
Fixpoint CreateEntry_from (i : nat) (es : list TableEntry) : outcome (option nat * list TableEntry) :=
  match es with
  | [] => Done (None, [])
  | e :: es =>
      if negb (GetOccupiedBit e) then
        if GetKernelLockBit e then Aborted (* CHECK(curEntry->GetKernelLockBit() == 0) *)
        else Done (Some i, init_entry e :: es)
      else
        '(r, es) ← CreateEntry_from (S i) es;
        Done (r, e :: es)
  end.
Definition CreateEntry (t : ReclamationTable) : outcome (option nat * ReclamationTable) :=
  '(r, es) ← CreateEntry_from 0 (entries t);
  Done (r, mkTable (base_address_ t) es).

Definition FreeEntry (t : ReclamationTable) (i : nat) : ReclamationTable :=
  mkTable (base_address_ t) (alter ClearOccupiedBit i (entries t)).

Definition unlock_entry (e : TableEntry) : TableEntry :=
  if GetOccupiedBit e then ZeroAppLockCounter e else e.
Definition UnlockAllEntries (t : ReclamationTable) : ReclamationTable :=
  mkTable (base_address_ t) (map unlock_entry (entries t)).

(** Address of entry [i], and the entry a pointer designates. *)
Definition entry_address (t : ReclamationTable) (i : nat) : Z :=
  base_address_ t + sizeof_TableEntry * Z.of_nat i.
Definition entry_index (t : ReclamationTable) (p : Z) : option nat :=
  let d := p - base_address_ t in
  if (0 <=? d) && (d mod sizeof_TableEntry =? 0) && (d / sizeof_TableEntry <? num_entries_ t)
  then Some (Z.to_nat (d / sizeof_TableEntry)) else None.

(** ** Well-formedness *)
Definition entry_ok (e : TableEntry) : Prop :=
  in_width 8 (bit_flags_ e) /\ in_width 8 (app_lock_counter_ e) /\ in_width 16 (num_pages_ e) /\
  in_width 32 (object_address_ e) /\ in_width 32 (stub_back_pointer_ e).

(** The assumption A of CreateEntry's comment: the OS does not touch an entry
    whose occupied bit is clear. *)
Definition free_unlocked (e : TableEntry) : Prop :=
  GetOccupiedBit e = false -> GetKernelLockBit e = false.
Definition table_ok (t : ReclamationTable) : Prop :=
  Forall (fun e => entry_ok e /\ free_unlocked e) (entries t).

(** The abstract table: which slots are taken. *)
Definition occupied (t : ReclamationTable) : gset nat :=
  list_to_set (filter (fun i => GetOccupiedBit (nth i (entries t) zero_entry) = true)
                 (seq 0 (length (entries t)))).

(** ** Lemmas *)
Lemma GetBit_testbit e o : 0 <= o -> GetBit e o = Z.testbit (bit_flags_ e) o.
Proof.
  intros Ho. unfold GetBit, to_bool.
  change 1 with (Z.ones 1). rewrite Z.land_ones, Z.shiftr_div_pow2 by lia.
  change (2 ^ 1) with 2. rewrite <- Z.testbit_spec' by lia. by destruct (Z.testbit _ _).
Qed.

Lemma GetBit_SetBit e o o' : 0 <= o < 8 -> 0 <= o' ->
  GetBit (SetBit e o) o' = (o =? o') || GetBit e o'.
Proof.
  intros. rewrite !GetBit_testbit by lia. simpl.
  autorewrite with zbits. change 1 with (2 ^ 0).
  destruct (Z.eqb_spec o o') as [->|Hne].
  - rewrite Z.sub_diag, Z.pow2_bits_true by lia. split_ltb; btauto.
  - destruct (Z.ltb_spec o' 8); simpl; [|btauto].
    destruct (Z.leb_spec 0 (o' - o)).
    + rewrite Z.pow2_bits_false by lia. btauto.
    + kill_bits. btauto.
Qed.

Lemma GetBit_ClearBit e o o' : 0 <= o < 8 -> 0 <= o' -> in_width 8 (bit_flags_ e) ->
  GetBit (ClearBit e o) o' = negb (o =? o') && GetBit e o'.
Proof.
  intros. rewrite !GetBit_testbit by lia. simpl.
  autorewrite with zbits. change 1 with (2 ^ 0).
  destruct (Z.ltb_spec o' 8); kill_bits; simpl; [|btauto].
  destruct (Z.eqb_spec o o') as [->|Hne].
  - rewrite Z.sub_diag, Z.pow2_bits_true by lia. btauto.
  - destruct (Z.leb_spec 0 (o' - o)).
    + rewrite Z.pow2_bits_false by lia. btauto.
    + kill_bits. btauto.
Qed.

Lemma entry_ok_SetBit e o : entry_ok e -> entry_ok (SetBit e o).
Proof. intros (? & ?). split; [|done]. simpl. auto with marvin zarith. Qed.

Lemma entry_ok_ClearBit e o : entry_ok e -> entry_ok (ClearBit e o).
Proof. intros (? & ?). split; [|done]. simpl. auto with marvin zarith. Qed.

Lemma entry_ok_counter e c : in_width 8 c -> entry_ok e -> entry_ok (set_counter e c).
Proof. unfold entry_ok; simpl; tauto. Qed.

Lemma entry_ok_init e : entry_ok e -> entry_ok (init_entry e).
Proof.
  intros (? & ? & ? & ? & ?). unfold init_entry.
  apply entry_ok_SetBit. split_and!; simpl; try done; try (unfold in_width; lia); apply wrap_range; lia.
Qed.

(** Which flag bits the accessors read back after an update of another. *)
Ltac rte_bits :=
  unfold GetOccupiedBit, SetOccupiedBit, ClearOccupiedBit, GetKernelLockBit, SetKernelLockBit,
    ClearKernelLockBit, GetResidentBit, SetResidentBit, ClearResidentBit,
    OCCUPIED_BIT_OFFSET, KERNEL_LOCK_BIT_OFFSET, RESIDENT_BIT_OFFSET in *;
  rewrite ?GetBit_SetBit, ?GetBit_ClearBit by (lia || (simpl; assumption)).

Lemma GetBit_counter e c o : GetBit (set_counter e c) o = GetBit e o.
Proof. done. Qed.

Lemma init_entry_fields e :
  GetOccupiedBit (init_entry e) = true /\ GetKernelLockBit (init_entry e) = GetKernelLockBit e /\
  GetResidentBit (init_entry e) = GetResidentBit e /\
  app_lock_counter_ (init_entry e) = 0 /\ num_pages_ (init_entry e) = 0 /\
  object_address_ (init_entry e) = 0.
Proof. unfold init_entry. rte_bits. split_and!; done. Qed.

Lemma elem_of_occupied t i :
  i ∈ occupied t <-> exists e, entries t !! i = Some e /\ GetOccupiedBit e = true.
Proof.
  unfold occupied. rewrite elem_of_list_to_set, list_elem_of_filter, elem_of_seq.
  split.
  - intros [Ho Hi]. destruct (lookup_lt_is_Some_2 (entries t) i) as [e He]; [lia|].
    exists e. split; [done|]. rewrite nth_lookup, He in Ho. done.
  - intros (e & He & Ho). rewrite nth_lookup, He. split; [done|].
    apply lookup_lt_Some in He. lia.
Qed.

Lemma occupied_ext t1 t2 :
  (forall i, (exists e, entries t1 !! i = Some e /\ GetOccupiedBit e = true) <->
             (exists e, entries t2 !! i = Some e /\ GetOccupiedBit e = true)) ->
  occupied t1 = occupied t2.
Proof. intros H. apply set_eq. intros i. rewrite !elem_of_occupied. apply H. Qed.

(** [CreateEntry_from] finds the first free slot. *)
Lemma CreateEntry_from_spec es k :
  Forall free_unlocked es ->
  (exists i e, es !! i = Some e /\ GetOccupiedBit e = false /\
     (forall j e', (j < i)%nat -> es !! j = Some e' -> GetOccupiedBit e' = true) /\
     CreateEntry_from k es = Done (Some (k + i)%nat, <[i := init_entry e]> es)) \/
  (Forall (fun e => GetOccupiedBit e = true) es /\ CreateEntry_from k es = Done (None, es)).
Proof.
  revert k; induction es as [|e es IH]; intros k Hf; simpl.
  { right. done. }
  apply Forall_cons in Hf as [He Hf]. destruct (GetOccupiedBit e) eqn:Eo; simpl.
  - destruct (IH (S k) Hf) as [(i & e' & Hi & Ho & Hmin & HC) | [Hall HC]].
    + left. exists (S i), e'. split_and!; [done | done | | rewrite HC; simpl; do 3 f_equal; lia].
      intros [|j] e'' Hj Hl; simpl in Hl; [congruence|]. eapply Hmin; [|done]. lia.
    + right. rewrite HC. split; [by constructor | done].
  - left. exists 0%nat, e. rewrite (He Eo). split_and!; [done | done | | do 3 f_equal; lia].
    intros j e' Hj. lia.
Qed.

Lemma table_ok_free_unlocked t : table_ok t -> Forall free_unlocked (entries t).
Proof. intros H. eapply Forall_impl; [exact H|]. by intros e []. Qed.

Lemma init_entry_ok e : GetOccupiedBit e = false -> entry_ok e /\ free_unlocked e ->
  entry_ok (init_entry e) /\ free_unlocked (init_entry e).
Proof.
  intros Ho [He Hf]. split; [by apply entry_ok_init|]. intros H.
  destruct (init_entry_fields e) as (H' & _). congruence.
Qed.

Lemma CreateTable_ok r n : table_ok (CreateTable r n).
Proof.
  destruct r; simpl; [|constructor]. apply Forall_replicate. split.
  - split_and!; unfold in_width; simpl; lia.
  - intros _. reflexivity.
Qed.

Lemma entry_index_address t i :
  (i < length (entries t))%nat -> entry_index t (entry_address t i) = Some i.
Proof.
  intros Hi. unfold entry_index, entry_address, num_entries_, sizeof_TableEntry.
  replace (base_address_ t + 12 * Z.of_nat i - base_address_ t) with (Z.of_nat i * 12) by lia.
  rewrite Z.div_mul, Z.mod_mul by lia.
  destruct (Z.leb_spec 0 (Z.of_nat i * 12)); [|lia].
  destruct (Z.ltb_spec (Z.of_nat i) (Z.of_nat (length (entries t)))); [|lia].
  simpl. by rewrite Nat2Z.id.
Qed.

Lemma occupied_insert t i e :
  (i < length (entries t))%nat -> GetOccupiedBit e = true ->
  occupied (mkTable (base_address_ t) (<[i := e]> (entries t))) = {[i]} ∪ occupied t.
Proof.
  intros Hi He. apply set_eq. intros j.
  rewrite elem_of_union, elem_of_singleton, !elem_of_occupied. simpl.
  destruct (decide (j = i)) as [->|Hne].
  - rewrite list_lookup_insert_eq by done. split; [by left | eauto].
  - rewrite list_lookup_insert_ne by done. split; [by right | by intros [|]].
Qed.

Lemma FreeEntry_bits e : entry_ok e ->
  GetOccupiedBit (ClearOccupiedBit e) = false /\
  GetKernelLockBit (ClearOccupiedBit e) = GetKernelLockBit e /\
  GetResidentBit (ClearOccupiedBit e) = GetResidentBit e /\ entry_ok (ClearOccupiedBit e).
Proof.
  intros He. pose proof He as (Hb & _). rte_bits. split_and!; [done..|]. by apply entry_ok_ClearBit.
Qed.

(** ** Properties *)

(** [CreateEntry] implements a first-fit slot allocator. On a well-formed
    table it returns, takes the lowest free slot and only that one, hands it
    out with a zero lock counter, page count and object address, leaves every
    other entry as it is, and returns [nullptr] only when all slots are
    taken; the table stays well-formed. *)
Theorem CreateEntry_first_fit t :
  table_ok t ->
  exists r t', CreateEntry t = Done (r, t') /\ table_ok t' /\
    length (entries t') = length (entries t) /\
    match r with
    | Some i =>
        i ∉ occupied t /\ (forall j, (j < i)%nat -> j ∈ occupied t) /\
        occupied t' = {[i]} ∪ occupied t /\
        (forall j, j <> i -> entries t' !! j = entries t !! j) /\
        exists e, entries t' !! i = Some e /\ GetAppLockCounter e = 0 /\ GetNumPages e = 0 /\
                  RTE_GetObjectAddress e = 0
    | None => t' = t /\ forall i, (i < length (entries t))%nat -> i ∈ occupied t
    end.
Proof.
  intros Ht. unfold CreateEntry.
  destruct (CreateEntry_from_spec (entries t) 0 (table_ok_free_unlocked t Ht))
    as [(i & e & Hi & Ho & Hmin & ->) | [Hall ->]]; simpl.
  - assert (Hlt : (i < length (entries t))%nat) by (by eapply lookup_lt_Some).
    destruct (init_entry_fields e) as (Hoi & _ & _ & Hc & Hn & Ha).
    eexists (Some i), _. split_and!; [done | | by simpl; rewrite length_insert | | | | | ].
    + apply Forall_insert; [done|]. apply init_entry_ok; [done|]. exact (Forall_lookup_1 _ _ _ _ Ht Hi).
    + rewrite elem_of_occupied. intros (e' & He' & Ho'). congruence.
    + intros j Hj. rewrite elem_of_occupied.
      destruct (lookup_lt_is_Some_2 (entries t) j) as [e' He']; [lia | eauto].
    + by apply occupied_insert.
    + intros j Hj. simpl. by rewrite list_lookup_insert_ne.
    + exists (init_entry e). simpl. by rewrite list_lookup_insert_eq.
  - exists None, t. destruct t as [b es]. split_and!; [done | done | done | done |].
    intros i Hi. rewrite elem_of_occupied. simpl in *.
    destruct (lookup_lt_is_Some_2 es i) as [e He]; [done|].
    exists e. split; [done|]. exact (Forall_lookup_1 _ _ _ _ Hall He).
Qed.

Definition demo_table : ReclamationTable := CreateTable (Some 0x7000) 3.

Lemma CreateEntry_first_fit_witness :
  exists r t', CreateEntry demo_table = Done (r, t') /\ table_ok t'.
Proof.
  destruct (CreateEntry_first_fit demo_table (CreateTable_ok _ _)) as (r & t' & H & Hok & _).
  exists r, t'. split; [exact H | exact Hok].
Defined.

(** Freeing an occupied, unlocked entry makes exactly its slot free again
    and keeps the table well-formed, so that [CreateEntry] can reuse it; the
    entry keeps every other member, its resident bit included. *)
Theorem FreeEntry_frees t i e :
  table_ok t -> entries t !! i = Some e -> GetKernelLockBit e = false ->
  table_ok (FreeEntry t i) /\
  occupied (FreeEntry t i) = occupied t ∖ {[i]} /\
  (forall j, j <> i -> entries (FreeEntry t i) !! j = entries t !! j) /\
  exists e', entries (FreeEntry t i) !! i = Some e' /\
    GetResidentBit e' = GetResidentBit e /\ object_address_ e' = object_address_ e /\
    app_lock_counter_ e' = app_lock_counter_ e.
Proof.
  intros Ht He Hk.
  assert (Hok : entry_ok e) by exact (proj1 (Forall_lookup_1 _ _ _ _ Ht He)).
  destruct (FreeEntry_bits e Hok) as (Hf & Hkk & Hr & Hok').
  unfold FreeEntry; split_and!; simpl.
  - apply Forall_alter; [done|]. intros e' He'. simplify_eq. split; [done|].
    intros _. congruence.
  - apply set_eq. intros j. rewrite elem_of_difference, elem_of_singleton, !elem_of_occupied. simpl.
    destruct (decide (j = i)) as [->|Hne].
    + rewrite list_lookup_alter_eq, He. simpl. split; [|naive_solver].
      intros (e' & ? & ?). simplify_eq. congruence.
    + rewrite list_lookup_alter_ne by done. naive_solver.
  - intros j Hj. by rewrite list_lookup_alter_ne.
  - exists (ClearOccupiedBit e). rewrite list_lookup_alter_eq, He. done.
Qed.

Lemma FreeEntry_frees_witness :
  occupied (FreeEntry (mkTable 0x7000 [mkEntry 5 0 1 0xc0001000 0]) 0) = ∅.
Proof.
  destruct (FreeEntry_frees (mkTable 0x7000 [mkEntry 5 0 1 0xc0001000 0]) 0 (mkEntry 5 0 1 0xc0001000 0))
    as (_ & H & _).
  - constructor; [|constructor]. split; [|intros H; vm_compute in H; discriminate].
    unfold entry_ok; simpl; unfold in_width; lia.
  - reflexivity.
  - reflexivity.
  - rewrite H. vm_compute. reflexivity.
Defined.

(** [UnlockAllEntries] zeroes the lock counter of every occupied entry and
    changes nothing else. *)
Theorem UnlockAllEntries_spec t i :
  entries (UnlockAllEntries t) !! i = (unlock_entry <$> entries t !! i) /\
  occupied (UnlockAllEntries t) = occupied t /\
  forall e, entries (UnlockAllEntries t) !! i = Some e -> i ∈ occupied t -> GetAppLockCounter e = 0.
Proof.
  assert (H : entries (UnlockAllEntries t) !! i = unlock_entry <$> entries t !! i)
    by (unfold UnlockAllEntries; simpl; apply list_lookup_fmap).
  split_and!; [done | |].
  - apply occupied_ext. intros j. unfold UnlockAllEntries; simpl.
    change (map unlock_entry (entries t)) with (unlock_entry <$> entries t).
    rewrite list_lookup_fmap. unfold unlock_entry.
    destruct (entries t !! j) as [e|]; simpl; [|done].
    destruct (GetOccupiedBit e) eqn:E; naive_solver.
  - intros e. rewrite H, elem_of_occupied. intros He (e' & He' & Ho). rewrite He' in He.
    simplify_eq/=. unfold unlock_entry. by rewrite Ho.
Qed.

(** [CreateEntry] does not reset the resident bit: a slot freed while its
    object was resident is handed out again with the bit still set. *)
Theorem CreateEntry_stale_resident :
  let t := FreeEntry (mkTable 0x7000 [mkEntry 5 0 1 0xc0001000 0]) 0 in
  exists e t', CreateEntry t = Done (Some 0%nat, t') /\ entries t' !! 0%nat = Some e /\
    GetResidentBit e = true /\ RTE_GetObjectAddress e = 0.
Proof. cbv zeta. eexists _, _. split; [vm_compute; reflexivity|]. split; [reflexivity | split; reflexivity]. Qed.
