(* ===== verification/Stub.v ===== *)
(** Stubs (runtime/marvin_stub.h, marvin_stub-inl.h, marvin_stub.cc): the
    small objects that stand for swappable objects in the heap.  A stub keeps
    a pointer to the object's reclamation table entry and a copy of the
    object's references, so that the garbage collector can trace them while
    the object's pages are gone.

    A stub is bytes of the memory:
    [table_entry_] at 0, [x_flags_] at 8, [padding_b_] at 9, [num_refs_] at
    10, [forwarding_address_] at 12, and the references from 16 on. *)
From stdpp Require Import prelude gmap list.
From Stdlib Require Import ZArith Lia Btauto.
From S2P Require Import Prelude Bits Mem ObjectHeader Mirror ReclamationTable.
Open Scope Z_scope.

Definition sizeof_Stub : Z := 16.
Definition sizeof_HeapReference : Z := 4.
Definition table_entry_offset : Z := 0.
Definition stub_x_flags_offset : Z := 8.
Definition padding_b_offset : Z := 9.
Definition num_refs_offset : Z := 10.
Definition forwarding_address_offset : Z := 12.

(** ** Members *)
Definition GetTableEntry (m : mem) (s : Z) : Z := load64 m (s + table_entry_offset).
Definition SetTableEntry (m : mem) (s entry : Z) : mem := store64 m (s + table_entry_offset) entry.
Definition Stub_GetStubFlag (m : mem) (s : Z) : bool :=
  to_bool (GetBitsAtomic8 (load8 m (s + stub_x_flags_offset)) 7 1).
Definition SetStubFlag (m : mem) (s : Z) : mem :=
  store8 m (s + stub_x_flags_offset) (SetBitsAtomic8 (load8 m (s + stub_x_flags_offset)) 7 1).
Definition ClearFlags (m : mem) (s : Z) : mem :=
  store8 m (s + stub_x_flags_offset) (ClearBitsAtomic8 (load8 m (s + stub_x_flags_offset)) 0 8).
Definition GetNumRefs (m : mem) (s : Z) : Z := load16 m (s + num_refs_offset).
Definition SetNumRefs (m : mem) (s n : Z) : mem := store16 m (s + num_refs_offset) n.
Definition GetForwardingAddress (m : mem) (s : Z) : Z := load32 m (s + forwarding_address_offset).
Definition SetForwardingAddress (m : mem) (s addr : Z) : mem :=
  store32 m (s + forwarding_address_offset) addr.
Definition SetPaddingB (m : mem) (s v : Z) : mem := store8 m (s + padding_b_offset) v.

Definition GetReferenceAddress (s pos : Z) : Z := s + sizeof_Stub + pos * sizeof_HeapReference.
Definition GetReference (m : mem) (s pos : Z) : Z := load32 m (GetReferenceAddress s pos).
Definition SetReference (m : mem) (s pos ref : Z) : mem := store32 m (GetReferenceAddress s pos) ref.

Definition GetStubSize_refs (numRefs : Z) : Z := sizeof_Stub + numRefs * sizeof_HeapReference.
Definition Stub_GetSize (m : mem) (s : Z) : Z := GetStubSize_refs (GetNumRefs m s).

(** ** The table entry of a stub *)
Definition update_entry (t : ReclamationTable) (p : Z) (f : TableEntry -> TableEntry) :
    outcome ReclamationTable :=
  match entry_index t p with
  | Some i => Done (mkTable (base_address_ t) (alter f i (entries t)))
  | None => Faulted
  end.
Definition read_entry (t : ReclamationTable) (p : Z) : outcome TableEntry :=
  match entry_index t p with
  | Some i => match entries t !! i with Some e => Done e | None => Faulted end
  | None => Faulted
  end.
Definition GetObjectAddress (m : mem) (t : ReclamationTable) (s : Z) : outcome Z :=
  e ← read_entry t (GetTableEntry m s); Done (RTE_GetObjectAddress e).
Definition SetObjectAddress (m : mem) (t : ReclamationTable) (s obj : Z) : outcome ReclamationTable :=
  update_entry t (GetTableEntry m s) (fun e => RTE_SetObjectAddress e obj).

Section Stubs.
Context (ct : gmap Z ClassInfo).

(** ** Counting references *)
Definition sum_refs (chain : list ClassInfo) : Z :=
  foldr (fun c acc => u32 (num_reference_instance_fields_ c + acc)) 0 chain.
Definition CountReferences (m : mem) (object : Z) : outcome (Z * mem) :=
  let m := SetIgnoreReadFlag m object in
  let '(klass, m) := GetClass m object in
  let m := ClearIgnoreReadFlag m object in
  chain ← super_chain ct (chain_fuel ct) klass;
  (* klass->NumReferenceInstanceFields() faults on a null class *)
  match chain with
  | [] => Faulted
  | _ => Done (sum_refs chain, m)
  end.
Definition GetStubSize (m : mem) (object : Z) : outcome (Z * mem) :=
  '(n, m) ← CountReferences m object; Done (GetStubSize_refs n, m).

(** ** [PopulateFrom] and [CopyRefsInto] *)

(** The visitors keep [cur_ref_]. *)
Definition StubPopulateVisitor (stub obj offset : Z) : M (mem * Z) unit :=
  n ← gets (fun s => GetNumRefs s.1 stub);
  cur_ref ← gets snd;
  check (cur_ref <? n);;
  modify (fun s => let '(ref, m) := GetFieldObject s.1 obj offset in
                   (SetReference m stub cur_ref ref, s.2));;
  modify (fun s => (s.1, s.2 + 1)).
Definition CopyRefsVisitor (stub obj offset : Z) : M (mem * Z) unit :=
  modify (fun s =>
    let '(v, m) := GetFieldObject s.1 obj offset in
    let ref := GetReference m stub s.2 in
    (if v =? ref then m else SetFieldObjectWithoutWriteBarrier m obj offset ref, s.2 + 1)).
Definition DummyReferenceVisitor (klass ref : Z) : M (mem * Z) unit := mret tt.

Fixpoint clear_refs (n : nat) (m : mem) (stub : Z) : mem :=
  match n with
  | O => m
  | S n => SetReference (clear_refs n m stub) stub (Z.of_nat n) 0
  end.
Definition PopulateFrom (m : mem) (t : ReclamationTable) (stub object : Z) :
    outcome (mem * ReclamationTable) :=
  let m := ClearFlags m stub in
  let m := SetStubFlag m stub in
  t ← SetObjectAddress m t stub object;
  let m := SetForwardingAddress m stub 0 in
  let m := SetPaddingB m stub 0 in
  '(n, m) ← CountReferences m object;
  let m := SetNumRefs m stub n in
  let m := clear_refs (Z.to_nat (GetNumRefs m stub)) m stub in
  '(_, s) ← VisitReferences ct (StubPopulateVisitor stub) DummyReferenceVisitor object (m, 0);
  Done (s.1, t).
Definition CopyRefsInto (m : mem) (stub object : Z) : outcome mem :=
  '(_, s) ← VisitReferences ct (CopyRefsVisitor stub) DummyReferenceVisitor object (m, 0);
  Done s.1.

(** ** Layouts

    What [PopulateFrom] and [CopyRefsInto] rely on of the class of a swappable
    object at [o], of [size] bytes: its references, in the order in which they
    are visited, are at the word-aligned offsets [offs], the class word first,
    and [CountReferences] counts them. *)
Record layout (m : mem) (o size : Z) (offs : list Z) : Prop := {
  ly_body : exists body, offs = ClassOffset :: body /\
    body_offsets ct m (load32 m o) o = Done body /\
    Forall (fun off => kObjectHeaderSize <= off /\ off + 4 <= size /\ off mod 4 = 0) body /\
    NoDup body;
  ly_class : exists c, class_of ct (load32 m o) = Done c /\ class_flags_ c <> kClassFlagObjectArray /\
    IsTypeOfReferenceClass c = false;
  ly_chain : exists chain, super_chain ct (chain_fuel ct) (load32 m o) = Done chain /\ chain <> [] /\
    sum_refs chain = Z.of_nat (length offs);
  ly_size : kObjectHeaderSize <= size /\ Z.of_nat (length offs) < 65536
}.

(** ** Effect of the header flags *)
Lemma ignore_set m o : mem_ok m -> GetIgnoreReadFlag (SetIgnoreReadFlag m o) o = true.
Proof.
  intros Hm. unfold GetIgnoreReadFlag, SetIgnoreReadFlag, x_access_bits. rewrite load8_store8_eq.
  pose proof (mem_ok_load8 m (o + x_access_bits_offset) Hm) as Hb.
  generalize dependent (load8 m (o + x_access_bits_offset)). intros b Hb. by_bytes b.
Qed.
Lemma set_clear_ignore m o :
  mem_ok m -> ClearBits8 (u8 (SetBits8 (x_access_bits m o) 0 1)) 0 1 = ClearBits8 (x_access_bits m o) 0 1.
Proof.
  intros Hm. unfold x_access_bits.
  pose proof (mem_ok_load8 m (o + x_access_bits_offset) Hm) as Hb.
  generalize dependent (load8 m (o + x_access_bits_offset)). intros b Hb. by_bytes b.
Qed.

Lemma access_set_outside m o x : x <> o + x_access_bits_offset -> load8 (SetIgnoreReadFlag m o) x = load8 m x.
Proof. intros. by apply load8_store8_ne. Qed.
Lemma access_clear_outside m o x : x <> o + x_access_bits_offset -> load8 (ClearIgnoreReadFlag m o) x = load8 m x.
Proof. intros. by apply load8_store8_ne. Qed.
Lemma ignore_ext m m' o :
  load8 m' (o + x_access_bits_offset) = load8 m (o + x_access_bits_offset) ->
  GetIgnoreReadFlag m' o = GetIgnoreReadFlag m o.
Proof. unfold GetIgnoreReadFlag, x_access_bits. by intros ->. Qed.
Lemma mem_ok_ignore m o :
  mem_ok m -> mem_ok (SetIgnoreReadFlag m o) /\ mem_ok (ClearIgnoreReadFlag m o).
Proof. intros. split; by apply mem_ok_store8. Qed.
Lemma GetFieldObject_ignored m o off :
  GetIgnoreReadFlag m o = true -> GetFieldObject m o off = (load32 m (o + off), m).
Proof. intros H. unfold GetFieldObject, GetField, note_read. by rewrite H. Qed.

(** ** The populating visitor *)

(** The stub, with room for [n] references, is apart from the object. *)
Definition apart (s n o size : Z) : Prop :=
  s + sizeof_Stub + n * sizeof_HeapReference <= o \/ o + size <= s.

Lemma u32_load m a : mem_ok m -> u32 (load32 m a) = load32 m a.
Proof. intros Hm. apply wrap_small, (loadw_range 4 m a Hm). Qed.

Lemma populate_step s o off m c :
  GetIgnoreReadFlag m o = true -> c < GetNumRefs m s ->
  StubPopulateVisitor s o off (m, c) = Done (tt, (SetReference m s c (load32 m (o + off)), c + 1)).
Proof.
  intros Hig Hc. unfold StubPopulateVisitor. rewrite !bind_gets. cbn [fst snd].
  rewrite bind_check by lia. rewrite bind_modify. cbn [fst snd].
  by rewrite GetFieldObject_ignored.
Qed.

Lemma populate_loop s o size n offs : forall m c,
  mem_ok m -> GetIgnoreReadFlag m o = true -> GetNumRefs m s = n ->
  apart s n o size -> kObjectHeaderSize <= size ->
  0 <= c -> c + Z.of_nat (length offs) <= n ->
  Forall (fun off => 0 <= off /\ off + 4 <= size) offs ->
  exists m', mfor offs (StubPopulateVisitor s o) (m, c) = Done (tt, (m', c + Z.of_nat (length offs))) /\
    mem_ok m' /\
    agree_outside m' m (GetReferenceAddress s c) (4 * Z.of_nat (length offs)) /\
    forall i off, offs !! i = Some off -> GetReference m' s (c + Z.of_nat i) = load32 m (o + off).
Proof.
  induction offs as [|off offs IH]; intros m c Hm Hig Hn Hap Hsz Hc Hcn Hoffs.
  - exists m. simpl. split_and!; [by rewrite Z.add_0_r | done | by intros x _ | by intros []].
  - apply Forall_cons in Hoffs as [Hoff Hoffs]. simpl length in Hcn.
    set (m1 := SetReference m s c (load32 m (o + off))).
    assert (Hout : agree_outside m1 m (GetReferenceAddress s c) 4)
      by (apply (storew_outside 4)).
    unfold apart, GetReferenceAddress, sizeof_Stub, sizeof_HeapReference, kObjectHeaderSize in *.
    destruct (IH m1 (c + 1)) as (m' & Hrun & Hm' & Ho' & Hv); clear IH; try done; try lia.
    + by apply mem_ok_storew.
    + rewrite <- Hig. apply ignore_ext, Hout. unfold x_access_bits_offset. lia.
    + rewrite <- Hn. apply loadw_ext. intros x Hx. apply Hout. unfold num_refs_offset in Hx. lia.
    + exists m'. split_and!; [| done | |].
      * cbn [mfor]. rewrite (bind_done _ _ _ _ _ (populate_step s o off m c Hig ltac:(lia))). fold m1.
        rewrite Hrun. simpl. do 3 f_equal. lia.
      * intros x Hx. simpl in Hx. rewrite Ho' by lia. apply Hout. lia.
      * intros [|i] off' Hi; simpl in Hi.
        -- injection Hi as <-. unfold GetReference, GetReferenceAddress, sizeof_Stub, sizeof_HeapReference.
           rewrite Z.add_0_r, (loadw_ext 4 m' m1) by (intros x Hx; apply Ho'; lia).
           unfold m1, SetReference, GetReferenceAddress, sizeof_Stub, sizeof_HeapReference.
           rewrite loadw_storew_eq. by apply u32_load.
        -- replace (c + Z.of_nat (S i)) with (c + 1 + Z.of_nat i) by lia. rewrite (Hv _ _ Hi).
           apply loadw_ext. intros x Hx. apply Hout.
           pose proof (Forall_lookup_1 _ _ _ _ Hoffs Hi) as Ho2. simpl in Ho2. lia.
Qed.

(** ** Running [VisitReferences] *)
Lemma body_offsets_indep m m' k o c :
  class_of ct k = Done c -> class_flags_ c <> kClassFlagObjectArray ->
  body_offsets ct m k o = body_offsets ct m' k o.
Proof.
  intros Hc Hf. unfold body_offsets. rewrite Hc. cbn.
  destruct (_ =? kClassFlagNormal); [done|]. destruct (Z.land _ _ =? 0); [|done].
  destruct (_ =? kClassFlagClass); [done|]. by destruct (Z.eqb_spec (class_flags_ c) kClassFlagObjectArray).
Qed.

Lemma visit_done {V} (visitor ref_visitor : Z -> Z -> M (mem * V) unit) o m v m2 v2 body m3 v3 c :
  mem_ok m ->
  visitor o ClassOffset (SetIgnoreReadFlag m o, v) = Done (tt, (m2, v2)) ->
  GetIgnoreReadFlag m2 o = true ->
  class_of ct (load32 m2 o) = Done c -> IsTypeOfReferenceClass c = false ->
  body_offsets ct m2 (load32 m2 o) o = Done body ->
  mfor body (visitor o) (m2, v2) = Done (tt, (m3, v3)) ->
  VisitReferences ct visitor ref_visitor o (m, v) = Done (tt, (ClearIgnoreReadFlag m3 o, v3)).
Proof.
  intros Hm Hv Hig Hc Hr Hb Hf. unfold VisitReferences, on_mem. rewrite bind_modify. cbn [fst snd].
  erewrite bind_done.
  2: { unfold read_class, GetClass. cbn [fst]. rewrite GetFieldObject_ignored by (by apply ignore_set).
       reflexivity. }
  rewrite (bind_done _ _ _ _ _ Hv). erewrite bind_done.
  2: { unfold read_class, GetClass. cbn [fst]. by rewrite GetFieldObject_ignored. }
  unfold ClassOffset, klass_offset. rewrite Z.add_0_r. cbn [snd]. erewrite bind_done.
  2: { unfold from_mem. cbn [fst]. rewrite Hb. reflexivity. }
  rewrite (bind_done _ _ _ _ _ Hf). erewrite bind_done.
  2: { unfold from_mem, is_reference. rewrite Hc. cbn. reflexivity. }
  rewrite Hr, !andb_false_r. reflexivity.
Qed.

Lemma clear_refs_outside k m s : agree_outside (clear_refs k m s) m (s + 16) (4 * Z.of_nat k).
Proof.
  induction k as [|k IH]; intros x Hx; [done|]. cbn [clear_refs].
  unfold SetReference, GetReferenceAddress, sizeof_Stub, sizeof_HeapReference.
  rewrite load8_storew_ne by lia. apply IH. lia.
Qed.
Lemma mem_ok_clear_refs k m s : mem_ok m -> mem_ok (clear_refs k m s).
Proof. intros Hm. induction k; [done|]. by apply mem_ok_storew. Qed.

Lemma CountReferences_done m o size offs :
  mem_ok m -> layout m o size offs ->
  CountReferences m o =
  Done (Z.of_nat (length offs), ClearIgnoreReadFlag (SetIgnoreReadFlag m o) o).
Proof.
  intros Hm Hl. destruct (ly_chain _ _ _ _ Hl) as (chain & Hch & Hne & Hsum).
  unfold CountReferences, GetClass. rewrite GetFieldObject_ignored by (by apply ignore_set).
  unfold ClassOffset, klass_offset. rewrite Z.add_0_r.
  rewrite (loadw_ext 4 (SetIgnoreReadFlag m o) m)
    by (intros x Hx; apply access_set_outside; unfold x_access_bits_offset; lia).
  rewrite Hch. simpl. destruct chain; [done|]. by rewrite Hsum.
Qed.

Lemma layout_ext m m' o size offs :
  load32 m' o = load32 m o -> layout m o size offs -> layout m' o size offs.
Proof.
  intros E [(body & -> & Hb & Hf & Hnd) Hc Hch Hs].
  split; rewrite ?E; [|done|done|done]. exists body. split_and!; try done.
  destruct Hc as (c & Hc & Hfl & _). by rewrite (body_offsets_indep m' m _ _ c).
Qed.
Lemma layout_offsets m o size offs :
  layout m o size offs -> Forall (fun off => 0 <= off /\ off + 4 <= size) offs.
Proof.
  intros [(body & -> & _ & Hf & _) _ _ [Hs _]]. unfold kObjectHeaderSize in *. constructor.
  - unfold ClassOffset, klass_offset. lia.
  - eapply Forall_impl; [exact Hf|]. simpl. lia.
Qed.

(** The object at [o] is untouched but for its IgnoreReadFlag, which is clear. *)
Definition object_kept (m m' : mem) (o size : Z) : Prop :=
  (forall x, o <= x < o + size -> x <> o + x_access_bits_offset -> load8 m' x = load8 m x) /\
  x_access_bits m' o = ClearBits8 (x_access_bits m o) 0 1.

Lemma ClearBits8_byte b : in_width 8 b -> u8 (ClearBits8 b 0 1) = ClearBits8 b 0 1.
Proof. intros Hb. by_bytes b. Qed.

Lemma populate_visit m s o size offs :
  let n := Z.of_nat (length offs) in
  mem_ok m -> layout m o size offs -> apart s n o size -> GetNumRefs m s = n ->
  exists m', VisitReferences ct (StubPopulateVisitor s) DummyReferenceVisitor o (m, 0) = Done (tt, (m', n)) /\
    mem_ok m' /\ object_kept m m' o size /\
    (forall x, ~ (s + 16 <= x < s + 16 + 4 * n) -> x <> o + x_access_bits_offset -> load8 m' x = load8 m x) /\
    forall i off, offs !! i = Some off -> GetReference m' s (Z.of_nat i) = load32 m (o + off).
Proof.
  intros n Hm Hl Hap Hn. pose proof (layout_offsets _ _ _ _ Hl) as Hoffs.
  destruct (ly_size _ _ _ _ Hl) as [Hsz _]. destruct (ly_class _ _ _ _ Hl) as (c & Hc & Hfl & Hr).
  destruct (ly_body _ _ _ _ Hl) as (body & Eo & Hb & _ & _).
  set (m1 := SetIgnoreReadFlag m o). destruct (mem_ok_ignore m o Hm) as [Hm1 _].
  unfold apart, sizeof_Stub, sizeof_HeapReference, kObjectHeaderSize in *.
  assert (Hx1 : forall x, x <> o + x_access_bits_offset -> load8 m1 x = load8 m x)
    by (intros; by apply access_set_outside).
  assert (Hn1 : GetNumRefs m1 s = n).
  { rewrite <- Hn. apply loadw_ext. intros x Hx. apply Hx1.
    unfold num_refs_offset, x_access_bits_offset in *. lia. }
  assert (Hl1 : forall off, off ∈ offs -> load32 m1 (o + off) = load32 m (o + off)).
  { intros off Hin. apply loadw_ext. intros x Hx. apply Hx1. unfold x_access_bits_offset.
    rewrite Eo in Hin. apply elem_of_cons in Hin as [->|Hin]; [unfold ClassOffset, klass_offset in *; lia|].
    destruct (ly_body _ _ _ _ Hl) as (body' & Eo' & _ & Hf & _).
    rewrite Eo in Eo'. injection Eo' as <-. rewrite Forall_forall in Hf. specialize (Hf off Hin).
    unfold kObjectHeaderSize in Hf. lia. }
  destruct (populate_loop s o size n offs m1 0) as (m3 & Hrun & Hm3 & Ho3 & Hv); try done; try lia.
  { by apply ignore_set. }
  assert (Hpos : 0 < n) by (unfold n; rewrite Eo; simpl; lia).
  assert (Hig : GetIgnoreReadFlag m1 o = true) by (by apply ignore_set).
  rewrite Z.add_0_l in Hrun. fold n in Hrun, Ho3. rewrite Eo in Hrun. cbn [mfor] in Hrun.
  pose proof (populate_step s o ClassOffset m1 0 Hig ltac:(lia)) as Hstep.
  rewrite (bind_done _ _ _ _ _ Hstep) in Hrun. set (m2 := SetReference m1 s 0 _) in *.
  assert (Hx2 : agree_outside m2 m1 (s + 16) 4).
  { unfold m2, SetReference, GetReferenceAddress, sizeof_Stub, sizeof_HeapReference.
    rewrite Z.add_0_r. apply (storew_outside 4). }
  assert (Ek : load32 m2 o = load32 m o).
  { transitivity (load32 m1 o); apply loadw_ext; intros x Hx;
      [apply Hx2; lia | apply Hx1; unfold x_access_bits_offset; lia]. }
  exists (ClearIgnoreReadFlag m3 o). unfold GetReferenceAddress, sizeof_Stub, sizeof_HeapReference in Ho3.
  assert (Hout : forall x, ~ (s + 16 <= x < s + 16 + 4 * n) -> x <> o + x_access_bits_offset ->
    load8 (ClearIgnoreReadFlag m3 o) x = load8 m x).
  { intros x Hx Hne. rewrite access_clear_outside by done. rewrite Ho3 by lia. by apply Hx1. }
  split_and!.
  - eapply (visit_done _ _ o m 0 m2 _ body m3 n c Hm Hstep); [| by rewrite Ek | done | | done].
    + rewrite <- Hig. apply ignore_ext, Hx2. unfold x_access_bits_offset. lia.
    + by rewrite Ek, (body_offsets_indep m2 m _ _ c).
  - by apply mem_ok_ignore.
  - split; [intros x Hx Hne; apply Hout; [lia | done]|].
    unfold x_access_bits at 1, ClearIgnoreReadFlag. rewrite load8_store8_eq.
    unfold x_access_bits at 1. rewrite Ho3 by (unfold x_access_bits_offset; lia).
    unfold m1, SetIgnoreReadFlag. rewrite load8_store8_eq, (set_clear_ignore m o Hm).
    apply ClearBits8_byte, mem_ok_load8, Hm.
  - done.
  - intros i off Hi. rewrite <- (Hl1 off) by (by eapply list_elem_of_lookup_2).
    rewrite <- (Hv i off Hi), Z.add_0_l. unfold GetReference. apply loadw_ext. intros x Hx.
    apply access_clear_outside. apply lookup_lt_Some in Hi.
    unfold GetReferenceAddress, sizeof_Stub, sizeof_HeapReference, x_access_bits_offset in *. lia.
Qed.

(** What a stub [s] of the object at [o] holds. *)
Record stub_of (m : mem) (s o : Z) (refs : list Z) : Prop := {
  so_flag : GetStubFlag m s = true;
  so_num : GetNumRefs m s = Z.of_nat (length refs);
  so_forwarding : GetForwardingAddress m s = 0;
  so_refs : forall i r, refs !! i = Some r -> GetReference m s (Z.of_nat i) = r
}.

Lemma stub_flag_byte b :
  in_width 8 b -> to_bool (GetBitsAtomic8 (u8 (SetBitsAtomic8 (u8 (ClearBitsAtomic8 b 0 8)) 7 1)) 7 1) = true.
Proof. intros Hb. by_bytes b. Qed.

(** The memory when [PopulateFrom] starts to visit the object. *)
Definition populate_start (m : mem) (s o n : Z) : mem :=
  let m := SetPaddingB (SetForwardingAddress (SetStubFlag (ClearFlags m s) s) s 0) s 0 in
  let m := ClearIgnoreReadFlag (SetIgnoreReadFlag m o) o in
  clear_refs (Z.to_nat n) (SetNumRefs m s n) s.

Lemma populate_start_spec m s o n size :
  mem_ok m -> apart s n o size -> 0 <= n < 65536 -> kObjectHeaderSize <= size ->
  let m' := populate_start m s o n in
  mem_ok m' /\ GetStubFlag m' s = true /\ GetNumRefs m' s = n /\ GetForwardingAddress m' s = 0 /\
  (forall x, ~ (s + 8 <= x < s + 16 + 4 * n) -> x <> o + x_access_bits_offset -> load8 m' x = load8 m x) /\
  x_access_bits m' o = ClearBits8 (x_access_bits m o) 0 1.
Proof.
  intros Hm Hap Hn Hsz m'. unfold apart, sizeof_Stub, sizeof_HeapReference, kObjectHeaderSize in *.
  assert (Hc : forall x, ~ (s + 16 <= x < s + 16 + 4 * n) ->
    load8 m' x = load8 (SetNumRefs (ClearIgnoreReadFlag (SetIgnoreReadFlag
      (SetPaddingB (SetForwardingAddress (SetStubFlag (ClearFlags m s) s) s 0) s 0) o) o) s n) x).
  { intros x Hx. apply clear_refs_outside. lia. }
  set (ma := SetPaddingB (SetForwardingAddress (SetStubFlag (ClearFlags m s) s) s 0) s 0) in *.
  assert (Hma : mem_ok ma) by (repeat first [apply mem_ok_store8 | apply mem_ok_storew]; done).
  assert (Hax : forall x, ~ (s + 8 <= x < s + 16) -> load8 ma x = load8 m x).
  { intros x Hx. unfold ma, SetPaddingB, SetForwardingAddress, SetStubFlag, ClearFlags,
      padding_b_offset, forwarding_address_offset, stub_x_flags_offset. by simpl_mem. }
  set (mb := SetNumRefs _ s n) in Hc. unfold x_access_bits_offset in *. split_and!.
  - apply mem_ok_clear_refs. apply mem_ok_storew. apply mem_ok_ignore, mem_ok_ignore, Hma.
  - unfold GetStubFlag, x_flags, x_flags_offset. rewrite Hc by lia.
    unfold mb, SetNumRefs, num_refs_offset. rewrite load8_storew_ne by lia.
    rewrite access_clear_outside, access_set_outside by (unfold x_access_bits_offset; lia).
    unfold ma, SetPaddingB, SetForwardingAddress, SetStubFlag, ClearFlags, padding_b_offset,
      forwarding_address_offset, stub_x_flags_offset. simpl_mem.
    apply stub_flag_byte, mem_ok_load8, Hm.
  - unfold GetNumRefs.
    rewrite (loadw_ext 2 m' mb) by (intros x Hx; apply Hc; unfold num_refs_offset in Hx; lia).
    unfold mb, SetNumRefs. rewrite loadw_storew_eq. apply wrap_small. width_lia.
  - unfold GetForwardingAddress.
    rewrite (loadw_ext 4 m' mb) by (intros x Hx; apply Hc; unfold forwarding_address_offset in Hx; lia).
    unfold mb, SetNumRefs, forwarding_address_offset, num_refs_offset. rewrite loadw_storew_ne by lia.
    rewrite (loadw_ext 4 _ ma).
    2: { intros x Hx. rewrite access_clear_outside, access_set_outside; unfold x_access_bits_offset; [done|lia..]. }
    unfold ma, SetPaddingB, SetForwardingAddress, forwarding_address_offset, padding_b_offset. by simpl_mem.
  - intros x Hx Hne. rewrite Hc by lia. unfold mb, SetNumRefs, num_refs_offset. rewrite load8_storew_ne by lia.
    rewrite access_clear_outside, access_set_outside by done. apply Hax. lia.
  - unfold x_access_bits at 1. rewrite Hc by (unfold x_access_bits_offset; lia).
    unfold mb, SetNumRefs, num_refs_offset, x_access_bits_offset. rewrite load8_storew_ne by lia.
    unfold ClearIgnoreReadFlag, x_access_bits_offset. rewrite load8_store8_eq.
    unfold x_access_bits at 1, SetIgnoreReadFlag, x_access_bits_offset. rewrite load8_store8_eq.
    rewrite (set_clear_ignore ma o Hma). unfold x_access_bits, x_access_bits_offset. rewrite Hax by lia.
    apply ClearBits8_byte, mem_ok_load8, Hm.
Qed.

Lemma ClearBits8_idem b : in_width 8 b -> ClearBits8 (ClearBits8 b 0 1) 0 1 = ClearBits8 b 0 1.
Proof. intros Hb. by_bytes b. Qed.

(** The words of the object's references. *)
Definition ref_words (m : mem) (o : Z) (offs : list Z) : list Z := (fun off => load32 m (o + off)) <$> offs.

Lemma ref_words_ext m m' o size offs :
  layout m o size offs ->
  (forall x, o <= x < o + size -> x <> o + x_access_bits_offset -> load8 m' x = load8 m x) ->
  ref_words m' o offs = ref_words m o offs.
Proof.
  intros Hl H. destruct (ly_body _ _ _ _ Hl) as (body & -> & _ & Hf & _).
  destruct (ly_size _ _ _ _ Hl) as [Hsz _]. unfold kObjectHeaderSize in *.
  unfold ref_words, ClassOffset, klass_offset. csimpl. f_equal.
  - apply loadw_ext. intros x Hx. apply H; unfold x_access_bits_offset; lia.
  - apply list_fmap_ext. intros i off Hi. apply loadw_ext. intros x Hx.
    pose proof (Forall_lookup_1 _ _ _ _ Hf Hi) as Hb. simpl in Hb.
    apply H; unfold x_access_bits_offset; lia.
Qed.

Lemma PopulateFrom_done m t s o size offs i :
  let n := Z.of_nat (length offs) in
  mem_ok m -> layout m o size offs -> apart s n o size ->
  entry_index t (GetTableEntry m s) = Some i ->
  exists m', PopulateFrom m t s o =
      Done (m', mkTable (base_address_ t) (alter (fun e => RTE_SetObjectAddress e o) i (entries t))) /\
    mem_ok m' /\ stub_of m' s o (ref_words m o offs) /\ object_kept m m' o size /\
    (forall x, ~ (s + 8 <= x < s + 16 + 4 * n) -> x <> o + x_access_bits_offset -> load8 m' x = load8 m x).
Proof.
  intros n Hm Hl Hap Hi. destruct (ly_size _ _ _ _ Hl) as [Hsz Hlen].
  destruct (populate_start_spec m s o n size Hm Hap ltac:(lia) Hsz)
    as (Hm1 & Hf1 & Hn1 & Hfw1 & Hx1 & Ha1). set (m1 := populate_start m s o n) in *.
  unfold apart, sizeof_Stub, sizeof_HeapReference, kObjectHeaderSize in *.
  assert (Hl1 : layout m1 o size offs).
  { eapply layout_ext; [|exact Hl]. apply loadw_ext. intros x Hx.
    apply Hx1; unfold x_access_bits_offset; lia. }
  destruct (populate_visit m1 s o size offs Hm1 Hl1 Hap Hn1) as (m' & Hrun & Hm' & [Hk1 Hk2] & Hx & Hv).
  exists m'. split_and!; [| done | | |].
  - unfold PopulateFrom. set (ma := SetPaddingB _ s 0).
    assert (Hma : mem_ok ma) by (repeat first [apply mem_ok_store8 | apply mem_ok_storew]; done).
    assert (Hax : forall x, ~ (s + 8 <= x < s + 16) -> load8 ma x = load8 m x).
    { intros x Hx'. unfold ma, SetPaddingB, SetForwardingAddress, SetStubFlag, ClearFlags,
        padding_b_offset, forwarding_address_offset, stub_x_flags_offset. by simpl_mem. }
    assert (Et : GetTableEntry (SetStubFlag (ClearFlags m s) s) s = GetTableEntry m s).
    { apply loadw_ext. intros x Hx'. unfold SetStubFlag, ClearFlags, stub_x_flags_offset,
        table_entry_offset in *. by simpl_mem. }
    unfold SetObjectAddress, update_entry. rewrite Et, Hi, obind_done.
    assert (Hla : layout ma o size offs).
    { eapply layout_ext; [|exact Hl]. apply loadw_ext. intros x Hx'. apply Hax. lia. }
    fold ma. rewrite (CountReferences_done _ _ _ _ Hma Hla), obind_done. fold n. cbv zeta.
    set (mc := SetNumRefs _ s n).
    assert (En : GetNumRefs mc s = n).
    { unfold mc, GetNumRefs, SetNumRefs. rewrite loadw_storew_eq. apply wrap_small. width_lia. }
    rewrite En. change (clear_refs (Z.to_nat n) mc s) with m1. by rewrite Hrun, obind_done.
  - split.
    + rewrite <- Hf1. unfold GetStubFlag, x_flags, x_flags_offset.
      rewrite Hx by (unfold x_access_bits_offset; lia). done.
    + unfold ref_words. rewrite length_fmap. fold n. rewrite <- Hn1. apply loadw_ext. intros x Hx'.
      unfold num_refs_offset in Hx'. apply Hx; unfold x_access_bits_offset; lia.
    + rewrite <- Hfw1. apply loadw_ext. intros x Hx'. unfold forwarding_address_offset in Hx'.
      apply Hx; unfold x_access_bits_offset; lia.
    + intros j r Hj. rewrite <- (ref_words_ext m m1 o size offs) in Hj;
        [|done|intros x Hx' Hne; apply Hx1; [lia | done]].
      unfold ref_words in Hj. rewrite list_lookup_fmap in Hj.
      destruct (offs !! j) as [off|] eqn:E; [|done]. injection Hj as <-. by apply Hv.
  - split.
    + intros x Hx' Hne. rewrite Hk1 by done. apply Hx1; [lia | done].
    + rewrite Hk2, Ha1. apply ClearBits8_idem, mem_ok_load8, Hm.
  - intros x Hx' Hne. rewrite Hx by (lia || done). apply Hx1; [lia | done].
Qed.

(** ** The copying visitor *)
Lemma copy_step s o off m c :
  GetIgnoreReadFlag m o = true ->
  CopyRefsVisitor s o off (m, c) =
  Done (tt, (if load32 m (o + off) =? GetReference m s c then m
             else SetFieldObjectWithoutWriteBarrier m o off (GetReference m s c), c + 1)).
Proof. intros H. unfold CopyRefsVisitor, modify. cbn [fst snd]. by rewrite GetFieldObject_ignored. Qed.

Lemma ignore_write_byte b :
  in_width 8 b -> to_bool (GetBits8 (u8 (SetBits8 b 2 1)) 0 1) = to_bool (GetBits8 b 0 1).
Proof. intros Hb. by_bytes b. Qed.

(** An offset of a reference, as far as the copying loop is concerned. *)
Definition ref_offset (size off : Z) : Prop :=
  (off = ClassOffset \/ kObjectHeaderSize <= off) /\ off + 4 <= size /\ off mod 4 = 0.

Lemma set_ref_spec m o off v size :
  mem_ok m -> ref_offset size off -> in_width 32 v ->
  let m1 := SetFieldObjectWithoutWriteBarrier m o off v in
  mem_ok m1 /\ load32 m1 (o + off) = v /\ GetDirtyBit m1 o = true /\
  GetIgnoreReadFlag m1 o = GetIgnoreReadFlag m o /\
  forall x, ~ (o + off <= x < o + off + 4) -> x <> o + 10 -> x <> o + 11 -> load8 m1 x = load8 m x.
Proof.
  intros Hm [Hoff _] Hv m1. unfold ClassOffset, klass_offset, kObjectHeaderSize in *.
  unfold m1, SetFieldObjectWithoutWriteBarrier, note_write, SetDirtyBit, SetWriteBit,
    GetDirtyBit, GetIgnoreReadFlag, x_dirty_bit, x_access_bits, x_dirty_bit_offset, x_access_bits_offset.
  split_and!.
  - apply mem_ok_store8, mem_ok_store8, mem_ok_storew, Hm.
  - simpl_mem. by apply wrap_small.
  - by simpl_mem.
  - simpl_mem. rewrite ignore_write_byte; [done | by apply mem_ok_load8].
  - intros x Hx H10 H11. by simpl_mem.
Qed.

Lemma copy_loop s o size n offs : forall m c,
  mem_ok m -> GetIgnoreReadFlag m o = true -> apart s n o size -> kObjectHeaderSize <= size ->
  0 <= c -> c + Z.of_nat (length offs) <= n -> Forall (ref_offset size) offs -> NoDup offs ->
  exists m', mfor offs (CopyRefsVisitor s o) (m, c) = Done (tt, (m', c + Z.of_nat (length offs))) /\
    mem_ok m' /\ GetIgnoreReadFlag m' o = true /\
    (forall i off, offs !! i = Some off -> load32 m' (o + off) = GetReference m s (c + Z.of_nat i)) /\
    (forall x, (forall off, off ∈ offs -> ~ (o + off <= x < o + off + 4)) ->
       x <> o + 10 -> x <> o + 11 -> load8 m' x = load8 m x) /\
    (m' = m \/ GetDirtyBit m' o = true).
Proof.
  induction offs as [|off offs IH]; intros m c Hm Hig Hap Hsz Hc Hcn Hoffs Hnd.
  - exists m. simpl. rewrite Z.add_0_r. split_and!; auto; by intros [].
  - apply Forall_cons in Hoffs as [Hoff Hoffs]. apply NoDup_cons in Hnd as [Hni Hnd].
    simpl length in *. set (r := GetReference m s c).
    assert (Hr : in_width 32 r) by apply (loadw_range 4 m _ Hm).
    destruct (set_ref_spec m o off r size Hm Hoff Hr) as (Hm1 & Hw & Hd & Hi1 & Hx1).
    set (m1 := if load32 m (o + off) =? r then m else SetFieldObjectWithoutWriteBarrier m o off r).
    assert (H1 : mem_ok m1 /\ load32 m1 (o + off) = r /\ GetIgnoreReadFlag m1 o = true /\
      (forall x, ~ (o + off <= x < o + off + 4) -> x <> o + 10 -> x <> o + 11 -> load8 m1 x = load8 m x) /\
      (m1 = m \/ GetDirtyBit m1 o = true)).
    { unfold m1. destruct (Z.eqb_spec (load32 m (o + off)) r); [by split_and!; auto|].
      split_and!; auto. by rewrite Hi1. }
    clear Hm1 Hw Hd Hi1 Hx1. destruct H1 as (Hm1 & Hw & Hi1 & Hx1 & Hd1).
    assert (Hs : forall x, s <= x < s + 16 + 4 * n -> load8 m1 x = load8 m x).
    { intros x Hx. destruct Hoff as (Hoff & Hos & _).
      unfold apart, sizeof_Stub, sizeof_HeapReference, kObjectHeaderSize, ClassOffset, klass_offset in *.
      apply Hx1; lia. }
    destruct (IH m1 (c + 1)) as (m' & Hrun & Hm' & Hi' & Hv & Hx' & Hd'); try done; try lia.
    exists m'. split_and!; try done.
    + cbn [mfor]. rewrite (bind_done _ _ _ _ _ (copy_step s o off m c Hig)). fold r. fold m1.
      rewrite Hrun. do 3 f_equal. lia.
    + intros [|i] off' Hi; simpl in Hi.
      * injection Hi as <-. rewrite Z.add_0_r. fold r. rewrite <- Hw. apply loadw_ext. intros x Hx.
        destruct Hoff as (Hoff & _ & Ho4). unfold ClassOffset, klass_offset, kObjectHeaderSize in *.
        apply Hx'; [|lia..]. intros off' Hin.
        rewrite Forall_forall in Hoffs. destruct (Hoffs off' Hin) as (_ & _ & Ho4').
        assert (off <> off') by (by intros ->). Z.div_mod_to_equations. lia.
      * rewrite (Hv _ _ Hi). apply lookup_lt_Some in Hi.
        replace (c + Z.of_nat (S i)) with (c + 1 + Z.of_nat i) by lia. unfold GetReference.
        apply loadw_ext. intros x Hx. apply Hs.
        unfold GetReferenceAddress, sizeof_Stub, sizeof_HeapReference in Hx. lia.
    + intros x Hx H10 H11. rewrite Hx' by (try done; intros off' Hin; apply Hx, elem_of_cons; auto).
      apply Hx1; [|done..]. apply Hx, elem_of_cons. auto.
    + destruct Hd' as [->|]; [|auto]. destruct Hd1 as [->|]; auto.
Qed.

Lemma layout_ref_offsets m o size offs :
  layout m o size offs -> Forall (ref_offset size) offs /\ NoDup offs.
Proof.
  intros [(body & -> & _ & Hf & Hnd) _ _ [Hs _]]. unfold ref_offset, kObjectHeaderSize, ClassOffset, klass_offset in *.
  split.
  - constructor; [split_and!; [by left | lia | done]|].
    eapply Forall_impl; [exact Hf|]. simpl. intros x (? & ? & ?). auto.
  - constructor; [|done]. intros Hin. rewrite Forall_forall in Hf. specialize (Hf _ Hin). lia.
Qed.

Lemma CopyRefsInto_done m m0 s o size offs :
  let n := Z.of_nat (length offs) in
  mem_ok m -> layout m0 o size offs -> apart s n o size -> GetReference m s 0 = load32 m0 o ->
  exists m', CopyRefsInto m s o = Done m' /\ mem_ok m' /\
    (forall i off, offs !! i = Some off -> load32 m' (o + off) = GetReference m s (Z.of_nat i)) /\
    (forall x, (forall off, off ∈ offs -> ~ (o + off <= x < o + off + 4)) ->
       x <> o + 10 -> x <> o + 11 -> load8 m' x = load8 m x) /\
    (GetDirtyBit m' o = GetDirtyBit m o \/ GetDirtyBit m' o = true).
Proof.
  intros n Hm Hl Hap Hk. destruct (ly_size _ _ _ _ Hl) as [Hsz _].
  destruct (ly_class _ _ _ _ Hl) as (c & Hc & Hfl & Hr). destruct (ly_body _ _ _ _ Hl) as (body & Eo & Hb & _).
  destruct (layout_ref_offsets _ _ _ _ Hl) as [Hoffs Hnd].
  set (m1 := SetIgnoreReadFlag m o). destruct (mem_ok_ignore m o Hm) as [Hm1 _].
  assert (Hig : GetIgnoreReadFlag m1 o = true) by (by apply ignore_set).
  assert (Hx1 : forall x, x <> o + 11 -> load8 m1 x = load8 m x) by (intros; by apply access_set_outside).
  assert (Href : forall i, 0 <= i < n -> GetReference m1 s i = GetReference m s i).
  { intros i Hi. apply loadw_ext. intros x Hx. apply Hx1.
    unfold apart, GetReferenceAddress, sizeof_Stub, sizeof_HeapReference, kObjectHeaderSize in *. lia. }
  assert (Hpos : 0 < n) by (unfold n; rewrite Eo; simpl; lia).
  pose proof Hoffs as Hoffs'. pose proof Hnd as Hnd'. rewrite Eo in Hoffs', Hnd'.
  apply Forall_cons in Hoffs' as [Hoff0 Hoffb]. apply NoDup_cons in Hnd' as [Hni Hndb].
  destruct (copy_loop s o size n [ClassOffset] m1 0) as (m2 & Hrun2 & Hm2 & Hig2 & Hv2 & _ & _);
    try done; try (simpl; lia); [by constructor | apply NoDup_singleton |].
  destruct (copy_loop s o size n offs m1 0) as (m3 & Hrun & Hm3 & Hig3 & Hv & Hx & Hd); try done; try lia.
  assert (Ek : load32 m2 o = load32 m0 o).
  { specialize (Hv2 0%nat ClassOffset eq_refl). unfold ClassOffset, klass_offset in Hv2.
    rewrite Z.add_0_r in Hv2. change (0 + Z.of_nat 0) with 0 in Hv2.
    by rewrite Hv2, Href, Hk by lia. }
  rewrite Eo in Hrun. cbn [mfor] in Hrun, Hrun2.
  rewrite (bind_done _ _ _ _ _ (copy_step s o ClassOffset m1 0 Hig)) in Hrun.
  rewrite (bind_done _ _ _ _ _ (copy_step s o ClassOffset m1 0 Hig)) in Hrun2.
  injection Hrun2 as E2. rewrite E2 in Hrun.
  exists (ClearIgnoreReadFlag m3 o). split_and!.
  - unfold CopyRefsInto.
    erewrite visit_done; [ | exact Hm
      | etrans; [exact (copy_step s o ClassOffset m1 0 Hig) | rewrite E2; reflexivity] | exact Hig2 | by rewrite Ek | exact Hr | by rewrite Ek, (body_offsets_indep m2 m0 _ _ c) | exact Hrun].
    by rewrite obind_done.
  - by apply mem_ok_ignore.
  - intros i off Hi. rewrite <- Href by (apply lookup_lt_Some in Hi; lia).
    rewrite <- (Z.add_0_l (Z.of_nat i)), <- (Hv i off Hi). apply loadw_ext. intros x Hx'.
    apply access_clear_outside. pose proof (Forall_lookup_1 _ _ _ _ Hoffs Hi) as [Ho _].
    unfold ClassOffset, klass_offset, kObjectHeaderSize, x_access_bits_offset in *. lia.
  - intros x Hx' H10 H11. rewrite access_clear_outside by (unfold x_access_bits_offset; lia).
    rewrite Hx by done. by apply Hx1.
  - unfold GetDirtyBit, x_dirty_bit, x_dirty_bit_offset in *.
    rewrite access_clear_outside by (unfold x_access_bits_offset; lia).
    destruct Hd as [->|Hd]; [left|by right]. by rewrite Hx1 by lia.
Qed.

(** When the stub and the object agree on the references, nothing is written. *)
Lemma copy_loop_same s o offs : forall m c,
  GetIgnoreReadFlag m o = true ->
  (forall i off, offs !! i = Some off -> GetReference m s (c + Z.of_nat i) = load32 m (o + off)) ->
  mfor offs (CopyRefsVisitor s o) (m, c) = Done (tt, (m, c + Z.of_nat (length offs))).
Proof.
  induction offs as [|off offs IH]; intros m c Hig Hr; [by rewrite Z.add_0_r|].
  cbn [mfor]. rewrite (bind_done _ _ _ _ _ (copy_step s o off m c Hig)).
  pose proof (Hr 0%nat off eq_refl) as H0. rewrite Z.add_0_r in H0. rewrite H0, Z.eqb_refl.
  rewrite IH; [do 3 f_equal; simpl; lia | done |]. intros i off' Hi. rewrite <- (Hr (S i) off' Hi). f_equal. lia.
Qed.
Lemma CopyRefsInto_same m s o size offs :
  let n := Z.of_nat (length offs) in
  mem_ok m -> layout m o size offs -> apart s n o size ->
  (forall i off, offs !! i = Some off -> GetReference m s (Z.of_nat i) = load32 m (o + off)) ->
  CopyRefsInto m s o = Done (ClearIgnoreReadFlag (SetIgnoreReadFlag m o) o).
Proof.
  intros n Hm Hl Hap Hr. destruct (ly_size _ _ _ _ Hl) as [Hsz _].
  destruct (ly_class _ _ _ _ Hl) as (c & Hc & Hfl & Hrc). destruct (ly_body _ _ _ _ Hl) as (body & Eo & Hb & Hf & _).
  set (m1 := SetIgnoreReadFlag m o). destruct (mem_ok_ignore m o Hm) as [Hm1 _].
  assert (Hig : GetIgnoreReadFlag m1 o = true) by (by apply ignore_set).
  assert (Hx1 : forall x, x <> o + x_access_bits_offset -> load8 m1 x = load8 m x)
    by (intros; by apply access_set_outside).
  unfold apart, sizeof_Stub, sizeof_HeapReference, kObjectHeaderSize, x_access_bits_offset in *.
  assert (Hr1 : forall i off, offs !! i = Some off -> GetReference m1 s (Z.of_nat i) = load32 m1 (o + off)).
  { intros i off Hi. pose proof (lookup_lt_Some _ _ _ Hi) as Hlt. transitivity (load32 m (o + off)).
    - rewrite <- (Hr i off Hi). apply loadw_ext. intros x Hx. apply Hx1.
      unfold GetReferenceAddress, sizeof_Stub, sizeof_HeapReference in Hx. lia.
    - symmetry. apply loadw_ext. intros x Hx. apply Hx1. rewrite Eo in Hi.
      apply list_elem_of_lookup_2, elem_of_cons in Hi as [->|Hi]; [unfold ClassOffset, klass_offset in *; lia|].
      rewrite Forall_forall in Hf. specialize (Hf off Hi). lia. }
  assert (Ek : load32 m1 o = load32 m o) by (apply loadw_ext; intros x Hx; apply Hx1; lia).
  assert (H0 : CopyRefsVisitor s o ClassOffset (m1, 0) = Done (tt, (m1, 1))).
  { rewrite copy_step by done. rewrite <- (Hr1 0%nat ClassOffset) by (by rewrite Eo). by rewrite Z.eqb_refl. }
  pose proof (copy_loop_same s o offs m1 0 Hig Hr1) as Hrun. rewrite Eo in Hrun. cbn [mfor] in Hrun.
  rewrite (bind_done _ _ _ _ _ H0) in Hrun.
  unfold CopyRefsInto. erewrite (visit_done _ _ o m 0 m1 _ body m1 _ c Hm); [reflexivity|..]; try done.
  - by rewrite Ek.
  - by rewrite Ek, (body_offsets_indep m1 m _ _ c).
Qed.

(** ** Properties *)

End Stubs.

(** *** An object with two references and an integer, and its stub *)
Definition demo_classes : gmap Z ClassInfo :=
  {[ 100 := mkClass 0 0 1 0 8 None false 0 []; 200 := mkClass 0 100 2 3 28 None false 0 [] ]}.
Definition demo_memory : mem :=
  store64 (store32 (store32 (store32 (store8 (store32 ∅ 0x2000 200) 0x200a 1) 0x2010 0x5000) 0x2014 0x6000)
    0x2018 42) 0x1000 0x8000.

Lemma demo_memory_ok : mem_ok demo_memory.
Proof. repeat first [apply mem_ok_storew | apply mem_ok_store8]. apply mem_ok_empty. Qed.
Lemma demo_layout : layout demo_classes demo_memory 0x2000 28 [0; 16; 20].
Proof.
  split.
  - exists [16; 20]. split_and!; [done | by vm_compute | |].
    + repeat constructor; unfold kObjectHeaderSize; lia.
    + apply (bool_decide_unpack _). by vm_compute.
  - exists (mkClass 0 100 2 3 28 None false 0 []). split_and!; [by vm_compute | done | done].
  - eexists. split_and!; [by vm_compute | done | by vm_compute].
  - unfold kObjectHeaderSize. simpl. lia.
Qed.

