(* ===== verification/Stream.v ===== *)
(** [std::fstream] on a binary file, as the swap file code uses it: one
    position for reading and writing (the joint position of a
    [basic_filebuf]), a failure state that every operation of a failed stream
    keeps, and the bytes of the file.

    [capacity] bounds the size of the file: a write past it fails, which
    stands for a full disk or any other error of the device. *)
From stdpp Require Import prelude list.
From Stdlib Require Import ZArith Lia.
From S2P Require Import Prelude.
Open Scope Z_scope.

Record stream := mkStream {
  st_bytes : list Z;
  st_pos : Z;
  st_fail : bool
}.

(** [open] with [trunc], and with [ate] on an existing file. *)
Definition openFile : stream := mkStream [] 0 false.
Definition openFileAppend (file : option (list Z)) : stream :=
  match file with
  | Some bs => mkStream bs (Z.of_nat (length bs)) false
  | None => mkStream [] 0 true
  end.
(** [open] with [in] only. *)
Definition openFileIn (file : option (list Z)) : stream :=
  match file with
  | Some bs => mkStream bs 0 false
  | None => mkStream [] 0 true
  end.

Definition checkStreamError (s : stream) : bool := st_fail s.
Definition tellp (s : stream) : Z := if st_fail s then -1 else st_pos s.
Definition stream_seek (s : stream) (pos : Z) : stream :=
  if st_fail s then s
  else if pos <? 0 then mkStream (st_bytes s) (st_pos s) true
  else mkStream (st_bytes s) pos false.

(** [read]: a short read delivers what is there and fails. *)
Definition bytes_at (bs : list Z) (pos n : Z) : list Z :=
  take (Z.to_nat n) (drop (Z.to_nat pos) bs).
Definition stream_read (s : stream) (n : Z) : list Z * stream :=
  if st_fail s then ([], s)
  else
    let got := bytes_at (st_bytes s) (st_pos s) n in
    if Z.of_nat (length got) =? n
    then (got, mkStream (st_bytes s) (st_pos s + n) false)
    else (got, mkStream (st_bytes s) (st_pos s + Z.of_nat (length got)) true).

(** Bytes written over the file; a gap before them reads as zero. *)
Definition splice (bs : list Z) (pos : Z) (new : list Z) : list Z :=
  let p := Z.to_nat pos in
  take p (bs ++ replicate (p - length bs) 0) ++ new ++ drop (p + length new) bs.
Definition stream_write (capacity : Z) (s : stream) (new : list Z) : stream :=
  if st_fail s then s
  else if capacity <? st_pos s + Z.of_nat (length new) then mkStream (st_bytes s) (st_pos s) true
  else mkStream (splice (st_bytes s) (st_pos s) new) (st_pos s + Z.of_nat (length new)) false.

(** ** Lemmas *)
Definition stream_size (s : stream) : Z := Z.of_nat (length (st_bytes s)).

Lemma bytes_at_nth bs pos n i :
  0 <= pos -> (i < Z.to_nat n)%nat -> bytes_at bs pos n !! i = bs !! (Z.to_nat pos + i)%nat.
Proof. intros Hp Hi. unfold bytes_at. rewrite lookup_take_lt by done. apply lookup_drop. Qed.

Lemma length_bytes_at bs pos n :
  0 <= pos -> 0 <= n -> pos + n <= Z.of_nat (length bs) -> length (bytes_at bs pos n) = Z.to_nat n.
Proof. intros. unfold bytes_at. rewrite length_take, length_drop. lia. Qed.

Lemma length_splice bs pos new :
  0 <= pos -> Z.of_nat (length (splice bs pos new)) =
              Z.max (Z.of_nat (length bs)) (pos + Z.of_nat (length new)).
Proof.
  intros. unfold splice. rewrite !length_app, length_take, length_app, length_replicate, length_drop. lia.
Qed.

(** What was written is read back, and ranges apart from it are unchanged. *)
Lemma splice_same bs pos new :
  0 <= pos -> bytes_at (splice bs pos new) pos (Z.of_nat (length new)) = new.
Proof.
  intros. unfold bytes_at, splice. rewrite Nat2Z.id.
  rewrite drop_app_length', take_app_length' ; [done | done |].
  rewrite length_take, length_app, length_replicate. lia.
Qed.
Lemma splice_other bs pos new p n :
  0 <= pos -> 0 <= p -> 0 <= n -> p + n <= Z.of_nat (length bs) ->
  p + n <= pos \/ pos + Z.of_nat (length new) <= p ->
  bytes_at (splice bs pos new) p n = bytes_at bs p n.
Proof.
  intros Hpos Hp Hn Hlen Hd. apply list_eq. intros i.
  destruct (decide (i < Z.to_nat n)%nat) as [Hi|Hi].
  2: { rewrite !lookup_ge_None_2; [done|..]; unfold bytes_at; rewrite length_take; lia. }
  rewrite !bytes_at_nth by done. unfold splice. destruct Hd as [Hd|Hd].
  - rewrite lookup_app_l by (rewrite length_take, length_app, length_replicate; lia).
    rewrite lookup_take_lt by lia. by rewrite lookup_app_l by lia.
  - rewrite lookup_app_r by (rewrite length_take, length_app, length_replicate; lia).
    rewrite length_take, length_app, length_replicate.
    rewrite lookup_app_r by lia. rewrite lookup_drop. f_equal. lia.
Qed.

Lemma read_ok s n :
  st_fail s = false -> 0 <= st_pos s -> 0 <= n -> st_pos s + n <= stream_size s ->
  stream_read s n = (bytes_at (st_bytes s) (st_pos s) n, mkStream (st_bytes s) (st_pos s + n) false).
Proof.
  intros Hf Hp Hn Hl. unfold stream_read, stream_size in *. rewrite Hf, length_bytes_at by lia.
  rewrite Z2Nat.id by lia. by rewrite Z.eqb_refl.
Qed.
Lemma write_ok capacity s new :
  st_fail s = false -> st_pos s + Z.of_nat (length new) <= capacity ->
  stream_write capacity s new =
  mkStream (splice (st_bytes s) (st_pos s) new) (st_pos s + Z.of_nat (length new)) false.
Proof. intros Hf Hc. unfold stream_write. rewrite Hf. destruct (Z.ltb_spec capacity (st_pos s + Z.of_nat (length new))); [lia | done]. Qed.
Lemma seek_ok s pos : st_fail s = false -> 0 <= pos -> stream_seek s pos = mkStream (st_bytes s) pos false.
Proof. intros Hf Hp. unfold stream_seek. rewrite Hf. destruct (Z.ltb_spec pos 0); [lia | done]. Qed.
