(* ===== verification/RteLock.v ===== *)
(** The locking protocol of one reclamation table entry, as an interleaving
    of app threads and the kernel.

    App threads run [TableEntry::LockFromAppThread], swap the object in when
    it is not resident (the SWAP_PREAMBLE macros of runtime/mirror/object.h
    and [swapInObject] of runtime/marvin_swap.cc), access it (the field
    setters of runtime/mirror/object-inl.h, [writeToSwapFile],
    [CheckAndUpdate]) and run [UnlockFromAppThread].  The kernel runs the
    loop body of [SwapObjectsOut] with [doKernelReclamationChecks], which
    stands for the reclamation the OS performs.

    Every shared access (a load or a store of an atomic member, of the dirty
    byte, of the object's data) is a step of its own, and the steps of the
    threads interleave freely; memory is sequentially consistent, as the
    default memory order of the C++ atomics used gives it. *)
From stdpp Require Import prelude gmap list.
From Stdlib Require Import ZArith Lia Btauto.
From S2P Require Import Prelude Bits ObjectHeader ReclamationTable.
Open Scope Z_scope.

(** ** State *)

(** The bytes of the object, in memory or in the swap file. *)
Record image := mkI {
  o_dirty : bool;      (* x_dirty_bit_ *)
  o_wsr : Z;           (* the write shift register *)
  o_write : bool;      (* the write bit *)
  data : Z             (* the data fields *)
}.
(** What a page reads as after [madvise(MADV_DONTNEED)]. *)
Definition zero_image : image := mkI false 0 false 0.

(** Where an app thread is. *)
Inductive app_pc :=
| Idle                 (* outside of the entry's critical section *)
| Spin1                (* first  while (GetKernelLockBit()) *)
| Incr                 (* IncrAppLockCounter() is next *)
| Spin2                (* second while (GetKernelLockBit()) *)
| Locked               (* LockFromAppThread() returned *)
| SwapEntered          (* SwapInOnDemand(): resident bit seen clear, its CHECK is next *)
| SwapReading          (* swapfile.read() into the object is next *)
| SwapCheck            (* CHECK(destObj->GetDirtyBit() == 0) is next *)
| SwapRead             (* SetResidentBit() is next *)
| Access               (* the object may be accessed *)
| WStored              (* field stored, SetWriteBit() is next *)
| WMarked              (* SetDirtyBit() is next *)
| SCleared             (* writeToSwapFile: dirty bit cleared, memcpy is next *)
| SCopied (im : image) (* writeToSwapFile: the write of the copy is next *)
| CLoaded (c : Z)      (* compiled code: counter loaded, the store of c + 1 is next *)
| CULoaded (c : Z).    (* compiled code: counter loaded, the store of c - 1 is next *)

(** Where the kernel is: the checks run twice, before and after the kernel
    lock bit is set. *)
Inductive phase := First | Second.
Inductive kernel_pc :=
| KOcc (p : phase) | KCtr (p : phase) | KRes (p : phase) | KDirty (p : phase)
| KWsr (p : phase) | KWrite (p : phase) (wsr : Z)
| KSet                 (* SetKernelLockBit() is next *)
| KMadvise             (* both checks passed: madvise() is next *)
| KClearRes            (* ClearResidentBit() is next *)
| KClear.              (* ClearKernelLockBit() is next *)

Record lstate := mkL {
  rte : TableEntry;
  obj : image;         (* the object in memory *)
  disk : image;        (* its snapshot in the swap file *)
  latest : Z;          (* ghost: the last value stored by an app thread *)
  apps : list app_pc;
  kpc : kernel_pc
}.

(** ** Steps of an app thread *)
Inductive app_act :=
| Next                 (* the only next step at this point *)
| Store (v : Z)        (* at [Access]: a field store *)
| Snapshot             (* at [Locked]: writeToSwapFile *)
| GcSample             (* at [Access]: CheckAndUpdate's bit updates *)
| Unlock               (* UnlockFromAppThread *)
| CompiledIncr         (* at [Incr]: GenerateLockReclamationTableEntry loads the counter *)
| CompiledDecr.        (* at [Access]: GenerateUnlockReclamationTableEntry loads it *)

Definition with_rte (s : lstate) (e : TableEntry) : lstate :=
  mkL e (obj s) (disk s) (latest s) (apps s) (kpc s).
Definition with_kpc (s : lstate) (k : kernel_pc) : lstate :=
  mkL (rte s) (obj s) (disk s) (latest s) (apps s) k.
Definition with_app (s : lstate) (i : nat) (pc : app_pc) : lstate :=
  mkL (rte s) (obj s) (disk s) (latest s) (<[i := pc]> (apps s)) (kpc s).
Definition with_images (s : lstate) (o d : image) (l : Z) : lstate :=
  mkL (rte s) o d l (apps s) (kpc s).
Definition with_obj (s : lstate) (o : image) : lstate := with_images s o (disk s) (latest s).

Definition set_data (o : image) (v : Z) : image := mkI (o_dirty o) (o_wsr o) (o_write o) v.
Definition set_dirty (o : image) (d : bool) : image := mkI d (o_wsr o) (o_write o) (data o).
Definition set_write (o : image) (w : bool) : image := mkI (o_dirty o) (o_wsr o) w (data o).
(** [CheckAndUpdate]: the write bit is shifted into the register and cleared. *)
Definition sample (o : image) : image :=
  mkI (o_dirty o) (shift_in (o_wsr o) (o_write o)) false (data o).

(** One step of app thread [i]; [Aborted] is a failed CHECK, and [None] an
    action that is not possible at this point. *)
Definition app_step (s : lstate) (i : nat) (a : app_act) : option (outcome lstate) :=
  match apps s !! i, a with
  | Some Idle, Next => Some (Done (with_app s i Spin1))
  | Some Spin1, Next =>
      Some (Done (if GetKernelLockBit (rte s) then s else with_app s i Incr))
  | Some Incr, Next =>
      Some (Done (with_app (with_rte s (IncrAppLockCounter (rte s))) i Spin2))
  | Some Spin2, Next =>
      Some (Done (if GetKernelLockBit (rte s) then s else with_app s i Locked))
  | Some Locked, Next =>
      Some (Done (with_app s i (if GetResidentBit (rte s) then Access else SwapEntered)))
  | Some SwapEntered, Next =>
      (* CHECK(stub->GetTableEntry()->GetResidentBit() == 0) *)
      Some (if GetResidentBit (rte s) then Aborted else Done (with_app s i SwapReading))
  | Some SwapReading, Next =>
      Some (Done (with_app (with_obj s (disk s)) i SwapCheck))
  | Some SwapCheck, Next =>
      Some (if o_dirty (obj s) then Aborted else Done (with_app s i SwapRead))
  | Some SwapRead, Next =>
      Some (Done (with_app (with_rte s (SetResidentBit (rte s))) i Access))
  | Some Access, Store v =>
      Some (Done (with_app (with_images s (set_data (obj s) v) (disk s) v) i WStored))
  | Some WStored, Next =>
      Some (Done (with_app (with_obj s (set_write (obj s) true)) i WMarked))
  | Some WMarked, Next =>
      Some (Done (with_app (with_obj s (set_dirty (obj s) true)) i Access))
  | Some Locked, Snapshot =>
      (* The write queue holds objects whose dirty bit was set when they were
         queued, and only this function clears it. *)
      if o_dirty (obj s)
      then Some (Done (with_app (with_obj s (set_dirty (obj s) false)) i SCleared))
      else None
  | Some SCleared, Next =>
      Some (Done (with_app s i (SCopied (obj s))))
  | Some (SCopied im), Next =>
      Some (Done (with_app (with_images s (obj s) im (latest s)) i Access))
  | Some Access, GcSample =>
      Some (Done (with_obj s (sample (obj s))))
  | Some Locked, Unlock =>
      (* CheckAndUpdate returns at once when the object is not resident. *)
      if GetResidentBit (rte s) then None
      else Some (Done (with_app (with_rte s (DecrAppLockCounter (rte s))) i Idle))
  | Some Access, Unlock =>
      Some (Done (with_app (with_rte s (DecrAppLockCounter (rte s))) i Idle))
  | Some Incr, CompiledIncr =>
      Some (Done (with_app s i (CLoaded (GetAppLockCounter (rte s)))))
  | Some (CLoaded c), Next =>
      Some (Done (with_app (with_rte s (set_counter (rte s) (u8 (c + 1)))) i Spin2))
  | Some Access, CompiledDecr =>
      Some (Done (with_app s i (CULoaded (GetAppLockCounter (rte s)))))
  | Some (CULoaded c), Next =>
      Some (Done (with_app (with_rte s (set_counter (rte s) (u8 (c - 1)))) i Idle))
  | _, _ => None
  end.

(** ** Steps of the kernel: the loop body of [SwapObjectsOut]. *)
Definition check_failed (p : phase) : kernel_pc :=
  match p with First => KOcc First | Second => KClear end.
Definition checks_passed (p : phase) : kernel_pc :=
  match p with First => KSet | Second => KMadvise end.

Definition kernel_step (s : lstate) : lstate :=
  match kpc s with
  | KOcc p => with_kpc s (if GetOccupiedBit (rte s) then KCtr p else check_failed p)
  | KCtr p => with_kpc s (if 0 <? GetAppLockCounter (rte s) then check_failed p else KRes p)
  | KRes p => with_kpc s (if negb (GetResidentBit (rte s)) then check_failed p else KDirty p)
  | KDirty p => with_kpc s (if o_dirty (obj s) then check_failed p else KWsr p)
  | KWsr p => with_kpc s (KWrite p (o_wsr (obj s)))
  | KWrite p wsr =>
      with_kpc s (if negb (objectIsCold wsr (o_write (obj s))) then check_failed p else checks_passed p)
  | KSet => with_kpc (with_rte s (SetKernelLockBit (rte s))) (KOcc Second)
  | KMadvise => with_kpc (with_obj s zero_image) KClearRes
  | KClearRes => with_kpc (with_rte s (ClearResidentBit (rte s))) KClear
  | KClear => with_kpc (with_rte s (ClearKernelLockBit (rte s))) (KOcc First)
  end.

Inductive event := App (i : nat) (a : app_act) | Kernel.

Definition step (s : lstate) (ev : event) : option (outcome lstate) :=
  match ev with
  | App i a => app_step s i a
  | Kernel => Some (Done (kernel_step s))
  end.

(** A schedule run from a state; [None] when an event is not possible. *)
Fixpoint run (s : lstate) (evs : list event) : option (outcome lstate) :=
  match evs with
  | [] => Some (Done s)
  | ev :: evs =>
      match step s ev with
      | Some (Done s') => run s' evs
      | Some o => Some o
      | None => None
      end
  end.

(** The entry of a freshly created stub: occupied and resident, unlocked; the
    object has been written to the swap file or is dirty. *)
Definition initial (n : nat) (s : lstate) : Prop :=
  entry_ok (rte s) /\ GetOccupiedBit (rte s) = true /\ GetKernelLockBit (rte s) = false /\
  GetResidentBit (rte s) = true /\ GetAppLockCounter (rte s) = 0 /\
  data (obj s) = latest s /\ o_dirty (disk s) = false /\
  (o_dirty (obj s) = false -> data (disk s) = latest s) /\
  apps s = replicate n Idle /\ kpc s = KOcc First.

(** Steps of C++ code only: the counter is updated by atomic increments and
    decrements. *)
Definition cpp_event (ev : event) : bool :=
  match ev with
  | App _ CompiledIncr | App _ CompiledDecr => false
  | _ => true
  end.

Inductive reachable (n : nat) : lstate -> Prop :=
| reach_init s : initial n s -> reachable n s
| reach_step s ev s' :
    reachable n s -> cpp_event ev = true -> step s ev = Some (Done s') -> reachable n s'.

(** ** Regions of the program *)

(** The thread has incremented the counter and not yet decremented it. *)
Definition counted (pc : app_pc) : bool :=
  match pc with Idle | Spin1 | Incr | CLoaded _ => false | _ => true end.
(** The thread's [LockFromAppThread] has returned. *)
Definition holds_lock (pc : app_pc) : bool :=
  match pc with Idle | Spin1 | Incr | CLoaded _ | Spin2 => false | _ => true end.
(** The kernel has seen the counter at zero under its lock bit. *)
Definition reclaiming (k : kernel_pc) : bool :=
  match k with
  | KRes Second | KDirty Second | KWsr Second | KWrite Second _ | KMadvise | KClearRes => true
  | _ => false
  end.
(** The kernel lock bit is set. *)
Definition kernel_locked (k : kernel_pc) : bool :=
  match k with
  | KOcc Second | KCtr Second | KClear => true
  | k => reclaiming k
  end.

Fixpoint count_pcs (f : app_pc -> bool) (l : list app_pc) : Z :=
  match l with
  | [] => 0
  | pc :: l => Z.b2z (f pc) + count_pcs f l
  end.
Definition num_counted (s : lstate) : Z := count_pcs counted (apps s).

(** ** The invariant *)
Definition cpp_pc (pc : app_pc) : bool :=
  match pc with CLoaded _ | CULoaded _ => false | _ => true end.
Definition lock_inv (n : nat) (s : lstate) : Prop :=
  entry_ok (rte s) /\ length (apps s) = n /\ Forall (fun pc => cpp_pc pc = true) (apps s) /\
  GetAppLockCounter (rte s) = num_counted s /\
  GetKernelLockBit (rte s) = kernel_locked (kpc s) /\
  (reclaiming (kpc s) = true -> count_pcs holds_lock (apps s) = 0).

(** ** Counting *)
Lemma b2z_range b : 0 <= Z.b2z b <= 1.
Proof. destruct b; unfold Z.b2z; lia. Qed.

Lemma count_pcs_bounds f l : 0 <= count_pcs f l <= Z.of_nat (length l).
Proof. induction l as [|pc l IH]; simpl; [lia|]. pose proof (b2z_range (f pc)). lia. Qed.

Lemma count_pcs_insert f l i pc pc' :
  l !! i = Some pc -> count_pcs f (<[i := pc']> l) = count_pcs f l - Z.b2z (f pc) + Z.b2z (f pc').
Proof.
  revert i; induction l as [|x l IH]; intros [|i] Hi; simplify_eq/=; [lia|].
  rewrite IH by done. lia.
Qed.

Lemma count_pcs_lookup f l i pc : count_pcs f l = 0 -> l !! i = Some pc -> f pc = false.
Proof.
  revert i; induction l as [|x l IH]; intros [|i] H Hi; simplify_eq/=;
    pose proof (count_pcs_bounds f l).
  - destruct (f pc); [unfold Z.b2z in H; lia | done].
  - pose proof (b2z_range (f x)). eapply IH; [lia | done].
Qed.

Lemma count_pcs_pos f l i pc : l !! i = Some pc -> f pc = true -> 1 <= count_pcs f l.
Proof.
  intros Hi Hf. pose proof (count_pcs_bounds f l).
  destruct (decide (count_pcs f l = 0)) as [H0|]; [|lia].
  pose proof (count_pcs_lookup f l i pc H0 Hi). congruence.
Qed.

Lemma count_pcs_holds_le l : count_pcs holds_lock l <= count_pcs counted l.
Proof. induction l as [|pc l IH]; simpl; [lia|]. destruct pc; unfold Z.b2z; simpl; lia. Qed.

Lemma count_pcs_idle f n : f Idle = false -> count_pcs f (replicate n Idle) = 0.
Proof. intros Hf. induction n; simpl; [done|]. rewrite Hf. unfold Z.b2z. lia. Qed.

Lemma lock_inv_init n s : initial n s -> lock_inv n s.
Proof.
  intros (Hok & _ & Hk & _ & Hc & _ & _ & _ & Ha & Hkp).
  unfold lock_inv, num_counted. rewrite Ha, Hkp, length_replicate, count_pcs_idle by done. simpl.
  split_and!; try done. by apply Forall_replicate.
Qed.

(** A step that changes one thread's pc between two points of the same region
    keeps the counts. *)
Lemma lock_inv_app n s i pc pc' :
  lock_inv n s -> apps s !! i = Some pc ->
  counted pc' = counted pc -> cpp_pc pc' = true ->
  (holds_lock pc' = true -> holds_lock pc = true \/ reclaiming (kpc s) = false) ->
  lock_inv n (with_app s i pc').
Proof.
  intros (Hok & Hl & Hp & Hc & Hk & Hr) Hi Hcnt Hcpp Hh.
  unfold lock_inv, num_counted in *; simpl. rewrite length_insert.
  rewrite !(count_pcs_insert _ _ _ _ _ Hi), Hcnt.
  split_and!; [done | done | by apply Forall_insert | lia | done |].
  intros Hrec. specialize (Hr Hrec).
  pose proof (count_pcs_lookup _ _ _ _ Hr Hi) as Hf.
  destruct (holds_lock pc') eqn:E.
  - destruct (Hh eq_refl); congruence.
  - rewrite Hr, Hf. unfold Z.b2z. lia.
Qed.

(** Changes of the object do not concern the lock. *)
Lemma lock_inv_images n s o d l : lock_inv n s -> lock_inv n (with_images s o d l).
Proof. done. Qed.

Lemma lock_inv_resident n s e :
  lock_inv n s -> e = SetResidentBit (rte s) \/ e = ClearResidentBit (rte s) ->
  lock_inv n (with_rte s e).
Proof.
  intros (Hok & Hl & Hp & Hc & Hk & Hr) He. pose proof Hok as (Hb & _).
  unfold lock_inv, num_counted in *; simpl.
  destruct He as [-> | ->]; (split_and!; [|done|done|done| |done]).
  1: by apply entry_ok_SetBit. 2: by apply entry_ok_ClearBit.
  all: rewrite <- Hk; rte_bits; done.
Qed.

Lemma lock_inv_incr n s i :
  (Z.of_nat n < 256) -> lock_inv n s -> apps s !! i = Some Incr ->
  lock_inv n (with_app (with_rte s (IncrAppLockCounter (rte s))) i Spin2).
Proof.
  intros Hn (Hok & Hl & Hp & Hc & Hk & Hr) Hi.
  unfold lock_inv, num_counted, GetAppLockCounter in *; simpl. rewrite length_insert.
  rewrite !(count_pcs_insert _ _ _ _ _ Hi).
  pose proof (count_pcs_bounds counted (<[i := Spin2]> (apps s))) as HB.
  rewrite length_insert, (count_pcs_insert _ _ _ _ _ Hi) in HB. unfold Z.b2z in *; simpl in *.
  split_and!; [|done|by apply Forall_insert| |done|].
  - apply entry_ok_counter; [apply wrap_range; lia | done].
  - rewrite wrap_small by width_lia. lia.
  - intros Hrec. rewrite (Hr Hrec). lia.
Qed.

Lemma lock_inv_decr n s i pc :
  (Z.of_nat n < 256) -> lock_inv n s -> apps s !! i = Some pc -> holds_lock pc = true ->
  lock_inv n (with_app (with_rte s (DecrAppLockCounter (rte s))) i Idle).
Proof.
  intros Hn (Hok & Hl & Hp & Hc & Hk & Hr) Hi Hh.
  assert (Hcn : counted pc = true) by (by destruct pc).
  pose proof (count_pcs_pos counted _ _ _ Hi Hcn).
  pose proof (count_pcs_bounds counted (apps s)) as HB.
  unfold lock_inv, num_counted, GetAppLockCounter in *; simpl. rewrite length_insert.
  rewrite !(count_pcs_insert _ _ _ _ _ Hi), Hcn, Hh. unfold Z.b2z in *; simpl in *.
  split_and!; [|done|by apply Forall_insert| |done|].
  - apply entry_ok_counter; [apply wrap_range; lia | done].
  - rewrite wrap_small by width_lia. lia.
  - intros Hrec. pose proof (count_pcs_pos holds_lock _ _ _ Hi Hh). rewrite (Hr Hrec) in *. lia.
Qed.

Lemma not_locked_not_reclaiming n s :
  lock_inv n s -> GetKernelLockBit (rte s) = false -> reclaiming (kpc s) = false.
Proof.
  intros (_ & _ & _ & _ & Hk & _) H. rewrite Hk in H. unfold kernel_locked in H.
  by destruct (kpc s) as [[]|[]|[]|[]|[]|[] ?| | | |].
Qed.

Lemma app_step_inv n s i a s' :
  (Z.of_nat n < 256) -> lock_inv n s -> cpp_event (App i a) = true ->
  app_step s i a = Some (Done s') -> lock_inv n s'.
Proof.
  intros Hn Hinv Hcpp Hstep. pose proof (not_locked_not_reclaiming n s Hinv) as Hnr.
  unfold app_step in Hstep.
  destruct (apps s !! i) as [pc|] eqn:Hi; [|done].
  assert (Hpc : cpp_pc pc = true) by (destruct Hinv as (_ & _ & Hp & _); exact (Forall_lookup_1 _ _ _ _ Hp Hi)).
  destruct pc, a; simplify_eq/=; repeat case_match; simplify_eq/=; try done;
    eauto using lock_inv_incr, lock_inv_decr;
    try (eapply lock_inv_app; [by auto using lock_inv_images, lock_inv_resident
                              | done | done | done | by auto]).
Qed.

Lemma kernel_step_inv n s : (Z.of_nat n < 256) -> lock_inv n s -> lock_inv n (kernel_step s).
Proof.
  intros Hn Hinv. pose proof Hinv as (Hok & Hl & Hp & Hc & Hk & Hr). pose proof Hok as (Hb & _).
  pose proof (count_pcs_holds_le (apps s)). pose proof (count_pcs_bounds holds_lock (apps s)).
  unfold kernel_step; destruct (kpc s) as [[]|[]|[]|[]|[]|[] ?| | | |] eqn:Ek; simpl in Hk, Hr;
    repeat case_match; simplify_eq/=;
    unfold lock_inv, num_counted, GetAppLockCounter in *; simpl; split_and!; try done;
    try (by apply entry_ok_SetBit); try (by apply entry_ok_ClearBit);
    try (rte_bits; rewrite ?Hk; done).
  all: intros; try (by apply Hr); try lia.
Qed.

Lemma reachable_lock_inv n s : (Z.of_nat n < 256) -> reachable n s -> lock_inv n s.
Proof.
  intros Hn. induction 1 as [s Hi | s [i a|] s' _ IH Hcpp Hs].
  - by apply lock_inv_init.
  - by eapply app_step_inv.
  - simplify_eq/=. by apply kernel_step_inv.
Qed.

Lemma reclaiming_excludes n s i pc :
  lock_inv n s -> reclaiming (kpc s) = true -> apps s !! i = Some pc -> holds_lock pc = false.
Proof. intros (_ & _ & _ & _ & _ & Hr) Hrec Hi. eapply count_pcs_lookup; [by apply Hr | done]. Qed.

(** ** One app thread: swapping is transparent *)

(** The thread is between a change of the object and the matching change of
    the dirty bit or of the snapshot. *)
Definition writing (pc : app_pc) : bool :=
  match pc with WStored | WMarked | SCleared | SCopied _ => true | _ => false end.
Definition accessing (pc : app_pc) : bool :=
  match pc with Access | WStored | WMarked | SCleared | SCopied _ => true | _ => false end.
Definition swapping (pc : app_pc) : bool :=
  match pc with SwapEntered | SwapReading | SwapCheck | SwapRead => true | _ => false end.
(** The kernel has seen the dirty bit clear under its lock bit. *)
Definition seen_clean (k : kernel_pc) : bool :=
  match k with KWsr Second | KWrite Second _ | KMadvise | KClearRes => true | _ => false end.
(** The kernel has seen the object resident under its lock bit. *)
Definition kernel_discarded (k : kernel_pc) : bool :=
  match k with KClearRes => true | _ => false end.

(** The object has been read back from the swap file. *)
Definition read_back (pc : app_pc) : bool :=
  match pc with SwapCheck | SwapRead => true | _ => false end.
(** The object's image is the one of its snapshot. *)
Definition copied (pc : app_pc) (o : image) : Prop :=
  match pc with
  | SCleared => o_dirty o = false
  | SCopied im => o_dirty o = false /\ im = o
  | _ => True
  end.

Record coherent (pc : app_pc) (s : lstate) : Prop := {
  co_apps : apps s = [pc];
  co_resident : kernel_discarded (kpc s) = false -> GetResidentBit (rte s) = true ->
    data (obj s) = latest s;
  co_evicted : GetResidentBit (rte s) = false ->
    data (disk s) = latest s /\ o_dirty (obj s) = false;
  co_clean : o_dirty (obj s) = false -> writing pc = false -> data (disk s) = latest s;
  co_access : accessing pc = true -> GetResidentBit (rte s) = true;
  co_swap : swapping pc = true -> GetResidentBit (rte s) = false;
  co_swapread : read_back pc = true -> data (obj s) = latest s;
  co_disk : o_dirty (disk s) = false;
  co_copied : copied pc (obj s);
  co_kernel : seen_clean (kpc s) = true -> o_dirty (obj s) = false
}.

Lemma seen_clean_reclaiming k : seen_clean k = true -> reclaiming k = true.
Proof. by destruct k as [[]|[]|[]|[]|[]|[] ?| | | |]. Qed.

Lemma resident_bits e : entry_ok e ->
  GetResidentBit (SetResidentBit e) = true /\ GetResidentBit (ClearResidentBit e) = false /\
  GetResidentBit (SetKernelLockBit e) = GetResidentBit e /\
  GetResidentBit (ClearKernelLockBit e) = GetResidentBit e /\
  (forall c, GetResidentBit (set_counter e c) = GetResidentBit e).
Proof. intros (Hb & _). rte_bits. split_and!; done. Qed.

Lemma coherent_init s : initial 1 s -> coherent Idle s.
Proof.
  intros (Hok & Ho & Hk & Hr & Hc & Hd & Hdd & Hs & Ha & Hp).
  split; rewrite ?Hp, ?Hr; simpl; auto; try done.
Qed.

Lemma kernel_step_coherent pc s : lock_inv 1 s -> coherent pc s -> coherent pc (kernel_step s).
Proof.
  intros Hinv [Ha Hre Hev Hcl Hac Hsw Hsr Hdk Hcp Hke].
  pose proof Hinv as (Hok & _). destruct (resident_bits _ Hok) as (_ & HR2 & HR3 & HR4 & _).
  assert (Hno : reclaiming (kpc s) = true -> holds_lock pc = false).
  { intros H. apply (reclaiming_excludes 1 s 0 pc Hinv H). by rewrite Ha. }
  unfold kernel_step; destruct (kpc s) as [[]|[]|[]|[]|[]|[] ?| | | |] eqn:Ek; simpl in *;
    repeat case_match; split; simpl; rewrite ?HR2, ?HR3, ?HR4 in *; auto; try done.
  all: intros; try (intuition congruence).
  all: specialize (Hno eq_refl); assert (writing pc = false) by (by destruct pc);
    first [intuition congruence | by destruct pc].
Qed.

Lemma app_step_coherent pc s i a s' :
  lock_inv 1 s -> coherent pc s -> cpp_event (App i a) = true ->
  app_step s i a = Some (Done s') -> exists pc', coherent pc' s'.
Proof.
  intros Hinv [Ha Hre Hev Hcl Hac Hsw Hsr Hdk Hcp Hke] Hcpp Hstep.
  pose proof Hinv as (Hok & _). destruct (resident_bits _ Hok) as (HR1 & _ & _ & _ & HR5).
  assert (Hno : reclaiming (kpc s) = true -> holds_lock pc = false).
  { intros H. apply (reclaiming_excludes 1 s 0 pc Hinv H). by rewrite Ha. }
  assert (Hsc : seen_clean (kpc s) = true -> holds_lock pc = false)
    by (intros H; apply Hno, seen_clean_reclaiming, H).
  unfold app_step in Hstep. rewrite Ha in Hstep. destruct i as [|i]; [|done]. simpl in Hstep.
  destruct pc, a; simplify_eq/=; repeat case_match; simplify_eq/=;
    match goal with
    | |- exists pc', coherent pc' (with_app _ _ ?q) => exists q
    | |- exists pc', coherent pc' (with_obj _ _) => exists Access
    | |- exists pc', coherent pc' s => eexists
    end;
    (split; simpl; rewrite ?Ha; unfold IncrAppLockCounter, DecrAppLockCounter;
     rewrite ?HR1, ?HR5; auto; try done; try congruence).
  all: intros; try (specialize (Hsc ltac:(assumption)); done).
  all: try (intuition congruence).
  - destruct (GetResidentBit (rte s)); [done | intuition congruence].
  - destruct Hcp as [_ ->]. apply Hre; [|by apply Hac].
    destruct (kernel_discarded (kpc s)) eqn:E; [|done].
    destruct (kpc s); try done. by specialize (Hno eq_refl).
Qed.

Lemma reachable_coherent s : reachable 1 s -> exists pc, coherent pc s.
Proof.
  induction 1 as [s Hi | s [i a|] s' Hr [pc IH] Hcpp Hs].
  - exists Idle. by apply coherent_init.
  - eapply app_step_coherent; [apply reachable_lock_inv; [lia | done] | done | done | done].
  - simplify_eq/=. exists pc. apply kernel_step_coherent; [apply reachable_lock_inv; [lia | done] | done].
Qed.

(** ** Schedules *)
Lemma run_app s evs evs' s' :
  run s evs = Some (Done s') -> run s (evs ++ evs') = run s' evs'.
Proof.
  revert s; induction evs as [|ev evs IH]; intros s Hr; simplify_eq/=; [done|].
  destruct (step s ev) as [[]|]; [by apply IH | done..].
Qed.

Lemma reachable_run n s evs s' :
  reachable n s -> forallb cpp_event evs = true -> run s evs = Some (Done s') -> reachable n s'.
Proof.
  revert s; induction evs as [|ev evs IH]; intros s Hs Hc Hr; simplify_eq/=; [done|].
  apply andb_prop in Hc as [Hc Hcs].
  destruct (step s ev) as [[s1| | |]|] eqn:E; simplify_eq.
  eapply IH; [eapply reach_step; eauto | done | done].
Qed.

(** ** Progress *)

(** Steps left to the kernel until its lock bit is clear. *)
Definition kernel_rank (k : kernel_pc) : nat :=
  match k with
  | KOcc Second => 9 | KCtr Second => 8 | KRes Second => 7 | KDirty Second => 6
  | KWsr Second => 5 | KWrite Second _ => 4 | KMadvise => 3 | KClearRes => 2 | KClear => 1
  | _ => 0
  end.

Lemma kernel_rank_bound k : (kernel_rank k <= 9)%nat.
Proof. destruct k as [[]|[]|[]|[]|[]|[] ?| | | |]; simpl; lia. Qed.
Lemma kernel_rank_0 k : kernel_rank k = 0%nat -> kernel_locked k = false.
Proof. by destruct k as [[]|[]|[]|[]|[]|[] ?| | | |]. Qed.
Lemma kernel_rank_step s :
  kernel_rank (kpc s) <> 0%nat -> (kernel_rank (kpc (kernel_step s)) < kernel_rank (kpc s))%nat.
Proof.
  unfold kernel_step; destruct (kpc s) as [[]|[]|[]|[]|[]|[] ?| | | |]; try done;
    repeat case_match; simpl; lia.
Qed.

Lemma kernel_step_apps s : apps (kernel_step s) = apps s.
Proof. unfold kernel_step; destruct (kpc s); repeat case_match; done. Qed.

(** The kernel lock bit is clear after at most [r] steps of the kernel alone. *)
Lemma kernel_unlocks n r s :
  (Z.of_nat n < 256) -> lock_inv n s -> (kernel_rank (kpc s) <= r)%nat ->
  exists k s', (k <= r)%nat /\ run s (replicate k Kernel) = Some (Done s') /\
    GetKernelLockBit (rte s') = false /\ apps s' = apps s.
Proof.
  intros Hn. revert s; induction r as [|r IH]; intros s Hinv Hrank;
    destruct (decide (kernel_rank (kpc s) = 0%nat)) as [H0|H0]; try lia.
  1, 2: exists 0%nat, s; split_and!; [lia | done | | done];
    destruct Hinv as (_ & _ & _ & _ & -> & _); by apply kernel_rank_0.
  destruct (IH (kernel_step s)) as (k & s' & Hk & Hr & Hb & Ha).
  - by apply kernel_step_inv.
  - pose proof (kernel_rank_step s H0). lia.
  - exists (S k), s'. rewrite Ha, kernel_step_apps. split_and!; [lia | done | done | done].
Qed.

(** With the bit clear, four uninterrupted steps take a thread into its
    critical section. *)
Lemma lock_uncontended s i :
  GetKernelLockBit (rte s) = false -> apps s !! i = Some Idle ->
  exists s', run s (replicate 4 (App i Next)) = Some (Done s') /\ apps s' !! i = Some Locked.
Proof.
  intros Hb Hi. assert (Hl : (i < length (apps s))%nat) by (by eapply lookup_lt_Some).
  eexists. simpl. unfold app_step; rewrite Hi; simpl.
  rewrite list_lookup_insert_eq by done. rewrite Hb. simpl.
  rewrite list_lookup_insert_eq by (by rewrite length_insert). simpl.
  rewrite list_lookup_insert_eq by (by rewrite !length_insert). simpl.
  change (GetKernelLockBit (IncrAppLockCounter (rte s))) with (GetKernelLockBit (rte s)).
  rewrite Hb. split; [reflexivity|]. simpl.
  by rewrite list_lookup_insert_eq by (by rewrite !length_insert).
Qed.

(** ** Concrete states *)

(** An object of one page that was written to the swap file, with [n] threads. *)
Definition fresh_state (n : nat) : lstate :=
  mkL (mkEntry 5 0 1 4096 8192) (mkI false 0 false 7) (mkI false 0 false 7) 7
    (replicate n Idle) (KOcc First).
Lemma fresh_state_initial n : initial n (fresh_state n).
Proof. unfold initial, entry_ok, in_width; simpl. split_and!; done || lia. Qed.

(** The kernel reclaims the object of [fresh_state]. *)
Definition reclaim : list event := replicate 16 Kernel.
(** Thread [i] locks the entry. *)
Definition lock (i : nat) : list event := replicate 4 (App i Next).

(** The state a schedule ends in, from [fresh_state]. *)
Definition final (n : nat) (evs : list event) : lstate :=
  match run (fresh_state n) evs with Some (Done s) => s | _ => fresh_state n end.
Lemma reachable_final n evs : forallb cpp_event evs = true -> reachable n (final n evs).
Proof.
  intros Hc. unfold final. pose proof (reach_init n _ (fresh_state_initial n)) as H0.
  destruct (run _ evs) as [[s| | |]|] eqn:E; try done. by eapply reachable_run.
Qed.

(** ** Properties *)

(** C8: mutual exclusion. With fewer than 256 app threads that lock through
    the C++ code, in every interleaving, while the kernel is past its second
    read of the lock counter and until it has cleared the resident bit, no
    app thread is between the return of [LockFromAppThread] and
    [UnlockFromAppThread]. *)
Theorem rte_mutual_exclusion n s i pc :
  (Z.of_nat n < 256) -> reachable n s -> apps s !! i = Some pc ->
  reclaiming (kpc s) = true -> holds_lock pc = false.
Proof. intros Hn Hr Hi Hk. eapply reclaiming_excludes; [by apply reachable_lock_inv | done | done]. Qed.


Lemma rte_mutual_exclusion_witness :
  let s := final 2 ([App 1 Next; App 1 Next] ++ replicate 9 Kernel ++ [App 1 Next]) in
  reclaiming (kpc s) = true /\ apps s !! 1%nat = Some Spin2 /\ holds_lock Spin2 = false.
Proof.
  split_and!; [reflexivity | reflexivity |].
  eapply (rte_mutual_exclusion 2
    (final 2 ([App 1 Next; App 1 Next] ++ replicate 9 Kernel ++ [App 1 Next])) 1);
    [lia | by apply reachable_final | reflexivity | reflexivity].
Defined.


(** C38: progress. From every reachable state with fewer than 256 threads, the
    kernel's own next steps (at most nine) clear the kernel lock bit, after
    which a thread outside of the critical section enters it in four steps:
    neither spin loop of [LockFromAppThread] waits for another app thread. *)
Theorem lock_progress n s i :
  (Z.of_nat n < 256) -> reachable n s -> apps s !! i = Some Idle ->
  exists k s', (k <= 9)%nat /\
    run s (replicate k Kernel ++ lock i) = Some (Done s') /\ apps s' !! i = Some Locked.
Proof.
  intros Hn Hr Hi.
  destruct (kernel_unlocks n 9 s Hn) as (k & s1 & Hk & Hrun & Hb & Ha);
    [by apply reachable_lock_inv | apply kernel_rank_bound |].
  destruct (lock_uncontended s1 i Hb) as (s2 & Hrun2 & Hl); [by rewrite Ha|].
  exists k, s2. by rewrite (run_app _ _ _ s1).
Qed.

Lemma lock_progress_witness :
  let s := final 1 (replicate 7 Kernel) in
  GetKernelLockBit (rte s) = true /\
  exists k s', (k <= 9)%nat /\
    run s (replicate k Kernel ++ lock 0) = Some (Done s') /\ apps s' !! 0%nat = Some Locked.
Proof.
  split; [reflexivity|].
  apply (lock_progress 1 (final 1 (replicate 7 Kernel)) 0);
    [lia | by apply reachable_final | reflexivity].
Defined.

(** Two app threads can lose an update. Both lock the entry of an evicted
    object, both find the resident bit clear and both enter [swapInObject];
    the read of the slower one overwrites what the faster one has stored
    since, and the thread then accesses the stale bytes. *)
Theorem swap_in_lost_update :
  exists evs s, forallb cpp_event evs = true /\ run (fresh_state 2) evs = Some (Done s) /\
    apps s !! 1%nat = Some Access /\ latest s = 9 /\ data (obj s) = 7 /\ o_dirty (obj s) = false.
Proof.
  exists (reclaim ++ lock 0 ++ lock 1 ++ replicate 2 (App 0 Next) ++ replicate 2 (App 1 Next) ++
    replicate 3 (App 0 Next) ++ [App 0 (Store 9); App 0 Next; App 0 Next] ++
    replicate 3 (App 1 Next)).
  eexists. split; [reflexivity|]. split; [vm_compute; reflexivity|]. split_and!; reflexivity.
Qed.

(** Two app threads can fail a CHECK. Both find the resident bit clear;
    the first one completes its swap-in before the second one reaches
    CHECK(GetResidentBit() == 0) in [swapInObject]. *)
Theorem swap_in_check_fails :
  exists evs, forallb cpp_event evs = true /\ run (fresh_state 2) evs = Some Aborted.
Proof.
  exists (reclaim ++ lock 0 ++ lock 1 ++ [App 0 Next; App 1 Next] ++ replicate 4 (App 0 Next) ++
    [App 1 Next]).
  split; reflexivity.
Qed.

(** The bound on the number of threads is needed. With 256 threads in
    their critical sections the 8-bit counter is zero again, and the kernel
    reclaims the object under all of them. *)
Theorem counter_wraps_at_256 :
  exists evs s, forallb cpp_event evs = true /\ run (fresh_state 256) evs = Some (Done s) /\
    count_pcs holds_lock (apps s) = 256 /\ GetAppLockCounter (rte s) = 0 /\
    GetResidentBit (rte s) = false.
Proof.
  exists (concat (map lock (seq 0 256)) ++ reclaim).
  eexists. split; [vm_compute; reflexivity|]. split; [vm_compute; reflexivity|].
  split_and!; vm_compute; reflexivity.
Qed.

(** The lock that compiled code takes is not exclusive. Two threads that
    run the load, add and store of [GenerateLockReclamationTableEntry]
    concurrently count once; the unlock of one lets the kernel reclaim the
    object while the other one accesses it. *)
Theorem compiled_lock_lost_increment :
  exists evs s, run (fresh_state 2) evs = Some (Done s) /\
    apps s !! 1%nat = Some Access /\ GetAppLockCounter (rte s) = 0 /\
    GetResidentBit (rte s) = false /\ data (obj s) <> latest s.
Proof.
  exists ([App 0 Next; App 0 Next; App 1 Next; App 1 Next; App 0 CompiledIncr; App 1 CompiledIncr] ++
    replicate 3 (App 0 Next) ++ replicate 3 (App 1 Next) ++ [App 0 CompiledDecr; App 0 Next] ++
    reclaim).
  eexists. split; [vm_compute; reflexivity|]. split_and!; done.
Qed.
