(* ===== verification/Allocator.v ===== *)
(** What the swapping code relies on of the spaces it allocates from: an
    allocator hands out ranges that are disjoint from all live ones, and takes
    back what it handed out.  [FreeListSpace] is an instance (LargeObjectSpace), and
    so is [RosAllocSpace] (StubSpaces). *)
From stdpp Require Import prelude gmap.
From Stdlib Require Import ZArith Lia.
From S2P Require Import Prelude.
Open Scope Z_scope.

Definition ranges_disjoint (a n b m : Z) : Prop := a + n <= b \/ b + m <= a.

(** [live s A]: the state [s] is well formed and its live blocks are those of
    [A], a map from the address of a block to its size in bytes. *)
Class Allocator (St : Type) := {
  allocate : Z -> M St (option (Z * Z));
  release : Z -> M St Z;
  contains : St -> Z -> bool;
  max_request : Z;
  live : St -> gmap Z Z -> Prop;
  live_disjoint s A p n q m :
    live s A -> A !! p = Some n -> A !! q = Some m -> p <> q -> ranges_disjoint p n q m;
  live_contains s A p n : live s A -> A !! p = Some n -> 0 < n /\ contains s p = true;
  allocate_live s A n :
    live s A -> 0 < n <= max_request ->
    exists r s', allocate n s = Done (r, s') /\
      match r with
      | None => live s' A
      | Some (p, k) => n <= k /\ A !! p = None /\ live s' (<[p := k]> A)
      end;
  release_live s A p n :
    live s A -> A !! p = Some n ->
    exists s', release p s = Done (n, s') /\ live s' (delete p A)
}.

Section Client.
Context {St : Type} `{!Allocator St}.

(** A fresh block is disjoint from every block that was live. *)
Lemma allocate_disjoint s A n p k s' q m :
  live s A -> 0 < n <= max_request -> allocate n s = Done (Some (p, k), s') ->
  A !! q = Some m -> ranges_disjoint p k q m.
Proof.
  intros Hl Hn Ha Hq. destruct (allocate_live s A n Hl Hn) as (r & s1 & Ha' & Hr).
  rewrite Ha in Ha'. injection Ha' as <- <-. destruct Hr as (_ & Hp & Hl').
  assert (Hne : p <> q) by (intros ->; congruence).
  eapply live_disjoint; [exact Hl' | apply lookup_insert_eq | by rewrite lookup_insert_ne | done].
Qed.

(** A client that releases only blocks it holds; [A] is what it holds. *)
Inductive request := Allocate (n : Z) | Release (p : Z).
Definition request_ok (r : request) : Prop :=
  match r with Allocate n => 0 < n <= max_request | Release _ => True end.
Fixpoint drive (rs : list request) (s : St) (A : gmap Z Z) : outcome (St * gmap Z Z) :=
  match rs with
  | [] => Done (s, A)
  | Allocate n :: rs =>
      '(r, s) ← allocate n s;
      match r with
      | None => drive rs s A
      | Some (p, k) => drive rs s (<[p := k]> A)
      end
  | Release p :: rs =>
      match A !! p with
      | None => drive rs s A
      | Some _ => '(_, s) ← release p s; drive rs s (delete p A)
      end
  end.

Lemma drive_live rs s A :
  live s A -> Forall request_ok rs -> exists s' A', drive rs s A = Done (s', A') /\ live s' A'.
Proof.
  revert s A; induction rs as [|[n|p] rs IH]; intros s A Hl Hr; simpl; [eauto|..];
    apply Forall_cons in Hr as [Hr Hrs].
  - destruct (allocate_live s A n Hl Hr) as (r & s1 & -> & H1). simpl.
    destruct r as [[p k]|]; [|by apply IH]. destruct H1 as (_ & _ & H1). by apply IH.
  - destruct (A !! p) as [n|] eqn:E; [|by apply IH].
    destruct (release_live s A p n Hl E) as (s1 & -> & H1). simpl. by apply IH.
Qed.
End Client.
