(* ===== verification/LargeObjectSpace.v ===== *)
(** The large object space [FreeListSpace]
    (runtime/gc/space/large_object_space.h and .cc), which is also the space
    that holds the resident copies of swappable objects ([swappedInSpace] of
    runtime/marvin_swap.cc).

    [FreeListSpace] is a boundary-tag allocator.  Its state is the side table
    of [AllocationInfo]s, one per page, indexed by slot; a pointer to an
    [AllocationInfo] is its slot.  The [std::set] of free blocks is the list
    of its elements in tree order.  DCHECKs are modelled as CHECKs: that they
    cannot fail is part of what is proved.  The calls of [GcRecordFree] and of
    [madvise] that [Free] makes are composed with [Free] in Swap. *)
From stdpp Require Import prelude gmap list sorting.
From Stdlib Require Import ZArith Lia Btauto.
From S2P Require Import Prelude Bits BitUtils Mem Allocator.
Open Scope Z_scope.

Definition kPageSize : Z := 4096.

Module FreeListSpace.
Definition kAlignment : Z := kPageSize.

(** ** [AllocationInfo] *)
Record AllocationInfo := mkInfo {
  prev_free_ : Z;    (* uint32_t *)
  alloc_size_ : Z    (* uint32_t *)
}.
Definition kFlagFree : Z := 0x80000000.
Definition kFlagZygote : Z := 0x40000000.
Definition kFlagsMask : Z := u32 (Z.lnot (Z.lor kFlagFree kFlagZygote)).

Definition zero_info : AllocationInfo := mkInfo 0 0.
Definition AlignSize (a : AllocationInfo) : Z := Z.land (alloc_size_ a) kFlagsMask.
Definition ByteSize (a : AllocationInfo) : Z := AlignSize a * kAlignment.
Definition SetByteSize (size : Z) (free : bool) (a : AllocationInfo) : AllocationInfo :=
  mkInfo (prev_free_ a) (u32 (Z.lor (size / kAlignment) (if free then kFlagFree else 0))).
Definition IsFree (a : AllocationInfo) : bool := negb (Z.land (alloc_size_ a) kFlagFree =? 0).
Definition IsZygoteObject (a : AllocationInfo) : bool :=
  negb (Z.land (alloc_size_ a) kFlagZygote =? 0).
Definition SetZygoteObject (a : AllocationInfo) : AllocationInfo :=
  mkInfo (prev_free_ a) (Z.lor (alloc_size_ a) kFlagZygote).
Definition GetNextInfo (this : Z) (a : AllocationInfo) : Z := this + AlignSize a.
Definition GetPrevFree (a : AllocationInfo) : Z := prev_free_ a.
Definition GetPrevFreeInfo (this : Z) (a : AllocationInfo) : Z := this - GetPrevFree a.
Definition GetPrevFreeBytes (a : AllocationInfo) : Z := GetPrevFree a * kAlignment.
Definition SetPrevFreeBytes (bytes : Z) (a : AllocationInfo) : AllocationInfo :=
  mkInfo (u32 (bytes / kAlignment)) (alloc_size_ a).

(** DCHECKs of [SetByteSize] and [SetPrevFreeBytes]. *)
Definition byte_size_ok (size : Z) : bool :=
  (Z.land size (u32 (Z.lnot kFlagsMask)) =? 0) && IsAligned size kAlignment.

(** ** [FreeListSpace] *)
Record FreeListSpace := mkSpace {
  begin_ : Z;
  end_ : Z;
  allocation_info_ : gmap Z AllocationInfo;
  free_end_ : Z;
  free_blocks_ : list Z;
  num_objects_allocated_ : Z;
  num_bytes_allocated_ : Z;
  total_objects_allocated_ : Z;
  total_bytes_allocated_ : Z
}.
Definition with_info (s : FreeListSpace) (t : gmap Z AllocationInfo) : FreeListSpace :=
  mkSpace (begin_ s) (end_ s) t (free_end_ s) (free_blocks_ s) (num_objects_allocated_ s)
    (num_bytes_allocated_ s) (total_objects_allocated_ s) (total_bytes_allocated_ s).
Definition with_free_end (s : FreeListSpace) (n : Z) : FreeListSpace :=
  mkSpace (begin_ s) (end_ s) (allocation_info_ s) n (free_blocks_ s) (num_objects_allocated_ s)
    (num_bytes_allocated_ s) (total_objects_allocated_ s) (total_bytes_allocated_ s).
Definition with_free_blocks (s : FreeListSpace) (l : list Z) : FreeListSpace :=
  mkSpace (begin_ s) (end_ s) (allocation_info_ s) (free_end_ s) l (num_objects_allocated_ s)
    (num_bytes_allocated_ s) (total_objects_allocated_ s) (total_bytes_allocated_ s).
Definition count_alloc (n : Z) (s : FreeListSpace) : FreeListSpace :=
  mkSpace (begin_ s) (end_ s) (allocation_info_ s) (free_end_ s) (free_blocks_ s)
    (u64 (num_objects_allocated_ s + 1)) (u64 (num_bytes_allocated_ s + n))
    (u64 (total_objects_allocated_ s + 1)) (u64 (total_bytes_allocated_ s + n)).
Definition count_free (n : Z) (s : FreeListSpace) : FreeListSpace :=
  mkSpace (begin_ s) (end_ s) (allocation_info_ s) (free_end_ s) (free_blocks_ s)
    (u64 (num_objects_allocated_ s - 1)) (u64 (num_bytes_allocated_ s - n))
    (total_objects_allocated_ s) (total_bytes_allocated_ s).

(** The constructor; a fresh anonymous mapping is zero.  [Create] CHECKs the
    alignment of the size and that both mappings succeed. *)
Definition Create (mapped : option Z) (info_mapped : bool) (size : Z) : outcome FreeListSpace :=
  if negb (size mod kAlignment =? 0) then Aborted
  else match mapped with
       | None => Aborted
       | Some base =>
           if negb info_mapped then Aborted
           else Done (mkSpace base (base + size)
                  (list_to_map ((fun i => (i, zero_info)) <$> seqZ 0 (size / kAlignment)))
                  size [] 0 0 0 0)
       end.

Definition Contains (s : FreeListSpace) (obj : Z) : bool := (begin_ s <=? obj) && (obj <? end_ s).
Definition Size (s : FreeListSpace) : Z := end_ s - begin_ s.
Definition GetSlotIndexForAddress (s : FreeListSpace) (address : Z) : Z :=
  (address - begin_ s) / kAlignment.
Definition GetAllocationAddressForSlot (s : FreeListSpace) (slot : Z) : Z :=
  begin_ s + slot * kAlignment.

(** Loads and stores of the side table. *)
Definition get_info (p : Z) : M FreeListSpace AllocationInfo :=
  fun s => match allocation_info_ s !! p with
           | Some a => Done (a, s)
           | None => Faulted
           end.
Definition upd_info (p : Z) (f : AllocationInfo -> AllocationInfo) : M FreeListSpace unit :=
  a ← get_info p; modify (fun s => with_info s (<[p := f a]> (allocation_info_ s))).

(** [SortByPrevFree] *)
Definition SortByPrevFree (a : AllocationInfo) (pa : Z) (b : AllocationInfo) (pb : Z) : bool :=
  if GetPrevFree a <? GetPrevFree b then true
  else if GetPrevFree b <? GetPrevFree a then false
  else if AlignSize a <? AlignSize b then true
  else if AlignSize b <? AlignSize a then false
  else pa <? pb.
(** The comparison with the set's element [p]; elements are in the table. *)
Definition info_at (t : gmap Z AllocationInfo) (p : Z) : AllocationInfo := default zero_info (t !! p).
Definition elem_lt (t : gmap Z AllocationInfo) (p : Z) (b : AllocationInfo) (pb : Z) : bool :=
  SortByPrevFree (info_at t p) p b pb.

(** [std::set::lower_bound]: the elements before the first one that is not
    less than the key, and those from it on. *)
Fixpoint lower_bound (t : gmap Z AllocationInfo) (b : AllocationInfo) (pb : Z) (l : list Z) :
    list Z * list Z :=
  match l with
  | [] => ([], [])
  | p :: l' =>
      if elem_lt t p b pb then let '(l1, l2) := lower_bound t b pb l' in (p :: l1, l2)
      else ([], l)
  end.
(** [std::set::insert]: no change when an equivalent element is present. *)
Definition set_insert (t : gmap Z AllocationInfo) (p : Z) (l : list Z) : list Z :=
  let '(l1, l2) := lower_bound t (info_at t p) p l in
  match l2 with
  | q :: _ => if SortByPrevFree (info_at t p) p (info_at t q) q then l1 ++ p :: l2 else l
  | [] => l1 ++ [p]
  end.
Definition insert_free_block (p : Z) : M FreeListSpace unit :=
  modify (fun s => with_free_blocks s (set_insert (allocation_info_ s) p (free_blocks_ s))).

Definition RemoveFreePrev (info : Z) : M FreeListSpace unit :=
  a ← get_info info;
  check (0 <? GetPrevFree a);;
  l ← gets (fun s => lower_bound (allocation_info_ s) a info (free_blocks_ s));
  match l.2 with
  | [] => abort                           (* CHECK(it != free_blocks_.end()) *)
  | it :: rest =>
      check (it =? info);;
      modify (fun s => with_free_blocks s (l.1 ++ rest))
  end.

Definition set_byte_size (p size : Z) (free : bool) : M FreeListSpace unit :=
  check (byte_size_ok size);; upd_info p (SetByteSize size free).
Definition set_prev_free_bytes (p bytes : Z) : M FreeListSpace unit :=
  check (IsAligned bytes kAlignment);; upd_info p (SetPrevFreeBytes bytes).

(** [Free], from the acquisition of the lock on. *)
Definition coalesce_prev (info allocation_size prev_free_bytes : Z) : M FreeListSpace (Z * Z) :=
  if negb (prev_free_bytes =? 0) then
    RemoveFreePrev info;;
    a ← get_info info;
    let info := GetPrevFreeInfo info a in
    b ← get_info info;
    check (GetPrevFreeBytes b =? 0);;
    mret (info, allocation_size + prev_free_bytes)
  else mret (info, allocation_size).
Definition coalesce_next (next_info new_free_size : Z) : M FreeListSpace (Z * Z) :=
  n ← get_info next_info;
  if IsFree n then
    let next_next_info := GetNextInfo next_info n in
    b ← get_info next_next_info;
    check (negb (IsFree b));;
    check (IsAligned (ByteSize b) kAlignment);;
    RemoveFreePrev next_next_info;;
    mret (next_next_info, new_free_size + GetPrevFreeBytes b)
  else mret (next_info, new_free_size).
Definition link_free (info next_info new_free_size : Z) : M FreeListSpace unit :=
  '(new_free_info, new_free_size) ← coalesce_next next_info new_free_size;
  set_prev_free_bytes new_free_info new_free_size;;
  insert_free_block new_free_info;;
  set_byte_size info new_free_size true;;
  a ← get_info info;
  check (GetNextInfo info a =? new_free_info).
Definition finish_free (info next_info new_free_size free_end_start allocation_size : Z) :
    M FreeListSpace Z :=
  next_addr ← gets (fun s => GetAllocationAddressForSlot s next_info);
  (if free_end_start <=? next_addr then
     check (next_addr =? free_end_start);;
     modify (fun s => with_free_end s (u64 (free_end_ s + new_free_size)))
   else link_free info next_info new_free_size);;
  n ← gets num_bytes_allocated_;
  check (allocation_size <=? n);;
  modify (count_free allocation_size);;
  mret allocation_size.
Definition Free (obj : Z) : M FreeListSpace Z :=
  c ← gets (fun s => Contains s obj);
  check c;;
  check (IsAligned obj kAlignment);;
  info ← gets (fun s => GetSlotIndexForAddress s obj);
  a ← get_info info;
  check (negb (IsFree a));;
  let allocation_size := ByteSize a in
  check (0 <? allocation_size);;
  check (IsAligned allocation_size kAlignment);;
  set_byte_size info allocation_size true;;
  a ← get_info info;
  let next_info := GetNextInfo info a in
  free_end_start ← gets (fun s => end_ s - free_end_ s);
  let prev_free_bytes := GetPrevFreeBytes a in
  '(info, new_free_size) ← coalesce_prev info allocation_size prev_free_bytes;
  finish_free info next_info new_free_size free_end_start allocation_size.

Definition AllocationSize (obj : Z) : M FreeListSpace Z :=
  c ← gets (fun s => Contains s obj);
  check c;;
  info ← gets (fun s => GetSlotIndexForAddress s obj);
  a ← get_info info;
  check (negb (IsFree a));;
  mret (ByteSize a).

(** The place of a new block: the smallest free block that fits, or the start
    of the end free region.  [temp_addr] is the address of [temp_info]. *)
Definition take_block (temp_addr allocation_size : Z) : M FreeListSpace (option Z) :=
  check (IsAligned allocation_size kAlignment);;
  let temp_info := SetByteSize 0 false (SetPrevFreeBytes allocation_size zero_info) in
  l ← gets (fun s => lower_bound (allocation_info_ s) temp_info temp_addr (free_blocks_ s));
  match l.2 with
  | info :: rest =>
      modify (fun s => with_free_blocks s (l.1 ++ rest));;
      a ← get_info info;
      check (negb (GetPrevFree a =? 0));;
      let new_info := GetPrevFreeInfo info a in
      set_prev_free_bytes info (u64 (GetPrevFreeBytes a - allocation_size));;
      a ← get_info info;
      (if 0 <? GetPrevFreeBytes a then
         let new_free := info - GetPrevFree a in
         set_prev_free_bytes new_free 0;;
         set_byte_size new_free (GetPrevFreeBytes a) true;;
         insert_free_block info
       else mret tt);;
      mret (Some new_info)
  | [] =>
      free_end ← gets free_end_;
      if allocation_size <=? free_end then
        new_info ← gets (fun s => GetSlotIndexForAddress s (end_ s - free_end_ s));
        modify (fun s => with_free_end s (free_end_ s - allocation_size));;
        mret (Some new_info)
      else mret None
  end.
(** The end of [Alloc] once the place of the block is known. *)
Definition place_block (new_info allocation_size : Z) : M FreeListSpace (option (Z * Z)) :=
  modify (count_alloc allocation_size);;
  obj ← gets (fun s => GetAllocationAddressForSlot s new_info);
  set_prev_free_bytes new_info 0;;
  set_byte_size new_info allocation_size false;;
  mret (Some (obj, allocation_size)).
(** [Alloc]: the object and [bytes_allocated]; [None] is [nullptr]. *)
Definition Alloc (temp_addr num_bytes : Z) : M FreeListSpace (option (Z * Z)) :=
  let allocation_size := RoundUp num_bytes kAlignment in
  new_info ← take_block temp_addr allocation_size;
  match new_info with
  | None => mret None
  | Some new_info => place_block new_info allocation_size
  end.

(** [Walk]: the blocks the callback is called on, in the order of the calls
    (each call on a block is followed by one on null pointers).  A block has
    at least one slot, so [fuel] above the number of slots is enough. *)
Fixpoint Walk_from (fuel : nat) (cur_info end_info : Z) : M FreeListSpace (list (Z * Z)) :=
  match fuel with
  | O => fun _ => Diverged
  | S fuel =>
      if cur_info <? end_info then
        a ← get_info cur_info;
        byte_start ← gets (fun s => GetAllocationAddressForSlot s cur_info);
        rest ← Walk_from fuel (GetNextInfo cur_info a) end_info;
        mret (if negb (IsFree a) then (byte_start, byte_start + ByteSize a) :: rest else rest)
      else
        check (cur_info =? end_info);; mret []
  end.
Definition end_info (s : FreeListSpace) : Z := GetSlotIndexForAddress s (end_ s - free_end_ s).
Definition Walk : M FreeListSpace (list (Z * Z)) :=
  e ← gets end_info; Walk_from (S (Z.to_nat e)) 0 e.

Definition IsZygoteLargeObject (obj : Z) : M FreeListSpace bool :=
  info ← gets (fun s => GetSlotIndexForAddress s obj);
  a ← get_info info;
  mret (IsZygoteObject a).

Fixpoint SetAllZygote_from (fuel : nat) (cur_info end_info : Z) : M FreeListSpace unit :=
  match fuel with
  | O => fun _ => Diverged
  | S fuel =>
      if cur_info <? end_info then
        a ← get_info cur_info;
        (if negb (IsFree a) then upd_info cur_info SetZygoteObject else mret tt);;
        a ← get_info cur_info;
        SetAllZygote_from fuel (GetNextInfo cur_info a) end_info
      else mret tt
  end.
Definition SetAllLargeObjectsAsZygoteObjects : M FreeListSpace unit :=
  e ← gets end_info; SetAllZygote_from (S (Z.to_nat e)) 0 e.

(** [LargeObjectSpace::FreeList] *)
Fixpoint FreeList (ptrs : list Z) : M FreeListSpace Z :=
  match ptrs with
  | [] => mret 0
  | p :: ptrs => n ← Free p; total ← FreeList ptrs; mret (n + total)
  end.

(** ** Bit level *)
Definition kMaxPages : Z := 2 ^ 18.

Lemma kFlagsMask_ones : kFlagsMask = Z.ones 30.
Proof. reflexivity. Qed.

Lemma land_pow2 x k : 0 <= k -> Z.land x (2 ^ k) = if Z.testbit x k then 2 ^ k else 0.
Proof.
  intros Hk. apply Z.bits_inj'; intros i Hi.
  rewrite Z.land_spec, (Z.pow2_bits_eqb k i) by done.
  destruct (Z.eqb_spec k i) as [->|].
  - destruct (Z.testbit x i) eqn:E; [by rewrite Z.pow2_bits_true | by rewrite Z.bits_0].
  - destruct (Z.testbit x k); [rewrite Z.pow2_bits_false by done | rewrite Z.bits_0]; btauto.
Qed.

Lemma land_pow2_eqb x k : 0 <= k -> (Z.land x (2 ^ k) =? 0) = negb (Z.testbit x k).
Proof.
  intros Hk. rewrite land_pow2 by done. pose proof (Z.pow_pos_nonneg 2 k).
  destruct (Z.testbit x k); simpl; [apply Z.eqb_neq; lia | done].
Qed.

Lemma IsFree_testbit a : IsFree a = Z.testbit (alloc_size_ a) 31.
Proof. unfold IsFree, kFlagFree. by rewrite (land_pow2_eqb _ 31), negb_involutive by lia. Qed.
Lemma IsZygote_testbit a : IsZygoteObject a = Z.testbit (alloc_size_ a) 30.
Proof. unfold IsZygoteObject, kFlagZygote. by rewrite (land_pow2_eqb _ 30), negb_involutive by lia. Qed.

Lemma IsAligned_mod x : IsAligned x kAlignment = (x mod 4096 =? 0).
Proof.
  unfold IsAligned, kAlignment, kPageSize. change (4096 - 1) with (Z.ones 12).
  by rewrite Z.land_ones by lia.
Qed.
Lemma IsAligned_pages n : IsAligned (n * kAlignment) kAlignment = true.
Proof. rewrite IsAligned_mod. unfold kAlignment, kPageSize. rewrite Z.mod_mul by lia. done. Qed.

Lemma RoundDown_page y : in_width 64 y -> RoundDown y kAlignment = y / 4096 * 4096.
Proof.
  intros Hy. unfold RoundDown, kAlignment, kPageSize.
  change (Z.opp 4096) with (Z.lnot (Z.ones 12)). change 4096 with (2 ^ 12).
  rewrite <- Z.shiftr_div_pow2, <- Z.shiftl_mul_pow2 by lia.
  apply Z.bits_inj'; intros i Hi. destruct (Z.ltb_spec i 12); bit_solve.
  rewrite andb_true_r. f_equal. lia.
Qed.
Lemma RoundUp_page n :
  0 <= n -> n + 4095 < 2 ^ 64 -> RoundUp n kAlignment = (n + 4095) / 4096 * 4096.
Proof.
  intros. unfold RoundUp. assert (Hw : in_width 64 (n + kAlignment - 1)).
  { unfold kAlignment, kPageSize. width_lia. }
  rewrite wrap_small, RoundDown_page by done. unfold kAlignment, kPageSize. do 2 f_equal. lia.
Qed.

Lemma byte_size_ok_pages n : 0 <= n < kMaxPages -> byte_size_ok (n * kAlignment) = true.
Proof.
  intros Hn. unfold byte_size_ok. rewrite IsAligned_pages, andb_true_r.
  assert (Hw : in_width 30 (n * kAlignment)).
  { unfold in_width, kAlignment, kPageSize, kMaxPages in *. lia. }
  replace (Z.land _ _) with 0; [done|]. symmetry.
  change (u32 (Z.lnot kFlagsMask)) with (Z.shiftl 3 30).
  apply Z.bits_inj'; intros i Hi. rewrite Z.land_spec, Z.bits_0, Z.shiftl_spec by done.
  destruct (Z.ltb_spec i 30); [rewrite (Z.testbit_neg_r 3) by lia; btauto|].
  by rewrite (in_width_testbit 30 _ i) by done.
Qed.

(** The flags of a block of [n] pages. *)
Lemma testbit_enc n f k :
  0 <= n < kMaxPages -> 30 <= k -> Z.testbit (Z.lor n f) k = Z.testbit f k.
Proof.
  intros Hn Hk. rewrite Z.lor_spec, (in_width_testbit 30 n k); [done | lia | | done].
  unfold in_width, kMaxPages in *. lia.
Qed.
Lemma AlignSize_enc p n f :
  0 <= n < kMaxPages -> f = 0 \/ f = kFlagFree \/ f = kFlagZygote -> AlignSize (mkInfo p (Z.lor n f)) = n.
Proof.
  intros Hn Hf. unfold AlignSize; simpl. rewrite kFlagsMask_ones.
  assert (Hw : in_width 30 n) by (unfold in_width, kMaxPages in *; lia).
  rewrite Z.land_lor_distr_l. replace (Z.land f (Z.ones 30)) with 0.
  - rewrite Z.lor_0_r, Z.land_ones by lia. apply Z.mod_small. exact Hw.
  - by destruct Hf as [-> | [-> | ->]].
Qed.
Lemma enc_u32 n f :
  0 <= n < kMaxPages -> f = 0 \/ f = kFlagFree \/ f = kFlagZygote -> u32 (Z.lor n f) = Z.lor n f.
Proof.
  intros Hn Hf. apply wrap_small, lor_in_width; [lia | unfold in_width, kMaxPages in *; lia |].
  destruct Hf as [-> | [-> | ->]]; unfold in_width, kFlagFree, kFlagZygote; lia.
Qed.
Lemma div_pages n : n * kAlignment / kAlignment = n.
Proof. apply Z.div_mul. unfold kAlignment, kPageSize. lia. Qed.
Lemma SetByteSize_pages n b a :
  0 <= n < kMaxPages ->
  SetByteSize (n * kAlignment) b a = mkInfo (prev_free_ a) (Z.lor n (if b then kFlagFree else 0)).
Proof. intros. unfold SetByteSize. rewrite div_pages, enc_u32; [done | done | destruct b; auto]. Qed.
Lemma SetPrevFreeBytes_pages n a :
  0 <= n < kMaxPages -> SetPrevFreeBytes (n * kAlignment) a = mkInfo n (alloc_size_ a).
Proof.
  intros. unfold SetPrevFreeBytes. rewrite div_pages, wrap_small; [done|].
  unfold in_width, kMaxPages in *. lia.
Qed.

(** ** The ordered set of free blocks *)
Lemma SortByPrevFree_spec a pa b pb :
  SortByPrevFree a pa b pb = true <->
  GetPrevFree a < GetPrevFree b \/
  (GetPrevFree a = GetPrevFree b /\
   (AlignSize a < AlignSize b \/ (AlignSize a = AlignSize b /\ pa < pb))).
Proof. unfold SortByPrevFree. split_ltb; split; intros; try done; lia. Qed.

(** Order of the elements, by the current contents of the table. *)
Definition klt (t : gmap Z AllocationInfo) (p q : Z) : Prop :=
  SortByPrevFree (info_at t p) p (info_at t q) q = true.

Lemma klt_irrefl t p : ~ klt t p p.
Proof. unfold klt. rewrite SortByPrevFree_spec. lia. Qed.
Lemma klt_trans t p q r : klt t p q -> klt t q r -> klt t p r.
Proof. unfold klt. rewrite !SortByPrevFree_spec. lia. Qed.
Lemma klt_total t p q : p <> q -> klt t p q \/ klt t q p.
Proof. unfold klt. rewrite !SortByPrevFree_spec. lia. Qed.

Lemma lower_bound_spec t b pb l l1 l2 :
  lower_bound t b pb l = (l1, l2) ->
  l = l1 ++ l2 /\ Forall (fun p => elem_lt t p b pb = true) l1 /\
  match l2 with [] => True | q :: _ => elem_lt t q b pb = false end.
Proof.
  revert l1 l2; induction l as [|p l IH]; intros l1 l2 Hl; simpl in Hl; [by simplify_eq|].
  destruct (elem_lt t p b pb) eqn:E; [|by simplify_eq].
  destruct (lower_bound t b pb l) as [m1 m2]. simplify_eq.
  destruct (IH m1 l2 eq_refl) as (-> & Hm & Hq). split_and!; auto.
Qed.

(** In a sorted set, [lower_bound] of an element finds it. *)
Lemma lower_bound_elem t p l :
  StronglySorted (klt t) l -> p ∈ l ->
  exists l1 l2, l = l1 ++ p :: l2 /\ lower_bound t (info_at t p) p l = (l1, p :: l2).
Proof.
  induction l as [|q l IH]; intros Hs Hp; [by apply elem_of_nil in Hp|].
  apply StronglySorted_inv in Hs as [Hs Hq]. simpl.
  destruct (elem_lt t q (info_at t p) p) eqn:E.
  - apply elem_of_cons in Hp as [->|Hp]; [by apply klt_irrefl in E|].
    destruct (IH Hs Hp) as (l1 & l2 & -> & ->). by exists (q :: l1), l2.
  - apply elem_of_cons in Hp as [->|Hp]; [by exists [], l|].
    rewrite Forall_forall in Hq. unfold elem_lt in E.
    specialize (Hq p Hp). unfold klt in Hq. congruence.
Qed.

Lemma sorted_remove t l1 p l2 :
  StronglySorted (klt t) (l1 ++ p :: l2) ->
  StronglySorted (klt t) (l1 ++ l2) /\ p ∉ l1 ++ l2.
Proof.
  induction l1 as [|q l1 IH]; simpl; intros Hs; apply StronglySorted_inv in Hs as [Hs Hq].
  - split; [done|]. intros Hp. rewrite Forall_forall in Hq. by apply (klt_irrefl t p), Hq.
  - destruct (IH Hs) as [Hs' Hp]. rewrite Forall_forall in Hq. split.
    + constructor; [done|]. rewrite Forall_forall. intros x Hx. apply Hq.
      rewrite !elem_of_app, elem_of_cons in *. tauto.
    + rewrite elem_of_cons. intros [->|]; [|done]. apply (klt_irrefl t q), Hq.
      rewrite elem_of_app, elem_of_cons. auto.
Qed.

Lemma set_insert_spec t p l :
  StronglySorted (klt t) l -> p ∉ l ->
  StronglySorted (klt t) (set_insert t p l) /\ (forall k, k ∈ set_insert t p l <-> k = p \/ k ∈ l).
Proof.
  intros Hs Hp. unfold set_insert.
  destruct (lower_bound t (info_at t p) p l) as [l1 l2] eqn:E.
  apply lower_bound_spec in E as (-> & Hl1 & Hq).
  assert (Hl2 : forall q l3, l2 = q :: l3 -> klt t p q).
  { intros q l3 ->. destruct (klt_total t p q) as [|Hqp]; [|done|].
    - intros ->. apply Hp. rewrite elem_of_app, elem_of_cons. auto.
    - unfold elem_lt in Hq. unfold klt in Hqp. congruence. }
  assert (Hgoal : StronglySorted (klt t) (l1 ++ p :: l2)).
  { clear Hp. induction l1 as [|x l1 IH]; simpl in *.
    - constructor; [done|]. destruct l2 as [|q l3]; constructor; [by eapply Hl2|].
      apply StronglySorted_inv in Hs as [_ Hs]. eapply Forall_impl; [exact Hs|].
      intros y. apply klt_trans. by eapply Hl2.
    - apply StronglySorted_inv in Hs as [Hs Hx]. inversion Hl1; subst.
      constructor; [by apply IH|]. rewrite Forall_app in *. rewrite Forall_cons. by destruct Hx. }
  assert (Hmem : forall k, k ∈ l1 ++ p :: l2 <-> k = p \/ k ∈ l1 ++ l2)
    by (intros k; rewrite !elem_of_app, elem_of_cons; tauto).
  destruct l2 as [|q l3]; [done|].
  specialize (Hl2 q l3 eq_refl). unfold klt in Hl2. by rewrite Hl2.
Qed.

(** The order only depends on the keys of the elements. *)
Definition same_key (a b : AllocationInfo) : Prop :=
  GetPrevFree a = GetPrevFree b /\ AlignSize a = AlignSize b.
Lemma sorted_ext t t' l :
  (forall k, k ∈ l -> same_key (info_at t k) (info_at t' k)) ->
  StronglySorted (klt t) l -> StronglySorted (klt t') l.
Proof.
  intros Hk Hs. induction Hs as [|x l Hs IH Hx]; constructor.
  - apply IH. intros k Hin. apply Hk, elem_of_cons. auto.
  - rewrite Forall_forall in *. intros y Hy. specialize (Hx y Hy). unfold klt in *.
    rewrite SortByPrevFree_spec in *.
    destruct (Hk x) as [<- <-]; [apply elem_of_cons; auto|].
    destruct (Hk y) as [<- <-]; [apply elem_of_cons; auto|]. done.
Qed.

(** ** Blocks

    The abstract state: the sequence of blocks from the start of the space to
    the end free region. *)
Inductive block := BFree (n : Z) | BUsed (n : Z) (zygote : bool).
Definition bsize (b : block) : Z := match b with BFree n | BUsed n _ => n end.
Fixpoint blen (bs : list block) : Z :=
  match bs with [] => 0 | b :: bs => bsize b + blen bs end.
Definition zygote_flag (z : bool) : Z := if z then kFlagZygote else 0.

(** The table describes the blocks [bs] from slot [i] to slot [j]; [p] pages
    before [i] and [q] pages before [j] are free.  Two free blocks are never
    adjacent. *)
Fixpoint tiles (t : gmap Z AllocationInfo) (i p : Z) (bs : list block) (j q : Z) : Prop :=
  match bs with
  | [] => i = j /\ p = q
  | BFree n :: bs =>
      0 < n < kMaxPages /\ p = 0 /\ t !! i = Some (mkInfo 0 (Z.lor n kFlagFree)) /\
      tiles t (i + n) n bs j q
  | BUsed n z :: bs =>
      0 < n < kMaxPages /\ t !! i = Some (mkInfo p (Z.lor n (zygote_flag z))) /\
      tiles t (i + n) 0 bs j q
  end.
(** The used blocks that follow a free block, and all used blocks. *)
Fixpoint holes (i p : Z) (bs : list block) : list Z :=
  match bs with
  | [] => []
  | BFree n :: bs => holes (i + n) n bs
  | BUsed n _ :: bs => (if p =? 0 then [] else [i]) ++ holes (i + n) 0 bs
  end.
Fixpoint used (i : Z) (bs : list block) : list (Z * Z * bool) :=
  match bs with
  | [] => []
  | BFree n :: bs => used (i + n) bs
  | BUsed n z :: bs => (i, n, z) :: used (i + n) bs
  end.
Definition used_pages (l : list (Z * Z * bool)) : Z := foldr (fun u acc => u.1.2 + acc) 0 l.

Lemma blen_app bs1 bs2 : blen (bs1 ++ bs2) = blen bs1 + blen bs2.
Proof. induction bs1; simpl; lia. Qed.

Lemma tiles_app t i p bs1 bs2 j q :
  tiles t i p (bs1 ++ bs2) j q <->
  exists k r, tiles t i p bs1 k r /\ tiles t k r bs2 j q.
Proof.
  revert i p; induction bs1 as [|[n|n z] bs1 IH]; intros i p; simpl.
  - split; [by exists i, p | by intros (k & r & [-> ->] & ?)].
  - rewrite IH. split; [intros (? & ? & ? & k & r & ? & ?); exists k, r; tauto
                       | intros (k & r & (? & ? & ? & ?) & ?); split_and!; eauto; tauto].
  - rewrite IH. split; [intros (? & ? & k & r & ? & ?); exists k, r; tauto
                       | intros (k & r & (? & ? & ?) & ?); split_and!; eauto; tauto].
Qed.

Lemma tiles_len t i p bs j q : tiles t i p bs j q -> j = i + blen bs /\ 0 <= blen bs.
Proof.
  revert i p; induction bs as [|[n|n z] bs IH]; intros i p; simpl; [lia|..].
  - intros (? & _ & _ & H). apply IH in H. lia.
  - intros (? & _ & H). apply IH in H. lia.
Qed.

(** Only the entries of the range matter. *)
Lemma tiles_frame t t' i p bs j q :
  tiles t i p bs j q -> (forall k, i <= k < j -> t' !! k = t !! k) -> tiles t' i p bs j q.
Proof.
  revert i p; induction bs as [|[n|n z] bs IH]; intros i p; simpl; [done|..].
  - intros (? & ? & Hi & H) Hf. pose proof (tiles_len _ _ _ _ _ _ H).
    rewrite Hf by lia. split_and!; try done; try lia. apply IH; [done|]. intros; apply Hf; lia.
  - intros (? & Hi & H) Hf. pose proof (tiles_len _ _ _ _ _ _ H).
    rewrite Hf by lia. split_and!; try done; try lia. apply IH; [done|]. intros; apply Hf; lia.
Qed.

Lemma holes_app t i p bs1 bs2 k r :
  tiles t i p bs1 k r -> holes i p (bs1 ++ bs2) = holes i p bs1 ++ holes k r bs2.
Proof.
  revert i p; induction bs1 as [|[n|n z] bs1 IH]; intros i p; simpl.
  - by intros [-> ->].
  - intros (? & ? & ? & H). by apply IH.
  - intros (? & ? & H). by rewrite <- app_assoc, (IH _ _ H).
Qed.

Lemma used_app i bs1 bs2 : used i (bs1 ++ bs2) = used i bs1 ++ used (i + blen bs1) bs2.
Proof.
  revert i; induction bs1 as [|[n|n z] bs1 IH]; intros i; simpl.
  - by rewrite Z.add_0_r.
  - rewrite IH. by rewrite Z.add_assoc.
  - rewrite IH. by rewrite Z.add_assoc.
Qed.
Lemma used_pages_app l1 l2 : used_pages (l1 ++ l2) = used_pages l1 + used_pages l2.
Proof. induction l1 as [|u l1 IH]; simpl; [done|]. unfold used_pages in *. simpl. lia. Qed.

Lemma holes_range t i p bs j q k : tiles t i p bs j q -> k ∈ holes i p bs -> i <= k < j.
Proof.
  revert i p; induction bs as [|[n|n z] bs IH]; intros i p; simpl; [by rewrite elem_of_nil|..].
  - intros (? & _ & _ & H) Hk. pose proof (tiles_len _ _ _ _ _ _ H). apply IH in Hk; [lia | done].
  - intros (? & _ & H) Hk. pose proof (tiles_len _ _ _ _ _ _ H).
    apply elem_of_app in Hk as [Hk|Hk].
    + destruct (p =? 0); [by apply elem_of_nil in Hk|]. apply list_elem_of_singleton in Hk. lia.
    + apply IH in Hk; [lia | done].
Qed.

(** A hole is a used block after a free one. *)
Lemma holes_split_gen t i p bs j q k :
  tiles t i p bs j q -> k ∈ holes i p bs ->
  (k = i /\ p <> 0 /\ exists n z bs2, bs = BUsed n z :: bs2) \/
  exists bs1 m n z bs2, bs = bs1 ++ BFree m :: BUsed n z :: bs2 /\ k = i + blen bs1 + m.
Proof.
  revert i p; induction bs as [|[n|n z] bs IH]; intros i p; simpl; [by rewrite elem_of_nil|..].
  - intros (? & -> & _ & H) Hk. right.
    destruct (IH _ _ H Hk) as [(-> & _ & n' & z & bs2 & ->)|(bs1 & m & n' & z & bs2 & -> & ->)].
    + exists [], n, n', z, bs2. simpl. split; [done | lia].
    + exists (BFree n :: bs1), m, n', z, bs2. simpl. split; [done | lia].
  - intros (? & _ & H) Hk. apply elem_of_app in Hk as [Hk|Hk].
    + left. destruct (Z.eqb_spec p 0); [by apply elem_of_nil in Hk|].
      apply list_elem_of_singleton in Hk. subst. eauto 10.
    + right. destruct (IH _ _ H Hk) as [(_ & ? & _)|(bs1 & m & n' & z' & bs2 & -> & ->)]; [done|].
      exists (BUsed n z :: bs1), m, n', z', bs2. simpl. split; [done | lia].
Qed.
Lemma holes_split t bs j q k :
  tiles t 0 0 bs j q -> k ∈ holes 0 0 bs ->
  exists bs1 m n z bs2, bs = bs1 ++ BFree m :: BUsed n z :: bs2 /\ k = blen bs1 + m.
Proof. intros H Hk. by destruct (holes_split_gen _ _ _ _ _ _ _ H Hk) as [(_ & ? & _)|?]. Qed.

(** A free block of [m] pages, absent when [m] is zero. *)
Definition fblk (m : Z) : list block := if m =? 0 then [] else [BFree m].
Lemma blen_fblk m : blen (fblk m) = m.
Proof. unfold fblk. destruct (Z.eqb_spec m 0); simpl; lia. Qed.
Lemma used_fblk i m : used i (fblk m) = [].
Proof. unfold fblk. by destruct (m =? 0). Qed.

Lemma tiles_last_free t i bs k r :
  tiles t i 0 bs k r ->
  0 <= r < kMaxPages /\ exists bs', bs = bs' ++ fblk r /\ tiles t i 0 bs' (k - r) 0.
Proof.
  destruct bs as [|b bs _] using rev_ind; simpl; intros H.
  - destruct H as [<- <-]. split; [unfold kMaxPages; lia|]. exists []. simpl. split; [done | lia].
  - apply tiles_app in H as (k' & r' & H1 & H2). pose proof (tiles_len _ _ _ _ _ _ H1).
    destruct b as [n|n z]; simpl in H2.
    + destruct H2 as (Hn & Hr & Hi & Hk & ->). subst r' k. split; [lia|]. exists bs. unfold fblk.
      destruct (Z.eqb_spec r 0); [lia|]. split; [done|]. by rewrite Z.add_simpl_r.
    + destruct H2 as (Hn & Hi & Hk & Hr). subst k r. split; [unfold kMaxPages; lia|].
      exists (bs ++ [BUsed n z]). rewrite app_nil_r. split; [done|].
      rewrite tiles_app. exists k', r'. simpl. split_and!; try done; lia.
Qed.

Lemma tiles_first t k bs j :
  tiles t k 0 bs j 0 ->
  bs = [] \/ exists m n z bs', bs = fblk m ++ BUsed n z :: bs' /\ 0 <= m < kMaxPages.
Proof.
  destruct bs as [|[m|n z] bs]; simpl; [auto|..].
  - intros (Hm & _ & _ & H). right. destruct bs as [|[m'|n z] bs]; simpl in H; [lia..|].
    exists m, n, z, bs. unfold fblk. destruct (Z.eqb_spec m 0); [lia|]. split; [done | lia].
  - intros _. right. exists 0, n, z, bs. unfold kMaxPages. split; [done | lia].
Qed.

(** A used block with the free space around it, if any, becomes a free block. *)
Definition split_last (bs : list block) : list block * Z :=
  match rev bs with
  | BFree m :: r => (rev r, m)
  | _ => (bs, 0)
  end.
Definition coalesce (bs1 : list block) (n : Z) (bs2 : list block) : list block :=
  let '(bs1', m) := split_last bs1 in
  match bs2 with
  | [] => bs1'
  | BFree m2 :: bs3 => bs1' ++ BFree (m + n + m2) :: bs3
  | bs3 => bs1' ++ BFree (m + n) :: bs3
  end.
(** The first [a] pages of a free block of [m] pages become a used block. *)
Definition carve (bs1 : list block) (a m : Z) (bs2 : list block) : list block :=
  bs1 ++ BUsed a false :: fblk (m - a) ++ bs2.

Lemma split_last_fblk t i bs k m :
  tiles t i 0 bs k 0 -> split_last (bs ++ fblk m) = (bs, m).
Proof.
  intros H. unfold split_last, fblk. destruct (Z.eqb_spec m 0) as [->|].
  - rewrite app_nil_r. destruct bs as [|[n|n z] bs _] using rev_ind; [done|..].
    + apply tiles_app in H as (? & ? & _ & H). simpl in H. lia.
    + by rewrite rev_app_distr.
  - rewrite rev_app_distr. simpl. by rewrite rev_involutive.
Qed.
Lemma coalesce_fblk t i bs1 k m n m2 n2 z2 bs3 :
  tiles t i 0 bs1 k 0 ->
  coalesce (bs1 ++ fblk m) n (fblk m2 ++ BUsed n2 z2 :: bs3) =
  bs1 ++ BFree (m + n + m2) :: BUsed n2 z2 :: bs3.
Proof.
  intros H. unfold coalesce. rewrite (split_last_fblk _ _ _ _ _ H). unfold fblk.
  destruct (Z.eqb_spec m2 0) as [->|]; simpl; [by rewrite Z.add_0_r | done].
Qed.

(** ** The invariant *)
Record inv (N : Z) (s : FreeListSpace) (bs : list block) : Prop := {
  inv_pages : 0 <= N < kMaxPages;
  inv_begin : 0 <= begin_ s /\ begin_ s mod kAlignment = 0;
  inv_end : end_ s = begin_ s + N * kAlignment /\ end_ s < 2 ^ 64;
  inv_table : forall k, 0 <= k < N -> is_Some (allocation_info_ s !! k);
  inv_len : blen bs <= N;
  inv_free_end : free_end_ s = (N - blen bs) * kAlignment;
  inv_tiles : tiles (allocation_info_ s) 0 0 bs (blen bs) 0;
  inv_sorted : StronglySorted (klt (allocation_info_ s)) (free_blocks_ s);
  inv_holes : forall k, k ∈ free_blocks_ s <-> k ∈ holes 0 0 bs;
  inv_objects : num_objects_allocated_ s = Z.of_nat (length (used 0 bs));
  inv_bytes : num_bytes_allocated_ s = used_pages (used 0 bs) * kAlignment
}.

(** ** Running the operations *)
Lemma bind_get_info {B} p a (k : AllocationInfo -> M FreeListSpace B) s :
  allocation_info_ s !! p = Some a -> (get_info p ≫= k) s = k a s.
Proof. intros H. apply bind_done. unfold get_info. by rewrite H. Qed.
Lemma upd_info_done p a f s :
  allocation_info_ s !! p = Some a ->
  upd_info p f s = Done (tt, with_info s (<[p := f a]> (allocation_info_ s))).
Proof. intros H. unfold upd_info. by rewrite (bind_get_info _ a). Qed.
Lemma set_byte_size_done p a n b s :
  allocation_info_ s !! p = Some a -> 0 <= n < kMaxPages ->
  set_byte_size p (n * kAlignment) b s =
  Done (tt, with_info s (<[p := mkInfo (prev_free_ a) (Z.lor n (if b then kFlagFree else 0))]>
                           (allocation_info_ s))).
Proof.
  intros H Hn. unfold set_byte_size. rewrite bind_check by (by apply byte_size_ok_pages).
  by rewrite (upd_info_done _ a), SetByteSize_pages.
Qed.
Lemma set_prev_free_bytes_done p a n s :
  allocation_info_ s !! p = Some a -> 0 <= n < kMaxPages ->
  set_prev_free_bytes p (n * kAlignment) s =
  Done (tt, with_info s (<[p := mkInfo n (alloc_size_ a)]> (allocation_info_ s))).
Proof.
  intros H Hn. unfold set_prev_free_bytes. rewrite bind_check by apply IsAligned_pages.
  by rewrite (upd_info_done _ a), SetPrevFreeBytes_pages.
Qed.

Lemma info_at_lookup t p a : t !! p = Some a -> info_at t p = a.
Proof. unfold info_at. by intros ->. Qed.

Lemma RemoveFreePrev_done info a s :
  allocation_info_ s !! info = Some a -> 0 < prev_free_ a ->
  StronglySorted (klt (allocation_info_ s)) (free_blocks_ s) -> info ∈ free_blocks_ s ->
  exists l, RemoveFreePrev info s = Done (tt, with_free_blocks s l) /\
    StronglySorted (klt (allocation_info_ s)) l /\
    forall k, k ∈ l <-> k ∈ free_blocks_ s /\ k <> info.
Proof.
  intros Ha Hp Hs Hin. unfold RemoveFreePrev. rewrite (bind_get_info _ a) by done.
  rewrite bind_check by (unfold GetPrevFree; lia). rewrite bind_gets.
  destruct (lower_bound_elem _ _ _ Hs Hin) as (l1 & l2 & El & Hlb).
  rewrite (info_at_lookup _ _ _ Ha) in Hlb. rewrite Hlb. simpl.
  rewrite bind_check by lia. exists (l1 ++ l2). split; [done|].
  rewrite El in Hs. destruct (sorted_remove _ _ _ _ Hs) as [Hs' Hni]. split; [done|].
  intros k. rewrite El. rewrite elem_of_app in Hni. rewrite !elem_of_app, elem_of_cons.
  split; [|tauto]. intros Hk. split; [tauto|]. intros ->. tauto.
Qed.

Lemma coalesce_prev_done slot a m size s :
  allocation_info_ s !! slot = Some a -> prev_free_ a = m -> 0 <= m ->
  StronglySorted (klt (allocation_info_ s)) (free_blocks_ s) ->
  (slot ∈ free_blocks_ s <-> m <> 0) ->
  (m <> 0 -> exists b, allocation_info_ s !! (slot - m) = Some b /\ prev_free_ b = 0) ->
  exists l, coalesce_prev slot size (m * kAlignment) s =
      Done ((slot - m, size + m * kAlignment), with_free_blocks s l) /\
    StronglySorted (klt (allocation_info_ s)) l /\
    forall k, k ∈ l <-> k ∈ free_blocks_ s /\ k <> slot.
Proof.
  intros Ha Hm Hm0 Hs Hin Hb. unfold coalesce_prev.
  destruct (Z.eqb_spec (m * kAlignment) 0) as [E|E]; unfold kAlignment, kPageSize in E; simpl.
  - exists (free_blocks_ s). assert (m = 0) as -> by lia. rewrite Z.sub_0_r, Z.add_0_r.
    split_and!; [by destruct s | done |]. intros k. split; [|tauto]. intros Hk. split; [done|].
    intros ->. by apply Hin in Hk.
  - destruct (RemoveFreePrev_done slot a s) as (l & Hr & Hl & Hk); [done | lia | done | apply Hin; lia|].
    exists l. split; [|done]. destruct Hb as (b & Hb & Hb0); [lia|].
    rewrite (bind_done _ _ _ _ _ Hr), (bind_get_info _ a) by done.
    unfold GetPrevFreeInfo, GetPrevFree. rewrite Hm.
    rewrite (bind_get_info _ b) by done.
    by rewrite bind_check by (unfold GetPrevFreeBytes, GetPrevFree; by rewrite Hb0).
Qed.

Lemma IsFree_free p n : 0 <= n < kMaxPages -> IsFree (mkInfo p (Z.lor n kFlagFree)) = true.
Proof. intros. rewrite IsFree_testbit. cbn [alloc_size_]. by rewrite testbit_enc by lia. Qed.
Lemma IsFree_used p n z :
  0 <= n < kMaxPages -> IsFree (mkInfo p (Z.lor n (zygote_flag z))) = false.
Proof.
  intros. rewrite IsFree_testbit. cbn [alloc_size_]. rewrite testbit_enc by lia. by destruct z.
Qed.
Lemma AlignSize_free p n : 0 <= n < kMaxPages -> AlignSize (mkInfo p (Z.lor n kFlagFree)) = n.
Proof. intros. apply AlignSize_enc; auto. Qed.
Lemma AlignSize_used p n z :
  0 <= n < kMaxPages -> AlignSize (mkInfo p (Z.lor n (zygote_flag z))) = n.
Proof. intros. apply AlignSize_enc; [done|]. destruct z; auto. Qed.

Lemma coalesce_next_done nxt m n z size s :
  0 <= m < kMaxPages -> 0 < n < kMaxPages ->
  allocation_info_ s !! (nxt + m) = Some (mkInfo m (Z.lor n (zygote_flag z))) ->
  (m <> 0 -> allocation_info_ s !! nxt = Some (mkInfo 0 (Z.lor m kFlagFree))) ->
  StronglySorted (klt (allocation_info_ s)) (free_blocks_ s) ->
  (nxt + m ∈ free_blocks_ s <-> m <> 0) ->
  exists l, coalesce_next nxt size s =
      Done ((nxt + m, size + m * kAlignment), with_free_blocks s l) /\
    StronglySorted (klt (allocation_info_ s)) l /\
    forall k, k ∈ l <-> k ∈ free_blocks_ s /\ k <> nxt + m.
Proof.
  intros Hm Hn Hnf Hnx Hs Hin. unfold coalesce_next.
  pose proof (IsFree_used m n z ltac:(lia)) as Hused.
  destruct (decide (m = 0)) as [->|Hm0].
  - rewrite Z.add_0_r in *. rewrite (bind_get_info _ _ _ _ Hnf), Hused.
    exists (free_blocks_ s). rewrite Z.add_0_r. split_and!; [by destruct s | done |].
    intros k. split; [|tauto]. intros Hk. split; [done|]. intros ->. by apply Hin in Hk.
  - rewrite (bind_get_info _ _ _ _ (Hnx Hm0)).
    rewrite IsFree_free by lia. unfold GetNextInfo. rewrite AlignSize_free by lia.
    destruct (RemoveFreePrev_done (nxt + m) _ s Hnf) as (l & Hr & Hl & Hk);
      [simpl; lia | done | by apply Hin |].
    exists l. split; [|done]. rewrite (bind_get_info _ _ _ _ Hnf), Hused.
    rewrite bind_check by done. rewrite bind_check by apply IsAligned_pages. by rewrite (bind_done _ _ _ _ _ Hr).
Qed.

Lemma sorted_insert_other t p a l :
  StronglySorted (klt t) l -> p ∉ l -> StronglySorted (klt (<[p := a]> t)) l.
Proof.
  intros Hs Hp. eapply sorted_ext; [|exact Hs]. intros k Hk. unfold info_at.
  rewrite lookup_insert_ne by (by intros ->). done.
Qed.

(** The block from [start] to [nxt] becomes free, together with the [m] free
    pages that may follow it. *)
Lemma link_free_done start nxt k m n z c s :
  let t := allocation_info_ s in
  let nf := nxt + m in
  let t' := <[start := mkInfo 0 (Z.lor (k + m) kFlagFree)]>
              (<[nf := mkInfo (k + m) (Z.lor n (zygote_flag z))]> t) in
  0 <= m -> 0 < k -> k + m < kMaxPages -> 0 < n < kMaxPages -> nxt = start + k ->
  t !! nf = Some (mkInfo m (Z.lor n (zygote_flag z))) ->
  (m <> 0 -> t !! nxt = Some (mkInfo 0 (Z.lor m kFlagFree))) ->
  t !! start = Some c -> prev_free_ c = 0 ->
  StronglySorted (klt t) (free_blocks_ s) ->
  (nf ∈ free_blocks_ s <-> m <> 0) -> start ∉ free_blocks_ s ->
  exists l, link_free start nxt (k * kAlignment) s =
      Done (tt, with_info (with_free_blocks s l) t') /\
    StronglySorted (klt t') l /\ forall x, x ∈ l <-> x = nf \/ x ∈ free_blocks_ s.
Proof.
  intros t nf t' Hm Hk Hkm Hn Hx Hnf Hnx Hst Hc Hs Hin Hni. unfold link_free.
  destruct (coalesce_next_done nxt m n z (k * kAlignment) s) as (l0 & Hr & Hl0 & Hm0);
    [lia | lia | done | done | done | done |].
  rewrite (bind_done _ _ _ _ _ Hr). rewrite <- Z.mul_add_distr_r.
  erewrite bind_done; [|by apply set_prev_free_bytes_done; [done | lia]]. simpl.
  unfold insert_free_block. rewrite bind_modify. simpl.
  fold nf. fold t. set (t1 := <[nf := _]> t).
  assert (Hs1 : StronglySorted (klt t1) l0)
    by (apply sorted_insert_other; [done | rewrite Hm0; tauto]).
  destruct (set_insert_spec t1 nf l0) as [Hs2 Hm2]; [done | rewrite Hm0; tauto |].
  erewrite bind_done; [|apply (set_byte_size_done start c); [|lia]];
    [|simpl; unfold t1; by rewrite lookup_insert_ne by lia].
  rewrite (bind_get_info _ (mkInfo 0 (Z.lor (k + m) kFlagFree)))
    by (simpl; rewrite Hc; apply lookup_insert_eq).
  unfold GetNextInfo. rewrite AlignSize_free by lia.
  assert (E : start + (k + m) =? nf = true) by lia. rewrite E, Hc.
  exists (set_insert t1 nf l0). split; [done|].
  assert (Hel : forall x, x ∈ set_insert t1 nf l0 <-> x = nf \/ x ∈ free_blocks_ s).
  { intros x. rewrite Hm2, Hm0. destruct (decide (x = nf)); tauto. }
  split; [|done]. apply sorted_insert_other; [done|]. rewrite Hel. intros [|]; [lia | done].
Qed.

Lemma tiles_fblk t i m j q :
  tiles t i 0 (fblk m) j q <->
  j = i + m /\ q = m /\
  (m <> 0 -> 0 < m < kMaxPages /\ t !! i = Some (mkInfo 0 (Z.lor m kFlagFree))).
Proof.
  unfold fblk. destruct (Z.eqb_spec m 0) as [->|]; simpl.
  - rewrite Z.add_0_r. split; [intros [-> <-]; split_and!; done | intros (-> & -> & _); done].
  - split; [intros (? & _ & ? & <- & <-); tauto | intros (-> & -> & H); destruct H; tauto].
Qed.
Lemma holes_fblk i m n z bs :
  holes i 0 (fblk m ++ BUsed n z :: bs) =
  (if m =? 0 then [] else [i + m]) ++ holes (i + m + n) 0 bs.
Proof.
  unfold fblk. destruct (Z.eqb_spec m 0) as [->|]; simpl; [by rewrite Z.add_0_r|].
  destruct (Z.eqb_spec m 0); [lia | done].
Qed.

Lemma slot_of_address s k : GetSlotIndexForAddress s (begin_ s + k * kAlignment) = k.
Proof.
  unfold GetSlotIndexForAddress. rewrite Z.add_simpl_l. apply div_pages.
Qed.
Lemma slot_aligned s k :
  begin_ s mod kAlignment = 0 -> IsAligned (begin_ s + k * kAlignment) kAlignment = true.
Proof.
  intros H. rewrite IsAligned_mod. unfold kAlignment, kPageSize in *.
  rewrite Z.mod_add by lia. by rewrite H.
Qed.

Lemma tiles_det t i p bs j q j' q' : tiles t i p bs j q -> tiles t i p bs j' q' -> j = j' /\ q = q'.
Proof.
  revert i p; induction bs as [|[n|n z] bs IH]; intros i p; simpl; [lia|..].
  - intros (_ & _ & _ & H) (_ & _ & _ & H'). eauto.
  - intros (_ & _ & H) (_ & _ & H'). eauto.
Qed.

(** What the invariant says around the used block that follows [bs1]. *)
Lemma inv_block N s bs1 m n z bs2 start :
  inv N s (bs1 ++ fblk m ++ BUsed n z :: bs2) -> start = blen bs1 ->
  tiles (allocation_info_ s) 0 0 bs1 start 0 ->
  let t := allocation_info_ s in
  0 <= start /\ 0 <= m < kMaxPages /\ 0 < n < kMaxPages /\ 0 <= blen bs2 /\
  start + m + n + blen bs2 <= N /\
  blen (bs1 ++ fblk m ++ BUsed n z :: bs2) = start + m + n + blen bs2 /\
  t !! (start + m) = Some (mkInfo m (Z.lor n (zygote_flag z))) /\
  (m <> 0 -> t !! start = Some (mkInfo 0 (Z.lor m kFlagFree))) /\
  tiles t (start + m + n) 0 bs2 (start + m + n + blen bs2) 0 /\
  (forall k, k ∈ free_blocks_ s <->
     k ∈ holes 0 0 bs1 \/ (k = start + m /\ m <> 0) \/ k ∈ holes (start + m + n) 0 bs2).
Proof.
  intros Hinv Hst H1 t. pose proof (inv_tiles _ _ _ Hinv) as Ht.
  pose proof (inv_len _ _ _ Hinv) as Hlen. pose proof (inv_holes _ _ _ Hinv) as Hh.
  rewrite !blen_app, blen_fblk in Hlen, Ht |- *. simpl in Hlen, Ht |- *. rewrite <- Hst in *.
  apply tiles_app in Ht as (k & r & H1' & H2).
  destruct (tiles_det _ _ _ _ _ _ _ _ H1 H1') as [<- <-].
  apply tiles_app in H2 as (k2 & r2 & H2 & (Hn & Hi & H3)).
  apply tiles_fblk in H2 as (-> & -> & Hf).
  pose proof (tiles_len _ _ _ _ _ _ H1). destruct (tiles_len _ _ _ _ _ _ H3) as [E ?].
  assert (Hm : 0 <= m < kMaxPages) by (destruct (decide (m = 0)); [unfold kMaxPages; lia | lia]).
  split_and!; try done; try lia.
  - intros Hm0. by destruct (Hf Hm0).
  - by rewrite <- E.
  - intros x. rewrite Hh, (holes_app t _ _ _ _ _ _ H1), holes_fblk, !elem_of_app.
    destruct (Z.eqb_spec m 0); rewrite ?elem_of_nil, ?list_elem_of_singleton; tauto.
Qed.

(** [Free] up to the coalescing with the block before. *)
Lemma Free_prefix N s bs1 m n z bs2 start :
  inv N s (bs1 ++ fblk m ++ BUsed n z :: bs2) -> start = blen bs1 ->
  tiles (allocation_info_ s) 0 0 bs1 start 0 ->
  let t' := <[start + m := mkInfo m (Z.lor n kFlagFree)]> (allocation_info_ s) in
  exists l, Free (begin_ s + (start + m) * kAlignment) s =
      finish_free start (start + m + n) ((n + m) * kAlignment) (end_ s - free_end_ s)
        (n * kAlignment) (with_free_blocks (with_info s t') l) /\
    StronglySorted (klt t') l /\
    forall k, k ∈ l <-> k ∈ holes 0 0 bs1 \/ k ∈ holes (start + m + n) 0 bs2.
Proof.
  intros Hinv Hst H1 t'. pose proof (inv_end _ _ _ Hinv) as [He _].
  destruct (inv_block _ _ _ _ _ _ _ _ Hinv Hst H1)
    as (Hs0 & Hm & Hn & Hb2 & HN & _ & Hi & Hf & H3 & Hh).
  unfold Free. rewrite bind_gets, bind_check
    by (unfold Contains, kAlignment, kPageSize in *; rewrite andb_true_iff; lia).
  rewrite bind_check by apply slot_aligned, (inv_begin _ _ _ Hinv).
  rewrite bind_gets, slot_of_address, (bind_get_info _ _ _ _ Hi).
  rewrite IsFree_used, bind_check by (done || lia).
  unfold ByteSize. rewrite AlignSize_used by lia.
  rewrite bind_check by (unfold kAlignment, kPageSize; lia).
  rewrite bind_check by apply IsAligned_pages.
  erewrite bind_done; [|apply set_byte_size_done; [exact Hi | lia]]. cbn [prev_free_].
  rewrite (bind_get_info _ (mkInfo m (Z.lor n kFlagFree))) by (simpl; apply lookup_insert_eq).
  rewrite bind_gets. unfold GetNextInfo, GetPrevFreeBytes. rewrite AlignSize_free by lia.
  cbn [GetPrevFree prev_free_].
  set (s1 := with_info s _).
  assert (Hk : forall x, x ∈ holes 0 0 bs1 -> x < start + m)
    by (intros x Hx; apply (holes_range _ _ _ _ _ _ _ H1) in Hx; lia).
  assert (Hk2 : forall x, x ∈ holes (start + m + n) 0 bs2 -> start + m < x)
    by (intros x Hx; apply (holes_range _ _ _ _ _ _ _ H3) in Hx; lia).
  destruct (coalesce_prev_done (start + m) (mkInfo m (Z.lor n kFlagFree)) m (n * kAlignment) s1)
    as (l & Hr & Hl & Hel).
  - simpl. apply lookup_insert_eq.
  - done.
  - lia.
  - simpl. eapply sorted_ext; [|exact (inv_sorted _ _ _ Hinv)]. intros k _. unfold info_at.
    destruct (decide (k = start + m)) as [->|]; [|by rewrite lookup_insert_ne].
    rewrite lookup_insert_eq, Hi. simpl. split; [done|]. by rewrite AlignSize_used, AlignSize_free by lia.
  - simpl. rewrite Hh. split; [|tauto]. intros [Hx | [Hx | Hx]]; [apply Hk in Hx; lia | tauto |].
    apply Hk2 in Hx; lia.
  - intros Hm0. exists (mkInfo 0 (Z.lor m kFlagFree)). simpl. rewrite lookup_insert_ne by lia.
    rewrite Z.add_simpl_r. auto.
  - exists l. rewrite (bind_done _ _ _ _ _ Hr). rewrite Z.add_simpl_r, Z.mul_add_distr_r.
    split_and!; [done | done |]. intros k. rewrite Hel. simpl. rewrite Hh. split.
    + tauto.
    + intros [Hx | Hx]; (split; [tauto|]); [apply Hk in Hx | apply Hk2 in Hx]; lia.
Qed.

Lemma used_bounds t i p bs j q :
  tiles t i p bs j q ->
  Z.of_nat (length (used i bs)) <= used_pages (used i bs) <= blen bs.
Proof.
  revert i p; induction bs as [|[n|n z] bs IH]; intros i p; simpl; [lia|..].
  - intros (? & _ & _ & H). apply IH in H. lia.
  - intros (? & _ & H). apply IH in H. unfold used_pages in *. simpl. lia.
Qed.

Lemma used_coalesce t bs1 bs2 n k r j :
  tiles t 0 0 bs1 k r -> tiles t (k + n) 0 bs2 j 0 ->
  used 0 (coalesce bs1 n bs2) = used 0 bs1 ++ used (blen bs1 + n) bs2.
Proof.
  intros H1 H2. apply tiles_last_free in H1 as (Hr & bs' & -> & H1).
  apply tiles_first in H2 as [->|(m & n' & z & bs'' & -> & Hm)].
  - unfold coalesce. rewrite (split_last_fblk _ _ _ _ _ H1). simpl.
    by rewrite used_app, used_fblk, !app_nil_r.
  - rewrite (coalesce_fblk _ _ _ _ _ _ _ _ _ _ H1).
    rewrite !used_app, !used_fblk, blen_app, !blen_fblk, app_nil_r. simpl.
    f_equal. f_equal; [do 2 f_equal; lia | f_equal; lia].
Qed.

(** Accounting when a block of [n] pages is freed. *)
Lemma inv_count_free N s bs1 n z bs2 :
  inv N s (bs1 ++ BUsed n z :: bs2) ->
  let l := used 0 bs1 ++ used (blen bs1 + n) bs2 in
  n * kAlignment <= num_bytes_allocated_ s /\
  u64 (num_objects_allocated_ s - 1) = Z.of_nat (length l) /\
  u64 (num_bytes_allocated_ s - n * kAlignment) = used_pages l * kAlignment.
Proof.
  intros Hinv l. pose proof (inv_objects _ _ _ Hinv) as Ho. pose proof (inv_bytes _ _ _ Hinv) as Hb.
  pose proof (used_bounds _ _ _ _ _ _ (inv_tiles _ _ _ Hinv)) as Hu.
  pose proof (inv_len _ _ _ Hinv). pose proof (inv_pages _ _ _ Hinv).
  rewrite used_app in *. simpl in *. rewrite Z.add_0_l in *.
  assert (El : used_pages l = used_pages (used 0 bs1) + used_pages (used (blen bs1 + n) bs2))
    by apply used_pages_app.
  assert (Ell : length l = (length (used 0 bs1) + length (used (blen bs1 + n) bs2))%nat)
    by apply length_app.
  pose proof (inv_tiles _ _ _ Hinv) as Ht.
  apply tiles_app in Ht as (k & r & H1 & (Hn & _ & H2)).
  pose proof (tiles_len _ _ _ _ _ _ H1) as [-> _]. rewrite Z.add_0_l in H2.
  pose proof (used_bounds _ _ _ _ _ _ H1). pose proof (used_bounds _ _ _ _ _ _ H2).
  rewrite used_pages_app in *. rewrite length_app in *. simpl in *.
  unfold kMaxPages, kAlignment, kPageSize in *.
  split_and!; [lia | rewrite wrap_small by width_lia; lia | rewrite wrap_small by width_lia; lia].
Qed.

(** The end of [Free] once the table and the set are updated. *)
Lemma finish_free_done info nxt size fes asize s s1 :
  (if fes <=? GetAllocationAddressForSlot s nxt then
     check (GetAllocationAddressForSlot s nxt =? fes);;
     modify (fun s => with_free_end s (u64 (free_end_ s + size)))
   else link_free info nxt size) s = Done (tt, s1) ->
  asize <= num_bytes_allocated_ s1 ->
  finish_free info nxt size fes asize s = Done (asize, count_free asize s1).
Proof.
  intros H Hle. unfold finish_free. rewrite bind_gets, (bind_done _ _ _ _ _ H), bind_gets.
  by rewrite bind_check by lia.
Qed.

Lemma is_Some_insert (t : gmap Z AllocationInfo) N p a :
  (forall k, 0 <= k < N -> is_Some (t !! k)) ->
  forall k, 0 <= k < N -> is_Some (<[p := a]> t !! k).
Proof.
  intros H k Hk. destruct (decide (k = p)) as [->|]; [by rewrite lookup_insert_eq|].
  rewrite lookup_insert_ne by done. auto.
Qed.

(** Freeing the last block extends the end free region. *)
Lemma Free_last N s bs1 m n z start :
  inv N s (bs1 ++ fblk m ++ [BUsed n z]) -> start = blen bs1 ->
  tiles (allocation_info_ s) 0 0 bs1 start 0 ->
  exists s', Free (begin_ s + (start + m) * kAlignment) s = Done (n * kAlignment, s') /\
    inv N s' bs1 /\ begin_ s' = begin_ s /\ end_ s' = end_ s.
Proof.
  intros Hinv Hst H1.
  destruct (Free_prefix _ _ _ _ _ _ _ _ Hinv Hst H1) as (l & -> & Hl & Hel).
  destruct (inv_block _ _ _ _ _ _ _ _ Hinv Hst H1) as (Hs0 & Hm & Hn & _ & HN & Hlen & _).
  pose proof Hinv as Hinv'. rewrite app_assoc in Hinv'.
  destruct (inv_count_free _ _ _ _ _ _ Hinv') as (Hle & Ho & Hb).
  rewrite used_app, used_fblk, app_nil_r in Ho, Hb. simpl in Ho, Hb, HN, Hlen.
  rewrite app_nil_r in Ho, Hb.
  destruct Hinv as [HP HB [HE HE2] HT _ HF _ _ _ _ _]. rewrite Hlen in HF.
  eexists. split; [eapply finish_free_done|].
  - unfold GetAllocationAddressForSlot. cbn [begin_ with_free_blocks with_info].
    assert (E : begin_ s + (start + m + n) * kAlignment = end_ s - free_end_ s).
    { rewrite HE, HF. unfold kAlignment, kPageSize. lia. }
    rewrite E, Z.leb_refl, bind_check by apply Z.eqb_refl. reflexivity.
  - done.
  - split_and!; [|done|done]. split; simpl; try done.
    + by apply is_Some_insert.
    + lia.
    + rewrite HF, wrap_small; unfold kMaxPages, kAlignment, kPageSize in *; [lia | width_lia].
    + rewrite <- Hst. eapply tiles_frame; [exact H1|]. intros k Hk. rewrite lookup_insert_ne by lia. done.
    + intros k. rewrite Hel. simpl. rewrite elem_of_nil. tauto.
Qed.

(** Freeing a block that is followed by a used block, with or without free
    pages in between. *)
Lemma Free_inner N s bs1 m n z m2 n2 z2 bs3 start :
  inv N s (bs1 ++ fblk m ++ BUsed n z :: fblk m2 ++ BUsed n2 z2 :: bs3) -> start = blen bs1 ->
  tiles (allocation_info_ s) 0 0 bs1 start 0 -> 0 <= m2 < kMaxPages ->
  exists s', Free (begin_ s + (start + m) * kAlignment) s = Done (n * kAlignment, s') /\
    inv N s' (bs1 ++ BFree (m + n + m2) :: BUsed n2 z2 :: bs3) /\
    begin_ s' = begin_ s /\ end_ s' = end_ s.
Proof.
  intros Hinv Hst H1 Hm2.
  destruct (Free_prefix _ _ _ _ _ _ _ _ Hinv Hst H1) as (l & -> & Hl & Hel).
  destruct (inv_block _ _ _ _ _ _ _ _ Hinv Hst H1) as (Hs0 & Hm & Hn & _ & HN & Hlen & Hi & Hf & H3 & _).
  pose proof Hinv as Hinv'. rewrite app_assoc in Hinv'.
  destruct (inv_count_free _ _ _ _ _ _ Hinv') as (Hle & Ho & Hb). clear Hinv'.
  destruct Hinv as [HP HB [HE HE2] HT _ HF _ _ _ _ _]. rewrite Hlen in HF.
  assert (E2 : blen (fblk m2 ++ BUsed n2 z2 :: bs3) = m2 + (n2 + blen bs3))
    by (by rewrite blen_app, blen_fblk).
  rewrite E2 in HN, HF, H3.
  apply tiles_app in H3 as (k & r & H3 & (Hn2 & Hi2 & H4)).
  apply tiles_fblk in H3 as (-> & -> & Hf2). destruct (tiles_len _ _ _ _ _ _ H4) as [_ ?].
  assert (EU : used 0 (bs1 ++ BFree (m + n + m2) :: BUsed n2 z2 :: bs3) =
    used 0 (bs1 ++ fblk m) ++ used (blen (bs1 ++ fblk m) + n) (fblk m2 ++ BUsed n2 z2 :: bs3)).
  { rewrite !used_app, !used_fblk, blen_app, !blen_fblk, app_nil_r. simpl.
    f_equal. f_equal; [do 2 f_equal; lia | f_equal; lia]. }
  rewrite <- EU in Ho, Hb.
  set (slot := start + m) in *. set (nxt := slot + n) in *. set (t := allocation_info_ s) in *.
  set (s1 := with_free_blocks _ l).
  assert (Hr1 : forall x, x ∈ holes 0 0 bs1 -> x < start)
    by (intros x Hx; apply (holes_range _ _ _ _ _ _ _ H1) in Hx; lia).
  assert (Hr4 : forall x, x ∈ holes (nxt + m2 + n2) 0 bs3 -> nxt + m2 < x)
    by (intros x Hx; apply (holes_range _ _ _ _ _ _ _ H4) in Hx; lia).
  assert (Hl1 : forall x, x ∈ l <->
    x ∈ holes 0 0 bs1 \/ (x = nxt + m2 /\ m2 <> 0) \/ x ∈ holes (nxt + m2 + n2) 0 bs3).
  { intros x. rewrite Hel, holes_fblk, elem_of_app.
    destruct (Z.eqb_spec m2 0); rewrite ?elem_of_nil, ?list_elem_of_singleton; tauto. }
  assert (Hc : exists c, allocation_info_ s1 !! start = Some c /\ prev_free_ c = 0).
  { simpl. destruct (decide (m = 0)) as [->|Hm0].
    - unfold slot. rewrite Z.add_0_r, lookup_insert_eq. eauto.
    - rewrite lookup_insert_ne by lia. rewrite (Hf Hm0). eauto. }
  destruct Hc as (c & Hc & Hc0).
  destruct (link_free_done start nxt (n + m) m2 n2 z2 c s1) as (l' & Hlf & Hl' & Hel');
    try done; try lia.
  - simpl. rewrite lookup_insert_ne by lia. exact Hi2.
  - intros Hm20. simpl. rewrite lookup_insert_ne by lia. by apply Hf2.
  - simpl. rewrite Hl1. split; [|tauto]. intros [Hx | [Hx | Hx]]; [apply Hr1 in Hx; lia | tauto |].
    apply Hr4 in Hx; lia.
  - simpl. rewrite Hl1. intros [Hx | [Hx | Hx]]; [apply Hr1 in Hx | | apply Hr4 in Hx]; lia.
  - cbn [allocation_info_ s1 with_free_blocks with_info free_blocks_] in Hl', Hel', Hlf.
    eexists. split; [eapply finish_free_done|].
    + unfold GetAllocationAddressForSlot.
      destruct (Z.leb_spec (end_ s - free_end_ s) (begin_ s1 + nxt * kAlignment)) as [Hbad|_].
      * exfalso. cbn in Hbad. rewrite HE, HF in Hbad. unfold kAlignment, kPageSize in Hbad. lia.
      * exact Hlf.
    + exact Hle.
    + split_and!; [|done|done]. split; simpl; try done.
      * by do 3 apply is_Some_insert.
      * rewrite blen_app; simpl. lia.
      * rewrite HF, blen_app; simpl. unfold kAlignment, kPageSize. lia.
      * rewrite blen_app, <- Hst. simpl. rewrite tiles_app. exists start, 0. split.
        -- eapply tiles_frame; [exact H1|]. intros x Hx. rewrite !lookup_insert_ne by lia. done.
        -- simpl. rewrite lookup_insert_eq, lookup_insert_ne by lia.
           replace (start + (m + n + m2)) with (nxt + m2) by lia. rewrite lookup_insert_eq.
           replace (n + m + m2) with (m + n + m2) by lia. split_and!; try done; try lia.
           replace (start + _) with (nxt + m2 + (n2 + blen bs3)) by lia.
           replace (nxt + m2 + (n2 + blen bs3)) with (nxt + (m2 + (n2 + blen bs3))) by lia.
           eapply tiles_frame; [exact H4|]. intros x Hx. rewrite !lookup_insert_ne by lia. done.
      * intros x. rewrite Hel', Hl1, (holes_app _ _ _ _ _ _ _ H1), elem_of_app. simpl.
        destruct (Z.eqb_spec (m + n + m2) 0); [lia|]. simpl. rewrite elem_of_cons.
        replace (start + (m + n + m2)) with (nxt + m2) by lia. tauto.
Qed.

Lemma Free_done N s bs1 n z bs2 :
  inv N s (bs1 ++ BUsed n z :: bs2) ->
  exists s', Free (begin_ s + blen bs1 * kAlignment) s = Done (n * kAlignment, s') /\
    inv N s' (coalesce bs1 n bs2) /\ begin_ s' = begin_ s /\ end_ s' = end_ s.
Proof.
  intros Hinv. pose proof (inv_tiles _ _ _ Hinv) as Ht.
  apply tiles_app in Ht as (k & r & H1 & (Hn & _ & H2)).
  pose proof (tiles_len _ _ _ _ _ _ H1) as [-> _].
  destruct (tiles_last_free _ _ _ _ _ H1) as (Hr & bs1' & -> & H1').
  destruct (tiles_len _ _ _ _ _ _ H1') as [E _].
  rewrite E in H1'. rewrite Z.add_0_l in *. rewrite <- app_assoc in Hinv.
  rewrite blen_app, blen_fblk.
  destruct (tiles_first _ _ _ _ H2) as [-> | (m2 & n2 & z2 & bs3 & -> & Hm2)].
  - destruct (Free_last _ _ _ _ _ _ _ Hinv eq_refl H1') as (s' & HF & Hinv' & Hb).
    exists s'. split_and!; try tauto. unfold coalesce. by rewrite (split_last_fblk _ _ _ _ _ H1').
  - destruct (Free_inner _ _ _ _ _ _ _ _ _ _ _ Hinv eq_refl H1' Hm2) as (s' & HF & Hinv' & Hb).
    exists s'. split_and!; try tauto. by rewrite (coalesce_fblk _ _ _ _ _ _ _ _ _ _ H1').
Qed.

(** ** Allocation *)
Lemma hole_info t i p bs j q h :
  tiles t i p bs j q -> h ∈ holes i p bs -> 0 <= p ->
  exists m n z, t !! h = Some (mkInfo m (Z.lor n (zygote_flag z))) /\ 0 < n < kMaxPages /\ 0 < m.
Proof.
  revert i p; induction bs as [|[n|n z] bs IH]; intros i p; simpl; [by rewrite elem_of_nil|..].
  - intros (? & -> & _ & H) Hh _. eapply IH; [done | done | lia].
  - intros (? & Hi & H) Hh Hp. apply elem_of_app in Hh as [Hh|Hh]; [|by eapply IH; [done|done|lia]].
    destruct (Z.eqb_spec p 0); [by apply elem_of_nil in Hh|]. apply list_elem_of_singleton in Hh as ->.
    exists p, n, z. split_and!; [done | lia | lia | lia].
Qed.
Lemma free_hole t i p bs j k :
  tiles t i p bs j 0 -> BFree k ∈ bs ->
  exists h n z, h ∈ holes i p bs /\ t !! h = Some (mkInfo k (Z.lor n (zygote_flag z))).
Proof.
  revert i p; induction bs as [|[n|n z] bs IH]; intros i p; simpl; [by rewrite elem_of_nil|..].
  - intros (Hn & -> & _ & H) Hk. apply elem_of_cons in Hk as [[= ->]|Hk]; [|by apply IH].
    destruct bs as [|[n'|n' z'] bs]; simpl in *; [lia | lia |].
    destruct (Z.eqb_spec n 0); [lia|]. destruct H as (_ & Hi & _).
    exists (i + n), n', z'. split; [|done]. apply elem_of_app. left. apply list_elem_of_singleton. done.
  - intros (Hn & _ & H) Hk. apply elem_of_cons in Hk as [[=]|Hk].
    destruct (IH _ _ H Hk) as (h & n' & z' & Hh & Hi). exists h, n', z'.
    split; [|done]. apply elem_of_app. auto.
Qed.

(** Free blocks of at least [a] pages are exactly those from
    [lower_bound(&temp_info)] on, smallest first. *)
Lemma lower_bound_fit N s bs a temp_addr l1 l2 :
  inv N s bs -> 0 <= a < 2 ^ 32 ->
  lower_bound (allocation_info_ s) (SetByteSize 0 false (SetPrevFreeBytes (a * kAlignment) zero_info))
    temp_addr (free_blocks_ s) = (l1, l2) ->
  match l2 with
  | [] => forall k, BFree k ∈ bs -> k < a
  | h :: _ => exists m n z, allocation_info_ s !! h = Some (mkInfo m (Z.lor n (zygote_flag z))) /\
                a <= m /\ forall k, BFree k ∈ bs -> a <= k -> m <= k
  end.
Proof.
  intros Hinv Ha E. pose proof (inv_tiles _ _ _ Hinv) as Ht. pose proof (inv_holes _ _ _ Hinv) as Hh.
  apply lower_bound_spec in E as (El & Hl1 & Hl2). pose proof (inv_sorted _ _ _ Hinv) as Hs.
  set (temp := SetByteSize _ _ _) in *.
  assert (Htp : GetPrevFree temp = a /\ AlignSize temp = 0).
  { unfold temp, GetPrevFree, SetByteSize, SetPrevFreeBytes. cbn [prev_free_].
    rewrite div_pages, wrap_small by done. split; reflexivity. }
  destruct Htp as [Htp Hta].
  assert (Hinfo : forall h, h ∈ l1 ++ l2 -> exists m n z,
    allocation_info_ s !! h = Some (mkInfo m (Z.lor n (zygote_flag z))) /\
    info_at (allocation_info_ s) h = mkInfo m (Z.lor n (zygote_flag z)) /\
    GetPrevFree (info_at (allocation_info_ s) h) = m /\ 0 < AlignSize (info_at (allocation_info_ s) h)).
  { intros h Hin. rewrite <- El, Hh in Hin.
    destruct (hole_info _ _ _ _ _ _ _ Ht Hin) as (m & n & z & Hi & Hn & _); [lia|].
    exists m, n, z. rewrite (info_at_lookup _ _ _ Hi), AlignSize_used by lia. auto with lia. }
  assert (Hfree : forall k, BFree k ∈ bs -> exists h, h ∈ l1 ++ l2 /\
    GetPrevFree (info_at (allocation_info_ s) h) = k).
  { intros k Hk. destruct (free_hole _ _ _ _ _ _ Ht Hk) as (h & n & z & Hin & Hi).
    rewrite <- Hh, El in Hin. exists h. by rewrite (info_at_lookup _ _ _ Hi). }
  assert (Hsmall : forall h, h ∈ l1 -> GetPrevFree (info_at (allocation_info_ s) h) < a).
  { intros h Hin. rewrite Forall_forall in Hl1. specialize (Hl1 h Hin). unfold elem_lt in Hl1.
    destruct (Hinfo h) as (m & n & z & _ & _ & _ & Hn); [apply elem_of_app; auto|].
    apply SortByPrevFree_spec in Hl1. lia. }
  destruct l2 as [|h l3].
  - intros k Hk. destruct (Hfree k Hk) as (h & Hin & <-). rewrite app_nil_r in Hin. auto.
  - destruct (Hinfo h) as (m & n & z & Hi & _ & Hm & _); [apply elem_of_app; right; by constructor|].
    exists m, n, z. split; [done|].
    assert (Hnl : ~ (SortByPrevFree (info_at (allocation_info_ s) h) h temp temp_addr = true))
      by (unfold elem_lt in Hl2; congruence).
    rewrite SortByPrevFree_spec in Hnl. split; [lia|].
    intros k Hk Hak. destruct (Hfree k Hk) as (h' & Hin & <-).
    apply elem_of_app in Hin as [Hin|Hin]; [apply Hsmall in Hin; lia|].
    apply elem_of_cons in Hin as [->|Hin]; [lia|].
    rewrite El in Hs. apply StronglySorted_app in Hs as (_ & _ & Hs).
    apply StronglySorted_inv in Hs as [_ Hs]. rewrite Forall_forall in Hs.
    specialize (Hs h' Hin). apply SortByPrevFree_spec in Hs. lia.
Qed.

Lemma place_block_done p c a s :
  allocation_info_ s !! p = Some c -> 0 <= a < kMaxPages ->
  place_block p (a * kAlignment) s =
  Done (Some (begin_ s + p * kAlignment, a * kAlignment),
        with_info (count_alloc (a * kAlignment) s)
          (<[p := mkInfo 0 (Z.lor a 0)]> (allocation_info_ s))).
Proof.
  intros Hc Ha. unfold place_block. rewrite bind_modify, bind_gets.
  erewrite bind_done; [|apply (set_prev_free_bytes_done p c 0); [exact Hc | unfold kMaxPages; lia]].
  erewrite bind_done; [|apply set_byte_size_done; [simpl; apply lookup_insert_eq | done]].
  unfold with_info; simpl. rewrite insert_insert_eq. done.
Qed.

(** Accounting when a block of [a] pages is allocated. *)
Lemma inv_count_alloc N s bs a :
  inv N s bs -> 0 <= a <= N ->
  u64 (num_objects_allocated_ s + 1) = Z.of_nat (length (used 0 bs)) + 1 /\
  u64 (num_bytes_allocated_ s + a * kAlignment) = (used_pages (used 0 bs) + a) * kAlignment.
Proof.
  intros Hinv Ha. rewrite (inv_objects _ _ _ Hinv), (inv_bytes _ _ _ Hinv).
  pose proof (used_bounds _ _ _ _ _ _ (inv_tiles _ _ _ Hinv)).
  pose proof (inv_len _ _ _ Hinv). pose proof (inv_pages _ _ _ Hinv).
  unfold kMaxPages, kAlignment, kPageSize in *.
  split; rewrite wrap_small by width_lia; lia.
Qed.

(** The block is cut off a free block of [m] pages. *)
Lemma take_hole s temp a m n z start info l1 rest :
  let t := allocation_info_ s in
  let t1 := <[info := mkInfo (m - a) (Z.lor n (zygote_flag z))]> t in
  let t' := if m =? a then t1 else <[start + a := mkInfo 0 (Z.lor (m - a) kFlagFree)]> t1 in
  0 < a <= m -> m < kMaxPages -> info = start + m ->
  t !! info = Some (mkInfo m (Z.lor n (zygote_flag z))) ->
  (a < m -> is_Some (t !! (start + a))) ->
  lower_bound t (SetByteSize 0 false (SetPrevFreeBytes (a * kAlignment) zero_info)) temp
    (free_blocks_ s) = (l1, info :: rest) ->
  StronglySorted (klt t) (free_blocks_ s) -> start + a ∉ l1 ++ rest ->
  exists l, take_block temp (a * kAlignment) s =
      Done (Some start, with_info (with_free_blocks s l) t') /\
    StronglySorted (klt t') l /\
    forall x, x ∈ l <-> (x ∈ free_blocks_ s /\ x <> info) \/ (x = info /\ m <> a).
Proof.
  intros t t1 t' Ha Hm Hi Hti Hsa Hlb Hs Hni. unfold take_block.
  rewrite bind_check by apply IsAligned_pages. rewrite bind_gets. fold t. rewrite Hlb.
  cbn [snd fst]. rewrite bind_modify.
  apply lower_bound_spec in Hlb as (El & _ & _). rewrite El in Hs.
  destruct (sorted_remove _ _ _ _ Hs) as [Hs' Hni'].
  rewrite (bind_get_info _ (mkInfo m (Z.lor n (zygote_flag z)))) by done.
  rewrite bind_check by (unfold GetPrevFree; cbn [prev_free_]; lia).
  unfold GetPrevFreeInfo, GetPrevFreeBytes, GetPrevFree. cbn [prev_free_].
  assert (E : u64 (m * kAlignment - a * kAlignment) = (m - a) * kAlignment).
  { rewrite wrap_small; [lia|]. unfold kMaxPages, kAlignment, kPageSize in *. width_lia. }
  rewrite E. erewrite bind_done; [|apply set_prev_free_bytes_done; [exact Hti | lia]].
  rewrite (bind_get_info _ (mkInfo (m - a) (Z.lor n (zygote_flag z))))
    by (simpl; apply lookup_insert_eq).
  cbn [prev_free_ alloc_size_]. replace (info - m) with start by lia.
  replace (info - (m - a)) with (start + a) by lia.
  assert (Hs1 : StronglySorted (klt t1) (l1 ++ rest)) by (by apply sorted_insert_other).
  assert (Hel : forall x, x ∈ l1 ++ rest <-> x ∈ free_blocks_ s /\ x <> info).
  { intros x. rewrite El. rewrite !elem_of_app, elem_of_cons in *. split; [|tauto].
    intros Hx. split; [tauto|]. intros ->. tauto. }
  unfold t'. destruct (Z.eqb_spec m a) as [Hma|Hma].
  - assert (Hz : 0 <? (m - a) * kAlignment = false) by (unfold kAlignment, kPageSize; lia).
    rewrite Hz. exists (l1 ++ rest). split_and!; [done | done |]. intros x. rewrite Hel. tauto.
  - destruct (Hsa ltac:(lia)) as [c Hc].
    assert (Hpos : 0 <? (m - a) * kAlignment = true) by (unfold kAlignment, kPageSize; lia).
    rewrite Hpos, !bind_assoc.
    erewrite bind_done; [|apply (set_prev_free_bytes_done _ c 0);
      [simpl; rewrite lookup_insert_ne by lia; exact Hc | unfold kMaxPages; lia]].
    rewrite !bind_assoc.
    erewrite bind_done; [|apply set_byte_size_done; [simpl; apply lookup_insert_eq | lia]].
    unfold insert_free_block. rewrite bind_modify. simpl. rewrite insert_insert_eq. fold t1.
    set (t2 := <[start + a := _]> t1).
    destruct (set_insert_spec t2 info (l1 ++ rest)) as [Hs2 Hm2]; [by apply sorted_insert_other | done |].
    exists (set_insert t2 info (l1 ++ rest)).
    split_and!; [done | done |]. intros x. rewrite Hm2, Hel. destruct (decide (x = info)); tauto.
Qed.

Lemma fblk_pos m : 0 < m -> fblk m = [BFree m].
Proof. intros. unfold fblk. destruct (Z.eqb_spec m 0); [lia | done]. Qed.
Lemma used_carve bs1 a m bs2 :
  let l := used 0 (bs1 ++ BFree m :: bs2) in
  let l' := used 0 (carve bs1 a m bs2) in
  length l' = S (length l) /\ used_pages l' = used_pages l + a /\
  exists u1 u2, l = u1 ++ u2 /\ l' = u1 ++ (blen bs1, a, false) :: u2.
Proof.
  intros l l'. unfold l, l', carve. rewrite !used_app. simpl.
  rewrite used_app, used_fblk, blen_fblk. simpl. rewrite Z.add_0_l.
  replace (blen bs1 + a + (m - a)) with (blen bs1 + m) by lia. split_and!.
  - rewrite !length_app. simpl. lia.
  - rewrite !used_pages_app. unfold used_pages; simpl. lia.
  - eexists _, _. split; [reflexivity|]. done.
Qed.

Lemma tiles_carve t t' bs1 start a m n z bs2 j :
  tiles t 0 0 bs1 start 0 -> tiles t (start + m + n) 0 bs2 j 0 ->
  0 < a <= m -> m < kMaxPages -> 0 < n < kMaxPages ->
  t' !! start = Some (mkInfo 0 (Z.lor a 0)) ->
  (m <> a -> t' !! (start + a) = Some (mkInfo 0 (Z.lor (m - a) kFlagFree))) ->
  t' !! (start + m) = Some (mkInfo (m - a) (Z.lor n (zygote_flag z))) ->
  (forall x, x < start \/ start + m < x -> t' !! x = t !! x) ->
  tiles t' 0 0 (carve bs1 a m (BUsed n z :: bs2)) j 0.
Proof.
  intros H1 H2 Ha Hm Hn Hs Hsa Hi Hf. unfold carve. rewrite tiles_app. exists start, 0. split.
  { eapply tiles_frame; [exact H1|]. intros x Hx. apply Hf. lia. }
  simpl. split_and!; [lia | lia | done |]. rewrite tiles_app. exists (start + m), (m - a). split.
  { apply tiles_fblk. split_and!; [lia | done |]. intros. split; [lia | apply Hsa; lia]. }
  simpl. split_and!; [lia | lia | done |].
  eapply tiles_frame; [exact H2|]. intros x Hx. apply Hf. lia.
Qed.
Lemma blen_carve bs1 a m bs2 : blen (carve bs1 a m bs2) = blen bs1 + m + blen bs2.
Proof. unfold carve. rewrite blen_app. simpl. rewrite blen_app, blen_fblk. lia. Qed.
Lemma holes_carve t bs1 start a m n z bs2 x :
  tiles t 0 0 bs1 start 0 -> 
  x ∈ holes 0 0 (carve bs1 a m (BUsed n z :: bs2)) <->
  x ∈ holes 0 0 bs1 \/ (x = start + m /\ m <> a) \/ x ∈ holes (start + m + n) 0 bs2.
Proof.
  intros H1. unfold carve. rewrite (holes_app _ _ _ _ _ _ _ H1), elem_of_app. simpl.
  rewrite holes_fblk, elem_of_app. replace (start + a + (m - a)) with (start + m) by lia.
  destruct (Z.eqb_spec (m - a) 0); rewrite ?elem_of_nil, ?list_elem_of_singleton; intuition lia.
Qed.

Lemma Alloc_hole N s bs1 m n z bs2 temp a l1 rest :
  inv N s (bs1 ++ BFree m :: BUsed n z :: bs2) -> 0 < a <= m ->
  lower_bound (allocation_info_ s) (SetByteSize 0 false (SetPrevFreeBytes (a * kAlignment) zero_info))
    temp (free_blocks_ s) = (l1, blen bs1 + m :: rest) ->
  exists s1 s', take_block temp (a * kAlignment) s = Done (Some (blen bs1), s1) /\
    place_block (blen bs1) (a * kAlignment) s1 =
      Done (Some (begin_ s + blen bs1 * kAlignment, a * kAlignment), s') /\
    inv N s' (carve bs1 a m (BUsed n z :: bs2)) /\ begin_ s' = begin_ s /\ end_ s' = end_ s.
Proof.
  intros Hinv Ha Hlb. pose proof (inv_tiles _ _ _ Hinv) as Ht.
  apply tiles_app in Ht as (start & r & H1 & (Hm & -> & Hst & _)).
  destruct (tiles_len _ _ _ _ _ _ H1) as [E _]. rewrite Z.add_0_l in E. rewrite <- E in *.
  pose proof Hinv as Hinv'. change (BFree m :: ?l) with ([BFree m] ++ l) in Hinv'.
  rewrite <- (fblk_pos m) in Hinv' by lia.
  destruct (inv_block _ _ _ _ _ _ _ _ Hinv' E H1)
    as (Hs0 & _ & Hn & Hb2 & HN & Hlen & Hi & _ & H3 & Hh).
  pose proof (inv_count_alloc _ _ _ a Hinv ltac:(lia)) as [Ho Hb].
  destruct (used_carve bs1 a m (BUsed n z :: bs2)) as (HU1 & HU2 & _).
  pose proof Hinv as [HP HB HE HT _ HF _ HS _ _ _].
  assert (Hr1 : forall x, x ∈ holes 0 0 bs1 -> x < start)
    by (intros x Hx; apply (holes_range _ _ _ _ _ _ _ H1) in Hx; lia).
  assert (Hr3 : forall x, x ∈ holes (start + m + n) 0 bs2 -> start + m < x)
    by (intros x Hx; apply (holes_range _ _ _ _ _ _ _ H3) in Hx; lia).
  assert (Hni : start + a ∉ l1 ++ rest).
  { pose proof Hlb as Hlb'. apply lower_bound_spec in Hlb' as (El & _). rewrite El in HS, Hh.
    destruct (sorted_remove _ _ _ _ HS) as [_ Hni]. destruct (decide (a = m)) as [->|Ham]; [done|].
    intros Hin. specialize (Hh (start + a)). rewrite elem_of_app, elem_of_cons in Hh.
    rewrite elem_of_app in Hin. destruct (proj1 Hh) as [Hx | [Hx | Hx]];
      [tauto | apply Hr1 in Hx | | apply Hr3 in Hx]; lia. }
  destruct (take_hole s temp a m n z start (start + m) l1 rest) as (l & Htk & Hl & Hel);
    try done; try lia.
  { intros. apply HT. lia. }
  set (t' := if m =? a then _ else _) in Htk, Hl.
  assert (Ht' : forall x, x <> start + m -> x <> start + a -> t' !! x = allocation_info_ s !! x)
    by (intros x Hx1 Hx2; unfold t'; destruct (m =? a); rewrite ?lookup_insert_ne by lia; done).
  assert (Hts : t' !! start = Some (mkInfo 0 (Z.lor m kFlagFree))) by (by rewrite Ht' by lia).
  eexists _, _. split; [exact Htk|]. split; [etrans; [eapply place_block_done; [exact Hts | lia] | reflexivity]|].
  split_and!; [|done|done]. split; simpl; try done.
  - unfold t'. destruct (m =? a); by repeat apply is_Some_insert.
  - rewrite blen_carve. simpl. lia.
  - rewrite HF, blen_carve, blen_app. simpl. f_equal. lia.
  - eapply tiles_carve; [exact H1 | | lia | lia | lia | apply lookup_insert_eq | | |].
    + rewrite blen_carve, <- E. simpl. rewrite !Z.add_assoc. exact H3.
    + intros Hma. rewrite lookup_insert_ne by lia. unfold t'.
      destruct (Z.eqb_spec m a); [lia|]. apply lookup_insert_eq.
    + rewrite lookup_insert_ne by lia. unfold t'. destruct (Z.eqb_spec m a).
      * apply lookup_insert_eq.
      * rewrite lookup_insert_ne by lia. apply lookup_insert_eq.
    + intros x Hx. rewrite lookup_insert_ne by lia. apply Ht'; lia.
  - apply sorted_insert_other; [done|]. rewrite Hel, Hh. intros [[Hx _] | Hx]; [|lia].
    destruct Hx as [Hx | [Hx | Hx]]; [apply Hr1 in Hx | | apply Hr3 in Hx]; lia.
  - intros x. rewrite (holes_carve _ _ _ _ _ _ _ _ _ H1), Hel, Hh.
    specialize (Hr1 x). specialize (Hr3 x). destruct (decide (x = start + m)); [|tauto].
    intuition lia.
  - rewrite Ho, HU1. lia.
  - by rewrite Hb, HU2.
Qed.

(** No free block fits: the block is taken from the end free region. *)
Lemma Alloc_end N s bs temp a l1 :
  inv N s bs -> 0 < a -> a <= N - blen bs ->
  lower_bound (allocation_info_ s) (SetByteSize 0 false (SetPrevFreeBytes (a * kAlignment) zero_info))
    temp (free_blocks_ s) = (l1, []) ->
  exists s1 s', take_block temp (a * kAlignment) s = Done (Some (blen bs), s1) /\
    place_block (blen bs) (a * kAlignment) s1 =
      Done (Some (begin_ s + blen bs * kAlignment, a * kAlignment), s') /\
    inv N s' (bs ++ [BUsed a false]) /\ begin_ s' = begin_ s /\ end_ s' = end_ s.
Proof.
  intros Hinv Ha Hfit Hlb. pose proof (inv_tiles _ _ _ Hinv) as Ht.
  destruct (tiles_len _ _ _ _ _ _ Ht) as [_ Hb0].
  pose proof (inv_count_alloc _ _ _ a Hinv ltac:(lia)) as [Ho Hb].
  destruct Hinv as [HP HB [HE HE2] HT HL HF _ HS HH _ _].
  assert (Hni : blen bs ∉ free_blocks_ s).
  { rewrite HH. intros Hx. apply (holes_range _ _ _ _ _ _ _ Ht) in Hx. lia. }
  destruct (HT (blen bs)) as [c Hc]; [lia|].
  exists (with_free_end s (free_end_ s - a * kAlignment)). eexists.
  split; [|split; [etrans; [eapply place_block_done; [|lia] | reflexivity]|]].
  - unfold take_block. rewrite bind_check by apply IsAligned_pages. rewrite bind_gets, Hlb.
    cbn [snd]. rewrite bind_gets.
    assert (E : a * kAlignment <=? free_end_ s = true)
      by (rewrite HF; unfold kAlignment, kPageSize; lia).
    rewrite E, bind_gets, bind_modify.
    replace (end_ s - free_end_ s) with (begin_ s + blen bs * kAlignment)
      by (rewrite HE, HF; unfold kAlignment, kPageSize; lia).
    rewrite slot_of_address. reflexivity.
  - exact Hc.
  - split_and!; [|done|done]. split; simpl; try done; rewrite ?blen_app; simpl; try lia.
    + by apply is_Some_insert.
    + rewrite tiles_app. exists (blen bs), 0. split.
      * eapply tiles_frame; [exact Ht|]. intros x Hx. by rewrite lookup_insert_ne by lia.
      * simpl. rewrite lookup_insert_eq, Z.add_0_r. split_and!; [lia | lia | done | done | done].
    + by apply sorted_insert_other.
    + intros x. rewrite HH, (holes_app _ _ _ _ _ _ _ Ht). simpl. by rewrite app_nil_r.
    + rewrite Ho, used_app, length_app. simpl. lia.
    + rewrite Hb, used_app, used_pages_app. unfold used_pages at 3; simpl. by rewrite Z.add_0_r.
Qed.

Lemma Alloc_full N s bs temp a l1 :
  inv N s bs -> N - blen bs < a ->
  lower_bound (allocation_info_ s) (SetByteSize 0 false (SetPrevFreeBytes (a * kAlignment) zero_info))
    temp (free_blocks_ s) = (l1, []) ->
  take_block temp (a * kAlignment) s = Done (None, s).
Proof.
  intros Hinv Hfit Hlb. unfold take_block. rewrite bind_check by apply IsAligned_pages.
  rewrite bind_gets, Hlb. cbn [snd]. rewrite bind_gets.
  assert (E : a * kAlignment <=? free_end_ s = false)
    by (rewrite (inv_free_end _ _ _ Hinv); unfold kAlignment, kPageSize; lia).
  by rewrite E.
Qed.

(** How [Alloc] changes the blocks: best fit, else the end free region. *)
Inductive alloc_effect (N a : Z) (bs : list block) : Z -> list block -> Prop :=
| fit_hole bs1 m bs2 :
    bs = bs1 ++ BFree m :: bs2 -> a <= m ->
    (forall k, BFree k ∈ bs -> a <= k -> m <= k) ->
    alloc_effect N a bs (blen bs1) (carve bs1 a m bs2)
| fit_end :
    (forall k, BFree k ∈ bs -> k < a) -> a <= N - blen bs ->
    alloc_effect N a bs (blen bs) (bs ++ [BUsed a false]).
Definition no_room (N a : Z) (bs : list block) : Prop :=
  (forall k, BFree k ∈ bs -> k < a) /\ N - blen bs < a.
(** Pages of an allocation of [num_bytes]. *)
Definition pages (num_bytes : Z) : Z := (num_bytes + 4095) / 4096.

Lemma Alloc_done N s bs temp num_bytes :
  inv N s bs -> 0 < num_bytes <= 2 ^ 43 ->
  let a := pages num_bytes in
  exists r s', Alloc temp num_bytes s = Done (r, s') /\
    match r with
    | None => s' = s /\ no_room N a bs
    | Some (obj, size) => exists slot bs', obj = begin_ s + slot * kAlignment /\
        size = a * kAlignment /\ alloc_effect N a bs slot bs' /\
        inv N s' bs' /\ begin_ s' = begin_ s /\ end_ s' = end_ s
    end.
Proof.
  intros Hinv Hn a. assert (Ha : 0 < a < 2 ^ 32) by (unfold a, pages; div_lia).
  unfold Alloc. rewrite RoundUp_page by lia. change ((num_bytes + 4095) / 4096 * 4096) with (a * kAlignment).
  destruct (lower_bound (allocation_info_ s)
    (SetByteSize 0 false (SetPrevFreeBytes (a * kAlignment) zero_info)) temp (free_blocks_ s))
    as [l1 [|h rest]] eqn:E;
    pose proof (lower_bound_fit N s bs a temp _ _ Hinv ltac:(lia) E) as Hfit; simpl in Hfit.
  - destruct (decide (a <= N - blen bs)) as [Hle|Hle].
    + destruct (Alloc_end _ _ _ _ _ _ Hinv (proj1 Ha) Hle E) as (s1 & s' & Ht & Hp & Hi & Hb & He).
      eexists _, s'. rewrite (bind_done _ _ _ _ _ Ht). split; [exact Hp|].
      eexists _, _. split_and!; try done. by apply fit_end.
    + eexists None, s. rewrite (bind_done _ _ _ _ _ (Alloc_full N s bs temp a l1 Hinv ltac:(lia) E)).
      split; [done|]. split; [done|]. split; [exact Hfit | lia].
  - destruct Hfit as (m & n & z & Hi & Ham & Hbest).
    assert (Hin : h ∈ holes 0 0 bs).
    { apply (inv_holes _ _ _ Hinv). apply lower_bound_spec in E as (-> & _).
      apply elem_of_app. right. constructor. }
    destruct (holes_split _ _ _ _ _ (inv_tiles _ _ _ Hinv) Hin) as (bs1 & m' & n' & z' & bs2 & -> & ->).
    pose proof (inv_tiles _ _ _ Hinv) as Ht. apply tiles_app in Ht as (k & r & H1 & (Hm & -> & _ & H2)).
    destruct (tiles_len _ _ _ _ _ _ H1) as [-> _]. simpl in H2. destruct H2 as (_ & Hi' & _).
    rewrite Z.add_0_l in Hi'. rewrite Hi' in Hi. injection Hi as -> _.
    destruct (Alloc_hole _ _ _ _ _ _ _ _ _ _ _ Hinv (conj (proj1 Ha) Ham) E)
      as (s1 & s' & Htk & Hp & Hi2 & Hb & He).
    eexists _, s'. rewrite (bind_done _ _ _ _ _ Htk). split; [exact Hp|].
    eexists _, _. split_and!; try done. by apply fit_hole.
Qed.

(** ** Live blocks *)
Lemma used_split i bs slot n z :
  (slot, n, z) ∈ used i bs -> exists bs1 bs2, bs = bs1 ++ BUsed n z :: bs2 /\ slot = i + blen bs1.
Proof.
  revert i; induction bs as [|[m|m z'] bs IH]; intros i; simpl; [by rewrite elem_of_nil|..].
  - intros H. destruct (IH _ H) as (bs1 & bs2 & -> & ->). exists (BFree m :: bs1), bs2. simpl. split; [done|lia].
  - rewrite elem_of_cons. intros [[= -> -> ->]|H].
    + exists [], bs. simpl. split; [done | lia].
    + destruct (IH _ H) as (bs1 & bs2 & -> & ->). exists (BUsed m z' :: bs1), bs2. simpl. split; [done|lia].
Qed.
Lemma used_range t i p bs j q slot n z :
  tiles t i p bs j q -> (slot, n, z) ∈ used i bs -> i <= slot /\ 0 < n /\ slot + n <= j.
Proof.
  intros Ht Hu. destruct (used_split _ _ _ _ _ Hu) as (bs1 & bs2 & -> & ->).
  apply tiles_app in Ht as (k & r & H1 & (Hn & _ & H2)).
  pose proof (tiles_len _ _ _ _ _ _ H1). pose proof (tiles_len _ _ _ _ _ _ H2). lia.
Qed.
Lemma used_sorted t i p bs j q :
  tiles t i p bs j q ->
  StronglySorted (fun u v : Z * Z * bool => u.1.1 + u.1.2 <= v.1.1 /\ u.1.1 < v.1.1) (used i bs).
Proof.
  revert i p; induction bs as [|[n|n z] bs IH]; intros i p; simpl; [by constructor|..].
  - intros (_ & _ & _ & H). eauto.
  - intros (Hn & _ & H). constructor; [by eapply IH|]. rewrite Forall_forall.
    intros [[s' n'] z'] Hu. destruct (used_range _ _ _ _ _ _ _ _ _ H Hu). simpl. lia.
Qed.
Lemma used_disjoint t i p bs j q u v :
  tiles t i p bs j q -> u ∈ used i bs -> v ∈ used i bs -> u.1.1 <> v.1.1 ->
  u.1.1 + u.1.2 <= v.1.1 \/ v.1.1 + v.1.2 <= u.1.1.
Proof.
  intros Ht. apply used_sorted in Ht. induction Ht as [|w l _ IH Hw]; [by rewrite elem_of_nil|].
  rewrite Forall_forall in Hw. rewrite !elem_of_cons.
  intros [->|Hu] [->|Hv] Hne; [done | left; by apply Hw | right; by apply Hw | by apply IH].
Qed.

Definition block_addr (s : FreeListSpace) (u : Z * Z * bool) : Z * Z :=
  (begin_ s + u.1.1 * kAlignment, u.1.2 * kAlignment).
Definition live_blocks (s : FreeListSpace) (bs : list block) : gmap Z Z :=
  list_to_map (block_addr s <$> used 0 bs).

Lemma live_nodup s t i p bs j q : tiles t i p bs j q -> NoDup (block_addr s <$> used i bs).*1.
Proof.
  intros Ht. apply used_sorted in Ht. induction Ht as [|w l _ IH Hw]; [by constructor|].
  simpl. constructor; [|done]. rewrite <- list_fmap_compose, list_elem_of_fmap.
  intros (v & Hv & Hin). rewrite Forall_forall in Hw. specialize (Hw v Hin). simpl in Hv.
  unfold kAlignment, kPageSize in Hv. lia.
Qed.
Lemma live_lookup N s bs p k :
  inv N s bs -> live_blocks s bs !! p = Some k <->
  exists slot n z, (slot, n, z) ∈ used 0 bs /\ p = begin_ s + slot * kAlignment /\ k = n * kAlignment.
Proof.
  intros Hinv. unfold live_blocks.
  rewrite <- elem_of_list_to_map by (eapply live_nodup, (inv_tiles _ _ _ Hinv)).
  rewrite list_elem_of_fmap. split.
  - intros ([[slot n] z] & [= -> ->] & Hu). eauto 10.
  - intros (slot & n & z & Hu & -> & ->). by exists (slot, n, z).
Qed.

Lemma live_insert s bs bs' u1 u2 slot n z :
  used 0 bs = u1 ++ u2 -> used 0 bs' = u1 ++ (slot, n, z) :: u2 ->
  NoDup (block_addr s <$> used 0 bs').*1 ->
  live_blocks s bs' = <[begin_ s + slot * kAlignment := n * kAlignment]> (live_blocks s bs) /\
  live_blocks s bs !! (begin_ s + slot * kAlignment) = None.
Proof.
  intros E E' Hnd. unfold live_blocks. rewrite E, E'. rewrite E', !fmap_app in Hnd.
  rewrite !fmap_app. simpl in *. split.
  - rewrite !list_to_map_app. simpl.
    rewrite insert_union_r; [done|]. apply not_elem_of_list_to_map.
    apply NoDup_app in Hnd as (_ & Hd & _). intros Hin. apply (Hd _ Hin). constructor.
  - apply not_elem_of_list_to_map. rewrite fmap_app. intros Hin.
    apply (NoDup_ListNoDup) in Hnd. apply NoDup_remove_2 in Hnd. apply Hnd.
    by apply list_elem_of_In.
Qed.

Lemma alloc_effect_used N a bs slot bs' :
  alloc_effect N a bs slot bs' ->
  exists u1 u2, used 0 bs = u1 ++ u2 /\ used 0 bs' = u1 ++ (slot, a, false) :: u2.
Proof.
  destruct 1 as [bs1 m bs2 -> Hm Hb | Hb Hl].
  - by destruct (used_carve bs1 a m bs2) as (_ & _ & ?).
  - exists (used 0 bs), []. by rewrite used_app, app_nil_r.
Qed.

Lemma Alloc_live N s bs temp n :
  inv N s bs -> 0 < n <= 2 ^ 43 ->
  exists r s', Alloc temp n s = Done (r, s') /\
    match r with
    | None => s' = s
    | Some (p, k) => n <= k /\ live_blocks s bs !! p = None /\
        exists bs', inv N s' bs' /\ live_blocks s' bs' = <[p := k]> (live_blocks s bs)
    end.
Proof.
  intros Hinv Hn. destruct (Alloc_done N s bs temp n Hinv Hn) as (r & s' & HA & Hr).
  exists r, s'. split; [done|]. destruct r as [[p k]|]; [|by destruct Hr].
  destruct Hr as (slot & bs' & -> & -> & He & Hinv' & Hb & _).
  destruct (alloc_effect_used _ _ _ _ _ He) as (u1 & u2 & E & E').
  destruct (live_insert s' bs bs' u1 u2 slot (pages n) false E E') as [Hi Hno].
  { eapply live_nodup, (inv_tiles _ _ _ Hinv'). }
  assert (Hl : live_blocks s' bs = live_blocks s bs)
    by (unfold live_blocks, block_addr; by rewrite Hb).
  rewrite Hb, Hl in Hi, Hno. split_and!; [|done | by exists bs'].
  unfold pages, kAlignment, kPageSize. div_lia.
Qed.

Lemma Free_live N s bs p k :
  inv N s bs -> live_blocks s bs !! p = Some k ->
  exists s' bs', Free p s = Done (k, s') /\ inv N s' bs' /\
    live_blocks s' bs' = delete p (live_blocks s bs) /\ begin_ s' = begin_ s.
Proof.
  intros Hinv Hp. apply (live_lookup _ _ _ _ _ Hinv) in Hp as (slot & n & z & Hu & -> & ->).
  destruct (used_split _ _ _ _ _ Hu) as (bs1 & bs2 & -> & ->).
  destruct (Free_done _ _ _ _ _ _ Hinv) as (s' & HF & Hinv' & Hb & _).
  exists s', (coalesce bs1 n bs2). rewrite Z.add_0_l. split_and!; [done | done | | done].
  pose proof (inv_tiles _ _ _ Hinv) as Ht.
  assert (E : used 0 (coalesce bs1 n bs2) = used 0 bs1 ++ used (blen bs1 + n) bs2).
  { apply tiles_app in Ht as (k & r & H1 & (_ & _ & H2)).
    destruct (tiles_len _ _ _ _ _ _ H1) as [-> _]. by eapply used_coalesce. }
  assert (E' : used 0 (bs1 ++ BUsed n z :: bs2) =
    used 0 bs1 ++ (blen bs1, n, z) :: used (blen bs1 + n) bs2) by (by rewrite used_app).
  destruct (live_insert s _ _ _ _ _ _ _ E E') as [Hi Hno]; [by eapply live_nodup|].
  rewrite Hi, delete_insert_id by done. unfold live_blocks, block_addr. by rewrite Hb.
Qed.

#[export] Program Instance FreeListSpace_allocator (temp_addr : Z) : Allocator FreeListSpace := {|
  allocate := Alloc temp_addr;
  release := Free;
  contains := Contains;
  max_request := 2 ^ 43;
  live s A := exists N bs, inv N s bs /\ A = live_blocks s bs
|}.
Next Obligation.
  intros _ s A p n q m (N & bs & Hinv & ->) Hp Hq Hne.
  apply (live_lookup _ _ _ _ _ Hinv) in Hp as (i & ni & zi & Hi & -> & ->).
  apply (live_lookup _ _ _ _ _ Hinv) in Hq as (j & nj & zj & Hj & -> & ->).
  assert (i <> j) by (intros ->; lia).
  destruct (used_disjoint _ _ _ _ _ _ _ _ (inv_tiles _ _ _ Hinv) Hi Hj) as [H'|H']; simpl in *; [done|..];
    unfold ranges_disjoint, kAlignment, kPageSize; lia.
Qed.
Next Obligation.
  intros _ s A p n (N & bs & Hinv & ->) Hp.
  apply (live_lookup _ _ _ _ _ Hinv) in Hp as (i & ni & zi & Hi & -> & ->).
  destruct (used_range _ _ _ _ _ _ _ _ _ (inv_tiles _ _ _ Hinv) Hi) as (? & ? & ?).
  pose proof (inv_len _ _ _ Hinv). destruct (inv_end _ _ _ Hinv) as [HE _].
  unfold Contains. rewrite andb_true_iff. unfold kAlignment, kPageSize in *. lia.
Qed.
Next Obligation.
  intros temp s A n (N & bs & Hinv & ->) Hn.
  destruct (Alloc_live N s bs temp n Hinv Hn) as (r & s' & HA & Hr). exists r, s'.
  split; [done|]. destruct r as [[p k]|]; [|subst s'; by exists N, bs].
  destruct Hr as (Hk & Hno & bs' & Hinv' & Hl). split_and!; [done | done |]. by exists N, bs'.
Qed.
Next Obligation.
  intros _ s A p n (N & bs & Hinv & ->) Hp.
  destruct (Free_live _ _ _ _ _ Hinv Hp) as (s' & bs' & HF & Hinv' & Hl & _). exists s'.
  split; [done|]. by exists N, bs'.
Qed.

(** ** Traversals *)
Lemma tiles_length t i p bs j q : tiles t i p bs j q -> Z.of_nat (length bs) <= blen bs.
Proof.
  revert i p; induction bs as [|[n|n z] bs IH]; intros i p; simpl; [lia|..].
  - intros (? & _ & _ & H). apply IH in H. lia.
  - intros (? & _ & H). apply IH in H. lia.
Qed.
Lemma Walk_from_done s fuel i p bs j q :
  tiles (allocation_info_ s) i p bs j q -> (length bs < fuel)%nat ->
  Walk_from fuel i j s =
  Done ((fun u => ((block_addr s u).1, (block_addr s u).1 + (block_addr s u).2)) <$> used i bs, s).
Proof.
  revert i p fuel; induction bs as [|[n|n z] bs IH]; intros i p [|fuel] Ht Hf;
    simpl in Hf; try lia; cbn [Walk_from]; cbn [tiles] in Ht.
  - destruct Ht as [-> _]. by rewrite Z.ltb_irrefl, bind_check by apply Z.eqb_refl.
  - destruct Ht as (Hn & _ & Hi & Ht). pose proof (tiles_len _ _ _ _ _ _ Ht).
    assert (E : i <? j = true) by lia. rewrite E, (bind_get_info _ _ _ _ Hi), bind_gets.
    unfold GetNextInfo. rewrite AlignSize_free by lia.
    erewrite bind_done; [|eapply IH; [exact Ht | lia]]. by rewrite IsFree_free by lia.
  - destruct Ht as (Hn & Hi & Ht). pose proof (tiles_len _ _ _ _ _ _ Ht).
    assert (E : i <? j = true) by lia. rewrite E, (bind_get_info _ _ _ _ Hi), bind_gets.
    unfold GetNextInfo. rewrite AlignSize_used by lia.
    erewrite bind_done; [|eapply IH; [exact Ht | lia]]. rewrite IsFree_used by lia.
    unfold ByteSize. by rewrite AlignSize_used by lia.
Qed.
Lemma end_info_blen N s bs : inv N s bs -> end_info s = blen bs.
Proof.
  intros Hinv. unfold end_info. destruct (inv_end _ _ _ Hinv) as [-> _].
  rewrite (inv_free_end _ _ _ Hinv).
  replace (_ - _) with (begin_ s + blen bs * kAlignment) by lia. apply slot_of_address.
Qed.

Definition set_zygote (b : block) : block :=
  match b with BFree n => BFree n | BUsed n _ => BUsed n true end.

Lemma SetZygoteObject_used p n z :
  SetZygoteObject (mkInfo p (Z.lor n (zygote_flag z))) = mkInfo p (Z.lor n (zygote_flag true)).
Proof.
  unfold SetZygoteObject. cbn [prev_free_ alloc_size_]. f_equal.
  rewrite <- Z.lor_assoc. by destruct z.
Qed.

Lemma SetAllZygote_from_done s fuel i p bs j q :
  tiles (allocation_info_ s) i p bs j q -> (length bs < fuel)%nat ->
  exists t', SetAllZygote_from fuel i j s = Done (tt, with_info s t') /\
    tiles t' i p (set_zygote <$> bs) j q /\
    (forall x, x < i -> t' !! x = allocation_info_ s !! x) /\
    (forall x, same_key (info_at (allocation_info_ s) x) (info_at t' x)) /\
    (forall x, is_Some (allocation_info_ s !! x) -> is_Some (t' !! x)).
Proof.
  revert s i p fuel; induction bs as [|[n|n z] bs IH]; intros s i p [|fuel] Ht Hf;
    simpl in Hf; try lia; cbn [SetAllZygote_from]; cbn [tiles] in Ht.
  - destruct Ht as [-> ->]. rewrite Z.ltb_irrefl. exists (allocation_info_ s).
    split_and!; [by destruct s | done..].
  - destruct Ht as (Hn & -> & Hi & Ht). pose proof (tiles_len _ _ _ _ _ _ Ht).
    assert (E : i <? j = true) by lia. rewrite E, (bind_get_info _ _ _ _ Hi), IsFree_free by lia.
    cbn [negb]. rewrite bind_ret, (bind_get_info _ _ _ _ Hi). unfold GetNextInfo. rewrite AlignSize_free by lia.
    destruct (IH s _ _ fuel Ht ltac:(lia)) as (t' & Hr & Ht' & Hlow & Hk & Hsm).
    exists t'. split_and!; [done | | intros; apply Hlow; lia | done | done].
    simpl. rewrite Hlow by lia. split_and!; done || lia.
  - destruct Ht as (Hn & Hi & Ht). pose proof (tiles_len _ _ _ _ _ _ Ht).
    assert (E : i <? j = true) by lia. rewrite E, (bind_get_info _ _ _ _ Hi), IsFree_used by lia.
    cbn [negb]. rewrite (bind_done _ _ _ _ _ (upd_info_done _ _ _ _ Hi)), SetZygoteObject_used.
    set (s1 := with_info s _).
    rewrite (bind_get_info _ (mkInfo p (Z.lor n (zygote_flag true)))) by (simpl; apply lookup_insert_eq).
    unfold GetNextInfo. rewrite AlignSize_used by lia.
    destruct (IH s1 (i + n) 0 fuel) as (t' & Hr & Ht' & Hlow & Hk & Hsm); [|lia|].
    { eapply tiles_frame; [exact Ht|]. intros x Hx. simpl. by rewrite lookup_insert_ne by lia. }
    exists t'. split_and!; [done | | | |].
    + simpl. rewrite Hlow by lia. simpl. rewrite lookup_insert_eq. split_and!; done || lia.
    + intros x Hx. rewrite Hlow by lia. simpl. by rewrite lookup_insert_ne by lia.
    + intros x. specialize (Hk x). simpl in Hk. unfold info_at in *.
      destruct (decide (x = i)) as [->|]; [|by rewrite lookup_insert_ne in Hk].
      rewrite lookup_insert_eq in Hk. rewrite Hi. simpl in *.
      destruct Hk as [Hk1 Hk2]. rewrite (AlignSize_enc _ _ kFlagZygote) in Hk2 by (auto; lia).
      split; [exact Hk1|]. by rewrite AlignSize_used by lia.
    + intros x Hx. apply Hsm. simpl. destruct (decide (x = i)) as [->|];
        [by rewrite lookup_insert_eq | by rewrite lookup_insert_ne].
Qed.

Lemma blen_set_zygote bs : blen (set_zygote <$> bs) = blen bs.
Proof. induction bs as [|[] bs IH]; csimpl; lia. Qed.
Lemma holes_set_zygote i p bs : holes i p (set_zygote <$> bs) = holes i p bs.
Proof. revert i p; induction bs as [|[] bs IH]; intros i p; csimpl; [done|..]; by rewrite ?IH. Qed.
Lemma used_set_zygote i bs :
  used i (set_zygote <$> bs) = (fun u => (u.1, true)) <$> used i bs.
Proof. revert i; induction bs as [|[] bs IH]; intros i; csimpl; [done|..]; by rewrite IH. Qed.
Lemma used_pages_zygote l : used_pages ((fun u : Z * Z * bool => (u.1, true)) <$> l) = used_pages l.
Proof. induction l as [|u l IH]; csimpl; [done|]. unfold used_pages in *. simpl. by rewrite IH. Qed.

Lemma SetAllZygote_done N s bs :
  inv N s bs -> exists s', SetAllLargeObjectsAsZygoteObjects s = Done (tt, s') /\
    inv N s' (set_zygote <$> bs) /\ begin_ s' = begin_ s.
Proof.
  intros Hinv. unfold SetAllLargeObjectsAsZygoteObjects.
  rewrite bind_gets, (end_info_blen _ _ _ Hinv).
  pose proof (tiles_length _ _ _ _ _ _ (inv_tiles _ _ _ Hinv)).
  destruct (SetAllZygote_from_done s (S (Z.to_nat (blen bs))) _ _ _ _ _ (inv_tiles _ _ _ Hinv))
    as (t' & Hr & Ht & _ & Hk & Hsm); [lia|].
  eexists. split; [exact Hr|]. split; [|done]. destruct Hinv.
  split; simpl; rewrite ?blen_set_zygote, ?holes_set_zygote, ?used_set_zygote, ?length_fmap,
    ?used_pages_zygote; auto.
  by eapply sorted_ext.
Qed.

Lemma Create_done base size :
  0 <= base -> base mod kAlignment = 0 -> size mod kAlignment = 0 ->
  0 <= size -> size / kAlignment < kMaxPages -> base + size < 2 ^ 64 ->
  exists s, Create (Some base) true size = Done s /\ inv (size / kAlignment) s [] /\
    begin_ s = base /\ end_ s = base + size.
Proof.
  intros Hb Hba Hsa Hs0 Hs Hw. unfold Create. rewrite Hsa. simpl.
  assert (E : size = size / kAlignment * kAlignment)
    by (unfold kAlignment, kPageSize in *; Z.div_mod_to_equations; lia).
  eexists. split; [done|]. split; [|done]. split; simpl; try done.
  - split; [unfold kAlignment, kPageSize; Z.div_mod_to_equations; lia | done].
  - rewrite <- E. split; lia.
  - intros k Hk. exists zero_info. apply elem_of_list_to_map_1.
    + rewrite <- list_fmap_compose. apply (NoDup_fmap_2 _). apply NoDup_seqZ.
    + apply list_elem_of_fmap. exists k. split; [done|]. apply elem_of_seqZ. lia.
  - unfold kAlignment, kPageSize; Z.div_mod_to_equations; lia.
  - rewrite Z.sub_0_r. exact E.
  - constructor.
Qed.

(** ** Properties *)

(** A space of 16 pages with one block of two pages. *)
Lemma one_block : exists s, inv 16 s [BUsed 2 false] /\ begin_ s = 0x10000.
Proof.
  destruct (Create_done 0x10000 0x10000) as (s & _ & Hinv & Hb & _); try done.
  destruct (Alloc_done 16 s [] 0 5000 Hinv) as (r & s' & _ & Hr); [done|].
  destruct r as [[obj size]|].
  - destruct Hr as (slot & bs' & _ & _ & He & Hinv' & Hb' & _). exists s'. split; [|congruence].
    inversion He as [bs1 m bs2 E|]; subst; [by destruct bs1 | done].
  - destruct Hr as (_ & _ & Hr). change (16 - 0 < 2) in Hr. lia.
Qed.

(** C28: [Alloc] of a positive size (up to 2^43 bytes) never fails a check, rounds
    the size up to pages and places the block at the start of the smallest
    free block that fits, else at the start of the end free region; the
    invariant is preserved with the block added. It returns null only when no
    free block and not the end region has room, and then changes nothing. *)
Theorem alloc_best_fit N s bs temp num_bytes :
  inv N s bs -> 0 < num_bytes <= 2 ^ 43 ->
  let a := pages num_bytes in
  exists r s', Alloc temp num_bytes s = Done (r, s') /\
    match r with
    | None => s' = s /\ no_room N a bs
    | Some (obj, size) => exists slot bs', obj = begin_ s + slot * kAlignment /\
        size = a * kAlignment /\ alloc_effect N a bs slot bs' /\
        inv N s' bs' /\ begin_ s' = begin_ s /\ end_ s' = end_ s
    end.
Proof. apply Alloc_done. Qed.

Lemma alloc_best_fit_witness :
  exists s r s', inv 16 s [BUsed 2 false] /\ Alloc 0 4096 s = Done (r, s') /\ is_Some r.
Proof.
  destruct one_block as (s & Hinv & Hb).
  destruct (alloc_best_fit 16 s [BUsed 2 false] 0 4096 Hinv ltac:(lia)) as (r & s' & HA & Hr).
  exists s, r, s'. split_and!; [done | done |]. destruct r; [done|].
  destruct Hr as (_ & _ & Hr). exfalso. change (16 - 2 < 1) in Hr. lia.
Defined.

(** C29: [Free] of an allocated block never fails a check, returns its size,
    merges it with the free blocks on both sides (or with the end free region
    when it is the last block) and preserves the invariant, so that two free
    blocks are never adjacent and none touches the end region. *)
Theorem free_coalesces N s bs1 n z bs2 :
  inv N s (bs1 ++ BUsed n z :: bs2) ->
  exists s', Free (begin_ s + blen bs1 * kAlignment) s = Done (n * kAlignment, s') /\
    inv N s' (coalesce bs1 n bs2) /\ begin_ s' = begin_ s /\ end_ s' = end_ s.
Proof. apply Free_done. Qed.

Lemma free_coalesces_witness :
  exists s s', inv 16 s ([] ++ BUsed 2 false :: []) /\ Free 0x10000 s = Done (8192, s') /\ inv 16 s' [].
Proof.
  destruct one_block as (s & Hinv & Hb).
  destruct (free_coalesces 16 s [] 2 false [] Hinv) as (s' & HF & Hinv' & _).
  exists s, s'. split; [exact Hinv|]. rewrite Hb in HF. split; [exact HF | exact Hinv'].
Defined.



(** [Walk] calls back exactly on the allocated blocks, in address order,
    each with its start and end, terminates, and passes its final CHECK. *)
Theorem walk_visits_used N s bs :
  inv N s bs ->
  Walk s = Done ((fun u => ((block_addr s u).1, (block_addr s u).1 + (block_addr s u).2)) <$> used 0 bs, s).
Proof.
  intros Hinv. unfold Walk. rewrite bind_gets, (end_info_blen _ _ _ Hinv).
  pose proof (tiles_length _ _ _ _ _ _ (inv_tiles _ _ _ Hinv)).
  eapply Walk_from_done; [exact (inv_tiles _ _ _ Hinv) | lia].
Qed.

Lemma walk_visits_used_witness :
  exists s, inv 16 s [BUsed 2 false] /\ Walk s = Done ([(0x10000, 0x12000)], s).
Proof.
  destruct one_block as (s & Hinv & Hb). exists s. split; [done|].
  rewrite (walk_visits_used 16 s _ Hinv). simpl. by rewrite Hb.
Defined.

(** [SetAllLargeObjectsAsZygoteObjects] marks exactly the allocated blocks
    and keeps the invariant, the flag being invisible to sizes and order. *)
Theorem zygote_marks_used N s bs :
  inv N s bs ->
  exists s', SetAllLargeObjectsAsZygoteObjects s = Done (tt, s') /\ inv N s' (set_zygote <$> bs) /\
    forall slot n z, (slot, n, z) ∈ used 0 bs ->
      IsZygoteLargeObject (begin_ s + slot * kAlignment) s' = Done (true, s').
Proof.
  intros Hinv. destruct (SetAllZygote_done _ _ _ Hinv) as (s' & Hr & Hinv' & Hb).
  exists s'. split_and!; [done | done |]. intros slot n z Hu.
  destruct (used_split _ _ _ _ _ Hu) as (bs1 & bs2 & -> & ->).
  pose proof (inv_tiles _ _ _ Hinv') as Ht. rewrite fmap_app in Ht.
  apply tiles_app in Ht as (k & r & H1 & (Hn & Hi & _)).
  destruct (tiles_len _ _ _ _ _ _ H1) as [-> _]. rewrite blen_set_zygote in Hi.
  unfold IsZygoteLargeObject. rewrite bind_gets, <- Hb, slot_of_address, (bind_get_info _ _ _ _ Hi).
  rewrite IsZygote_testbit. cbn [alloc_size_]. by rewrite testbit_enc by lia.
Qed.

Lemma zygote_marks_used_witness :
  exists s s', inv 16 s [BUsed 2 false] /\
    SetAllLargeObjectsAsZygoteObjects s = Done (tt, s') /\ inv 16 s' [BUsed 2 true].
Proof.
  destruct one_block as (s & Hinv & Hb).
  destruct (zygote_marks_used 16 s _ Hinv) as (s' & Hr & Hinv' & _). by exists s, s'.
Defined.
End FreeListSpace.
