(* ===== verification/SwapState.v ===== *)
(** The state of the swapping code: the variables of runtime/marvin_swap.cc,
    together with the memory, the spaces and the reclamation table it acts on.

    The mutexes of marvin_swap.cc are not part of the state: each function is
    a sequence of steps of one thread.  What happens to a table entry between
    those steps is the subject of RteLock.

    RosAlloc (the main space) is an allocator of its own, of which only the
    interface of Allocator is used: its state is the parameter [R]. *)
From stdpp Require Import prelude gmap list.
From Stdlib Require Import ZArith Lia.
From S2P Require Import Prelude Bits Mem ObjectHeader Mirror ReclamationTable Stub Stream.
From S2P Require Import Allocator LargeObjectSpace.
Open Scope Z_scope.

(** ** Constants (marvin_swap.cc) *)
Definition BG_MARK_SWEEPS_BEFORE_SEMI_SPACE : Z := 6.
Definition WRITE_TASK_FG_WAIT_TIME : Z := 5000000000.
Definition WRITE_TASK_BG_WAIT_TIME : Z := 30000000000.
Definition WRITE_TASK_STARTUP_DELAY : Z := 6000000000.
Definition REC_TABLE_NUM_ENTRIES : Z := 60000.
Definition SWAPPED_IN_SPACE_START : Z := 0xc0000000.
Definition SWAPPED_IN_SPACE_SIZE (commercial_compat : bool) : Z :=
  if commercial_compat then 1 * 1024 * 1024 else 512 * 1024 * 1024.

Inductive write_result :=
| SWAPFILE_WRITE_OK
| SWAPFILE_WRITE_GARBAGE
| SWAPFILE_WRITE_NULL_CLASS
| SWAPFILE_WRITE_RESIZED
| SWAPFILE_WRITE_NO_SWAP.
#[export] Instance write_result_eq_dec : EqDecision write_result.
Proof. solve_decision. Defined.

(** Requests to the heap and to its task processor. *)
Inductive heap_request :=
| RequestConcurrentGC
| PerformHomogeneousSpaceCompact
| AddWriteTask (target_time : Z).
#[export] Instance heap_request_eq_dec : EqDecision heap_request.
Proof. solve_decision. Defined.

Section State.
Context {R : Type}.

(** ** Variables *)
Record world := mkWorld {
  w_mem : mem;  (* the process memory *)
  recTable : ReclamationTable;
  swappedInSpace : FreeListSpace.FreeListSpace;
  los : FreeListSpace.FreeListSpace;  (* heap->GetLargeObjectsSpace() *)
  ros : R;  (* heap->GetRosAllocSpace() *)
  swapfile : stream;
  objectOffsetMap : gmap Z Z;
  objectSizeMap : gmap Z Z;
  writeQueue : list Z;
  writeSet : gset Z;
  createStubSet : gset Z;
  remappingTable : gmap Z Z;
  semiSpaceRemappingTable : gmap Z Z;
  stubRTEMap : gmap Z Z;
  creatingStubs : bool;
  swapEnabled : bool;
  appInForeground : bool;
  bgMarkSweepCounter : Z;
  freedObjects : Z;
  freedSize : Z;
  swapfileObjects : Z;
  swapfileSize : Z;
  pid : Z;
  roots : list Z;  (* what VisitRoots reaches *)
  requests : list heap_request  (* what was asked of the heap and its task processor, latest first *)
}.
Definition set_w_mem (x : mem) (w : world) : world :=
  mkWorld x (recTable w) (swappedInSpace w) (los w) (ros w) (swapfile w) (objectOffsetMap w)
    (objectSizeMap w) (writeQueue w) (writeSet w) (createStubSet w) (remappingTable w)
    (semiSpaceRemappingTable w) (stubRTEMap w) (creatingStubs w) (swapEnabled w)
    (appInForeground w) (bgMarkSweepCounter w) (freedObjects w) (freedSize w) (swapfileObjects w)
    (swapfileSize w) (pid w) (roots w) (requests w).
Definition set_recTable (x : ReclamationTable) (w : world) : world :=
  mkWorld (w_mem w) x (swappedInSpace w) (los w) (ros w) (swapfile w) (objectOffsetMap w)
    (objectSizeMap w) (writeQueue w) (writeSet w) (createStubSet w) (remappingTable w)
    (semiSpaceRemappingTable w) (stubRTEMap w) (creatingStubs w) (swapEnabled w)
    (appInForeground w) (bgMarkSweepCounter w) (freedObjects w) (freedSize w) (swapfileObjects w)
    (swapfileSize w) (pid w) (roots w) (requests w).
Definition set_swappedInSpace (x : FreeListSpace.FreeListSpace) (w : world) : world :=
  mkWorld (w_mem w) (recTable w) x (los w) (ros w) (swapfile w) (objectOffsetMap w)
    (objectSizeMap w) (writeQueue w) (writeSet w) (createStubSet w) (remappingTable w)
    (semiSpaceRemappingTable w) (stubRTEMap w) (creatingStubs w) (swapEnabled w)
    (appInForeground w) (bgMarkSweepCounter w) (freedObjects w) (freedSize w) (swapfileObjects w)
    (swapfileSize w) (pid w) (roots w) (requests w).
Definition set_los (x : FreeListSpace.FreeListSpace) (w : world) : world :=
  mkWorld (w_mem w) (recTable w) (swappedInSpace w) x (ros w) (swapfile w) (objectOffsetMap w)
    (objectSizeMap w) (writeQueue w) (writeSet w) (createStubSet w) (remappingTable w)
    (semiSpaceRemappingTable w) (stubRTEMap w) (creatingStubs w) (swapEnabled w)
    (appInForeground w) (bgMarkSweepCounter w) (freedObjects w) (freedSize w) (swapfileObjects w)
    (swapfileSize w) (pid w) (roots w) (requests w).
Definition set_ros (x : R) (w : world) : world :=
  mkWorld (w_mem w) (recTable w) (swappedInSpace w) (los w) x (swapfile w) (objectOffsetMap w)
    (objectSizeMap w) (writeQueue w) (writeSet w) (createStubSet w) (remappingTable w)
    (semiSpaceRemappingTable w) (stubRTEMap w) (creatingStubs w) (swapEnabled w)
    (appInForeground w) (bgMarkSweepCounter w) (freedObjects w) (freedSize w) (swapfileObjects w)
    (swapfileSize w) (pid w) (roots w) (requests w).
Definition set_swapfile (x : stream) (w : world) : world :=
  mkWorld (w_mem w) (recTable w) (swappedInSpace w) (los w) (ros w) x (objectOffsetMap w)
    (objectSizeMap w) (writeQueue w) (writeSet w) (createStubSet w) (remappingTable w)
    (semiSpaceRemappingTable w) (stubRTEMap w) (creatingStubs w) (swapEnabled w)
    (appInForeground w) (bgMarkSweepCounter w) (freedObjects w) (freedSize w) (swapfileObjects w)
    (swapfileSize w) (pid w) (roots w) (requests w).
Definition set_objectOffsetMap (x : gmap Z Z) (w : world) : world :=
  mkWorld (w_mem w) (recTable w) (swappedInSpace w) (los w) (ros w) (swapfile w) x
    (objectSizeMap w) (writeQueue w) (writeSet w) (createStubSet w) (remappingTable w)
    (semiSpaceRemappingTable w) (stubRTEMap w) (creatingStubs w) (swapEnabled w)
    (appInForeground w) (bgMarkSweepCounter w) (freedObjects w) (freedSize w) (swapfileObjects w)
    (swapfileSize w) (pid w) (roots w) (requests w).
Definition set_objectSizeMap (x : gmap Z Z) (w : world) : world :=
  mkWorld (w_mem w) (recTable w) (swappedInSpace w) (los w) (ros w) (swapfile w)
    (objectOffsetMap w) x (writeQueue w) (writeSet w) (createStubSet w) (remappingTable w)
    (semiSpaceRemappingTable w) (stubRTEMap w) (creatingStubs w) (swapEnabled w)
    (appInForeground w) (bgMarkSweepCounter w) (freedObjects w) (freedSize w) (swapfileObjects w)
    (swapfileSize w) (pid w) (roots w) (requests w).
Definition set_writeQueue (x : list Z) (w : world) : world :=
  mkWorld (w_mem w) (recTable w) (swappedInSpace w) (los w) (ros w) (swapfile w)
    (objectOffsetMap w) (objectSizeMap w) x (writeSet w) (createStubSet w) (remappingTable w)
    (semiSpaceRemappingTable w) (stubRTEMap w) (creatingStubs w) (swapEnabled w)
    (appInForeground w) (bgMarkSweepCounter w) (freedObjects w) (freedSize w) (swapfileObjects w)
    (swapfileSize w) (pid w) (roots w) (requests w).
Definition set_writeSet (x : gset Z) (w : world) : world :=
  mkWorld (w_mem w) (recTable w) (swappedInSpace w) (los w) (ros w) (swapfile w)
    (objectOffsetMap w) (objectSizeMap w) (writeQueue w) x (createStubSet w) (remappingTable w)
    (semiSpaceRemappingTable w) (stubRTEMap w) (creatingStubs w) (swapEnabled w)
    (appInForeground w) (bgMarkSweepCounter w) (freedObjects w) (freedSize w) (swapfileObjects w)
    (swapfileSize w) (pid w) (roots w) (requests w).
Definition set_createStubSet (x : gset Z) (w : world) : world :=
  mkWorld (w_mem w) (recTable w) (swappedInSpace w) (los w) (ros w) (swapfile w)
    (objectOffsetMap w) (objectSizeMap w) (writeQueue w) (writeSet w) x (remappingTable w)
    (semiSpaceRemappingTable w) (stubRTEMap w) (creatingStubs w) (swapEnabled w)
    (appInForeground w) (bgMarkSweepCounter w) (freedObjects w) (freedSize w) (swapfileObjects w)
    (swapfileSize w) (pid w) (roots w) (requests w).
Definition set_remappingTable (x : gmap Z Z) (w : world) : world :=
  mkWorld (w_mem w) (recTable w) (swappedInSpace w) (los w) (ros w) (swapfile w)
    (objectOffsetMap w) (objectSizeMap w) (writeQueue w) (writeSet w) (createStubSet w) x
    (semiSpaceRemappingTable w) (stubRTEMap w) (creatingStubs w) (swapEnabled w)
    (appInForeground w) (bgMarkSweepCounter w) (freedObjects w) (freedSize w) (swapfileObjects w)
    (swapfileSize w) (pid w) (roots w) (requests w).
Definition set_semiSpaceRemappingTable (x : gmap Z Z) (w : world) : world :=
  mkWorld (w_mem w) (recTable w) (swappedInSpace w) (los w) (ros w) (swapfile w)
    (objectOffsetMap w) (objectSizeMap w) (writeQueue w) (writeSet w) (createStubSet w)
    (remappingTable w) x (stubRTEMap w) (creatingStubs w) (swapEnabled w) (appInForeground w)
    (bgMarkSweepCounter w) (freedObjects w) (freedSize w) (swapfileObjects w) (swapfileSize w)
    (pid w) (roots w) (requests w).
Definition set_stubRTEMap (x : gmap Z Z) (w : world) : world :=
  mkWorld (w_mem w) (recTable w) (swappedInSpace w) (los w) (ros w) (swapfile w)
    (objectOffsetMap w) (objectSizeMap w) (writeQueue w) (writeSet w) (createStubSet w)
    (remappingTable w) (semiSpaceRemappingTable w) x (creatingStubs w) (swapEnabled w)
    (appInForeground w) (bgMarkSweepCounter w) (freedObjects w) (freedSize w) (swapfileObjects w)
    (swapfileSize w) (pid w) (roots w) (requests w).
Definition set_creatingStubs (x : bool) (w : world) : world :=
  mkWorld (w_mem w) (recTable w) (swappedInSpace w) (los w) (ros w) (swapfile w)
    (objectOffsetMap w) (objectSizeMap w) (writeQueue w) (writeSet w) (createStubSet w)
    (remappingTable w) (semiSpaceRemappingTable w) (stubRTEMap w) x (swapEnabled w)
    (appInForeground w) (bgMarkSweepCounter w) (freedObjects w) (freedSize w) (swapfileObjects w)
    (swapfileSize w) (pid w) (roots w) (requests w).
Definition set_swapEnabled (x : bool) (w : world) : world :=
  mkWorld (w_mem w) (recTable w) (swappedInSpace w) (los w) (ros w) (swapfile w)
    (objectOffsetMap w) (objectSizeMap w) (writeQueue w) (writeSet w) (createStubSet w)
    (remappingTable w) (semiSpaceRemappingTable w) (stubRTEMap w) (creatingStubs w) x
    (appInForeground w) (bgMarkSweepCounter w) (freedObjects w) (freedSize w) (swapfileObjects w)
    (swapfileSize w) (pid w) (roots w) (requests w).
Definition set_appInForeground (x : bool) (w : world) : world :=
  mkWorld (w_mem w) (recTable w) (swappedInSpace w) (los w) (ros w) (swapfile w)
    (objectOffsetMap w) (objectSizeMap w) (writeQueue w) (writeSet w) (createStubSet w)
    (remappingTable w) (semiSpaceRemappingTable w) (stubRTEMap w) (creatingStubs w)
    (swapEnabled w) x (bgMarkSweepCounter w) (freedObjects w) (freedSize w) (swapfileObjects w)
    (swapfileSize w) (pid w) (roots w) (requests w).
Definition set_bgMarkSweepCounter (x : Z) (w : world) : world :=
  mkWorld (w_mem w) (recTable w) (swappedInSpace w) (los w) (ros w) (swapfile w)
    (objectOffsetMap w) (objectSizeMap w) (writeQueue w) (writeSet w) (createStubSet w)
    (remappingTable w) (semiSpaceRemappingTable w) (stubRTEMap w) (creatingStubs w)
    (swapEnabled w) (appInForeground w) x (freedObjects w) (freedSize w) (swapfileObjects w)
    (swapfileSize w) (pid w) (roots w) (requests w).
Definition set_freedObjects (x : Z) (w : world) : world :=
  mkWorld (w_mem w) (recTable w) (swappedInSpace w) (los w) (ros w) (swapfile w)
    (objectOffsetMap w) (objectSizeMap w) (writeQueue w) (writeSet w) (createStubSet w)
    (remappingTable w) (semiSpaceRemappingTable w) (stubRTEMap w) (creatingStubs w)
    (swapEnabled w) (appInForeground w) (bgMarkSweepCounter w) x (freedSize w) (swapfileObjects w)
    (swapfileSize w) (pid w) (roots w) (requests w).
Definition set_freedSize (x : Z) (w : world) : world :=
  mkWorld (w_mem w) (recTable w) (swappedInSpace w) (los w) (ros w) (swapfile w)
    (objectOffsetMap w) (objectSizeMap w) (writeQueue w) (writeSet w) (createStubSet w)
    (remappingTable w) (semiSpaceRemappingTable w) (stubRTEMap w) (creatingStubs w)
    (swapEnabled w) (appInForeground w) (bgMarkSweepCounter w) (freedObjects w) x
    (swapfileObjects w) (swapfileSize w) (pid w) (roots w) (requests w).
Definition set_swapfileObjects (x : Z) (w : world) : world :=
  mkWorld (w_mem w) (recTable w) (swappedInSpace w) (los w) (ros w) (swapfile w)
    (objectOffsetMap w) (objectSizeMap w) (writeQueue w) (writeSet w) (createStubSet w)
    (remappingTable w) (semiSpaceRemappingTable w) (stubRTEMap w) (creatingStubs w)
    (swapEnabled w) (appInForeground w) (bgMarkSweepCounter w) (freedObjects w) (freedSize w) x
    (swapfileSize w) (pid w) (roots w) (requests w).
Definition set_swapfileSize (x : Z) (w : world) : world :=
  mkWorld (w_mem w) (recTable w) (swappedInSpace w) (los w) (ros w) (swapfile w)
    (objectOffsetMap w) (objectSizeMap w) (writeQueue w) (writeSet w) (createStubSet w)
    (remappingTable w) (semiSpaceRemappingTable w) (stubRTEMap w) (creatingStubs w)
    (swapEnabled w) (appInForeground w) (bgMarkSweepCounter w) (freedObjects w) (freedSize w)
    (swapfileObjects w) x (pid w) (roots w) (requests w).
Definition set_pid (x : Z) (w : world) : world :=
  mkWorld (w_mem w) (recTable w) (swappedInSpace w) (los w) (ros w) (swapfile w)
    (objectOffsetMap w) (objectSizeMap w) (writeQueue w) (writeSet w) (createStubSet w)
    (remappingTable w) (semiSpaceRemappingTable w) (stubRTEMap w) (creatingStubs w)
    (swapEnabled w) (appInForeground w) (bgMarkSweepCounter w) (freedObjects w) (freedSize w)
    (swapfileObjects w) (swapfileSize w) x (roots w) (requests w).
Definition set_roots (x : list Z) (w : world) : world :=
  mkWorld (w_mem w) (recTable w) (swappedInSpace w) (los w) (ros w) (swapfile w)
    (objectOffsetMap w) (objectSizeMap w) (writeQueue w) (writeSet w) (createStubSet w)
    (remappingTable w) (semiSpaceRemappingTable w) (stubRTEMap w) (creatingStubs w)
    (swapEnabled w) (appInForeground w) (bgMarkSweepCounter w) (freedObjects w) (freedSize w)
    (swapfileObjects w) (swapfileSize w) (pid w) x (requests w).
Definition set_requests (x : list heap_request) (w : world) : world :=
  mkWorld (w_mem w) (recTable w) (swappedInSpace w) (los w) (ros w) (swapfile w)
    (objectOffsetMap w) (objectSizeMap w) (writeQueue w) (writeSet w) (createStubSet w)
    (remappingTable w) (semiSpaceRemappingTable w) (stubRTEMap w) (creatingStubs w)
    (swapEnabled w) (appInForeground w) (bgMarkSweepCounter w) (freedObjects w) (freedSize w)
    (swapfileObjects w) (swapfileSize w) (pid w) (roots w) x.
End State.
#[global] Arguments world R : clear implicits.
