(* ===== verification/Swap.v ===== *)
(** The swapping code (runtime/marvin_swap.cc): writing objects to the swap
    file and reading them back, the bookkeeping of the garbage collectors, the
    creation of stubs, reclamation, compaction of the swap file, and the tasks
    that drive them.

    The functions are in the order of the calls between them.  Their theorems
    are in SwapFile (the swap file), SwapCycle (writing, reclaiming and
    swapping in), SwapInvariant (the maps and the write queue) and SwapRuns. *)
From stdpp Require Import prelude gmap list.
From Stdlib Require Import ZArith Lia.
From S2P Require Import Prelude Bits Mem ObjectHeader Mirror ReclamationTable Stub Stream.
From S2P Require Import Allocator LargeObjectSpace SwapState.
Open Scope Z_scope.

Section Swap.
Context {R : Type} {RosAlloc : Allocator R}.
(** The objects that RosAlloc's [Walk] visits. *)
Context (ros_walk : R -> list Z).
(** The class table, and the size at which the swap file's disk is full. *)
Context (ct : gmap Z ClassInfo) (capacity : Z).
(** Where [FreeListSpace::Alloc] has its temporary [AllocationInfo]. *)
Context (temp_addr : Z).
(** COMMERCIAL_APP_COMPAT_MODE *)
Context (commercial_compat : bool).

Local Abbreviation SM := (M (world R)).

(** ** Access to the parts of the state *)
Definition getm {A} (f : mem -> A) : SM A := gets (fun w => f (w_mem w)).
Definition modm (f : mem -> mem) : SM unit := modify (fun w => set_w_mem (f (w_mem w)) w).
Definition try {A} (f : world R -> outcome A) : SM A := fun w => a ← f w; Done (a, w).
Definition in_stream {A} (f : stream -> A * stream) : SM A :=
  fun w => Done ((f (swapfile w)).1, set_swapfile (f (swapfile w)).2 w).
Definition in_swappedInSpace {A} (act : M FreeListSpace.FreeListSpace A) : SM A :=
  fun w => '(a, s) ← act (swappedInSpace w); Done (a, set_swappedInSpace s w).
Definition in_los {A} (act : M FreeListSpace.FreeListSpace A) : SM A :=
  fun w => '(a, s) ← act (los w); Done (a, set_los s w).
Definition in_ros {A} (act : M R A) : SM A :=
  fun w => '(a, s) ← act (ros w); Done (a, set_ros s w).

(** [std::map::operator[]]: an absent key is inserted with value 0. *)
Definition index_offset (k : Z) : SM Z :=
  v ← gets (fun w => default 0 (objectOffsetMap w !! k));
  modify (fun w => set_objectOffsetMap (<[k := v]> (objectOffsetMap w)) w);; mret v.
Definition index_size (k : Z) : SM Z :=
  v ← gets (fun w => default 0 (objectSizeMap w !! k));
  modify (fun w => set_objectSizeMap (<[k := v]> (objectSizeMap w)) w);; mret v.

(** ** Table entries, by pointer *)
Definition with_entry (p : Z) (f : TableEntry -> TableEntry) : SM unit :=
  t ← try (fun w => update_entry (recTable w) p f); modify (set_recTable t).
Definition entry_at (p : Z) : SM TableEntry := try (fun w => read_entry (recTable w) p).
Definition lock_entry (p : Z) : SM unit :=
  e ← entry_at p; e' ← try (fun _ => LockFromAppThread e); with_entry p (fun _ => e').
Definition unlock_entry_at (p : Z) : SM unit := with_entry p UnlockFromAppThread.

Definition stub_entry (stub : Z) : SM Z := getm (fun m => GetTableEntry m stub).
Definition LockTableEntry (stub : Z) : SM unit := p ← stub_entry stub; lock_entry p.
Definition UnlockTableEntry (stub : Z) : SM unit := p ← stub_entry stub; unlock_entry_at p.
Definition stub_object (stub : Z) : SM Z :=
  try (fun w => GetObjectAddress (w_mem w) (recTable w) stub).
Definition stub_resident (stub : Z) : SM bool :=
  p ← stub_entry stub; e ← entry_at p; mret (GetResidentBit e).

Definition objectInSwappableSpace (w : world R) (obj : Z) : bool :=
  contains (ros w) obj || FreeListSpace.Contains (los w) obj
  || FreeListSpace.Contains (swappedInSpace w) obj.

Definition SetInForeground (inForeground : bool) : SM unit :=
  modify (set_appInForeground inForeground);;
  when inForeground (modify (set_bgMarkSweepCounter 0)).

(** [writeQueue.erase(std::find(...))] *)
Fixpoint list_remove_first (x : Z) (l : list Z) : list Z :=
  match l with
  | [] => []
  | y :: l => if x =? y then l else y :: list_remove_first x l
  end.

(** ** Writing to the swap file *)

(** An object of [n] bytes with its IgnoreReadFlag toggled around the read. *)
Definition sized (object : Z) : SM Z :=
  modm (fun m => SetIgnoreReadFlag m object);;
  n ← try (fun w => SizeOf ct (w_mem w) object);
  modm (fun m => ClearIgnoreReadFlag m object);;
  mret n.

(** The first snapshot of an object goes to the end of the file. *)
Definition write_first (key objectSize : Z) (objectData : list Z) : SM bool :=
  offset ← gets (fun w => tellp (swapfile w));
  in_stream (fun s => (tt, stream_write capacity s objectData));;
  ioError ← gets (fun w => checkStreamError (swapfile w));
  modify (fun w => set_objectOffsetMap (<[key := offset]> (objectOffsetMap w)) w);;
  modify (fun w => set_objectSizeMap (<[key := objectSize]> (objectSizeMap w)) w);;
  modify (fun w => set_swapfileObjects (i32 (swapfileObjects w + 1)) w);;
  modify (fun w => set_swapfileSize (i32 (swapfileSize w + objectSize)) w);;
  mret ioError.
(** A later snapshot overwrites the earlier one. *)
Definition write_again (key objectSize : Z) (objectData : list Z) : SM (write_result * bool) :=
  offset ← index_offset key;
  size ← index_size key;
  if negb (size =? objectSize) then mret (SWAPFILE_WRITE_RESIZED, false)
  else
    curpos ← gets (fun w => tellp (swapfile w));
    in_stream (fun s => (tt, stream_seek s offset));;
    in_stream (fun s => (tt, stream_write capacity s objectData));;
    ioError ← gets (fun w => checkStreamError (swapfile w));
    in_stream (fun s => (tt, stream_seek s curpos));;
    mret (SWAPFILE_WRITE_OK, ioError).
Definition write_data (stub object : Z) : SM (write_result * bool) :=
  objectSize ← sized object;
  modm (fun m => ClearDirtyBit m object);;
  objectData ← getm (fun m => load_bytes m object (Z.to_nat objectSize));
  objectInSwapFileMaps ← gets (fun w => bool_decide (is_Some (objectOffsetMap w !! object)));
  check (negb (negb (stub =? 0) && objectInSwapFileMaps));;
  if negb (stub =? 0) then write_again stub objectSize objectData
  else if (objectInSwapFileMaps : bool) then write_again object objectSize objectData
  else ioError ← write_first object objectSize objectData; mret (SWAPFILE_WRITE_OK, ioError).
(** [writeToSwapFile]: the result and [*ioError]. *)
Definition writeToSwapFile (object : Z) : SM (write_result * bool) :=
  isStub ← getm (fun m => GetStubFlag m object);
  let stub := if (isStub : bool) then object else 0 in
  object ← (if (isStub : bool) then
              LockTableEntry stub;; o ← stub_object stub; check (negb (o =? 0));; mret o
            else mret object);
  c ← gets (fun w => objectInSwappableSpace w object);
  check c;;
  modm (fun m => SetIgnoreReadFlag m object);;
  klass ← getm (fun m => load32 m object);
  modm (fun m => ClearIgnoreReadFlag m object);;
  noSwap ← getm (fun m => GetNoSwapFlag m object);
  r ← (if negb (klass =? 0) && negb noSwap then write_data stub object
       else mret (if (noSwap : bool) then SWAPFILE_WRITE_NO_SWAP else SWAPFILE_WRITE_NULL_CLASS, false));
  (if negb (stub =? 0) then UnlockTableEntry stub else mret tt);;
  mret r.

(** ** Reading from the swap file *)
Definition swapInObject (stub objOffset objSize : Z) : SM Z :=
  resident ← stub_resident stub;
  check (negb resident);;
  destObj ← stub_object stub;
  check (negb (destObj =? 0));;
  curPos ← gets (fun w => tellp (swapfile w));
  in_stream (fun s => (tt, stream_seek s objOffset));;
  data ← in_stream (fun s => stream_read s objSize);
  modm (fun m => store_bytes m destObj data);;
  in_stream (fun s => (tt, stream_seek s curPos));;
  dirty ← getm (fun m => GetDirtyBit m destObj);
  check (negb dirty);;
  m ← try (fun w => CopyRefsInto ct (w_mem w) stub destObj);
  modify (set_w_mem m);;
  p ← stub_entry stub;
  with_entry p SetResidentBit;;
  mret destObj.
Definition SwapInOnDemand (stub : Z) : SM unit :=
  enabled ← gets swapEnabled;
  check enabled;;
  c ← gets (fun w => contains (ros w) stub);
  check c;;
  objOffset ← index_offset stub;
  objSize ← index_size stub;
  swapInObject stub objOffset objSize;;
  mret tt.
Definition swap_in_entry (stub : Z) : SM unit :=
  isStub ← getm (fun m => GetStubFlag m stub);
  when isStub (
    c ← gets (fun w => contains (ros w) stub);
    check c;;
    objOffset ← index_offset stub;
    objSize ← index_size stub;
    LockTableEntry stub;;
    resident ← stub_resident stub;
    (if negb resident then swapInObject stub objOffset objSize;; mret tt else mret tt);;
    UnlockTableEntry stub).
(** SWAP_IN_ON_FOREGROUND is true. *)
Definition SwapObjectsIn : SM unit :=
  enabled ← gets swapEnabled;
  when enabled (
    keys ← gets (fun w => (iter_map (objectOffsetMap w)).*1);
    mfor keys swap_in_entry).

(** ** Bookkeeping of the garbage collectors *)

(** [swappedInSpace->Free]: the call of [GcRecordFree] it starts with returns
    at once, since the object is in [swappedInSpace]. *)
Definition free_swapped_in (obj : Z) : SM unit :=
  n ← in_swappedInSpace (FreeListSpace.Free obj);
  modm (fun m => madvise_dontneed m obj n).

Definition remove_from_queue (object : Z) : SM unit :=
  queued ← gets (fun w => bool_decide (object ∈ writeQueue w));
  when queued (
    (* erase the first occurrence *)
    modify (fun w => set_writeQueue (list_remove_first object (writeQueue w)) w);;
    modify (fun w => set_writeSet (writeSet w ∖ {[ object ]}) w)).
Definition remove_from_maps (object : Z) : SM unit :=
  inOffset ← gets (fun w => bool_decide (is_Some (objectOffsetMap w !! object)));
  inSize ← gets (fun w => bool_decide (is_Some (objectSizeMap w !! object)));
  when (inOffset && inSize) (
    n ← index_size object;
    modify (fun w => set_freedObjects (i32 (freedObjects w + 1)) w);;
    modify (fun w => set_freedSize (i64 (freedSize w + n)) w);;
    modify (fun w => set_objectOffsetMap (delete object (objectOffsetMap w)) w);;
    modify (fun w => set_objectSizeMap (delete object (objectSizeMap w)) w)).
Definition free_stub_object (stub : Z) : SM unit :=
  LockTableEntry stub;;
  swappedInObj ← stub_object stub;
  (if negb (swappedInObj =? 0) then
     c ← gets (fun w => FreeListSpace.Contains (swappedInSpace w) swappedInObj);
     check c;;
     free_swapped_in swappedInObj
   else mret tt);;
  p ← stub_entry stub;
  with_entry p ClearOccupiedBit;;
  UnlockTableEntry stub.
Definition GcRecordFree (object : Z) : SM unit :=
  enabled ← gets swapEnabled;
  creating ← gets creatingStubs;
  swappedIn ← gets (fun w => FreeListSpace.Contains (swappedInSpace w) object);
  when (enabled && negb creating && negb swappedIn) (
    remove_from_queue object;;
    remove_from_maps object;;
    modify (fun w => set_createStubSet (createStubSet w ∖ {[ object ]}) w);;
    isStub ← getm (fun m => GetStubFlag m object);
    when isStub (free_stub_object object)).

(** [shouldExcludeObjectAndMembers], [ExcludeVisitor] *)
Definition shouldExcludeObjectAndMembers : bool := commercial_compat.
Definition ExcludeVisitor (obj offset : Z) : M (mem * unit) unit :=
  modify (fun s => let '(ref, m) := GetFieldObject s.1 obj offset in
    (if ref =? 0 then m else if GetStubFlag m ref then m else SetNoSwapFlag m ref, tt)).
Definition exclude_members (object : Z) : SM unit :=
  '(_, s) ← try (fun w => VisitReferences ct ExcludeVisitor (fun _ _ => mret tt) object (w_mem w, tt));
  modify (set_w_mem s.1).

(** [CheckAndUpdate], called by the mark-sweep collectors on every object they
    mark; [partial] is gc->GetGcType() == kGcTypePartial. *)
Definition queue_write (key : Z) : SM unit :=
  queued ← gets (fun w => bool_decide (key ∈ writeSet w));
  when (negb queued) (
    modify (fun w => set_writeSet ({[ key ]} ∪ writeSet w) w);;
    modify (fun w => set_writeQueue (writeQueue w ++ [key]) w)).
Definition consider (stub object : Z) : SM unit :=
  let bookkeepingKey := if stub =? 0 then object else stub in
  check (negb (bookkeepingKey =? 0));;
  modm (fun m => SetIgnoreReadFlag m object);;
  isStub ← getm (fun m => GetStubFlag m object);
  check (negb isStub);;
  objectSize ← try (fun w => SizeOf ct (w_mem w) object);
  isSwappableType ← try (fun w => objectIsSwappableType ct (w_mem w) object);
  modm (fun m => ClearIgnoreReadFlag m object);;
  wasRead ← getm (fun m => GetReadBit m object);
  wasWritten ← getm (fun m => GetWriteBit m object);
  wsrVal ← getm (fun m => GetWriteShiftRegister m object);
  noSwap ← getm (fun m => GetNoSwapFlag m object);
  inSpace ← gets (fun w => objectInSwappableSpace w object);
  let shouldSwapPreliminary :=
    objectIsLarge objectSize && objectIsCold wsrVal wasWritten && negb noSwap && inSpace
    && isSwappableType in
  when shouldSwapPreliminary (
    modm (fun m => SetIgnoreReadFlag m object);;
    when shouldExcludeObjectAndMembers (
      modm (fun m => SetNoSwapFlag m object);;
      exclude_members object);;
    modm (fun m => ClearIgnoreReadFlag m object));;
  when (shouldSwapPreliminary && negb shouldExcludeObjectAndMembers) (
    when (stub =? 0) (modify (fun w => set_createStubSet ({[ object ]} ∪ createStubSet w) w));;
    dirty ← getm (fun m => GetDirtyBit m object);
    when dirty (queue_write bookkeepingKey));;
  when wasRead (modm (fun m => ClearReadBit m object));;
  when wasWritten (modm (fun m => ClearWriteBit m object));;
  modm (fun m => UpdateReadShiftRegister m object wasRead);;
  modm (fun m => UpdateWriteShiftRegister m object wasWritten).
Definition CheckAndUpdate (partial : bool) (object : Z) : SM unit :=
  enabled ← gets swapEnabled;
  when (enabled && partial) (
    isStub ← getm (fun m => GetStubFlag m object);
    if (isStub : bool) then
      LockTableEntry object;;
      resident ← stub_resident object;
      (if (resident : bool) then obj ← stub_object object; consider object obj else mret tt);;
      UnlockTableEntry object
    else consider 0 object).

(** ** Patching references to objects that got a stub *)
Definition referent_offset : Z := 28.
Definition patch_field (table : gmap Z Z) (obj offset : Z) (m : mem) : mem :=
  let '(ref, m) := GetFieldObject m obj offset in
  match table !! ref with
  | Some r => SetFieldObjectWithoutWriteBarrier m obj offset r
  | None => m
  end.
Definition PatchVisitor (table : gmap Z Z) (obj offset : Z) : M (mem * unit) unit :=
  on_mem (patch_field table obj offset).
(** [GetReferent] and [SetReferent] access the field like the visitor does. *)
Definition PatchReferenceVisitor (table : gmap Z Z) (klass ref : Z) : M (mem * unit) unit :=
  on_mem (patch_field table ref referent_offset).
Definition patch_object (obj : Z) : SM unit :=
  '(_, s) ← try (fun w => VisitReferences ct (PatchVisitor (remappingTable w))
                   (PatchReferenceVisitor (remappingTable w)) obj (w_mem w, tt));
  modify (set_w_mem s.1).
Definition patch_stub_ref (stub : Z) (i : nat) : SM unit :=
  modify (fun w =>
    match remappingTable w !! GetReference (w_mem w) stub (Z.of_nat i) with
    | Some r => set_w_mem (SetReference (w_mem w) stub (Z.of_nat i) r) w
    | None => w
    end).
Definition PatchCallback (start num_bytes : Z) : SM unit :=
  if (start =? 0) || (num_bytes =? 0) then mret tt
  else
    isStub ← getm (fun m => GetStubFlag m start);
    if (isStub : bool) then
      n ← getm (fun m => GetNumRefs m start);
      mfor (seq 0 (Z.to_nat n)) (patch_stub_ref start)
    else patch_object start.
(** The resident objects of [swappedInSpace], through the reclamation table. *)
Definition patch_entry (p : Z) : SM unit :=
  lock_entry p;;
  e ← entry_at p;
  (if GetOccupiedBit e && GetResidentBit e then
     check (negb (RTE_GetObjectAddress e =? 0));;
     patch_object (RTE_GetObjectAddress e)
   else mret tt);;
  unlock_entry_at p.
Definition entry_pointers (t : ReclamationTable) : list Z :=
  entry_address t <$> seq 0 (length (entries t)).
Definition patch_roots : SM unit :=
  modify (fun w => set_roots ((fun r => default r (remappingTable w !! r)) <$> roots w) w).

(** [replaceDataStructurePointers]: the keys of [addrTable] are replaced by
    their values in the maps of the swap file. *)
Definition rename_key (kv : Z * Z) : SM unit :=
  let '(originalPtr, newPtr) := kv in
  inOffset ← gets (fun w => bool_decide (is_Some (objectOffsetMap w !! originalPtr)));
  inSize ← gets (fun w => bool_decide (is_Some (objectSizeMap w !! originalPtr)));
  check (bool_decide (inOffset = inSize));;
  when inOffset (
    modify (fun w => set_objectOffsetMap
      (delete originalPtr (<[newPtr := default 0 (objectOffsetMap w !! originalPtr)]> (objectOffsetMap w))) w);;
    modify (fun w => set_objectSizeMap
      (delete originalPtr (<[newPtr := default 0 (objectSizeMap w !! originalPtr)]> (objectSizeMap w))) w)).
Definition drop_key (k : Z) : SM unit :=
  modify (fun w => set_objectOffsetMap (delete k (objectOffsetMap w)) w);;
  modify (fun w => set_objectSizeMap (delete k (objectSizeMap w)) w).
Definition free_dead_stub (addrTable : gmap Z Z) (kv : Z * Z) : SM unit :=
  let '(stub, rte) := kv in
  if bool_decide (is_Some (addrTable !! stub)) then mret tt
  else
    lock_entry rte;;
    e ← entry_at rte;
    (if negb (RTE_GetObjectAddress e =? 0) then free_swapped_in (RTE_GetObjectAddress e)
     else mret tt);;
    with_entry rte ClearOccupiedBit;;
    unlock_entry_at rte.
(** Entries of the maps that the semi-space collector did not move. *)
Definition untouched (addrTable : gmap Z Z) (w : world R) (k : Z) : bool :=
  negb (bool_decide (is_Some (addrTable !! k))) && negb (FreeListSpace.Contains (los w) k)
  && negb (FreeListSpace.Contains (swappedInSpace w) k).
Definition replaceDataStructurePointers (addrTable : gmap Z Z) (removeUntouchedRosAlloc : bool) :
    SM unit :=
  swapFileMapsRemoveSet ← gets (fun w =>
    filter (fun k => untouched addrTable w k = true) (iter_map (objectOffsetMap w)).*1);
  mfor (iter_map addrTable) rename_key;;
  when removeUntouchedRosAlloc (
    mfor swapFileMapsRemoveSet drop_key;;
    dead ← gets (fun w => iter_map (stubRTEMap w));
    mfor dead (free_dead_stub addrTable);;
    modify (set_stubRTEMap ∅);;
    empty ← gets (fun w => bool_decide (createStubSet w = ∅) && bool_decide (writeQueue w = [])
                           && bool_decide (writeSet w = ∅));
    check empty).

Definition patchStubReferences : SM unit :=
  blocks ← in_los FreeListSpace.Walk;
  mfor blocks (fun b => PatchCallback b.1 (b.2 - b.1));;
  objects ← gets (fun w => ros_walk (ros w));
  mfor objects (fun o => PatchCallback o 1);;
  ps ← gets (fun w => entry_pointers (recTable w));
  mfor ps patch_entry;;
  patch_roots;;
  table ← gets remappingTable;
  replaceDataStructurePointers table false.

(** ** Creating stubs *)
Definition UnlockAllReclamationTableEntries : SM unit :=
  modify (fun w => set_recTable (UnlockAllEntries (recTable w)) w).

(** [FreeFromRosAllocSpace], [FreeFromLargeObjectSpace]: [GcRecordFree]
    returns at once while stubs are created.  The live bitmaps and the
    heap's counters are not part of the state. *)
Definition FreeFromRosAllocSpace (obj : Z) : SM unit :=
  sized obj;; GcRecordFree obj;; in_ros (release obj);; mret tt.
Definition FreeFromLargeObjectSpace (obj : Z) : SM unit :=
  sized obj;; GcRecordFree obj;;
  n ← in_los (FreeListSpace.Free obj);
  modm (fun m => madvise_dontneed m obj n).
Definition free_original (obj : Z) : SM unit :=
  inLos ← gets (fun w => FreeListSpace.Contains (los w) obj);
  inRos ← gets (fun w => contains (ros w) obj);
  if (inLos : bool) then FreeFromLargeObjectSpace obj
  else if (inRos : bool) then FreeFromRosAllocSpace obj
  else abort.
Definition pages_of (objSize : Z) : Z := objSize / kPageSize + (if 0 <? objSize mod kPageSize then 1 else 0).
Definition create_stub (obj : Z) : SM unit :=
  isStub ← getm (fun m => GetStubFlag m obj);
  check (negb isStub);;
  c ← gets (fun w => objectInSwappableSpace w obj);
  check c;;
  '(stubSize, m) ← try (fun w => GetStubSize ct (w_mem w) obj);
  modify (set_w_mem m);;
  stubData ← in_ros (allocate stubSize);
  match stubData with
  | None => abort                                 (* CHECK(stubData != nullptr) *)
  | Some (stub, _) =>
      '(entry, t) ← try (fun w => CreateEntry (recTable w));
      modify (set_recTable t);;
      (* a null entry is not tested for *)
      p ← gets (fun w => match entry with Some i => entry_address (recTable w) i | None => 0 end);
      modm (fun m => SetTableEntry m stub p);;
      LockTableEntry stub;;
      '(m, t) ← try (fun w => PopulateFrom ct (w_mem w) (recTable w) stub obj);
      modify (set_w_mem m);;
      modify (set_recTable t);;
      objSize ← sized obj;
      copy ← in_swappedInSpace (FreeListSpace.Alloc temp_addr objSize);
      match copy with
      | None => abort                             (* CHECK(objCopy != nullptr) *)
      | Some (objCopy, _) =>
          modm (fun m => memcpy m objCopy obj objSize);;
          free_original obj;;
          modify (fun w => set_remappingTable (<[obj := stub]> (remappingTable w)) w);;
          p ← stub_entry stub;
          with_entry p (fun e => RTE_SetObjectAddress e objCopy);;
          with_entry p SetResidentBit;;
          with_entry p (fun e => SetNumPages e (pages_of objSize));;
          UnlockTableEntry stub
      end
  end.
Definition clear_write_queue : SM unit :=
  modify (set_writeQueue []);; modify (set_writeSet ∅).
Definition CreateStubs : SM unit :=
  enabled ← gets swapEnabled;
  when enabled (
    empty ← gets (fun w => bool_decide (remappingTable w = ∅));
    check empty;;
    modify (fun w => set_createStubSet
      (filter (fun o => GetNoSwapFlag (w_mem w) o = false) (createStubSet w)) w);;
    modify (set_creatingStubs true);;
    objects ← gets (fun w => iter_set (createStubSet w));
    mfor objects create_stub;;
    patchStubReferences;;
    modify (set_remappingTable ∅);;
    modify (set_createStubSet ∅);;
    modify (set_creatingStubs false);;
    clear_write_queue).

(** ** Reclamation *)
Definition doKernelReclamationChecks (p : Z) : SM bool :=
  e ← entry_at p;
  if negb (GetOccupiedBit e) then mret false
  else if 0 <? GetAppLockCounter e then mret false
  else if negb (GetResidentBit e) then mret false
  else
    let obj := RTE_GetObjectAddress e in
    check (negb (obj =? 0));;
    isDirty ← getm (fun m => GetDirtyBit m obj);
    if (isDirty : bool) then mret false
    else
      wsrVal ← getm (fun m => GetWriteShiftRegister m obj);
      wasWritten ← getm (fun m => GetWriteBit m obj);
      mret (objectIsCold wsrVal wasWritten).
Definition reclaim_entry (p : Z) : SM unit :=
  firstCheck ← doKernelReclamationChecks p;
  when firstCheck (
    with_entry p SetKernelLockBit;;
    secondCheck ← doKernelReclamationChecks p;
    when secondCheck (
      e ← entry_at p;
      let obj := RTE_GetObjectAddress e in
      c ← gets (fun w => FreeListSpace.Contains (swappedInSpace w) obj);
      check c;;
      modm (fun m => madvise_dontneed m obj (GetNumPages e * kPageSize));;
      with_entry p ClearResidentBit);;
    with_entry p ClearKernelLockBit).
Definition SwapObjectsOut : SM unit :=
  enabled ← gets swapEnabled;
  when enabled (
    ps ← gets (fun w => entry_pointers (recTable w));
    mfor ps reclaim_entry).

(** ** The semi-space collector *)
Definition RecordForwardedObject (obj forwardAddress : Z) : SM unit :=
  enabled ← gets swapEnabled;
  when enabled (
    known ← gets (fun w => bool_decide (is_Some (objectOffsetMap w !! obj)));
    when known (modify (fun w =>
      set_semiSpaceRemappingTable (<[obj := forwardAddress]> (semiSpaceRemappingTable w)) w))).
Definition record_stub (k : Z) : SM unit :=
  isStub ← getm (fun m => GetStubFlag m k);
  when isStub (
    p ← stub_entry k;
    modify (fun w => set_stubRTEMap (<[k := p]> (stubRTEMap w)) w)).
Definition SemiSpaceRecordStubMappings : SM unit :=
  enabled ← gets swapEnabled;
  when enabled (
    empty ← gets (fun w => bool_decide (stubRTEMap w = ∅));
    check empty;;
    keys ← gets (fun w => (iter_map (objectOffsetMap w)).*1);
    mfor keys record_stub).
Definition SemiSpaceUpdateDataStructures : SM unit :=
  enabled ← gets swapEnabled;
  when enabled (
    table ← gets semiSpaceRemappingTable;
    replaceDataStructurePointers table true;;
    modify (set_semiSpaceRemappingTable ∅)).

(** ** Compaction of the swap file *)

(** One round of the loop: the object's bytes are copied from the old file to
    the end of the new one. *)
Record compaction := mkCompaction {
  c_old : stream;
  c_new : stream;
  c_sizes : gmap Z Z;                    (* objectSizeMap *)
  c_map : gmap Z Z;                      (* newObjectOffsetMap *)
  c_objects : Z;
  c_size : Z;
  c_error : bool
}.
Definition compact_one (c : compaction) (kv : Z * Z) : compaction :=
  let '(object, oldPos) := kv in
  if c_error c then c                    (* break *)
  else
    let objectSize := default 0 (c_sizes c !! object) in
    let '(objectData, old) := stream_read (stream_seek (c_old c) oldPos) objectSize in
    (* a short read leaves the rest of the buffer as it was allocated *)
    let objectData := objectData ++ replicate (Z.to_nat objectSize - length objectData) 0 in
    let newPos := tellp (c_new c) in
    let new := stream_write capacity (c_new c) objectData in
    mkCompaction old new (<[object := objectSize]> (c_sizes c)) (<[object := newPos]> (c_map c))
      (i32 (c_objects c + 1))
      (i32 (c_size c + objectSize)) (checkStreamError old || checkStreamError new).

(** [copyFile], with the results of its system calls as arguments; the result of
    [remove] is only logged. *)
Definition copyFile (stat_ret open_from open_to sendfile_ret close_from close_to chmod_ret : Z) : bool :=
  let copyingError := false in
  let copyingError := if stat_ret <? 0 then true else copyingError in
  let copyingError := if open_from <? 0 then true else copyingError in
  let copyingError := if open_to <? 0 then true else copyingError in
  let copyingError := if sendfile_ret <? 0 then true else copyingError in
  let copyingError := if close_from <? 0 then true else copyingError in
  let copyingError := if close_to <? 0 then true else copyingError in
  let copyingError := if chmod_ret <? 0 then true else copyingError in
  copyingError.

(** [copied] is what [copyFile] leaves in the old swap file, if anything; what it
    returns is only logged. *)
Definition CompactSwapFile (copied : list Z -> option (list Z)) : SM unit :=
  enabled ← gets swapEnabled;
  check enabled;;
  modify (set_freedObjects 0);;
  modify (set_freedSize 0);;
  modify (fun w =>
    let file := st_bytes (swapfile w) in
    let old := openFileIn (copied file) in
    let new := openFile in
    let c := foldl compact_one
               (mkCompaction old new (objectSizeMap w) ∅ 0 0
                  (checkStreamError old || checkStreamError new))
               (iter_map (objectOffsetMap w)) in
    set_swapfileObjects (c_objects c) (set_swapfileSize (c_size c)
      (set_objectOffsetMap (c_map c) (set_objectSizeMap (c_sizes c)
        (set_swapfile (openFileAppend (Some (st_bytes (c_new c)))) w))))).

(** [validateSwapFile]: whether it reports an error.  The loop goes on after an
    error, and [objectSizeMap[object]] inserts a missing object. *)
Definition validate_one (err : bool) (kv : Z * Z) : SM bool :=
  let '(object, offset) := kv in
  known ← gets (fun w => bool_decide (is_Some (objectSizeMap w !! object)));
  objectSize ← index_size object;
  in_stream (fun s => (tt, stream_seek s offset));;
  e1 ← gets (fun w => checkStreamError (swapfile w));
  in_stream (fun s => stream_read s objectSize);;
  e2 ← gets (fun w => checkStreamError (swapfile w));
  mret (err || negb known || e1 || e2 || (objectSize <? 16)).
Fixpoint validate_all (err : bool) (kvs : list (Z * Z)) : SM bool :=
  match kvs with
  | [] => mret err
  | kv :: kvs => err ← validate_one err kv; validate_all err kvs
  end.
Definition validateSwapFile : SM bool :=
  sizes_differ ← gets (fun w => negb (bool_decide (size (objectOffsetMap w) = size (objectSizeMap w))));
  curPos ← gets (fun w => tellp (swapfile w));
  e0 ← gets (fun w => checkStreamError (swapfile w));
  kvs ← gets (fun w => iter_map (objectOffsetMap w));
  err ← validate_all (sizes_differ || e0) kvs;
  in_stream (fun s => (tt, stream_seek s curPos));;
  e1 ← gets (fun w => checkStreamError (swapfile w));
  mret (err || e1).

(** ** Tasks *)
Definition ask (r : heap_request) : SM unit := modify (fun w => set_requests (r :: requests w) w).
(** [running] is taskProcessor != nullptr && taskProcessor->IsRunning(). *)
Definition scheduleNextTask (nanoTime : Z) (running ioError : bool) : SM unit :=
  fg ← gets appInForeground;
  let waitTime := if (fg : bool) then WRITE_TASK_FG_WAIT_TIME else WRITE_TASK_BG_WAIT_TIME in
  let targetTime := u64 (nanoTime + waitTime) in
  when (running && negb ioError) (
    (if (fg : bool) then ask RequestConcurrentGC
     else
       n ← gets bgMarkSweepCounter;
       if BG_MARK_SWEEPS_BEFORE_SEMI_SPACE <=? n then
         ask PerformHomogeneousSpaceCompact;; modify (set_bgMarkSweepCounter 0)
       else
         ask RequestConcurrentGC;; modify (set_bgMarkSweepCounter (i32 (n + 1))));;
    ask (AddWriteTask targetTime)).

(** (double)freedSize / swapfileSize > COMPACT_THRESHOLD (0.25) *)
Definition needs_compaction (freed total : Z) : bool :=
  ((0 <? total) && (total <? 4 * freed)) || ((total <? 0) && (4 * freed <? total))
  || ((total =? 0) && (0 <? freed)).
(** The loop of [WriteTask::Run], with [rounds] rounds before its time is up. *)
Fixpoint write_queued (rounds : nat) : SM bool :=
  match rounds with
  | O => mret false
  | S rounds =>
      queue ← gets writeQueue;
      match queue with
      | [] => mret false
      | object :: rest =>
          modify (set_writeQueue rest);;
          modify (fun w => set_writeSet (writeSet w ∖ {[ object ]}) w);;
          r ← writeToSwapFile object;
          if (r.2 : bool) then mret true else write_queued rounds
      end
  end.
Definition WriteTask_Run (rounds : nat) (copied : list Z -> option (list Z)) (nanoTime : Z)
    (running : bool) : SM unit :=
  enabled ← gets swapEnabled;
  check enabled;;
  ioError ← write_queued rounds;
  compact ← gets (fun w => needs_compaction (freedSize w) (swapfileSize w));
  when compact (CompactSwapFile copied;; validateSwapFile;; mret tt);;
  scheduleNextTask nanoTime running ioError.

(** [InitIfNecessary]: [mapped] and [table] are what [mmap] returned for the
    space and for the reclamation table. *)
Definition InitIfNecessary (curPid : Z) (running blacklisted : bool) (mapped table : option Z)
    (nanoTime : Z) : SM unit :=
  pid0 ← gets pid;
  if curPid =? pid0 then mret tt
  else if negb running then mret tt
  else
    modify (set_pid curPid);;
    modify (set_objectOffsetMap ∅);;
    modify (set_objectSizeMap ∅);;
    clear_write_queue;;
    if (blacklisted : bool) then mret tt
    else
      modify (set_swapfile openFile);;
      in_stream (fun s => (tt, stream_write capacity s
        ((fun i => u8 (curPid / 2 ^ (8 * Z.of_nat i))) <$> seq 0 4)));;
      ioError ← gets (fun w => checkStreamError (swapfile w));
      if (ioError : bool) then mret tt
      else
        s ← try (fun _ => FreeListSpace.Create mapped true (SWAPPED_IN_SPACE_SIZE commercial_compat));
        modify (set_swappedInSpace s);;
        if negb (FreeListSpace.begin_ s =? SWAPPED_IN_SPACE_START) then mret tt
        else
          modify (set_recTable (CreateTable table REC_TABLE_NUM_ENTRIES));;
          t ← gets recTable;
          if negb (IsValid t) then mret tt
          else
            modify (set_swapEnabled true);;
            ask (AddWriteTask (u64 (nanoTime + WRITE_TASK_STARTUP_DELAY))).
End Swap.
