(* ===== verification/SwapFile.v ===== *)
(** The swap file: what compaction, validation and the two ways of writing do
    to the snapshots it holds. *)
From stdpp Require Import prelude gmap list.
From Stdlib Require Import ZArith Lia.
From S2P Require Import Prelude Bits Mem ObjectHeader Mirror ReclamationTable Stub Stream.
From S2P Require Import Allocator LargeObjectSpace SwapState Swap.
Open Scope Z_scope.

(** ** The file and its maps

    [file_ok]: the stream is usable and positioned at the end of the file, and
    every object of the maps lies within the file. *)
Definition snapshot (bs : list Z) (offsets sizes : gmap Z Z) (k : Z) : option (list Z) :=
  pos ← offsets !! k; n ← sizes !! k; Some (bytes_at bs pos n).

Record file_ok (s : stream) (offsets sizes : gmap Z Z) : Prop := {
  fo_good : st_fail s = false;
  fo_end : st_pos s = stream_size s;
  fo_dom : dom offsets = dom sizes;
  fo_range k pos n : offsets !! k = Some pos -> sizes !! k = Some n ->
    0 <= pos /\ 0 <= n /\ pos + n <= stream_size s;
  fo_disjoint k k' pos n pos' n' : k <> k' ->
    offsets !! k = Some pos -> sizes !! k = Some n ->
    offsets !! k' = Some pos' -> sizes !! k' = Some n' ->
    pos + n <= pos' \/ pos' + n' <= pos
}.

(** ** Compaction *)
Definition size_sum (sizes : gmap Z Z) (kvs : list (Z * Z)) : Z :=
  foldr (fun kv acc => default 0 (sizes !! kv.1) + acc) 0 kvs.

Lemma compact_step capacity sizes c k pos n F :
  c_error c = false -> c_sizes c = sizes -> st_bytes (c_old c) = F -> st_fail (c_old c) = false ->
  st_fail (c_new c) = false -> st_pos (c_new c) = stream_size (c_new c) ->
  sizes !! k = Some n -> 0 <= pos -> 0 <= n -> pos + n <= Z.of_nat (length F) ->
  stream_size (c_new c) + n <= capacity ->
  let d := bytes_at F pos n in
  compact_one capacity c (k, pos) =
  mkCompaction (mkStream F (pos + n) false)
    (mkStream (splice (st_bytes (c_new c)) (stream_size (c_new c)) d) (stream_size (c_new c) + n) false) sizes
    (<[k := stream_size (c_new c)]> (c_map c)) (i32 (c_objects c + 1)) (i32 (c_size c + n)) false.
Proof.
  intros He Hc HF Hof Hnf Hnp Hk Hpos Hn Hl Hcap d. unfold compact_one. rewrite He, Hc, Hk. simpl.
  rewrite (seek_ok _ _ Hof Hpos), HF. rewrite read_ok by (simpl; done). simpl.
  assert (Hd : length d = Z.to_nat n) by (by apply length_bytes_at). fold d.
  rewrite Hd, Nat.sub_diag. simpl. rewrite app_nil_r. unfold tellp. rewrite Hnf, Hnp.
  rewrite write_ok; [|done | rewrite Hnp, Hd; lia]. rewrite Hd, Hnp, Z2Nat.id by done. by rewrite insert_id.
Qed.

(** What the loop of [CompactSwapFile] has done after the objects [kvs]. *)
Record compacted (capacity : Z) (F : list Z) (sizes : gmap Z Z) (kvs : list (Z * Z))
    (c c' : compaction) : Prop := {
  cp_error : c_error c' = false;
  cp_sizes : c_sizes c' = sizes;
  cp_new : st_fail (c_new c') = false /\ st_pos (c_new c') = stream_size (c_new c');
  cp_size : stream_size (c_new c') = stream_size (c_new c) + size_sum sizes kvs;
  cp_keep p m : 0 <= p -> 0 <= m -> p + m <= stream_size (c_new c) ->
    bytes_at (st_bytes (c_new c')) p m = bytes_at (st_bytes (c_new c)) p m;
  cp_moved k pos n : (k, pos) ∈ kvs -> sizes !! k = Some n ->
    exists np, c_map c' !! k = Some np /\ stream_size (c_new c) <= np /\
      np + n <= stream_size (c_new c') /\
      bytes_at (st_bytes (c_new c')) np n = bytes_at F pos n;
  cp_other k : k ∉ kvs.*1 -> c_map c' !! k = c_map c !! k;
  cp_disjoint k k' n n' np np' : k <> k' -> k ∈ kvs.*1 -> k' ∈ kvs.*1 ->
    sizes !! k = Some n -> sizes !! k' = Some n' ->
    c_map c' !! k = Some np -> c_map c' !! k' = Some np' -> np + n <= np' \/ np' + n' <= np
}.

Lemma stream_size_nonneg s : 0 <= stream_size s.
Proof. unfold stream_size. lia. Qed.

Lemma size_sum_nonneg sizes kvs :
  (forall k pos, (k, pos) ∈ kvs -> exists n, sizes !! k = Some n /\ 0 <= n) -> 0 <= size_sum sizes kvs.
Proof.
  induction kvs as [|[k pos] kvs IH]; intros H; simpl; [lia|].
  destruct (H k pos) as (n & -> & Hn); [by constructor|]. simpl.
  assert (0 <= size_sum sizes kvs); [|lia]. apply IH. intros k' pos' Hin. apply (H k' pos'). by constructor.
Qed.

Lemma compact_fold capacity F sizes kvs : forall c,
  c_error c = false -> c_sizes c = sizes -> st_bytes (c_old c) = F -> st_fail (c_old c) = false ->
  st_fail (c_new c) = false -> st_pos (c_new c) = stream_size (c_new c) ->
  NoDup kvs.*1 ->
  (forall k pos, (k, pos) ∈ kvs -> exists n, sizes !! k = Some n /\ 0 <= pos /\ 0 <= n /\
     pos + n <= Z.of_nat (length F)) ->
  stream_size (c_new c) + size_sum sizes kvs <= capacity ->
  compacted capacity F sizes kvs c (foldl (compact_one capacity) c kvs).
Proof.
  induction kvs as [|[k pos] kvs IH]; intros c He Hc HF Hof Hnf Hnp Hnd Hin Hcap.
  - split; simpl; try done; try lia; try (intros; by rewrite ?elem_of_nil in *).
  - simpl in Hnd. apply NoDup_cons in Hnd as [Hni Hnd].
    destruct (Hin k pos) as (n & Hk & Hpos & Hn & Hl); [by constructor|].
    assert (Hrest : forall k' pos', (k', pos') ∈ kvs -> exists n, sizes !! k' = Some n /\ 0 <= pos' /\ 0 <= n /\
     pos' + n <= Z.of_nat (length F)) by (intros k' pos' H; apply Hin; by constructor).
    assert (Hsum : 0 <= size_sum sizes kvs).
    { apply size_sum_nonneg. intros k' pos' H. destruct (Hrest k' pos' H) as (n' & ? & ? & ? & ?). eauto. }
    simpl in Hcap. rewrite Hk in Hcap. simpl in Hcap.
    pose proof (compact_step capacity sizes c k pos n F He Hc HF Hof Hnf Hnp Hk Hpos Hn Hl ltac:(lia)) as Hstep.
    cbn [foldl]. rewrite Hstep. set (c1 := mkCompaction _ _ _ _ _ _ _).
    assert (Hd : Z.of_nat (length (bytes_at F pos n)) = n)
      by (rewrite length_bytes_at, Z2Nat.id by done; done).
    pose proof (stream_size_nonneg (c_new c)) as Hs0.
    assert (Hsz : stream_size (c_new c1) = stream_size (c_new c) + n).
    { unfold c1, stream_size at 1. simpl. rewrite length_splice by done. rewrite Hd. fold (stream_size (c_new c)). lia. }
    destruct (IH c1) as [E1 E1' [E2 E3] E4 E5 E6 E7 E8]; try done; [lia|].
    split.
    + done.
    + done.
    + done.
    + rewrite E4, Hsz. simpl. rewrite Hk. simpl. lia.
    + intros p m Hp Hm Hpm. rewrite E5 by lia. unfold c1; simpl. apply splice_other; try done. lia.
    + intros k' pos' n' Hin' Hk'. apply elem_of_cons in Hin' as [[= -> ->]|Hin'].
      * rewrite Hk in Hk'. injection Hk' as <-. exists (stream_size (c_new c)).
        rewrite E7 by done. unfold c1 at 1; simpl. rewrite lookup_insert_eq. split_and!; [done | lia | lia |].
        rewrite E5 by lia. unfold c1; simpl. rewrite <- Hd at 2. by apply splice_same.
      * destruct (E6 k' pos' n' Hin' Hk') as (np & ? & ? & ? & ?). exists np. split_and!; try done. lia.
    + intros k' Hk'. simpl in Hk'. apply not_elem_of_cons in Hk' as [Hne Hk'].
      rewrite E7 by done. unfold c1; simpl. by rewrite lookup_insert_ne.
    + assert (Hfirst : forall k' n' np', k' ∈ kvs.*1 -> sizes !! k' = Some n' ->
        c_map (foldl (compact_one capacity) c1 kvs) !! k' = Some np' ->
        stream_size (c_new c) + n <= np').
      { intros k' n' np' Hin' Hk' Hnp'. apply list_elem_of_fmap in Hin' as ([k'' pos'] & -> & Hin').
        destruct (E6 k'' pos' n' Hin' Hk') as (np & Hnp2 & ? & _). simpl in Hnp'. rewrite Hnp2 in Hnp'.
        injection Hnp' as <-. lia. }
      assert (Hk0 : c_map (foldl (compact_one capacity) c1 kvs) !! k = Some (stream_size (c_new c))).
      { rewrite E7 by done. unfold c1; simpl. apply lookup_insert_eq. }
      simpl. intros k1 k2 n1 n2 np1 np2 Hne H1 H2 Hn1 Hn2 Hp1 Hp2.
      apply elem_of_cons in H1 as [->|H1]; apply elem_of_cons in H2 as [->|H2].
      * done.
      * left. rewrite Hk0 in Hp1. injection Hp1 as <-. rewrite Hk in Hn1. injection Hn1 as <-. eauto.
      * right. rewrite Hk0 in Hp2. injection Hp2 as <-. rewrite Hk in Hn2. injection Hn2 as <-. eauto.
      * eauto.
Qed.

(** ** Copying *)

(** [copyFile] returns the opposite of what its comment says. It returns
    true exactly when one of its system calls failed, so that a copy made
    without an error is reported as false. *)
Theorem copyFile_true_on_error stat_ret open_from open_to sendfile_ret close_from close_to chmod_ret :
  copyFile stat_ret open_from open_to sendfile_ret close_from close_to chmod_ret = true <->
  exists r, r ∈ [stat_ret; open_from; open_to; sendfile_ret; close_from; close_to; chmod_ret] /\ r < 0.
Proof.
  unfold copyFile. split.
  - intros H. repeat match type of H with context [?a <? 0] => destruct (Z.ltb_spec a 0) end; try done;
      match goal with H : ?a < 0 |- _ => exists a; split; [set_solver | done] end.
  - intros (r & Hin & Hr). repeat match goal with |- context [?a <? 0] => destruct (Z.ltb_spec a 0) end; try done.
    exfalso. rewrite !elem_of_cons, elem_of_nil in Hin. lia.
Qed.

Section File.
Context {R : Type} (capacity : Z).
Implicit Types w : world R.

Definition file_of (w : world R) : list Z := st_bytes (swapfile w).
Definition snapshot_of (w : world R) (k : Z) : option (list Z) :=
  snapshot (file_of w) (objectOffsetMap w) (objectSizeMap w) k.
Definition swapfile_ok (w : world R) : Prop :=
  file_ok (swapfile w) (objectOffsetMap w) (objectSizeMap w).

Lemma file_ok_sizes s offsets sizes k pos :
  file_ok s offsets sizes -> offsets !! k = Some pos -> exists n, sizes !! k = Some n.
Proof.
  intros Hf Hk. assert (k ∈ dom sizes) as Hd by (rewrite <- (fo_dom _ _ _ Hf); by eapply elem_of_dom_2).
  by apply elem_of_dom in Hd.
Qed.

Lemma snapshot_some bs offsets sizes k pos n :
  offsets !! k = Some pos -> sizes !! k = Some n -> snapshot bs offsets sizes k = Some (bytes_at bs pos n).
Proof. unfold snapshot. intros -> ->. done. Qed.

Lemma bind_in_stream {A B} (f : stream -> A * stream) (k : A -> M (world R) B) w :
  (in_stream f ≫= k) w = k (f (swapfile w)).1 (set_swapfile (f (swapfile w)).2 w).
Proof. done. Qed.

(** ** Writing *)
Lemma write_first_done w key n data :
  swapfile_ok w -> objectOffsetMap w !! key = None -> Z.of_nat (length data) = n ->
  stream_size (swapfile w) + n <= capacity ->
  exists w', write_first capacity key n data w = Done (false, w') /\ swapfile_ok w' /\
    snapshot_of w' key = Some data /\
    (forall k, k <> key -> snapshot_of w' k = snapshot_of w k) /\
    w_mem w' = w_mem w /\ recTable w' = recTable w.
Proof.
  intros Hf Hk Hd Hcap. unfold write_first, in_stream.
  rewrite bind_gets. unfold tellp. rewrite (fo_good _ _ _ Hf).
  erewrite bind_done; [|reflexivity].
  rewrite bind_gets, !bind_modify. simpl.
  rewrite write_ok by (rewrite ?(fo_good _ _ _ Hf), ?(fo_end _ _ _ Hf), ?Hd; done || lia).
  rewrite (fo_end _ _ _ Hf), Hd. eexists. split; [reflexivity|].
  pose proof (stream_size_nonneg (swapfile w)) as Hs0.
  unfold swapfile_ok, snapshot_of, file_of; simpl.
  assert (Hsz : Z.of_nat (length (splice (st_bytes (swapfile w)) (stream_size (swapfile w)) data)) =
    stream_size (swapfile w) + n) by (rewrite length_splice, Hd; unfold stream_size in *; lia).
  assert (Hsk : objectSizeMap w !! key = None).
  { apply not_elem_of_dom. rewrite <- (fo_dom _ _ _ Hf). by apply not_elem_of_dom. }
  split_and!; [split; simpl | | | done | done].
  - done.
  - unfold stream_size at 2. simpl. lia.
  - by rewrite !dom_insert_L, (fo_dom _ _ _ Hf).
  - intros k pos m Hp Hm. unfold stream_size at 1. simpl. rewrite Hsz.
    destruct (decide (k = key)) as [->|Hne].
    + rewrite lookup_insert_eq in Hp, Hm. simplify_eq. lia.
    + rewrite lookup_insert_ne in Hp, Hm by done. pose proof (fo_range _ _ _ Hf k pos m Hp Hm). lia.
  - intros k k' pos m pos' m' Hne Hp Hm Hp' Hm'.
    destruct (decide (k = key)) as [->|Hk1]; destruct (decide (k' = key)) as [->|Hk2]; try done;
      rewrite ?lookup_insert_eq in *; rewrite ?lookup_insert_ne in * by done; simplify_eq.
    + right. pose proof (fo_range _ _ _ Hf k' pos' m' Hp' Hm'). lia.
    + left. pose proof (fo_range _ _ _ Hf k pos m Hp Hm). lia.
    + by eapply (fo_disjoint _ _ _ Hf k k').
  - erewrite snapshot_some; [|apply lookup_insert_eq..]. f_equal. rewrite <- Hd. by apply splice_same.
  - intros k Hne. unfold snapshot. rewrite !lookup_insert_ne by done.
    destruct (objectOffsetMap w !! k) as [pos|] eqn:Ep; [|done]. simpl.
    destruct (objectSizeMap w !! k) as [m|] eqn:Em; [|done]. simpl. f_equal.
    destruct (fo_range _ _ _ Hf k pos m Ep Em) as (? & ? & ?).
    apply splice_other; try done; unfold stream_size in *; lia.
Qed.

Lemma index_known w k v :
  (objectOffsetMap w !! k = Some v -> index_offset k w = Done (v, w)) /\
  (objectSizeMap w !! k = Some v -> index_size k w = Done (v, w)).
Proof.
  split; intros H; unfold index_offset, index_size; rewrite bind_gets, bind_modify, H; simpl;
    rewrite insert_id by done; by destruct w.
Qed.

Lemma write_again_done w key off n data :
  swapfile_ok w -> objectOffsetMap w !! key = Some off -> objectSizeMap w !! key = Some n ->
  Z.of_nat (length data) = n -> off + n <= capacity ->
  exists w', write_again capacity key n data w = Done ((SWAPFILE_WRITE_OK, false), w') /\
    w' = set_swapfile (mkStream (splice (file_of w) off data) (stream_size (swapfile w)) false) w /\
    swapfile_ok w' /\ snapshot_of w' key = Some data /\
    (forall k, k <> key -> snapshot_of w' k = snapshot_of w k).
Proof.
  intros Hf Hk Hs Hd Hcap. unfold write_again, in_stream.
  destruct (fo_range _ _ _ Hf key off n Hk Hs) as (Ho & Hn & Hl).
  rewrite (bind_done _ _ _ _ _ (proj1 (index_known w key off) Hk)).
  rewrite (bind_done _ _ _ _ _ (proj2 (index_known w key n) Hs)), Z.eqb_refl. cbn [negb].
  rewrite bind_gets. unfold tellp. rewrite (fo_good _ _ _ Hf).
  erewrite bind_done; [|reflexivity]. rewrite (seek_ok _ _ (fo_good _ _ _ Hf) Ho).
  erewrite bind_done; [|reflexivity]. simpl swapfile.
  rewrite write_ok by (simpl; rewrite ?Hd; done || lia). rewrite bind_gets.
  erewrite bind_done; [|reflexivity]. simpl swapfile.
  pose proof (stream_size_nonneg (swapfile w)) as Hs0.
  rewrite seek_ok by (simpl; rewrite ?(fo_end _ _ _ Hf); done). simpl. rewrite (fo_end _ _ _ Hf).
  eexists. split; [reflexivity|]. split; [by destruct w|].
  assert (Hsz : Z.of_nat (length (splice (st_bytes (swapfile w)) off data)) = stream_size (swapfile w))
    by (rewrite length_splice by done; rewrite Hd; unfold stream_size in *; lia).
  unfold swapfile_ok, snapshot_of, file_of; simpl. split_and!; [split; simpl | |].
  - done.
  - unfold stream_size at 2. simpl. lia.
  - apply (fo_dom _ _ _ Hf).
  - intros k pos m Hp Hm. unfold stream_size; simpl. rewrite Hsz. by apply (fo_range _ _ _ Hf k).
  - apply (fo_disjoint _ _ _ Hf).
  - rewrite (snapshot_some _ _ _ _ _ _ Hk Hs). f_equal. rewrite <- Hd. by apply splice_same.
  - intros k Hne. unfold snapshot. destruct (objectOffsetMap w !! k) as [pos|] eqn:Ep; [|done]. simpl.
    destruct (objectSizeMap w !! k) as [m|] eqn:Em; [|done]. simpl. f_equal.
    destruct (fo_range _ _ _ Hf k pos m Ep Em) as (? & ? & ?).
    apply splice_other; try done. rewrite Hd.
    by eapply (fo_disjoint _ _ _ Hf k key).
Qed.

(** ** Validation *)

(** An object of the maps that validation has nothing to say about. *)
Definition valid_entry (w : world R) (k pos : Z) : Prop :=
  exists n, objectSizeMap w !! k = Some n /\ 16 <= n /\ 0 <= pos /\ pos + n <= stream_size (swapfile w).

Lemma validate_one_spec w k pos :
  st_fail (swapfile w) = false ->
  (valid_entry w k pos -> exists p, validate_one false (k, pos) w = Done (false, set_swapfile (mkStream (file_of w) p false) w)) /\
  (forall w', validate_one false (k, pos) w = Done (false, w') -> valid_entry w k pos).
Proof.
  intros Hg. unfold validate_one. rewrite bind_gets.
  destruct (objectSizeMap w !! k) as [n|] eqn:Hn.
  - rewrite (bind_done _ _ _ _ _ (proj2 (index_known w k n) Hn)).
    rewrite bind_in_stream, bind_gets, bind_in_stream, bind_gets. simpl.
    unfold stream_seek, stream_read, checkStreamError, bytes_at, valid_entry, stream_size, file_of. rewrite Hg.
    destruct (Z.ltb_spec pos 0); simpl.
    + split; [intros (? & ? & ? & ? & ?); lia | by intros w' [= ]].
    + destruct (Z.eqb_spec (Z.of_nat (length (take (Z.to_nat n) (drop (Z.to_nat pos) (st_bytes (swapfile w)))))) n)
        as [E|E]; rewrite length_take, length_drop in E; simpl.
      * destruct (Z.ltb_spec n 16); simpl.
        -- split; [intros (n' & Hn' & ? & ?); simplify_eq; lia | by intros w' [= ]].
        -- split; [eauto|]. intros w' _. exists n. split_and!; [done | lia | lia | lia].
      * split; [|by intros w' [= ]]. intros (n' & Hn' & ? & ? & ?). simplify_eq. lia.
  - split; [intros (n & Hn' & _); congruence|]. intros w'.
    rewrite bool_decide_eq_false_2 by (by intros [? ?]).
    unfold index_size. rewrite !bind_assoc, bind_gets, !bind_assoc, bind_modify, bind_ret.
    rewrite bind_in_stream, bind_gets, bind_in_stream, bind_gets. by intros [= ].
Qed.

Lemma validate_all_error kvs w w' : validate_all true kvs w <> Done (false, w').
Proof.
  revert w; induction kvs as [|[k pos] kvs IH]; intros w H; [done|].
  cbn [validate_all] in H. unfold validate_one, index_size, in_stream in H.
  rewrite !bind_assoc in H. cbn in H. by apply IH in H.
Qed.

Lemma valid_entry_moved w p k pos :
  valid_entry (set_swapfile (mkStream (file_of w) p false) w) k pos <-> valid_entry w k pos.
Proof. done. Qed.

Lemma validate_all_spec kvs w :
  st_fail (swapfile w) = false ->
  ((forall k pos, (k, pos) ∈ kvs -> valid_entry w k pos) ->
   exists p, validate_all false kvs w = Done (false, set_swapfile (mkStream (file_of w) p false) w)) /\
  (forall w', validate_all false kvs w = Done (false, w') ->
   forall k pos, (k, pos) ∈ kvs -> valid_entry w k pos).
Proof.
  revert w; induction kvs as [|[k pos] kvs IH]; intros w Hg.
  - split; [|intros ? _ ? ? H%elem_of_nil; done]. intros _. exists (st_pos (swapfile w)).
    cbn. unfold file_of. rewrite <- Hg. by destruct w as [? ? ? ? ? []].
  - destruct (validate_one_spec w k pos Hg) as [Hok Hsound]. split.
    + intros H. destruct (Hok (H k pos ltac:(by constructor))) as [p Hp].
      cbn [validate_all]. rewrite (bind_done _ _ _ _ _ Hp).
      destruct (IH (set_swapfile (mkStream (file_of w) p false) w)) as [IH1 _]; [done|].
      destruct IH1 as [p' Hp']; [|exists p'; exact Hp'].
      intros k' pos' Hin. apply valid_entry_moved, H. by constructor.
    + intros w' H. cbn [validate_all] in H. unfold mbind, M_bind in H.
      destruct (validate_one false (k, pos) w) as [[[] w1]| | |] eqn:E; try done.
      * by apply validate_all_error in H.
      * assert (Hv : valid_entry w k pos) by (by eapply Hsound).
        destruct (Hok Hv) as [p Hp]. injection Hp as ->.
        destruct (IH (set_swapfile (mkStream (file_of w) p false) w)) as [_ IH2]; [done|].
        intros k' pos' Hin. apply elem_of_cons in Hin as [[= -> ->]|Hin]; [done|].
        apply (valid_entry_moved w p). by eapply IH2.
Qed.

Record valid_world (w : world R) : Prop := {
  vw_good : st_fail (swapfile w) = false;
  vw_sizes : size (objectOffsetMap w) = size (objectSizeMap w);
  vw_entries k pos : objectOffsetMap w !! k = Some pos -> valid_entry w k pos
}.

Lemma validate_complete w :
  0 <= st_pos (swapfile w) -> valid_world w -> validateSwapFile w = Done (false, w).
Proof.
  intros Hpos [Hg Hs Hv]. unfold validateSwapFile. rewrite !bind_gets. unfold checkStreamError, tellp.
  rewrite Hg, orb_false_r, (bool_decide_eq_true_2 _ Hs). cbn [negb].
  destruct (validate_all_spec (iter_map (objectOffsetMap w)) w Hg) as [Hok _].
  destruct Hok as [p Hp]; [intros k pos Hk; by apply Hv, elem_of_iter_map|].
  rewrite (bind_done _ _ _ _ _ Hp), bind_in_stream, bind_gets. cbn [fst snd]. rewrite seek_ok by done.
  unfold mret, M_ret. cbn. unfold file_of. rewrite <- Hg. by destruct w as [? ? ? ? ? []].
Qed.
Lemma validate_sound w w' : validateSwapFile w = Done (false, w') -> valid_world w.
Proof.
  unfold validateSwapFile. rewrite !bind_gets. intros H.
  unfold mbind at 1, M_bind at 1 in H.
  destruct (validate_all _ _ w) as [[[] w1]| | |] eqn:E; try done.
  destruct (_ || _) eqn:He in E; [by apply validate_all_error in E|].
  apply orb_false_elim in He as [Hs Hg]. apply negb_false_iff, bool_decide_eq_true_1 in Hs.
  split; [done | done |]. intros k pos Hk.
  destruct (validate_all_spec (iter_map (objectOffsetMap w)) w Hg) as [_ Hsound].
  eapply Hsound; [done|]. by apply elem_of_iter_map.
Qed.

(** On a consistent file, validation changes nothing, whatever it reports. *)
Lemma validate_all_done kvs : forall err w,
  st_fail (swapfile w) = false ->
  (forall k pos, (k, pos) ∈ kvs -> exists n, objectSizeMap w !! k = Some n /\ 0 <= pos /\ 0 <= n /\
     pos + n <= stream_size (swapfile w)) ->
  exists b p, validate_all err kvs w = Done (b, set_swapfile (mkStream (file_of w) p false) w).
Proof.
  induction kvs as [|[k pos] kvs IH]; intros err w Hg H.
  - exists err, (st_pos (swapfile w)). cbn. unfold file_of. rewrite <- Hg. by destruct w as [? ? ? ? ? []].
  - destruct (H k pos) as (n & Hn & H1 & H2 & H3); [by constructor|]. cbn [validate_all].
    assert (E : exists b, validate_one err (k, pos) w = Done (b, set_swapfile (mkStream (file_of w) (pos + n) false) w)).
    { unfold validate_one. rewrite bind_gets, (bind_done _ _ _ _ _ (proj2 (index_known w k n) Hn)).
      rewrite bind_in_stream, bind_gets, bind_in_stream, bind_gets. simpl.
      rewrite (seek_ok _ _ Hg H1), read_ok by done. eexists. reflexivity. }
    destruct E as [b E]. rewrite (bind_done _ _ _ _ _ E).
    destruct (IH b (set_swapfile (mkStream (file_of w) (pos + n) false) w)) as (b' & p & E'); [done| |].
    + intros k' pos' Hin. apply H. by constructor.
    + exists b', p. exact E'.
Qed.
Lemma validate_done w : swapfile_ok w -> exists b, validateSwapFile w = Done (b, w).
Proof.
  intros Hf. pose proof (fo_good _ _ _ Hf) as Hg. pose proof (fo_end _ _ _ Hf) as He.
  pose proof (stream_size_nonneg (swapfile w)). unfold validateSwapFile. rewrite !bind_gets. unfold tellp. rewrite Hg.
  edestruct (validate_all_done (iter_map (objectOffsetMap w))) as (b & p & E); [exact Hg | |].
  { intros k pos Hk%elem_of_iter_map. destruct (file_ok_sizes _ _ _ _ _ Hf Hk) as [n Hn].
    destruct (fo_range _ _ _ Hf k pos n Hk Hn) as (? & ? & ?). eauto 10. }
  rewrite (bind_done _ _ _ _ _ E), bind_in_stream, bind_gets. cbn [fst snd].
  rewrite seek_ok by (simpl; rewrite ?He; done). eexists. unfold mret, M_ret. cbn. unfold file_of.
  rewrite <- Hg at 2. by destruct w as [? ? ? ? ? []].
Qed.

(** ** Compaction of a state *)
Lemma compact_ok w copied :
  swapEnabled w = true -> swapfile_ok w -> copied (file_of w) = Some (file_of w) ->
  size_sum (objectSizeMap w) (iter_map (objectOffsetMap w)) <= capacity ->
  exists w', CompactSwapFile capacity copied w = Done (tt, w') /\ swapfile_ok w' /\
    (forall k, snapshot_of w' k = snapshot_of w k) /\
    stream_size (swapfile w') = size_sum (objectSizeMap w) (iter_map (objectOffsetMap w)) /\
    freedSize w' = 0 /\ w_mem w' = w_mem w.
Proof.
  intros He Hf Hc Hcap. unfold CompactSwapFile. rewrite bind_gets, He, bind_check by done.
  rewrite !bind_modify. eexists. split; [reflexivity|]. simpl.
  fold (file_of w). rewrite Hc. cbn [openFileIn checkStreamError openFile st_fail orb].
  destruct (compact_fold capacity (file_of w) (objectSizeMap w) (iter_map (objectOffsetMap w))
    (mkCompaction (mkStream (file_of w) 0 false) (mkStream [] 0 false) (objectSizeMap w) ∅ 0 0 false))
    as [E1 E1' [E2 E3] E4 E5 E6 E7 E8]; try done.
  { apply NoDup_iter_map. }
  { intros k pos Hk. apply elem_of_iter_map in Hk. destruct (file_ok_sizes _ _ _ _ _ Hf Hk) as [n Hn].
    destruct (fo_range _ _ _ Hf k pos n Hk Hn) as (? & ? & ?). exists n. split_and!; done. }
  set (c := foldl _ _ _) in *. unfold swapfile_ok, snapshot_of; simpl. rewrite E1'.
  assert (Hmap : forall k pos n, objectOffsetMap w !! k = Some pos -> objectSizeMap w !! k = Some n ->
    exists np, c_map c !! k = Some np /\ 0 <= np /\ np + n <= stream_size (c_new c) /\
      bytes_at (st_bytes (c_new c)) np n = bytes_at (file_of w) pos n).
  { intros k pos n Hk Hn. apply elem_of_iter_map in Hk. by apply E6. }
  assert (Hnone : forall k, objectOffsetMap w !! k = None -> c_map c !! k = None).
  { intros k Hk. rewrite E7; [done|]. rewrite elem_of_iter_map_fst, Hk. by intros [? ?]. }
  assert (Hdom : forall k np, c_map c !! k = Some np -> is_Some (objectOffsetMap w !! k)).
  { intros k np Hk. destruct (objectOffsetMap w !! k) eqn:E; [done|]. rewrite Hnone in Hk; done. }
  split_and!; [split; simpl | | |done|done].
  - done.
  - done.
  - apply set_eq. intros k. rewrite <- (fo_dom _ _ _ Hf), !elem_of_dom. split.
    + intros [np Hk]. by eapply Hdom.
    + intros [pos Hk]. destruct (file_ok_sizes _ _ _ _ _ Hf Hk) as [n Hn].
      destruct (Hmap k pos n Hk Hn) as (np & -> & _). done.
  - intros k np n Hk Hn. destruct (Hdom k np Hk) as [pos Hp].
    destruct (Hmap k pos n Hp Hn) as (np' & Hk' & ? & ? & _).
    rewrite Hk in Hk'. injection Hk' as <-. destruct (fo_range _ _ _ Hf k pos n Hp Hn).
    unfold stream_size in *; simpl. lia.
  - intros k k' np n np' n' Hne Hk Hn Hk' Hn'.
    eapply (E8 k k'); try done; rewrite elem_of_iter_map_fst; by eapply Hdom.
  - intros k. unfold snapshot. destruct (objectOffsetMap w !! k) as [pos|] eqn:Hp.
    + destruct (file_ok_sizes _ _ _ _ _ Hf Hp) as [n Hn].
      destruct (Hmap k pos n Hp Hn) as (np & -> & _ & _ & Hb). rewrite Hn. simpl. by rewrite <- Hb.
    + by rewrite Hnone.
  - unfold stream_size in E4 |- *; simpl in *. done.
Qed.

(** ** Properties *)

(** C27: compaction loses nothing. When the old file was copied and the disk has
    room, [CompactSwapFile] leaves a file in which every object has, at its
    new offset, the bytes it had before; the objects do not overlap, the maps
    and the stream are consistent, and nothing else is in the file: its size
    is the sum of the objects' sizes. *)
Theorem compact_preserves w copied :
  swapEnabled w = true -> swapfile_ok w -> copied (file_of w) = Some (file_of w) ->
  size_sum (objectSizeMap w) (iter_map (objectOffsetMap w)) <= capacity ->
  exists w', CompactSwapFile capacity copied w = Done (tt, w') /\ swapfile_ok w' /\
    (forall k, snapshot_of w' k = snapshot_of w k) /\
    stream_size (swapfile w') = size_sum (objectSizeMap w) (iter_map (objectOffsetMap w)) /\
    freedSize w' = 0 /\ w_mem w' = w_mem w.
Proof. apply compact_ok. Qed.

(** A failed copy makes compaction drop every snapshot. When [copyFile]
    leaves no old file, [CompactSwapFile] notices the error, and still
    replaces the offset map by the (empty) map built so far and the swap file
    by the empty new file, while the sizes stay. *)
Theorem compact_error_drops w copied :
  swapEnabled w = true -> copied (file_of w) = None ->
  exists w', CompactSwapFile capacity copied w = Done (tt, w') /\
    objectOffsetMap w' = ∅ /\ file_of w' = [] /\ objectSizeMap w' = objectSizeMap w.
Proof.
  intros He Hc. unfold CompactSwapFile. rewrite bind_gets, He, bind_check by done.
  rewrite !bind_modify. eexists. split; [reflexivity|]. simpl. fold (file_of w). rewrite Hc. simpl.
  assert (Hstop : forall kvs c, c_error c = true -> foldl (compact_one capacity) c kvs = c).
  { induction kvs as [|[k pos] kvs IH]; intros c Hce; [done|]. simpl. rewrite Hce. by apply IH. }
  by rewrite Hstop.
Qed.

(** [validateSwapFile] is exact. It reports no error precisely when the
    stream is good, the two maps have the same size, and every object of the
    offset map has a size of at least 16 bytes and lies within the file; and
    then it leaves the state, the position of the stream included, as it was. *)
Theorem validate_exact w :
  0 <= st_pos (swapfile w) ->
  (validateSwapFile w = Done (false, w) <-> valid_world w) /\
  (forall w', validateSwapFile w = Done (false, w') -> w' = w).
Proof.
  intros Hpos.
  assert (H : forall w', validateSwapFile w = Done (false, w') -> valid_world w) by apply validate_sound.
  split; [split; [apply H | by apply validate_complete]|].
  intros w' Hw. pose proof (validate_complete w Hpos (H w' Hw)) as Hd. congruence.
Qed.
End File.

(** *** A file with two objects and a gap between them *)
Definition demo_file_world : world unit :=
  mkWorld ∅ (mkTable 0 []) (FreeListSpace.mkSpace 0 0 ∅ 0 [] 0 0 0 0) (FreeListSpace.mkSpace 0 0 ∅ 0 [] 0 0 0 0)
    tt (mkStream (replicate 20 1 ++ replicate 10 2 ++ replicate 20 3) 50 false)
    {[ 0x100 := 4; 0x200 := 30 ]} {[ 0x100 := 16; 0x200 := 20 ]}
    [] ∅ ∅ ∅ ∅ ∅ false true true 0 1 10 2 36 1 [] [].

Lemma demo_file_entry k pos n :
  objectOffsetMap demo_file_world !! k = Some pos -> objectSizeMap demo_file_world !! k = Some n ->
  (k = 0x100 /\ pos = 4 /\ n = 16) \/ (k = 0x200 /\ pos = 30 /\ n = 20).
Proof.
  unfold objectOffsetMap, objectSizeMap, demo_file_world. intros Hk Hn.
  apply lookup_insert_Some in Hk as [[<- <-]|[Hne Hk]].
  - rewrite lookup_insert_eq in Hn. injection Hn as <-. by left.
  - apply lookup_singleton_Some in Hk as [<- <-].
    rewrite lookup_insert_ne, lookup_singleton_eq in Hn by done. injection Hn as <-. by right.
Qed.
Lemma demo_file_world_ok : swapfile_ok demo_file_world.
Proof.
  split; [reflexivity | reflexivity | vm_compute; reflexivity | |].
  - intros k pos n Hk Hn. destruct (demo_file_entry k pos n Hk Hn) as [(-> & -> & ->)|(-> & -> & ->)];
      vm_compute; split_and!; congruence.
  - intros k k' pos n pos' n' Hne Hk Hn Hk' Hn'.
    destruct (demo_file_entry k pos n Hk Hn) as [(-> & -> & ->)|(-> & -> & ->)];
    destruct (demo_file_entry k' pos' n' Hk' Hn') as [(-> & -> & ->)|(-> & -> & ->)]; done || lia.
Qed.

Lemma compact_preserves_witness :
  exists w', CompactSwapFile 100 Some demo_file_world = Done (tt, w') /\
    snapshot_of w' 0x200 = Some (replicate 20 3) /\ stream_size (swapfile w') = 36.
Proof.
  destruct (compact_preserves 100 demo_file_world Some) as (w' & H & _ & Hs & Hz & _).
  - reflexivity.
  - apply demo_file_world_ok.
  - reflexivity.
  - vm_compute. congruence.
  - exists w'. split_and!; [exact H | rewrite Hs; vm_compute; reflexivity | rewrite Hz; vm_compute; reflexivity].
Defined.

Lemma compact_error_drops_witness :
  exists w', CompactSwapFile 100 (fun _ => None) demo_file_world = Done (tt, w') /\
    objectOffsetMap w' = ∅ /\ size (objectSizeMap w') = 2%nat.
Proof.
  destruct (compact_error_drops 100 demo_file_world (fun _ => None)) as (w' & H & Ho & _ & Hs).
  - reflexivity.
  - reflexivity.
  - exists w'. split_and!; [exact H | exact Ho | rewrite Hs; vm_compute; reflexivity].
Defined.

Lemma validate_exact_witness : validateSwapFile demo_file_world = Done (false, demo_file_world).
Proof.
  destruct (validate_exact demo_file_world) as [[_ H] _]; [vm_compute; congruence|].
  apply H. split; [reflexivity | vm_compute; reflexivity |]. intros k pos Hk.
  destruct (file_ok_sizes _ _ _ k pos demo_file_world_ok Hk) as [n Hn]. exists n. split; [exact Hn|].
  destruct (demo_file_entry k pos n Hk Hn) as [(-> & -> & ->)|(-> & -> & ->)];
    vm_compute; split_and!; congruence.
Defined.
