(* ===== verification/SwapCycle.v ===== *)
(** The life of an object in the swappable space: its bytes are written to the
    swap file, its pages are reclaimed, and it is read back when it is next
    accessed.  The functions are those of Swap. *)
From stdpp Require Import prelude gmap list.
From Stdlib Require Import ZArith Lia.
From S2P Require Import Prelude Bits Mem ObjectHeader Mirror ReclamationTable Stub Stream.
From S2P Require Import Allocator LargeObjectSpace SwapState Swap SwapFile.
Open Scope Z_scope.

(** ** Reading an object with its IgnoreReadFlag toggled *)
Definition touch (m : mem) (o : Z) : mem := ClearIgnoreReadFlag (SetIgnoreReadFlag m o) o.

Lemma touch_ok m o : mem_ok m -> mem_ok (touch m o).
Proof. intros Hm. by apply mem_ok_ignore, mem_ok_ignore. Qed.
Lemma touch_outside m o x : x <> o + x_access_bits_offset -> load8 (touch m o) x = load8 m x.
Proof. intros Hx. unfold touch. by rewrite access_clear_outside, access_set_outside. Qed.
Lemma touch_access m o : mem_ok m -> load8 (touch m o) (o + x_access_bits_offset) =
  ClearBits8 (load8 m (o + x_access_bits_offset)) 0 1.
Proof.
  intros Hm. unfold touch, ClearIgnoreReadFlag. rewrite load8_store8_eq.
  unfold x_access_bits at 1, SetIgnoreReadFlag. rewrite load8_store8_eq, (set_clear_ignore m o Hm).
  apply ClearBits8_byte, mem_ok_load8, Hm.
Qed.
Lemma clear_bit_same b : in_width 8 b -> to_bool (GetBits8 b 0 1) = false -> ClearBits8 b 0 1 = b.
Proof.
  intros Hb H. assert (Hd : to_bool (GetBits8 b 0 1) = true \/ ClearBits8 b 0 1 = b) by by_bytes b.
  destruct Hd; [congruence | done].
Qed.
Lemma touch_same m o : mem_ok m -> GetIgnoreReadFlag m o = false -> mem_eq (touch m o) m.
Proof.
  intros Hm Hig x. destruct (decide (x = o + x_access_bits_offset)) as [->|Hne].
  - rewrite touch_access by done. apply clear_bit_same; [by apply mem_ok_load8 | done].
  - by apply touch_outside.
Qed.
Lemma touch_ignore m o : mem_ok m -> GetIgnoreReadFlag (touch m o) o = false.
Proof.
  intros Hm. unfold GetIgnoreReadFlag, x_access_bits. rewrite touch_access by done.
  pose proof (mem_ok_load8 m (o + x_access_bits_offset) Hm) as Hb.
  generalize dependent (load8 m (o + x_access_bits_offset)). intros b Hb. by_bytes b.
Qed.

Lemma touch_write_bit m o : mem_ok m -> GetWriteBit (touch m o) o = GetWriteBit m o.
Proof.
  intros Hm. unfold GetWriteBit, x_access_bits. rewrite touch_access by done.
  pose proof (mem_ok_load8 m (o + x_access_bits_offset) Hm) as Hb.
  generalize dependent (load8 m (o + x_access_bits_offset)). intros b Hb. by_bytes b.
Qed.

Lemma SizeOf_ext ct m m' o :
  agree_outside m' m (o + 8) 4 -> SizeOf ct m' o = SizeOf ct m o.
Proof.
  intros H. unfold SizeOf, Array_SizeOf, String_SizeOf, length_offset.
  rewrite (loadw_ext 4 m' m o) by (intros x Hx; apply H; lia).
  by rewrite (loadw_ext 4 m' m (o + 16)) by (intros x Hx; apply H; lia).
Qed.

(** ** Bits of an entry *)
Lemma kernel_lock_bits e o : 0 <= o -> (KERNEL_LOCK_BIT_OFFSET =? o) = false ->
  GetBit (SetKernelLockBit e) o = GetBit e o.
Proof. intros Ho Hne. unfold SetKernelLockBit. rewrite GetBit_SetBit by (unfold KERNEL_LOCK_BIT_OFFSET; lia). by rewrite Hne. Qed.
Lemma reclaim_flags b :
  in_width 8 b ->
  let lock := Z.lor b (u8 (Z.shiftl 1 KERNEL_LOCK_BIT_OFFSET)) in
  let unlock b := Z.land b (u8 (Z.lnot (Z.shiftl 1 KERNEL_LOCK_BIT_OFFSET))) in
  let gone b := Z.land b (u8 (Z.lnot (Z.shiftl 1 RESIDENT_BIT_OFFSET))) in
  (to_bool (Z.land (Z.shiftr b KERNEL_LOCK_BIT_OFFSET) 1) = true \/
   unlock (gone lock) = gone b) /\
  (to_bool (Z.land (Z.shiftr b RESIDENT_BIT_OFFSET) 1) = false \/
   Z.lor (gone b) (u8 (Z.shiftl 1 RESIDENT_BIT_OFFSET)) = b).
Proof. intros Hb. by_bytes b. Qed.
Lemma reclaim_bits e :
  entry_ok e -> GetKernelLockBit e = false ->
  ClearKernelLockBit (ClearResidentBit (SetKernelLockBit e)) = ClearResidentBit e /\
  (GetResidentBit e = true -> SetResidentBit (ClearResidentBit e) = e).
Proof.
  intros [Hb _] Hk. destruct (reclaim_flags _ Hb) as [H1 H2]. destruct e as [b c n a s]. simpl in *.
  split.
  - destruct H1 as [H1|H1]; [unfold GetKernelLockBit, GetBit in Hk; simpl in Hk; congruence|].
    unfold ClearKernelLockBit, ClearResidentBit, SetKernelLockBit, ClearBit, SetBit. simpl. by f_equal.
  - intros Hr. destruct H2 as [H2|H2]; [unfold GetResidentBit, GetBit in Hr; simpl in Hr; congruence|].
    unfold SetResidentBit, ClearResidentBit, ClearBit, SetBit. simpl. by f_equal.
Qed.

Lemma alter_known {A} (f : A -> A) i (l : list A) x : l !! i = Some x -> alter f i l = <[i := f x]> l.
Proof.
  intros Hx. apply list_eq. intros j. destruct (decide (j = i)) as [->|Hne].
  - rewrite list_lookup_alter_eq, Hx, list_lookup_insert_eq by (by eapply lookup_lt_Some). done.
  - by rewrite list_lookup_alter_ne, list_lookup_insert_ne.
Qed.

Section Cycle.
Context {R : Type} {RosAlloc : Allocator R}.
Context (ct : gmap Z ClassInfo) (capacity : Z).
Implicit Types w : world R.

(** ** One entry of the table *)
Definition entry_is (w : world R) (p : Z) (i : nat) (e : TableEntry) : Prop :=
  entry_index (recTable w) p = Some i /\ entries (recTable w) !! i = Some e.
Definition with_table_entry (w : world R) (i : nat) (e : TableEntry) : world R :=
  set_recTable (mkTable (base_address_ (recTable w)) (<[i := e]> (entries (recTable w)))) w.

Lemma entry_is_with w p i e e' : entry_is w p i e -> entry_is (with_table_entry w i e') p i e'.
Proof.
  intros [Hi He]. split; simpl.
  - rewrite <- Hi. unfold entry_index, num_entries_. simpl. by rewrite length_insert.
  - apply list_lookup_insert_eq. by eapply lookup_lt_Some.
Qed.
Lemma with_with w i e e' : with_table_entry (with_table_entry w i e) i e' = with_table_entry w i e'.
Proof. unfold with_table_entry. simpl. by rewrite list_insert_insert_eq. Qed.
Lemma with_same w p i e : entry_is w p i e -> with_table_entry w i e = w.
Proof. intros [_ He]. unfold with_table_entry. rewrite list_insert_id by done. destruct w; simpl. by destruct recTable. Qed.

Lemma entry_at_done w p i e : entry_is w p i e -> entry_at p w = Done (e, w).
Proof. intros [Hi He]. unfold entry_at, try, read_entry. by rewrite Hi, He. Qed.
Lemma with_entry_done w p i e f :
  entry_is w p i e -> with_entry p f w = Done (tt, with_table_entry w i (f e)).
Proof.
  intros [Hi He]. unfold with_entry. erewrite bind_done.
  2: { unfold try, update_entry. rewrite Hi. reflexivity. }
  unfold modify, with_table_entry. by rewrite (alter_known f i _ e He).
Qed.
Lemma lock_entry_done w p i e :
  entry_is w p i e -> GetKernelLockBit e = false ->
  lock_entry p w = Done (tt, with_table_entry w i (IncrAppLockCounter e)).
Proof.
  intros H Hk. unfold lock_entry. rewrite (bind_done _ _ _ _ _ (entry_at_done w p i e H)).
  erewrite bind_done.
  2: { unfold try, LockFromAppThread, GetKernelLockBit, IncrAppLockCounter. rewrite GetBit_counter.
       unfold GetKernelLockBit in Hk. rewrite Hk. reflexivity. }
  by erewrite with_entry_done.
Qed.
Lemma incr_decr e : entry_ok e -> DecrAppLockCounter (IncrAppLockCounter e) = e.
Proof.
  intros (_ & Hc & _). destruct e as [b c n a s]. unfold DecrAppLockCounter, IncrAppLockCounter, set_counter.
  simpl in *. f_equal. unfold u8, wrap. change (2 ^ 8) with 256. widths. div_lia.
Qed.

(** ** A stub and its object

    The stub [stub] designates entry [i] of the table, whose contents are [e];
    the object is at [o] in the swapped-in space, has [n] bytes and references
    at the offsets [offs], and the stub holds those references. *)
Record placed (w : world R) (stub : Z) (i : nat) (e : TableEntry) (o n : Z) (offs : list Z) : Prop := {
  pl_mem : mem_ok (w_mem w);
  pl_flag : GetStubFlag (w_mem w) stub = true;
  pl_stub : stub <> 0;
  pl_entry : entry_is w (GetTableEntry (w_mem w) stub) i e;
  pl_entry_ok : entry_ok e;
  pl_unlocked : GetKernelLockBit e = false;
  pl_addr : RTE_GetObjectAddress e = o;
  pl_o : 0 < o;
  pl_space : FreeListSpace.Contains (swappedInSpace w) o = true;
  pl_layout : layout ct (w_mem w) o n offs;
  pl_class : load32 (w_mem w) o <> 0;
  pl_size : SizeOf ct (w_mem w) o = Done n;
  pl_pages : n <= GetNumPages e * kPageSize;
  pl_apart : apart stub (Z.of_nat (length offs)) o (GetNumPages e * kPageSize);
  pl_refs j off : offs !! j = Some off ->
    GetReference (w_mem w) stub (Z.of_nat j) = load32 (w_mem w) (o + off)
}.

Lemma stub_object_done w stub i e :
  entry_is w (GetTableEntry (w_mem w) stub) i e ->
  stub_object stub w = Done (RTE_GetObjectAddress e, w).
Proof.
  intros [Hi He]. unfold stub_object, try, GetObjectAddress, read_entry. by rewrite Hi, He.
Qed.
Lemma sized_done w o n :
  SizeOf ct (w_mem w) o = Done n ->
  sized ct o w = Done (n, set_w_mem (touch (w_mem w) o) w).
Proof.
  intros Hn. unfold sized, modm. rewrite bind_modify. erewrite bind_done.
  2: { unfold try. simpl. rewrite (SizeOf_ext ct (w_mem w)), Hn; [reflexivity|].
       intros x Hx. apply access_set_outside. unfold x_access_bits_offset. lia. }
  by rewrite bind_modify.
Qed.

(** The memory after an object was written: its dirty byte is clear, and so is
    its IgnoreReadFlag. *)
Definition written (m : mem) (o : Z) : mem := ClearDirtyBit (touch (touch m o) o) o.
Lemma written_spec m o :
  mem_ok m ->
  mem_ok (written m o) /\ agree_outside (written m o) m (o + 10) 2 /\
  GetDirtyBit (written m o) o = false /\ GetIgnoreReadFlag (written m o) o = false.
Proof.
  intros Hm. pose proof (touch_ok m o Hm) as Hm1. pose proof (touch_ok _ o Hm1) as Hm2.
  split_and!.
  - by apply mem_ok_store8.
  - intros x Hx. unfold written, ClearDirtyBit, x_dirty_bit_offset.
    rewrite load8_store8_ne, !touch_outside by (unfold x_access_bits_offset; lia). done.
  - unfold GetDirtyBit, x_dirty_bit, written, ClearDirtyBit. by rewrite load8_store8_eq.
  - rewrite <- (touch_ignore (touch m o) o Hm1). apply ignore_ext.
    apply load8_store8_ne. unfold x_dirty_bit_offset, x_access_bits_offset. lia.
Qed.

Lemma write_data_done w stub o n off :
  mem_ok (w_mem w) -> stub <> 0 -> SizeOf ct (w_mem w) o = Done n -> swapfile_ok w ->
  objectOffsetMap w !! o = None -> objectOffsetMap w !! stub = Some off ->
  objectSizeMap w !! stub = Some n -> stream_size (swapfile w) <= capacity ->
  let m := ClearDirtyBit (touch (w_mem w) o) o in
  let data := load_bytes m o (Z.to_nat n) in
  exists w', write_data ct capacity stub o w = Done ((SWAPFILE_WRITE_OK, false), w') /\
    w' = set_swapfile (mkStream (splice (file_of w) off data) (stream_size (swapfile w)) false)
           (set_w_mem m w) /\
    swapfile_ok w' /\ snapshot_of w' stub = Some data /\
    (forall k, k <> stub -> snapshot_of w' k = snapshot_of w k).
Proof.
  intros Hm Hs Hn Hf Ho Hoff Hsz Hcap m data. unfold write_data, modm, getm.
  rewrite (bind_done _ _ _ _ _ (sized_done w o n Hn)), bind_modify, !bind_gets. simpl w_mem. fold m data.
  simpl objectOffsetMap. rewrite (bool_decide_eq_false_2 _) by (rewrite Ho; by intros [? ?]).
  assert (Hst : (stub =? 0) = false) by lia. rewrite Hst. cbn [negb andb]. rewrite bind_check by done.
  destruct (fo_range _ _ _ Hf stub off n Hoff Hsz) as (_ & H0 & Hend).
  destruct (write_again_done capacity (set_w_mem m w) stub off n data) as (w' & Hw & -> & Hok & Hsn & Hot);
    try done.
  { unfold data. rewrite length_load_bytes. lia. }
  { lia. }
  eexists. split; [exact Hw|]. by split_and!.
Qed.

Lemma LockTableEntry_done w stub i e :
  entry_is w (GetTableEntry (w_mem w) stub) i e -> GetKernelLockBit e = false ->
  LockTableEntry stub w = Done (tt, with_table_entry w i (IncrAppLockCounter e)).
Proof. intros H Hk. unfold LockTableEntry, stub_entry, getm. rewrite bind_gets. by apply lock_entry_done. Qed.
Lemma UnlockTableEntry_done w stub i e :
  entry_is w (GetTableEntry (w_mem w) stub) i e ->
  UnlockTableEntry stub w = Done (tt, with_table_entry w i (DecrAppLockCounter e)).
Proof. intros H. unfold UnlockTableEntry, stub_entry, getm. rewrite bind_gets. by apply with_entry_done. Qed.

Lemma table_entry_ext m m' s : agree_on m' m s 8 -> GetTableEntry m' s = GetTableEntry m s.
Proof. intros H. apply loadw_ext. unfold table_entry_offset. intros x Hx. apply H. lia. Qed.

(** Stub and object are apart, so what happens to the object's bytes leaves
    the stub as it is. *)
Lemma placed_stub_kept w stub i e o n offs m' :
  placed w stub i e o n offs -> agree_outside m' (w_mem w) o (GetNumPages e * kPageSize) ->
  agree_on m' (w_mem w) stub (GetStubSize_refs (Z.of_nat (length offs))).
Proof.
  intros Hp H x Hx. apply H. pose proof (pl_apart _ _ _ _ _ _ _ Hp) as Ha.
  unfold apart, GetStubSize_refs in *. lia.
Qed.
Lemma placed_header w stub i e o n offs :
  placed w stub i e o n offs -> 16 <= n /\ n <= GetNumPages e * kPageSize.
Proof.
  intros Hp. split; [apply (ly_size _ _ _ _ _ (pl_layout _ _ _ _ _ _ _ Hp)) | apply (pl_pages _ _ _ _ _ _ _ Hp)].
Qed.

Lemma write_stub_done w stub i e o n offs off :
  placed w stub i e o n offs -> GetNoSwapFlag (w_mem w) o = false -> swapfile_ok w ->
  objectOffsetMap w !! o = None -> objectOffsetMap w !! stub = Some off ->
  objectSizeMap w !! stub = Some n -> stream_size (swapfile w) <= capacity ->
  let data := load_bytes (written (w_mem w) o) o (Z.to_nat n) in
  let w1 := set_swapfile (mkStream (splice (file_of w) off data) (stream_size (swapfile w)) false)
              (set_w_mem (written (w_mem w) o) w) in
  writeToSwapFile ct capacity stub w = Done ((SWAPFILE_WRITE_OK, false), w1) /\
  swapfile_ok w1 /\ snapshot_of w1 stub = Some data /\
  (forall k, k <> stub -> snapshot_of w1 k = snapshot_of w k).
Proof.
  intros Hp Hns Hf Ho Hoff Hsz Hcap data w1. pose proof Hp as [Hm Hfl Hst Hen Heo Hul Ha H0 Hsp Hl Hk Hn _ _ _].
  pose proof (written_spec (w_mem w) o Hm) as (_ & Hag & _ & _).
  set (wl := with_table_entry w i (IncrAppLockCounter e)).
  assert (Hel : entry_is wl (GetTableEntry (w_mem w) stub) i (IncrAppLockCounter e)) by (by eapply entry_is_with).
  set (wt := set_w_mem (touch (w_mem w) o) wl).
  destruct (write_data_done wt stub o n off) as (w' & Hw & -> & Hok & Hsn & Hot); try done.
  { by apply touch_ok. }
  { simpl. rewrite <- Hn. apply SizeOf_ext. intros x Hx. apply touch_outside. unfold x_access_bits_offset. lia. }
  split; [|by split_and!].
  unfold writeToSwapFile, getm, modm. rewrite bind_gets, Hfl.
  erewrite bind_done.
  2: { rewrite (bind_done _ _ _ _ _ (LockTableEntry_done w stub i e Hen Hul)). fold wl.
       rewrite (bind_done _ _ _ _ _ (stub_object_done wl stub i (IncrAppLockCounter e) Hel)).
       change (RTE_GetObjectAddress (IncrAppLockCounter e)) with (RTE_GetObjectAddress e). rewrite Ha.
       rewrite bind_check by (destruct (Z.eqb_spec o 0); [lia | done]). reflexivity. }
  rewrite bind_gets, bind_check.
  2: { unfold objectInSwappableSpace. simpl. by rewrite Hsp, !orb_true_r. }
  rewrite bind_modify, bind_gets, bind_modify, bind_gets. simpl w_mem. fold (touch (w_mem w) o).
  rewrite (loadw_ext 4 _ (w_mem w)) by (intros x Hx; apply access_set_outside; unfold x_access_bits_offset; lia).
  unfold GetNoSwapFlag, x_flags in *.
  rewrite touch_outside by (unfold x_flags_offset, x_access_bits_offset; lia). rewrite Hns.
  destruct (Z.eqb_spec (load32 (w_mem w) o) 0) as [|_]; [done|]. cbn [negb andb].
  change (set_w_mem _ (set_w_mem _ wl)) with wt.
  rewrite (bind_done _ _ _ _ _ Hw). destruct (Z.eqb_spec stub 0) as [|_]; [done|]. cbn [negb].
  erewrite bind_done.
  2: { apply UnlockTableEntry_done with (e := IncrAppLockCounter e). simpl.
       rewrite (table_entry_ext (w_mem w)); [exact Hel|]. intros x Hx.
       fold (written (w_mem w) o). apply Hag. pose proof (pl_apart _ _ _ _ _ _ _ Hp) as Hap.
       destruct (placed_header _ _ _ _ _ _ _ Hp). unfold apart, sizeof_Stub, sizeof_HeapReference in *. lia. }
  rewrite (incr_decr e Heo). unfold mret, M_ret. do 2 f_equal.
  unfold wt, wl. change (with_table_entry _ i e) with
    (set_swapfile (swapfile w1) (set_w_mem (w_mem w1) (with_table_entry (with_table_entry w i (IncrAppLockCounter e)) i e))).
  by rewrite with_with, (with_same w _ i e Hen).
Qed.

(** ** Reclamation *)

(** What the kernel tests before it takes the pages of an entry. *)
Definition reclaimable (m : mem) (e : TableEntry) : bool :=
  GetOccupiedBit e && negb (0 <? GetAppLockCounter e) && GetResidentBit e
  && negb (GetDirtyBit m (RTE_GetObjectAddress e))
  && objectIsCold (GetWriteShiftRegister m (RTE_GetObjectAddress e)) (GetWriteBit m (RTE_GetObjectAddress e)).
(** An occupied, resident entry has an object in the swapped-in space. *)
Definition entry_placed (w : world R) (e : TableEntry) : Prop :=
  GetOccupiedBit e = true -> GetResidentBit e = true ->
  RTE_GetObjectAddress e <> 0 /\ FreeListSpace.Contains (swappedInSpace w) (RTE_GetObjectAddress e) = true.

Lemma checks_done w p i e :
  entry_is w p i e -> entry_placed w e -> doKernelReclamationChecks p w = Done (reclaimable (w_mem w) e, w).
Proof.
  intros He Hp. unfold doKernelReclamationChecks, reclaimable, getm.
  rewrite (bind_done _ _ _ _ _ (entry_at_done w p i e He)).
  destruct (GetOccupiedBit e) eqn:Ho; [|done]. cbn [negb andb]. destruct (0 <? _); [done|].
  destruct (GetResidentBit e) eqn:Hr; [|done]. cbn [negb andb]. destruct (Hp Ho Hr) as [Ha _].
  rewrite bind_check by (destruct (Z.eqb_spec (RTE_GetObjectAddress e) 0); done).
  rewrite bind_gets. destruct (GetDirtyBit _ _); [done|]. by rewrite !bind_gets.
Qed.

Lemma reclaim_entry_done w p i e :
  entry_is w p i e -> entry_ok e -> GetKernelLockBit e = false -> entry_placed w e ->
  reclaim_entry p w = Done (tt,
    if reclaimable (w_mem w) e
    then with_table_entry (set_w_mem (madvise_dontneed (w_mem w) (RTE_GetObjectAddress e)
                                        (GetNumPages e * kPageSize)) w) i (ClearResidentBit e)
    else w).
Proof.
  intros He Hok Hk Hp. unfold reclaim_entry. rewrite (bind_done _ _ _ _ _ (checks_done w p i e He Hp)).
  destruct (reclaimable (w_mem w) e) eqn:Hr; [|done]. cbn [when].
  set (w1 := with_table_entry w i (SetKernelLockBit e)).
  pose proof (entry_is_with w p i e (SetKernelLockBit e) He) as He1. fold w1 in He1.
  assert (Hb : GetOccupiedBit e = true /\ GetResidentBit e = true).
  { unfold reclaimable in Hr. by destruct (GetOccupiedBit e), (0 <? _), (GetResidentBit e). }
  destruct (Hp (proj1 Hb) (proj2 Hb)) as [Ha Hc].
  rewrite (bind_done _ _ _ _ _ (with_entry_done w p i e _ He)). fold w1.
  erewrite bind_done; [|eapply (checks_done w1 p i _ He1); by intros _ _].
  replace (reclaimable (w_mem w1) (SetKernelLockBit e)) with true.
  2: { rewrite <- Hr. unfold reclaimable, GetOccupiedBit, GetResidentBit.
       by rewrite !(kernel_lock_bits e) by done. }
  cbn [when]. rewrite !bind_assoc, (bind_done _ _ _ _ _ (entry_at_done w1 p i _ He1)).
  rewrite !bind_assoc, bind_gets. change (RTE_GetObjectAddress (SetKernelLockBit e)) with (RTE_GetObjectAddress e).
  rewrite !bind_assoc, bind_check by exact Hc. unfold modm. rewrite !bind_assoc, bind_modify.
  change (GetNumPages (SetKernelLockBit e)) with (GetNumPages e).
  set (w2 := set_w_mem _ w1).
  rewrite (bind_done _ _ _ _ _ (with_entry_done w2 p i _ ClearResidentBit He1)).
  rewrite (with_entry_done _ p i (ClearResidentBit (SetKernelLockBit e))) by (by eapply (entry_is_with w2)).
  rewrite (proj1 (reclaim_bits e Hok Hk)), with_with. unfold w2, w1. do 2 f_equal.
  unfold with_table_entry. simpl. by rewrite list_insert_insert_eq.
Qed.

(** ** Swapping in *)

(** The object's image [m0] is in the swap file, and the stub has its
    references. *)
Record swapped_out (w : world R) (m0 : mem) (stub : Z) (i : nat) (e : TableEntry) (o n : Z)
    (offs : list Z) : Prop := {
  sw_mem : mem_ok (w_mem w) /\ mem_ok m0;
  sw_entry : entry_is w (GetTableEntry (w_mem w) stub) i e;
  sw_absent : GetResidentBit e = false;
  sw_addr : RTE_GetObjectAddress e = o /\ 0 < o;
  sw_file : swapfile_ok w /\ snapshot_of w stub = Some (load_bytes m0 o (Z.to_nat n));
  sw_size : objectSizeMap w !! stub = Some n;
  sw_layout : layout ct m0 o n offs;
  sw_apart : apart stub (Z.of_nat (length offs)) o n;
  sw_clean : GetDirtyBit m0 o = false /\ GetIgnoreReadFlag m0 o = false;
  sw_refs j off : offs !! j = Some off ->
    GetReference (w_mem w) stub (Z.of_nat j) = load32 m0 (o + off)
}.

(** The image is copied back over the object. *)
Lemma image_restored m m0 o n :
  mem_ok m0 -> 0 <= n ->
  let m' := store_bytes m o (load_bytes m0 o (Z.to_nat n)) in
  agree_on m' m0 o n /\ agree_outside m' m o n.
Proof.
  intros Hm Hn m'. split; intros x Hx; unfold m'; rewrite load8_store_bytes, length_load_bytes, Z2Nat.id by done.
  - rewrite decide_True by done. rewrite nth_load_bytes by lia. rewrite Z2Nat.id by lia.
    replace (o + (x - o)) with x by lia. apply wrap_small, mem_ok_load8, Hm.
  - by rewrite decide_False.
Qed.

Lemma swap_in_stream w m0 stub i e o n offs off :
  swapped_out w m0 stub i e o n offs -> objectOffsetMap w !! stub = Some off ->
  stream_read (stream_seek (swapfile w) off) n =
    (load_bytes m0 o (Z.to_nat n), mkStream (file_of w) (off + n) false) /\
  stream_seek (mkStream (file_of w) (off + n) false) (tellp (swapfile w)) = swapfile w.
Proof.
  intros Hs Hoff. destruct (sw_file _ _ _ _ _ _ _ _ Hs) as [Hf Hsn].
  pose proof (sw_size _ _ _ _ _ _ _ _ Hs) as Hsz.
  destruct (fo_range _ _ _ Hf stub off n Hoff Hsz) as (H1 & H2 & H3).
  unfold snapshot_of in Hsn. rewrite (snapshot_some _ _ _ _ _ _ Hoff Hsz) in Hsn. injection Hsn as Hb.
  pose proof (fo_good _ _ _ Hf) as Hg. pose proof (fo_end _ _ _ Hf) as He.
  pose proof (stream_size_nonneg (swapfile w)). split.
  - rewrite (seek_ok _ _ Hg H1), read_ok by done. simpl. by rewrite <- Hb.
  - unfold tellp. rewrite Hg, seek_ok by (simpl; rewrite ?He; done). unfold file_of. simpl.
    rewrite <- Hg. by destruct (swapfile w).
Qed.

(** What the copy and [CopyRefsInto] do to the memory. *)
Lemma swap_in_memory w m0 stub i e o n offs :
  swapped_out w m0 stub i e o n offs ->
  let m1 := store_bytes (w_mem w) o (load_bytes m0 o (Z.to_nat n)) in
  mem_ok m1 /\ agree_on m1 m0 o n /\ agree_outside m1 (w_mem w) o n /\
  GetTableEntry m1 stub = GetTableEntry (w_mem w) stub /\ GetDirtyBit m1 o = false /\
  CopyRefsInto ct m1 stub o = Done (touch m1 o) /\ mem_eq (touch m1 o) m1.
Proof.
  intros Hs m1. pose proof Hs as [[Hm Hm0] He Hab [Ha H0] [Hf Hsn] Hsz Hl Hap [Hcl Hig] Hr].
  destruct (ly_size _ _ _ _ _ Hl) as [Hn _]. unfold kObjectHeaderSize in Hn.
  destruct (image_restored (w_mem w) m0 o n Hm0 ltac:(lia)) as [Hon Hout]. fold m1 in Hon, Hout.
  assert (Hm1 : mem_ok m1) by (by apply mem_ok_store_bytes).
  assert (Hap' := Hap). unfold apart, sizeof_Stub, sizeof_HeapReference in Hap'.
  split_and!; try done.
  - apply table_entry_ext. intros x Hx. apply Hout. lia.
  - rewrite <- Hcl. unfold GetDirtyBit, x_dirty_bit. rewrite Hon by (unfold x_dirty_bit_offset; lia). done.
  - apply (CopyRefsInto_same ct m1 stub o n offs Hm1); [|done|].
    + eapply layout_ext; [|exact Hl]. apply loadw_ext. intros x Hx. apply Hon. lia.
    + intros j q Hj. pose proof (lookup_lt_Some _ _ _ Hj).
      rewrite (loadw_ext 4 m1 m0 (o + q)), <- (Hr j q Hj).
      * apply loadw_ext. unfold GetReferenceAddress, sizeof_Stub, sizeof_HeapReference.
        intros x Hx. apply Hout. lia.
      * pose proof (Forall_lookup_1 _ _ _ _ (layout_offsets _ _ _ _ _ Hl) Hj) as Hof. simpl in Hof.
        intros x Hx. apply Hon. lia.
  - apply touch_same; [done|]. rewrite <- Hig. apply ignore_ext, Hon. unfold x_access_bits_offset. lia.
Qed.

Lemma SwapInOnDemand_done w m0 stub i e o n offs :
  swapped_out w m0 stub i e o n offs -> swapEnabled w = true -> contains (ros w) stub = true ->
  exists m3, SwapInOnDemand ct stub w = Done (tt, with_table_entry (set_w_mem m3 w) i (SetResidentBit e)) /\
    mem_ok m3 /\ agree_on m3 m0 o n /\ agree_outside m3 (w_mem w) o n.
Proof.
  intros Hs Hen Hros. pose proof Hs as [_ He Hab [Ha H0] [Hf Hsn] Hsz _ _ _ _].
  assert (exists off, objectOffsetMap w !! stub = Some off) as [off Hoff].
  { unfold snapshot_of, snapshot in Hsn. destruct (objectOffsetMap w !! stub); [eauto | done]. }
  destruct (swap_in_stream w m0 stub i e o n offs off Hs Hoff) as [Hread Hback].
  destruct (swap_in_memory w m0 stub i e o n offs Hs) as (Hm1 & Hon & Hout & Hte & Hd & Hcopy & Heq).
  set (m1 := store_bytes (w_mem w) o (load_bytes m0 o (Z.to_nat n))) in *.
  exists (touch m1 o). split_and!; [| by apply touch_ok | | ].
  2,3: intros x Hx; rewrite Heq; auto.
  unfold SwapInOnDemand. rewrite bind_gets, Hen, bind_check by done. rewrite bind_gets, Hros, bind_check by done.
  rewrite (bind_done _ _ _ _ _ (proj1 (index_known w stub off) Hoff)).
  rewrite (bind_done _ _ _ _ _ (proj2 (index_known w stub n) Hsz)).
  erewrite bind_done; [reflexivity|]. unfold swapInObject, stub_resident, stub_entry, getm, modm.
  rewrite !bind_assoc, bind_gets, !bind_assoc, (bind_done _ _ _ _ _ (entry_at_done w _ i e He)), bind_ret, Hab.
  rewrite bind_check by done. rewrite (bind_done _ _ _ _ _ (stub_object_done w stub i e He)), Ha.
  rewrite bind_check by (destruct (Z.eqb_spec o 0); [lia | done]).
  rewrite bind_gets, bind_in_stream, bind_in_stream, bind_modify. simpl snd. simpl swapfile. rewrite Hread.
  simpl snd. rewrite bind_in_stream, bind_gets. simpl fst. simpl swapfile. simpl w_mem. fold m1. rewrite Hback.
  rewrite Hd, bind_check by done. erewrite bind_done.
  2: { unfold try. simpl. rewrite Hcopy. reflexivity. }
  rewrite bind_modify, bind_gets. simpl w_mem.
  rewrite (table_entry_ext m1) by (intros x Hx; apply Heq). rewrite Hte.
  erewrite bind_done; [|eapply with_entry_done; exact He]. reflexivity.
Qed.

(** ** Properties *)

(** The state in which the pages of the object are gone. *)
Definition reclaimed (w : world R) (i : nat) (e : TableEntry) : world R :=
  with_table_entry (set_w_mem (madvise_dontneed (w_mem w) (RTE_GetObjectAddress e)
                                 (GetNumPages e * kPageSize)) w) i (ClearResidentBit e).

(** An image of a placed object that is in the file can be swapped in after the
    object's pages are gone. *)
Lemma reclaimed_swapped_out w w1 m0 stub i e o n offs :
  placed w stub i e o n offs ->
  mem_ok (w_mem w1) -> agree_outside (w_mem w1) (w_mem w) o (GetNumPages e * kPageSize) ->
  recTable w1 = recTable w -> mem_ok m0 ->
  (forall x, o <= x < o + n -> x <> o + 10 -> x <> o + 11 -> load8 m0 x = load8 (w_mem w) x) ->
  GetDirtyBit m0 o = false -> GetIgnoreReadFlag m0 o = false ->
  swapfile_ok w1 -> objectSizeMap w1 !! stub = Some n ->
  snapshot_of w1 stub = Some (load_bytes m0 o (Z.to_nat n)) ->
  swapped_out (reclaimed w1 i e) m0 stub i (ClearResidentBit e) o n offs.
Proof.
  intros Hp Hm1 Hag1 Et Hm0 Hag Hd Hig Hf Hsz Hsn.
  pose proof Hp as [Hm Hfl Hst Hen Heo Hul Ha H0 Hsp Hl Hk Hn Hpg Hap Hr].
  destruct (placed_header _ _ _ _ _ _ _ Hp) as [H16 Hnp].
  assert (Hout : agree_outside (w_mem (reclaimed w1 i e)) (w_mem w) o (GetNumPages e * kPageSize)).
  { intros x Hx. unfold reclaimed. simpl. rewrite Ha, load8_madvise by lia.
    rewrite decide_False by lia. by apply Hag1. }
  pose proof (placed_stub_kept _ _ _ _ _ _ _ _ Hp Hout) as Hstub.
  unfold GetStubSize_refs, sizeof_Stub, sizeof_HeapReference in Hstub.
  split; try done.
  - split; [|done]. unfold reclaimed. simpl. by apply mem_ok_madvise.
  - rewrite (table_entry_ext (w_mem w)) by (intros x Hx; apply Hstub; lia).
    unfold reclaimed. eapply entry_is_with. unfold entry_is in *. simpl. rewrite Et. exact Hen.
  - unfold GetResidentBit, ClearResidentBit. rewrite GetBit_ClearBit by (done || apply Heo). done.
  - eapply layout_ext; [|exact Hl]. apply loadw_ext. intros x Hx. apply Hag; lia.
  - unfold apart in *. lia.
  - intros j q Hj. pose proof (lookup_lt_Some _ _ _ Hj). transitivity (GetReference (w_mem w) stub (Z.of_nat j)).
    + apply loadw_ext. unfold GetReferenceAddress, sizeof_Stub, sizeof_HeapReference.
      intros x Hx. apply Hstub. lia.
    + rewrite (Hr j q Hj). apply loadw_ext. intros x Hx. symmetry.
      destruct (layout_ref_offsets _ _ _ _ _ Hl) as [Hof _].
      pose proof (Forall_lookup_1 _ _ _ _ Hof Hj) as Hq. unfold ref_offset, ClassOffset, klass_offset, kObjectHeaderSize in Hq.
      simpl in Hq. apply Hag; lia.
Qed.

Lemma written_cold m o :
  mem_ok m ->
  objectIsCold (GetWriteShiftRegister (written m o) o) (GetWriteBit (written m o) o) =
  objectIsCold (GetWriteShiftRegister m o) (GetWriteBit m o).
Proof.
  intros Hm. destruct (written_spec m o Hm) as (_ & Hag & _ & _). f_equal.
  - unfold GetWriteShiftRegister, x_shift_regs. rewrite Hag by (unfold x_shift_regs_offset; lia). done.
  - rewrite <- (touch_write_bit m o Hm), <- (touch_write_bit (touch m o) o) by (by apply touch_ok).
    unfold GetWriteBit, x_access_bits, written, ClearDirtyBit.
    by rewrite load8_store8_ne by (unfold x_dirty_bit_offset, x_access_bits_offset; lia).
Qed.

End Cycle.

(** *** The object of Stub, swapped out and in *)
Definition demo_space (base : Z) : FreeListSpace.FreeListSpace :=
  match FreeListSpace.Create (Some base) true 4096 with
  | Done s => s
  | _ => FreeListSpace.mkSpace 0 0 ∅ 0 [] 0 0 0 0
  end.
Definition demo_entry : TableEntry := mkEntry 5 0 1 0x2000 0.
Definition demo_stub_memory : mem :=
  match PopulateFrom demo_classes demo_memory (mkTable 0x8000 [demo_entry]) 0x1000 0x2000 with
  | Done (m, _) => m
  | _ => ∅
  end.
(** The file holds the process id and an old snapshot of the object. *)
Definition demo_world : world FreeListSpace.FreeListSpace :=
  mkWorld demo_stub_memory (mkTable 0x8000 [demo_entry]) (demo_space 0x2000) (demo_space 0x10000)
    (demo_space 0x1000) (mkStream (replicate 32 7) 32 false) {[ 0x1000 := 4 ]} {[ 0x1000 := 28 ]}
    [] ∅ ∅ ∅ ∅ ∅ false true true 0 0 0 1 28 1 [] [].

Lemma demo_stub_spec :
  mem_ok demo_stub_memory /\ stub_of demo_stub_memory 0x1000 0x2000 (ref_words demo_memory 0x2000 [0; 16; 20]) /\
  load32 demo_stub_memory 0x2000 = 200.
Proof.
  destruct (PopulateFrom_done demo_classes demo_memory (mkTable 0x8000 [demo_entry]) 0x1000 0x2000 28 [0; 16; 20] 0)
    as (m & HP & Hm & Hs & _).
  - apply demo_memory_ok.
  - apply demo_layout.
  - left. unfold sizeof_Stub, sizeof_HeapReference. simpl. lia.
  - by vm_compute.
  - assert (E : demo_stub_memory = m) by (unfold demo_stub_memory; by rewrite HP).
    split_and!; [by rewrite E | by rewrite E | vm_compute; reflexivity].
Qed.

Lemma demo_placed : placed demo_classes demo_world 0x1000 0 demo_entry 0x2000 28 [0; 16; 20].
Proof.
  destruct demo_stub_spec as (Hm & Hs & Hk). split.
  - exact Hm.
  - exact (so_flag _ _ _ _ Hs).
  - lia.
  - split; vm_compute; reflexivity.
  - unfold entry_ok, in_width. vm_compute. split_and!; congruence || reflexivity.
  - vm_compute; reflexivity.
  - reflexivity.
  - lia.
  - vm_compute; reflexivity.
  - eapply layout_ext; [|apply demo_layout]. vm_compute; reflexivity.
  - cbn [w_mem demo_world]. rewrite Hk. lia.
  - vm_compute; reflexivity.
  - vm_compute. congruence.
  - left. unfold sizeof_Stub, sizeof_HeapReference. simpl. lia.
  - intros j off Hj. simpl w_mem. rewrite (so_refs _ _ _ _ Hs j (load32 demo_memory (0x2000 + off))).
    2: { unfold ref_words. by rewrite list_lookup_fmap, Hj. }
    destruct j as [|[|[|j]]]; [injection Hj as <-..|done]; vm_compute; reflexivity.
Qed.
Lemma demo_file : swapfile_ok demo_world.
Proof.
  split; [reflexivity | reflexivity | vm_compute; reflexivity | |].
  - intros k pos n Hk Hn. cbn in Hk, Hn. apply lookup_singleton_Some in Hk as [<- <-].
    apply lookup_singleton_Some in Hn as [_ <-]. vm_compute. split_and!; congruence.
  - intros k k' pos n pos' n' Hne Hk _ Hk' _. cbn in Hk, Hk'. apply lookup_singleton_Some in Hk as [<- _].
    by apply lookup_singleton_Some in Hk' as [<- _].
Qed.

