(* ===== verification/Access.v ===== *)
(** Field access through stubs (runtime/mirror/object.h, object-inl.h): the
    SWAP_PREAMBLE macros at the start of the accessors of [mirror::Object],
    which send an access to a stub on to its object, swapping the object in
    when it is not resident.

    An accessor calls itself on the object of the stub.  [fuel] bounds the
    depth; it is enough from 2 on when the object is not itself a stub. *)
From stdpp Require Import prelude gmap list.
From Stdlib Require Import ZArith Lia.
From S2P Require Import Prelude Bits Mem ObjectHeader Mirror ReclamationTable Stub Stream.
From S2P Require Import Allocator LargeObjectSpace SwapState Swap SwapFile SwapCycle.
Open Scope Z_scope.

Section Access.
Context {R : Type} {RosAlloc : Allocator R}.
Context (ct : gmap Z ClassInfo).
Implicit Types w : world R.
Local Abbreviation SM := (M (world R)).

(** ** The macros *)
Definition raw_read {A} (f : mem -> A * mem) : SM A :=
  fun w => let '(a, m) := f (w_mem w) in Done (a, set_w_mem m w).

(** Lock the entry, swap in if need be; the address of the object. *)
Definition enter_stub (stub : Z) : SM Z :=
  LockTableEntry stub;;
  resident ← stub_resident stub;
  (if negb resident then SwapInOnDemand ct stub else mret tt);;
  stub_object stub.

(** SWAP_PREAMBLE and SWAP_PREAMBLE_TEMPLATE return what the call on the object
    returned. *)
Definition SWAP_PREAMBLE {A} (this : Z) (call body : Z -> SM A) : SM A :=
  isStub ← getm (fun m => GetStubFlag m this);
  if (isStub : bool) then
    o ← enter_stub this;
    result ← call o;
    UnlockTableEntry this;;
    mret result
  else body this.
(** SWAP_PREAMBLE_VOID and SWAP_PREAMBLE_TEMPLATE_VOID have no return: the body
    of the accessor follows. *)
Definition SWAP_PREAMBLE_VOID (this : Z) (call body : Z -> SM unit) : SM unit :=
  isStub ← getm (fun m => GetStubFlag m this);
  when isStub (
    o ← enter_stub this;
    call o;;
    UnlockTableEntry this);;
  body this.

(** ** The accessors *)
Fixpoint Object_GetField (fuel n : nat) (field_offset this : Z) : SM Z :=
  match fuel with
  | O => fun _ => Diverged
  | S fuel => SWAP_PREAMBLE this (Object_GetField fuel n field_offset)
                (fun this => raw_read (fun m => GetField n m this field_offset))
  end.
Fixpoint Object_SetField (fuel n : nat) (field_offset new_value this : Z) : SM unit :=
  match fuel with
  | O => fun _ => Diverged
  | S fuel => SWAP_PREAMBLE_VOID this (Object_SetField fuel n field_offset new_value)
                (fun this => modm (fun m => SetField n m this field_offset new_value))
  end.
Fixpoint Object_CasField (fuel n : nat) (field_offset old_value new_value this : Z) : SM bool :=
  match fuel with
  | O => fun _ => Diverged
  | S fuel => SWAP_PREAMBLE this (Object_CasField fuel n field_offset old_value new_value)
                (fun this => raw_read (fun m => CasField n m this field_offset old_value new_value))
  end.
(** The one setter that does not use the macro: it refreshes the stub. *)
Fixpoint Object_SetFieldObjectWithoutWriteBarrier (fuel : nat) (field_offset new_value this : Z) : SM unit :=
  match fuel with
  | O => fun _ => Diverged
  | S fuel =>
      isStub ← getm (fun m => GetStubFlag m this);
      if (isStub : bool) then
        o ← enter_stub this;
        Object_SetFieldObjectWithoutWriteBarrier fuel field_offset new_value o;;
        o ← stub_object this;
        '(m, t) ← try (fun w => PopulateFrom ct (w_mem w) (recTable w) this o);
        modify (set_w_mem m);;
        modify (set_recTable t);;
        UnlockTableEntry this
      else modm (fun m => SetFieldObjectWithoutWriteBarrier m this field_offset new_value)
  end.

(** ** Entering a stub *)
Lemma enter_resident w stub i e o n offs :
  placed ct w stub i e o n offs -> GetResidentBit e = true ->
  enter_stub stub w = Done (o, with_table_entry w i (IncrAppLockCounter e)).
Proof.
  intros Hp Hr. pose proof Hp as [Hm Hfl Hst Hen Heo Hul Ha H0 Hsp Hl Hk Hn _ _ _]. unfold enter_stub.
  rewrite (bind_done _ _ _ _ _ (LockTableEntry_done w stub i e Hen Hul)).
  set (w1 := with_table_entry w i (IncrAppLockCounter e)).
  assert (He1 : entry_is w1 (GetTableEntry (w_mem w1) stub) i (IncrAppLockCounter e)) by (by eapply entry_is_with).
  unfold stub_resident, stub_entry, getm. rewrite !bind_assoc, bind_gets, !bind_assoc.
  rewrite (bind_done _ _ _ _ _ (entry_at_done w1 _ i _ He1)), bind_ret.
  unfold GetResidentBit, IncrAppLockCounter in *. rewrite GetBit_counter, Hr. cbn [negb].
  rewrite bind_ret, (stub_object_done w1 stub i _ He1). by rewrite <- Ha.
Qed.

Lemma swapped_out_locked w m0 stub i e o n offs :
  swapped_out ct w m0 stub i e o n offs ->
  swapped_out ct (with_table_entry w i (IncrAppLockCounter e)) m0 stub i (IncrAppLockCounter e) o n offs.
Proof.
  intros [Hm He Hab Ha Hf Hsz Hl Hap Hcl Hr]. split; try done.
  - by eapply entry_is_with.
Qed.

(** The state after the object was swapped in for an access. *)
Definition swapped_in (w : world R) (m3 : mem) (i : nat) (e : TableEntry) : world R :=
  with_table_entry (set_w_mem m3 w) i (SetResidentBit e).

Lemma enter_swapped_out w m0 stub i e o n offs :
  swapped_out ct w m0 stub i e o n offs -> GetKernelLockBit e = false ->
  swapEnabled w = true -> contains (ros w) stub = true ->
  exists m3, enter_stub stub w = Done (o, swapped_in w m3 i (IncrAppLockCounter e)) /\
    mem_ok m3 /\ agree_on m3 m0 o n /\ agree_outside m3 (w_mem w) o n.
Proof.
  intros Hs Hul Hen Hros. pose proof (swapped_out_locked _ _ _ _ _ _ _ _ Hs) as Hs1.
  pose proof Hs as [_ He Hab [Ha H0] _ _ Hl Hap _ _].
  destruct (SwapInOnDemand_done ct _ m0 stub i _ o n offs Hs1 Hen Hros) as (m3 & Hd & Hm3 & Hon & Hout).
  exists m3. split; [|done]. unfold enter_stub.
  rewrite (bind_done _ _ _ _ _ (LockTableEntry_done w stub i e He Hul)).
  set (w1 := with_table_entry w i (IncrAppLockCounter e)) in *.
  pose proof (sw_entry _ _ _ _ _ _ _ _ _ Hs1) as He1.
  unfold stub_resident, stub_entry, getm. rewrite !bind_assoc, bind_gets, !bind_assoc.
  rewrite (bind_done _ _ _ _ _ (entry_at_done w1 _ i _ He1)), bind_ret.
  rewrite (sw_absent _ _ _ _ _ _ _ _ _ Hs1). cbn [negb]. rewrite (bind_done _ _ _ _ _ Hd).
  set (w2 := with_table_entry (set_w_mem m3 w1) i _).
  assert (E : w2 = swapped_in w m3 i (IncrAppLockCounter e)).
  { unfold w2, w1, swapped_in, with_table_entry. simpl. by rewrite list_insert_insert_eq. }
  rewrite (stub_object_done w2 stub i (SetResidentBit (IncrAppLockCounter e))).
  - rewrite E. by rewrite <- Ha.
  - unfold w2. eapply (entry_is_with (set_w_mem m3 w1)). simpl w_mem.
    rewrite (table_entry_ext (w_mem w)); [exact He1|]. intros x Hx. apply Hout.
    unfold apart, sizeof_Stub in Hap. destruct (ly_size _ _ _ _ _ Hl). unfold kObjectHeaderSize, sizeof_HeapReference in *. lia.
Qed.

(** ** Reading through a stub *)

(** The object at [o] has the image [m0], in memory or in the swap file. *)
Definition object_image (w : world R) (m0 : mem) (stub : Z) (i : nat) (e : TableEntry) (o n : Z)
    (offs : list Z) : Prop :=
  (placed ct w stub i e o n offs /\ GetResidentBit e = true /\ m0 = w_mem w) \/
  (swapped_out ct w m0 stub i e o n offs /\ GetStubFlag (w_mem w) stub = true /\ entry_ok e /\
   GetKernelLockBit e = false).

Lemma set_resident_same e : entry_ok e -> GetResidentBit e = true -> SetResidentBit e = e.
Proof.
  intros [Hb _] Hr. unfold GetResidentBit, GetBit, SetResidentBit, SetBit in *.
  destruct e as [b c p a s]. simpl in *. f_equal.
  assert (Hd : to_bool (Z.land (Z.shiftr b RESIDENT_BIT_OFFSET) 1) = false \/
    Z.lor b (u8 (Z.shiftl 1 RESIDENT_BIT_OFFSET)) = b) by by_bytes b.
  destruct Hd; [congruence | done].
Qed.

(** Entering, in both cases: the object is in memory, and its entry locked. *)
Lemma enter_image w m0 stub i e o n offs :
  object_image w m0 stub i e o n offs -> swapEnabled w = true -> contains (ros w) stub = true ->
  exists m1, enter_stub stub w = Done (o, swapped_in w m1 i (IncrAppLockCounter e)) /\
    mem_ok m1 /\ agree_on m1 m0 o n /\ agree_outside m1 (w_mem w) o n /\
    GetStubFlag (w_mem w) stub = true /\ entry_ok (SetResidentBit e) /\
    apart stub (Z.of_nat (length offs)) o n /\ 16 <= n /\ layout ct m0 o n offs /\
    entry_is (swapped_in w m1 i (IncrAppLockCounter e)) (GetTableEntry m1 stub) i
      (IncrAppLockCounter (SetResidentBit e)).
Proof.
  intros [(Hp & Hr & ->)|(Hs & Hfl & Heo & Hul)] Hen Hros.
  - pose proof Hp as [Hm Hfl _ He Heo Hul Ha H0 _ Hl _ _ Hpg Hap _]. destruct (placed_header _ _ _ _ _ _ _ _ Hp) as [H16 _].
    exists (w_mem w). rewrite (enter_resident w stub i e o n offs Hp Hr).
    assert (E : SetResidentBit (IncrAppLockCounter e) = IncrAppLockCounter e).
    { change (IncrAppLockCounter (SetResidentBit e) = IncrAppLockCounter e). by rewrite set_resident_same. }
    assert (Ew : swapped_in w (w_mem w) i (IncrAppLockCounter e) = with_table_entry w i (IncrAppLockCounter e)).
    { unfold swapped_in. rewrite E. by destruct w. }
    rewrite Ew, set_resident_same by done. split_and!; try done.
    + unfold apart in *. lia.
    + by eapply entry_is_with.
  - destruct (enter_swapped_out w m0 stub i e o n offs Hs Hul Hen Hros) as (m3 & Hd & Hm3 & Hon & Hout).
    pose proof Hs as [_ He _ _ _ _ Hl Hap _ _]. destruct (ly_size _ _ _ _ _ Hl) as [H16 _]. unfold kObjectHeaderSize in H16.
    exists m3. split_and!; try done; [by apply entry_ok_SetBit|].
    change (IncrAppLockCounter (SetResidentBit e)) with (SetResidentBit (IncrAppLockCounter e)).
    unfold swapped_in. eapply (entry_is_with (set_w_mem m3 w)).
    rewrite (table_entry_ext (w_mem w)); [exact He|]. intros x Hx. apply Hout.
    unfold apart, sizeof_Stub, sizeof_HeapReference in Hap. lia.
Qed.

(** Leaving a stub after the object's memory changed to [m']. *)
Lemma leave_stub w m1 m' stub i e :
  entry_is (swapped_in w m1 i (IncrAppLockCounter e)) (GetTableEntry m1 stub) i
    (IncrAppLockCounter (SetResidentBit e)) ->
  entry_ok (SetResidentBit e) -> GetTableEntry m' stub = GetTableEntry m1 stub ->
  UnlockTableEntry stub (set_w_mem m' (swapped_in w m1 i (IncrAppLockCounter e))) =
  Done (tt, swapped_in w m' i e).
Proof.
  intros He Hok Hte. rewrite (UnlockTableEntry_done _ stub i (IncrAppLockCounter (SetResidentBit e))).
  - rewrite incr_decr by done. unfold swapped_in, with_table_entry. simpl. by rewrite list_insert_insert_eq.
  - simpl w_mem. rewrite Hte. exact He.
Qed.

Lemma note_read_spec m o :
  mem_ok m -> mem_ok (note_read m o) /\ agree_outside (note_read m o) m (o + x_access_bits_offset) 1.
Proof.
  intros Hm. unfold note_read. destruct (GetIgnoreReadFlag m o); [by split; [|intros x _]|].
  split; [by apply mem_ok_store8|]. intros x Hx. apply load8_store8_ne. lia.
Qed.

(** C25: reading a field through a stub is transparent. Whether the object is
    resident or has to be read back from the swap file first, [GetField] on
    the stub returns the object's field, and leaves the object resident,
    unlocked as before, with no byte changed but its access bits. *)
Theorem get_through_stub w m0 stub i e o n offs k off fuel :
  object_image w m0 stub i e o n offs -> GetStubFlag m0 o = false ->
  swapEnabled w = true -> contains (ros w) stub = true ->
  kObjectHeaderSize <= off -> off + Z.of_nat k <= n ->
  exists m', Object_GetField (S (S fuel)) k off stub w = Done (loadw k m0 (o + off), swapped_in w m' i e) /\
    (forall x, o <= x < o + n -> x <> o + x_access_bits_offset -> load8 m' x = load8 m0 x) /\
    agree_outside m' (w_mem w) o n.
Proof.
  intros Him Hns Hen Hros H16 Hoff.
  destruct (enter_image w m0 stub i e o n offs Him Hen Hros)
    as (m1 & Hent & Hm1 & Hon & Hout & Hfl & Hok & Hap & Hn & Hl & Hei).
  destruct (note_read_spec m1 o Hm1) as [_ Hnr]. exists (note_read m1 o).
  unfold kObjectHeaderSize, apart, sizeof_Stub, sizeof_HeapReference, x_access_bits_offset in *. split_and!.
  - cbn [Object_GetField]. unfold SWAP_PREAMBLE at 1, getm. rewrite bind_gets, Hfl, (bind_done _ _ _ _ _ Hent).
    erewrite bind_done.
    2: { unfold SWAP_PREAMBLE, getm. rewrite bind_gets. simpl w_mem.
         unfold GetStubFlag, x_flags in *. rewrite Hon, Hns by (unfold x_flags_offset; lia).
         unfold raw_read, GetField. simpl w_mem. reflexivity. }
    assert (Hte : GetTableEntry (note_read m1 o) stub = GetTableEntry m1 stub)
      by (apply table_entry_ext; intros x Hx; apply Hnr; lia).
    rewrite (bind_done _ _ _ _ _ (leave_stub w m1 (note_read m1 o) stub i e Hei Hok Hte)).
    rewrite (loadw_ext k (note_read m1 o) m0 (o + off)); [reflexivity|].
    intros x Hx. rewrite Hnr by lia. apply Hon. lia.
  - intros x Hx Hne. rewrite Hnr by lia. by apply Hon.
  - intros x Hx. rewrite Hnr by lia. by apply Hout.
Qed.

(** ** Writing a reference through a stub *)
Lemma image_address w m0 stub i e o n offs :
  object_image w m0 stub i e o n offs -> RTE_GetObjectAddress e = o /\ u32 o = o.
Proof.
  intros [(Hp & _)|(Hs & _ & Heo & _)].
  - pose proof (pl_addr _ _ _ _ _ _ _ _ Hp) as Ha. pose proof (pl_entry_ok _ _ _ _ _ _ _ _ Hp) as (_ & _ & _ & Hw & _).
    split; [done|]. rewrite <- Ha. by apply wrap_small.
  - destruct (sw_addr _ _ _ _ _ _ _ _ _ Hs) as [Ha _]. destruct Heo as (_ & _ & _ & Hw & _).
    split; [done|]. rewrite <- Ha. by apply wrap_small.
Qed.

(** Populating the stub again leaves the table as it is. *)
Lemma repopulate w m1 m2 stub i e o n offs :
  entry_is (swapped_in w m1 i (IncrAppLockCounter e)) (GetTableEntry m1 stub) i
    (IncrAppLockCounter (SetResidentBit e)) ->
  RTE_GetObjectAddress e = o -> u32 o = o -> GetTableEntry m2 stub = GetTableEntry m1 stub ->
  mem_ok m2 -> layout ct m2 o n offs -> apart stub (Z.of_nat (length offs)) o n ->
  exists m', PopulateFrom ct m2 (recTable (swapped_in w m1 i (IncrAppLockCounter e))) stub o =
      Done (m', recTable (swapped_in w m1 i (IncrAppLockCounter e))) /\
    mem_ok m' /\ stub_of m' stub o (ref_words m2 o offs) /\ object_kept m2 m' o n /\
    (forall x, ~ (stub + 8 <= x < stub + 16 + 4 * Z.of_nat (length offs)) -> x <> o + x_access_bits_offset ->
       load8 m' x = load8 m2 x).
Proof.
  intros [Hi He] Ha Hu Hte Hm2 Hl Hap.
  destruct (PopulateFrom_done ct m2 (recTable (swapped_in w m1 i (IncrAppLockCounter e))) stub o n offs i)
    as (m' & HP & Hrest); try done; [by rewrite Hte|].
  exists m'. split; [|exact Hrest]. rewrite HP, (alter_known _ _ _ _ He). do 3 f_equal.
  rewrite list_insert_id; [by destruct (recTable w)|]. rewrite He. f_equal.
  unfold RTE_SetObjectAddress, RTE_GetObjectAddress in *. rewrite Hu, <- Ha. by destruct e.
Qed.

(** C26: writing a reference through a stub keeps stub and object in step.
    After [SetFieldObject] on the stub, resident or not before, the object has
    the new reference and is dirty, the stub holds exactly the references of
    the object, and no byte changed but the reference, the object's dirty and
    access bytes, and the stub itself; the entry is unlocked as before. *)
Theorem set_ref_through_stub w m0 stub i e o n offs j off v fuel :
  object_image w m0 stub i e o n offs -> GetStubFlag m0 o = false ->
  swapEnabled w = true -> contains (ros w) stub = true ->
  offs !! j = Some off -> off <> ClassOffset -> in_width 32 v ->
  exists m', Object_SetFieldObjectWithoutWriteBarrier (S (S fuel)) off v stub w = Done (tt, swapped_in w m' i e) /\
    load32 m' (o + off) = v /\ GetDirtyBit m' o = true /\
    stub_of m' stub o (ref_words m' o offs) /\
    (forall x, o <= x < o + n -> ~ (o + off <= x < o + off + 4) ->
       x <> o + x_dirty_bit_offset -> x <> o + x_access_bits_offset -> load8 m' x = load8 m0 x) /\
    (forall x, ~ (o <= x < o + n) -> ~ (stub + 8 <= x < stub + 16 + 4 * Z.of_nat (length offs)) ->
       load8 m' x = load8 (w_mem w) x).
Proof.
  intros Him Hns Hen Hros Hj Hcl Hv. destruct (image_address _ _ _ _ _ _ _ _ Him) as [Ha Hu].
  destruct (enter_image w m0 stub i e o n offs Him Hen Hros)
    as (m1 & Hent & Hm1 & Hon & Hout & Hfl & Hok & Hap & Hn & Hl & Hei).
  destruct (layout_ref_offsets _ _ _ _ _ Hl) as [Hro _].
  pose proof (Forall_lookup_1 _ _ _ _ Hro Hj) as Hoff.
  destruct (set_ref_spec m1 o off v n Hm1 Hoff Hv) as (Hm2 & Hv2 & Hd2 & _ & Hx2).
  set (m2 := SetFieldObjectWithoutWriteBarrier m1 o off v) in *.
  destruct Hoff as [[Hc|H16] [Hend _]]; [done|].
  unfold ClassOffset, klass_offset, kObjectHeaderSize, x_dirty_bit_offset in *.
  assert (Hap' := Hap). unfold apart, sizeof_Stub, sizeof_HeapReference in Hap'.
  assert (Hte : GetTableEntry m2 stub = GetTableEntry m1 stub)
    by (apply table_entry_ext; intros x Hx; apply Hx2; lia).
  assert (Hl2 : layout ct m2 o n offs).
  { eapply layout_ext; [|exact Hl]. apply loadw_ext. intros x Hx. rewrite Hx2 by lia. apply Hon. lia. }
  destruct (repopulate w m1 m2 stub i e o n offs Hei Ha Hu Hte Hm2 Hl2 Hap)
    as (m' & HP & Hm' & Hso & [Hk1 Hk2] & Hx').
  assert (Hte' : GetTableEntry m' stub = GetTableEntry m1 stub).
  { rewrite <- Hte. apply table_entry_ext. intros x Hx. apply Hx'; unfold x_access_bits_offset; lia. }
  exists m'. unfold x_access_bits_offset in *. split_and!.
  - cbn [Object_SetFieldObjectWithoutWriteBarrier]. unfold getm. rewrite bind_gets, Hfl, (bind_done _ _ _ _ _ Hent).
    set (w1 := swapped_in w m1 i (IncrAppLockCounter e)) in *.
    erewrite bind_done.
    2: { rewrite bind_gets. change (w_mem w1) with m1.
         unfold GetStubFlag, x_flags in *. rewrite Hon, Hns by (unfold x_flags_offset; lia).
         unfold modm, modify. reflexivity. }
    change (w_mem w1) with m1. fold m2.
    erewrite bind_done; [|apply (stub_object_done (set_w_mem m2 w1) stub i (IncrAppLockCounter (SetResidentBit e)));
      simpl w_mem; rewrite Hte; exact Hei].
    change (RTE_GetObjectAddress (IncrAppLockCounter (SetResidentBit e))) with (RTE_GetObjectAddress e). rewrite Ha.
    erewrite bind_done; [|unfold try; simpl w_mem; simpl recTable; unfold w1 in HP |- *; simpl recTable in HP; rewrite HP; reflexivity].
    cbv beta iota. rewrite !bind_modify. by apply (leave_stub w m1 m').
  - rewrite <- Hv2. apply loadw_ext. intros x Hx. apply Hk1; lia.
  - rewrite <- Hd2. unfold GetDirtyBit, x_dirty_bit, x_dirty_bit_offset. rewrite Hk1; [done | lia | lia].
  - rewrite (ref_words_ext ct m2 m' o n offs Hl2) by exact Hk1. exact Hso.
  - intros x Hx Hnr H10 H11. rewrite Hk1 by done. rewrite Hx2 by lia. by apply Hon.
  - intros x Hx Hns'. rewrite Hx' by lia. rewrite Hx2 by lia. by apply Hout.
Qed.

(** ** Writing a primitive field through a stub *)
Lemma SetField_spec k m o off v :
  mem_ok m -> kObjectHeaderSize <= off ->
  let m1 := SetField k m o off v in
  mem_ok m1 /\ loadw k m1 (o + off) = wrap (8 * Z.of_nat k) v /\ GetDirtyBit m1 o = true /\
  GetWriteBit m1 o = true /\
  forall x, ~ (o + off <= x < o + off + Z.of_nat k) -> x <> o + 10 -> x <> o + 11 -> load8 m1 x = load8 m x.
Proof.
  intros Hm Hoff m1. unfold kObjectHeaderSize in Hoff.
  unfold m1, SetField, note_write, SetDirtyBit, SetWriteBit, GetDirtyBit, GetWriteBit, x_dirty_bit, x_access_bits,
    x_dirty_bit_offset, x_access_bits_offset.
  assert (Hm2 : mem_ok (storew k m (o + off) v)) by (by apply mem_ok_storew). split_and!.
  - by apply mem_ok_store8, mem_ok_store8.
  - by simpl_mem.
  - by simpl_mem.
  - rewrite load8_store8_ne, load8_store8_eq by lia.
    pose proof (mem_ok_load8 _ (o + 11) Hm2) as Hb. generalize dependent (load8 (storew k m (o + off) v) (o + 11)).
    intros b Hb. by_bytes b.
  - intros x Hx H10 H11. rewrite !load8_store8_ne by lia. apply load8_storew_ne. lia.
Qed.

(** The count of references of a stub whose header was marked as written. *)
Lemma marked_num_refs m s :
  mem_ok m -> load8 m (s + 10) = 1 -> to_bool (GetBits8 (load8 m (s + 11)) 2 1) = true ->
  1025 <= GetNumRefs m s.
Proof.
  intros Hm H10 H11. unfold GetNumRefs, num_refs_offset.
  change (loadw 2 m (s + 10)) with (load8 m (s + 10) + 256 * (load8 m (s + 10 + 1) + 256 * 0)).
  replace (s + 10 + 1) with (s + 11) by lia. rewrite H10.
  pose proof (mem_ok_load8 m (s + 11) Hm) as Hb. generalize dependent (load8 m (s + 11)). intros b H11 Hb.
  assert (Hd : to_bool (GetBits8 b 2 1) = false \/ 4 <= b) by by_bytes b.
  destruct Hd; [congruence | lia].
Qed.

(** Writing a primitive field through a stub corrupts the stub. The macro of
    the setters that return nothing does not return after the call on the
    object: [SetField] stores the value in the object, as it should, and then
    runs its body on the stub as well. That overwrites the stub's memory at
    the offset of the field, where its references are, and marks the stub as
    written and dirty in bytes 10 and 11, which hold its number of references:
    the count is at least 1025 from then on. *)
Theorem set_field_corrupts_stub w m0 stub i e o n offs k off v fuel :
  object_image w m0 stub i e o n offs -> GetStubFlag m0 o = false ->
  swapEnabled w = true -> contains (ros w) stub = true ->
  kObjectHeaderSize <= off -> off + Z.of_nat k <= n -> stub + n <= o \/ o + n <= stub ->
  exists m', Object_SetField (S (S fuel)) k off v stub w = Done (tt, swapped_in w m' i e) /\
    loadw k m' (o + off) = wrap (8 * Z.of_nat k) v /\ GetDirtyBit m' o = true /\
    loadw k m' (stub + off) = wrap (8 * Z.of_nat k) v /\ 1025 <= GetNumRefs m' stub.
Proof.
  intros Him Hns Hen Hros H16 Hoff Hfar.
  destruct (enter_image w m0 stub i e o n offs Him Hen Hros)
    as (m1 & Hent & Hm1 & Hon & Hout & Hfl & Hok & Hap & Hn & Hl & Hei).
  destruct (SetField_spec k m1 o off v Hm1 H16) as (Hm2 & Hv2 & Hd2 & _ & Hx2).
  set (m2 := SetField k m1 o off v) in *.
  destruct (SetField_spec k m2 stub off v Hm2 H16) as (Hm3 & Hv3 & Hd3 & Hw3 & Hx3).
  set (m3 := SetField k m2 stub off v) in *. unfold kObjectHeaderSize in H16.
  assert (Hte : GetTableEntry m2 stub = GetTableEntry m1 stub)
    by (apply table_entry_ext; intros x Hx; apply Hx2; lia).
  exists m3. split_and!.
  - cbn [Object_SetField]. unfold SWAP_PREAMBLE_VOID at 1, getm. rewrite bind_gets, Hfl. cbn [when].
    rewrite !bind_assoc, (bind_done _ _ _ _ _ Hent), !bind_assoc. erewrite bind_done.
    2: { unfold SWAP_PREAMBLE_VOID, getm. rewrite bind_gets. simpl w_mem.
         unfold GetStubFlag, x_flags in *. rewrite Hon, Hns by (unfold x_flags_offset; lia).
         cbn [when]. rewrite bind_ret. unfold modm, modify. simpl w_mem. reflexivity. }
    fold m2. rewrite (bind_done _ _ _ _ _ (leave_stub w m1 m2 stub i e Hei Hok Hte)). reflexivity.
  - rewrite <- Hv2. apply loadw_ext. intros x Hx. apply Hx3; lia.
  - rewrite <- Hd2. unfold GetDirtyBit, x_dirty_bit, x_dirty_bit_offset. rewrite Hx3; [done | lia..].
  - exact Hv3.
  - apply marked_num_refs; [done | | exact Hw3].
    unfold m3, SetField, note_write, SetDirtyBit, x_dirty_bit_offset. by rewrite load8_store8_eq.
Qed.

(** ** Compare-and-swap through a stub *)
Lemma cas_through_stub w stub i e o n offs k off old new fuel :
  placed ct w stub i e o n offs -> GetResidentBit e = true -> GetStubFlag (w_mem w) o = false ->
  swapEnabled w = true -> contains (ros w) stub = true ->
  kObjectHeaderSize <= off -> off + Z.of_nat k <= n -> loadw k (w_mem w) (o + off) = old ->
  Object_CasField (S (S fuel)) k off old new stub w =
    Done (true, set_w_mem (storew k (w_mem w) (o + off) new) w).
Proof.
  intros Hp Hr Hns Hen Hros H16 Hoff Hold. unfold kObjectHeaderSize in H16.
  pose proof Hp as [Hm Hfl _ He Heo _ _ _ _ _ _ _ _ Hap _].
  destruct (placed_header _ _ _ _ _ _ _ _ Hp) as [Hn Hpg].
  set (m2 := storew k (w_mem w) (o + off) new).
  assert (Hte : GetTableEntry m2 stub = GetTableEntry (w_mem w) stub).
  { apply table_entry_ext. intros x Hx. unfold apart, sizeof_Stub, sizeof_HeapReference in Hap.
    apply load8_storew_ne. lia. }
  cbn [Object_CasField]. unfold SWAP_PREAMBLE at 1, getm.
  rewrite bind_gets, Hfl, (bind_done _ _ _ _ _ (enter_resident w stub i e o n offs Hp Hr)).
  set (w1 := with_table_entry w i (IncrAppLockCounter e)).
  assert (He1 : entry_is w1 (GetTableEntry (w_mem w) stub) i (IncrAppLockCounter e)) by (by eapply entry_is_with).
  erewrite bind_done.
  2: { unfold SWAP_PREAMBLE, getm. rewrite bind_gets. change (w_mem w1) with (w_mem w). rewrite Hns.
       unfold raw_read, CasField. change (w_mem w1) with (w_mem w). rewrite Hold, Z.eqb_refl. reflexivity. }
  fold m2. erewrite bind_done.
  2: { eapply (UnlockTableEntry_done (set_w_mem m2 w1)). simpl w_mem. rewrite Hte. exact He1. }
  unfold mret, M_ret. do 2 f_equal. rewrite incr_decr by done.
  change (set_w_mem m2 (with_table_entry w1 i e) = set_w_mem m2 w). unfold w1.
  by rewrite with_with, (with_same w _ i e He).
Qed.

(** A compare-and-swap through a stub is lost. The accessors that
    compare-and-swap a field set neither the dirty nor the write bit: for a
    cold, clean object whose bytes are in the swap file, the swap succeeds and
    the field has the new value; the kernel still takes the object for clean
    and discards its pages; and when it is swapped in again, the field has
    the old value. *)
Theorem cas_update_lost w stub i e o n offs k off old new fuel :
  placed ct w stub i e o n offs -> GetStubFlag (w_mem w) o = false ->
  GetOccupiedBit e = true -> GetAppLockCounter e = 0 -> GetResidentBit e = true ->
  objectIsCold (GetWriteShiftRegister (w_mem w) o) (GetWriteBit (w_mem w) o) = true ->
  GetDirtyBit (w_mem w) o = false -> GetIgnoreReadFlag (w_mem w) o = false ->
  swapEnabled w = true -> contains (ros w) stub = true ->
  swapfile_ok w -> objectSizeMap w !! stub = Some n ->
  snapshot_of w stub = Some (load_bytes (w_mem w) o (Z.to_nat n)) ->
  kObjectHeaderSize <= off -> off + Z.of_nat k <= n -> loadw k (w_mem w) (o + off) = old ->
  exists w1 w2 w3,
    Object_CasField (S (S fuel)) k off old new stub w = Done (true, w1) /\
    loadw k (w_mem w1) (o + off) = wrap (8 * Z.of_nat k) new /\
    reclaim_entry (GetTableEntry (w_mem w) stub) w1 = Done (tt, w2) /\
    SwapInOnDemand ct stub w2 = Done (tt, w3) /\
    loadw k (w_mem w3) (o + off) = old.
Proof.
  intros Hp Hns Hoc Hcn Hr Hcold Hd Hig Hen Hros Hf Hsz Hsn H16 Hoff Hold.
  pose proof Hp as [Hm Hfl _ He Heo Hul Ha H0 Hsp _ _ _ Hpg _ _].
  pose proof (cas_through_stub w stub i e o n offs k off old new fuel Hp Hr Hns Hen Hros H16 Hoff Hold) as Hcas.
  unfold kObjectHeaderSize in H16. set (w1 := set_w_mem _ w) in Hcas.
  assert (Hx : forall x, x < o + 16 -> load8 (w_mem w1) x = load8 (w_mem w) x)
    by (intros x Hx; apply load8_storew_ne; clear -H16 Hx; lia).
  assert (Hrec : reclaim_entry (GetTableEntry (w_mem w) stub) w1 = Done (tt, reclaimed w1 i e)).
  { rewrite (reclaim_entry_done w1 _ i e); try done; [|intros _ _; rewrite Ha; split; [clear -H0; lia | done]].
    replace (reclaimable (w_mem w1) e) with true; [done|]. unfold reclaimable. rewrite Hoc, Hcn, Hr, Ha.
    unfold GetDirtyBit, GetWriteShiftRegister, GetWriteBit, x_dirty_bit, x_shift_regs, x_access_bits,
      x_dirty_bit_offset, x_shift_regs_offset, x_access_bits_offset in *.
    rewrite !Hx by (clear; lia). by rewrite Hd, Hcold. }
  destruct (SwapInOnDemand_done ct (reclaimed w1 i e) (w_mem w) stub i (ClearResidentBit e) o n offs)
    as (m3 & Hin & _ & Hon & _); try done.
  { apply (reclaimed_swapped_out ct w); try done; [by apply mem_ok_storew|].
    intros x Hx'. apply load8_storew_ne. clear -H16 Hoff Hpg Hx'. lia. }
  eexists w1, _, _. split_and!; [exact Hcas | | exact Hrec | exact Hin |].
  - apply loadw_storew_eq.
  - rewrite <- Hold. apply loadw_ext. intros x Hx'. apply Hon. clear -H16 Hoff Hx'. lia.
Qed.
End Access.

(** *** Accesses to the object of SwapCycle *)
#[local] Definition demo_ros := FreeListSpace.FreeListSpace_allocator 0x9000.
(** The same object, clean, with its bytes in the swap file. *)
Definition demo_clean_memory : mem := ClearDirtyBit demo_stub_memory 0x2000.
Definition demo_clean_world : world FreeListSpace.FreeListSpace :=
  set_swapfile (mkStream ([1; 0; 0; 0] ++ load_bytes demo_clean_memory 0x2000 28) 32 false)
    (set_w_mem demo_clean_memory demo_world).

Lemma demo_image : object_image demo_classes demo_world demo_stub_memory 0x1000 0 demo_entry 0x2000 28 [0; 16; 20].
Proof. left. split_and!; [apply demo_placed | vm_compute; reflexivity | reflexivity]. Qed.

Lemma get_through_stub_witness :
  exists m', Object_GetField (RosAlloc := demo_ros) demo_classes 2 4 24 0x1000 demo_world =
    Done (42, swapped_in demo_world m' 0 demo_entry) /\ load32 m' 0x2018 = 42.
Proof.
  destruct (get_through_stub (RosAlloc := demo_ros) demo_classes demo_world demo_stub_memory 0x1000 0 demo_entry
              0x2000 28 [0; 16; 20] 4 24 0) as (m' & H & Hx & _).
  - apply demo_image.
  - vm_compute; reflexivity.
  - reflexivity.
  - vm_compute; reflexivity.
  - unfold kObjectHeaderSize. lia.
  - lia.
  - exists m'. assert (E : load32 demo_stub_memory (0x2000 + 24) = 42) by (vm_compute; reflexivity).
    split; [by rewrite E in H|]. rewrite <- E. apply loadw_ext. intros x Hr.
    apply Hx; unfold x_access_bits_offset; lia.
Defined.

Lemma set_ref_through_stub_witness :
  exists m', Object_SetFieldObjectWithoutWriteBarrier (RosAlloc := demo_ros) demo_classes 2 20 0x7000 0x1000 demo_world =
    Done (tt, swapped_in demo_world m' 0 demo_entry) /\ load32 m' 0x2014 = 0x7000 /\
    GetReference m' 0x1000 2 = 0x7000.
Proof.
  destruct (set_ref_through_stub (RosAlloc := demo_ros) demo_classes demo_world demo_stub_memory 0x1000 0 demo_entry
              0x2000 28 [0; 16; 20] 2 20 0x7000 0) as (m' & H & Hv & _ & Hs & _).
  - apply demo_image.
  - vm_compute; reflexivity.
  - reflexivity.
  - vm_compute; reflexivity.
  - reflexivity.
  - unfold ClassOffset, klass_offset. lia.
  - unfold in_width. lia.
  - exists m'. split_and!; [exact H | exact Hv |]. apply (so_refs _ _ _ _ Hs 2%nat).
    unfold ref_words. cbn. f_equal. exact Hv.
Defined.

Lemma set_field_corrupts_stub_witness :
  GetNumRefs demo_stub_memory 0x1000 = 3 /\
  exists m', Object_SetField (RosAlloc := demo_ros) demo_classes 2 4 24 43 0x1000 demo_world =
    Done (tt, swapped_in demo_world m' 0 demo_entry) /\ load32 m' 0x2018 = 43 /\
    load32 m' 0x1018 = 43 /\ 1025 <= GetNumRefs m' 0x1000.
Proof.
  split; [vm_compute; reflexivity|].
  destruct (set_field_corrupts_stub (RosAlloc := demo_ros) demo_classes demo_world demo_stub_memory 0x1000 0
              demo_entry 0x2000 28 [0; 16; 20] 4 24 43 0) as (m' & H & Hv & _ & Hs & Hn).
  - apply demo_image.
  - vm_compute; reflexivity.
  - reflexivity.
  - vm_compute; reflexivity.
  - unfold kObjectHeaderSize. lia.
  - lia.
  - lia.
  - exists m'. split_and!; [exact H | exact Hv | exact Hs | exact Hn].
Defined.

Lemma demo_clean_placed :
  placed demo_classes demo_clean_world 0x1000 0 demo_entry 0x2000 28 [0; 16; 20].
Proof.
  destruct demo_stub_spec as (Hm & _ & _). split.
  - by apply mem_ok_store8.
  - vm_compute; reflexivity.
  - lia.
  - split; vm_compute; reflexivity.
  - apply (pl_entry_ok _ _ _ _ _ _ _ _ demo_placed).
  - vm_compute; reflexivity.
  - reflexivity.
  - lia.
  - vm_compute; reflexivity.
  - eapply layout_ext; [|apply demo_layout]. vm_compute; reflexivity.
  - vm_compute. congruence.
  - vm_compute; reflexivity.
  - vm_compute. congruence.
  - left. unfold sizeof_Stub, sizeof_HeapReference. simpl. lia.
  - intros j off Hj. destruct j as [|[|[|j]]]; [injection Hj as <-..|done]; vm_compute; reflexivity.
Qed.
Lemma demo_clean_file : swapfile_ok demo_clean_world.
Proof.
  split; [reflexivity | vm_compute; reflexivity | vm_compute; reflexivity | |].
  - intros k pos n Hk Hn. cbn in Hk, Hn. apply lookup_singleton_Some in Hk as [<- <-].
    apply lookup_singleton_Some in Hn as [_ <-]. vm_compute. split_and!; congruence.
  - intros k k' pos n pos' n' Hne Hk _ Hk' _. cbn in Hk, Hk'. apply lookup_singleton_Some in Hk as [<- _].
    by apply lookup_singleton_Some in Hk' as [<- _].
Qed.

Lemma cas_update_lost_witness :
  exists w1 w2 w3 : world FreeListSpace.FreeListSpace,
    Object_CasField (RosAlloc := demo_ros) demo_classes 2 4 24 42 43 0x1000 demo_clean_world = Done (true, w1) /\
    load32 (w_mem w1) 0x2018 = 43 /\
    reclaim_entry (GetTableEntry (w_mem demo_clean_world) 0x1000) w1 = Done (tt, w2) /\
    SwapInOnDemand (RosAlloc := demo_ros) demo_classes 0x1000 w2 = Done (tt, w3) /\
    load32 (w_mem w3) 0x2018 = 42.
Proof.
  apply (cas_update_lost (RosAlloc := demo_ros) demo_classes demo_clean_world 0x1000 0 demo_entry 0x2000 28
           [0; 16; 20] 4 24 42 43 0).
  - apply demo_clean_placed.
  - vm_compute; reflexivity.
  - vm_compute; reflexivity.
  - reflexivity.
  - vm_compute; reflexivity.
  - vm_compute; reflexivity.
  - vm_compute; reflexivity.
  - vm_compute; reflexivity.
  - reflexivity.
  - vm_compute; reflexivity.
  - apply demo_clean_file.
  - vm_compute; reflexivity.
  - vm_compute; reflexivity.
  - unfold kObjectHeaderSize. lia.
  - lia.
  - vm_compute; reflexivity.
Defined.
