(* ===== verification/SwapInvariant.v ===== *)
(** An invariant of the swapping code: in every state that its entry points
    reach, the swap file agrees with the maps, and the write queue with the
    write set.

    The entry points are interleaved with arbitrary changes of the memory, the
    spaces, the roots and the table (the program, the collectors, the kernel).
    Errors of the device end the guarantee: the steps are those in which no
    write fails. *)
From stdpp Require Import prelude gmap list.
From Stdlib Require Import ZArith Lia.
From S2P Require Import Prelude Bits Mem ObjectHeader Mirror ReclamationTable Stub Stream.
From S2P Require Import Allocator LargeObjectSpace SwapState Swap SwapFile.
Open Scope Z_scope.

Section Invariant.
Context {R : Type} {RosAlloc : Allocator R}.
Context (ros_walk : R -> list Z) (ct : gmap Z ClassInfo) (capacity temp_addr : Z) (commercial_compat : bool).
Implicit Types w : world R.

(** ** The variables the invariant is about *)
Definition same_files (w w' : world R) : Prop :=
  swapfile w' = swapfile w /\ objectOffsetMap w' = objectOffsetMap w /\ objectSizeMap w' = objectSizeMap w.
Definition same_queue (w w' : world R) : Prop := writeQueue w' = writeQueue w /\ writeSet w' = writeSet w.

Definition queue_ok (w : world R) : Prop :=
  NoDup (writeQueue w) /\ forall x, x ∈ writeSet w <-> x ∈ writeQueue w.
Definition swap_ok (w : world R) : Prop := swapfile_ok w /\ queue_ok w.

Lemma swap_ok_same w w' : same_files w w' -> same_queue w w' -> swap_ok w -> swap_ok w'.
Proof.
  intros (E1 & E2 & E3) (E4 & E5) [Hf Hq]. unfold swap_ok, swapfile_ok, queue_ok in *.
  by rewrite E1, E2, E3, E4, E5.
Qed.

(** ** Actions on the other variables

    A property of the swap file, its maps and the queue alone is kept by every
    action on the other variables. *)
Class Framed (P : world R -> Prop) : Prop :=
  framed w w' : same_files w w' -> same_queue w w' -> P w -> P w'.
#[global] Instance swap_ok_framed : Framed swap_ok := swap_ok_same.
(** [k] is in the file, at [pos] with [n] bytes. *)
Definition known (k pos n : Z) (w : world R) : Prop :=
  swap_ok w /\ objectOffsetMap w !! k = Some pos /\ objectSizeMap w !! k = Some n.
#[global] Instance known_framed k pos n : Framed (known k pos n).
Proof.
  intros w w' Hf Hq (H & H1 & H2). split; [by eapply swap_ok_same|]. destruct Hf as (_ & -> & ->). done.
Qed.

Section Frame.
Context (P : world R -> Prop) `{!Framed P}.
Lemma keeps_frame (f : world R -> world R) :
  (forall w, same_files w (f w) /\ same_queue w (f w)) -> keeps P (modify f).
Proof. intros Hf. apply keeps_modify. intros w Hw. destruct (Hf w) as [H1 H2]. by eapply framed. Qed.
Lemma keeps_modm f : keeps P (modm f).
Proof. by apply keeps_frame. Qed.
Lemma keeps_try {A} (f : world R -> outcome A) : keeps P (try f).
Proof. intros w a w' Hw H. unfold try in H. destruct (f w); try done. by injection H as _ <-. Qed.
Lemma keeps_getm {A} (f : mem -> A) : keeps P (getm f).
Proof. apply keeps_gets. Qed.
Lemma keeps_swappedInSpace {A} (m : M FreeListSpace.FreeListSpace A) : keeps P (in_swappedInSpace m).
Proof.
  intros w a w' Hw H. unfold in_swappedInSpace in H. destruct (m _) as [[? ?]| | |]; try done.
  injection H as _ <-. by eapply framed; [..|exact Hw].
Qed.
Lemma keeps_los {A} (m : M FreeListSpace.FreeListSpace A) : keeps P (in_los m).
Proof.
  intros w a w' Hw H. unfold in_los in H. destruct (m _) as [[? ?]| | |]; try done.
  injection H as _ <-. by eapply framed; [..|exact Hw].
Qed.
Lemma keeps_ros {A} (m : M R A) : keeps P (in_ros m).
Proof.
  intros w a w' Hw H. unfold in_ros in H. destruct (m _) as [[? ?]| | |]; try done.
  injection H as _ <-. by eapply framed; [..|exact Hw].
Qed.
End Frame.
#[local] Hint Resolve keeps_modm keeps_try keeps_getm keeps_swappedInSpace keeps_los keeps_ros : keeps.
#[local] Hint Extern 1 (Framed _) => apply _ : keeps.
#[local] Hint Extern 1 (keeps _ (modify _)) => solve [apply keeps_frame; [apply _ | done]] : keeps.

Section Simple.
Context (P : world R -> Prop) `{!Framed P}.
Lemma keeps_with_entry p f : keeps P (with_entry p f).
Proof. unfold with_entry. keep. Qed.
Lemma keeps_entry_at p : keeps P (entry_at p).
Proof. unfold entry_at. keep. Qed.
#[local] Hint Resolve keeps_with_entry keeps_entry_at : keeps.
Lemma keeps_lock_entry p : keeps P (lock_entry p).
Proof. unfold lock_entry. keep. Qed.
#[local] Hint Resolve keeps_lock_entry : keeps.
Lemma keeps_LockTableEntry s : keeps P (LockTableEntry s).
Proof. unfold LockTableEntry, stub_entry. keep. Qed.
Lemma keeps_UnlockTableEntry s : keeps P (UnlockTableEntry s).
Proof. unfold UnlockTableEntry, unlock_entry_at, stub_entry. keep. Qed.
Lemma keeps_stub_object s : keeps P (stub_object s).
Proof. unfold stub_object. keep. Qed.
Lemma keeps_stub_resident s : keeps P (stub_resident s).
Proof. unfold stub_resident, stub_entry. keep. Qed.
Lemma keeps_sized o : keeps P (sized ct o).
Proof. unfold sized. keep. Qed.
Lemma keeps_free_swapped_in o : keeps P (free_swapped_in o).
Proof. unfold free_swapped_in. keep. Qed.
End Simple.
#[local] Hint Resolve keeps_with_entry keeps_entry_at keeps_lock_entry keeps_LockTableEntry
  keeps_UnlockTableEntry keeps_stub_object keeps_stub_resident keeps_sized keeps_free_swapped_in : keeps.

(** ** The maps *)
Lemma file_ok_index s offsets sizes k :
  file_ok s offsets sizes ->
  file_ok s (<[k := default 0 (offsets !! k)]> offsets) (<[k := default 0 (sizes !! k)]> sizes).
Proof.
  intros Hf. destruct (offsets !! k) as [pos|] eqn:Ho.
  { destruct (file_ok_sizes _ _ _ _ _ Hf Ho) as [n Hn]. rewrite Hn. simpl. by rewrite !insert_id. }
  assert (Hs : sizes !! k = None).
  { apply not_elem_of_dom. rewrite <- (fo_dom _ _ _ Hf). by apply not_elem_of_dom. }
  rewrite Hs. simpl. pose proof (stream_size_nonneg s). destruct Hf as [Hg He Hd Hr Hj]. split; [done|done|..].
  - by rewrite !dom_insert_L, Hd.
  - intros k' pos n Hp Hn. destruct (decide (k = k')) as [<-|Hne].
    + rewrite lookup_insert_eq in Hp, Hn. simplify_eq. lia.
    + rewrite lookup_insert_ne in Hp, Hn by done. by eapply Hr.
  - intros k1 k2 p1 n1 p2 n2 Hne H1 H1' H2 H2'.
    destruct (decide (k = k1)) as [<-|H3]; destruct (decide (k = k2)) as [<-|H4]; try done;
      rewrite ?lookup_insert_eq in *; rewrite ?lookup_insert_ne in * by done; simplify_eq.
    + left. destruct (Hr k2 p2 n2 H2 H2'). lia.
    + right. destruct (Hr k1 p1 n1 H1 H1'). lia.
    + by eapply (Hj k1 k2).
Qed.
Lemma hoare_index k {A} (K : Z -> Z -> M (world R) A) Q :
  (forall pos n, hoare (known k pos n) (K pos n) Q) ->
  hoare swap_ok (pos ← index_offset k; n ← index_size k; K pos n) Q.
Proof.
  intros HK w a w' [Hf Hq] H. unfold index_offset, index_size in H. rewrite !bind_assoc, bind_gets in H.
  rewrite !bind_assoc, bind_modify, bind_ret, !bind_assoc, bind_gets, !bind_assoc, bind_modify, bind_ret in H.
  eapply HK; [|exact H]. split; [split; [|done]|]; simpl.
  - by apply (file_ok_index _ _ _ k) in Hf.
  - by rewrite !lookup_insert_eq.
Qed.

(** ** Writing: without an error of the device, the invariant is kept *)
Definition unless_error {A} (error : A -> bool) (a : A) (w : world R) : Prop := error a = false -> swap_ok w.

Lemma write_again_keeps key n data :
  Z.of_nat (length data) = n ->
  hoare swap_ok (write_again capacity key n data) (unless_error snd).
Proof.
  intros Hd. unfold write_again. apply hoare_index. intros pos m w [r e] w' (Hok & Ho & Hs) H He.
  simpl in He. subst e. destruct Hok as [Hf Hq].
  destruct (Z.eqb_spec m n) as [->|Hne]; [|by injection H as _ <-]. cbn [negb] in H.
  destruct (fo_range _ _ _ Hf key pos n Ho Hs) as (Hpos & Hn & Hl).
  assert (Hcap : pos + n <= capacity).
  { rewrite bind_gets, !bind_in_stream, bind_gets, bind_in_stream in H. injection H as _ Herr _.
    simpl in Herr. rewrite (seek_ok _ _ (fo_good _ _ _ Hf) Hpos) in Herr.
    unfold checkStreamError, stream_write in Herr. simpl in Herr. rewrite Hd in Herr.
    destruct (Z.ltb_spec capacity (pos + n)); [done | lia]. }
  destruct (write_again_done capacity w key pos n data Hf Ho Hs Hd Hcap) as (w1 & Hw & -> & Hok & _ & _).
  unfold write_again in Hw. rewrite (bind_done _ _ _ _ _ (proj1 (index_known w key pos) Ho)) in Hw.
  rewrite (bind_done _ _ _ _ _ (proj2 (index_known w key n) Hs)), Z.eqb_refl in Hw. cbn [negb] in Hw.
  rewrite Hw in H. injection H as _ <-. split; [exact Hok | exact Hq].
Qed.
Lemma write_first_keeps key n data :
  Z.of_nat (length data) = n ->
  hoare (fun w => swap_ok w /\ objectOffsetMap w !! key = None) (write_first capacity key n data)
    (unless_error id).
Proof.
  intros Hd w e w' [[Hf Hq] Hk] H He. simpl in He. subst e.
  assert (Hcap : stream_size (swapfile w) + n <= capacity).
  { pose proof H as H'. unfold write_first in H'. rewrite bind_gets, bind_in_stream, bind_gets, !bind_modify in H'.
    injection H' as Herr _. simpl in Herr. unfold checkStreamError, stream_write in Herr.
    rewrite (fo_good _ _ _ Hf), (fo_end _ _ _ Hf), Hd in Herr.
    destruct (Z.ltb_spec capacity (stream_size (swapfile w) + n)); [done | lia]. }
  destruct (write_first_done capacity w key n data Hf Hk Hd Hcap) as (w1 & Hw & Hok & _).
  rewrite Hw in H. injection H as <-. split; [exact Hok|].
  unfold write_first in Hw. rewrite bind_gets, bind_in_stream, bind_gets, !bind_modify in Hw.
  by injection Hw as _ <-.
Qed.
Lemma write_data_keeps stub object :
  hoare swap_ok (write_data ct capacity stub object) (unless_error snd).
Proof.
  unfold write_data. intros w r w' Hw H. unfold mbind at 1, M_bind at 1 in H.
  destruct (sized ct object w) as [[n w1]| | |] eqn:Es; try done.
  pose proof (keeps_sized _ object w n w1 Hw Es) as Hw1.
  assert (Hn : 0 <= n).
  { unfold sized, modm in Es. rewrite bind_modify in Es. unfold mbind, M_bind, try in Es.
    destruct (SizeOf ct _ object) as [n'| | |] eqn:E; try done. simpl in Es. injection Es as <- _.
    apply SizeOf_range in E. unfold in_width in E. lia. }
  unfold modm, getm in H. rewrite bind_modify, !bind_gets in H.
  set (data := load_bytes _ object (Z.to_nat n)) in H.
  assert (Hd : Z.of_nat (length data) = n) by (unfold data; rewrite length_load_bytes; lia).
  set (w2 := set_w_mem _ w1) in H. assert (Hw2 : swap_ok w2) by (by eapply swap_ok_same; [..|exact Hw1]).
  unfold mbind at 1, M_bind at 1 in H. destruct (check _ w2) as [[[] w3]| | |] eqn:Ec; try done.
  assert (w3 = w2) as -> by (destruct (negb _) in Ec; [by injection Ec as <- | done]).
  destruct (negb (stub =? 0)); [by eapply write_again_keeps|].
  case_bool_decide as Hk; [by eapply write_again_keeps|].
  unfold mbind, M_bind in H. destruct (write_first _ _ _ _ w2) as [[e w4]| | |] eqn:Ew; try done.
  injection H as <- <-. intros He. simpl in He.
  eapply (write_first_keeps object n data Hd w2 e w4); [split; [done|] | exact Ew | exact He].
  by apply eq_None_not_Some.
Qed.

(** An action that keeps the invariant keeps it after an action without error. *)
Lemma hoare_after {A B} (m : M (world R) A) (k : A -> M (world R) B) error error' :
  hoare swap_ok m (unless_error error) ->
  (forall a, if error a then forall w b w', k a w = Done (b, w') -> error' b = true
             else hoare swap_ok (k a) (unless_error error')) ->
  hoare swap_ok (m ≫= k) (unless_error error').
Proof.
  intros Hm Hk w b w' Hw H. unfold mbind, M_bind in H.
  destruct (m w) as [[a w1]| | |] eqn:E; try done. specialize (Hm w a w1 Hw E). specialize (Hk a).
  destruct (error a) eqn:Ee; [|eapply Hk; [by apply Hm | done]].
  intros He. apply Hk in H. congruence.
Qed.
Lemma keeps_unless {A} (m : M (world R) A) error :
  keeps swap_ok m -> hoare swap_ok m (unless_error error).
Proof. intros H w a w' Hw E _. by eapply H. Qed.

Lemma writeToSwapFile_keeps object : hoare swap_ok (writeToSwapFile ct capacity object) (unless_error snd).
Proof.
  unfold writeToSwapFile. apply hoare_keep; [keep|]. intros isStub.
  apply hoare_keep; [keep|]. intros o. do 6 (apply hoare_keep; [keep|]; intros ?).
  eapply (hoare_after _ _ snd).
  { destruct (negb _ && negb _); [apply write_data_keeps | apply keeps_unless; keep]. }
  intros [r e]. destruct e; simpl.
  - intros w b w' H. unfold mbind, M_bind in H.
    match type of H with match ?x with _ => _ end = _ => destruct x as [[? ?]| | |]; try done end.
    by injection H as <- _.
  - apply keeps_unless. keep.
Qed.

(** ** The queue *)
Lemma elem_of_remove_first x y l :
  NoDup l -> x ∈ list_remove_first y l <-> x ∈ l /\ x <> y.
Proof.
  induction l as [|z l IH]; intros Hnd; simpl; [set_solver|]. apply NoDup_cons in Hnd as [Hz Hnd].
  destruct (Z.eqb_spec y z) as [->|Hne]; [set_solver|]. rewrite !elem_of_cons, IH by done. set_solver.
Qed.
Lemma NoDup_remove_first y l : NoDup l -> NoDup (list_remove_first y l).
Proof.
  induction l as [|z l IH]; intros Hnd; simpl; [done|]. pose proof Hnd as Hnd0. apply NoDup_cons in Hnd as [Hz Hnd].
  destruct (y =? z); [done|]. apply NoDup_cons. split; [|by apply IH].
  rewrite elem_of_remove_first by done. tauto.
Qed.

Lemma queue_write_keeps key : keeps swap_ok (queue_write key).
Proof.
  intros w a w' [Hf [Hnd Hq]] H. unfold queue_write in H. rewrite bind_gets in H.
  case_bool_decide as Hk; [by injection H as _ <-|]. cbn [negb when] in H. rewrite bind_modify in H.
  injection H as _ <-. split; [exact Hf|]. split; simpl.
  - apply NoDup_app. split_and!; [done | | apply NoDup_singleton]. intros x Hx. rewrite <- Hq in Hx. set_solver.
  - intros x. rewrite elem_of_union, elem_of_singleton, elem_of_app, list_elem_of_singleton, Hq. tauto.
Qed.
Lemma remove_from_queue_keeps o : keeps swap_ok (remove_from_queue o).
Proof.
  intros w a w' [Hf [Hnd Hq]] H. unfold remove_from_queue in H. rewrite bind_gets in H.
  case_bool_decide as Hk; [|by injection H as _ <-]. cbn [when] in H. rewrite bind_modify in H.
  injection H as _ <-. split; [exact Hf|]. split; simpl.
  - by apply NoDup_remove_first.
  - intros x. rewrite elem_of_remove_first, elem_of_difference, elem_of_singleton, Hq by done. done.
Qed.
Lemma clear_write_queue_keeps : keeps swap_ok clear_write_queue.
Proof.
  intros w a w' [Hf _] H. injection H as _ <-. split; [exact Hf|]. split; simpl; [constructor | set_solver].
Qed.

Lemma write_queued_keeps rounds : hoare swap_ok (write_queued ct capacity rounds) (unless_error id).
Proof.
  induction rounds as [|rounds IH]; [apply keeps_unless; cbn [write_queued]; keep|].
  intros w e w' Hw H. cbn [write_queued] in H. rewrite bind_gets in H.
  destruct (writeQueue w) as [|x rest] eqn:Eq; [injection H as _ <-; by intros _|].
  rewrite !bind_modify in H. set (w1 := set_writeSet _ _) in H.
  assert (Hw1 : swap_ok w1).
  { destruct Hw as [Hf [Hnd Hq]]. split; [exact Hf|]. rewrite Eq in Hnd, Hq.
    apply NoDup_cons in Hnd as [Hx Hnd]. split; [exact Hnd|]. intros y. simpl. rewrite elem_of_difference, Hq. set_solver. }
  eapply (hoare_after _ _ snd id); [apply writeToSwapFile_keeps | | exact Hw1 | exact H].
  intros [r []]; simpl; [by intros ? ? ? [= <- _] | exact IH].
Qed.
#[local] Hint Resolve queue_write_keeps remove_from_queue_keeps clear_write_queue_keeps : keeps.

(** ** Removing and renaming objects *)
Lemma file_ok_delete s offsets sizes k :
  file_ok s offsets sizes -> file_ok s (delete k offsets) (delete k sizes).
Proof.
  intros [Hg He Hd Hr Hj]. split; [done|done|..].
  - by rewrite !dom_delete_L, Hd.
  - intros k' pos n [_ H1]%lookup_delete_Some [_ H2]%lookup_delete_Some. by eapply Hr.
  - intros k1 k2 p1 n1 p2 n2 Hne [_ H1]%lookup_delete_Some [_ H1']%lookup_delete_Some
      [_ H2]%lookup_delete_Some [_ H2']%lookup_delete_Some. by eapply (Hj k1 k2).
Qed.
Lemma file_ok_rename s offsets sizes old new pos n :
  file_ok s offsets sizes -> offsets !! old = Some pos -> sizes !! old = Some n ->
  file_ok s (delete old (<[new := pos]> offsets)) (delete old (<[new := n]> sizes)).
Proof.
  intros Hf Ho Hs. destruct (decide (new = old)) as [->|Hne].
  { rewrite !insert_id by done. by apply file_ok_delete. }
  destruct Hf as [Hg He Hd Hr Hj].
  assert (Hold : forall k p m, delete old (<[new := pos]> offsets) !! k = Some p ->
    delete old (<[new := n]> sizes) !! k = Some m ->
    exists k0, offsets !! k0 = Some p /\ sizes !! k0 = Some m /\ (k = new /\ k0 = old \/ k <> new /\ k0 = k /\ k <> old)).
  { intros k p m [Hk H1]%lookup_delete_Some [_ H2]%lookup_delete_Some.
    destruct (decide (k = new)) as [->|Hkn].
    - rewrite lookup_insert_eq in H1, H2. simplify_eq. exists old. auto.
    - rewrite lookup_insert_ne in H1, H2 by done. exists k. split_and!; [done | done | right; auto]. }
  split; [done|done|..].
  - by rewrite !dom_delete_L, !dom_insert_L, Hd.
  - intros k p m H1 H2. destruct (Hold k p m H1 H2) as (k0 & ? & ? & _). by eapply Hr.
  - intros k1 k2 p1 m1 p2 m2 Hne' H1 H1' H2 H2'.
    destruct (Hold k1 p1 m1 H1 H1') as (k3 & ? & ? & C1).
    destruct (Hold k2 p2 m2 H2 H2') as (k4 & ? & ? & C2). eapply (Hj k3 k4); try done.
    destruct C1 as [[-> ->]|(? & -> & ?)], C2 as [[-> ->]|(? & -> & ?)]; congruence.
Qed.

Lemma remove_from_maps_keeps o : keeps swap_ok (remove_from_maps o).
Proof.
  intros w a w' [Hf Hq] H. unfold remove_from_maps in H. rewrite !bind_gets in H.
  destruct (bool_decide _ && bool_decide _) eqn:E; [|by injection H as _ <-].
  apply andb_true_iff in E as [_ [n Hn]%bool_decide_eq_true_1]. cbn [when] in H.
  rewrite (bind_done _ _ _ _ _ (proj2 (index_known w o n) Hn)), !bind_modify in H.
  injection H as _ <-. split; [by apply (file_ok_delete _ _ _ o) in Hf | exact Hq].
Qed.
Lemma drop_key_keeps k : keeps swap_ok (drop_key k).
Proof. intros w a w' [Hf Hq] H. injection H as _ <-. split; [by apply (file_ok_delete _ _ _ k) in Hf | exact Hq]. Qed.

(** The CHECK of [replaceDataStructurePointers] never fails. *)
Lemma rename_key_done w kv :
  swap_ok w -> exists w', rename_key kv w = Done (tt, w') /\ swap_ok w'.
Proof.
  intros [Hf Hq]. destruct kv as [old new]. unfold rename_key. rewrite !bind_gets.
  destruct (objectOffsetMap w !! old) as [pos|] eqn:Ho.
  - destruct (file_ok_sizes _ _ _ _ _ Hf Ho) as [n Hn]. rewrite Hn, !bool_decide_eq_true_2 by eauto.
    rewrite bind_check by done. cbn [when]. rewrite bind_modify. unfold modify. simpl. rewrite Ho, Hn.
    eexists. split; [reflexivity|]. split; [|exact Hq]. exact (file_ok_rename _ _ _ old new pos n Hf Ho Hn).
  - assert (Hs : objectSizeMap w !! old = None).
    { apply not_elem_of_dom. rewrite <- (fo_dom _ _ _ Hf). by apply not_elem_of_dom. }
    rewrite Hs, !bool_decide_eq_false_2 by (by intros [? ?]).
    rewrite bind_check by done. by exists w.
Qed.
Lemma rename_key_keeps kv : keeps swap_ok (rename_key kv).
Proof.
  intros w a w' Hw H. destruct (rename_key_done w kv Hw) as (w1 & E & Hw1). rewrite E in H. by injection H as _ <-.
Qed.
#[local] Hint Resolve remove_from_maps_keeps drop_key_keeps rename_key_keeps : keeps.

(** ** The entry points *)
Lemma GcRecordFree_keeps o : keeps swap_ok (GcRecordFree o).
Proof. unfold GcRecordFree, free_stub_object, stub_entry. keep. Qed.
#[local] Hint Resolve GcRecordFree_keeps : keeps.

Lemma consider_keeps stub o : keeps swap_ok (consider ct commercial_compat stub o).
Proof. unfold consider, exclude_members. keep. Qed.
#[local] Hint Resolve consider_keeps : keeps.
Lemma CheckAndUpdate_keeps partial o : keeps swap_ok (CheckAndUpdate ct commercial_compat partial o).
Proof. unfold CheckAndUpdate. keep. Qed.

(** The read of [swapInObject] leaves the stream as it was. *)
Lemma swap_in_read_known k pos n w :
  known k pos n w ->
  exists data, stream_read (stream_seek (swapfile w) pos) n = (data, mkStream (file_of w) (pos + n) false) /\
    stream_seek (mkStream (file_of w) (pos + n) false) (tellp (swapfile w)) = swapfile w.
Proof.
  intros ([Hf _] & Ho & Hs). destruct (fo_range _ _ _ Hf k pos n Ho Hs) as (H1 & H2 & H3).
  pose proof (fo_good _ _ _ Hf) as Hg. pose proof (fo_end _ _ _ Hf) as He.
  pose proof (stream_size_nonneg (swapfile w)). eexists. split.
  - rewrite (seek_ok _ _ Hg H1), read_ok by done. reflexivity.
  - unfold tellp. rewrite Hg, seek_ok by (simpl; rewrite ?He; done). unfold file_of. simpl.
    rewrite <- Hg. by destruct (swapfile w).
Qed.
Lemma swapInObject_keeps stub pos n : hoare (known stub pos n) (swapInObject ct stub pos n) (fun _ => swap_ok).
Proof.
  unfold swapInObject. do 4 (apply hoare_keep; [keep|]; intros ?).
  intros w a' w' Hk H. destruct (swap_in_read_known stub pos n w Hk) as (data & Hr & Hb).
  rewrite bind_gets, bind_in_stream, bind_in_stream in H. unfold modm at 1 in H.
  rewrite bind_modify, bind_in_stream in H. simpl swapfile in H. simpl snd in H. simpl swapfile in H.
  rewrite Hr in H. cbn [fst snd] in H. rewrite Hb in H.
  match type of H with ?m ?w2 = _ => assert (Hkeep : keeps swap_ok m) by (unfold stub_entry; keep);
    eapply Hkeep; [|exact H] end.
  destruct Hk as (Hok & _). by eapply swap_ok_same; [..|exact Hok].
Qed.
Lemma SwapInOnDemand_keeps stub : keeps swap_ok (SwapInOnDemand ct stub).
Proof.
  unfold SwapInOnDemand. do 4 (apply keeps_bind; [keep|]; intros ?). apply hoare_index. intros pos n.
  eapply hoare_bind; [apply swapInObject_keeps|]. intros ?. apply keeps_ret.
Qed.
Lemma swap_in_entry_keeps stub : keeps swap_ok (swap_in_entry ct stub).
Proof.
  unfold swap_in_entry. apply keeps_bind; [keep|]; intros []; cbn [when]; [|keep].
  do 2 (apply keeps_bind; [keep|]; intros ?). apply hoare_index. intros pos n.
  do 2 (apply hoare_keep; [keep|]; intros ?). eapply (hoare_bind _ _ _ (fun _ => swap_ok)).
  - destruct (negb _); [eapply hoare_bind; [apply swapInObject_keeps | intros ?; apply keeps_ret]|].
    intros w b w' [Hok _] [= _ <-]. exact Hok.
  - intros ?. change (keeps swap_ok (UnlockTableEntry stub)). keep.
Qed.
#[local] Hint Resolve swap_in_entry_keeps : keeps.
Lemma SwapObjectsIn_keeps : keeps swap_ok (SwapObjectsIn ct).
Proof. unfold SwapObjectsIn. keep. Qed.

Lemma reclaim_entry_keeps p : keeps swap_ok (reclaim_entry p).
Proof. unfold reclaim_entry, doKernelReclamationChecks. keep. Qed.
#[local] Hint Resolve reclaim_entry_keeps : keeps.
Lemma SwapObjectsOut_keeps : keeps swap_ok SwapObjectsOut.
Proof. unfold SwapObjectsOut. keep. Qed.
Lemma patch_object_keeps o : keeps swap_ok (patch_object ct o).
Proof. unfold patch_object. keep. Qed.
Lemma patch_stub_ref_keeps s i : keeps swap_ok (patch_stub_ref s i).
Proof.
  apply keeps_frame; [apply _|]. intros w. by destruct (remappingTable w !! _).
Qed.
#[local] Hint Resolve patch_object_keeps patch_stub_ref_keeps : keeps.
Lemma replace_keeps table b : keeps swap_ok (replaceDataStructurePointers table b).
Proof. unfold replaceDataStructurePointers, free_dead_stub, unlock_entry_at. keep. Qed.
#[local] Hint Resolve replace_keeps : keeps.
Lemma patchStubReferences_keeps : keeps swap_ok (patchStubReferences ros_walk ct).
Proof. unfold patchStubReferences, PatchCallback, patch_entry, unlock_entry_at, patch_roots. keep. Qed.
#[local] Hint Resolve patchStubReferences_keeps : keeps.
Lemma create_stub_keeps o : keeps swap_ok (create_stub ct temp_addr o).
Proof.
  unfold create_stub, stub_entry, free_original, FreeFromLargeObjectSpace, FreeFromRosAllocSpace. keep.
Qed.
#[local] Hint Resolve create_stub_keeps : keeps.
Lemma CreateStubs_keeps : keeps swap_ok (CreateStubs ros_walk ct temp_addr).
Proof. unfold CreateStubs. keep. Qed.
Lemma semi_space_keeps o f :
  keeps swap_ok SemiSpaceRecordStubMappings /\ keeps swap_ok (RecordForwardedObject o f) /\
  keeps swap_ok SemiSpaceUpdateDataStructures.
Proof.
  unfold SemiSpaceRecordStubMappings, record_stub, stub_entry, RecordForwardedObject, SemiSpaceUpdateDataStructures.
  split_and!; keep.
Qed.
Lemma scheduleNextTask_keeps t running e : keeps swap_ok (scheduleNextTask t running e).
Proof. unfold scheduleNextTask, ask. keep. Qed.

Lemma CompactSwapFile_keeps w copied w' :
  swap_ok w -> copied (file_of w) = Some (file_of w) ->
  size_sum (objectSizeMap w) (iter_map (objectOffsetMap w)) <= capacity ->
  CompactSwapFile capacity copied w = Done (tt, w') -> swap_ok w'.
Proof.
  intros [Hf Hq] Hc Hs H. destruct (swapEnabled w) eqn:He.
  - destruct (compact_ok capacity w copied He Hf Hc Hs) as (w1 & H1 & Hok & _).
    assert (w1 = w') as -> by congruence. split; [exact Hok|].
    unfold CompactSwapFile in H. rewrite bind_gets, He, bind_check, !bind_modify in H by done.
    by injection H as <-.
  - unfold CompactSwapFile in H. by rewrite bind_gets, He in H.
Qed.
Lemma WriteTask_Run_keeps rounds copied t running w w1 w' :
  swap_ok w -> write_queued ct capacity rounds w = Done (false, w1) ->
  copied (file_of w1) = Some (file_of w1) ->
  size_sum (objectSizeMap w1) (iter_map (objectOffsetMap w1)) <= capacity ->
  WriteTask_Run ct capacity rounds copied t running w = Done (tt, w') -> swap_ok w'.
Proof.
  intros Hw Hq Hc Hs H. pose proof (write_queued_keeps rounds w false w1 Hw Hq eq_refl) as Hw1.
  unfold WriteTask_Run in H. rewrite bind_gets in H. destruct (swapEnabled w); [|done].
  rewrite bind_check, (bind_done _ _ _ _ _ Hq), bind_gets in H by done.
  destruct (needs_compaction _ _); cbn [when] in H.
  - rewrite !bind_assoc in H. unfold mbind at 1, M_bind at 1 in H.
    destruct (CompactSwapFile _ _ w1) as [[[] w2]| | |] eqn:E2; try done.
    pose proof (CompactSwapFile_keeps w1 copied w2 Hw1 Hc Hs E2) as Hw2.
    destruct (validate_done w2 (proj1 Hw2)) as [b Hb]. rewrite !bind_assoc, (bind_done _ _ _ _ _ Hb), bind_ret in H.
    by eapply scheduleNextTask_keeps.
  - rewrite bind_ret in H. by eapply scheduleNextTask_keeps.
Qed.
Lemma Init_establishes w curPid running blacklisted mapped table t w' :
  swapEnabled w = false ->
  InitIfNecessary capacity commercial_compat curPid running blacklisted mapped table t w = Done (tt, w') ->
  swapEnabled w' = true -> swap_ok w'.
Proof.
  intros He H He'. unfold InitIfNecessary, clear_write_queue in H. rewrite bind_gets in H.
  destruct (_ =? _); [injection H as <-; congruence|]. destruct running; [|injection H as <-; congruence].
  cbn [negb] in H. rewrite !bind_modify, !bind_assoc, !bind_modify in H.
  destruct blacklisted; [injection H as <-; simpl in He'; congruence|].
  rewrite bind_modify, bind_in_stream, bind_gets in H. set (w1 := set_swapfile _ _) in H.
  destruct (checkStreamError (swapfile w1)) eqn:Ee; [injection H as <-; simpl in He'; congruence|].
  assert (Hw1 : swap_ok w1).
  { unfold w1 in *. simpl in Ee. unfold stream_write in *. simpl in *. destruct (_ <? _) eqn:Ec; [done|].
    split; [split|split]; simpl; try done; try (intros *; rewrite lookup_empty; done); [constructor | set_solver]. }
  match type of H with ?m ?w2 = _ => assert (Hkeep : keeps swap_ok m) by (unfold ask; keep) end.
  by eapply Hkeep.
Qed.

(** ** Runs *)
Inductive swap_step : world R -> world R -> Prop :=
| step_other w w' : same_files w w' -> same_queue w w' -> swap_step w w'
| step_mark partial o w w' : CheckAndUpdate ct commercial_compat partial o w = Done (tt, w') -> swap_step w w'
| step_free o w w' : GcRecordFree o w = Done (tt, w') -> swap_step w w'
| step_task rounds copied t running w w1 w' :
    write_queued ct capacity rounds w = Done (false, w1) ->
    copied (file_of w1) = Some (file_of w1) ->
    size_sum (objectSizeMap w1) (iter_map (objectOffsetMap w1)) <= capacity ->
    WriteTask_Run ct capacity rounds copied t running w = Done (tt, w') -> swap_step w w'
| step_stubs w w' : CreateStubs ros_walk ct temp_addr w = Done (tt, w') -> swap_step w w'
| step_out w w' : SwapObjectsOut w = Done (tt, w') -> swap_step w w'
| step_in w w' : SwapObjectsIn ct w = Done (tt, w') -> swap_step w w'
| step_demand s w w' : SwapInOnDemand ct s w = Done (tt, w') -> swap_step w w'
| step_semi_begin w w' : SemiSpaceRecordStubMappings w = Done (tt, w') -> swap_step w w'
| step_semi_forward o f w w' : RecordForwardedObject o f w = Done (tt, w') -> swap_step w w'
| step_semi_end w w' : SemiSpaceUpdateDataStructures w = Done (tt, w') -> swap_step w w'.

Lemma swap_step_keeps w w' : swap_step w w' -> swap_ok w -> swap_ok w'.
Proof.
  destruct 1; intros Hw.
  - by eapply swap_ok_same.
  - by eapply CheckAndUpdate_keeps.
  - by eapply GcRecordFree_keeps.
  - by eapply (WriteTask_Run_keeps rounds).
  - by eapply CreateStubs_keeps.
  - by eapply SwapObjectsOut_keeps.
  - by eapply SwapObjectsIn_keeps.
  - by eapply SwapInOnDemand_keeps.
  - by eapply (proj1 (semi_space_keeps 0 0)).
  - by eapply (proj1 (proj2 (semi_space_keeps o f))).
  - by eapply (proj2 (proj2 (semi_space_keeps 0 0))).
Qed.

Lemma rename_all_done l : forall w, swap_ok w -> exists w', mfor l rename_key w = Done (tt, w') /\ swap_ok w'.
Proof.
  induction l as [|kv l IH]; intros w Hw; [by exists w|]. cbn [mfor].
  destruct (rename_key_done w kv Hw) as (w1 & E & Hw1). rewrite (bind_done _ _ _ _ _ E). by apply IH.
Qed.

(** ** Renaming *)
Lemma rename_key_spec w a b :
  swap_ok w -> a <> b -> objectOffsetMap w !! b = None ->
  exists w', rename_key (a, b) w = Done (tt, w') /\ swap_ok w' /\
    snapshot_of w' b = snapshot_of w a /\ snapshot_of w' a = None /\
    (forall k, k <> a -> k <> b -> snapshot_of w' k = snapshot_of w k) /\
    (forall k, k <> b -> objectOffsetMap w !! k = None -> objectOffsetMap w' !! k = None).
Proof.
  intros Hok Hab Hb. destruct (rename_key_done w (a, b) Hok) as (w' & E & Hok'). exists w'.
  split; [done|]. split; [done|]. unfold rename_key in E. rewrite !bind_gets in E. destruct Hok as [Hf _].
  destruct (objectOffsetMap w !! a) as [pos|] eqn:Ho.
  - destruct (file_ok_sizes _ _ _ _ _ Hf Ho) as [n Hn]. rewrite Hn, !bool_decide_eq_true_2 in E by eauto.
    rewrite bind_check in E by done. cbn [when] in E. rewrite bind_modify in E. injection E as <-.
    unfold snapshot_of, snapshot; simpl; rewrite Ho, Hn. split_and!.
    + by rewrite !lookup_delete_ne, !lookup_insert_eq by done.
    + rewrite !lookup_delete_eq. reflexivity.
    + intros k Ha Hk. by rewrite !lookup_delete_ne, !lookup_insert_ne by done.
    + intros k Hk Hkn. destruct (decide (k = a)) as [->|Hne]; [by rewrite lookup_delete_eq|].
      by rewrite lookup_delete_ne, lookup_insert_ne by done.
  - assert (Hs : objectSizeMap w !! a = None).
    { apply not_elem_of_dom. rewrite <- (fo_dom _ _ _ Hf). by apply not_elem_of_dom. }
    rewrite Hs, !bool_decide_eq_false_2 in E by (by intros [? ?]).
    rewrite bind_check in E by done. injection E as <-.
    unfold snapshot_of, snapshot. rewrite Ho, Hb. by split_and!.
Qed.

Lemma rename_all_spec l : forall w,
  swap_ok w -> NoDup l.*1 -> NoDup l.*2 -> (forall k, k ∈ l.*1 -> k ∉ l.*2) ->
  (forall b, b ∈ l.*2 -> objectOffsetMap w !! b = None) ->
  exists w', mfor l rename_key w = Done (tt, w') /\ swap_ok w' /\
    (forall a b, (a, b) ∈ l -> snapshot_of w' b = snapshot_of w a /\ snapshot_of w' a = None) /\
    (forall k, k ∉ l.*1 -> k ∉ l.*2 -> snapshot_of w' k = snapshot_of w k).
Proof.
  induction l as [|[a b] l IH]; intros w Hok Ha Hb Hd Hn.
  - exists w. split_and!; [done | done | by intros ? ? ?%elem_of_nil | done].
  - csimpl in *. apply NoDup_cons in Ha as [Ha Hal]. apply NoDup_cons in Hb as [Hb Hbl].
    destruct (rename_key_spec w a b Hok) as (w1 & E & Hok1 & H1 & H2 & H3 & H4).
    { intros ->. apply (Hd b); set_solver. }
    { apply Hn. set_solver. }
    destruct (IH w1 Hok1 Hal Hbl) as (w2 & E2 & Hok2 & Hm & Ho).
    { intros k Hk Hk'. apply (Hd k); set_solver. }
    { intros b' Hb'. apply H4; [set_solver|]. apply Hn. set_solver. }
    exists w2. cbn [mfor]. rewrite (bind_done _ _ _ _ _ E). split_and!; [done | done | |].
    + intros a' b' [[= -> ->]|Hin]%elem_of_cons.
      * rewrite (Ho b), (Ho a); [done|..]; [done| |..]; try done; intros Hk; apply (Hd a) || apply (Hd b); set_solver.
      * destruct (Hm a' b' Hin) as [-> ->]. split; [|done].
        assert (a' ∈ l.*1) by (apply list_elem_of_fmap; by exists (a', b')).
        apply H3; intros ->; [done|]. apply (Hd b); set_solver.
    + intros k Hk1 Hk2. rewrite Ho by set_solver. apply H3; set_solver.
Qed.

(** Renaming keeps every snapshot. When the new pointers are fresh (not
    among the old ones, pairwise different, and not in the maps),
    [replaceDataStructurePointers] succeeds; the bytes that were recorded under
    an old pointer are recorded under its new one, nothing is left under the
    old one, and the other objects keep theirs. *)
Theorem rename_exact w (addrTable : gmap Z Z) :
  swap_ok w ->
  NoDup (iter_map addrTable).*2 ->
  (forall a b, addrTable !! a = Some b -> addrTable !! b = None /\ objectOffsetMap w !! b = None) ->
  exists w', replaceDataStructurePointers addrTable false w = Done (tt, w') /\ swapfile_ok w' /\
    (forall a b, addrTable !! a = Some b -> snapshot_of w' b = snapshot_of w a /\ snapshot_of w' a = None) /\
    (forall k, addrTable !! k = None -> (forall a, addrTable !! a <> Some k) -> snapshot_of w' k = snapshot_of w k).
Proof.
  intros Hok Hnd Hfresh.
  assert (Hval : forall b, b ∈ (iter_map addrTable).*2 -> exists a, addrTable !! a = Some b).
  { intros b Hb. apply list_elem_of_fmap in Hb as ([a b'] & -> & Hin). exists a. by apply elem_of_iter_map. }
  destruct (rename_all_spec (iter_map addrTable) w Hok) as (w' & E & Hok' & Hm & Ho).
  - apply NoDup_iter_map.
  - done.
  - intros k Hk Hk'. apply elem_of_iter_map_fst in Hk as [b Hb]. destruct (Hval k Hk') as [a Ha].
    destruct (Hfresh a k Ha). congruence.
  - intros b Hb. destruct (Hval b Hb) as [a Ha]. by apply (Hfresh a b).
  - exists w'. unfold replaceDataStructurePointers. rewrite bind_gets, (bind_done _ _ _ _ _ E).
    split_and!; [done | apply Hok' | |].
    + intros a b Hab. apply Hm. by apply elem_of_iter_map.
    + intros k Hk Hne. apply Ho; [rewrite elem_of_iter_map_fst, Hk; by intros [? ?]|].
      intros Hin. destruct (Hval k Hin) as [a Ha]. by apply (Hne a).
Qed.

End Invariant.

(** *** A process that enables swapping and marks an object

    In the mode for commercial apps, marking excludes the object. *)
Definition boot_space (base : Z) : FreeListSpace.FreeListSpace :=
  FreeListSpace.mkSpace base (base + 0x1000) ∅ 0x1000 [] 0 0 0 0.
Definition booting : world FreeListSpace.FreeListSpace :=
  mkWorld (SetDirtyBit (store32 ∅ 0x10000 200) 0x10000) (mkTable 0 []) (boot_space 0) (boot_space 0x10000)
    (boot_space 0x20000) (mkStream [] 0 false) ∅ ∅ [] ∅ ∅ ∅ ∅ ∅ false false true 0 0 0 0 0 0 [] [].
Definition boot_classes : gmap Z ClassInfo := {[ 200 := mkClass 0 0 1 0 4096 None false 0 [] ]}.
Definition boot : outcome (unit * world FreeListSpace.FreeListSpace) :=
  InitIfNecessary 1000 true 77 true false (Some 0xc0000000) (Some 0x8000) 0 booting.
Definition booted : world FreeListSpace.FreeListSpace :=
  final_state boot booting.
Definition mark : M (world FreeListSpace.FreeListSpace) unit :=
  CheckAndUpdate (RosAlloc := FreeListSpace.FreeListSpace_allocator 0x7000) boot_classes true true 0x10000.
Definition marked : world FreeListSpace.FreeListSpace :=
  final_state (mark booted) booted.


(** *** The collector moves the first of the two objects of [demo_file_world] *)
Definition moving : world FreeListSpace.FreeListSpace :=
  mkWorld ∅ (mkTable 0 []) (boot_space 0) (boot_space 0x10000) (boot_space 0x20000)
    (swapfile demo_file_world) (objectOffsetMap demo_file_world) (objectSizeMap demo_file_world)
    [] ∅ ∅ ∅ ∅ ∅ false true true 0 1 10 2 36 1 [] [].

Lemma rename_exact_witness :
  exists w', replaceDataStructurePointers
      {[ 0x100 := 0x300 ]} false moving = Done (tt, w') /\
    snapshot_of w' 0x300 = Some (replicate 16 1) /\ snapshot_of w' 0x100 = None.
Proof.
  destruct (rename_exact moving {[ 0x100 := 0x300 ]})
    as (w' & H & _ & Hm & _).
  - split; [exact demo_file_world_ok|]. split; [apply NoDup_nil_2 | intros x; simpl; set_solver].
  - vm_compute. apply NoDup_singleton.
  - intros a b [<- <-]%lookup_singleton_Some. split; vm_compute; reflexivity.
  - exists w'. split; [exact H|]. destruct (Hm 0x100 0x300) as [-> ->]; [reflexivity|]. split; vm_compute; reflexivity.
Defined.
