(* ===== verification/SwapRuns.v ===== *)
(** Runs of the swapping code: the schedule of the write tasks, and what becomes
    of a process that has one large object that was written but is cold. *)
From stdpp Require Import prelude gmap list.
From Stdlib Require Import ZArith Lia.
From S2P Require Import Prelude Bits Mem ObjectHeader Mirror ReclamationTable Stub Stream.
From S2P Require Import Allocator LargeObjectSpace SwapState Swap SwapFile.
Open Scope Z_scope.

(** ** The schedule of the write tasks

    [tasks ts]: the ends of the write tasks at the times [ts]. *)
Section Schedule.
Context {R : Type}.
Implicit Types w : world R.
Definition tasks (ts : list Z) : M (world R) unit := mfor ts (fun t => scheduleNextTask t true false).
Definition asked (r : heap_request) (w : world R) : Z := Z.of_nat (length (filter (fun x => x = r) (requests w))).

Lemma asked_ask r x w : asked r (set_requests (x :: requests w) w) = (if decide (x = r) then 1 else 0) + asked r w.
Proof.
  change (asked r (set_requests (x :: requests w) w)) with
    (Z.of_nat (length (filter (fun y => y = r) (x :: requests w)))).
  unfold asked. rewrite filter_cons. case_decide; cbn [length]; lia.
Qed.
Lemma asked_counter r x w : asked r (set_bgMarkSweepCounter x w) = asked r w.
Proof. done. Qed.
Lemma schedule_background w t c :
  appInForeground w = false -> bgMarkSweepCounter w = c -> 0 <= c <= 6 ->
  exists w', scheduleNextTask t true false w = Done (tt, w') /\ appInForeground w' = false /\
    bgMarkSweepCounter w' = (c + 1) mod 7 /\
    asked PerformHomogeneousSpaceCompact w' = asked PerformHomogeneousSpaceCompact w + (c + 1) / 7 /\
    asked RequestConcurrentGC w' = asked RequestConcurrentGC w + (1 - (c + 1) / 7).
Proof.
  intros Hf Hc Hr. unfold scheduleNextTask, ask. rewrite bind_gets, Hf. cbn [andb negb when].
  rewrite bind_assoc, bind_gets, Hc. unfold BG_MARK_SWEEPS_BEFORE_SEMI_SPACE.
  destruct (Z.leb_spec 6 c).
  - assert (c = 6) as -> by lia. rewrite bind_assoc, !bind_modify. eexists. split; [reflexivity|].
    rewrite !asked_ask, !asked_counter, !asked_ask. clear Hc. repeat case_decide; simplify_eq.
    split_and!; [exact Hf | reflexivity | div_lia | div_lia].
  - rewrite bind_assoc, !bind_modify. eexists. split; [reflexivity|].
    rewrite !asked_ask, !asked_counter, !asked_ask. clear Hc. repeat case_decide; simplify_eq.
    split_and!; [exact Hf | | div_lia | div_lia].
    change (i32 (c + 1) = (c + 1) mod 7). unfold swrap. change (2 ^ (32 - 1)) with 2147483648. div_lia.
Qed.
Lemma tasks_from ts : forall w c,
  appInForeground w = false -> bgMarkSweepCounter w = c -> 0 <= c <= 6 ->
  let k := Z.of_nat (length ts) in
  exists w', tasks ts w = Done (tt, w') /\ bgMarkSweepCounter w' = (c + k) mod 7 /\
    asked PerformHomogeneousSpaceCompact w' = asked PerformHomogeneousSpaceCompact w + (c + k) / 7 /\
    asked RequestConcurrentGC w' = asked RequestConcurrentGC w + (k - (c + k) / 7).
Proof.
  induction ts as [|t ts IH]; intros w c Hf Hc Hr k.
  - exists w. unfold k. simpl. rewrite !Z.add_0_r, Z.mod_small, Z.div_small by lia. split_and!; [done | done | lia | lia].
  - destruct (schedule_background w t c Hf Hc Hr) as (w1 & E & Hf1 & Hc1 & Ha & Hb).
    destruct (IH w1 _ Hf1 Hc1) as (w2 & E2 & Hc2 & Ha2 & Hb2); [div_lia|].
    exists w2. unfold tasks in *. cbn [mfor]. rewrite (bind_done _ _ _ _ _ E), E2. unfold k. simpl length.
    rewrite Ha2, Hb2, Ha, Hb, Hc2. split_and!; [done | div_lia | div_lia | div_lia].
Qed.

(** In the background every seventh write task asks for a compacting
    collection. From the moment the app goes to the background, [k] tasks
    have requested [k / 7] homogeneous space compactions and a concurrent
    collection at each of the other ends, so that
    BG_MARK_SWEEPS_BEFORE_SEMI_SPACE collections lie between compactions. *)
Theorem background_schedule w ts :
  appInForeground w = false -> bgMarkSweepCounter w = 0 ->
  let k := Z.of_nat (length ts) in
  exists w', tasks ts w = Done (tt, w') /\ bgMarkSweepCounter w' = k mod (BG_MARK_SWEEPS_BEFORE_SEMI_SPACE + 1) /\
    asked PerformHomogeneousSpaceCompact w' = asked PerformHomogeneousSpaceCompact w + k / 7 /\
    asked RequestConcurrentGC w' = asked RequestConcurrentGC w + (k - k / 7).
Proof. intros Hf Hc k. apply (tasks_from ts w 0 Hf Hc). lia. Qed.
End Schedule.

(** ** A process with one object

    A class of 2048 bytes with one reference, and its instance in the large
    object space; the field at offset 100 is 42. *)
Definition big_classes : gmap Z ClassInfo :=
  {[ 100 := mkClass 0 0 1 0 8 None false 0 []; 200 := mkClass 0 100 1 1 2048 None false 0 [] ]}.
Definition fresh_space (base : Z) : FreeListSpace.FreeListSpace :=
  match FreeListSpace.Create (Some base) true 8192 with
  | Done s => s
  | _ => FreeListSpace.mkSpace 0 0 ∅ 0 [] 0 0 0 0
  end.
Definition los_with_object : FreeListSpace.FreeListSpace :=
  match FreeListSpace.Alloc 0x7000 2048 (fresh_space 0x10000) with
  | Done (_, s) => s
  | _ => FreeListSpace.mkSpace 0 0 ∅ 0 [] 0 0 0 0
  end.
Definition big_object : Z := 0x10000.
Definition big_memory : mem := store32 (SetDirtyBit (store32 ∅ big_object 200) big_object) (big_object + 100) 42.
Definition process : world FreeListSpace.FreeListSpace :=
  mkWorld big_memory (CreateTable (Some 0x8000) 2) (fresh_space 0xc0000000) los_with_object (fresh_space 0x100000)
    (mkStream [1; 0; 0; 0] 4 false) ∅ ∅ [] ∅ ∅ ∅ ∅ ∅ false true true 0 0 0 0 0 1 [big_object] [].

(** A partial mark-sweep visits [o]; some rounds of the write task; the app
    goes to the background; an access to a reclaimed object. *)
Definition collect (o : Z) : M (world FreeListSpace.FreeListSpace) unit :=
  CheckAndUpdate (RosAlloc := FreeListSpace.FreeListSpace_allocator 0x7000) big_classes false true o.
Definition write_some (rounds : nat) : M (world FreeListSpace.FreeListSpace) bool :=
  write_queued (RosAlloc := FreeListSpace.FreeListSpace_allocator 0x7000) big_classes 100000 rounds.
Definition make_stubs : M (world FreeListSpace.FreeListSpace) unit :=
  CreateStubs (RosAlloc := FreeListSpace.FreeListSpace_allocator 0x7000) (fun _ => []) big_classes 0x7000.
Definition swap_in (o : Z) : M (world FreeListSpace.FreeListSpace) unit :=
  SwapInOnDemand (RosAlloc := FreeListSpace.FreeListSpace_allocator 0x7000) big_classes o.

(** The stub and the copy of the object, once they exist. *)
Definition the_stub : Z := 0x100000.
Definition the_copy : Z := 0xc0000000.
Definition field_after (run : M (world FreeListSpace.FreeListSpace) unit) : outcome (list Z * Z) :=
  '(_, w) ← run process; Done (roots w, load32 (w_mem w) (the_copy + 100)).

(** ** Properties *)


(** A compaction of the swap file that fails brings the process down. The
    object is written, and then [CompactSwapFile] cannot copy the old file; it
    empties the offset map and keeps the size map. The next [CreateStubs]
    finds the object in one map and not in the other, and its CHECK aborts;
    without the failed compaction it succeeds. *)
Theorem failed_compaction_aborts :
  is_done ((collect big_object;; write_some 10;; CompactSwapFile 100000 Some;; make_stubs) process) = true /\
  (collect big_object;; write_some 10;; CompactSwapFile 100000 (fun _ => None);; make_stubs) process = Aborted.
Proof. split; vm_compute; reflexivity. Qed.

Lemma background_schedule_witness :
  exists w', tasks [1; 2; 3; 4; 5; 6; 7; 8] (set_appInForeground false process) = Done (tt, w') /\
    asked PerformHomogeneousSpaceCompact w' = 1 /\ asked RequestConcurrentGC w' = 7.
Proof.
  destruct (background_schedule (set_appInForeground false process) [1; 2; 3; 4; 5; 6; 7; 8])
    as (w' & H & _ & Hp & Hg).
  - reflexivity.
  - reflexivity.
  - exists w'. split_and!; [exact H | exact Hp | exact Hg].
Defined.
