(* ===== verification/Histogram.v ===== *)
(** Histograms of runtime/marvin_histogram.h, runtime/marvin_histogram.cc and
    runtime/marvin_bivariate_histogram.cc.

    A [double] is an IEEE 754 binary64 number, with the rounding to nearest of
    the language; a [long] has 64 bits.  The virtual methods that divide the
    range into bins are the class [BinDivision], with the linear and the
    logarithmic histograms as its instances; the theorems on the base class are
    proved for every instance.  [std::log] and [std::pow] are arguments, since
    the language does not fix their rounding.  The conversion of a [double]
    without an [int] value to [int] is undefined, and is a fault here.  [Print]
    is not modelled. *)
From stdpp Require Import prelude list.
From Stdlib Require Import ZArith Lia ZifyBool SpecFloat.
From S2P Require Import Prelude.
Open Scope Z_scope.

(** ** Doubles *)
Abbreviation double := spec_float.
Definition of_int (z : Z) : double := binary_normalize 53 1024 z 0 false.
Definition d_add : double -> double -> double := SFadd 53 1024.
Definition d_sub : double -> double -> double := SFsub 53 1024.
Definition d_mul : double -> double -> double := SFmul 53 1024.
Definition d_div : double -> double -> double := SFdiv 53 1024.
Definition d_gtb (x y : double) : bool :=
  match SFcompare x y with Some Gt => true | _ => false end.

(** [(int)std::floor(x)] *)
Definition floor_value (x : double) : option Z :=
  match x with
  | S754_zero _ => Some 0
  | S754_finite s m e => Some (if 0 <=? e then cond_Zopp s (Zpos m) * 2 ^ e else cond_Zopp s (Zpos m) / 2 ^ (- e))
  | _ => None
  end.
Definition floor_int (x : double) : option Z :=
  match floor_value x with
  | Some z => if (- 2 ^ 31 <=? z) && (z <? 2 ^ 31) then Some z else None
  | None => None
  end.

(** ** The base class *)
Record Histogram := mkHistogram {
  numBins_ : Z;
  min_ : double;
  max_ : double;
  bins_ : list Z;
  belowMin_ : Z;
  aboveMax_ : Z;
  sum_ : double
}.
(** The members that the virtual methods use. *)
Definition same_range (h h' : Histogram) : Prop :=
  numBins_ h = numBins_ h' /\ min_ h = min_ h' /\ max_ h = max_ h'.
Class BinDivision := {
  GetBinIndex : Histogram -> double -> option Z;
  GetBinStart : Histogram -> Z -> double;
  GetBinEnd : Histogram -> Z -> double;
  GetBinIndex_range h h' x : same_range h h' -> GetBinIndex h x = GetBinIndex h' x
}.

Definition Clear (h : Histogram) : Histogram :=
  mkHistogram (numBins_ h) (min_ h) (max_ h) (replicate (Z.to_nat (numBins_ h)) 0) 0 0 (of_int 0).
Definition new_Histogram (numBins : Z) (min max : double) : Histogram :=
  Clear (mkHistogram numBins min max [] 0 0 (of_int 0)).
(** The count goes to one of [belowMin_], [aboveMax_] and the bins. *)
Definition count_in (h : Histogram) (binIndex count : Z) : Histogram :=
  if binIndex <? 0 then
    mkHistogram (numBins_ h) (min_ h) (max_ h) (bins_ h) (i64 (belowMin_ h + count)) (aboveMax_ h) (sum_ h)
  else if numBins_ h <=? binIndex then
    mkHistogram (numBins_ h) (min_ h) (max_ h) (bins_ h) (belowMin_ h) (i64 (aboveMax_ h + count)) (sum_ h)
  else
    mkHistogram (numBins_ h) (min_ h) (max_ h)
      (alter (fun n => i64 (n + count)) (Z.to_nat binIndex) (bins_ h)) (belowMin_ h) (aboveMax_ h) (sum_ h).
Definition add_sum (h : Histogram) (x : double) : Histogram :=
  mkHistogram (numBins_ h) (min_ h) (max_ h) (bins_ h) (belowMin_ h) (aboveMax_ h) (d_add (sum_ h) x).
Definition Count (h : Histogram) : Z :=
  i64 (i64 (foldl (fun count n => i64 (count + n)) 0 (bins_ h) + belowMin_ h) + aboveMax_ h).
Definition GetAverage (h : Histogram) : double := d_div (sum_ h) (of_int (Count h)).

Section Adding.
Context {D : BinDivision}.
Definition AddMultiple (num : double) (count : Z) (h : Histogram) : outcome Histogram :=
  match GetBinIndex h num with
  | None => Faulted
  | Some binIndex => Done (add_sum (count_in h binIndex count) (d_mul num (of_int count)))
  end.
Definition Add (num : double) (h : Histogram) : outcome Histogram := AddMultiple num 1 h.
Fixpoint add_all (l : list (double * Z)) (h : Histogram) : outcome Histogram :=
  match l with
  | [] => Done h
  | (num, count) :: l => h ← AddMultiple num count h; add_all l h
  end.
End Adding.

(** ** Linear and logarithmic histograms *)
#[export] Program Instance LinearHistogram : BinDivision := {|
  GetBinIndex h num :=
    floor_int (d_div (d_mul (d_sub num (min_ h)) (of_int (numBins_ h))) (d_sub (max_ h) (min_ h)));
  GetBinStart h binIndex :=
    d_add (min_ h) (d_mul (of_int binIndex) (d_div (d_sub (max_ h) (min_ h)) (of_int (numBins_ h))));
  GetBinEnd h binIndex :=
    d_add (min_ h) (d_mul (of_int (binIndex + 1)) (d_div (d_sub (max_ h) (min_ h)) (of_int (numBins_ h))))
|}.
Next Obligation. intros h h' x (-> & -> & ->). reflexivity. Qed.

Program Definition LogHistogram (log : double -> double) (pow : double -> double -> double) (base_ : double) :
    BinDivision := {|
  GetBinIndex h num := floor_int (d_div (log (d_div num (min_ h))) (log base_));
  GetBinStart h binIndex := d_mul (min_ h) (pow base_ (of_int binIndex));
  GetBinEnd h binIndex := d_mul (min_ h) (pow base_ (of_int (binIndex + 1)))
|}.
Next Obligation. intros log pow base_ h h' x (_ & -> & _). reflexivity. Qed.
Definition new_LogHistogram (pow : double -> double -> double) (base : double) (minPower maxPower : Z) :
    outcome Histogram :=
  if d_gtb base (of_int 1) then
    Done (new_Histogram (maxPower - minPower) (pow base (of_int minPower)) (pow base (of_int maxPower)))
  else Aborted.                          (* CHECK(base > 1) *)

(** ** Two variables *)
Module BivariateHistogram.
Record BivariateHistogram := mkBivariate {
  bins_ : list (list Z);
  numBinsX_ : Z;
  minX_ : double;
  maxX_ : double;
  numBinsY_ : Z;
  minY_ : double;
  maxY_ : double
}.
Definition Clear (h : BivariateHistogram) : BivariateHistogram :=
  mkBivariate (replicate (Z.to_nat (numBinsX_ h + 2)) (replicate (Z.to_nat (numBinsY_ h + 2)) 0))
    (numBinsX_ h) (minX_ h) (maxX_ h) (numBinsY_ h) (minY_ h) (maxY_ h).
Definition new (numBinsX : Z) (minX maxX : double) (numBinsY : Z) (minY maxY : double) : BivariateHistogram :=
  Clear (mkBivariate [] numBinsX minX maxX numBinsY minY maxY).
Definition bin_num (numBins : Z) (min max val : double) : option Z :=
  floor_int (d_div (d_mul (d_sub val min) (of_int numBins)) (d_sub max min)).
(** The index of bin [binNum]: 0 stands for below, [numBins + 1] for above. *)
Definition clamp (numBins binNum : Z) : Z :=
  let index := i32 (binNum + 1) in
  if index <? 0 then 0 else if numBins + 1 <? index then numBins + 1 else index.
Definition Add (valX valY : double) (h : BivariateHistogram) : outcome BivariateHistogram :=
  match bin_num (numBinsX_ h) (minX_ h) (maxX_ h) valX, bin_num (numBinsY_ h) (minY_ h) (maxY_ h) valY with
  | Some binNumX, Some binNumY =>
      let i := Z.to_nat (clamp (numBinsX_ h) binNumX) in
      let j := Z.to_nat (clamp (numBinsY_ h) binNumY) in
      match bins_ h !! i ≫= (fun row => row !! j) with
      | None => Faulted                  (* outside of the array *)
      | Some _ =>
          Done (mkBivariate (alter (alter (fun n => i64 (n + 1)) j) i (bins_ h))
                  (numBinsX_ h) (minX_ h) (maxX_ h) (numBinsY_ h) (minY_ h) (maxY_ h))
      end
  | _, _ => Faulted
  end.
Definition TotalCount (h : BivariateHistogram) : Z :=
  foldl (fun count row => foldl (fun count n => i64 (count + n)) count row) 0 (bins_ h).
Fixpoint add_all (l : list (double * double)) (h : BivariateHistogram) : outcome BivariateHistogram :=
  match l with
  | [] => Done h
  | (x, y) :: l => h ← Add x y h; add_all l h
  end.
End BivariateHistogram.

(** ** Tallies *)
Lemma replicate_seq {A} (x : A) n : replicate n x = (fun _ => x) <$> seq 0 n.
Proof. generalize 0%nat. induction n as [|n IH]; intros k; simpl; [done|]. by rewrite <- IH. Qed.

(** The counts of the entries of [l] for which [p] holds. *)
Definition tally {A} (count : A -> Z) (p : A -> bool) (l : list A) : Z :=
  foldr (fun e s => (if p e then count e else 0) + s) 0 l.

Section Tally.
Context {A : Type} (count : A -> Z).
Implicit Types (p q : A -> bool) (l : list A).

Lemma tally_app p l l' : tally count p (l ++ l') = tally count p l + tally count p l'.
Proof. induction l as [|e l IH]; simpl; [done|]. rewrite IH. lia. Qed.
Lemma tally_snoc p l e : tally count p (l ++ [e]) = tally count p l + (if p e then count e else 0).
Proof. rewrite tally_app. simpl. lia. Qed.
Lemma tally_ext p q l : (forall e, p e = q e) -> tally count p l = tally count q l.
Proof. intros Hpq. induction l as [|e l IH]; simpl; [done|]. by rewrite Hpq, IH. Qed.
(** Disjoint conditions add up. *)
Lemma tally_or p q l :
  (forall e, p e && q e = false) -> tally count (fun e => p e || q e) l = tally count p l + tally count q l.
Proof.
  intros Hpq. induction l as [|e l IH]; simpl; [done|]. specialize (Hpq e).
  destruct (p e), (q e); simpl in *; try done; lia.
Qed.

(** The counts of the entries that a function sends to [0 .. n-1], added up
    with wrap-around. *)
Lemma tally_range p (f : A -> Z) (l : list A) n c :
  foldl (fun c n => i64 (c + n)) (i64 c)
    ((fun i : nat => i64 (tally count (fun e => p e && (f e =? Z.of_nat i)) l)) <$> seq 0 n) =
  i64 (c + tally count (fun e => p e && ((0 <=? f e) && (f e <? Z.of_nat n))) l).
Proof.
  induction n as [|n IH].
  - simpl. f_equal. erewrite tally_ext with (q := fun _ => false).
    + clear. induction l as [|e l IH]; simpl in *; lia.
    + intros e. lia.
  - rewrite seq_S, fmap_app, foldl_app, IH. simpl. rewrite swrap_add_l, swrap_add_r by lia.
    f_equal. rewrite <- Z.add_assoc. f_equal. rewrite <- tally_or.
    + apply tally_ext. intros e. lia.
    + intros e. lia.
Qed.
(** The same for a function to pairs, row by row. *)
Lemma tally_rows (f g : A -> Z) (l : list A) n m c :
  foldl (fun c row => foldl (fun c n => i64 (c + n)) c row) (i64 c)
    ((fun i : nat => (fun j : nat =>
        i64 (tally count (fun e => (f e =? Z.of_nat i) && (g e =? Z.of_nat j)) l)) <$> seq 0 m) <$> seq 0 n) =
  i64 (c + tally count (fun e => ((0 <=? f e) && (f e <? Z.of_nat n)) && ((0 <=? g e) && (g e <? Z.of_nat m))) l).
Proof.
  induction n as [|n IH].
  - simpl. f_equal. erewrite tally_ext with (q := fun _ => false).
    + clear. induction l as [|e l IH]; simpl in *; lia.
    + intros e. lia.
  - rewrite seq_S, fmap_app, foldl_app, IH. simpl.
    rewrite (tally_range (fun e => f e =? Z.of_nat n) g). f_equal. rewrite <- Z.add_assoc. f_equal.
    rewrite <- tally_or; [apply tally_ext|]; intros e; lia.
Qed.
End Tally.
Lemma tally_all {A} (p : A -> bool) l : (forall e, e ∈ l -> p e = true) -> tally (fun _ => 1) p l = Z.of_nat (length l).
Proof.
  induction l as [|e l IH]; intros Hl; [done|]. cbn [tally foldr length]. rewrite (Hl e) by set_solver.
  unfold tally in IH. rewrite IH by set_solver. lia.
Qed.


(** ** What a histogram holds *)
Section Holding.
Context {D : BinDivision} (n : Z) (lo hi : double).
Local Abbreviation empty := (new_Histogram n lo hi).

(** The bin of a value; only used where it is defined. *)
Definition bin_of (e : double * Z) : Z := default 0 (GetBinIndex empty e.1).
Local Abbreviation total := (tally (fun e : double * Z => e.2)).

(** Every count is in its bin. *)
Definition holds (l : list (double * Z)) (h : Histogram) : Prop :=
  same_range empty h /\
  bins_ h = (fun i : nat => i64 (total (fun e => bin_of e =? Z.of_nat i) l)) <$> seq 0 (Z.to_nat n) /\
  belowMin_ h = i64 (total (fun e => bin_of e <? 0) l) /\
  aboveMax_ h = i64 (total (fun e => n <=? bin_of e) l).

Lemma holds_empty : holds [] empty.
Proof.
  split; [done|]. split_and!; [|done|done]. simpl. change (i64 0) with 0.
  by rewrite replicate_seq.
Qed.

Lemma count_in_bin (f : nat -> Z) k c m :
  alter (fun x => i64 (x + c)) k ((fun i => i64 (f i)) <$> seq 0 m) =
  (fun i => i64 (f i + if decide (i = k) then c else 0)) <$> seq 0 m.
Proof.
  apply list_eq. intros i. destruct (decide (i = k)) as [->|Hne].
  - rewrite list_lookup_alter_eq, !list_lookup_fmap. destruct (seq 0 m !! k) as [j|] eqn:E; simpl; [|done].
    apply lookup_seq in E as [-> _]. simpl. by rewrite decide_True, swrap_add_l by done.
  - rewrite list_lookup_alter_ne, !list_lookup_fmap by done. destruct (seq 0 m !! i) as [j|] eqn:E; simpl; [|done].
    apply lookup_seq in E as [-> _]. simpl. by rewrite decide_False, Z.add_0_r by done.
Qed.

Lemma holds_step l h e :
  0 <= n -> holds l h -> is_Some (GetBinIndex empty e.1) ->
  exists h', AddMultiple e.1 e.2 h = Done h' /\ holds (l ++ [e]) h'.
Proof.
  intros Hn0 (Hr & Hb & Hlo & Hhi) [k Hk]. unfold AddMultiple.
  rewrite <- (GetBinIndex_range _ _ e.1 Hr), Hk. eexists. split; [done|].
  assert (He : bin_of e = k) by (unfold bin_of; by rewrite Hk).
  assert (Hn : numBins_ h = n) by (by destruct Hr as (<- & _)).
  unfold holds. setoid_rewrite tally_snoc. rewrite !He. unfold count_in. rewrite Hn.
  destruct (Z.ltb_spec k 0) as [Hneg|Hpos]; [|destruct (Z.leb_spec n k) as [Hbig|Hin]]; cbn;
    (split; [destruct Hr as (? & ? & ?); by split_and!|]); rewrite Hb, Hlo, Hhi; (split_and!; [|by rewrite ?(proj2 (Z.leb_gt n k)), ?swrap_add_l, ?Z.add_0_r by lia..]).
  - apply list_fmap_ext. intros i j [-> Hi]%lookup_seq. rewrite (proj2 (Z.eqb_neq _ _)) by lia. by rewrite Z.add_0_r.
  - apply list_fmap_ext. intros i j [-> Hi]%lookup_seq. rewrite (proj2 (Z.eqb_neq _ _)) by lia. by rewrite Z.add_0_r.
  - rewrite count_in_bin. apply list_fmap_ext. intros i j [-> Hi]%lookup_seq. do 2 f_equal.
    destruct (decide _), (Z.eqb_spec k (Z.of_nat (0 + i))); lia.
Qed.

Lemma add_all_app l l' h : add_all (l ++ l') h = (h ← add_all l h; add_all l' h).
Proof.
  revert h; induction l as [|[x c] l IH]; intros h; simpl; [done|].
  destruct (AddMultiple x c h); simpl; [apply IH | done..].
Qed.

Lemma add_all_holds l :
  0 <= n -> (forall e, e ∈ l -> is_Some (GetBinIndex empty e.1)) -> exists h, add_all l empty = Done h /\ holds l h.
Proof.
  induction l as [|e l IH] using rev_ind; intros Hn Hl; [exists empty; split; [done | apply holds_empty]|].
  destruct IH as (h & E & Hh); [done | intros; apply Hl; set_solver|].
  destruct (holds_step l h e Hn Hh) as (h' & E' & Hh'); [apply Hl; set_solver|].
  exists h'. split; [|done]. rewrite add_all_app, E. simpl. destruct e. simpl in *. by rewrite E'.
Qed.

Lemma holds_Count l h : 0 <= n -> holds l h -> Count h = i64 (total (fun _ => true) l).
Proof.
  intros Hn (_ & Hb & Hlo & Hhi). unfold Count. rewrite Hb, Hlo, Hhi.
  pose proof (tally_range (fun e : double * Z => e.2) (fun _ => true) bin_of l (Z.to_nat n) 0) as E.
  simpl in E. change (i64 0) with 0 in E. rewrite E.
  rewrite !swrap_add_r, swrap_add_l, <- Z.add_assoc, swrap_add_l by lia. f_equal.
  rewrite Z.add_0_l, <- !tally_or; [apply tally_ext|..]; intros e; lia.
Qed.
End Holding.

(** A histogram counts every value once. For any division into bins, after
    any sequence of [AddMultiple] on a new histogram: bin [i] holds the counts
    of the values with index [i], [belowMin_] and [aboveMax_] those of the values
    below and above the bins, [Count] is the sum of all counts (all modulo the
    64 bits of a long), and [Clear] gives back the new histogram. *)
Theorem histogram_counts {D : BinDivision} n lo hi (l : list (double * Z)) :
  0 <= n -> (forall e, e ∈ l -> is_Some (GetBinIndex (new_Histogram n lo hi) e.1)) ->
  exists h, add_all l (new_Histogram n lo hi) = Done h /\
    (forall i, 0 <= i < n ->
       bins_ h !! Z.to_nat i = Some (i64 (tally snd (fun e => bin_of n lo hi e =? i) l))) /\
    belowMin_ h = i64 (tally snd (fun e => bin_of n lo hi e <? 0) l) /\
    aboveMax_ h = i64 (tally snd (fun e => n <=? bin_of n lo hi e) l) /\
    Count h = i64 (tally snd (fun _ => true) l) /\
    Clear h = new_Histogram n lo hi.
Proof.
  intros Hn Hl. destruct (add_all_holds n lo hi l Hn Hl) as (h & E & Hh). exists h.
  pose proof (holds_Count n lo hi l h Hn Hh) as Hc. destruct Hh as ((Hn' & Hlo' & Hhi') & Hb & Hlo & Hhi).
  split_and!; [done | | done | done | done |].
  - intros i Hi. rewrite Hb, list_lookup_fmap, lookup_seq_lt by lia. simpl. by rewrite Z2Nat.id by lia.
  - unfold Clear. by rewrite <- Hn', <- Hlo', <- Hhi'.
Qed.

(** Values 3, 9, 3, -1 and 16 in the histogram of the shift registers. *)
Lemma histogram_counts_witness :
  exists h, add_all ((fun z => (of_int z, 1)) <$> [3; 9; 3; -1; 16]) (new_Histogram 16 (of_int 0) (of_int 16)) = Done h /\
    bins_ h !! 3%nat = Some 2 /\ belowMin_ h = 1 /\ aboveMax_ h = 1 /\ Count h = 5.
Proof.
  destruct (histogram_counts 16 (of_int 0) (of_int 16) ((fun z => (of_int z, 1)) <$> [3; 9; 3; -1; 16]))
    as (h & E & Hb & Hlo & Hhi & Hc & _).
  - lia.
  - intros e He. repeat (apply elem_of_cons in He as [-> | He]; [vm_compute; eauto|]). by apply elem_of_nil in He.
  - exists h. split; [exact E|]. rewrite Hlo, Hhi, Hc. specialize (Hb 3). change (Z.to_nat 3) with 3%nat in Hb.
    rewrite Hb by lia. vm_compute. split_and!; reflexivity.
Defined.

(** ** What a histogram of two variables holds *)
Section Bivariate.
Import BivariateHistogram.
Context (nx : Z) (minX maxX : double) (ny : Z) (minY maxY : double).
Local Abbreviation empty := (BivariateHistogram.new nx minX maxX ny minY maxY).

(** The row or column of a value, as the comment on [bins_] has it: 0 when it
    is below, [n + 1] when it is above, and one more than its bin else. *)
Definition slot (n : Z) (min max val : double) : Z :=
  let k := default 0 (bin_num n min max val) in if k <? 0 then 0 else if n <=? k then n + 1 else k + 1.
Definition cell (i j : Z) (e : double * double) : bool :=
  (slot nx minX maxX e.1 =? i) && (slot ny minY maxY e.2 =? j).
Local Abbreviation number := (tally (fun _ : double * double => 1)).

(** The bin of a value is an [int], and so is its successor. *)
Definition has_bin (n : Z) (min max val : double) : Prop :=
  exists k, bin_num n min max val = Some k /\ k + 1 < 2 ^ 31.
Definition in_cells (l : list (double * double)) (h : BivariateHistogram) : Prop :=
  h = mkBivariate ((fun i : nat => (fun j : nat => i64 (number (cell (Z.of_nat i) (Z.of_nat j)) l))
        <$> seq 0 (Z.to_nat (ny + 2))) <$> seq 0 (Z.to_nat (nx + 2))) nx minX maxX ny minY maxY.

Lemma floor_int_range x k : floor_int x = Some k -> - 2 ^ 31 <= k < 2 ^ 31.
Proof. unfold floor_int. destruct (floor_value x); [|done]. destruct (_ && _) eqn:E; [|done]. intros [= <-]. lia. Qed.
Lemma clamp_slot n min max val k :
  0 <= n -> bin_num n min max val = Some k -> k + 1 < 2 ^ 31 ->
  clamp n k = slot n min max val /\ 0 <= slot n min max val < n + 2.
Proof.
  intros Hn Hk Hk1. unfold slot. rewrite Hk. simpl. pose proof (floor_int_range _ _ Hk). unfold clamp.
  assert (i32 (k + 1) = k + 1) as ->. { unfold swrap. rewrite Z.mod_small by lia. lia. }
  destruct (Z.ltb_spec (k + 1) 0), (Z.ltb_spec k 0), (Z.ltb_spec (n + 1) (k + 1)), (Z.leb_spec n k); lia.
Qed.

Lemma count_in_cell (f : nat -> nat -> Z) i j n m :
  alter (alter (fun x => i64 (x + 1)) j) i ((fun i => (fun j => i64 (f i j)) <$> seq 0 m) <$> seq 0 n) =
  (fun i' => (fun j' => i64 (f i' j' + if decide (i' = i /\ j' = j) then 1 else 0)) <$> seq 0 m) <$> seq 0 n.
Proof.
  apply list_eq. intros i'. destruct (decide (i' = i)) as [->|Hne].
  - rewrite list_lookup_alter_eq, !list_lookup_fmap. destruct (seq 0 n !! i) as [i'|] eqn:E; simpl; [|done].
    apply lookup_seq in E as [-> _]. rewrite count_in_bin. f_equal. apply list_fmap_ext. intros k k' _.
    do 2 f_equal. destruct (decide (k' = j)), (decide _); naive_solver.
  - rewrite list_lookup_alter_ne, !list_lookup_fmap by done. destruct (seq 0 n !! i') as [k|] eqn:E; simpl; [|done].
    apply lookup_seq in E as [-> _]. f_equal. apply list_fmap_ext. intros j' k' _.
    rewrite decide_False by naive_solver. by rewrite Z.add_0_r.
Qed.

Lemma Add_cells l h x y :
  0 <= nx -> 0 <= ny -> has_bin nx minX maxX x -> has_bin ny minY maxY y -> in_cells l h ->
  exists h', Add x y h = Done h' /\ in_cells (l ++ [(x, y)]) h'.
Proof.
  intros Hnx Hny (kx & Hkx & Hx) (ky & Hky & Hy) ->. unfold Add; cbn. rewrite Hkx, Hky.
  destruct (clamp_slot _ _ _ _ _ Hnx Hkx Hx) as [-> Hi], (clamp_slot _ _ _ _ _ Hny Hky Hy) as [-> Hj].
  rewrite list_lookup_fmap, lookup_seq_lt by lia. cbn. rewrite list_lookup_fmap, lookup_seq_lt by lia. cbn.
  eexists. split; [done|]. unfold in_cells. f_equal. rewrite count_in_cell.
  apply list_fmap_ext. intros i i' [-> _]%lookup_seq. apply list_fmap_ext. intros j j' [-> _]%lookup_seq.
  rewrite tally_snoc. do 2 f_equal. unfold cell. cbn.
  destruct (decide _), (Z.eqb_spec (slot nx minX maxX x) (Z.of_nat i)), (Z.eqb_spec (slot ny minY maxY y) (Z.of_nat j)); cbn [andb]; lia.
Qed.

Lemma bivariate_app l l' h : add_all (l ++ l') h = (h ← add_all l h; add_all l' h).
Proof.
  revert h; induction l as [|[x c] l IH]; intros h; simpl; [done|].
  destruct (Add x c h); simpl; [apply IH | done..].
Qed.
Lemma add_all_cells l :
  0 <= nx -> 0 <= ny -> (forall e, e ∈ l -> has_bin nx minX maxX e.1 /\ has_bin ny minY maxY e.2) ->
  exists h, add_all l empty = Done h /\ in_cells l h.
Proof.
  intros Hnx Hny. induction l as [|[x y] l IH] using rev_ind; intros Hl.
  - exists empty. split; [done|]. unfold in_cells, BivariateHistogram.new, BivariateHistogram.Clear. simpl. f_equal.
    by rewrite !replicate_seq.
  - destruct IH as (h & E & Hh); [intros; apply Hl; set_solver|].
    destruct (Hl (x, y)) as [Hx Hy]; [set_solver|].
    destruct (Add_cells l h x y Hnx Hny Hx Hy Hh) as (h' & E' & Hh'). exists h'.
    split; [|done]. rewrite bivariate_app, E. simpl. by rewrite E'.
Qed.
End Bivariate.

(** A histogram of two variables counts every pair in its cell. For any
    sequence of values whose bins are [int]s, [Add] never indexes outside of the
    array; cell [(i, j)] then holds the number of pairs with [x] in slot [i] and
    [y] in slot [j], where slot 0 is below the range and the last one above it,
    as the comment on [bins_] says; and [TotalCount] is the number of pairs. *)
Theorem bivariate_counts nx minX maxX ny minY maxY (l : list (double * double)) :
  0 <= nx -> 0 <= ny -> (forall e, e ∈ l -> has_bin nx minX maxX e.1 /\ has_bin ny minY maxY e.2) ->
  exists h, BivariateHistogram.add_all l (BivariateHistogram.new nx minX maxX ny minY maxY) = Done h /\
    (forall i j, 0 <= i <= nx + 1 -> 0 <= j <= ny + 1 ->
       BivariateHistogram.bins_ h !! Z.to_nat i ≫= (fun row => row !! Z.to_nat j) =
       Some (i64 (tally (fun _ => 1) (cell nx minX maxX ny minY maxY i j) l))) /\
    BivariateHistogram.TotalCount h = i64 (Z.of_nat (length l)).
Proof.
  intros Hnx Hny Hl. destruct (add_all_cells nx minX maxX ny minY maxY l Hnx Hny Hl) as (h & E & ->).
  eexists. split; [exact E|]. split.
  - intros i j Hi Hj. cbn. rewrite list_lookup_fmap, lookup_seq_lt by lia. cbn.
    rewrite list_lookup_fmap, lookup_seq_lt by lia. cbn. by rewrite !Z2Nat.id by lia.
  - unfold BivariateHistogram.TotalCount. cbn. unfold cell. change 0 with (i64 0) at 1. rewrite tally_rows. f_equal.
    rewrite Z.add_0_l. apply tally_all. intros e He. destruct (Hl e He) as [(kx & Hkx & Hx) (ky & Hky & Hy)].
    destruct (clamp_slot _ _ _ _ _ Hnx Hkx Hx), (clamp_slot _ _ _ _ _ Hny Hky Hy). lia.
Qed.

Lemma bivariate_counts_witness :
  exists h, BivariateHistogram.add_all [(of_int 5, of_int 0); (of_int 20, of_int 2); (of_int 5, of_int 0)]
      (BivariateHistogram.new 16 (of_int 0) (of_int 16) 10 (of_int 0) (of_int 1)) = Done h /\
    BivariateHistogram.bins_ h !! 6%nat ≫= (fun row => row !! 1%nat) = Some 2 /\
    BivariateHistogram.bins_ h !! 17%nat ≫= (fun row => row !! 11%nat) = Some 1 /\
    BivariateHistogram.TotalCount h = 3.
Proof.
  destruct (bivariate_counts 16 (of_int 0) (of_int 16) 10 (of_int 0) (of_int 1)
              [(of_int 5, of_int 0); (of_int 20, of_int 2); (of_int 5, of_int 0)]) as (h & E & Hc & Ht); [lia | lia | |].
  - intros e He. repeat (apply elem_of_cons in He as [-> | He];
      [split; eexists; (split; [vm_compute; reflexivity | vm_compute; reflexivity])|]). by apply elem_of_nil in He.
  - exists h. split; [exact E|]. rewrite Ht. pose proof (Hc 6 1) as H1. pose proof (Hc 17 11) as H2.
    change (Z.to_nat 6) with 6%nat in H1. change (Z.to_nat 1) with 1%nat in H1. rewrite H1 by lia.
    change (Z.to_nat 17) with 17%nat in H2. change (Z.to_nat 11) with 11%nat in H2. rewrite H2 by lia.
    vm_compute. split_and!; reflexivity.
Defined.
