(* ===== verification/Instrumentation.v ===== *)
(** Instrumentation: the counters and histograms of
    runtime/marvin_instrumentation.cc.

    The collector calls [CountAccess] on every object it marks; the allocators
    call [RecordRosAllocAlloc], [RecordRosAllocFree], [RecordAlloc] and
    [RecordFree].  A group of variables of the same type is a function from
    their names.  What is only printed ([FinishAccessCount], [printAllocCounts],
    [printHeap]) is not modelled. *)
From stdpp Require Import prelude gmap list strings.
From Stdlib Require Import ZArith Lia ZifyBool SpecFloat.
From S2P Require Import Prelude Bits Mem ObjectHeader Mirror ReclamationTable Stub.
From S2P Require Import Allocator LargeObjectSpace SwapState Swap SwapCycle Histogram.
Open Scope Z_scope.
Set Default Proof Using "Type".

(** ** Counters of the allocators *)
Inductive RosAllocAllocType :=
| ROSALLOC_ALLOC_THREAD_LOCAL | ROSALLOC_ALLOC_NORMAL | ROSALLOC_ALLOC_LARGE.
Inductive RosAllocFreeType := ROSALLOC_FREE_NORMAL_OR_THREAD_LOCAL | ROSALLOC_FREE_LARGE.

Inductive alloc_counter :=
| numTotalRosAllocThreadLocalAllocs | numTotalRosAllocNormalAllocs | numTotalRosAllocLargeObjectAllocs
| sizeTotalRosAllocThreadLocalAllocs | sizeTotalRosAllocNormalAllocs | sizeTotalRosAllocLargeObjectAllocs
| numCurrentRosAllocAllocs | numCurrentRosAllocLargeObjectAllocs
| sizeCurrentRosAllocAllocs | sizeCurrentRosAllocLargeObjectAllocs.
#[export] Instance alloc_counter_eq_dec : EqDecision alloc_counter.
Proof. solve_decision. Defined.

Record alloc_stats := mkAllocStats {
  ros_counters : alloc_counter -> Z;           (* long *)
  currentAllocCounts : gmap string Z;          (* int, by the name of the space *)
  currentAllocSizes : gmap string Z;
  totalAllocCounts : gmap string Z;
  totalAllocSizes : gmap string Z
}.
Definition no_allocs : alloc_stats := mkAllocStats (fun _ => 0) ∅ ∅ ∅ ∅.

Definition bump_ros (c : alloc_counter) (n : Z) (s : alloc_stats) : alloc_stats :=
  mkAllocStats (fun c' => if decide (c = c') then i64 (ros_counters s c + n) else ros_counters s c')
    (currentAllocCounts s) (currentAllocSizes s) (totalAllocCounts s) (totalAllocSizes s).
(** [map[name] += n] on a map to [int]; an absent name has value 0. *)
Definition bump_name (name : string) (n : Z) (counts : gmap string Z) : gmap string Z :=
  <[name := i32 (default 0 (counts !! name) + n)]> counts.

Definition RecordRosAllocAlloc (size : Z) (type : RosAllocAllocType) (s : alloc_stats) : alloc_stats :=
  match type with
  | ROSALLOC_ALLOC_THREAD_LOCAL =>
      bump_ros sizeCurrentRosAllocAllocs size (bump_ros numCurrentRosAllocAllocs 1
        (bump_ros sizeTotalRosAllocThreadLocalAllocs size (bump_ros numTotalRosAllocThreadLocalAllocs 1 s)))
  | ROSALLOC_ALLOC_NORMAL =>
      bump_ros sizeCurrentRosAllocAllocs size (bump_ros numCurrentRosAllocAllocs 1
        (bump_ros sizeTotalRosAllocNormalAllocs size (bump_ros numTotalRosAllocNormalAllocs 1 s)))
  | ROSALLOC_ALLOC_LARGE =>
      bump_ros sizeCurrentRosAllocLargeObjectAllocs size (bump_ros numCurrentRosAllocLargeObjectAllocs 1
        (bump_ros sizeTotalRosAllocLargeObjectAllocs size (bump_ros numTotalRosAllocLargeObjectAllocs 1 s)))
  end.
Definition RecordRosAllocFree (size : Z) (type : RosAllocFreeType) (s : alloc_stats) : alloc_stats :=
  match type with
  | ROSALLOC_FREE_NORMAL_OR_THREAD_LOCAL =>
      bump_ros sizeCurrentRosAllocAllocs (- size) (bump_ros numCurrentRosAllocAllocs (- 1) s)
  | ROSALLOC_FREE_LARGE =>
      bump_ros sizeCurrentRosAllocLargeObjectAllocs (- size) (bump_ros numCurrentRosAllocLargeObjectAllocs (- 1) s)
  end.
Definition RecordAlloc (name : string) (size : Z) (s : alloc_stats) : alloc_stats :=
  mkAllocStats (ros_counters s) (bump_name name 1 (currentAllocCounts s)) (bump_name name size (currentAllocSizes s))
    (bump_name name 1 (totalAllocCounts s)) (bump_name name size (totalAllocSizes s)).
Definition RecordFree (name : string) (size count : Z) (s : alloc_stats) : alloc_stats :=
  mkAllocStats (ros_counters s) (bump_name name (- count) (currentAllocCounts s))
    (bump_name name (- size) (currentAllocSizes s)) (totalAllocCounts s) (totalAllocSizes s).

(** ** Counters of a collection *)
Inductive counter :=
| objectsRead | objectsWritten | objectsReadAndWritten | totalObjects | shenanigansCount
| readTotalObjectSize | readTotalPointerSize | unreadTotalObjectSize | unreadTotalPointerSize
| smallObjectTotalObjectSize | smallObjectTotalPointerSize
| largeObjectTotalObjectSize | largeObjectTotalPointerSize
| coldObjectTotalSize | largeColdObjectTotalSize
| noSwapFlagTotalSize | notInSpaceTotalSize | notSwappableTypeTotalSize
| numStubs | sizeWorkingSetRead | sizeWorkingSetWrite.
#[export] Instance counter_eq_dec : EqDecision counter.
Proof. solve_decision. Defined.

Inductive hist :=
| objectSizeHist | objectSizeTotalMemoryCounts | pointerFrac100KBObjectHist
| smallObjectPointerFracHist | largeObjectPointerFracHist | readShiftRegHist | writeShiftRegHist.
#[export] Instance hist_eq_dec : EqDecision hist.
Proof. solve_decision. Defined.
Inductive bihist :=
| readShiftRegVsPointerFracHist | writeShiftRegVsPointerFracHist | objectSizeVsPointerFracHist.
#[export] Instance bihist_eq_dec : EqDecision bihist.
Proof. solve_decision. Defined.

Record access_stats := mkAccess {
  counters : counter -> Z;                     (* long *)
  maxPointerCount4KB : Z;                      (* uint32_t *)
  maxPointerFrac4KB : double;
  hists : hist -> Histogram;
  bihists : bihist -> BivariateHistogram.BivariateHistogram
}.

Definition with_counters (f : (counter -> Z) -> counter -> Z) (s : access_stats) : access_stats :=
  mkAccess (f (counters s)) (maxPointerCount4KB s) (maxPointerFrac4KB s) (hists s) (bihists s).
Definition with_hist (h : hist) (x : Histogram) (s : access_stats) : access_stats :=
  mkAccess (counters s) (maxPointerCount4KB s) (maxPointerFrac4KB s)
    (fun h' => if decide (h = h') then x else hists s h') (bihists s).
Definition with_bihist (h : bihist) (x : BivariateHistogram.BivariateHistogram) (s : access_stats) : access_stats :=
  mkAccess (counters s) (maxPointerCount4KB s) (maxPointerFrac4KB s) (hists s)
    (fun h' => if decide (h = h') then x else bihists s h').
Definition with_max (count : Z) (frac : double) (s : access_stats) : access_stats :=
  mkAccess (counters s) count frac (hists s) (bihists s).

Definition bump (c : counter) (n : Z) : M access_stats unit :=
  modify (with_counters (fun cs c' => if decide (c = c') then i64 (cs c + n) else cs c')).

(** What [CountAccess] reads of an object. *)
Record observed := mkObserved {
  objectSize : Z;                      (* size_t *)
  isSwappableType : bool;
  numPointers : Z;                     (* uint32_t *)
  wasRead : bool;
  wasWritten : bool;
  rsrVal : Z;
  wsrVal : Z;
  noSwapFlag : bool;
  inSwappableSpace : bool
}.

Section Access.
Context (log : double -> double) (pow : double -> double -> double).
Definition d2 : double := of_int 2.
Definition d1_5 : double := d_div (of_int 3) (of_int 2).

Definition division (h : hist) : BinDivision :=
  match h with
  | objectSizeHist | objectSizeTotalMemoryCounts => LogHistogram log pow d2
  | pointerFrac100KBObjectHist => LogHistogram log pow d1_5
  | _ => LinearHistogram
  end.
(** The initial values of the variables. *)
Definition static_init : outcome access_stats :=
  h1 ← new_LogHistogram pow d2 4 25;
  h2 ← new_LogHistogram pow d2 4 25;
  h3 ← new_LogHistogram pow d1_5 (-40) (-23);
  Done (mkAccess (fun _ => 0) 0 (of_int 0)
    (fun h => match h with
              | objectSizeHist => h1
              | objectSizeTotalMemoryCounts => h2
              | pointerFrac100KBObjectHist => h3
              | smallObjectPointerFracHist | largeObjectPointerFracHist => new_Histogram 10 (of_int 0) (of_int 1)
              | readShiftRegHist | writeShiftRegHist => new_Histogram 16 (of_int 0) (of_int 16)
              end)
    (fun h => match h with
              | readShiftRegVsPointerFracHist | writeShiftRegVsPointerFracHist =>
                  BivariateHistogram.new 16 (of_int 0) (of_int 16) 10 (of_int 0) (of_int 1)
              | objectSizeVsPointerFracHist =>
                  BivariateHistogram.new 10 (of_int 0) (of_int 1000) 10 (of_int 0) (of_int 1)
              end)).

Definition StartAccessCount (partial : bool) : M access_stats unit :=
  when partial (modify (fun s =>
    mkAccess (fun _ => 0) 0 (of_int 0) (fun h => Clear (hists s h))
      (fun h => BivariateHistogram.Clear (bihists s h)))).

Definition add_multiple (h : hist) (num : double) (count : Z) : M access_stats unit :=
  fun s => x ← AddMultiple (D := division h) num count (hists s h); Done (tt, with_hist h x s).
Definition add (h : hist) (num : double) : M access_stats unit := add_multiple h num 1.
Definition add_pair (h : bihist) (valX valY : double) : M access_stats unit :=
  fun s => x ← BivariateHistogram.Add valX valY (bihists s h); Done (tt, with_bihist h x s).

Definition sizeOfPointers (o : observed) : Z := u64 (numPointers o * sizeof_HeapReference).
Definition pointerSizeFrac (o : observed) : double := d_div (of_int (sizeOfPointers o)) (of_int (objectSize o)).
(** The rest of [CountAccess], once the object is read. *)
Definition count_object (o : observed) : M access_stats unit :=
  (if 200 <? objectSize o then
     add largeObjectPointerFracHist (pointerSizeFrac o);;
     bump largeObjectTotalPointerSize (sizeOfPointers o);;
     bump largeObjectTotalObjectSize (objectSize o)
   else
     add smallObjectPointerFracHist (pointerSizeFrac o);;
     bump smallObjectTotalPointerSize (sizeOfPointers o);;
     bump smallObjectTotalObjectSize (objectSize o));;
  (if wasRead o then
     bump objectsRead 1;;
     bump readTotalPointerSize (sizeOfPointers o);;
     bump readTotalObjectSize (objectSize o)
   else
     bump unreadTotalPointerSize (sizeOfPointers o);;
     bump unreadTotalObjectSize (objectSize o));;
  when (wasWritten o) (bump objectsWritten 1);;
  when (wasRead o && wasWritten o) (bump objectsReadAndWritten 1);;
  add objectSizeHist (of_int (objectSize o));;
  add_multiple objectSizeTotalMemoryCounts (of_int (objectSize o)) (objectSize o);;
  when (100 * 1024 <=? objectSize o) (add pointerFrac100KBObjectHist (pointerSizeFrac o));;
  when (4 * 1024 <=? objectSize o) (
    modify (fun s => if maxPointerCount4KB s <? numPointers o
                     then with_max (numPointers o) (maxPointerFrac4KB s) s else s);;
    modify (fun s => if d_gtb (pointerSizeFrac o) (maxPointerFrac4KB s)
                     then with_max (maxPointerCount4KB s) (pointerSizeFrac o) s else s));;
  add readShiftRegHist (of_int (rsrVal o));;
  add writeShiftRegHist (of_int (wsrVal o));;
  add_pair readShiftRegVsPointerFracHist (of_int (rsrVal o)) (pointerSizeFrac o);;
  add_pair writeShiftRegVsPointerFracHist (of_int (wsrVal o)) (pointerSizeFrac o);;
  add_pair objectSizeVsPointerFracHist (of_int (objectSize o)) (pointerSizeFrac o);;
  when (objectIsCold (wsrVal o) (wasWritten o)) (
    bump coldObjectTotalSize (objectSize o);;
    when (objectIsLarge (objectSize o)) (
      bump largeColdObjectTotalSize (objectSize o);;
      when (noSwapFlag o) (bump noSwapFlagTotalSize (objectSize o));;
      when (negb (inSwappableSpace o)) (bump notInSpaceTotalSize (objectSize o));;
      when (negb (isSwappableType o)) (bump notSwappableTypeTotalSize (objectSize o))));;
  when ((2 <=? wsrVal o) || wasWritten o) (bump sizeWorkingSetWrite (objectSize o));;
  when ((2 <=? rsrVal o) || wasRead o) (bump sizeWorkingSetRead (objectSize o));;
  bump totalObjects 1.
End Access.

(** ** [CountAccess] *)
Section CountAccess.
Context {R : Type} {RosAlloc : Allocator R} (ct : gmap Z ClassInfo).
Context (log : double -> double) (pow : double -> double -> double).

Definition in_world {A} (act : M (world R) A) : M (world R * access_stats) A :=
  fun s => '(a, w) ← act s.1; Done (a, (w, s.2)).
Definition in_stats {A} (act : M access_stats A) : M (world R * access_stats) A :=
  fun s => '(a, t) ← act s.2; Done (a, (s.1, t)).

(** What is read of the object, with its IgnoreReadFlag set as far as reads
    would be recorded. *)
Definition observe (object : Z) : M (world R) observed :=
  modm (fun m => SetIgnoreReadFlag m object);;
  objectSize ← try (fun w => SizeOf ct (w_mem w) object);
  isSwappableType ← try (fun w => objectIsSwappableType ct (w_mem w) object);
  klass ← (fun w => let '(klass, m) := GetClass (w_mem w) object in Done (klass, set_w_mem m w));
  modm (fun m => ClearIgnoreReadFlag m object);;
  chain ← try (fun _ => super_chain ct (chain_fuel ct) klass);
  match chain with
  | [] => fault                        (* klass is null *)
  | _ =>
      wasRead ← getm (fun m => GetReadBit m object);
      wasWritten ← getm (fun m => GetWriteBit m object);
      rsrVal ← getm (fun m => GetReadShiftRegister m object);
      wsrVal ← getm (fun m => GetWriteShiftRegister m object);
      noSwapFlag ← getm (fun m => GetNoSwapFlag m object);
      inSpace ← gets (fun w => objectInSwappableSpace w object);
      mret (mkObserved objectSize isSwappableType (sum_refs chain) wasRead wasWritten rsrVal wsrVal noSwapFlag inSpace)
  end.
Fixpoint CountAccess (fuel : nat) (partial : bool) (object : Z) : M (world R * access_stats) unit :=
  match fuel with
  | O => fun _ => Diverged
  | S fuel =>
      when partial (
        isStub ← in_world (getm (fun m => GetStubFlag m object));
        if (isStub : bool) then
          in_stats (bump numStubs 1);;
          resident ← in_world (stub_resident object);
          when resident (obj ← in_world (stub_object object); CountAccess fuel partial obj)
        else
          o ← in_world (observe object);
          in_stats (count_object log pow o))
  end.
End CountAccess.

(** ** What one object adds *)
Definition contribution (c : counter) (o : observed) : Z :=
  let size := objectSize o in
  let pointers := sizeOfPointers o in
  let cold := objectIsCold (wsrVal o) (wasWritten o) in
  match c with
  | objectsRead => if wasRead o then 1 else 0
  | objectsWritten => if wasWritten o then 1 else 0
  | objectsReadAndWritten => if wasRead o && wasWritten o then 1 else 0
  | totalObjects => 1
  | shenanigansCount | numStubs => 0
  | readTotalObjectSize => if wasRead o then size else 0
  | readTotalPointerSize => if wasRead o then pointers else 0
  | unreadTotalObjectSize => if wasRead o then 0 else size
  | unreadTotalPointerSize => if wasRead o then 0 else pointers
  | smallObjectTotalObjectSize => if 200 <? size then 0 else size
  | smallObjectTotalPointerSize => if 200 <? size then 0 else pointers
  | largeObjectTotalObjectSize => if 200 <? size then size else 0
  | largeObjectTotalPointerSize => if 200 <? size then pointers else 0
  | coldObjectTotalSize => if cold then size else 0
  | largeColdObjectTotalSize => if cold && objectIsLarge size then size else 0
  | noSwapFlagTotalSize => if cold && objectIsLarge size && noSwapFlag o then size else 0
  | notInSpaceTotalSize => if cold && objectIsLarge size && negb (inSwappableSpace o) then size else 0
  | notSwappableTypeTotalSize => if cold && objectIsLarge size && negb (isSwappableType o) then size else 0
  | sizeWorkingSetRead => if (2 <=? rsrVal o) || wasRead o then size else 0
  | sizeWorkingSetWrite => if (2 <=? wsrVal o) || wasWritten o then size else 0
  end.
Definition hist_entries (h : hist) (o : observed) : list (double * Z) :=
  let size := objectSize o in
  match h with
  | objectSizeHist => [(of_int size, 1)]
  | objectSizeTotalMemoryCounts => [(of_int size, size)]
  | pointerFrac100KBObjectHist => if 100 * 1024 <=? size then [(pointerSizeFrac o, 1)] else []
  | smallObjectPointerFracHist => if 200 <? size then [] else [(pointerSizeFrac o, 1)]
  | largeObjectPointerFracHist => if 200 <? size then [(pointerSizeFrac o, 1)] else []
  | readShiftRegHist => [(of_int (rsrVal o), 1)]
  | writeShiftRegHist => [(of_int (wsrVal o), 1)]
  end.
Definition pair_entries (h : bihist) (o : observed) : list (double * double) :=
  match h with
  | readShiftRegVsPointerFracHist => [(of_int (rsrVal o), pointerSizeFrac o)]
  | writeShiftRegVsPointerFracHist => [(of_int (wsrVal o), pointerSizeFrac o)]
  | objectSizeVsPointerFracHist => [(of_int (objectSize o), pointerSizeFrac o)]
  end.

Section Effects.
Context (log : double -> double) (pow : double -> double -> double).
Local Abbreviation div := (division log pow).

(** The ranges of the histograms, as they are declared. *)
Definition hist_range (h : hist) : Z * double * double :=
  match h with
  | objectSizeHist | objectSizeTotalMemoryCounts => (21, pow d2 (of_int 4), pow d2 (of_int 25))
  | pointerFrac100KBObjectHist => (17, pow d1_5 (of_int (-40)), pow d1_5 (of_int (-23)))
  | smallObjectPointerFracHist | largeObjectPointerFracHist => (10, of_int 0, of_int 1)
  | readShiftRegHist | writeShiftRegHist => (16, of_int 0, of_int 16)
  end.
Definition empty_hist (h : hist) : Histogram :=
  let '(n, lo, hi) := hist_range h in new_Histogram n lo hi.
Definition bihist_range (h : bihist) : Z * double * double :=
  match h with
  | readShiftRegVsPointerFracHist | writeShiftRegVsPointerFracHist => (16, of_int 0, of_int 16)
  | objectSizeVsPointerFracHist => (10, of_int 0, of_int 1000)
  end.
Definition empty_bihist (h : bihist) : BivariateHistogram.BivariateHistogram :=
  let '(n, lo, hi) := bihist_range h in BivariateHistogram.new n lo hi 10 (of_int 0) (of_int 1).

Lemma static_init_done :
  exists s, static_init pow = Done s /\ (forall c, counters s c = 0) /\
    (forall h, hists s h = empty_hist h) /\ (forall h, bihists s h = empty_bihist h).
Proof. eexists. split; [reflexivity|]. split_and!; [done | intros []; reflexivity..]. Qed.

(** Values that fall into a bin, below or above. *)
Definition hist_fits (h : hist) (l : list (double * Z)) : Prop :=
  forall e, e ∈ l -> is_Some (GetBinIndex (BinDivision := div h) (empty_hist h) e.1).
Definition pairs_fit (h : bihist) (l : list (double * double)) : Prop :=
  forall e, e ∈ l -> let '(n, lo, hi) := bihist_range h in has_bin n lo hi e.1 /\ has_bin 10 (of_int 0) (of_int 1) e.2.

(** [s] holds the sums [C] and the values [H] and [P]. *)
Definition recorded (C : counter -> Z) (H : hist -> list (double * Z)) (P : bihist -> list (double * double))
    (s : access_stats) : Prop :=
  (forall c, counters s c = i64 (C c)) /\
  (forall h, hist_fits h (H h) /\ add_all (D := div h) (H h) (empty_hist h) = Done (hists s h)) /\
  (forall h, pairs_fit h (P h) /\ BivariateHistogram.add_all (P h) (empty_bihist h) = Done (bihists s h)).
Definition adds (act : M access_stats unit) (dc : counter -> Z) (dh : hist -> list (double * Z))
    (dp : bihist -> list (double * double)) : Prop :=
  forall C H P s, recorded C H P s -> (forall h, hist_fits h (dh h)) -> (forall h, pairs_fit h (dp h)) ->
  exists s', act s = Done (tt, s') /\
    recorded (fun c => C c + dc c) (fun h => H h ++ dh h) (fun h => P h ++ dp h) s'.

Lemma recorded_ext C C' H H' P P' s :
  (forall c, C c = C' c) -> (forall h, H h = H' h) -> (forall h, P h = P' h) ->
  recorded C H P s -> recorded C' H' P' s.
Proof.
  intros HC HH HP (H1 & H2 & H3). split_and!; intros k; rewrite <- ?HC, <- ?HH, <- ?HP; auto.
Qed.

Lemma add_all_fits h l : hist_fits h l -> exists x, add_all (D := div h) l (empty_hist h) = Done x.
Proof.
  unfold hist_fits, empty_hist. intros Hl. destruct (hist_range h) as [[n lo] hi] eqn:E.
  assert (Hn : 0 <= n) by (destruct h; simplify_eq/=; lia).
  destruct (add_all_holds (D := div h) n lo hi l Hn Hl) as (x & Hx & _). by exists x.
Qed.
Lemma add_pairs_fit h l : pairs_fit h l -> exists x, BivariateHistogram.add_all l (empty_bihist h) = Done x.
Proof.
  unfold pairs_fit, empty_bihist. intros Hl. destruct (bihist_range h) as [[n lo] hi] eqn:E.
  assert (Hn : 0 <= n) by (destruct h; simplify_eq/=; lia).
  destruct (add_all_cells n lo hi 10 (of_int 0) (of_int 1) l Hn) as (x & Hx & _); [lia | done | by exists x].
Qed.
Lemma fits_app h l l' : hist_fits h l -> hist_fits h l' -> hist_fits h (l ++ l').
Proof. intros H1 H2 e [He|He]%elem_of_app; auto. Qed.
Lemma pairs_fit_app h l l' : pairs_fit h l -> pairs_fit h l' -> pairs_fit h (l ++ l').
Proof. intros H1 H2 e [He|He]%elem_of_app; [by apply H1 | by apply H2]. Qed.

(** *** Effects of the steps *)
Definition none {A B} (_ : A) : list B := [].

Lemma adds_ret : adds (mret tt) (fun _ => 0) none none.
Proof.
  intros C H P s Hs _ _. exists s. split; [done|]. revert Hs.
  by apply recorded_ext; intros; rewrite ?Z.add_0_r, ?app_nil_r.
Qed.
Lemma adds_bind act act' dc dh dp dc' dh' dp' :
  adds act dc dh dp -> adds act' dc' dh' dp' ->
  adds (act;; act') (fun c => dc c + dc' c) (fun h => dh h ++ dh' h) (fun h => dp h ++ dp' h).
Proof.
  intros H1 H2 C H P s Hs Hh Hp.
  destruct (H1 C H P s Hs) as (s1 & E1 & Hs1).
  { intros h e He. apply Hh. set_solver. } { intros h e He. apply Hp. set_solver. }
  destruct (H2 _ _ _ s1 Hs1) as (s2 & E2 & Hs2).
  { intros h e He. apply Hh. set_solver. } { intros h e He. apply Hp. set_solver. }
  exists s2. rewrite (bind_done _ _ _ _ _ E1). split; [done|]. revert Hs2.
  by apply recorded_ext; intros; rewrite ?Z.add_assoc, ?app_assoc.
Qed.
Lemma adds_if (b : bool) act act' dc dh dp dc' dh' dp' :
  adds act dc dh dp -> adds act' dc' dh' dp' ->
  adds (if b then act else act') (fun c => if b then dc c else dc' c) (fun h => if b then dh h else dh' h)
    (fun h => if b then dp h else dp' h).
Proof. by destruct b. Qed.
Lemma adds_when (b : bool) act dc dh dp :
  adds act dc dh dp ->
  adds (when b act) (fun c => if b then dc c else 0) (fun h => if b then dh h else []) (fun h => if b then dp h else []).
Proof. destruct b; [done|]. intros _. apply adds_ret. Qed.
Lemma adds_bump c n : adds (bump c n) (fun c' => if decide (c = c') then n else 0) none none.
Proof.
  intros C H P s (HC & HH & HP) _ _. eexists. split; [reflexivity|]. split_and!; simpl.
  - intros c'. destruct (decide (c = c')) as [<-|]; [|by rewrite HC, Z.add_0_r]. by rewrite HC, swrap_add_l.
  - intros h. unfold none. by rewrite app_nil_r.
  - intros h. unfold none. by rewrite app_nil_r.
Qed.
Lemma adds_max (f : access_stats -> bool) (g : access_stats -> Z * double) :
  adds (modify (fun s => if f s then with_max (g s).1 (g s).2 s else s)) (fun _ => 0) none none.
Proof.
  intros C H P s (HC & HH & HP) _ _. eexists. split; [reflexivity|]. unfold none.
  split_and!; intros k; rewrite ?Z.add_0_r, ?app_nil_r; destruct (f s); simpl; auto.
Qed.
Lemma adds_hist h x n :
  adds (add_multiple log pow h x n) (fun _ => 0) (fun h' => if decide (h = h') then [(x, n)] else []) none.
Proof.
  intros C H P s (HC & HH & HP) Hd _. destruct (HH h) as [Hf E].
  assert (Hf' : hist_fits h (H h ++ [(x, n)])).
  { apply fits_app; [done|]. specialize (Hd h). by rewrite decide_True in Hd. }
  destruct (add_all_fits h _ Hf') as [y Hy]. pose proof Hy as Ey. rewrite add_all_app, E in Ey. simpl in Ey.
  unfold add_multiple. destruct (AddMultiple _ _ _) as [y'| | |] eqn:Ea; simplify_eq/=.
  eexists. split; [reflexivity|]. unfold none. split_and!; simpl.
  - intros c. by rewrite Z.add_0_r.
  - intros h'. destruct (decide (h = h')) as [<-|]; [done|]. rewrite app_nil_r. apply HH.
  - intros h'. rewrite app_nil_r. apply HP.
Qed.
Lemma adds_pair h x y :
  adds (add_pair h x y) (fun _ => 0) none (fun h' => if decide (h = h') then [(x, y)] else []).
Proof.
  intros C H P s (HC & HH & HP) _ Hd. destruct (HP h) as [Hf E].
  assert (Hf' : pairs_fit h (P h ++ [(x, y)])).
  { apply pairs_fit_app; [done|]. specialize (Hd h). by rewrite decide_True in Hd. }
  destruct (add_pairs_fit h _ Hf') as [z Hz]. pose proof Hz as Ez. rewrite bivariate_app, E in Ez. simpl in Ez.
  unfold add_pair. destruct (BivariateHistogram.Add _ _ _) as [z'| | |] eqn:Ea; simplify_eq/=.
  eexists. split; [reflexivity|]. unfold none. split_and!; simpl.
  - intros c. by rewrite Z.add_0_r.
  - intros h'. rewrite app_nil_r. apply HH.
  - intros h'. destruct (decide (h = h')) as [<-|]; [done|]. rewrite app_nil_r. apply HP.
Qed.
Lemma adds_ext act dc dh dp dc' dh' dp' :
  adds act dc dh dp -> (forall c, dc c = dc' c) -> (forall h, dh h = dh' h) -> (forall h, dp h = dp' h) ->
  adds act dc' dh' dp'.
Proof.
  intros Ha HC HH HP C H P s Hs Hh Hp.
  destruct (Ha C H P s Hs) as (s' & E & Hs').
  { intros h. rewrite HH. apply Hh. } { intros h. rewrite HP. apply Hp. }
  exists s'. split; [done|]. revert Hs'. by apply recorded_ext; intros; rewrite ?HC, ?HH, ?HP.
Qed.

(** The maxima do not count. *)
Lemma adds_maxima o :
  adds (modify (fun s => if maxPointerCount4KB s <? numPointers o
                         then with_max (numPointers o) (maxPointerFrac4KB s) s else s);;
        modify (fun s => if d_gtb (pointerSizeFrac o) (maxPointerFrac4KB s)
                         then with_max (maxPointerCount4KB s) (pointerSizeFrac o) s else s))
    (fun _ => 0) none none.
Proof.
  eapply adds_ext; [eapply adds_bind|..]; [apply (adds_max _ (fun s => (numPointers o, maxPointerFrac4KB s))) |
    apply (adds_max _ (fun s => (maxPointerCount4KB s, pointerSizeFrac o))) | done..].
Qed.

Lemma if_same {A} (b : bool) (x : A) : (if b then x else x) = x.
Proof. by destruct b. Qed.
Ltac effects := repeat first
  [apply adds_maxima | apply adds_hist | apply adds_pair | apply adds_bump | eapply adds_when | eapply adds_if
  | eapply adds_bind].
Ltac tidy := cbn; repeat (rewrite Z.add_0_r || rewrite Z.add_0_l || rewrite app_nil_r || rewrite if_same); try done.

Lemma count_object_adds o :
  adds (count_object log pow o) (fun c => contribution c o) (fun h => hist_entries h o) (fun h => pair_entries h o).
Proof.
  eapply adds_ext; [unfold count_object, add; effects | | |].
  all: intros []; unfold none; tidy.
  all: by destruct (objectIsCold _ _), (objectIsLarge _).
Qed.

(** *** A collection *)
Definition sum_over {A} (f : A -> Z) (l : list A) : Z := foldr (fun x n => f x + n) 0 l.
Lemma sum_over_add {A} (f g k : A -> Z) l :
  (forall x, f x + g x = k x) -> sum_over f l + sum_over g l = sum_over k l.
Proof. intros Hk. induction l as [|x l IH]; simpl; [done|]. specialize (Hk x). lia. Qed.
Lemma sum_over_one {A} (l : list A) : sum_over (fun _ => 1) l = Z.of_nat (length l).
Proof. induction l as [|x l IH]; simpl; lia. Qed.
(** One entry for each object. *)
Lemma tally_entries {A B} (f : A -> list B) (e : A -> B) (count : B -> Z) p l :
  (forall x, f x = [e x]) ->
  tally count p (l ≫= f) = sum_over (fun x => if p (e x) then count (e x) else 0) l.
Proof.
  intros Hf. induction l as [|x l IH]; [done|]. change ((x :: l) ≫= f) with (f x ++ (l ≫= f)).
  rewrite Hf, tally_app, IH. simpl. lia.
Qed.

Lemma adds_mfor l :
  adds (mfor l (count_object log pow)) (fun c => sum_over (contribution c) l) (fun h => l ≫= hist_entries h)
    (fun h => l ≫= pair_entries h).
Proof. induction l as [|o l IH]; [apply adds_ret|]. cbn [mfor]. eapply adds_bind; [apply count_object_adds | apply IH]. Qed.

Definition fits (o : observed) : Prop :=
  0 <= rsrVal o < 16 /\ 0 <= wsrVal o < 16 /\
  (forall h, hist_fits h (hist_entries h o)) /\ (forall h, pairs_fit h (pair_entries h o)).
(** The same as a test. *)
Definition all_hists : list hist :=
  [objectSizeHist; objectSizeTotalMemoryCounts; pointerFrac100KBObjectHist; smallObjectPointerFracHist;
   largeObjectPointerFracHist; readShiftRegHist; writeShiftRegHist].
Definition all_bihists : list bihist :=
  [readShiftRegVsPointerFracHist; writeShiftRegVsPointerFracHist; objectSizeVsPointerFracHist].
Definition has_binb (n : Z) (lo hi x : double) : bool :=
  match BivariateHistogram.bin_num n lo hi x with Some k => k + 1 <? 2 ^ 31 | None => false end.
Definition fitsb (o : observed) : bool :=
  (0 <=? rsrVal o) && (rsrVal o <? 16) && ((0 <=? wsrVal o) && (wsrVal o <? 16)) &&
  forallb (fun h => forallb (fun e : double * Z => match GetBinIndex (BinDivision := div h) (empty_hist h) e.1 with
                                      | Some _ => true | None => false end) (hist_entries h o)) all_hists &&
  forallb (fun h => forallb (fun e : double * double => let '(n, lo, hi) := bihist_range h in
                               has_binb n lo hi e.1 && has_binb 10 (of_int 0) (of_int 1) e.2) (pair_entries h o)) all_bihists.
Lemma has_binb_sound n lo hi x : has_binb n lo hi x = true -> has_bin n lo hi x.
Proof. unfold has_binb. destruct (BivariateHistogram.bin_num _ _ _ _) as [k|] eqn:E; [|done]. exists k. split; [done | lia]. Qed.
Lemma fitsb_sound o : fitsb o = true -> fits o.
Proof.
  unfold fitsb. rewrite !andb_true_iff, !forallb_forall. intros [[[Hr Hw] Hh] Hb]. split_and!; [lia.. | |].
  - intros h e He%list_elem_of_In. specialize (Hh h). rewrite forallb_forall in Hh.
    specialize (Hh ltac:(destruct h; simpl; tauto) e He). by destruct (GetBinIndex _ _); [eexists|].
  - intros h e He%list_elem_of_In. specialize (Hb h). rewrite forallb_forall in Hb.
    specialize (Hb ltac:(destruct h; simpl; tauto) e He). destruct (bihist_range h) as [[n lo] hi].
    apply andb_true_iff in Hb as [H1 H2]. split; by apply has_binb_sound.
Qed.
(** The histograms have the ranges they are declared with. *)
Definition declared (s : access_stats) : Prop :=
  (forall h, Clear (hists s h) = empty_hist h) /\ (forall h, BivariateHistogram.Clear (bihists s h) = empty_bihist h).

Lemma collection_recorded s l :
  declared s -> (forall o, o ∈ l -> fits o) ->
  exists s', (StartAccessCount true;; mfor l (count_object log pow)) s = Done (tt, s') /\
    recorded (fun c => sum_over (contribution c) l) (fun h => l ≫= hist_entries h) (fun h => l ≫= pair_entries h) s'.
Proof.
  intros [Hh Hb] Hl. unfold StartAccessCount, when. rewrite bind_modify.
  edestruct (adds_mfor l (fun _ => 0) none none) as (s' & E & Hs'); [..|exists s'; split; [exact E | exact Hs']].
  - split_and!; [done | |]; intros h; (split; [intros e He; by apply elem_of_nil in He|]); simpl; by rewrite ?Hh, ?Hb.
  - intros h e (o & Ho & He)%list_elem_of_bind. by apply (Hl o He).
  - intros h e (o & Ho & He)%list_elem_of_bind. by apply (Hl o He).
Qed.

Lemma recorded_Count C H P s h : recorded C H P s -> Count (hists s h) = i64 (tally snd (fun _ => true) (H h)).
Proof.
  intros (_ & HH & _). destruct (HH h) as [Hf E]. unfold hist_fits, empty_hist in *.
  destruct (hist_range h) as [[n lo] hi] eqn:Er.
  assert (Hn : 0 <= n) by (destruct h; simplify_eq/=; lia).
  destruct (add_all_holds (D := div h) n lo hi (H h) Hn Hf) as (x & Hx & Hh). rewrite E in Hx. injection Hx as <-.
  by apply (holds_Count (D := div h) n lo hi).
Qed.

(** The registers have a bin for each of their values. *)
Lemma register_bin z : 0 <= z < 16 -> bin_of 16 (of_int 0) (of_int 16) (of_int z, 1) = z.
Proof.
  intros Hz. assert (Hin : z ∈ Z.of_nat <$> seq 0 16) by (apply list_elem_of_fmap; exists (Z.to_nat z); split; [lia | apply elem_of_seq; lia]).
  repeat (apply elem_of_cons in Hin as [-> | Hin]; [vm_compute; reflexivity|]). by apply elem_of_nil in Hin.
Qed.

Lemma register_counts (reg : observed -> Z) h l C H P s k :
  hist_range h = (16, of_int 0, of_int 16) -> div h = LinearHistogram -> recorded C H P s ->
  H h = l ≫= (fun o => [(of_int (reg o), 1)]) -> (forall o, o ∈ l -> 0 <= reg o < 16) -> 0 <= k < 16 ->
  bins_ (hists s h) !! Z.to_nat k = Some (i64 (sum_over (fun o => if reg o =? k then 1 else 0) l)).
Proof.
  intros Hr Hd (_ & HH & _) HHh Hl Hk. destruct (HH h) as [Hf E]. unfold hist_fits, empty_hist in *. rewrite Hr, Hd in *.
  destruct (add_all_holds 16 (of_int 0) (of_int 16) (H h)) as (x & Hx & Hh); [lia | done|].
  rewrite E in Hx. injection Hx as <-. destruct Hh as (_ & -> & _).
  rewrite list_lookup_fmap, lookup_seq_lt by lia. cbn [fmap option_fmap option_map Nat.add]. do 2 f_equal.
  rewrite Z2Nat.id by lia. rewrite HHh.
  rewrite (tally_entries _ (fun o => (of_int (reg o), 1)) _ _ _ (fun _ => eq_refl)).
  clear - Hl pow. induction l as [|o l IH]; [done|]. cbn [sum_over foldr] in *. unfold sum_over in IH.
  rewrite IH by (intros; apply Hl; set_solver). f_equal.
  by rewrite (register_bin (reg o)) by (apply Hl; set_solver).
Qed.
End Effects.

(** The statistics of a collection add up. After [StartAccessCount] and
    [count_object] on any objects whose values have bins: the number of objects
    is [totalObjects] and the count of the size histogram; the sizes of the read
    and the unread objects, of the small and the large ones, and of the cold ones
    and the write working set each add up to the size of all objects, which is
    also the count of the histogram of bytes (all modulo 64 bits); and the
    histograms of the shift registers hold in bin [k] exactly the number of
    objects whose register is [k]. *)
Theorem access_totals log pow s (l : list observed) :
  declared pow s -> (forall o, o ∈ l -> fits log pow o) ->
  exists s', (StartAccessCount true;; mfor l (count_object log pow)) s = Done (tt, s') /\
    let n := counters s' in
    let size := i64 (sum_over objectSize l) in
    n totalObjects = i64 (Z.of_nat (length l)) /\ Count (hists s' objectSizeHist) = n totalObjects /\
    i64 (n readTotalObjectSize + n unreadTotalObjectSize) = size /\
    i64 (n smallObjectTotalObjectSize + n largeObjectTotalObjectSize) = size /\
    i64 (n coldObjectTotalSize + n sizeWorkingSetWrite) = size /\
    Count (hists s' objectSizeTotalMemoryCounts) = size /\
    (forall k, 0 <= k < 16 ->
       bins_ (hists s' readShiftRegHist) !! Z.to_nat k =
         Some (i64 (sum_over (fun o => if rsrVal o =? k then 1 else 0) l)) /\
       bins_ (hists s' writeShiftRegHist) !! Z.to_nat k =
         Some (i64 (sum_over (fun o => if wsrVal o =? k then 1 else 0) l))).
Proof.
  intros Hs Hl. destruct (collection_recorded log pow s l Hs Hl) as (s' & E & Hr). exists s'. split; [exact E|].
  pose proof Hr as (Hc & _ & _). cbv zeta. rewrite !Hc, !(recorded_Count _ _ _ _ _ _ _ Hr), !swrap_add_l, !swrap_add_r by lia.
  rewrite !(tally_entries _ (fun o => (of_int (objectSize o), 1)) _ _ _ (fun _ => eq_refl)).
  rewrite !(tally_entries _ (fun o => (of_int (objectSize o), objectSize o)) _ _ _ (fun _ => eq_refl)).
  rewrite (sum_over_add (contribution readTotalObjectSize) _ objectSize) by (intros o; simpl; by destruct (wasRead o); lia).
  rewrite (sum_over_add (contribution smallObjectTotalObjectSize) _ objectSize) by (intros o; simpl; destruct (200 <? _); lia).
  rewrite (sum_over_add (contribution coldObjectTotalSize) _ objectSize)
    by (intros o; unfold contribution, objectIsCold; destruct (wasWritten o); simpl; repeat case_match; lia).
  split_and!; try done.
  - by rewrite <- sum_over_one.
  - intros k Hk. split; (eapply register_counts; [reflexivity | reflexivity | exact Hr | reflexivity | | done]);
      intros o Ho; apply (Hl o Ho).
Qed.

(** *** Two objects: a cold one of 300 bytes and one of 16 bytes in use *)
Definition some_objects : list observed :=
  [mkObserved 300 true 2 true false 5 1 false true; mkObserved 16 true 1 false true 0 9 false true].
Definition initial_stats (pow : double -> double -> double) : access_stats :=
  mkAccess (fun _ => 0) 0 (of_int 0) (empty_hist pow) empty_bihist.

Lemma access_totals_witness :
  let log (x : double) := x in
  let pow (_ _ : double) := of_int 1 in
  exists s', (StartAccessCount true;; mfor some_objects (count_object log pow)) (initial_stats pow) = Done (tt, s') /\
    counters s' totalObjects = 2 /\
    i64 (counters s' coldObjectTotalSize + counters s' sizeWorkingSetWrite) = 316 /\
    bins_ (hists s' writeShiftRegHist) !! 9%nat = Some 1.
Proof.
  intros log pow.
  destruct (access_totals log pow (initial_stats pow) some_objects) as (s' & E & Ht & _ & _ & _ & Hw & _ & Hb).
  - split; intros []; reflexivity.
  - intros o Ho. apply fitsb_sound.
    repeat (apply elem_of_cons in Ho as [-> | Ho]; [vm_compute; reflexivity|]). by apply elem_of_nil in Ho.
  - exists s'. split; [exact E|]. rewrite Ht, Hw. destruct (Hb 9) as [_ Hb9]; [lia|].
    change (Z.to_nat 9) with 9%nat in Hb9. rewrite Hb9. split_and!; vm_compute; reflexivity.
Defined.

(** ** Allocations *)
Inductive alloc_event :=
| RosAllocated (size : Z) (type : RosAllocAllocType)
| RosFreed (size : Z) (type : RosAllocFreeType)
| Allocated (name : string) (size : Z)
| Freed (name : string) (size count : Z).
Definition record_event (s : alloc_stats) (ev : alloc_event) : alloc_stats :=
  match ev with
  | RosAllocated size type => RecordRosAllocAlloc size type s
  | RosFreed size type => RecordRosAllocFree size type s
  | Allocated name size => RecordAlloc name size s
  | Freed name size count => RecordFree name size count s
  end.

(** What an event adds to a counter. *)
Definition ros_change (c : alloc_counter) (ev : alloc_event) : Z :=
  match ev, c with
  | RosAllocated _ ROSALLOC_ALLOC_THREAD_LOCAL, (numTotalRosAllocThreadLocalAllocs | numCurrentRosAllocAllocs) => 1
  | RosAllocated size ROSALLOC_ALLOC_THREAD_LOCAL, (sizeTotalRosAllocThreadLocalAllocs | sizeCurrentRosAllocAllocs) => size
  | RosAllocated _ ROSALLOC_ALLOC_NORMAL, (numTotalRosAllocNormalAllocs | numCurrentRosAllocAllocs) => 1
  | RosAllocated size ROSALLOC_ALLOC_NORMAL, (sizeTotalRosAllocNormalAllocs | sizeCurrentRosAllocAllocs) => size
  | RosAllocated _ ROSALLOC_ALLOC_LARGE, (numTotalRosAllocLargeObjectAllocs | numCurrentRosAllocLargeObjectAllocs) => 1
  | RosAllocated size ROSALLOC_ALLOC_LARGE, (sizeTotalRosAllocLargeObjectAllocs | sizeCurrentRosAllocLargeObjectAllocs) => size
  | RosFreed _ ROSALLOC_FREE_NORMAL_OR_THREAD_LOCAL, numCurrentRosAllocAllocs => -1
  | RosFreed size ROSALLOC_FREE_NORMAL_OR_THREAD_LOCAL, sizeCurrentRosAllocAllocs => - size
  | RosFreed _ ROSALLOC_FREE_LARGE, numCurrentRosAllocLargeObjectAllocs => -1
  | RosFreed size ROSALLOC_FREE_LARGE, sizeCurrentRosAllocLargeObjectAllocs => - size
  | _, _ => 0
  end.
Definition space_change (name : string) (on_alloc : Z -> Z) (on_free : Z -> Z -> Z) (ev : alloc_event) : Z :=
  match ev with
  | Allocated name' size => if decide (name' = name) then on_alloc size else 0
  | Freed name' size count => if decide (name' = name) then on_free size count else 0
  | _ => 0
  end.

Lemma bump_name_sum name n counts z k :
  default 0 (counts !! k) = i32 z ->
  default 0 (bump_name name n counts !! k) = i32 (z + if decide (name = k) then n else 0).
Proof.
  intros Hz. unfold bump_name. destruct (decide (name = k)) as [->|Hne].
  - rewrite lookup_insert_eq. simpl. by rewrite Hz, swrap_add_l.
  - rewrite lookup_insert_ne by done. by rewrite Z.add_0_r.
Qed.

Lemma if_same_dec P `{Decision P} (z : Z) : (if decide P then z else z) = z.
Proof. by destruct (decide P). Qed.
Lemma sum_over_snoc {A} (f : A -> Z) l x : sum_over f (l ++ [x]) = sum_over f l + f x.
Proof. induction l as [|y l IH]; simpl; lia. Qed.
Lemma record_ros s ev c z :
  ros_counters s c = i64 z -> ros_counters (record_event s ev) c = i64 (z + ros_change c ev).
Proof.
  intros Hz. destruct ev as [size []|size []|name size|name size count], c; simpl;
    rewrite ?Z.add_0_r, ?Hz, ?swrap_add_l by done; done.
Qed.
Lemma record_spaces s ev name z1 z2 z3 z4 :
  default 0 (currentAllocCounts s !! name) = i32 z1 -> default 0 (currentAllocSizes s !! name) = i32 z2 ->
  default 0 (totalAllocCounts s !! name) = i32 z3 -> default 0 (totalAllocSizes s !! name) = i32 z4 ->
  let s' := record_event s ev in
  default 0 (currentAllocCounts s' !! name) = i32 (z1 + space_change name (fun _ => 1) (fun _ count => - count) ev) /\
  default 0 (currentAllocSizes s' !! name) = i32 (z2 + space_change name id (fun size _ => - size) ev) /\
  default 0 (totalAllocCounts s' !! name) = i32 (z3 + space_change name (fun _ => 1) (fun _ _ => 0) ev) /\
  default 0 (totalAllocSizes s' !! name) = i32 (z4 + space_change name id (fun _ _ => 0) ev).
Proof.
  intros H1 H2 H3 H4. destruct ev as [size []|size []|name' size|name' size count]; simpl; rewrite ?Z.add_0_r; try done.
  - split_and!; by apply bump_name_sum.
  - rewrite !(if_same_dec (name' = name)), !Z.add_0_r. split_and!; [by apply bump_name_sum | by apply bump_name_sum | done | done].
Qed.

(** The allocation counters are exact modulo their width. After any
    sequence of events, every counter of RosAlloc is the sum of what the events
    add to it (64 bits), so that the number of current allocations is that of all
    small allocations less the freed ones; and the counts and sizes of a space,
    current and total, are those of the events with its name (32 bits). *)
Theorem alloc_counts_exact (evs : list alloc_event) :
  let s := foldl record_event no_allocs evs in
  (forall c, ros_counters s c = i64 (sum_over (ros_change c) evs)) /\
  i64 (ros_counters s numCurrentRosAllocAllocs
       + sum_over (fun ev => match ev with RosFreed _ ROSALLOC_FREE_NORMAL_OR_THREAD_LOCAL => 1 | _ => 0 end) evs) =
  i64 (ros_counters s numTotalRosAllocThreadLocalAllocs + ros_counters s numTotalRosAllocNormalAllocs) /\
  forall name,
    default 0 (currentAllocCounts s !! name) =
      i32 (sum_over (space_change name (fun _ => 1) (fun _ count => - count)) evs) /\
    default 0 (currentAllocSizes s !! name) = i32 (sum_over (space_change name id (fun size _ => - size)) evs) /\
    default 0 (totalAllocCounts s !! name) = i32 (sum_over (space_change name (fun _ => 1) (fun _ _ => 0)) evs) /\
    default 0 (totalAllocSizes s !! name) = i32 (sum_over (space_change name id (fun _ _ => 0)) evs).
Proof.
  intros s. assert (Hros : forall c, ros_counters s c = i64 (sum_over (ros_change c) evs)).
  { intros c. subst s. induction evs as [|ev evs IH] using rev_ind; [done|].
    rewrite foldl_app, sum_over_snoc. by apply record_ros. }
  split; [done|]. split.
  - rewrite !Hros, !swrap_add_l, swrap_add_r by lia. f_equal. clear. induction evs as [|ev evs IH]; [done|].
    cbn [sum_over foldr] in *. unfold sum_over in IH. destruct ev as [size []|size []|name size|name size count]; simpl; lia.
  - intros name. subst s. clear. induction evs as [|ev evs IH] using rev_ind; [done|].
    rewrite foldl_app, !sum_over_snoc. destruct IH as (H1 & H2 & H3 & H4). by apply record_spaces.
Qed.

(** The total size of a space is an [int]: it is negative once 2 GB have been
    allocated. *)
Lemma alloc_sizes_overflow :
  let s := foldl record_event no_allocs (replicate 2 (Allocated "alloc space" (2 ^ 30))) in
  totalAllocSizes s !! "alloc space"%string = Some (- 2 ^ 31).
Proof. vm_compute. reflexivity. Qed.

(** ** Counting does not disturb what it counts *)
Section Transparent.
Context {R : Type} {RosAlloc : Allocator R} (ct : gmap Z ClassInfo).
Context (log : double -> double) (pow : double -> double -> double).

(** The object at [object], as [CountAccess] sees it. *)
Definition seen_as (w : world R) (object : Z) (o : observed) : Prop :=
  let m := w_mem w in
  mem_ok m /\ GetIgnoreReadFlag m object = false /\ GetStubFlag m object = false /\
  SizeOf ct m object = Done (objectSize o) /\ objectIsSwappableType ct m object = Done (isSwappableType o) /\
  (exists chain, super_chain ct (chain_fuel ct) (load32 m object) = Done chain /\ chain <> [] /\
     numPointers o = sum_refs chain) /\
  GetReadBit m object = wasRead o /\ GetWriteBit m object = wasWritten o /\
  GetReadShiftRegister m object = rsrVal o /\ GetWriteShiftRegister m object = wsrVal o /\
  GetNoSwapFlag m object = noSwapFlag o /\ objectInSwappableSpace w object = inSwappableSpace o.
(** The stub at [stub] stands for the resident object at [object]. *)
Definition stands_for (w : world R) (stub object : Z) : Prop :=
  GetStubFlag (w_mem w) stub = true /\ stub_resident stub w = Done (true, w) /\ stub_object stub w = Done (object, w).

Lemma observe_done w object o :
  seen_as w object o -> observe ct object w = Done (o, set_w_mem (touch (w_mem w) object) w).
Proof.
  intros (Hm & Hig & _ & Hs & Ht & (chain & Hc & Hne & Hn) & Hr & Hw & Hrs & Hws & Hns & Hsp).
  assert (Hset : agree_outside (SetIgnoreReadFlag (w_mem w) object) (w_mem w) (object + 8) 4).
  { intros x Hx. apply access_set_outside. unfold x_access_bits_offset. lia. }
  assert (Hk : load32 (SetIgnoreReadFlag (w_mem w) object) object = load32 (w_mem w) object).
  { apply loadw_ext. intros x Hx. apply Hset. lia. }
  unfold observe, modm, getm. rewrite bind_modify. erewrite bind_done.
  2: { unfold try. simpl. by rewrite (SizeOf_ext ct (w_mem w)), Hs. }
  erewrite bind_done.
  2: { unfold try, objectIsSwappableType. simpl. rewrite Hk. unfold objectIsSwappableType in Ht. by rewrite Ht. }
  erewrite bind_done.
  2: { cbn [w_mem set_w_mem]. unfold GetClass. rewrite GetFieldObject_ignored by (by apply ignore_set). reflexivity. }
  rewrite bind_modify. erewrite bind_done.
  2: { unfold try. unfold ClassOffset. by rewrite Z.add_0_r, Hk, Hc. }
  destruct chain as [|c chain]; [done|]. rewrite !bind_gets. cbn [w_mem set_w_mem].
  assert (Hsame : mem_eq (touch (w_mem w) object) (w_mem w)) by (by apply touch_same).
  unfold GetReadBit, GetWriteBit, GetReadShiftRegister, GetWriteShiftRegister, GetNoSwapFlag, x_access_bits, x_shift_regs, x_flags in *.
  fold (touch (w_mem w) object). rewrite !Hsame, Hr, Hw, Hrs, Hws, Hns, <- Hn.
  unfold objectInSwappableSpace in *. cbn in *. rewrite Hsp. by destruct o.
Qed.

Lemma CountAccess_object fuel w object o s s' :
  seen_as w object o -> count_object log pow o s = Done (tt, s') ->
  CountAccess ct log pow (S fuel) true object (w, s) = Done (tt, (set_w_mem (touch (w_mem w) object) w, s')).
Proof.
  intros Hs Hc. pose proof Hs as (_ & _ & Hf & _). cbn [CountAccess when].
  erewrite bind_done. 2: { unfold in_world, getm, gets. simpl. rewrite Hf. reflexivity. }
  cbv iota. erewrite bind_done. 2: { unfold in_world. cbn [fst]. rewrite (observe_done _ _ _ Hs). reflexivity. }
  unfold in_stats. cbn [snd]. by rewrite Hc.
Qed.
End Transparent.

(** Counting does not disturb what it counts. On an object, directly or
    through the stub of a resident one, [CountAccess] counts what is recorded of
    the object, and the stub if there is one; it leaves every byte of memory,
    the read bits included, and the rest of the state as they were. *)
Theorem count_access_transparent {R : Type} {RosAlloc : Allocator R} ct log pow (w : world R) object o stub s s' :
  seen_as ct w object o -> count_object log pow o s = Done (tt, s') ->
  (exists w', CountAccess ct log pow 2 true object (w, s) = Done (tt, (w', s')) /\
     mem_eq (w_mem w') (w_mem w) /\ w' = set_w_mem (w_mem w') w) /\
  (stands_for w stub object -> forall s0, bump numStubs 1 s0 = Done (tt, s) ->
   exists w', CountAccess ct log pow 2 true stub (w, s0) = Done (tt, (w', s')) /\
     mem_eq (w_mem w') (w_mem w) /\ w' = set_w_mem (w_mem w') w).
Proof.
  intros Hs Hc. pose proof (CountAccess_object ct log pow 0 w object o s s' Hs Hc) as E1.
  pose proof (CountAccess_object ct log pow 1 w object o s s' Hs Hc) as E2.
  assert (Hm : mem_eq (touch (w_mem w) object) (w_mem w)) by (apply touch_same; apply Hs).
  split; [by eexists|]. intros (Hf & Hr & Ho) s0 Hb.
  exists (set_w_mem (touch (w_mem w) object) w). split; [|split; [exact Hm | done]].
  remember 1%nat as fuel. cbn [CountAccess when].
  erewrite bind_done. 2: { unfold in_world, getm, gets. simpl. rewrite Hf. reflexivity. }
  cbv iota. erewrite bind_done. 2: { unfold in_stats. cbn [snd]. rewrite Hb. reflexivity. }
  erewrite bind_done. 2: { unfold in_world. cbn [fst]. rewrite Hr. reflexivity. }
  cbn [when fst snd]. erewrite bind_done. 2: { unfold in_world. cbn [fst]. rewrite Ho. reflexivity. }
  subst fuel. exact E1.
Qed.

(** *** The object of [demo_world] and its stub *)
Definition demo_log (x : double) : double := x.
Definition demo_pow (_ _ : double) : double := of_int 1.
Definition demo_observed : observed := mkObserved 28 true 3 false false 0 0 false true.
Definition stub_counted : access_stats := final_state (bump numStubs 1 (initial_stats demo_pow)) (initial_stats demo_pow).
Definition object_counted : access_stats :=
  final_state (count_object demo_log demo_pow demo_observed stub_counted) stub_counted.

Lemma count_access_transparent_witness :
  exists w', CountAccess (RosAlloc := FreeListSpace.FreeListSpace_allocator 0x7000) demo_classes demo_log demo_pow 2 true
      0x1000 (demo_world, initial_stats demo_pow) = Done (tt, (w', object_counted)) /\
    counters object_counted numStubs = 1 /\ counters object_counted totalObjects = 1 /\
    mem_eq (w_mem w') (w_mem demo_world).
Proof.
  destruct (count_access_transparent (RosAlloc := FreeListSpace.FreeListSpace_allocator 0x7000) demo_classes demo_log
              demo_pow demo_world 0x2000 demo_observed 0x1000 stub_counted object_counted) as [_ H].
  - split_and!; [apply demo_stub_spec | vm_compute; reflexivity.. | | vm_compute; reflexivity | vm_compute; reflexivity |
      vm_compute; reflexivity | vm_compute; reflexivity | vm_compute; reflexivity | vm_compute; reflexivity].
    eexists. split; [vm_compute; reflexivity|]. split; [done | vm_compute; reflexivity].
  - apply run_done. vm_compute. reflexivity.
  - destruct (H ltac:(split_and!; vm_compute; reflexivity) (initial_stats demo_pow) eq_refl) as (w' & E & Hm & _).
    exists w'. split; [exact E|]. split; [vm_compute; reflexivity|]. split; [vm_compute; reflexivity | exact Hm].
Defined.
