(* ===== verification/SpaceBitmap.v ===== *)
(** Bitmaps of the heap: [SpaceBitmap<kAlignment>] of
    runtime/gc/accounting/space_bitmap.h, space_bitmap-inl.h and
    space_bitmap.cc, with 64-bit words.

    The live and mark bitmaps of a space have a bit for every address at which
    an object can start.  The visitors are given as the list of the objects they
    are called on, since they may not change the bitmap; a word outside of the
    bitmap is a fault.  The reference loop of [VisitMarkedRange], which the
    source keeps under [#if 0], is [VisitMarkedRange_loop].  [InOrderWalk], a
    traversal of the object graph, is not modelled. *)
From stdpp Require Import prelude gmap list numbers sorting.
From Stdlib Require Import ZArith Lia ZifyBool Btauto.
From S2P Require Import Prelude BitUtils.
Open Scope Z_scope.

Definition kBitsPerIntPtrT : Z := 64.
Definition sizeof_intptr_t : Z := 8.

Module SpaceBitmap.
Record SpaceBitmap := mkBitmap {
  words : list Z;                      (* bitmap_begin_[0 ..] *)
  bitmap_size_ : Z;                    (* bytes *)
  heap_begin_ : Z
}.

Section Bitmap.
Context (kAlignment : Z).

Definition OffsetToIndex (offset : Z) : Z := offset / kAlignment / kBitsPerIntPtrT.
Definition IndexToOffset (index : Z) : Z := u64 (index * kAlignment * kBitsPerIntPtrT).
Definition OffsetToMask (offset : Z) : Z := Z.shiftl 1 ((offset / kAlignment) mod kBitsPerIntPtrT).

Definition HeapSize (b : SpaceBitmap) : Z := IndexToOffset (bitmap_size_ b / sizeof_intptr_t).
Definition HeapLimit (b : SpaceBitmap) : Z := u64 (heap_begin_ b + HeapSize b).
Definition ComputeBitmapSize (capacity : Z) : Z :=
  let kBytesCoveredPerWord := kAlignment * kBitsPerIntPtrT in
  u64 (RoundUp capacity kBytesCoveredPerWord / kBytesCoveredPerWord * sizeof_intptr_t).
Definition ComputeHeapSize (bitmap_bytes : Z) : Z := u64 (bitmap_bytes * 8 * kAlignment).

(** [mem] holds the words of the mapping. *)
Definition CreateFromMemMap (mem : list Z) (heap_begin heap_capacity : Z) : outcome SpaceBitmap :=
  let bitmap_size := ComputeBitmapSize heap_capacity in
  if bitmap_size =? 0 then Aborted     (* CHECK_NE(bitmap_size, 0U) *)
  else Done (mkBitmap mem bitmap_size heap_begin).
(** [mapped] tells whether MapAnonymous succeeds; a fresh mapping is zero. *)
Definition Create (mapped : bool) (heap_begin heap_capacity : Z) : outcome (option SpaceBitmap) :=
  let bitmap_size := ComputeBitmapSize heap_capacity in
  if mapped
  then b ← CreateFromMemMap (replicate (Z.to_nat (bitmap_size / sizeof_intptr_t)) 0) heap_begin heap_capacity;
       Done (Some b)
  else Done None.
Definition SetHeapSize (bytes : Z) (b : SpaceBitmap) : outcome SpaceBitmap :=
  let b := mkBitmap (words b) (OffsetToIndex bytes * sizeof_intptr_t) (heap_begin_ b) in
  if HeapSize b =? bytes then Done b else Aborted.
Definition SetHeapLimit (new_end : Z) (b : SpaceBitmap) : SpaceBitmap :=
  let new_size := OffsetToIndex (u64 (new_end - heap_begin_ b)) * sizeof_intptr_t in
  if new_size <? bitmap_size_ b then mkBitmap (words b) new_size (heap_begin_ b) else b.
Definition ClearAll (b : SpaceBitmap) : SpaceBitmap :=
  mkBitmap (replicate (length (words b)) 0) (bitmap_size_ b) (heap_begin_ b).
Definition CopyFrom (source b : SpaceBitmap) : SpaceBitmap :=
  let n := Z.to_nat (bitmap_size_ source / sizeof_intptr_t) in
  mkBitmap (take n (words source) ++ drop n (words b)) (bitmap_size_ b) (heap_begin_ b).

Definition offset_of (b : SpaceBitmap) (obj : Z) : Z := u64 (obj - heap_begin_ b).
Definition HasAddress (b : SpaceBitmap) (obj : Z) : bool :=
  OffsetToIndex (offset_of b obj) <? bitmap_size_ b / sizeof_intptr_t.
Definition word_at (b : SpaceBitmap) (index : Z) : outcome Z :=
  match words b !! Z.to_nat index with Some w => Done w | None => Faulted end.
Definition Test (b : SpaceBitmap) (obj : Z) : outcome bool :=
  w ← word_at b (OffsetToIndex (offset_of b obj));
  Done (negb (Z.land w (OffsetToMask (offset_of b obj)) =? 0)).
(** [Modify<kSetBit>]: whether the bit was set. *)
Definition Modify (kSetBit : bool) (b : SpaceBitmap) (obj : Z) : outcome (bool * SpaceBitmap) :=
  let index := OffsetToIndex (offset_of b obj) in
  let mask := OffsetToMask (offset_of b obj) in
  old_word ← word_at b index;
  let new_word :=
    if kSetBit then (if Z.land old_word mask =? 0 then Z.lor old_word mask else old_word)
    else Z.ldiff old_word mask in
  Done (negb (Z.land old_word mask =? 0),
        mkBitmap (<[Z.to_nat index := new_word]> (words b)) (bitmap_size_ b) (heap_begin_ b)).
Definition Set_ : SpaceBitmap -> Z -> outcome (bool * SpaceBitmap) := Modify true.
Definition Clear : SpaceBitmap -> Z -> outcome (bool * SpaceBitmap) := Modify false.

(** do { shift = CTZ(w); visit; w ^= 1 << shift; } while (w != 0) *)
Fixpoint visit_word (fuel : nat) (ptr_base w : Z) : list Z :=
  match fuel with
  | O => []
  | S fuel =>
      if w =? 0 then []
      else
        let shift := CTZ w in
        u64 (ptr_base + shift * kAlignment) :: visit_word fuel ptr_base (Z.lxor w (Z.shiftl 1 shift))
  end.
(** A word has at most 64 set bits. *)
Definition visit_bits (b : SpaceBitmap) (index w : Z) : list Z :=
  visit_word 64 (u64 (IndexToOffset index + heap_begin_ b)) w.
(** for (i = first; i <= last; ++i) *)
Fixpoint visit_words (b : SpaceBitmap) (first : Z) (count : nat) : outcome (list Z) :=
  match count with
  | O => Done []
  | S count =>
      w ← word_at b first;
      rest ← visit_words b (first + 1) count;
      Done (visit_bits b first w ++ rest)
  end.
Definition Walk (b : SpaceBitmap) : outcome (list Z) :=
  let end_ := OffsetToIndex (u64 (HeapLimit b - heap_begin_ b - 1)) in
  visit_words b 0 (Z.to_nat (end_ + 1)).

Definition VisitMarkedRange (b : SpaceBitmap) (visit_begin visit_end : Z) : outcome (list Z) :=
  let offset_start := u64 (visit_begin - heap_begin_ b) in
  let offset_end := u64 (visit_end - heap_begin_ b) in
  let index_start := OffsetToIndex offset_start in
  let index_end := OffsetToIndex offset_end in
  let bit_start := (offset_start / kAlignment) mod kBitsPerIntPtrT in
  let bit_end := (offset_end / kAlignment) mod kBitsPerIntPtrT in
  left_word ← word_at b index_start;
  let left_edge := Z.ldiff left_word (Z.shiftl 1 bit_start - 1) in
  '(visited, right_edge) ←
    (if index_start <? index_end then
       middle ← visit_words b (index_start + 1) (Z.to_nat (index_end - index_start - 1));
       right_edge ← (if bit_end =? 0 then Done 0 else word_at b index_end);
       Done (visit_bits b index_start left_edge ++ middle, right_edge)
     else Done ([], left_edge));
  let right_edge := Z.land right_edge (Z.shiftl 1 bit_end - 1) in
  Done (visited ++ visit_bits b index_end right_edge).
(** for (i = visit_begin; i < visit_end; i += kAlignment) *)
Fixpoint VisitMarkedRange_loop (fuel : nat) (b : SpaceBitmap) (i visit_end : Z) : outcome (list Z) :=
  match fuel with
  | O => Diverged
  | S fuel =>
      if i <? visit_end then
        marked ← Test b i;
        rest ← VisitMarkedRange_loop fuel b (u64 (i + kAlignment)) visit_end;
        Done (if (marked : bool) then i :: rest else rest)
      else Done []
  end.

(** [SweepWalk]: the batches the callback is called with.  [pending] is the part
    of the buffer in use; a store outside of the buffer is a fault. *)
Definition buffer_size : Z := sizeof_intptr_t * kBitsPerIntPtrT.
Fixpoint sweep_words (live mark : SpaceBitmap) (i : Z) (count : nat) (pending : list Z) : outcome (list (list Z)) :=
  match count with
  | O => Done (if 0 <? Z.of_nat (length pending) then [pending] else [])
  | S count =>
      l ← word_at live i;
      m ← word_at mark i;
      let garbage := Z.ldiff l m in
      if garbage =? 0 then sweep_words live mark (i + 1) count pending
      else
        let pending := pending ++ visit_bits live i garbage in
        if buffer_size <? Z.of_nat (length pending) then Faulted
        else if buffer_size - kBitsPerIntPtrT <=? Z.of_nat (length pending) then
          rest ← sweep_words live mark (i + 1) count []; Done (pending :: rest)
        else sweep_words live mark (i + 1) count pending
  end.
Definition SweepWalk (live mark : SpaceBitmap) (sweep_begin sweep_end : Z) : outcome (list (list Z)) :=
  if negb (heap_begin_ live =? heap_begin_ mark) || negb (bitmap_size_ live =? bitmap_size_ mark)
     || (sweep_end <? sweep_begin) || (sweep_begin <? heap_begin_ live)
  then Aborted
  else if sweep_end <=? sweep_begin then Done []
  else
    let start := OffsetToIndex (u64 (sweep_begin - heap_begin_ live)) in
    let end_ := OffsetToIndex (u64 (sweep_end - heap_begin_ live - 1)) in
    if negb (end_ <? bitmap_size_ live / sizeof_intptr_t) then Aborted
    else sweep_words live mark start (Z.to_nat (end_ - start + 1)) [].

(** ** Well-formed bitmaps

    All words have 64 bits, the size is a number of words that are there, and
    the addresses do not wrap around. *)
Definition nwords (b : SpaceBitmap) : Z := bitmap_size_ b / sizeof_intptr_t.
Record bitmap_ok (b : SpaceBitmap) : Prop := {
  bm_words : Forall (in_width 64) (words b);
  bm_size : 0 <= bitmap_size_ b /\ bitmap_size_ b mod 8 = 0 /\ nwords b <= Z.of_nat (length (words b));
  bm_range : 0 <= heap_begin_ b /\ heap_begin_ b + nwords b * 64 * kAlignment < 2 ^ 64
}.
(** Bit [n] of the bitmap, and the address it stands for. *)
Definition bit (b : SpaceBitmap) (n : Z) : bool :=
  match words b !! Z.to_nat (n / 64) with Some w => Z.testbit w (n mod 64) | None => false end.
Definition addr (b : SpaceBitmap) (n : Z) : Z := heap_begin_ b + n * kAlignment.
(** The bits that are set among [n] from [lo]. *)
Definition bits_in (b : SpaceBitmap) (lo n : Z) : list Z := filter (fun k => bit b k = true) (seqZ lo n).

Context (Halign : 0 < kAlignment).

Lemma offset_addr b n :
  bitmap_ok b -> 0 <= n < nwords b * 64 -> offset_of b (addr b n) = n * kAlignment.
Proof using Halign.
  intros Hb Hn. destruct (bm_range b Hb). unfold offset_of, addr. rewrite wrap_small; [lia|]. unfold in_width. nia.
Qed.
Lemma index_addr n : OffsetToIndex (n * kAlignment) = n / 64.
Proof using Halign. unfold OffsetToIndex, kBitsPerIntPtrT. by rewrite Z.div_mul by lia. Qed.
Lemma mask_addr n : OffsetToMask (n * kAlignment) = 2 ^ (n mod 64).
Proof using Halign. unfold OffsetToMask, kBitsPerIntPtrT. by rewrite Z.div_mul, Z.shiftl_1_l by lia. Qed.
Lemma word_at_lookup b i : bitmap_ok b -> 0 <= i < nwords b -> exists w, word_at b i = Done w /\ words b !! Z.to_nat i = Some w /\ 0 <= w < 2 ^ 64.
Proof using.
  intros Hb Hi. destruct (bm_size b Hb) as (_ & _ & Hl).
  destruct (lookup_lt_is_Some_2 (words b) (Z.to_nat i)) as [w Hw]; [lia|].
  exists w. unfold word_at. rewrite Hw. split_and!; [done | done | |]; by apply (Forall_lookup_1 _ _ _ _ (bm_words b Hb) Hw).
Qed.
Lemma bit_word b i w s : words b !! Z.to_nat i = Some w -> 0 <= i -> 0 <= s < 64 -> bit b (64 * i + s) = Z.testbit w s.
Proof using.
  intros Hw Hi Hs. unfold bit. replace ((64 * i + s) / 64) with i by div_lia. rewrite Hw.
  by replace ((64 * i + s) mod 64) with s by div_lia.
Qed.
Lemma land_mask w k : 0 <= k -> (Z.land w (2 ^ k) =? 0) = negb (Z.testbit w k).
Proof using.
  intros Hk. rewrite (Z.eqb_sym _ 0). assert (E : Z.land w (2 ^ k) = if Z.testbit w k then 2 ^ k else 0).
  { apply Z.bits_inj'. intros i Hi. rewrite Z.land_spec. destruct (decide (i = k)) as [->|Hne].
    - rewrite Z.pow2_bits_true by done. destruct (Z.testbit w k) eqn:E; [by rewrite Z.pow2_bits_true | by rewrite Z.bits_0].
    - rewrite Z.pow2_bits_false by lia. rewrite andb_false_r. destruct (Z.testbit w k); [by rewrite Z.pow2_bits_false by lia | by rewrite Z.bits_0]. }
  rewrite E. pose proof (Z.pow_pos_nonneg 2 k). destruct (Z.testbit w k); lia.
Qed.

(** ** One bit *)
Lemma Test_done b n : bitmap_ok b -> 0 <= n < nwords b * 64 -> Test b (addr b n) = Done (bit b n).
Proof using Halign.
  intros Hb Hn. unfold Test. rewrite offset_addr, index_addr, mask_addr by done.
  destruct (word_at_lookup b (n / 64) Hb) as (w & -> & Hw & _); [div_lia|]. simpl.
  rewrite land_mask, negb_involutive by div_lia. unfold bit. by rewrite Hw.
Qed.

Definition with_bit (b : SpaceBitmap) (n : Z) (v : bool) : SpaceBitmap :=
  mkBitmap (alter (fun w => if v then Z.lor w (2 ^ (n mod 64)) else Z.ldiff w (2 ^ (n mod 64))) (Z.to_nat (n / 64)) (words b))
    (bitmap_size_ b) (heap_begin_ b).
Lemma lor_same w k : 0 <= k -> Z.testbit w k = true -> Z.lor w (2 ^ k) = w.
Proof using.
  intros Hk Hb. apply Z.bits_inj'. intros i Hi. rewrite Z.lor_spec. destruct (decide (i = k)) as [->|].
  - rewrite Hb. done.
  - rewrite Z.pow2_bits_false by lia. btauto.
Qed.
Lemma Modify_done v b n :
  bitmap_ok b -> 0 <= n < nwords b * 64 -> Modify v b (addr b n) = Done (bit b n, with_bit b n v).
Proof using Halign.
  intros Hb Hn. unfold Modify. rewrite offset_addr, index_addr, mask_addr by done.
  destruct (word_at_lookup b (n / 64) Hb) as (w & -> & Hw & _); [div_lia|]. simpl.
  rewrite land_mask, negb_involutive by div_lia. unfold bit, with_bit. rewrite Hw. do 3 f_equal.
  rewrite (alter_as_insert _ _ _ _ Hw). f_equal. destruct v; [|done].
  destruct (Z.testbit w (n mod 64)) eqn:E; simpl; [by rewrite lor_same by (try done; div_lia) | done].
Qed.
Lemma bit_with_bit b n v k :
  bitmap_ok b -> 0 <= n < nwords b * 64 -> 0 <= k -> bit (with_bit b n v) k = if k =? n then v else bit b k.
Proof using.
  intros Hb Hn Hk. unfold bit, with_bit. simpl.
  destruct (word_at_lookup b (n / 64) Hb) as (w & _ & Hw & _); [div_lia|].
  destruct (decide (k / 64 = n / 64)) as [E|E].
  - rewrite E, list_lookup_alter_eq, Hw. simpl.
    destruct (Z.eqb_spec k n) as [->|Hne].
    + destruct v; [rewrite Z.lor_spec | rewrite Z.ldiff_spec]; rewrite Z.pow2_bits_true by div_lia; btauto.
    + assert (k mod 64 <> n mod 64) by div_lia.
      destruct v; [rewrite Z.lor_spec | rewrite Z.ldiff_spec]; rewrite Z.pow2_bits_false by lia; btauto.
  - rewrite list_lookup_alter_ne by (intros ?; apply E; div_lia). destruct (Z.eqb_spec k n) as [->|]; done.
Qed.
Lemma with_bit_ok b n v : bitmap_ok b -> bitmap_ok (with_bit b n v).
Proof using.
  intros [Hw Hs Hr]. split; simpl; [| by rewrite length_alter | done].
  apply Forall_alter; [done|]. intros w Hl Hi.
  assert (Hp : 0 <= n mod 64 < 64) by div_lia.
  assert (in_width 64 (2 ^ (n mod 64))) by (split; [apply Z.pow_nonneg; lia | apply Z.pow_lt_mono_r; lia]).
  destruct v; [apply lor_in_width; (done || lia)|].
  rewrite <- (Z.shiftl_1_l (n mod 64)). by apply clear_range.
Qed.

(** ** Ranges of bits *)
Lemma bits_in_app b lo n m : 0 <= n -> 0 <= m -> bits_in b lo (n + m) = bits_in b lo n ++ bits_in b (lo + n) m.
Proof using. intros. unfold bits_in. by rewrite seqZ_app, list.filter_app by done. Qed.
Lemma bits_in_nil b lo : bits_in b lo 0 = [].
Proof using. done. Qed.
Lemma bits_in_cons b lo n : 0 < n -> bits_in b lo n = (if bit b lo then [lo] else []) ++ bits_in b (lo + 1) (n - 1).
Proof using.
  intros Hn. replace n with (1 + (n - 1)) at 1 by lia. rewrite bits_in_app by lia. f_equal.
  unfold bits_in. rewrite seqZ_cons, seqZ_nil, filter_cons by lia. destruct (bit b lo); [by rewrite decide_True | by rewrite decide_False].
Qed.

(** The bits of a word from [lo] to [hi], as bits of the bitmap. *)
Lemma word_bits b i w w' lo hi :
  words b !! Z.to_nat i = Some w -> 0 <= i -> 0 <= lo <= hi -> hi <= 64 ->
  (forall s, 0 <= s < 64 -> Z.testbit w' s = ((lo <=? s) && (s <? hi) && Z.testbit w s)%bool) ->
  Z.add (64 * i) <$> set_bits w' 0 64 = bits_in b (64 * i + lo) (hi - lo).
Proof using.
  intros Hw Hi Hlo Hhi Hw'. replace 64 with (lo + ((hi - lo) + (64 - hi))) at 2 by lia.
  rewrite !set_bits_app by lia. rewrite (set_bits_none _ 0), (set_bits_none _ (0 + lo + (hi - lo))), app_nil_r
    by (intros s Hs; rewrite Hw' by lia; lia). simpl. rewrite Z.add_0_l.
  unfold bits_in, set_bits. rewrite <- fmap_add_seqZ.
  assert (Hin : forall s, s ∈ seqZ lo (hi - lo) -> Z.testbit w' s = bit b (64 * i + s)).
  { intros s Hs%elem_of_seqZ. rewrite Hw' by lia. rewrite (bit_word b i w s) by (try done; lia).
    replace (lo <=? s) with true by lia. by replace (s <? hi) with true by lia. }
  revert Hin. generalize (seqZ lo (hi - lo)) as l. clear. induction l as [|s l IH]; intros Hin; [done|].
  rewrite fmap_cons, !filter_cons, <- IH by set_solver. rewrite Hin by set_solver. by destruct (decide _).
Qed.
Lemma visit_word_bits fuel base : forall w,
  0 <= w < 2 ^ 64 -> visit_word fuel base w = (fun s => u64 (base + s * kAlignment)) <$> iterate_bits CTZ fuel w.
Proof using.
  induction fuel as [|fuel IH]; intros w Hw; simpl; [done|]. destruct (Z.eqb_spec w 0); [done|].
  destruct (CTZ_spec 64 w) as (Hs & Hb & _); [lia|]. rewrite fmap_cons. f_equal.
  rewrite lxor_clear by (try done; lia). apply IH. by apply clear_range.
Qed.
Lemma visit_bits_done b i w w' lo hi :
  bitmap_ok b -> 0 <= i < nwords b -> words b !! Z.to_nat i = Some w -> 0 <= lo <= hi -> hi <= 64 -> 0 <= w' < 2 ^ 64 ->
  (forall s, 0 <= s < 64 -> Z.testbit w' s = ((lo <=? s) && (s <? hi) && Z.testbit w s)%bool) ->
  visit_bits b i w' = addr b <$> bits_in b (64 * i + lo) (hi - lo).
Proof using Halign.
  intros Hb Hi Hw Hlo Hhi Hw' Hbits. destruct (bm_range b Hb) as [H0 Hr]. unfold visit_bits.
  rewrite visit_word_bits, (iterate_low 64 64 0), <- (word_bits b i w w') by (try done; lia).
  rewrite <- list_fmap_compose. apply list_fmap_ext. intros k s Hs%list_elem_of_lookup_2%elem_of_set_bits.
  unfold compose, addr, IndexToOffset, kBitsPerIntPtrT.
  rewrite (wrap_small 64 (i * kAlignment * 64)), (wrap_small 64 (i * kAlignment * 64 + heap_begin_ b)), wrap_small
    by (unfold in_width; nia). lia.
Qed.
Lemma visit_full b i w :
  bitmap_ok b -> 0 <= i < nwords b -> words b !! Z.to_nat i = Some w -> 0 <= w < 2 ^ 64 ->
  visit_bits b i w = addr b <$> bits_in b (64 * i) 64.
Proof using Halign.
  intros Hb Hi Hw Hr. rewrite (visit_bits_done b i w w 0 64) by (try done; try lia; intros s Hs;
    replace (0 <=? s) with true by lia; replace (s <? 64) with true by lia; done). f_equal. f_equal; lia.
Qed.
Lemma visit_words_done b count : forall first,
  bitmap_ok b -> 0 <= first -> first + Z.of_nat count <= nwords b ->
  visit_words b first count = Done (addr b <$> bits_in b (64 * first) (64 * Z.of_nat count)).
Proof using Halign.
  induction count as [|count IH]; intros first Hb H0 Hc; [done|]. cbn [visit_words].
  destruct (word_at_lookup b first Hb) as (w & -> & Hw & Hr); [lia|]. simpl.
  rewrite (IH (first + 1)) by (try done; lia). simpl. rewrite (visit_full b first w) by (try done; lia).
  rewrite <- fmap_app. do 2 f_equal.
  replace (64 * (first + 1)) with (64 * first + 64) by lia. rewrite <- bits_in_app by lia. f_equal. lia.
Qed.

(** ** Visiting a range *)
Lemma testbit_low_mask k s : 0 <= k -> 0 <= s -> Z.testbit (Z.shiftl 1 k - 1) s = (s <? k).
Proof using.
  intros Hk Hs. replace (Z.shiftl 1 k - 1) with (Z.ones k) by (rewrite Z.ones_equiv, Z.shiftl_1_l; lia).
  destruct (Z.ltb_spec s k); [by rewrite Z.ones_spec_low by lia | by rewrite Z.ones_spec_high by lia].
Qed.
Lemma left_edge_bits w k : 0 <= w < 2 ^ 64 -> 0 <= k ->
  0 <= Z.ldiff w (Z.shiftl 1 k - 1) < 2 ^ 64 /\
  forall s, 0 <= s < 64 -> Z.testbit (Z.ldiff w (Z.shiftl 1 k - 1)) s = ((k <=? s) && (s <? 64) && Z.testbit w s)%bool.
Proof using.
  intros Hw Hk. split.
  - apply Z.bounded_iff_bits_nonneg'; [lia | apply Z.ldiff_nonneg; lia|]. intros s Hs. rewrite Z.ldiff_spec.
    by rewrite (proj1 (Z.bounded_iff_bits_nonneg' 64 w ltac:(lia) ltac:(lia)) Hw s Hs).
  - intros s Hs. rewrite Z.ldiff_spec, testbit_low_mask by lia. replace (s <? 64) with true by lia.
    destruct (Z.ltb_spec s k), (Z.leb_spec k s); try lia; btauto.
Qed.
Lemma right_edge_bits w k : 0 <= w < 2 ^ 64 -> 0 <= k ->
  0 <= Z.land w (Z.shiftl 1 k - 1) < 2 ^ 64 /\
  forall s, 0 <= s < 64 -> Z.testbit (Z.land w (Z.shiftl 1 k - 1)) s = ((s <? k) && Z.testbit w s)%bool.
Proof using.
  intros Hw Hk. split.
  - apply Z.bounded_iff_bits_nonneg'; [lia | apply Z.land_nonneg; lia|]. intros s Hs. rewrite Z.land_spec.
    by rewrite (proj1 (Z.bounded_iff_bits_nonneg' 64 w ltac:(lia) ltac:(lia)) Hw s Hs).
  - intros s Hs. rewrite Z.land_spec, testbit_low_mask by lia. btauto.
Qed.

(** A range from bit [S] to bit [E] that starts inside of the bitmap. *)
Lemma VisitMarkedRange_done b S E :
  bitmap_ok b -> 0 <= S <= E -> E <= nwords b * 64 -> S < nwords b * 64 ->
  VisitMarkedRange b (addr b S) (addr b E) = Done (addr b <$> bits_in b S (E - S)).
Proof using Halign.
  intros Hb HS HE HSl. destruct (bm_range b Hb) as [H0 Hr]. unfold VisitMarkedRange.
  assert (HoS : u64 (addr b S - heap_begin_ b) = S * kAlignment) by (unfold addr; rewrite wrap_small; [lia | unfold in_width; nia]).
  assert (HoE : u64 (addr b E - heap_begin_ b) = E * kAlignment) by (unfold addr; rewrite wrap_small; [lia | unfold in_width; nia]).
  rewrite HoS, HoE, !index_addr, !Z.div_mul by lia. unfold kBitsPerIntPtrT.
  destruct (word_at_lookup b (S / 64) Hb) as (w & -> & Hw & Hwr); [div_lia|]. simpl.
  assert (Hs0 : 0 <= S mod 64 < 64) by div_lia. assert (He0 : 0 <= E mod 64 < 64) by div_lia.
  destruct (left_edge_bits w (S mod 64) Hwr (proj1 Hs0)) as [Hlr Hlb].
  set (left := Z.ldiff w _) in *. destruct (Z.ltb_spec (S / 64) (E / 64)) as [Hlt|Hge].
  - rewrite visit_words_done by (try done; div_lia). simpl.
    rewrite (visit_bits_done b (S / 64) w left (S mod 64) 64) by (try done; div_lia).
    assert (Hright : exists r, (if E mod 64 =? 0 then Done 0 else word_at b (E / 64)) = Done r /\
              visit_bits b (E / 64) (Z.land r (Z.shiftl 1 (E mod 64) - 1)) = addr b <$> bits_in b (64 * (E / 64)) (E mod 64)).
    { destruct (Z.eqb_spec (E mod 64) 0) as [E0|E0]; [exists 0; split; [done | by rewrite Z.land_0_l, E0]|].
      destruct (word_at_lookup b (E / 64) Hb) as (r & -> & Hwe & Hre); [div_lia|]. exists r. split; [done|].
      destruct (right_edge_bits r (E mod 64) Hre (proj1 He0)) as [Hrr Hrb].
      rewrite (visit_bits_done b (E / 64) r _ 0 (E mod 64)); [do 2 f_equal; lia | done | div_lia | done | lia | lia | done |].
      intros s Hs. rewrite Hrb by done. by replace (0 <=? s) with true by lia. }
    destruct Hright as (r & -> & Hv). simpl. rewrite Hv. f_equal. rewrite <- !fmap_app. f_equal.
    replace (64 * (S / 64) + S mod 64) with S by div_lia.
    replace (64 * (S / 64 + 1)) with (S + (64 - S mod 64)) by div_lia. rewrite <- bits_in_app by div_lia.
    replace (64 * (E / 64)) with (S + (64 - S mod 64 + 64 * Z.of_nat (Z.to_nat (E / 64 - S / 64 - 1)))) by div_lia.
    rewrite <- bits_in_app by div_lia. f_equal. div_lia.
  - simpl. assert (Hidx : E / 64 = S / 64) by div_lia. rewrite Hidx.
    destruct (right_edge_bits left (E mod 64) Hlr (proj1 He0)) as [Hrr Hrb].
    rewrite (visit_bits_done b (S / 64) w _ (S mod 64) (E mod 64)); [|done | div_lia | done | div_lia | lia | done |].
    + do 3 f_equal; div_lia.
    + intros s Hs. rewrite Hrb, Hlb by done. replace (s <? 64) with true by lia. btauto.
Qed.

Lemma VisitMarkedRange_loop_done b E fuel : forall S,
  bitmap_ok b -> 0 <= S <= E -> E <= nwords b * 64 -> E - S < Z.of_nat fuel ->
  VisitMarkedRange_loop fuel b (addr b S) (addr b E) = Done (addr b <$> bits_in b S (E - S)).
Proof using Halign.
  induction fuel as [|fuel IH]; intros S Hb HS HE Hf; [lia|]. destruct (bm_range b Hb) as [H0 Hr].
  cbn [VisitMarkedRange_loop]. destruct (Z.ltb_spec (addr b S) (addr b E)) as [Hlt|Hge]; unfold addr in Hlt || unfold addr in Hge.
  - assert (S < E) by nia. rewrite Test_done by (try done; lia). simpl.
    assert (u64 (addr b S + kAlignment) = addr b (S + 1)) as -> by (unfold addr; rewrite wrap_small; [lia | unfold in_width; nia]).
    rewrite (IH (S + 1)) by (try done; lia). simpl. rewrite (bits_in_cons b S) by lia.
    replace (E - S - 1) with (E - (S + 1)) by lia. by destruct (bit b S).
  - assert (E = S) as -> by nia. by rewrite Z.sub_diag.
Qed.

(** ** Sweeping *)

(** The bitmap of what is live and not marked. *)
Definition garbage (live mark : SpaceBitmap) : SpaceBitmap :=
  mkBitmap (zip_with Z.ldiff (words live) (words mark)) (bitmap_size_ live) (heap_begin_ live).
Definition matching (live mark : SpaceBitmap) : Prop :=
  bitmap_ok live /\ bitmap_ok mark /\ heap_begin_ live = heap_begin_ mark /\ bitmap_size_ live = bitmap_size_ mark /\
  length (words live) = length (words mark).

Lemma ldiff_range w m : 0 <= w < 2 ^ 64 -> 0 <= Z.ldiff w m < 2 ^ 64.
Proof using.
  intros Hw. apply Z.bounded_iff_bits_nonneg'; [lia | apply Z.ldiff_nonneg; lia|]. intros s Hs. rewrite Z.ldiff_spec.
  by rewrite (proj1 (Z.bounded_iff_bits_nonneg' 64 w ltac:(lia) ltac:(lia)) Hw s Hs).
Qed.
Lemma garbage_ok live mark : matching live mark -> bitmap_ok (garbage live mark).
Proof using.
  intros (Hl & Hm & Hh & Hs & Hlen). split; [| |apply (bm_range live Hl)]; simpl.
  - apply Forall_lookup. intros i g Hg. apply lookup_zip_with_Some in Hg as (w & m & -> & Hw & _).
    apply ldiff_range. apply (Forall_lookup_1 _ _ _ _ (bm_words live Hl) Hw).
  - unfold nwords. simpl. rewrite length_zip_with, <- Hlen, Nat.min_id. apply (bm_size live Hl).
Qed.
Lemma bit_garbage live mark n :
  matching live mark -> bit (garbage live mark) n = (bit live n && negb (bit mark n))%bool.
Proof using.
  intros (_ & _ & _ & _ & Hlen). unfold bit, garbage. cbn. rewrite lookup_zip_with.
  destruct (words live !! _) as [w|] eqn:E1; simpl; [|done].
  destruct (words mark !! _) as [m|] eqn:E2; simpl.
  - destruct (Z.leb_spec 0 (n mod 64)); [apply Z.ldiff_spec | by rewrite !Z.testbit_neg_r by lia].
  - apply lookup_lt_Some in E1. apply lookup_ge_None in E2. lia.
Qed.

Lemma visit_bits_same b b' i w : heap_begin_ b = heap_begin_ b' -> visit_bits b i w = visit_bits b' i w.
Proof using. intros E. unfold visit_bits. by rewrite E. Qed.
Lemma visit_bits_garbage live mark i w :
  matching live mark -> 0 <= i < nwords live -> words (garbage live mark) !! Z.to_nat i = Some w -> 0 <= w < 2 ^ 64 ->
  visit_bits live i w = addr live <$> bits_in (garbage live mark) (64 * i) 64.
Proof using Halign.
  intros Hm Hi Hw Hr. rewrite (visit_bits_same live (garbage live mark)) by done.
  rewrite (visit_full (garbage live mark) i w (garbage_ok live mark Hm) Hi Hw Hr). done.
Qed.
Lemma visit_bits_0 b i : visit_bits b i 0 = [].
Proof using. unfold visit_bits. remember 64%nat as fuel eqn:Ef. by destruct fuel. Qed.

Lemma sweep_words_done live mark count : forall i pending,
  matching live mark -> 0 <= i -> i + Z.of_nat count <= nwords live ->
  Z.of_nat (length pending) < buffer_size - kBitsPerIntPtrT ->
  exists batches, sweep_words live mark i count pending = Done batches /\
    concat batches = pending ++ (addr live <$> bits_in (garbage live mark) (64 * i) (64 * Z.of_nat count)) /\
    Forall (fun batch => 0 < Z.of_nat (length batch) <= buffer_size) batches.
Proof using Halign.
  unfold buffer_size, sizeof_intptr_t, kBitsPerIntPtrT.
  induction count as [|count IH]; intros i pending Hm Hi Hc Hp; cbn [sweep_words];
    unfold buffer_size, sizeof_intptr_t, kBitsPerIntPtrT.
  - eexists. split; [done|]. rewrite bits_in_nil, app_nil_r.
    destruct (Z.ltb_spec 0 (Z.of_nat (length pending))); simpl.
    + rewrite app_nil_r. split; [done|]. repeat constructor; lia.
    + destruct pending; [done | simpl in *; lia].
  - pose proof Hm as (Hl & Hmk & Hh & Hs & Hlen).
    destruct (word_at_lookup live i Hl) as (w & -> & Hw & Hwr); [lia|].
    destruct (word_at_lookup mark i Hmk) as (m & -> & Hmw & _); [unfold nwords in *; rewrite <- Hs; lia|]. simpl.
    assert (Hg : words (garbage live mark) !! Z.to_nat i = Some (Z.ldiff w m)) by (simpl; by rewrite lookup_zip_with, Hw, Hmw).
    assert (Hv : visit_bits live i (Z.ldiff w m) = addr live <$> bits_in (garbage live mark) (64 * i) 64).
    { apply visit_bits_garbage; [done | lia | done | by apply ldiff_range]. }
    assert (Hsplit : bits_in (garbage live mark) (64 * i) (64 * Z.of_nat (S count)) =
      bits_in (garbage live mark) (64 * i) 64 ++ bits_in (garbage live mark) (64 * (i + 1)) (64 * Z.of_nat count)).
    { replace (64 * (i + 1)) with (64 * i + 64) by lia. rewrite <- bits_in_app by lia. f_equal. lia. }
    assert (Hle : (length (bits_in (garbage live mark) (64 * i) 64) <= 64)%nat).
    { etrans; [apply length_filter|]. by rewrite length_seqZ. }
    rewrite Hsplit, fmap_app. destruct (Z.eqb_spec (Z.ldiff w m) 0) as [E0|E0].
    + rewrite E0, visit_bits_0 in Hv. rewrite <- Hv. apply IH; [done | lia | lia | lia].
    + rewrite Hv. set (now := pending ++ _). assert (Hnow : Z.of_nat (length now) < 512).
      { unfold now. rewrite length_app, length_fmap. lia. }
      destruct (Z.ltb_spec (8 * 64) (Z.of_nat (length now))); [lia|].
      rewrite app_assoc. fold now. destruct (Z.leb_spec (8 * 64 - 64) (Z.of_nat (length now))).
      * destruct (IH (i + 1) []) as (batches & -> & Hb & Hf); [done | lia | lia | simpl; lia|].
        exists (now :: batches). split; [done|]. simpl. rewrite Hb. split; [done|]. constructor; [lia | done].
      * apply IH; [done | lia | lia | lia].
Qed.

Lemma SweepWalk_done live mark B E :
  matching live mark -> 0 <= B < E -> E <= nwords live * 64 ->
  exists batches, SweepWalk live mark (addr live B) (addr live E) = Done batches /\
    concat batches = addr live <$> bits_in (garbage live mark) (64 * (B / 64)) (64 * ((E - 1) / 64 + 1 - B / 64)) /\
    Forall (fun batch => 0 < Z.of_nat (length batch) <= buffer_size) batches.
Proof using Halign.
  intros Hm HB HE. pose proof Hm as (Hl & _ & Hh & Hs & _). destruct (bm_range live Hl) as [H0 Hr]. unfold SweepWalk.
  rewrite Hh, Hs, !Z.eqb_refl, <- Hh, <- Hs. cbn [negb orb].
  assert (HoB : u64 (addr live B - heap_begin_ live) = B * kAlignment) by (unfold addr; rewrite wrap_small; [lia | unfold in_width; nia]).
  assert (HoE : u64 (addr live E - heap_begin_ live - 1) = E * kAlignment - 1) by (unfold addr; rewrite wrap_small; [lia | unfold in_width; nia]).
  assert (Hlt : heap_begin_ live <= addr live B < addr live E) by (unfold addr; nia).
  rewrite (proj2 (Z.ltb_ge _ _)), (proj2 (Z.ltb_ge _ _)), (proj2 (Z.leb_gt _ _)) by lia. cbn [orb].
  rewrite HoB, HoE, index_addr. unfold OffsetToIndex, kBitsPerIntPtrT.
  assert (Hq : (E * kAlignment - 1) / kAlignment = E - 1).
  { symmetry. apply (Z.div_unique_pos _ _ _ (kAlignment - 1)); lia. }
  rewrite Hq. fold (nwords live). replace ((E - 1) / 64 <? nwords live) with true by (symmetry; apply Z.ltb_lt; div_lia). cbn [negb].
  destruct (sweep_words_done live mark (Z.to_nat ((E - 1) / 64 - B / 64 + 1)) (B / 64) []) as (batches & E1 & E2 & Hf);
    [done | div_lia | div_lia | done|].
  exists batches. split; [done|]. split; [|done]. rewrite E2. simpl. do 2 f_equal. div_lia.
Qed.

(** ** A bitmap is a set of addresses *)
Lemma Walk_done b : bitmap_ok b -> 0 < nwords b -> Walk b = Done (addr b <$> bits_in b 0 (64 * nwords b)).
Proof using Halign.
  intros Hb Hn. destruct (bm_range b Hb) as [H0 Hr]. unfold Walk, HeapLimit, HeapSize. fold (nwords b).
  unfold IndexToOffset, kBitsPerIntPtrT. rewrite (wrap_small 64 (nwords b * kAlignment * 64)) by (unfold in_width; nia).
  rewrite (wrap_small 64 (heap_begin_ b + _)) by (unfold in_width; nia).
  rewrite wrap_small by (unfold in_width; nia). unfold OffsetToIndex, kBitsPerIntPtrT.
  assert (Hq : (heap_begin_ b + nwords b * kAlignment * 64 - heap_begin_ b - 1) / kAlignment / 64 = nwords b - 1).
  { assert (E : (heap_begin_ b + nwords b * kAlignment * 64 - heap_begin_ b - 1) / kAlignment = nwords b * 64 - 1)
      by (symmetry; apply (Z.div_unique_pos _ _ _ (kAlignment - 1)); lia).
    rewrite E. div_lia. }
  rewrite Hq, visit_words_done by (try done; lia). do 3 f_equal; lia.
Qed.

Inductive bitmap_op := SetOp (obj : Z) | ClearOp (obj : Z) | TestOp (obj : Z).
Definition op_obj (op : bitmap_op) : Z := match op with SetOp o | ClearOp o | TestOp o => o end.
Definition exec_bitmap (op : bitmap_op) (b : SpaceBitmap) : outcome (bool * SpaceBitmap) :=
  match op with
  | SetOp obj => Set_ b obj
  | ClearOp obj => Clear b obj
  | TestOp obj => r ← Test b obj; Done (r, b)
  end.
Definition exec_set (op : bitmap_op) (X : gset Z) : bool * gset Z :=
  match op with
  | SetOp obj => (bool_decide (obj ∈ X), {[ obj ]} ∪ X)
  | ClearOp obj => (bool_decide (obj ∈ X), X ∖ {[ obj ]})
  | TestOp obj => (bool_decide (obj ∈ X), X)
  end.
Fixpoint exec_bitmaps (ops : list bitmap_op) (b : SpaceBitmap) : outcome (list bool * SpaceBitmap) :=
  match ops with
  | [] => Done ([], b)
  | op :: ops => '(r, b) ← exec_bitmap op b; '(rs, b) ← exec_bitmaps ops b; Done (r :: rs, b)
  end.
Fixpoint exec_sets (ops : list bitmap_op) (X : gset Z) : list bool * gset Z :=
  match ops with
  | [] => ([], X)
  | op :: ops => let '(r, X) := exec_set op X in let '(rs, X) := exec_sets ops X in (r :: rs, X)
  end.

(** [b] has exactly the bits of the addresses in [X]. *)
Definition represents (b : SpaceBitmap) (X : gset Z) : Prop :=
  bitmap_ok b /\ (forall a, a ∈ X -> exists n, 0 <= n < nwords b * 64 /\ a = addr b n) /\
  forall n, 0 <= n < nwords b * 64 -> bit b n = bool_decide (addr b n ∈ X).
(** An address that has a bit. *)
Definition covered (b : SpaceBitmap) (a : Z) : Prop := exists n, 0 <= n < nwords b * 64 /\ a = addr b n.

Lemma addr_inj b n n' : addr b n = addr b n' -> n = n'.
Proof using Halign. unfold addr. nia. Qed.
Lemma represents_with_bit b X n v :
  represents b X -> 0 <= n < nwords b * 64 ->
  represents (with_bit b n v) (if v then {[ addr b n ]} ∪ X else X ∖ {[ addr b n ]}).
Proof using Halign.
  intros (Hb & Hsub & Hbits) Hn. split_and!.
  - by apply with_bit_ok.
  - intros a Ha. assert (a ∈ X \/ a = addr b n) as [Ha' | ->] by (destruct v; set_solver); [by apply Hsub | by exists n].
  - intros k Hk. change (nwords (with_bit b n v)) with (nwords b) in Hk. change (addr (with_bit b n v) k) with (addr b k).
    rewrite bit_with_bit by (try done; lia). destruct (Z.eqb_spec k n) as [->|Hne].
    + destruct v; [by rewrite bool_decide_eq_true_2 by set_solver | by rewrite bool_decide_eq_false_2 by set_solver].
    + rewrite Hbits by done. assert (addr b k <> addr b n) by (intros E%addr_inj; done).
      apply bool_decide_ext. destruct v; set_solver.
Qed.
Lemma exec_bitmap_done op b X :
  represents b X -> covered b (op_obj op) ->
  exists b', exec_bitmap op b = Done ((exec_set op X).1, b') /\ represents b' (exec_set op X).2 /\
    nwords b' = nwords b /\ heap_begin_ b' = heap_begin_ b.
Proof using Halign.
  intros HX (n & Hn & Ho). pose proof HX as (Hb & _ & Hbits).
  destruct op as [obj|obj|obj]; simpl in *; subst obj; unfold Set_, Clear.
  - rewrite Modify_done, Hbits by done. eexists. split; [done|]. split; [by apply (represents_with_bit b X n true) | done].
  - rewrite Modify_done, Hbits by done. eexists. split; [done|]. split; [by apply (represents_with_bit b X n false) | done].
  - rewrite Test_done, Hbits by done. by exists b.
Qed.
Lemma exec_bitmaps_done ops : forall b X,
  represents b X -> (forall op, op ∈ ops -> covered b (op_obj op)) ->
  exists b', exec_bitmaps ops b = Done ((exec_sets ops X).1, b') /\ represents b' (exec_sets ops X).2 /\ nwords b' = nwords b.
Proof using Halign.
  induction ops as [|op ops IH]; intros b X HX Hops; simpl; [by exists b|].
  destruct (exec_bitmap_done op b X HX) as (b1 & E1 & HX1 & Hn1 & Hh1); [apply Hops; set_solver|].
  destruct (exec_set op X) as [r X1]. simpl in *. rewrite E1. simpl.
  destruct (IH b1 X1 HX1) as (b2 & E2 & HX2 & Hn2).
  { intros op' Hop'. destruct (Hops op') as (n & Hn & ->); [set_solver|]. exists n. unfold addr. rewrite Hn1, Hh1. done. }
  destruct (exec_sets ops X1) as [rs X2]. simpl in *. rewrite E2. simpl. exists b2. split_and!; [done | done | lia].
Qed.
Lemma bits_sorted b lo n : StronglySorted Z.lt (addr b <$> bits_in b lo n).
Proof using Halign.
  unfold bits_in. remember (Z.to_nat n) as fuel eqn:Ef. revert n lo Ef. induction fuel as [|fuel IH]; intros n lo Ef.
  - rewrite seqZ_nil by lia. constructor.
  - rewrite seqZ_cons, filter_cons by lia. destruct (decide _); [|apply IH; lia]. rewrite fmap_cons.
    constructor; [apply IH; lia|]. apply Forall_forall. intros a Ha. apply list_elem_of_fmap in Ha as (k & -> & Hk).
    apply list_elem_of_filter in Hk as [_ Hk%elem_of_seqZ]. unfold addr. nia.
Qed.
Lemma represents_Walk b X :
  represents b X -> 0 < nwords b ->
  exists l, Walk b = Done l /\ StronglySorted Z.lt l /\ forall a, a ∈ l <-> a ∈ X.
Proof using Halign.
  intros (Hb & Hsub & Hbits) Hn. rewrite Walk_done by done. eexists. split; [done|]. split; [apply bits_sorted|].
  intros a. rewrite list_elem_of_fmap. setoid_rewrite list_elem_of_filter. setoid_rewrite elem_of_seqZ. split.
  - intros (n & -> & Hbit & Hr). rewrite Hbits in Hbit by lia. by apply bool_decide_eq_true in Hbit.
  - intros Ha. destruct (Hsub a Ha) as (n & Hr & ->). exists n. split; [done|]. split; [|lia].
    rewrite Hbits by done. by apply bool_decide_eq_true.
Qed.
End Bitmap.
End SpaceBitmap.

(** ** Marking by several threads

    [AtomicTestAndSet] on objects whose bits are in one word: every thread loads
    the word and, unless its bit is set, tries to replace the loaded word by a
    compare-and-exchange that may fail for no reason (the weak form). *)
Module Marking.
Inductive mark_pc :=
| MLoad                                (* the load is next *)
| MCas (old_word : Z)                  (* CompareExchangeWeakRelaxed is next *)
| MDone (was_marked : bool).           (* returned *)
Record mark_state := mkMark {
  mark_word : Z;
  markers : list (Z * mark_pc)         (* the bit number and the position of each thread *)
}.
(** Thread [i] takes a step; [spurious] makes a compare-and-exchange fail. *)
Definition AtomicTestAndSet_step (i : nat) (spurious : bool) (s : mark_state) : option mark_state :=
  match markers s !! i with
  | Some (k, MLoad) =>
      let old_word := mark_word s in
      let pc := if negb (Z.land old_word (Z.shiftl 1 k) =? 0) then MDone true else MCas old_word in
      Some (mkMark old_word (<[i := (k, pc)]> (markers s)))
  | Some (k, MCas old_word) =>
      if negb spurious && (mark_word s =? old_word)
      then Some (mkMark (Z.lor old_word (Z.shiftl 1 k)) (<[i := (k, MDone false)]> (markers s)))
      else Some (mkMark (mark_word s) (<[i := (k, MLoad)]> (markers s)))
  | _ => None
  end.
Fixpoint run_marking (steps : list (nat * bool)) (s : mark_state) : option mark_state :=
  match steps with
  | [] => Some s
  | (i, spurious) :: steps =>
      match AtomicTestAndSet_step i spurious s with Some s => run_marking steps s | None => None end
  end.

(** The number of threads that have marked bit [k]. *)
Definition winner (k : Z) (t : Z * mark_pc) : bool :=
  (t.1 =? k) && match t.2 with MDone false => true | _ => false end.
Definition winners (k : Z) (s : mark_state) : Z := Z.of_nat (length (filter (fun t => winner k t = true) (markers s))).
(** A thread that found its bit set, was right; a thread about to exchange had
    seen it clear. *)
Definition thread_ok (w : Z) (t : Z * mark_pc) : Prop :=
  0 <= t.1 /\ match t.2 with
              | MDone _ => Z.testbit w t.1 = true
              | MCas old => Z.testbit old t.1 = false
              | MLoad => True
              end.
Definition mark_inv (w0 : Z) (s : mark_state) : Prop :=
  Forall (thread_ok (mark_word s)) (markers s) /\
  (forall k, 0 <= k -> Z.testbit w0 k = true -> Z.testbit (mark_word s) k = true) /\
  (forall k, 0 <= k -> winners k s = if Z.testbit (mark_word s) k && negb (Z.testbit w0 k) then 1 else 0).

Lemma winners_insert k s w i t t' :
  markers s !! i = Some t ->
  winners k (mkMark w (<[i := t']> (markers s))) =
  winners k s - (if winner k t then 1 else 0) + (if winner k t' then 1 else 0).
Proof.
  intros Ht. unfold winners. simpl. revert i Ht. induction (markers s) as [|x l IH]; intros [|i] Ht; [done | done | |].
  - injection Ht as ->. simpl. rewrite !filter_cons.
    destruct (winner k t), (winner k t'); rewrite ?decide_True, ?decide_False by done; simpl; lia.
  - specialize (IH i Ht). simpl. rewrite !filter_cons. destruct (decide (winner k x = true)); simpl; lia.
Qed.
Lemma thread_ok_mono w w' t : (forall k, 0 <= k -> Z.testbit w k = true -> Z.testbit w' k = true) -> thread_ok w t -> thread_ok w' t.
Proof. intros H [H0 H1]. split; [done|]. destruct t as [k []]; simpl in *; auto. Qed.

Lemma mark_step_inv w0 i spurious s s' :
  mark_inv w0 s -> AtomicTestAndSet_step i spurious s = Some s' -> mark_inv w0 s'.
Proof.
  intros (Hth & Hmono & Hwin) E. unfold AtomicTestAndSet_step in E.
  destruct (markers s !! i) as [[k pc]|] eqn:Ht; [|done]. pose proof (Forall_lookup_1 _ _ _ _ Hth Ht) as [Hk Hpc]. simpl in *.
  rewrite Z.shiftl_1_l in E. destruct pc as [|old|r]; [| |done].
  - rewrite SpaceBitmap.land_mask, negb_involutive in E by done. injection E as <-. split_and!; simpl; [|done|].
    + apply Forall_insert; [done|]. split; [done|]. simpl. by destruct (Z.testbit (mark_word s) k) eqn:Eb.
    + intros k' Hk'. rewrite (winners_insert k' s _ i _ _ Ht), Hwin by done. unfold winner. simpl.
      rewrite andb_false_r. destruct (Z.testbit (mark_word s) k); rewrite andb_false_r; lia.
  - destruct (negb spurious && (mark_word s =? old))%bool eqn:Ec; injection E as <-.
    + apply andb_true_iff in Ec as [_ Ec%Z.eqb_eq]. subst old.
      assert (Hbit : forall k', 0 <= k' -> Z.testbit (Z.lor (mark_word s) (2 ^ k)) k' = Z.testbit (mark_word s) k' || (k' =? k)).
      { intros k' Hk'. rewrite Z.lor_spec. destruct (Z.eqb_spec k' k) as [->|]; [by rewrite Z.pow2_bits_true | by rewrite Z.pow2_bits_false by lia]. }
      split_and!; simpl.
      * apply Forall_insert.
        -- eapply Forall_impl; [exact Hth|]. intros t. apply thread_ok_mono. intros k' Hk' Hb. by rewrite Hbit, Hb.
        -- split; [done|]. simpl. rewrite Hbit, Z.eqb_refl by done. btauto.
      * intros k' Hk' Hb. by rewrite Hbit, (Hmono k' Hk' Hb).
      * intros k' Hk'. rewrite (winners_insert k' s _ i _ _ Ht), Hwin, Hbit by done. unfold winner. simpl.
        rewrite andb_false_r, andb_true_r. destruct (Z.eqb_spec k k') as [<-|Hne].
        -- rewrite Hpc, Z.eqb_refl. destruct (Z.testbit w0 k) eqn:E0; [|done]. rewrite (Hmono k Hk E0) in Hpc. done.
        -- rewrite (proj2 (Z.eqb_neq k' k)), orb_false_r by done. lia.
    + split_and!; simpl; [|done|].
      * apply Forall_insert; [done|]. by split.
      * intros k' Hk'. rewrite (winners_insert k' s _ i _ _ Ht), Hwin by done. unfold winner. simpl. rewrite !andb_false_r. lia.
Qed.
Lemma run_marking_inv w0 steps : forall s s', mark_inv w0 s -> run_marking steps s = Some s' -> mark_inv w0 s'.
Proof.
  induction steps as [|[i sp] steps IH]; intros s s' Hs E; simpl in E; [by injection E as <-|].
  destruct (AtomicTestAndSet_step i sp s) as [s1|] eqn:E1; [|done]. by eapply IH; [eapply mark_step_inv|].
Qed.
Lemma mark_inv_init w0 ks : Forall (fun k => 0 <= k) ks -> mark_inv w0 (mkMark w0 ((fun k => (k, MLoad)) <$> ks)).
Proof.
  intros Hks. split_and!; simpl; [|done|].
  - apply Forall_fmap. eapply Forall_impl; [exact Hks|]. by intros k Hk.
  - intros k _. rewrite andb_negb_r. unfold winners. simpl. rewrite filter_none; [done|].
    intros t Ht. apply list_elem_of_fmap in Ht as (k' & -> & _). unfold winner. simpl. by rewrite andb_false_r.
Qed.
End Marking.

(** ** Properties *)
Section Create.
Import SpaceBitmap.
Context (k heap_begin capacity : Z).

Lemma bitmap_Create_done :
  0 <= k < 31 -> 0 <= heap_begin -> 0 < capacity -> heap_begin + capacity + 2 ^ k * 64 < 2 ^ 64 ->
  exists b, Create (2 ^ k) true heap_begin capacity = Done (Some b) /\ represents (2 ^ k) b ∅ /\ heap_begin_ b = heap_begin /\
    capacity <= nwords b * 64 * 2 ^ k < capacity + 2 ^ k * 64.
Proof.
  intros Hk Hh Hc Hr. assert (Hp : 0 < 2 ^ k) by (apply Z.pow_pos_nonneg; lia).
  assert (E64 : 2 ^ k * 64 = 2 ^ (k + 6)) by (rewrite Z.pow_add_r by lia; done).
  assert (Hp6 : 0 < 2 ^ (k + 6)) by lia.
  unfold Create, CreateFromMemMap, ComputeBitmapSize, kBitsPerIntPtrT, sizeof_intptr_t, RoundUp, RoundDown. cbv zeta. rewrite E64 in *.
  rewrite (wrap_small 64 (capacity + 2 ^ (k + 6) - 1)) by (unfold in_width; lia).
  rewrite land_opp_pow2 by (unfold in_width; lia). rewrite Z.div_mul by lia.
  set (n := (capacity + 2 ^ (k + 6) - 1) / 2 ^ (k + 6)).
  assert (Hn : 0 < n /\ capacity <= n * 2 ^ (k + 6) < capacity + 2 ^ (k + 6)).
  { pose proof (Z.div_mod (capacity + 2 ^ (k + 6) - 1) (2 ^ (k + 6))).
    pose proof (Z.mod_pos_bound (capacity + 2 ^ (k + 6) - 1) (2 ^ (k + 6))). nia. }
  rewrite wrap_small by (unfold in_width; nia). rewrite (proj2 (Z.eqb_neq (n * 8) 0)), Z.div_mul by lia.
  eexists. split; [done|].
  assert (Hnw : forall ws, nwords (mkBitmap ws (n * 8) heap_begin) = n) by (intros ws; unfold nwords, sizeof_intptr_t; simpl; by apply Z.div_mul).
  split_and!; [|done | rewrite Hnw; nia..]. split_and!.
  - split; simpl.
    + apply Forall_replicate. unfold in_width. lia.
    + rewrite Hnw, length_replicate. split_and!; [lia | by apply Z.mod_mul | lia].
    + rewrite Hnw. split; [done | nia].
  - intros a Ha. set_solver.
  - intros j Hj. rewrite Hnw in Hj. unfold bit. simpl. rewrite lookup_replicate_2 by div_lia.
    rewrite Z.bits_0. by rewrite bool_decide_eq_false_2 by set_solver.
Qed.
End Create.

(** C12: a bitmap is a set of addresses. From [Create], any sequence of [Set],
    [Clear] and [Test] on aligned addresses of the heap returns what the same
    operations on a set of addresses return, never touches a word outside of the
    bitmap, and [Walk] then visits the elements of the set in increasing order,
    each once. *)
Theorem bitmap_is_set k heap_begin capacity (ops : list SpaceBitmap.bitmap_op) :
  0 <= k < 31 -> 0 <= heap_begin -> 0 < capacity -> heap_begin + capacity + 2 ^ k * 64 < 2 ^ 64 ->
  (forall op, op ∈ ops -> exists n, 0 <= n /\ n * 2 ^ k < capacity /\ SpaceBitmap.op_obj op = heap_begin + n * 2 ^ k) ->
  let X := SpaceBitmap.exec_sets ops ∅ in
  exists b b' l, SpaceBitmap.Create (2 ^ k) true heap_begin capacity = Done (Some b) /\
    SpaceBitmap.exec_bitmaps (2 ^ k) ops b = Done (X.1, b') /\
    SpaceBitmap.Walk (2 ^ k) b' = Done l /\ StronglySorted Z.lt l /\ forall a, a ∈ l <-> a ∈ X.2.
Proof.
  intros Hk Hh Hc Hr Hops X. assert (Hp : 0 < 2 ^ k) by (apply Z.pow_pos_nonneg; lia).
  destruct (bitmap_Create_done k heap_begin capacity Hk Hh Hc Hr) as (b & E & Hb & Hhb & Hn).
  destruct (SpaceBitmap.exec_bitmaps_done (2 ^ k) Hp ops b ∅ Hb) as (b' & E' & Hb' & Hn').
  { intros op Hop. destruct (Hops op Hop) as (n & H0 & Hlt & ->). exists n. unfold SpaceBitmap.addr. rewrite Hhb.
    split; [nia | done]. }
  destruct (SpaceBitmap.represents_Walk (2 ^ k) Hp b' _ Hb') as (l & El & Hl); [rewrite Hn'; nia|].
  by exists b, b', l.
Qed.

(** Objects at 0x1000, 0x1008 and 0x1200; the second one is cleared again. *)
Lemma bitmap_is_set_witness :
  exists b b', SpaceBitmap.Create 8 true 0x1000 0x400 = Done (Some b) /\
    SpaceBitmap.exec_bitmaps 8 [SpaceBitmap.SetOp 0x1200; SpaceBitmap.SetOp 0x1008; SpaceBitmap.SetOp 0x1000;
      SpaceBitmap.ClearOp 0x1008; SpaceBitmap.TestOp 0x1200] b = Done ([false; false; false; true; true], b') /\
    exists l, SpaceBitmap.Walk 8 b' = Done l /\ 0x1200 ∈ l.
Proof.
  destruct (bitmap_is_set 3 0x1000 0x400 [SpaceBitmap.SetOp 0x1200; SpaceBitmap.SetOp 0x1008; SpaceBitmap.SetOp 0x1000;
      SpaceBitmap.ClearOp 0x1008; SpaceBitmap.TestOp 0x1200]) as (b & b' & l & E & E' & El & _ & Hl); [lia | lia | lia | lia | |].
  - intros op Hop. repeat (apply elem_of_cons in Hop as [-> | Hop];
      [first [exists 0; simpl; lia | exists 1; simpl; lia | exists 64; simpl; lia]|]). by apply elem_of_nil in Hop.
  - exists b, b'. split; [exact E|]. split; [exact E'|]. exists l. split; [exact El|]. apply Hl. refine (bool_decide_eq_true_1 _ _).
    vm_compute. reflexivity.
Defined.

(** C31: the fast traversal of a range is the simple loop. For aligned addresses
    from inside of the heap to at most its limit, [VisitMarkedRange], which works
    word by word with masks at both edges, calls the visitor on the same objects
    in the same order as the loop over all addresses that the source keeps
    beside it; the loop ends. *)
Theorem visit_range_equiv kAlignment (b : SpaceBitmap.SpaceBitmap) lo hi fuel :
  0 < kAlignment -> SpaceBitmap.bitmap_ok kAlignment b -> 0 <= lo <= hi -> hi <= SpaceBitmap.nwords b * 64 ->
  lo < SpaceBitmap.nwords b * 64 -> hi - lo < Z.of_nat fuel ->
  exists l, SpaceBitmap.VisitMarkedRange kAlignment b (SpaceBitmap.addr kAlignment b lo) (SpaceBitmap.addr kAlignment b hi) = Done l /\
    SpaceBitmap.VisitMarkedRange_loop kAlignment fuel b (SpaceBitmap.addr kAlignment b lo) (SpaceBitmap.addr kAlignment b hi) = Done l.
Proof.
  intros Hk Hb Hlo Hhi Hlt Hf. eexists. split; [by apply SpaceBitmap.VisitMarkedRange_done|].
  by apply SpaceBitmap.VisitMarkedRange_loop_done.
Qed.

Definition demo_bitmap : SpaceBitmap.SpaceBitmap := SpaceBitmap.mkBitmap [0x8000000000000003; 5; 0xff] 24 0x1000.
Definition demo_marks : SpaceBitmap.SpaceBitmap := SpaceBitmap.mkBitmap [1; 5; 0xf0] 24 0x1000.
Lemma demo_bitmap_ok : SpaceBitmap.bitmap_ok 8 demo_bitmap.
Proof. split; [repeat constructor; unfold in_width; lia | vm_compute; split_and!; congruence | vm_compute; split; congruence]. Qed.
Lemma demo_marks_ok : SpaceBitmap.bitmap_ok 8 demo_marks.
Proof. split; [repeat constructor; unfold in_width; lia | vm_compute; split_and!; congruence | vm_compute; split; congruence]. Qed.

Lemma visit_range_equiv_witness :
  exists l, SpaceBitmap.VisitMarkedRange 8 demo_bitmap 0x1008 0x1418 = Done l /\
    SpaceBitmap.VisitMarkedRange_loop 8 200 demo_bitmap 0x1008 0x1418 = Done l.
Proof.
  exact (visit_range_equiv 8 demo_bitmap 1 131 200 ltac:(lia) demo_bitmap_ok ltac:(lia) ltac:(vm_compute; congruence)
    ltac:(vm_compute; reflexivity) ltac:(lia)).
Defined.

(** C30: sweeping frees exactly the garbage. For a live and a mark bitmap of the
    same heap, [SweepWalk] passes to the callback, in increasing order and each
    once, the objects of the words that the range touches that are live and not
    marked; no batch is empty, and the buffer of pointers never overflows. *)
Theorem sweep_exact kAlignment (live mark : SpaceBitmap.SpaceBitmap) lo hi :
  0 < kAlignment -> SpaceBitmap.matching kAlignment live mark -> 0 <= lo < hi -> hi <= SpaceBitmap.nwords live * 64 ->
  exists batches,
    SpaceBitmap.SweepWalk kAlignment live mark (SpaceBitmap.addr kAlignment live lo) (SpaceBitmap.addr kAlignment live hi) = Done batches /\
    concat batches = SpaceBitmap.addr kAlignment live <$>
      filter (fun n => SpaceBitmap.bit live n = true /\ SpaceBitmap.bit mark n = false)
        (seqZ (64 * (lo / 64)) (64 * ((hi - 1) / 64 + 1 - lo / 64))) /\
    Forall (fun batch => 0 < Z.of_nat (length batch) <= SpaceBitmap.buffer_size) batches.
Proof.
  intros Hk Hm Hlo Hhi. destruct (SpaceBitmap.SweepWalk_done kAlignment Hk live mark lo hi Hm Hlo Hhi) as (bs & E & Hc & Hf).
  exists bs. split; [done|]. split; [|done]. rewrite Hc. f_equal. apply filter_ext_in. intros n _.
  rewrite (SpaceBitmap.bit_garbage kAlignment) by done.
  destruct (SpaceBitmap.bit live n), (SpaceBitmap.bit mark n); naive_solver.
Qed.
Lemma sweep_exact_witness :
  exists batches, SpaceBitmap.SweepWalk 8 demo_bitmap demo_marks 0x1000 0x1440 = Done batches /\
    concat batches = [0x1008; 0x11f8; 0x1400; 0x1408; 0x1410; 0x1418].
Proof.
  destruct (sweep_exact 8 demo_bitmap demo_marks 0 136) as (bs & E & Hc & _).
  - lia.
  - split_and!; [exact demo_bitmap_ok | exact demo_marks_ok | reflexivity | reflexivity | reflexivity].
  - lia.
  - vm_compute. congruence.
  - exists bs. split; [exact E|]. rewrite Hc. vm_compute. reflexivity.
Defined.

(** C32: an object is marked once. However many threads run [AtomicTestAndSet] on
    the objects of a word, and however their loads and compare-and-exchanges
    interleave or fail: for an object that was not marked, exactly one of the
    threads that have returned got false when its bit is set and none when it is
    not, and a thread never returns while the bit is clear; for an object that
    was marked, all get true. *)
Theorem mark_once w0 (ks : list Z) steps s :
  Forall (fun k => 0 <= k) ks ->
  Marking.run_marking steps (Marking.mkMark w0 ((fun k => (k, Marking.MLoad)) <$> ks)) = Some s ->
  (forall k, 0 <= k -> Marking.winners k s =
     if Z.testbit (Marking.mark_word s) k && negb (Z.testbit w0 k) then 1 else 0) /\
  (forall k, 0 <= k -> Z.testbit w0 k = true -> Z.testbit (Marking.mark_word s) k = true) /\
  (forall i k r, Marking.markers s !! i = Some (k, Marking.MDone r) -> Z.testbit (Marking.mark_word s) k = true).
Proof.
  intros Hks E. destruct (Marking.run_marking_inv w0 steps _ s (Marking.mark_inv_init w0 ks Hks) E) as (Hth & Hm & Hw).
  split_and!; [done | done|]. intros i k r Hi. by destruct (Forall_lookup_1 _ _ _ _ Hth Hi).
Qed.
(** Two threads mark bit 3; the exchange of the second one fails. *)
Lemma mark_once_witness :
  exists s, Marking.run_marking [(0, false); (1, false); (0, false); (1, false); (1, false)]%nat
      (Marking.mkMark 1 [(3, Marking.MLoad); (3, Marking.MLoad)]) = Some s /\ Marking.winners 3 s = 1.
Proof.
  eexists. split; [vm_compute; reflexivity|].
  destruct (mark_once 1 [3; 3] [(0, false); (1, false); (0, false); (1, false); (1, false)]%nat _
    ltac:(repeat constructor; lia) eq_refl) as (Hw & _). etransitivity; [apply Hw; lia | reflexivity].
Defined.

(** An empty range at the limit of the heap still reads the word after the last
    one of the bitmap. *)
Lemma visit_empty_range_past_end :
  SpaceBitmap.VisitMarkedRange 8 demo_bitmap (SpaceBitmap.HeapLimit 8 demo_bitmap) (SpaceBitmap.HeapLimit 8 demo_bitmap) = Faulted.
Proof. vm_compute. reflexivity. Qed.
