(* ===== verification/TaskProcessor.v ===== *)
(** The heap's task processor (runtime/gc/task_processor.h, task_processor.cc):
    the queue of the heap tasks, to which Marvin's WriteTask belongs, and the
    daemon thread that runs them.

    The queue is a std::multiset of tasks ordered by their target time.  Every
    critical section of [lock_] is one operation on the queue; the daemon thread
    is a state machine whose steps are its critical sections, its waits on the
    condition variable and the runs of its tasks, and which is interleaved with
    the operations of other threads and with the passing of time. *)
From stdpp Require Import prelude list sorting.
From Stdlib Require Import ZArith Lia.
From S2P Require Import Prelude.
Open Scope Z_scope.

Module TaskProcessor.

(** ** Queue *)
(** [task_id] is the address of the task. *)
Record HeapTask := mkTask { task_id : Z; target_run_time_ : Z }.
#[export] Instance HeapTask_eq_dec : EqDecision HeapTask.
Proof. solve_decision. Defined.

Record TaskProcessor := mkProcessor {
  tasks_ : list HeapTask;
  is_running_ : bool;
  running_thread_ : option Z
}.
Definition new : TaskProcessor := mkProcessor [] false None.
Definition with_tasks (l : list HeapTask) (p : TaskProcessor) : TaskProcessor :=
  mkProcessor l (is_running_ p) (running_thread_ p).

(** [std::multiset::insert]: after the elements that are not greater. *)
Fixpoint multiset_insert (t : HeapTask) (l : list HeapTask) : list HeapTask :=
  match l with
  | [] => [t]
  | x :: l => if target_run_time_ t <? target_run_time_ x then t :: x :: l else x :: multiset_insert t l
  end.

Definition Start (self : Z) (p : TaskProcessor) : TaskProcessor := mkProcessor (tasks_ p) true (Some self).
(** The operations below also tell whether they signal the condition variable. *)
Definition Stop (p : TaskProcessor) : TaskProcessor * bool := (mkProcessor (tasks_ p) false None, true).
Definition AddTask (task : HeapTask) (p : TaskProcessor) : TaskProcessor * bool :=
  (with_tasks (multiset_insert task (tasks_ p)) p, true).

(** [tasks_.equal_range(task)] and the search for [task] in it: the tasks
    before and after the one that is found. *)
Fixpoint find_task (task : HeapTask) (l : list HeapTask) : option (list HeapTask * list HeapTask) :=
  match l with
  | [] => None
  | x :: l =>
      if (target_run_time_ x =? target_run_time_ task) && (task_id x =? task_id task) then Some ([], l)
      else match find_task task l with Some (l1, l2) => Some (x :: l1, l2) | None => None end
  end.
Definition is_first (task : HeapTask) (l : list HeapTask) : bool :=
  match l with t :: _ => task_id t =? task_id task | [] => false end.
Definition UpdateTargetRunTime (task : HeapTask) (new_target_time : Z) (p : TaskProcessor) : TaskProcessor * bool :=
  match find_task task (tasks_ p) with
  | Some (l1, l2) =>
      if negb (new_target_time =? target_run_time_ task) then
        let l := multiset_insert (mkTask (task_id task) new_target_time) (l1 ++ l2) in
        (with_tasks l p, is_first task l)
      else (p, false)
  | None => (p, false)
  end.

(** ** [GetTask]

    One round of its loop, at time [current_time]. *)
Inductive get_result :=
| Return (task : option HeapTask)
| Wait
| TimedWait (ms ns : Z).
Definition NsToMs (ns : Z) : Z := ns / 1000 / 1000.
Definition MsToNs (ms : Z) : Z := u64 (ms * 1000 * 1000).
Definition GetTask_round (current_time : Z) (p : TaskProcessor) : get_result * TaskProcessor :=
  match tasks_ p with
  | [] => if negb (is_running_ p) then (Return None, p) else (Wait, p)
  | task :: rest =>
      let target_time := target_run_time_ task in
      if negb (is_running_ p) || (target_time <=? current_time) then (Return (Some task), with_tasks rest p)
      else
        let delta_time := u64 (target_time - current_time) in
        let ms_delta := NsToMs delta_time in
        let ns_delta := u64 (delta_time - MsToNs ms_delta) in
        (TimedWait (i64 ms_delta) (i32 ns_delta), p)
  end.

(** ** The daemon thread: [RunAllTasks] *)
Inductive runner_pc :=
| RGet                         (* GetTask: the next round *)
| RWait                        (* in cond_->Wait *)
| RTimedWait (deadline : Z)    (* in cond_->TimedWait *)
| RRun (task : HeapTask)       (* task->Run and task->Finalize *)
| RCheck                       (* IsRunning() after a null task *)
| RExited.
(** A task that GetTask returned, when, and whether the processor was running. *)
Record run_record := mkRun { run_task : HeapTask; run_time : Z; run_running : bool }.
Record system := mkSystem {
  proc : TaskProcessor;
  pc : runner_pc;
  now : Z;
  history : list run_record
}.
Definition initial : system := mkSystem new RGet 0 [].

Inductive event :=
| Runner                               (* the daemon thread takes its next step *)
| Spurious                             (* a wait returns without a signal *)
| Add (task : HeapTask)
| Update (task : HeapTask) (new_target_time : Z)
| DoStart (self : Z)
| DoStop
| Tick (d : Z).

(** [Signal] and [Broadcast]: only the daemon thread waits. *)
Definition wake (signal : bool) (r : runner_pc) : runner_pc :=
  match r with
  | RWait | RTimedWait _ => if signal then RGet else r
  | _ => r
  end.
Definition runner_step (s : system) : option system :=
  match pc s with
  | RGet =>
      let '(r, p) := GetTask_round (now s) (proc s) in
      Some match r with
           | Return None => mkSystem p RCheck (now s) (history s)
           | Return (Some t) =>
               mkSystem p (RRun t) (now s) (history s ++ [mkRun t (now s) (is_running_ (proc s))])
           | Wait => mkSystem p RWait (now s) (history s)
           | TimedWait ms ns => mkSystem p (RTimedWait (now s + ms * 1000000 + ns)) (now s) (history s)
           end
  | RWait => None
  | RTimedWait deadline => if deadline <=? now s then Some (mkSystem (proc s) RGet (now s) (history s)) else None
  | RRun _ => Some (mkSystem (proc s) RGet (now s) (history s))
  | RCheck => Some (mkSystem (proc s) (if is_running_ (proc s) then RGet else RExited) (now s) (history s))
  | RExited => None
  end.
Definition apply_op (op : TaskProcessor * bool) (s : system) : system :=
  mkSystem op.1 (wake op.2 (pc s)) (now s) (history s).
Definition step (s : system) (ev : event) : option system :=
  match ev with
  | Runner => runner_step s
  | Spurious =>
      match pc s with
      | RWait | RTimedWait _ => Some (mkSystem (proc s) RGet (now s) (history s))
      | _ => None
      end
  | Add task => Some (apply_op (AddTask task (proc s)) s)
  | Update task t => Some (apply_op (UpdateTargetRunTime task t (proc s)) s)
  | DoStart self => Some (apply_op (Start self (proc s), false) s)
  | DoStop => Some (apply_op (Stop (proc s)) s)
  | Tick d => if 0 <=? d then Some (mkSystem (proc s) (pc s) (now s + d) (history s)) else None
  end.
Fixpoint run (s : system) (evs : list event) : option system :=
  match evs with
  | [] => Some s
  | ev :: evs => match step s ev with Some s => run s evs | None => None end
  end.

(** The tasks added by a sequence of events, and the ones that were run. *)
Definition added (evs : list event) : list Z :=
  omap (fun ev => match ev with Add t => Some (task_id t) | _ => None end) evs.
Definition executed (s : system) : list Z := (fun r => task_id (run_task r)) <$> history s.
Definition queued (s : system) : list Z := task_id <$> tasks_ (proc s).

(** Times are 64-bit, at most 2^62 ns. *)
Definition time_ok (t : Z) : Prop := 0 <= t < 2 ^ 62.
Definition event_ok (ev : event) : Prop :=
  match ev with
  | Add t => time_ok (target_run_time_ t)
  | Update _ t => time_ok t
  | _ => True
  end.

(** ** Invariant *)
Definition by_target (a b : HeapTask) : Prop := target_run_time_ a <= target_run_time_ b.
#[export] Instance by_target_trans : Transitive by_target.
Proof. intros a b c. unfold by_target. lia. Qed.

Record system_ok (s : system) : Prop := {
  ok_sorted : StronglySorted by_target (tasks_ (proc s));
  ok_times : Forall (fun t => time_ok (target_run_time_ t)) (tasks_ (proc s));
  ok_now : 0 <= now s;
  ok_wait : match pc s with
            | RWait => is_running_ (proc s) = true /\ tasks_ (proc s) = []
            | RTimedWait d => is_running_ (proc s) = true /\
                exists t l, tasks_ (proc s) = t :: l /\ d <= target_run_time_ t
            | _ => True
            end;
  ok_history : Forall (fun r => run_running r = true -> target_run_time_ (run_task r) <= run_time r) (history s)
}.

Lemma multiset_insert_perm t l : multiset_insert t l ≡ₚ t :: l.
Proof.
  induction l as [|x l IH]; simpl; [done|]. destruct (_ <? _); [done|]. rewrite IH. apply Permutation_swap.
Qed.
Lemma multiset_insert_sorted t l : StronglySorted by_target l -> StronglySorted by_target (multiset_insert t l).
Proof.
  induction 1 as [|x l Hl IH Hx]; simpl; [by repeat constructor|].
  destruct (Z.ltb_spec (target_run_time_ t) (target_run_time_ x)) as [H|H].
  - constructor; [by constructor|]. constructor; [unfold by_target; lia|].
    eapply Forall_impl; [exact Hx|]. unfold by_target. lia.
  - constructor; [done|]. rewrite multiset_insert_perm. by constructor.
Qed.
(** The first task after an insertion is the new one or the one from before. *)
Lemma multiset_insert_head t x l :
  multiset_insert t (x :: l) = t :: x :: l /\ target_run_time_ t < target_run_time_ x \/
  exists l', multiset_insert t (x :: l) = x :: l' /\ target_run_time_ x <= target_run_time_ t.
Proof. simpl. destruct (Z.ltb_spec (target_run_time_ t) (target_run_time_ x)); [by left | right; eauto]. Qed.

Lemma find_task_spec task l l1 l2 :
  find_task task l = Some (l1, l2) ->
  exists t, l = l1 ++ t :: l2 /\ task_id t = task_id task /\ target_run_time_ t = target_run_time_ task.
Proof.
  revert l1. induction l as [|x l IH]; intros l1 E; simpl in E; [done|]. destruct (_ && _) eqn:Ex.
  - injection E as <- <-. apply andb_true_iff in Ex as [H1%Z.eqb_eq H2%Z.eqb_eq]. by exists x.
  - destruct (find_task task l) as [[l1' l2']|]; [|done]. injection E as <- <-.
    destruct (IH l1' eq_refl) as (t & -> & Ht). by exists t.
Qed.
Lemma sorted_remove_task (l1 : list HeapTask) t l2 :
  StronglySorted by_target (l1 ++ t :: l2) -> StronglySorted by_target (l1 ++ l2).
Proof.
  induction l1 as [|x l1 IH]; simpl; intros Hs; apply StronglySorted_inv in Hs as [Hs Hx]; [done|].
  constructor; [by apply IH|]. apply Forall_app in Hx as [H1 H2]. apply Forall_cons in H2 as [_ H2]. by apply Forall_app.
Qed.

(** The deadline of a timed wait is the target time. *)
Lemma timed_wait_exact current target :
  0 <= current < target -> time_ok target ->
  let delta_time := u64 (target - current) in
  current + i64 (NsToMs delta_time) * 1000000 + i32 (u64 (delta_time - MsToNs (NsToMs delta_time))) = target.
Proof.
  intros Hc Ht delta. unfold time_ok in Ht. unfold delta. rewrite (wrap_small 64 (target - current)) by (unfold in_width; lia).
  unfold NsToMs, MsToNs. rewrite Z.div_div by lia. set (d := target - current). set (q := d / (1000 * 1000)).
  assert (Hq : 0 <= d - q * 1000000 < 1000000) by (unfold q; Z.div_mod_to_equations; lia).
  assert (0 <= q) by (apply Z.div_pos; unfold d; lia).
  rewrite (wrap_small 64 (q * 1000 * 1000)) by (unfold in_width, d in *; lia).
  rewrite (wrap_small 64 (d - _)) by (unfold in_width, d in *; lia).
  rewrite !swrap_small by (unfold d in *; lia). unfold d. lia.
Qed.

Lemma initial_ok : system_ok initial.
Proof. split; simpl; try done; try constructor. Qed.

(** Operations of other threads: an operation that does not signal leaves the
    daemon thread a wait that ends in time. *)
Lemma apply_op_ok s p signal :
  system_ok s -> StronglySorted by_target (tasks_ p) -> Forall (fun t => time_ok (target_run_time_ t)) (tasks_ p) ->
  (signal = false -> is_running_ (proc s) = true -> is_running_ p = true) ->
  (signal = false -> tasks_ (proc s) = [] -> tasks_ p = []) ->
  (signal = false -> forall t l, tasks_ (proc s) = t :: l -> exists t' l', tasks_ p = t' :: l' /\ target_run_time_ t <= target_run_time_ t') ->
  system_ok (apply_op (p, signal) s).
Proof.
  intros [Hs Ht Hn Hw Hh] Hs' Ht' Hr He Hf. split; simpl; [done | done | done | | done].
  destruct (pc s) as [| |d|t| |]; simpl in *; try done.
  - destruct signal; [done|]. destruct Hw as [H1 H2]. auto.
  - destruct signal; [done|]. destruct Hw as (H1 & t & l & E & Hd). split; [by apply Hr|].
    destruct (Hf eq_refl t l E) as (t' & l' & E' & Hle). exists t', l'. split; [done | lia].
Qed.
(** An operation that keeps the queue and does not stop the processor. *)
Lemma keep_queue_ok s p :
  system_ok s -> tasks_ p = tasks_ (proc s) -> (is_running_ (proc s) = true -> is_running_ p = true) ->
  system_ok (apply_op (p, false) s).
Proof.
  intros Hok E Hr. pose proof Hok as []. apply apply_op_ok; rewrite ?E; auto.
  intros _ t l El. exists t, l. by split; [|lia].
Qed.
Lemma AddTask_ok s task : system_ok s -> time_ok (target_run_time_ task) -> system_ok (apply_op (AddTask task (proc s)) s).
Proof.
  intros Hok Ht. pose proof Hok as [Hs Hts Hn Hw Hh]. apply apply_op_ok; simpl; try done.
  - by apply multiset_insert_sorted.
  - rewrite multiset_insert_perm. by constructor.
Qed.
Lemma Update_ok s task new :
  system_ok s -> time_ok new -> system_ok (apply_op (UpdateTargetRunTime task new (proc s)) s).
Proof.
  intros Hok Ht. pose proof Hok as [Hs Hts Hn Hw Hh]. unfold UpdateTargetRunTime.
  assert (Hsame : system_ok (apply_op (proc s, false) s)) by (by apply keep_queue_ok).
  destruct (find_task task (tasks_ (proc s))) as [[l1 l2]|] eqn:E; [|done].
  destruct (negb _); [|done]. apply find_task_spec in E as (t & El & Hid & Htg). rewrite El in *.
  apply apply_op_ok; simpl.
  - done.
  - by apply multiset_insert_sorted, sorted_remove_task with t.
  - rewrite multiset_insert_perm. constructor; [done|]. apply Forall_app in Hts as [H1 H2].
    apply Forall_cons in H2 as [_ H2]. by apply Forall_app.
  - done.
  - rewrite El. intros _ Hl. by destruct l1.
  - rewrite El. intros Hsig t0 l Hl. destruct l1 as [|x l1]; cbn [app] in *.
    + injection Hl as <- <-. apply StronglySorted_inv in Hs as [_ Hall]. destruct l2 as [|y l2].
      * simpl in Hsig. by rewrite Z.eqb_refl in Hsig.
      * destruct (multiset_insert_head (mkTask (task_id task) new) y l2) as [[E _]|(l' & E & _)]; rewrite E in *.
        -- simpl in Hsig. by rewrite Z.eqb_refl in Hsig.
        -- exists y, l'. split; [done|]. apply Forall_cons in Hall as [H _]. exact H.
    + injection Hl as <- <-. destruct (multiset_insert_head (mkTask (task_id task) new) x (l1 ++ l2)) as [[E _]|(l' & E & _)]; rewrite E in *.
      * simpl in Hsig. by rewrite Z.eqb_refl in Hsig.
      * exists x, l'. split; [done | lia].
Qed.
Lemma runner_step_ok s s' : system_ok s -> runner_step s = Some s' -> system_ok s'.
Proof.
  intros [Hs Ht Hn Hw Hh] E. unfold runner_step in E. destruct (pc s) as [| |d|t| |]; try done.
  - unfold GetTask_round in E. destruct (tasks_ (proc s)) as [|t l] eqn:El.
    + destruct (is_running_ (proc s)) eqn:Er; injection E as <-; split; simpl; rewrite ?El; auto.
    + pose proof (StronglySorted_inv Hs) as [Hs' Hall]. apply Forall_cons in Ht as [Ht Hts].
      destruct (negb (is_running_ (proc s)) || _) eqn:Ec; injection E as <-.
      * split; simpl; [done | done | done | done |]. apply Forall_app. split; [done|]. constructor; [|constructor].
        simpl. intros Hr. rewrite Hr in Ec. by apply Z.leb_le in Ec.
      * apply orb_false_iff in Ec as [Hr%negb_false_iff Hlt%Z.leb_gt].
        split; simpl; rewrite ?El; [done | by constructor | done | | done].
        split; [done|]. exists t, l. split; [done|].
        pose proof (timed_wait_exact (now s) (target_run_time_ t) (conj Hn Hlt) Ht) as He. simpl in He. lia.
  - destruct (_ <=? _); [|done]. injection E as <-. by split.
  - injection E as <-. by split.
  - injection E as <-. split; simpl; try done. by destruct (is_running_ _).
Qed.
Lemma step_ok s ev s' : system_ok s -> event_ok ev -> step s ev = Some s' -> system_ok s'.
Proof.
  intros Hok Hev E. destruct ev as [| |t|t tm|self| |d]; simpl in E.
  - by eapply runner_step_ok.
  - destruct Hok. destruct (pc s); try done; injection E as <-; by split.
  - injection E as <-. by apply AddTask_ok.
  - injection E as <-. by apply Update_ok.
  - injection E as <-. by apply keep_queue_ok.
  - injection E as <-. pose proof Hok as []. by apply apply_op_ok.
  - destruct (Z.leb_spec 0 d); [|done]. injection E as <-. destruct Hok as [Hs Ht Hn Hw Hh].
    split; simpl; try done. lia.
Qed.
Lemma run_ok evs : forall s s', system_ok s -> Forall event_ok evs -> run s evs = Some s' -> system_ok s'.
Proof.
  induction evs as [|ev evs IH]; intros s s' Hok Hev E; simpl in E; [by injection E as <-|].
  apply Forall_cons in Hev as [He Hev]. destruct (step s ev) as [s1|] eqn:E1; [|done].
  eapply IH; [by eapply step_ok | done | done].
Qed.

(** ** Every task is run once *)
Lemma step_conserves s ev s' :
  step s ev = Some s' -> executed s' ++ queued s' ≡ₚ (executed s ++ queued s) ++ added [ev].
Proof.
  intros E. unfold executed, queued. destruct ev as [| |t|t tm|self| |d]; simpl in E; simpl; rewrite ?app_nil_r.
  - unfold runner_step in E. destruct (pc s) as [| |dl|t| |]; try done.
    + unfold GetTask_round in E. destruct (tasks_ (proc s)) as [|t l] eqn:El.
      * destruct (negb _); injection E as <-; simpl; by rewrite El.
      * destruct (_ || _); injection E as <-; simpl.
        -- rewrite fmap_app. simpl. by rewrite <- app_assoc.
        -- by rewrite El.
    + destruct (_ <=? _); [|done]. by injection E as <-.
    + by injection E as <-.
    + by injection E as <-.
  - destruct (pc s); try done; by injection E as <-.
  - injection E as <-. simpl. rewrite multiset_insert_perm. simpl. rewrite <- app_assoc. f_equiv. apply Permutation_cons_append.
  - injection E as <-. simpl. unfold UpdateTargetRunTime.
    destruct (find_task t (tasks_ (proc s))) as [[l1 l2]|] eqn:Ef; [|done]. destruct (negb _); [|done]. simpl.
    apply find_task_spec in Ef as (x & -> & Hid & _). rewrite multiset_insert_perm. simpl. f_equiv.
    rewrite !fmap_app, fmap_cons, Hid. apply Permutation_middle.
  - by injection E as <-.
  - by injection E as <-.
  - destruct (0 <=? d); [|done]. by injection E as <-.
Qed.
Lemma run_conserves evs : forall s s',
  run s evs = Some s' -> executed s' ++ queued s' ≡ₚ (executed s ++ queued s) ++ added evs.
Proof.
  induction evs as [|ev evs IH]; intros s s' E; simpl in E; [injection E as <-; by rewrite app_nil_r|].
  destruct (step s ev) as [s1|] eqn:E1; [|done]. rewrite (IH s1 s' E), (step_conserves s ev s1 E1), <- app_assoc.
  f_equiv. unfold added. simpl. by destruct ev.
Qed.

(** ** Progress *)
Definition runner_run (n : nat) (s : system) : option system := run s (replicate n Runner).

(** A stopped processor runs the rest of its queue in order and ends. *)
Lemma drain_from_get l : forall s,
  pc s = RGet -> is_running_ (proc s) = false -> tasks_ (proc s) = l ->
  exists s', runner_run (2 * length l + 2) s = Some s' /\ pc s' = RExited /\ tasks_ (proc s') = [] /\
    history s' = history s ++ ((fun t => mkRun t (now s) false) <$> l).
Proof.
  induction l as [|t l IH]; intros s Hpc Hr Hl.
  - eexists. split; [|split_and!].
    + unfold runner_run. simpl. unfold runner_step at 1. rewrite Hpc. unfold GetTask_round. rewrite Hl, Hr. simpl.
      unfold runner_step. simpl. rewrite Hr. reflexivity.
    + done.
    + done.
    + simpl. by rewrite app_nil_r.
  - replace (2 * length (t :: l) + 2)%nat with (S (S (2 * length l + 2))) by (simpl; lia).
    unfold runner_run. cbn [replicate run step]. unfold runner_step at 1. rewrite Hpc. unfold GetTask_round. rewrite Hl, Hr.
    cbn [negb orb]. unfold runner_step at 1. cbn [pc].
    destruct (IH (mkSystem (with_tasks l (proc s)) RGet (now s) (history s ++ [mkRun t (now s) false]))) as (s' & E & H1 & H2 & H3);
      [done | done | done|].
    exists s'. split_and!; [exact E | done | done|]. rewrite H3. simpl. by rewrite <- app_assoc.
Qed.
(** The daemon thread gets to the next round of [GetTask] in two steps, when it
    does not have to wait. *)
Lemma to_get s :
  system_ok s -> pc s <> RExited ->
  (match pc s with
   | RWait => False | RTimedWait d => d <= now s | RCheck => is_running_ (proc s) = true | _ => True end) ->
  exists n, (n <= 1)%nat /\ runner_run n s = Some (mkSystem (proc s) RGet (now s) (history s)).
Proof.
  intros Hok Hne Hpc. destruct s as [p r t h]; simpl in *. destruct r as [| |d|x| |]; try done.
  - exists 0%nat. split; [lia | done].
  - exists 1%nat. split; [lia|]. unfold runner_run. simpl. unfold runner_step. simpl. by rewrite (proj2 (Z.leb_le d t)).
  - exists 1%nat. by split; [lia|].
  - exists 1%nat. split; [lia|]. unfold runner_run. simpl. unfold runner_step. simpl. by rewrite Hpc.
Qed.
Lemma runner_run_add n k s s1 : runner_run n s = Some s1 -> runner_run (n + k) s = runner_run k s1.
Proof.
  unfold runner_run. rewrite replicate_add. revert s. induction n as [|n IH]; intros s E; simpl in *; [by injection E as ->|].
  destruct (runner_step s); [|done]. by apply IH.
Qed.
Lemma stopped_drains s :
  system_ok s -> is_running_ (proc s) = false -> pc s <> RExited -> pc s <> RCheck ->
  exists n s', (n <= 2 * length (tasks_ (proc s)) + 3)%nat /\ runner_run n s = Some s' /\ pc s' = RExited /\
    tasks_ (proc s') = [] /\ history s' = history s ++ ((fun t => mkRun t (now s) false) <$> tasks_ (proc s)).
Proof.
  intros Hok Hr Hne Hck. destruct (to_get s Hok Hne) as (n & Hn & E).
  { pose proof (ok_wait s Hok) as Hw. destruct (pc s); try done; destruct Hw; congruence. }
  destruct (drain_from_get (tasks_ (proc s)) (mkSystem (proc s) RGet (now s) (history s)) eq_refl Hr eq_refl)
    as (s' & E' & H1 & H2 & H3).
  exists (n + (2 * length (tasks_ (proc s)) + 2))%nat, s'. rewrite (runner_run_add _ _ _ _ E). split; [lia | done].
Qed.
(** A task that is due is returned in at most two steps of the daemon thread. *)
Lemma due_task_runs s t l :
  system_ok s -> tasks_ (proc s) = t :: l -> target_run_time_ t <= now s -> is_running_ (proc s) = true -> pc s <> RExited ->
  exists n s', (n <= 2)%nat /\ runner_run n s = Some s' /\ pc s' = RRun t /\ history s' = history s ++ [mkRun t (now s) true].
Proof.
  intros Hok El Ht Hr Hne. destruct (to_get s Hok Hne) as (n & Hn & E).
  { pose proof (ok_wait s Hok) as Hw. destruct (pc s); try done.
    - destruct Hw. congruence.
    - destruct Hw as (_ & t' & l' & E & Hd). rewrite El in E. injection E as <- <-. lia. }
  eexists (n + 1)%nat, _. rewrite (runner_run_add _ _ _ _ E). split; [lia|]. split.
  - unfold runner_run. simpl. unfold runner_step. simpl. unfold GetTask_round. rewrite El, Hr.
    rewrite (proj2 (Z.leb_le _ _) Ht). reflexivity.
  - done.
Qed.
End TaskProcessor.

(** ** Properties *)

(** C33: heap tasks are run once, in order, and never early. Whatever other
    threads do (adding tasks, changing their times, starting and stopping the
    processor) and whenever waits end: the tasks that were run and the ones in the
    queue are together the tasks that were added; the queue is in the order of the
    target times; a task that was run while the processor was running was run at
    or after its target time; and the daemon thread is never asleep for longer
    than until the target time of the first task, nor while the processor is
    stopped. *)
Theorem tasks_run_once_in_time evs s :
  Forall TaskProcessor.event_ok evs -> TaskProcessor.run TaskProcessor.initial evs = Some s ->
  TaskProcessor.executed s ++ TaskProcessor.queued s ≡ₚ TaskProcessor.added evs /\
  StronglySorted TaskProcessor.by_target (TaskProcessor.tasks_ (TaskProcessor.proc s)) /\
  Forall (fun r => TaskProcessor.run_running r = true ->
    TaskProcessor.target_run_time_ (TaskProcessor.run_task r) <= TaskProcessor.run_time r) (TaskProcessor.history s) /\
  match TaskProcessor.pc s with
  | TaskProcessor.RWait => TaskProcessor.is_running_ (TaskProcessor.proc s) = true /\ TaskProcessor.tasks_ (TaskProcessor.proc s) = []
  | TaskProcessor.RTimedWait deadline => TaskProcessor.is_running_ (TaskProcessor.proc s) = true /\
      exists t l, TaskProcessor.tasks_ (TaskProcessor.proc s) = t :: l /\ deadline <= TaskProcessor.target_run_time_ t
  | _ => True
  end.
Proof.
  intros Hev E. destruct (TaskProcessor.run_ok evs _ s TaskProcessor.initial_ok Hev E).
  split_and!; try done. by rewrite (TaskProcessor.run_conserves evs _ s E).
Qed.
(** The second task is moved before the first one while the daemon thread waits. *)
Definition demo_tasks : list TaskProcessor.event :=
  [TaskProcessor.DoStart 1; TaskProcessor.Runner; TaskProcessor.Add (TaskProcessor.mkTask 1 5000000);
   TaskProcessor.Add (TaskProcessor.mkTask 2 7000000); TaskProcessor.Runner;
   TaskProcessor.Update (TaskProcessor.mkTask 2 7000000) 1000000; TaskProcessor.Runner; TaskProcessor.Tick 2000000;
   TaskProcessor.Runner; TaskProcessor.Runner].
Lemma demo_tasks_ok : Forall TaskProcessor.event_ok demo_tasks.
Proof. repeat (constructor; [simpl; unfold TaskProcessor.time_ok; lia|]). constructor. Qed.
Definition demo_system : TaskProcessor.system :=
  default TaskProcessor.initial (TaskProcessor.run TaskProcessor.initial demo_tasks).
Lemma demo_run : TaskProcessor.run TaskProcessor.initial demo_tasks = Some demo_system.
Proof. vm_compute. reflexivity. Qed.
Lemma tasks_run_once_in_time_witness :
  TaskProcessor.executed demo_system = [2] /\
  TaskProcessor.executed demo_system ++ TaskProcessor.queued demo_system ≡ₚ TaskProcessor.added demo_tasks.
Proof.
  split; [vm_compute; reflexivity|].
  exact (proj1 (tasks_run_once_in_time demo_tasks demo_system demo_tasks_ok demo_run)).
Defined.

(** The processor is stopped with one task left. *)
Definition demo_stopped : TaskProcessor.system :=
  default TaskProcessor.initial (TaskProcessor.run TaskProcessor.initial (demo_tasks ++ [TaskProcessor.DoStop])).
Lemma demo_stop : TaskProcessor.run TaskProcessor.initial (demo_tasks ++ [TaskProcessor.DoStop]) = Some demo_stopped.
Proof. vm_compute. reflexivity. Qed.
Lemma demo_stopped_state :
  TaskProcessor.executed demo_stopped = [2] /\ TaskProcessor.queued demo_stopped = [1] /\
  TaskProcessor.is_running_ (TaskProcessor.proc demo_stopped) = false /\
  TaskProcessor.pc demo_stopped = TaskProcessor.RRun (TaskProcessor.mkTask 2 1000000).
Proof. vm_compute. done. Qed.
