(* ===== verification/RosAlloc.v ===== *)
(** RosAlloc, the allocator of the heap (runtime/gc/allocator/rosalloc.h,
    rosalloc-inl.h, rosalloc.cc): runs of pages, runs of slots of 42 sizes, the
    free lists of slots, runs that belong to one thread, and the bulk free of
    the garbage collector.

    The file holds the operations; what they are proved to do is in
    RosAllocPages, RosAllocFreePages and RosAllocSegments (pages), RosAllocSlots
    and RosAllocRuns (slots and runs), RosAllocIndex (the tables of runs),
    RosAllocAlloc and RosAllocFree (allocation and release), RosAllocSpec (the
    specification), RosAllocInspect (the walks over the heap) and
    RosAllocTheorems (the statements about the whole).

    The build is the release build for Android.  A DCHECK on members that this
    build has is modelled as a CHECK: that it cannot fail is part of what is
    proved.  The heap is a map from the addresses of its 8-byte words to their
    values, zero where nothing was stored; the headers of the runs are records
    kept apart from the words, where a header of zeros is absent.  Each function
    is a sequence of steps of one thread: the mutexes are not part of the state.
    Null pointers are 0, and the dedicated full run, which is outside of the
    heap and never changes, is [None].  [ArtRosAllocMoreCore], which changes the
    protection of pages, logging and instrumentation have no effect here. *)
From stdpp Require Import prelude gmap list.
From Stdlib Require Import ZArith Lia.
From S2P Require Import Prelude BitUtils.
Open Scope Z_scope.

Module RosAlloc.

(** ** Size brackets *)
Definition kPageSize : Z := 4096.
Definition KB : Z := 1024.
Definition MB : Z := 1048576.
Definition kNumOfSizeBrackets : Z := 42.
Definition kNumThreadLocalSizeBrackets : Z := 16.
Definition kNumRegularSizeBrackets : Z := 40.
Definition kMaxThreadLocalBracketSize : Z := 128.
Definition kMaxRegularBracketSize : Z := 512.
Definition kThreadLocalBracketQuantumSize : Z := 8.
Definition kBracketQuantumSize : Z := 16.
Definition kLargeSizeThreshold : Z := 2048.

(** [Initialize]. *)
Definition bracketSizes (i : Z) : Z :=
  if i <? kNumThreadLocalSizeBrackets then kThreadLocalBracketQuantumSize * (i + 1)
  else if i <? kNumRegularSizeBrackets then
    kBracketQuantumSize * (i - kNumThreadLocalSizeBrackets + 1)
    + kThreadLocalBracketQuantumSize * kNumThreadLocalSizeBrackets
  else if i =? kNumOfSizeBrackets - 2 then 1 * KB
  else 2 * KB.
Definition numOfPages (i : Z) : Z :=
  if i <? kNumRegularSizeBrackets then 1 else if i =? kNumOfSizeBrackets - 2 then 2 else 4.
(** [sizeof(Run)], rounded up. *)
Definition fixed_header_size : Z := 80.
(** The search for the number of slots, from [s] down: the number of slots and
    the size of the header. *)
Fixpoint search_slots (s : nat) (bracket_size run_size : Z) : Z * Z :=
  let tmp_slots_size := bracket_size * Z.of_nat s in
  let tmp_header_size :=
    if fixed_header_size mod bracket_size =? 0 then fixed_header_size
    else fixed_header_size + (bracket_size - fixed_header_size mod bracket_size) in
  if tmp_slots_size + tmp_header_size <=? run_size then (Z.of_nat s, tmp_header_size)
  else match s with O => (0, 0) | S s => search_slots s bracket_size run_size end.
Definition run_slots (i : Z) : Z * Z :=
  let bracket_size := bracketSizes i in
  let run_size := kPageSize * numOfPages i in
  let '(num_of_slots, header_size) := search_slots (Z.to_nat (run_size / bracket_size)) bracket_size run_size in
  (num_of_slots, header_size + run_size mod bracket_size).
Definition numOfSlots (i : Z) : Z := fst (run_slots i).
Definition headerSizes (i : Z) : Z := snd (run_slots i).

Definition IsSizeForThreadLocal (size : Z) : bool := size <=? kMaxThreadLocalBracketSize.
Definition RoundToBracketSize (size : Z) : Z :=
  if size <=? kMaxThreadLocalBracketSize then RoundUp size kThreadLocalBracketQuantumSize
  else if size <=? kMaxRegularBracketSize then RoundUp size kBracketQuantumSize
  else if size <=? 1 * KB then 1 * KB else 2 * KB.
Definition SizeToIndex (size : Z) : Z :=
  if size <=? kMaxThreadLocalBracketSize then
    RoundUp size kThreadLocalBracketQuantumSize / kThreadLocalBracketQuantumSize - 1
  else if size <=? kMaxRegularBracketSize then
    (RoundUp size kBracketQuantumSize - kMaxThreadLocalBracketSize) / kBracketQuantumSize
    - 1 + kNumThreadLocalSizeBrackets
  else if size <=? 1 * KB then kNumOfSizeBrackets - 2 else kNumOfSizeBrackets - 1.
Definition SizeToIndexAndBracketSize (size : Z) : Z * Z :=
  if size <=? kMaxThreadLocalBracketSize then
    let bracket_size := RoundUp size kThreadLocalBracketQuantumSize in
    (bracket_size / kThreadLocalBracketQuantumSize - 1, bracket_size)
  else if size <=? kMaxRegularBracketSize then
    let bracket_size := RoundUp size kBracketQuantumSize in
    ((bracket_size - kMaxThreadLocalBracketSize) / kBracketQuantumSize - 1 + kNumThreadLocalSizeBrackets, bracket_size)
  else if size <=? 1 * KB then (kNumOfSizeBrackets - 2, 1 * KB)
  else (kNumOfSizeBrackets - 1, 2 * KB).
Definition MaxBytesBulkAllocatedFor (size : Z) : Z :=
  if negb (IsSizeForThreadLocal size) then size
  else let '(idx, bracket_size) := SizeToIndexAndBracketSize size in numOfSlots idx * bracket_size.

(** ** Memory *)
Definition ld (m : gmap Z Z) (a : Z) : Z := default 0 (m !! a).
Definition st (m : gmap Z Z) (a v : Z) : gmap Z Z := <[a := v]> m.
(** [memset(a, 0, n)], and [madvise(a, n, MADV_DONTNEED)]. *)
Definition zero_range (m : gmap Z Z) (a n : Z) : gmap Z Z := filter (fun kv => ~ (a <= kv.1 < a + n)) m.

(** ** Lists of free slots

    The word at the address of a free slot is its [next_]. *)
Record SlotFreeList := mkFreeList { head_ : Z; tail_ : Z; size_ : Z }.
Definition empty_list : SlotFreeList := mkFreeList 0 0 0.
Definition dcheck {A} (b : bool) (o : outcome A) : outcome A := if b then o else Aborted.

Definition Remove (kUseTail : bool) (l : SlotFreeList) (m : gmap Z Z) : outcome (Z * SlotFreeList * gmap Z Z) :=
  let old_head := head_ l in
  if old_head =? 0 then dcheck (negb kUseTail || (tail_ l =? 0)) (Done (0, l, m))
  else
    dcheck (negb kUseTail || negb (tail_ l =? 0))
      (let old_head_next := ld m old_head in
       Done (old_head,
             mkFreeList old_head_next (if kUseTail && (old_head_next =? 0) then 0 else tail_ l) (u32 (size_ l - 1)),
             st m old_head 0)).
Definition Add (kUseTail : bool) (slot : Z) (l : SlotFreeList) (m : gmap Z Z) : outcome (SlotFreeList * gmap Z Z) :=
  dcheck (negb (slot =? 0) && (ld m slot =? 0))
    (let old_head := head_ l in
     if old_head =? 0 then
       dcheck (negb kUseTail || (tail_ l =? 0))
         (Done (mkFreeList slot (if kUseTail then slot else tail_ l) (u32 (size_ l + 1)), m))
     else
       dcheck (negb kUseTail || negb (tail_ l =? 0))
         (Done (mkFreeList slot (tail_ l) (u32 (size_ l + 1)), st m slot old_head))).
(** [Merge]; the list that is merged in is [empty_list] afterwards. *)
Definition Merge (kUseTail : bool) (list l : SlotFreeList) (m : gmap Z Z) : outcome (SlotFreeList * SlotFreeList * gmap Z Z) :=
  if size_ list =? 0 then Done (l, list, m)
  else
    let old_head := head_ l in
    if old_head =? 0 then
      Done (mkFreeList (head_ list) (if kUseTail then tail_ list else tail_ l) (size_ list), empty_list, m)
    else
      dcheck (negb (head_ list =? 0) && negb (tail_ list =? 0))
        (Done (mkFreeList (head_ list) (tail_ l) (u32 (size_ l + size_ list)), empty_list, st m (tail_ list) old_head)).

(** ** Pages

    The members that [lock_] guards, and the words of the heap.  [page_map_] is
    zeroed memory: an entry that is absent is [kPageMapReleased]. *)
Inductive PageMapKind :=
| kPageMapReleased | kPageMapEmpty | kPageMapRun | kPageMapRunPart | kPageMapLargeObject | kPageMapLargeObjectPart.
#[export] Instance PageMapKind_eq_dec : EqDecision PageMapKind.
Proof. solve_decision. Defined.
Inductive PageReleaseMode :=
| kPageReleaseModeNone | kPageReleaseModeEnd | kPageReleaseModeSize | kPageReleaseModeSizeAndEnd | kPageReleaseModeAll.
#[export] Instance PageReleaseMode_eq_dec : EqDecision PageReleaseMode.
Proof. solve_decision. Defined.

Record Pages := mkPages {
  base_ : Z;
  footprint_ : Z;
  capacity_ : Z;
  max_capacity_ : Z;
  free_page_runs_ : list Z;                (* std::set, in the order of the addresses *)
  page_map_ : gmap Z PageMapKind;
  page_map_size_ : Z;
  free_page_run_size_map_ : list Z;        (* std::vector *)
  page_release_mode_ : PageReleaseMode;
  page_release_size_threshold_ : Z;
  words : gmap Z Z
}.
Definition with_footprint (x : Z) (p : Pages) : Pages :=
  mkPages (base_ p) x (capacity_ p) (max_capacity_ p) (free_page_runs_ p) (page_map_ p) (page_map_size_ p)
    (free_page_run_size_map_ p) (page_release_mode_ p) (page_release_size_threshold_ p) (words p).
Definition with_capacity (x : Z) (p : Pages) : Pages :=
  mkPages (base_ p) (footprint_ p) x (max_capacity_ p) (free_page_runs_ p) (page_map_ p) (page_map_size_ p)
    (free_page_run_size_map_ p) (page_release_mode_ p) (page_release_size_threshold_ p) (words p).
Definition with_free_runs (x : list Z) (p : Pages) : Pages :=
  mkPages (base_ p) (footprint_ p) (capacity_ p) (max_capacity_ p) x (page_map_ p) (page_map_size_ p)
    (free_page_run_size_map_ p) (page_release_mode_ p) (page_release_size_threshold_ p) (words p).
Definition with_page_map (x : gmap Z PageMapKind) (p : Pages) : Pages :=
  mkPages (base_ p) (footprint_ p) (capacity_ p) (max_capacity_ p) (free_page_runs_ p) x (page_map_size_ p)
    (free_page_run_size_map_ p) (page_release_mode_ p) (page_release_size_threshold_ p) (words p).
Definition with_page_map_size (x : Z) (p : Pages) : Pages :=
  mkPages (base_ p) (footprint_ p) (capacity_ p) (max_capacity_ p) (free_page_runs_ p) (page_map_ p) x
    (free_page_run_size_map_ p) (page_release_mode_ p) (page_release_size_threshold_ p) (words p).
Definition with_size_map (x : list Z) (p : Pages) : Pages :=
  mkPages (base_ p) (footprint_ p) (capacity_ p) (max_capacity_ p) (free_page_runs_ p) (page_map_ p) (page_map_size_ p)
    x (page_release_mode_ p) (page_release_size_threshold_ p) (words p).
Definition with_words (x : gmap Z Z) (p : Pages) : Pages :=
  mkPages (base_ p) (footprint_ p) (capacity_ p) (max_capacity_ p) (free_page_runs_ p) (page_map_ p) (page_map_size_ p)
    (free_page_run_size_map_ p) (page_release_mode_ p) (page_release_size_threshold_ p) x.

(** [std::set] of pointers. *)
Fixpoint set_insert (x : Z) (l : list Z) : list Z :=
  match l with
  | [] => [x]
  | y :: l => if x <? y then x :: y :: l else if x =? y then y :: l else y :: set_insert x l
  end.
Definition set_erase (x : Z) (l : list Z) : list Z := filter (fun y => y <> x) l.

Definition pm (p : Pages) (i : Z) : PageMapKind := default kPageMapReleased (page_map_ p !! i).
Definition set_pm (i : Z) (k : PageMapKind) : M Pages unit := modify (fun p => with_page_map (<[i := k]> (page_map_ p)) p).
Definition IsFreePage (p : Pages) (idx : Z) : bool :=
  match pm p idx with kPageMapReleased | kPageMapEmpty => true | _ => false end.
Definition ToPageMapIndex (addr : Z) : M Pages Z :=
  ok ← gets (fun p => (base_ p <=? addr) && (addr <? base_ p + capacity_ p) && ((addr - base_ p) mod kPageSize =? 0));
  check ok;;
  gets (fun p => (addr - base_ p) / kPageSize).
Definition RoundDownToPageMapIndex (addr : Z) : M Pages Z :=
  ok ← gets (fun p => (base_ p <=? addr) && (addr <? base_ p + capacity_ p));
  check ok;;
  gets (fun p => (addr - base_ p) / kPageSize).

(** *** Runs of free pages *)
Definition ByteSize (fpr : Z) : M Pages Z :=
  pm_idx ← ToPageMapIndex fpr;
  size ← gets (fun p => free_page_run_size_map_ p !! Z.to_nat pm_idx);
  match size with Some byte_size => check (byte_size mod kPageSize =? 0);; mret byte_size | None => fault end.
Definition SetByteSize (fpr byte_size : Z) : M Pages unit :=
  check (byte_size mod kPageSize =? 0);;
  pm_idx ← ToPageMapIndex fpr;
  ok ← gets (fun p => pm_idx <? Z.of_nat (length (free_page_run_size_map_ p)));
  if (ok : bool)
  then modify (fun p => with_size_map (<[Z.to_nat pm_idx := byte_size]> (free_page_run_size_map_ p)) p) else fault.
Definition End_ (fpr : Z) : M Pages Z := byte_size ← ByteSize fpr; mret (fpr + byte_size).
Definition erase_free_run (fpr : Z) : M Pages unit := modify (fun p => with_free_runs (set_erase fpr (free_page_runs_ p)) p).
Definition insert_free_run (fpr : Z) : M Pages unit := modify (fun p => with_free_runs (set_insert fpr (free_page_runs_ p)) p).
Definition is_free_run (p : Pages) (fpr : Z) : bool := bool_decide (fpr ∈ free_page_runs_ p).

Definition DoesReleaseAllPages (p : Pages) : bool := bool_decide (page_release_mode_ p = kPageReleaseModeAll).
Definition ShouldReleasePages (fpr : Z) : M Pages bool :=
  byte_size ← ByteSize fpr;
  p ← gets id;
  let IsLargerThanPageReleaseThreshold := page_release_size_threshold_ p <=? byte_size in
  let IsAtEndOfSpace := fpr + byte_size =? base_ p + footprint_ p in
  mret match page_release_mode_ p with
       | kPageReleaseModeNone => false
       | kPageReleaseModeEnd => IsAtEndOfSpace
       | kPageReleaseModeSize => IsLargerThanPageReleaseThreshold
       | kPageReleaseModeSizeAndEnd => IsLargerThanPageReleaseThreshold && IsAtEndOfSpace
       | kPageReleaseModeAll => true
       end.
(** The loop of [ReleasePageRange] over [n] pages from [pm_idx]: the bytes
    reclaimed. *)
Fixpoint release_pages (n : nat) (pm_idx : Z) : M Pages Z :=
  match n with
  | O => mret 0
  | S n =>
      ok ← gets (fun p => IsFreePage p pm_idx);
      check ok;;
      k ← gets (fun p => pm p pm_idx);
      bytes ← if bool_decide (k = kPageMapEmpty) then set_pm pm_idx kPageMapReleased;; mret kPageSize else mret 0;
      rest ← release_pages n (pm_idx + 1);
      mret (bytes + rest)
  end.
Definition ReleasePageRange (start end_ : Z) : M Pages Z :=
  check ((start <? end_) && (start mod kPageSize =? 0) && (end_ mod kPageSize =? 0));;
  modify (fun p => with_words (zero_range (words p) start (end_ - start)) p);;
  pm_idx ← ToPageMapIndex start;
  release_pages (Z.to_nat ((end_ - start) / kPageSize)) pm_idx.
Definition FreePageRun_ReleasePages (fpr : Z) : M Pages unit :=
  byte_size ← ByteSize fpr;
  release ← ShouldReleasePages fpr;
  when release (ReleasePageRange fpr (fpr + byte_size);; mret tt).

(** *** [AllocPages] *)
(** The lowest run of free pages that is large enough. *)
Fixpoint find_free_run (req_byte_size : Z) (l : list Z) : M Pages (option Z) :=
  match l with
  | [] => mret None
  | fpr :: l =>
      fpr_byte_size ← ByteSize fpr;
      if req_byte_size <=? fpr_byte_size then mret (Some fpr) else find_free_run req_byte_size l
  end.
(** Its removal, with what remains of it. *)
Definition take_free_run (fpr req_byte_size : Z) : M Pages unit :=
  fpr_byte_size ← ByteSize fpr;
  erase_free_run fpr;;
  when (req_byte_size <? fpr_byte_size)
    (let remainder := fpr + req_byte_size in
     SetByteSize remainder (fpr_byte_size - req_byte_size);;
     insert_free_run remainder;;
     SetByteSize fpr req_byte_size).
Definition resize (n : Z) (l : list Z) : list Z := list.resize (Z.to_nat n) 0 l.
(** The size of the run of free pages at the end of the footprint, or 0. *)
Definition last_free_run_size : M Pages Z :=
  l ← gets (fun p => last (free_page_runs_ p));
  match l with
  | Some last_free_page_run =>
      e ← End_ last_free_page_run;
      at_end ← gets (fun p => e =? base_ p + footprint_ p);
      if (at_end : bool) then
        pm_idx ← ToPageMapIndex last_free_page_run;
        ok ← gets (fun p => IsFreePage p pm_idx);
        check ok;;
        ByteSize last_free_page_run
      else mret 0
  | None => mret 0
  end.
(** The growth of the footprint by [increment]. *)
Definition grow (last_free_page_run_size increment : Z) : M Pages unit :=
  check (increment mod kPageSize =? 0);;
  p ← gets id;
  let new_footprint := footprint_ p + increment in
  let new_num_of_pages := new_footprint / kPageSize in
  check ((page_map_size_ p <? new_num_of_pages) && (Z.of_nat (length (free_page_run_size_map_ p)) <? new_num_of_pages)
         && (new_num_of_pages <=? max_capacity_ p / kPageSize));;
  modify (with_page_map_size new_num_of_pages);;
  modify (fun p => with_size_map (resize new_num_of_pages (free_page_run_size_map_ p)) p);;
  (if 0 <? last_free_page_run_size then
     match last (free_page_runs_ p) with
     | Some last_free_page_run => SetByteSize last_free_page_run (last_free_page_run_size + increment)
     | None => fault
     end
   else
     let new_free_page_run := base_ p + footprint_ p in
     SetByteSize new_free_page_run increment;;
     insert_free_run new_free_page_run);;
  check (new_footprint <=? capacity_ p);;
  modify (with_footprint new_footprint).
Definition grow_and_take (req_byte_size : Z) : M Pages (option Z) :=
  p ← gets id;
  if footprint_ p <? capacity_ p then
    last_free_page_run_size ← last_free_run_size;
    check (last_free_page_run_size <? req_byte_size);;
    if req_byte_size <=? capacity_ p - footprint_ p + last_free_page_run_size then
      let increment := Z.min (Z.max (2 * MB) (req_byte_size - last_free_page_run_size)) (capacity_ p - footprint_ p) in
      grow last_free_page_run_size increment;;
      l ← gets (fun p => last (free_page_runs_ p));
      match l with
      | Some fpr =>
          fpr_byte_size ← ByteSize fpr;
          check (req_byte_size <=? fpr_byte_size);;
          take_free_run fpr req_byte_size;;
          mret (Some fpr)
      | None => fault
      end
    else mret None
  else mret None.
Fixpoint set_pages (n : nat) (i : Z) (k : PageMapKind) : M Pages unit :=
  match n with O => mret tt | S n => set_pm i k;; set_pages n (i + 1) k end.
Definition all_free_pages (p : Pages) (i n : Z) : bool := forallb (IsFreePage p) (seqZ i n).
(** The end of [AllocPages], once the pages have been found. *)
Definition mark_pages (num_pages : Z) (page_map_type : PageMapKind) (res : Z) : M Pages (option Z) :=
  page_map_idx ← ToPageMapIndex res;
  ok ← gets (fun p => all_free_pages p page_map_idx num_pages);
  check ok;;
  (match page_map_type with
   | kPageMapRun =>
       set_pm page_map_idx kPageMapRun;; set_pages (Z.to_nat (num_pages - 1)) (page_map_idx + 1) kPageMapRunPart
   | kPageMapLargeObject =>
       set_pm page_map_idx kPageMapLargeObject;;
       set_pages (Z.to_nat (num_pages - 1)) (page_map_idx + 1) kPageMapLargeObjectPart
   | _ => abort
   end);;
  mret (Some res).
Definition AllocPages (num_pages : Z) (page_map_type : PageMapKind) : M Pages (option Z) :=
  let req_byte_size := num_pages * kPageSize in
  l ← gets free_page_runs_;
  found ← find_free_run req_byte_size l;
  res ← match found with
        | Some fpr => take_free_run fpr req_byte_size;; mret (Some fpr)
        | None => grow_and_take req_byte_size
        end;
  match res with
  | None => mret None
  | Some res => mark_pages num_pages page_map_type res
  end.

(** *** [FreePages] *)
(** The loop over the pages from [idx] on that are [part]; [n] is the number of
    pages that are left in the page map. *)
Fixpoint free_parts (n : nat) (idx : Z) (part : PageMapKind) : M Pages Z :=
  match n with
  | O => mret 0
  | S n =>
      k ← gets (fun p => pm p idx);
      if bool_decide (k = part) then
        set_pm idx kPageMapEmpty;; num ← free_parts n (idx + 1) part; mret (num + 1)
      else mret 0
  end.
(** The runs above [fpr], in increasing order, and below it, in decreasing
    order. *)
Fixpoint coalesce_higher (fpr : Z) (higher : list Z) : M Pages unit :=
  match higher with
  | [] => mret tt
  | h :: higher =>
      e ← End_ fpr;
      if e =? h then
        erase_free_run h;;
        a ← ByteSize fpr; b ← ByteSize h;
        SetByteSize fpr (a + b);;
        coalesce_higher fpr higher
      else mret tt
  end.
Fixpoint coalesce_lower (fpr : Z) (lower : list Z) : M Pages Z :=
  match lower with
  | [] => mret fpr
  | l :: lower =>
      e ← End_ l;
      if e =? fpr then
        erase_free_run l;;
        a ← ByteSize l; b ← ByteSize fpr;
        SetByteSize l (a + b);;
        coalesce_lower l lower
      else mret fpr
  end.
(** The end of [FreePages]: the merged run of free pages is inserted. *)
Definition insert_freed (ptr : Z) : M Pages unit :=
  present ← gets (fun p => is_free_run p ptr);
  check (negb present);;
  higher ← gets (fun p => filter (fun x => ptr < x) (free_page_runs_ p));
  coalesce_higher ptr higher;;
  lower ← gets (fun p => rev (filter (fun x => x <= ptr) (free_page_runs_ p)));
  fpr ← coalesce_lower ptr lower;
  present ← gets (fun p => is_free_run p fpr);
  check (negb present);;
  FreePageRun_ReleasePages fpr;;
  insert_free_run fpr.
Definition FreePages (ptr : Z) (already_zero : bool) : M Pages Z :=
  pm_idx ← ToPageMapIndex ptr;
  ok ← gets (fun p => pm_idx <? page_map_size_ p);
  check ok;;
  k ← gets (fun p => pm p pm_idx);
  pm_part_type ← match k with
                 | kPageMapRun => mret kPageMapRunPart
                 | kPageMapLargeObject => mret kPageMapLargeObjectPart
                 | _ => abort
                 end;
  set_pm pm_idx kPageMapEmpty;;
  n ← gets (fun p => Z.to_nat (page_map_size_ p - (pm_idx + 1)));
  parts ← free_parts n (pm_idx + 1) pm_part_type;
  let byte_size := (parts + 1) * kPageSize in
  all ← gets DoesReleaseAllPages;
  when (negb already_zero && negb all) (modify (fun p => with_words (zero_range (words p) ptr byte_size) p));;
  SetByteSize ptr byte_size;;
  insert_freed ptr;;
  mret byte_size.

(** *** The footprint *)
Definition Trim : M Pages bool :=
  l ← gets (fun p => last (free_page_runs_ p));
  match l with
  | None => mret false
  | Some last_free_page_run =>
      e ← End_ last_free_page_run;
      at_end ← gets (fun p => e =? base_ p + footprint_ p);
      if (at_end : bool) then
        pm_idx ← ToPageMapIndex last_free_page_run;
        ok ← gets (fun p => IsFreePage p pm_idx);
        check ok;;
        erase_free_run last_free_page_run;;
        decrement ← ByteSize last_free_page_run;
        new_footprint ← gets (fun p => footprint_ p - decrement);
        let new_num_of_pages := new_footprint / kPageSize in
        ok ← gets (fun p => (new_footprint mod kPageSize =? 0) && (new_num_of_pages <=? page_map_size_ p));
        check ok;;
        modify (fun p => with_page_map (filter (fun kv => kv.1 < new_num_of_pages) (page_map_ p)) p);;
        modify (with_page_map_size new_num_of_pages);;
        modify (fun p => with_size_map (resize new_num_of_pages (free_page_run_size_map_ p)) p);;
        ok ← gets (fun p => (new_footprint <? footprint_ p) && (new_footprint <? capacity_ p));
        check ok;;
        modify (with_footprint new_footprint);;
        mret true
      else mret false
  end.
Definition SetFootprintLimit (new_capacity : Z) : M Pages unit :=
  check (RoundUp new_capacity kPageSize =? new_capacity);;
  p ← gets id;
  when (capacity_ p <? new_capacity)
    (check (new_capacity <=? max_capacity_ p);; modify (with_capacity new_capacity)).
(** [ReleasePages]: every round advances [i], so that a round for every page is
    enough. *)
Fixpoint release_from (fuel : nat) (i : Z) : M Pages Z :=
  match fuel with
  | O => fun _ => Diverged
  | S fuel =>
      p ← gets id;
      if i <? page_map_size_ p then
        let fpr := base_ p + i * kPageSize in
        if IsFreePage p i && is_free_run p fpr then
          fpr_size ← ByteSize fpr;
          bytes ← ReleasePageRange fpr (fpr + fpr_size);
          let pages := fpr_size / kPageSize in
          check (0 <? pages);;
          check (i + pages <=? page_map_size_ p);;
          rest ← release_from fuel (i + pages);
          mret (bytes + rest)
        else release_from fuel (i + 1)
      else mret 0
  end.
Definition ReleasePages : M Pages Z :=
  all ← gets DoesReleaseAllPages;
  check (negb all);;
  n ← gets (fun p => Z.to_nat (page_map_size_ p));
  release_from (S n) 0.

(** ** Runs *)
Record Run := mkRun {
  size_bracket_idx_ : Z;
  is_thread_local_ : bool;
  to_be_bulk_freed_ : bool;
  free_list_ : SlotFreeList;
  bulk_free_list_ : SlotFreeList;
  thread_local_free_list_ : SlotFreeList
}.
Definition zero_run : Run := mkRun 0 false false empty_list empty_list empty_list.
Definition with_idx (x : Z) (r : Run) : Run :=
  mkRun x (is_thread_local_ r) (to_be_bulk_freed_ r) (free_list_ r) (bulk_free_list_ r) (thread_local_free_list_ r).
Definition SetIsThreadLocal (x : bool) (r : Run) : Run :=
  mkRun (size_bracket_idx_ r) x (to_be_bulk_freed_ r) (free_list_ r) (bulk_free_list_ r) (thread_local_free_list_ r).
Definition with_bulk_freed (x : bool) (r : Run) : Run :=
  mkRun (size_bracket_idx_ r) (is_thread_local_ r) x (free_list_ r) (bulk_free_list_ r) (thread_local_free_list_ r).
Definition with_free_list (x : SlotFreeList) (r : Run) : Run :=
  mkRun (size_bracket_idx_ r) (is_thread_local_ r) (to_be_bulk_freed_ r) x (bulk_free_list_ r) (thread_local_free_list_ r).
Definition with_bulk_list (x : SlotFreeList) (r : Run) : Run :=
  mkRun (size_bracket_idx_ r) (is_thread_local_ r) (to_be_bulk_freed_ r) (free_list_ r) x (thread_local_free_list_ r).
Definition with_thread_list (x : SlotFreeList) (r : Run) : Run :=
  mkRun (size_bracket_idx_ r) (is_thread_local_ r) (to_be_bulk_freed_ r) (free_list_ r) (bulk_free_list_ r) x.
Definition NumberOfFreeSlots (r : Run) : Z := size_ (free_list_ r).
Definition IsFull (r : Run) : bool := size_ (free_list_ r) =? 0.
Definition IsAllFree (r : Run) : bool := size_ (free_list_ r) =? numOfSlots (size_bracket_idx_ r).
Definition FirstSlot (run : Z) (r : Run) : Z := run + headerSizes (size_bracket_idx_ r).
Definition Run_End (run : Z) (r : Run) : Z := run + kPageSize * numOfPages (size_bracket_idx_ r).
Definition LastSlot (run : Z) (r : Run) : Z := Run_End run r - bracketSizes (size_bracket_idx_ r).
(** The dedicated full run. *)
Definition dedicated_full_run : Run := SetIsThreadLocal true zero_run.

(** [current_runs_] and the threads' runs have the dedicated full run where
    they have no entry; [thread_runs] is [GetRosAllocRun] of the threads.  The
    headers of the runs are [runs]. *)
Record RosAlloc := mkRosAlloc {
  pages : Pages;
  non_full_runs_ : gmap Z (list Z);        (* std::set, in the order of the addresses *)
  current_runs_ : gmap Z Z;
  thread_runs : gmap (Z * Z) Z;
  runs : gmap Z Run
}.
Definition with_pages (x : Pages) (s : RosAlloc) : RosAlloc :=
  mkRosAlloc x (non_full_runs_ s) (current_runs_ s) (thread_runs s) (runs s).
Definition with_non_full (x : gmap Z (list Z)) (s : RosAlloc) : RosAlloc :=
  mkRosAlloc (pages s) x (current_runs_ s) (thread_runs s) (runs s).
Definition with_current (x : gmap Z Z) (s : RosAlloc) : RosAlloc :=
  mkRosAlloc (pages s) (non_full_runs_ s) x (thread_runs s) (runs s).
Definition with_thread_runs (x : gmap (Z * Z) Z) (s : RosAlloc) : RosAlloc :=
  mkRosAlloc (pages s) (non_full_runs_ s) (current_runs_ s) x (runs s).
Definition with_runs (x : gmap Z Run) (s : RosAlloc) : RosAlloc :=
  mkRosAlloc (pages s) (non_full_runs_ s) (current_runs_ s) (thread_runs s) x.

Definition in_pages {A} (f : M Pages A) : M RosAlloc A :=
  fun s => '(a, p) ← f (pages s); Done (a, with_pages p s).
Definition get_run (run : option Z) : M RosAlloc Run :=
  match run with
  | None => mret dedicated_full_run
  | Some run => r ← gets (fun s => runs s !! run); match r with Some r => mret r | None => fault end
  end.
Definition set_run (run : Z) (r : Run) : M RosAlloc unit := modify (fun s => with_runs (<[run := r]> (runs s)) s).
Definition non_full (s : RosAlloc) (idx : Z) : list Z := default [] (non_full_runs_ s !! idx).
Definition is_non_full (s : RosAlloc) (idx run : Z) : bool := bool_decide (run ∈ non_full s idx).
Definition insert_non_full (idx run : Z) : M RosAlloc unit :=
  modify (fun s => with_non_full (<[idx := set_insert run (non_full s idx)]> (non_full_runs_ s)) s).
Definition erase_non_full (idx run : Z) : M RosAlloc unit :=
  modify (fun s => with_non_full (<[idx := set_erase run (non_full s idx)]> (non_full_runs_ s)) s).
Definition set_current (idx : Z) (run : option Z) : M RosAlloc unit :=
  modify (fun s => with_current (partial_alter (fun _ => run) idx (current_runs_ s)) s).
Definition SetRosAllocRun (self idx : Z) (run : option Z) : M RosAlloc unit :=
  modify (fun s => with_thread_runs (partial_alter (fun _ => run) (self, idx) (thread_runs s)) s).

(** An operation on a free list of a run and on the words. *)
Definition on_words {A} (f : gmap Z Z -> outcome (A * gmap Z Z)) : M RosAlloc A :=
  fun s => '(a, m) ← f (words (pages s)); Done (a, with_pages (with_words m (pages s)) s).

(** *** Slots *)
(** [ToSlot]: the slot's address. *)
Definition ToSlot (run : Z) (r : Run) (ptr : Z) : M RosAlloc Z :=
  let bracket_size := bracketSizes (size_bracket_idx_ r) in
  let offset_from_slot_base := ptr - FirstSlot run r in
  check ((offset_from_slot_base mod bracket_size =? 0)
         && (0 <=? offset_from_slot_base) && (offset_from_slot_base / bracket_size <? numOfSlots (size_bracket_idx_ r)));;
  mret ptr.
(** [AllocSlot]; the dedicated full run has no slots. *)
Definition AllocSlot (run : option Z) : M RosAlloc Z :=
  r ← get_run run;
  '(slot, l) ← on_words (fun m => '(slot, l, m) ← Remove false (free_list_ r) m; Done ((slot, l), m));
  match run with Some run => set_run run (with_free_list l r);; mret slot | None => mret slot end.
Definition zero_slot (slot bracket_size : Z) : M RosAlloc unit :=
  on_words (fun m => Done (tt, zero_range m slot bracket_size)).
Definition FreeSlot (run ptr : Z) : M RosAlloc unit :=
  r ← get_run (Some run);
  check (negb (is_thread_local_ r));;
  slot ← ToSlot run r ptr;
  zero_slot slot (bracketSizes (size_bracket_idx_ r));;
  l ← on_words (Add false slot (free_list_ r));
  set_run run (with_free_list l r).
Definition AddToThreadLocalFreeList (run ptr : Z) : M RosAlloc unit :=
  r ← get_run (Some run);
  check (is_thread_local_ r);;
  slot ← ToSlot run r ptr;
  zero_slot slot (bracketSizes (size_bracket_idx_ r));;
  l ← on_words (Add true slot (thread_local_free_list_ r));
  set_run run (with_thread_list l r).
Definition AddToBulkFreeList (run ptr : Z) : M RosAlloc Z :=
  r ← get_run (Some run);
  let bracket_size := bracketSizes (size_bracket_idx_ r) in
  slot ← ToSlot run r ptr;
  zero_slot slot bracket_size;;
  l ← on_words (Add true slot (bulk_free_list_ r));
  set_run run (with_bulk_list l r);;
  mret bracket_size.
(** [MergeThreadLocalFreeListToFreeList]: whether a slot was added. *)
Definition MergeThreadLocalFreeListToFreeList (run : option Z) : M RosAlloc bool :=
  r ← get_run run;
  check (is_thread_local_ r);;
  let size_before := size_ (free_list_ r) in
  '(l, tl) ← on_words (fun m => '(l, tl, m) ← Merge false (thread_local_free_list_ r) (free_list_ r) m; Done ((l, tl), m));
  let size_after := size_ l in
  check (bool_decide (size_before < size_after <-> 0 < size_ (thread_local_free_list_ r)) && (size_before <=? size_after));;
  match run with
  | Some run => set_run run (with_thread_list tl (with_free_list l r));; mret (size_before <? size_after)
  | None => mret (size_before <? size_after)
  end.
Definition MergeBulkFreeListToFreeList (run : Z) : M RosAlloc unit :=
  r ← get_run (Some run);
  check (negb (is_thread_local_ r));;
  '(l, bl) ← on_words (fun m => '(l, bl, m) ← Merge false (bulk_free_list_ r) (free_list_ r) m; Done ((l, bl), m));
  set_run run (with_bulk_list bl (with_free_list l r)).
Definition MergeBulkFreeListToThreadLocalFreeList (run : Z) : M RosAlloc unit :=
  r ← get_run (Some run);
  check (is_thread_local_ r);;
  '(l, bl) ← on_words (fun m => '(l, bl, m) ← Merge true (bulk_free_list_ r) (thread_local_free_list_ r) m; Done ((l, bl), m));
  set_run run (with_bulk_list bl (with_thread_list l r)).
(** [InitFreeList]: a round for every slot, and one more to stop. *)
Fixpoint init_slots (fuel : nat) (slot first_slot bracket_size : Z) (l : SlotFreeList) (m : gmap Z Z) :
    outcome (SlotFreeList * gmap Z Z) :=
  match fuel with
  | O => Diverged
  | S fuel =>
      if first_slot <=? slot then
        '(l, m) ← Add false slot l m;
        init_slots fuel (slot - bracket_size) first_slot bracket_size l m
      else Done (l, m)
  end.
Definition InitFreeList (run : Z) : M RosAlloc unit :=
  r ← get_run (Some run);
  check (FirstSlot run r <=? LastSlot run r);;
  l ← on_words (init_slots (S (Z.to_nat (numOfSlots (size_bracket_idx_ r)))) (LastSlot run r) (FirstSlot run r)
                  (bracketSizes (size_bracket_idx_ r)) (free_list_ r));
  set_run run (with_free_list l r).
(** [ZeroHeaderAndSlotHeaders]: the slots of the list from [slot] on, and then
    the header. *)
Fixpoint clear_slots (fuel : nat) (slot : Z) (m : gmap Z Z) : outcome (gmap Z Z) :=
  match fuel with
  | O => Diverged
  | S fuel => if slot =? 0 then Done m else clear_slots fuel (ld m slot) (st m slot 0)
  end.
Definition ZeroHeaderAndSlotHeaders (run : Z) : M RosAlloc unit :=
  r ← get_run (Some run);
  check (IsAllFree r);;
  on_words (fun m => m ← clear_slots (S (Z.to_nat (size_ (free_list_ r)))) (head_ (free_list_ r)) m; Done (tt, m));;
  modify (fun s => with_runs (delete run (runs s)) s).

(** ** Allocation *)
(** What [Alloc] returns: the address, and its out parameters
    [bytes_allocated], [usable_size] and [bytes_tl_bulk_allocated]. *)
Record allocation := mkAllocation { alloc_addr : Z; bytes_allocated : Z; usable_size : Z; bytes_tl_bulk_allocated : Z }.

Definition AllocLargeObject (size : Z) : M RosAlloc (option allocation) :=
  check (kLargeSizeThreshold <? size);;
  let num_pages := RoundUp size kPageSize / kPageSize in
  r ← in_pages (AllocPages num_pages kPageMapLargeObject);
  let total_bytes := num_pages * kPageSize in
  mret ((fun r => mkAllocation r total_bytes total_bytes total_bytes) <$> r).
Definition AllocRun (idx : Z) : M RosAlloc (option Z) :=
  new_run ← in_pages (AllocPages (numOfPages idx) kPageMapRun);
  match new_run with
  | None => mret None
  | Some new_run =>
      r ← gets (fun s => default zero_run (runs s !! new_run));
      let r := with_idx idx r in
      check (negb (is_thread_local_ r) && negb (to_be_bulk_freed_ r));;
      set_run new_run r;;
      InitFreeList new_run;;
      mret (Some new_run)
  end.
Definition RefillRun (idx : Z) : M RosAlloc (option Z) :=
  bt ← gets (fun s => non_full s idx);
  match bt with
  | non_full_run :: _ =>
      r ← get_run (Some non_full_run);
      check (negb (is_thread_local_ r));;
      erase_non_full idx non_full_run;;
      mret (Some non_full_run)
  | [] => AllocRun idx
  end.
(** The slot from a run that has just been refilled. *)
Definition alloc_refilled (idx run : Z) (thread_local : bool) : M RosAlloc Z :=
  r ← get_run (Some run);
  present ← gets (fun s => is_non_full s idx run);
  check (negb present);;
  set_run run (SetIsThreadLocal thread_local r);;
  check (negb (IsFull r));;
  mret (NumberOfFreeSlots r).
Definition AllocFromCurrentRunUnlocked (idx : Z) : M RosAlloc Z :=
  current_run ← gets (fun s => current_runs_ s !! idx);
  slot_addr ← AllocSlot current_run;
  if slot_addr =? 0 then
    r ← get_run current_run;
    check (IsFull r);;
    current_run ← RefillRun idx;
    match current_run with
    | None => set_current idx None;; mret 0
    | Some run =>
        alloc_refilled idx run false;;
        set_current idx (Some run);;
        slot_addr ← AllocSlot (Some run);
        check (negb (slot_addr =? 0));;
        mret slot_addr
    end
  else mret slot_addr.
Definition AllocFromRunThreadUnsafe (size : Z) : M RosAlloc (option allocation) :=
  check (size <=? kLargeSizeThreshold);;
  let '(idx, bracket_size) := SizeToIndexAndBracketSize size in
  slot_addr ← AllocFromCurrentRunUnlocked idx;
  mret (if slot_addr =? 0 then None else Some (mkAllocation slot_addr bracket_size bracket_size bracket_size)).
(** The thread's full run is dropped. *)
Definition drop_thread_run (idx : Z) (thread_local_run : option Z) : M RosAlloc unit :=
  match thread_local_run with
  | None => mret tt
  | Some run =>
      r ← get_run (Some run);
      check (IsFull r);;
      present ← gets (fun s => is_non_full s idx run);
      check (negb present);;
      set_run run (SetIsThreadLocal false r)
  end.
(** The refill of the thread's run in [AllocFromRun], once the run is full:
    whether there is a run, and its number of free slots. *)
Definition refill_thread_run (self idx : Z) (thread_local_run : option Z) : M RosAlloc (option (Z * Z)) :=
  r ← get_run thread_local_run;
  check (IsFull r);;
  merged ← MergeThreadLocalFreeListToFreeList thread_local_run;
  if (merged : bool) then
    match thread_local_run with
    | None => abort
    | Some run => r ← get_run (Some run); check (negb (IsFull r));; mret (Some (run, NumberOfFreeSlots r))
    end
  else
    drop_thread_run idx thread_local_run;;
    thread_local_run ← RefillRun idx;
    match thread_local_run with
    | None => SetRosAllocRun self idx None;; mret None
    | Some run =>
        n ← alloc_refilled idx run true;
        SetRosAllocRun self idx (Some run);;
        mret (Some (run, n))
    end.
Definition AllocFromRun (self size : Z) : M RosAlloc (option allocation) :=
  check (size <=? kLargeSizeThreshold);;
  let '(idx, bracket_size) := SizeToIndexAndBracketSize size in
  if idx <? kNumThreadLocalSizeBrackets then
    thread_local_run ← gets (fun s => thread_runs s !! (self, idx));
    r ← get_run thread_local_run;
    check (is_thread_local_ r);;
    slot_addr ← AllocSlot thread_local_run;
    if slot_addr =? 0 then
      refilled ← refill_thread_run self idx thread_local_run;
      match refilled with
      | None => mret None
      | Some (run, n) =>
          slot_addr ← AllocSlot (Some run);
          check (negb (slot_addr =? 0));;
          mret (Some (mkAllocation slot_addr bracket_size bracket_size (n * bracket_size)))
      end
    else mret (Some (mkAllocation slot_addr bracket_size bracket_size 0))
  else
    slot_addr ← AllocFromCurrentRunUnlocked idx;
    mret (if slot_addr =? 0 then None else Some (mkAllocation slot_addr bracket_size bracket_size bracket_size)).
Definition Alloc (kThreadSafe : bool) (self size : Z) : M RosAlloc (option allocation) :=
  if kLargeSizeThreshold <? size then AllocLargeObject size
  else if kThreadSafe then AllocFromRun self size else AllocFromRunThreadUnsafe size.

Definition CanAllocFromThreadLocalRun (self size : Z) : M RosAlloc bool :=
  if negb (IsSizeForThreadLocal size) then mret false
  else
    let '(idx, _) := SizeToIndexAndBracketSize size in
    run ← gets (fun s => thread_runs s !! (self, idx));
    r ← get_run run;
    check (is_thread_local_ r);;
    mret (negb (IsFull r)).
(** The address, or 0, and [bytes_allocated]. *)
Definition AllocFromThreadLocalRun (self size : Z) : M RosAlloc (option (Z * Z)) :=
  if negb (IsSizeForThreadLocal size) then mret None
  else
    let '(idx, bracket_size) := SizeToIndexAndBracketSize size in
    run ← gets (fun s => thread_runs s !! (self, idx));
    r ← get_run run;
    check (is_thread_local_ r);;
    slot_addr ← AllocSlot run;
    mret (if slot_addr =? 0 then None else Some (slot_addr, bracket_size)).

(** ** Release *)
Definition free_run (run : Z) : M RosAlloc unit :=
  ZeroHeaderAndSlotHeaders run;; in_pages (FreePages run true);; mret tt.
Definition FreeFromRun (ptr run : Z) : M RosAlloc Z :=
  r ← get_run (Some run);
  check ((run <? ptr) && (ptr <? Run_End run r));;
  let idx := size_bracket_idx_ r in
  let bracket_size := bracketSizes idx in
  if is_thread_local_ r then
    present ← gets (fun s => is_non_full s idx run);
    check ((idx <? kNumThreadLocalSizeBrackets) && negb present);;
    AddToThreadLocalFreeList run ptr;;
    mret bracket_size
  else
    let run_was_full := IsFull r in
    FreeSlot run ptr;;
    r ← get_run (Some run);
    current ← gets (fun s => bool_decide (current_runs_ s !! idx = Some run));
    (if IsAllFree r then
       erase_non_full idx run;;
       when current (set_current idx None);;
       free_run run
     else
       when (negb current)
         (present ← gets (fun s => is_non_full s idx run);
          when (negb present)
            (check run_was_full;;
             insert_non_full idx run;;
             check (negb (IsFull r)))));;
    mret bracket_size.
(** The beginning of the run that page [pm_idx] is part of. *)
Fixpoint run_start (fuel : nat) (pm_idx : Z) : M RosAlloc Z :=
  match fuel with
  | O => fun _ => Diverged
  | S fuel =>
      k ← gets (fun s => pm (pages s) pm_idx);
      if bool_decide (k = kPageMapRun) then mret pm_idx
      else check (0 <? pm_idx);; run_start fuel (pm_idx - 1)
  end.
(** The run of [ptr], or [None] when it is a large object. *)
Definition run_of (ptr : Z) : M RosAlloc (option Z) :=
  pm_idx ← in_pages (RoundDownToPageMapIndex ptr);
  k ← gets (fun s => pm (pages s) pm_idx);
  match k with
  | kPageMapLargeObject => mret None
  | kPageMapRun | kPageMapRunPart =>
      start ← run_start (S (Z.to_nat pm_idx)) pm_idx;
      gets (fun s => Some (base_ (pages s) + start * kPageSize))
  | _ => abort
  end.
Definition in_footprint (s : RosAlloc) (ptr : Z) : bool :=
  (base_ (pages s) <=? ptr) && (ptr <? base_ (pages s) + footprint_ (pages s)).
Definition FreeInternal (ptr : Z) : M RosAlloc Z :=
  ok ← gets (fun s => in_footprint s ptr);
  check ok;;
  run ← run_of ptr;
  match run with
  | None => in_pages (FreePages ptr false)
  | Some run => FreeFromRun ptr run
  end.
Definition Free (ptr : Z) : M RosAlloc Z := FreeInternal ptr.

(** *** [BulkFree] *)
(** The first loop: the bytes freed, and the runs that have slots to free, in
    the order in which they are found. *)
Fixpoint bulk_collect (ptrs : list Z) (freed_bytes : Z) (found : list Z) : M RosAlloc (Z * list Z) :=
  match ptrs with
  | [] => mret (freed_bytes, found)
  | ptr :: ptrs =>
      ok ← gets (fun s => in_footprint s ptr);
      check ok;;
      run ← run_of ptr;
      match run with
      | None =>
          bytes ← in_pages (FreePages ptr false);
          bulk_collect ptrs (freed_bytes + bytes) found
      | Some run =>
          bytes ← AddToBulkFreeList run ptr;
          r ← get_run (Some run);
          (if to_be_bulk_freed_ r then bulk_collect ptrs (freed_bytes + bytes) found
           else
             set_run run (with_bulk_freed true r);;
             bulk_collect ptrs (freed_bytes + bytes) (found ++ [run]))
      end
  end.
(** The second loop, on one run; [bulk_settle] is its end for a run that is not
    thread local. *)
Definition bulk_settle (run idx : Z) (present run_was_full : bool) : M RosAlloc unit :=
  r ← get_run (Some run);
  run_was_current ← gets (fun s => bool_decide (current_runs_ s !! idx = Some run));
  if IsAllFree r then
    (if (run_was_current : bool) then check (negb present)
     else if run_was_full then mret tt
     else check present;; erase_non_full idx run);;
    when (negb run_was_current) (free_run run)
  else if (run_was_current : bool) then check (negb present)
  else if run_was_full then check (negb present);; insert_non_full idx run
  else check present.
Definition bulk_merge (run : Z) : M RosAlloc unit :=
  r ← get_run (Some run);
  check (to_be_bulk_freed_ r);;
  set_run run (with_bulk_freed false r);;
  let idx := size_bracket_idx_ r in
  present ← gets (fun s => is_non_full s idx run);
  if is_thread_local_ r then
    check ((idx <? kNumThreadLocalSizeBrackets) && negb present);;
    MergeBulkFreeListToThreadLocalFreeList run
  else
    let run_was_full := IsFull r in
    MergeBulkFreeListToFreeList run;;
    bulk_settle run idx present run_was_full.
Definition BulkFree (ptrs : list Z) : M RosAlloc Z :=
  '(freed_bytes, found) ← bulk_collect ptrs 0 [];
  mfor found bulk_merge;;
  mret freed_bytes.

(** *** Revocation of runs *)
Definition RevokeRun (idx run : Z) : M RosAlloc unit :=
  r ← get_run (Some run);
  if IsFull r then mret tt
  else if IsAllFree r then free_run run
  else insert_non_full idx run.
(** The thread's run of one bracket. *)
Definition revoke_thread_run (thread idx : Z) : M RosAlloc Z :=
  thread_local_run ← gets (fun s => thread_runs s !! (thread, idx));
  match thread_local_run with
  | None => mret 0
  | Some run =>
      r ← get_run (Some run);
      check (is_thread_local_ r);;
      SetRosAllocRun thread idx None;;
      let num_free_slots := NumberOfFreeSlots r in
      MergeThreadLocalFreeListToFreeList (Some run);;
      r ← get_run (Some run);
      set_run run (SetIsThreadLocal false r);;
      present ← gets (fun s => is_non_full s idx run);
      check (negb present);;
      RevokeRun idx run;;
      mret (num_free_slots * bracketSizes idx)
  end.
Fixpoint revoke_thread_runs (thread : Z) (idxs : list Z) : M RosAlloc Z :=
  match idxs with
  | [] => mret 0
  | idx :: idxs => bytes ← revoke_thread_run thread idx; rest ← revoke_thread_runs thread idxs; mret (bytes + rest)
  end.
Definition thread_brackets : list Z := seqZ 0 kNumThreadLocalSizeBrackets.
Definition RevokeThreadLocalRuns (thread : Z) : M RosAlloc Z := revoke_thread_runs thread thread_brackets.
Definition revoke_current_run (idx : Z) : M RosAlloc unit :=
  current_run ← gets (fun s => current_runs_ s !! idx);
  match current_run with
  | None => mret tt
  | Some run => RevokeRun idx run;; set_current idx None
  end.
Definition RevokeThreadUnsafeCurrentRuns : M RosAlloc unit := mfor thread_brackets revoke_current_run.
Fixpoint revoke_threads (thread_list : list Z) : M RosAlloc Z :=
  match thread_list with
  | [] => mret 0
  | thread :: thread_list =>
      bytes ← RevokeThreadLocalRuns thread; rest ← revoke_threads thread_list; mret (bytes + rest)
  end.
Definition RevokeAllThreadLocalRuns (thread_list : list Z) : M RosAlloc Z :=
  free_bytes ← revoke_threads thread_list;
  RevokeThreadUnsafeCurrentRuns;;
  mret free_bytes.

(** ** Inspection *)
(** The number of pages from [idx] on that belong to a large object. *)
Fixpoint large_parts (n : nat) (idx : Z) (p : Pages) : Z :=
  match n with
  | O => 0
  | S n => if bool_decide (pm p idx = kPageMapLargeObjectPart) then 1 + large_parts n (idx + 1) p else 0
  end.
Definition large_pages (p : Pages) (i : Z) : Z := 1 + large_parts (Z.to_nat (page_map_size_ p - (i + 1))) (i + 1) p.

Definition UsableSize (ptr : Z) : M RosAlloc Z :=
  ok ← gets (fun s => in_footprint s ptr);
  check ok;;
  run ← run_of ptr;
  match run with
  | None =>
      pm_idx ← in_pages (RoundDownToPageMapIndex ptr);
      gets (fun s => large_pages (pages s) pm_idx * kPageSize)
  | Some run =>
      r ← get_run (Some run);
      check ((ptr - FirstSlot run r) mod bracketSizes (size_bracket_idx_ r) =? 0);;
      mret (bracketSizes (size_bracket_idx_ r))
  end.

(** The slots of a free list from [slot] on. *)
Fixpoint list_slots (fuel : nat) (slot : Z) (m : gmap Z Z) : outcome (list Z) :=
  match fuel with
  | O => Diverged
  | S fuel => if slot =? 0 then Done [] else l ← list_slots fuel (ld m slot) m; Done (slot :: l)
  end.
(** The free slots of a run, as [InspectAllSlots] and [Verify] mark them. *)
Definition free_slots (r : Run) (m : gmap Z Z) : outcome (list Z) :=
  a ← list_slots (S (Z.to_nat (size_ (free_list_ r)))) (head_ (free_list_ r)) m;
  b ← if is_thread_local_ r
      then list_slots (S (Z.to_nat (size_ (thread_local_free_list_ r)))) (head_ (thread_local_free_list_ r)) m
      else Done [];
  Done (a ++ b).
Definition slot_addrs (run idx : Z) : list Z :=
  (fun k => run + headerSizes idx + k * bracketSizes idx) <$> seqZ 0 (numOfSlots idx).
(** The DCHECKs of [SlotIndex] on the slots of the free lists. *)
Definition are_slots (run : Z) (r : Run) (free : list Z) : bool :=
  let bracket_size := bracketSizes (size_bracket_idx_ r) in
  forallb (fun slot => ((slot - FirstSlot run r) mod bracket_size =? 0) && (FirstSlot run r <=? slot)
                       && ((slot - FirstSlot run r) / bracket_size <? numOfSlots (size_bracket_idx_ r))) free.
(** The calls of the handler: start, end and used bytes. *)
Definition InspectAllSlots (run : Z) : M RosAlloc (list (Z * Z * Z)) :=
  r ← get_run (Some run);
  free ← on_words (fun m => l ← free_slots r m; Done (l, m));
  let idx := size_bracket_idx_ r in
  let bracket_size := bracketSizes idx in
  check (are_slots run r free);;
  check (run + headerSizes idx + numOfSlots idx * bracket_size =? run + numOfPages idx * kPageSize);;
  mret ((fun slot_addr => (slot_addr, slot_addr + bracket_size,
           if bool_decide (slot_addr ∈ free) then 0 else bracket_size)) <$> slot_addrs run idx).
Fixpoint inspect_from (fuel : nat) (i : Z) : M RosAlloc (list (Z * Z * Z)) :=
  match fuel with
  | O => fun _ => Diverged
  | S fuel =>
      p ← gets pages;
      if i <? page_map_size_ p then
        let start := base_ p + i * kPageSize in
        '(calls, num_pages) ←
          match pm p i with
          | kPageMapReleased | kPageMapEmpty =>
              check (is_free_run p start);;
              fpr_size ← in_pages (ByteSize start);
              mret ([(start, start + fpr_size, 0)], fpr_size / kPageSize)
          | kPageMapLargeObject =>
              let num_pages := large_pages p i in
              mret ([(start, base_ p + (i + num_pages) * kPageSize, num_pages * kPageSize)], num_pages)
          | kPageMapRun =>
              calls ← InspectAllSlots start;
              r ← get_run (Some start);
              mret (calls, numOfPages (size_bracket_idx_ r))
          | kPageMapLargeObjectPart | kPageMapRunPart => abort
          end;
        check (i + num_pages <=? page_map_size_ p);;
        rest ← inspect_from fuel (i + num_pages);
        mret (calls ++ rest)
      else mret []
  end.
Definition InspectAll : M RosAlloc (list (Z * Z * Z)) :=
  n ← gets (fun s => Z.to_nat (page_map_size_ (pages s)));
  inspect_from (S n) 0.
(** [BytesAllocatedCallback] and [ObjectsAllocatedCallback]. *)
Definition bytes_allocated_in (calls : list (Z * Z * Z)) : Z := sumZ (fun c => c.2) calls.
Definition objects_allocated_in (calls : list (Z * Z * Z)) : Z := sumZ (fun c => if c.2 =? 0 then 0 else 1) calls.

(** *** [Verify]

    The CHECKs of [Verify]; [SizeOf] is the size of the object at an address.
    The first loop gives the runs. *)
Section Verify.
Context (SizeOf : Z -> Z).
Fixpoint verify_pages (fuel : nat) (i : Z) : M RosAlloc (list Z) :=
  match fuel with
  | O => fun _ => Diverged
  | S fuel =>
      p ← gets pages;
      if i <? page_map_size_ p then
        let start := base_ p + i * kPageSize in
        '(found, num_pages) ←
          match pm p i with
          | kPageMapReleased | kPageMapEmpty =>
              check (is_free_run p start);;
              fpr_size ← in_pages (ByteSize start);
              let num_pages := fpr_size / kPageSize in
              check (0 <? num_pages);;
              check (all_free_pages p (i + 1) (num_pages - 1));;
              mret ([], num_pages)
          | kPageMapLargeObject =>
              let num_pages := large_pages p i in
              check (kLargeSizeThreshold <? SizeOf start);;
              check (num_pages =? RoundUp (SizeOf start) kPageSize / kPageSize);;
              mret ([], num_pages)
          | kPageMapRun =>
              r ← get_run (Some start);
              let idx := size_bracket_idx_ r in
              check ((0 <=? idx) && (idx <? kNumOfSizeBrackets));;
              let num_pages := numOfPages idx in
              check (0 <? num_pages);;
              check (forallb (fun j => bool_decide (pm p j = kPageMapRunPart)) (seqZ (i + 1) (num_pages - 1)));;
              mret ([start], num_pages)
          | kPageMapLargeObjectPart | kPageMapRunPart => abort
          end;
        check (i + num_pages <=? page_map_size_ p);;
        rest ← verify_pages fuel (i + num_pages);
        mret (found ++ rest)
      else mret []
  end.
Definition verify_thread (thread : Z) : M RosAlloc unit :=
  mfor thread_brackets (fun i =>
    run ← gets (fun s => thread_runs s !! (thread, i));
    r ← get_run run;
    check (is_thread_local_ r);;
    check (match run with None => true | Some _ => size_bracket_idx_ r =? i end)).
Definition verify_current (i : Z) : M RosAlloc unit :=
  run ← gets (fun s => current_runs_ s !! i);
  match run with
  | None => mret tt
  | Some run => r ← get_run (Some run); check (negb (is_thread_local_ r));; check (size_bracket_idx_ r =? i)
  end.
(** The owners of a run: the threads, with the brackets in which they have it. *)
Definition owners (s : RosAlloc) (threads : list Z) (run : Z) : list (Z * Z) :=
  filter (fun ti => thread_runs s !! ti = Some run) (t ← threads; i ← thread_brackets; [(t, i)]).
Definition Run_Verify (threads : list Z) (run : Z) : M RosAlloc unit :=
  r ← get_run (Some run);
  s ← gets id;
  let idx := size_bracket_idx_ r in
  check ((0 <=? idx) && (idx <? kNumOfSizeBrackets));;
  check (run + headerSizes idx + numOfSlots idx * bracketSizes idx =? run + numOfPages idx * kPageSize);;
  check (size_ (bulk_free_list_ r) =? 0);;
  (if is_thread_local_ r then
     match owners s threads run with
     | [(_, i)] => check (i =? idx)
     | _ => abort
     end
   else
     check (size_ (thread_local_free_list_ r) =? 0);;
     check (forallb (fun i => (i =? idx) || bool_decide (current_runs_ s !! i <> Some run)) (seqZ 0 kNumOfSizeBrackets));;
     when (bool_decide (current_runs_ s !! idx <> Some run))
       (check (negb (IsAllFree r));;
        when (negb (IsFull r)) (check (is_non_full s idx run))));;
  free ← on_words (fun m => l ← free_slots r m; Done (l, m));
  check (are_slots run r free);;
  mfor (slot_addrs run idx) (fun slot_addr =>
    when (bool_decide (slot_addr ∉ free))
      (check (SizeOf slot_addr <=? kLargeSizeThreshold);; check (SizeToIndex (SizeOf slot_addr) =? idx))).
Definition Verify (threads : list Z) : M RosAlloc unit :=
  n ← gets (fun s => Z.to_nat (page_map_size_ (pages s)));
  found ← verify_pages (S n) 0;
  mfor threads verify_thread;;
  mfor (seqZ 0 kNumOfSizeBrackets) verify_current;;
  mfor found (Run_Verify threads).
End Verify.

(** ** The constructor *)
Definition Create (base capacity max_capacity : Z) (mode : PageReleaseMode) (threshold : Z) : outcome RosAlloc :=
  dcheck ((base mod kPageSize =? 0) && (RoundUp capacity kPageSize =? capacity) && (RoundUp max_capacity kPageSize =? max_capacity)
          && (capacity <=? max_capacity) && (threshold mod kPageSize =? 0))
    (let num_of_pages := capacity / kPageSize in
     let p := mkPages base capacity capacity max_capacity [] ∅ num_of_pages (resize num_of_pages []) mode threshold ∅ in
     '(_, p) ← (SetByteSize base capacity;; FreePageRun_ReleasePages base;; insert_free_run base) p;
     Done (mkRosAlloc p ∅ ∅ ∅ ∅)).
End RosAlloc.
