(* ===== verification/RosAllocPages.v ===== *)
(** The pages of RosAlloc: the heap is a sequence of runs of free pages, runs of
    slots and large objects; [AllocPages] takes the first run of free pages
    that is large enough, growing the heap when there is none, and [FreePages]
    merges the pages it frees with the free pages around them. *)
From stdpp Require Import prelude gmap list.
From Stdlib Require Import ZArith Lia.
From S2P Require Import Prelude BitUtils RosAlloc.
Import RosAlloc.
Open Scope Z_scope.

(** Linear arithmetic in pages and bytes. *)
Ltac plia := unfold kPageSize in *; lia.

(** ** Memory *)
Lemma ld_st m a b v : ld (st m a v) b = if b =? a then v else ld m b.
Proof.
  unfold ld, st. destruct (Z.eqb_spec b a) as [->|Hne]; [by rewrite lookup_insert_eq|by rewrite lookup_insert_ne].
Qed.
Lemma ld_zero_range m a n b : ld (zero_range m a n) b = if (a <=? b) && (b <? a + n) then 0 else ld m b.
Proof.
  unfold ld, zero_range. destruct ((a <=? b) && (b <? a + n)) eqn:E.
  - rewrite map_lookup_filter. destruct (m !! b) as [v|]; [|done]. cbn. rewrite option_guard_False; [done|].
    apply andb_true_iff in E as [?%Z.leb_le ?%Z.ltb_lt]. cbn. lia.
  - rewrite map_lookup_filter. destruct (m !! b) as [v|]; [|done]. cbn. rewrite option_guard_True; [done|].
    apply andb_false_iff in E as [?%Z.leb_gt|?%Z.ltb_ge]; cbn; lia.
Qed.

(** ** Sets of pointers *)
Lemma filter_all {A} (Q : A -> Prop) `{!forall x, Decision (Q x)} (l : list A) : (forall x, x ∈ l -> Q x) -> filter Q l = l.
Proof. induction l as [|x l IH]; intros HQ; [done|]. rewrite filter_cons_True, IH by set_solver. done. Qed.
Lemma set_erase_middle x (a b : list Z) : (forall y, y ∈ a -> y < x) -> (forall y, y ∈ b -> x < y) ->
  set_erase x (a ++ x :: b) = a ++ b.
Proof.
  intros Ha Hb. unfold set_erase. rewrite filter_app, filter_cons_False by tauto.
  rewrite !filter_all; [done| |]; intros y Hy; [specialize (Hb y Hy)|specialize (Ha y Hy)]; lia.
Qed.
Lemma set_insert_middle x (a b : list Z) : (forall y, y ∈ a -> y < x) -> (forall y, y ∈ b -> x < y) ->
  set_insert x (a ++ b) = a ++ x :: b.
Proof.
  induction a as [|y a IH]; intros Ha Hb; cbn.
  - destruct b as [|y b]; [done|]. cbn. specialize (Hb y ltac:(set_solver)). destruct (Z.ltb_spec x y); [done|lia].
  - specialize (Ha y ltac:(set_solver)) as Hy. destruct (Z.ltb_spec x y); [lia|]. destruct (Z.eqb_spec x y); [lia|].
    rewrite IH; [done|set_solver|done].
Qed.

(** ** The layout of the heap *)
Inductive segkind := SFree | SRun | SLarge.
#[export] Instance segkind_eq_dec : EqDecision segkind.
Proof. solve_decision. Defined.
(** The segments of the heap in the order of their addresses, with their
    numbers of pages. *)
Abbreviation segs := (list (segkind * Z)).
Definition npages (l : segs) : Z := sumZ snd l.
Arguments npages : simpl never.

Definition seg_pages (p : Pages) (i : Z) (k : segkind) (n : Z) : Prop :=
  match k with
  | SFree => (forall j, i <= j < i + n -> IsFreePage p j = true) /\
             free_page_run_size_map_ p !! Z.to_nat i = Some (n * kPageSize)
  | SRun => pm p i = kPageMapRun /\ forall j, i < j < i + n -> pm p j = kPageMapRunPart
  | SLarge => pm p i = kPageMapLargeObject /\ forall j, i < j < i + n -> pm p j = kPageMapLargeObjectPart
  end.
Fixpoint mapped (p : Pages) (i : Z) (l : segs) : Prop :=
  match l with
  | [] => True
  | (k, n) :: l => 0 < n /\ seg_pages p i k n /\ mapped p (i + n) l
  end.
(** The addresses of the runs of free pages. *)
Fixpoint free_starts (base i : Z) (l : segs) : list Z :=
  match l with
  | [] => []
  | (SFree, n) :: l => base + i * kPageSize :: free_starts base (i + n) l
  | (_, n) :: l => free_starts base (i + n) l
  end.
Definition is_free (l : option (segkind * Z)) : bool := match l with Some (SFree, _) => true | _ => false end.
(** No two runs of free pages are next to each other. *)
Fixpoint coalesced (l : segs) : Prop :=
  match l with
  | [] => True
  | x :: l => (is_free (Some x) = true -> is_free (head l) = false) /\ coalesced l
  end.

Record pages_inv (p : Pages) (l : segs) : Prop := {
  p_base : 0 < base_ p /\ base_ p mod kPageSize = 0 /\ base_ p + max_capacity_ p <= 2 ^ 64;
  p_size : page_map_size_ p = npages l;
  p_footprint : footprint_ p = page_map_size_ p * kPageSize;
  p_sizes : Z.of_nat (length (free_page_run_size_map_ p)) = page_map_size_ p;
  p_capacity : footprint_ p <= capacity_ p <= max_capacity_ p;
  p_aligned : capacity_ p mod kPageSize = 0 /\ max_capacity_ p mod kPageSize = 0;
  p_mapped : mapped p 0 l;
  p_free : free_page_runs_ p = free_starts (base_ p) 0 l;
  p_coalesced : coalesced l;
  p_beyond : forall j, page_map_size_ p <= j -> pm p j = kPageMapReleased;
  p_zero : forall a, base_ p <= a < base_ p + max_capacity_ p -> IsFreePage p ((a - base_ p) / kPageSize) = true ->
           ld (words p) a = 0
}.

(** *** Lists of segments *)
Lemma npages_app l1 l2 : npages (l1 ++ l2) = npages l1 + npages l2.
Proof. unfold npages. induction l1 as [|x l1 IH]; cbn; [done|]. rewrite IH. lia. Qed.
Lemma npages_cons k n l : npages ((k, n) :: l) = n + npages l.
Proof. done. Qed.
Lemma mapped_nonneg p i l : mapped p i l -> 0 <= npages l.
Proof.
  revert i. induction l as [|[k n] l IH]; intros i; cbn; [unfold npages; cbn; lia|].
  intros (Hn & _ & Hl). apply IH in Hl. rewrite npages_cons. lia.
Qed.
Lemma mapped_app p i l1 l2 : mapped p i (l1 ++ l2) <-> mapped p i l1 /\ mapped p (i + npages l1) l2.
Proof.
  revert i. induction l1 as [|[k n] l1 IH]; intros i; cbn.
  - unfold npages. cbn. rewrite Z.add_0_r. tauto.
  - rewrite IH, npages_cons, Z.add_assoc. tauto.
Qed.
Lemma free_starts_app b i l1 l2 : free_starts b i (l1 ++ l2) = free_starts b i l1 ++ free_starts b (i + npages l1) l2.
Proof.
  revert i. induction l1 as [|[[] n] l1 IH]; intros i; cbn; rewrite ?npages_cons, ?Z.add_assoc; try by rewrite IH.
  unfold npages. cbn. by rewrite Z.add_0_r.
Qed.
Lemma free_starts_range b p i l x : mapped p i l -> x ∈ free_starts b i l ->
  b + i * kPageSize <= x < b + (i + npages l) * kPageSize.
Proof.
  revert i. induction l as [|[k n] l IH]; intros i; cbn; [intros _ Hx; by apply elem_of_nil in Hx|].
  intros (Hn & _ & Hl) Hx. pose proof (mapped_nonneg _ _ _ Hl). rewrite npages_cons. unfold kPageSize in *.
  destruct k; [apply elem_of_cons in Hx as [->|Hx]; [lia|]|..]; apply IH in Hx; try done; lia.
Qed.
Lemma coalesced_app l1 l2 : coalesced (l1 ++ l2) <->
  coalesced l1 /\ coalesced l2 /\ (is_free (last l1) = true -> is_free (head l2) = false).
Proof.
  induction l1 as [|x l1 IH]; cbn [app coalesced]; [split; [intros ?; repeat split; [done|discriminate]|tauto]|].
  rewrite IH. destruct l1 as [|y l1]; [cbn [last app head coalesced]|].
  - split; [tauto|]. intros ((? & ?) & ? & ?). repeat split; [done..|discriminate].
  - change (last (x :: y :: l1)) with (last (y :: l1)). cbn [app head]. tauto.
Qed.

Lemma seg_pages_ext p p' i k n :
  (forall j, i <= j < i + n -> pm p' j = pm p j /\ free_page_run_size_map_ p' !! Z.to_nat j = free_page_run_size_map_ p !! Z.to_nat j) ->
  0 < n -> seg_pages p i k n -> seg_pages p' i k n.
Proof.
  intros He Hn. destruct k; cbn.
  - intros [Hf Hs]. split; [|by rewrite (proj2 (He i ltac:(lia)))]. intros j Hj. unfold IsFreePage.
    rewrite (proj1 (He j Hj)). by apply Hf.
  - intros [H1 H2]. split; [by rewrite (proj1 (He i ltac:(lia)))|]. intros j Hj. rewrite (proj1 (He j ltac:(lia))). by apply H2.
  - intros [H1 H2]. split; [by rewrite (proj1 (He i ltac:(lia)))|]. intros j Hj. rewrite (proj1 (He j ltac:(lia))). by apply H2.
Qed.
Lemma mapped_ext p p' i l :
  (forall j, i <= j < i + npages l -> pm p' j = pm p j /\ free_page_run_size_map_ p' !! Z.to_nat j = free_page_run_size_map_ p !! Z.to_nat j) ->
  mapped p i l -> mapped p' i l.
Proof.
  revert i. induction l as [|[k n] l IH]; intros i He; cbn; [done|]. intros (Hn & Hs & Hl).
  rewrite npages_cons in He. pose proof (mapped_nonneg _ _ _ Hl). split; [done|]. split.
  - apply (seg_pages_ext p); [|done|done]. intros j Hj. apply He. lia.
  - apply IH; [|done]. intros j Hj. apply He. lia.
Qed.

(** ** Sizes of runs of free pages *)
Definition addr (p : Pages) (i : Z) : Z := base_ p + i * kPageSize.

Lemma ToPageMapIndex_done p i : 0 <= i -> i * kPageSize < capacity_ p -> ToPageMapIndex (addr p i) p = Done (i, p).
Proof.
  intros Hi Hc. unfold ToPageMapIndex, addr, kPageSize in *. rewrite bind_gets.
  replace (base_ p + i * 4096 - base_ p) with (i * 4096) by lia. rewrite Z.mod_mul by lia.
  rewrite bind_check by (rewrite !andb_true_iff, Z.leb_le, Z.ltb_lt, Z.eqb_eq; lia).
  unfold gets. replace (base_ p + i * 4096 - base_ p) with (i * 4096) by lia. by rewrite Z.div_mul by lia.
Qed.
Lemma ByteSize_done p i n : 0 <= i -> i * kPageSize < capacity_ p ->
  free_page_run_size_map_ p !! Z.to_nat i = Some (n * kPageSize) -> ByteSize (addr p i) p = Done (n * kPageSize, p).
Proof.
  intros Hi Hc Hs. unfold ByteSize. rewrite (bind_done _ _ _ _ _ (ToPageMapIndex_done p i Hi Hc)), bind_gets, Hs.
  rewrite bind_check; [done|]. rewrite Z.mod_mul by (unfold kPageSize; lia). done.
Qed.
Lemma End_done p i n : 0 <= i -> i * kPageSize < capacity_ p ->
  free_page_run_size_map_ p !! Z.to_nat i = Some (n * kPageSize) -> End_ (addr p i) p = Done (addr p (i + n), p).
Proof.
  intros Hi Hc Hs. unfold End_. rewrite (bind_done _ _ _ _ _ (ByteSize_done p i n Hi Hc Hs)). unfold mret, M_ret, addr, kPageSize.
  do 2 f_equal. lia.
Qed.
Lemma SetByteSize_done p i n : 0 <= i -> i * kPageSize < capacity_ p -> i < Z.of_nat (length (free_page_run_size_map_ p)) ->
  SetByteSize (addr p i) (n * kPageSize) p =
    Done (tt, with_size_map (<[Z.to_nat i := n * kPageSize]> (free_page_run_size_map_ p)) p).
Proof.
  intros Hi Hc Hl. unfold SetByteSize. rewrite bind_check by (rewrite Z.mod_mul by (unfold kPageSize; lia); done).
  rewrite (bind_done _ _ _ _ _ (ToPageMapIndex_done p i Hi Hc)), bind_gets. destruct (Z.ltb_spec i (Z.of_nat (length (free_page_run_size_map_ p)))); [done|lia].
Qed.

Lemma size_insert (l : list Z) i j v : 0 <= i < Z.of_nat (length l) -> 0 <= j ->
  <[Z.to_nat i := v]> l !! Z.to_nat j = if j =? i then Some v else l !! Z.to_nat j.
Proof.
  intros Hi Hj. destruct (Z.eqb_spec j i) as [->|Hne]; [apply list_lookup_insert_eq; lia|apply list_lookup_insert_ne; lia].
Qed.

(** Page indices of a well-formed heap are in its capacity. *)
Lemma inv_index p l i : pages_inv p l -> 0 <= i < npages l -> i * kPageSize < capacity_ p.
Proof.
  intros Hi Hn. pose proof (p_size _ _ Hi). pose proof (p_footprint _ _ Hi). pose proof (p_capacity _ _ Hi). unfold kPageSize in *. lia.
Qed.
Lemma inv_split p l1 k n l2 : pages_inv p (l1 ++ (k, n) :: l2) ->
  0 <= npages l1 /\ 0 < n /\ 0 <= npages l2 /\ npages (l1 ++ (k, n) :: l2) = npages l1 + n + npages l2 /\
  mapped p 0 l1 /\ seg_pages p (npages l1) k n /\ mapped p (npages l1 + n) l2 /\
  (forall x, x ∈ free_starts (base_ p) 0 l1 -> x < addr p (npages l1)) /\
  (forall x, x ∈ free_starts (base_ p) (npages l1 + n) l2 -> addr p (npages l1 + n) <= x) /\
  free_page_runs_ p = free_starts (base_ p) 0 l1 ++ (if is_free (Some (k, n)) then [addr p (npages l1)] else []) ++
                      free_starts (base_ p) (npages l1 + n) l2.
Proof.
  intros Hi. pose proof (p_mapped _ _ Hi) as Hm. apply mapped_app in Hm as [H1 (Hn & Hs & H2)]. cbn in Hs, H2.
  pose proof (mapped_nonneg _ _ _ H1). pose proof (mapped_nonneg _ _ _ H2). rewrite npages_app, npages_cons.
  split; [done|]. split; [done|]. split; [done|]. split; [lia|]. split; [done|]. split; [done|]. split; [done|].
  split. { intros x Hx. apply (free_starts_range _ p) in Hx; [|done]. unfold addr. lia. }
  split. { intros x Hx. apply (free_starts_range _ p) in Hx; [|done]. unfold addr. lia. }
  rewrite (p_free _ _ Hi), free_starts_app. cbn. by destruct k.
Qed.

(** ** [AllocPages]

    The first run of free pages that is large enough. *)
Definition too_small (num : Z) (kn : segkind * Z) : Prop := kn.1 = SFree -> kn.2 < num.
Lemma find_free_run_spec p num i l : mapped p i l -> 0 <= i -> (i + npages l) * kPageSize <= capacity_ p ->
  (find_free_run (num * kPageSize) (free_starts (base_ p) i l) p = Done (None, p) /\ Forall (too_small num) l) \/
  exists l1 n l2, l = l1 ++ (SFree, n) :: l2 /\ Forall (too_small num) l1 /\ num <= n /\
    find_free_run (num * kPageSize) (free_starts (base_ p) i l) p = Done (Some (addr p (i + npages l1)), p).
Proof.
  revert i. induction l as [|[k n] l IH]; intros i; cbn; [by left|]. rewrite npages_cons. intros (Hn & Hs & Hl) Hi Hc.
  pose proof (mapped_nonneg _ _ _ Hl) as Hnn.
  assert (Hrec : too_small num (k, n) ->
    (find_free_run (num * kPageSize) (free_starts (base_ p) (i + n) l) p = Done (None, p) /\ Forall (too_small num) ((k, n) :: l)) \/
    exists l1 n' l2, (k, n) :: l = l1 ++ (SFree, n') :: l2 /\ Forall (too_small num) l1 /\ num <= n' /\
      find_free_run (num * kPageSize) (free_starts (base_ p) (i + n) l) p = Done (Some (addr p (i + npages l1)), p)).
  { intros Ht. destruct (IH (i + n) Hl ltac:(lia)) as [[E Hf]|(l1 & n' & l2 & -> & Hf & Hle & E)]; [unfold kPageSize in *; lia|left|right].
    - split; [done|]. by constructor.
    - exists ((k, n) :: l1), n', l2. rewrite npages_cons, Z.add_assoc. split; [done|]. split; [by constructor|]. done. }
  destruct k; [|by apply Hrec; intros ?..].
  destruct Hs as [_ Hs]. cbn [find_free_run]. change (base_ p + i * kPageSize) with (addr p i).
  rewrite (bind_done _ _ _ _ _ (ByteSize_done p i n Hi ltac:(unfold kPageSize in *; lia) Hs)).
  destruct (Z.leb_spec (num * kPageSize) (n * kPageSize)).
  - right. exists [], n, l. unfold npages at 1. cbn. rewrite Z.add_0_r. split; [done|]. split; [constructor|]. split; [unfold kPageSize in *; lia|done].
  - apply Hrec. intros _. unfold kPageSize in *. cbn. lia.
Qed.

(** What remains of a run of free pages. *)
Definition rest (n : Z) : segs := if 0 <? n then [(SFree, n)] else [].
Lemma npages_rest n : 0 <= n -> npages (rest n) = n.
Proof. intros Hn. unfold rest. destruct (Z.ltb_spec 0 n); unfold npages; cbn; lia. Qed.

Lemma take_free_run_done p l1 n l2 num : pages_inv p (l1 ++ (SFree, n) :: l2) -> 0 < num <= n ->
  exists p', take_free_run (addr p (npages l1)) (num * kPageSize) p = Done (tt, p') /\
    p' = with_free_runs (free_starts (base_ p) 0 (l1 ++ (SRun, num) :: rest (n - num) ++ l2))
           (with_size_map (free_page_run_size_map_ p') p) /\
    length (free_page_run_size_map_ p') = length (free_page_run_size_map_ p) /\
    mapped p' 0 l1 /\ mapped p' (npages l1 + num) (rest (n - num)) /\ mapped p' (npages l1 + n) l2.
Proof.
  intros Hi Hn. destruct (inv_split _ _ _ _ _ Hi) as (Hn1 & Hn0 & Hn2 & Etot & Hm1 & [Hf Hs] & Hm2 & Hlt & Hgt & Efree).
  pose proof (inv_index _ _ (npages l1) Hi ltac:(lia)) as Hc. pose proof (p_sizes _ _ Hi) as Hsz. rewrite (p_size _ _ Hi), Etot in Hsz.
  cbn [is_free] in Efree. unfold take_free_run. rewrite (bind_done _ _ _ _ _ (ByteSize_done p (npages l1) n Hn1 Hc Hs)).
  unfold erase_free_run at 1. rewrite bind_modify. rewrite Efree. cbn [app].
  rewrite set_erase_middle; [|done|intros x Hx; specialize (Hgt x Hx); unfold addr, kPageSize in *; lia].
  set (A := free_starts (base_ p) 0 l1) in *. set (B := free_starts (base_ p) (npages l1 + n) l2) in *.
  destruct (Z.ltb_spec (num * kPageSize) (n * kPageSize)) as [Hlt'|Hge]; cbn [when].
  - assert (num < n) by (unfold kPageSize in *; lia). set (p1 := with_free_runs (A ++ B) p).
    replace (addr p (npages l1) + num * kPageSize) with (addr p1 (npages l1 + num)) by (unfold addr; cbn; lia).
    replace (n * kPageSize - num * kPageSize) with ((n - num) * kPageSize) by lia.
    erewrite bind_done by (apply SetByteSize_done; [lia|cbn; apply (inv_index _ _ _ Hi); unfold kPageSize in *; lia|cbn; unfold kPageSize in *; lia]).
    unfold insert_free_run. rewrite bind_modify. cbn [free_page_runs_ with_size_map with_free_runs p1].
    rewrite set_insert_middle; [|intros y Hy; specialize (Hlt y Hy); unfold addr, kPageSize in *; cbn; lia|
      intros y Hy; specialize (Hgt y Hy); unfold addr, kPageSize in *; cbn in *; lia].
    set (p2 := with_free_runs _ _). change (addr p (npages l1)) with (addr p2 (npages l1)).
    erewrite SetByteSize_done; [|lia|cbn; exact Hc|cbn; rewrite length_insert; lia].
    eexists. split; [reflexivity|]. cbn [free_page_run_size_map_ with_size_map p2 with_free_runs p1].
    assert (Er : rest (n - num) = [(SFree, n - num)]) by (unfold rest; destruct (Z.ltb_spec 0 (n - num)); [done|unfold kPageSize in *; lia]).
    split; [|split; [by rewrite !length_insert|split; [|split]]].
    + unfold p2, p1. cbn. f_equal. rewrite free_starts_app, Er. cbn. unfold addr, A, B. cbn.
      replace (0 + npages l1 + num + (n - num)) with (npages l1 + n) by lia. done.
    + apply (mapped_ext p); [|done]. intros j Hj. split; [done|]. cbn. rewrite !size_insert by (rewrite ?length_insert; lia).
      split_ltb. done.
    + rewrite Er. cbn. repeat split; [unfold kPageSize in *; lia| |].
      * intros j Hj. apply Hf. lia.
      * rewrite !size_insert by (rewrite ?length_insert; unfold kPageSize in *; lia). split_ltb. done.
    + apply (mapped_ext p); [|done]. intros j Hj. split; [done|]. cbn. rewrite !size_insert by (rewrite ?length_insert; unfold kPageSize in *; lia).
      split_ltb. done.
  - assert (n = num) as -> by (unfold kPageSize in *; lia). rewrite Z.sub_diag. unfold mret, M_ret.
    eexists. split; [reflexivity|]. cbn [free_page_run_size_map_ with_free_runs]. split; [|split; [done|]].
    + rewrite free_starts_app. by destruct p.
    + split; [|split; [done|]]; (apply (mapped_ext p); [|done]); done.
Qed.

(** *** Marking pages *)
Lemma pm_insert p i k j : pm (with_page_map (<[i := k]> (page_map_ p)) p) j = if j =? i then k else pm p j.
Proof.
  unfold pm. cbn. destruct (Z.eqb_spec j i) as [->|Hne]; [by rewrite lookup_insert_eq|by rewrite lookup_insert_ne].
Qed.
Lemma set_pages_done k n : forall i p, exists m, set_pages n i k p = Done (tt, with_page_map m p) /\
  forall j, pm (with_page_map m p) j = if (i <=? j) && (j <? i + Z.of_nat n) then k else pm p j.
Proof.
  induction n as [|n IH]; intros i p; cbn [set_pages].
  { exists (page_map_ p). split; [by destruct p|]. intros j. cbn [Z.of_nat]. split_ltb; done. }
  unfold set_pm. rewrite bind_modify. destruct (IH (i + 1) (with_page_map (<[i := k]> (page_map_ p)) p)) as (m & E & Hm).
  exists m. split; [rewrite E; by destruct p|]. intros j. change (pm (with_page_map m p) j) with (pm (with_page_map m (with_page_map (<[i:=k]> (page_map_ p)) p)) j).
  rewrite Hm, pm_insert. rewrite Nat2Z.inj_succ. split_ltb; done.
Qed.

(** The kind of a segment as [AllocPages] and [FreePages] have it. *)
Definition seg_type (k : segkind) : PageMapKind := match k with SRun => kPageMapRun | _ => kPageMapLargeObject end.
Definition part_type (k : segkind) : PageMapKind := match k with SRun => kPageMapRunPart | _ => kPageMapLargeObjectPart end.

(** What the operations on pages leave as it is. *)
Definition frame (p p' : Pages) : Prop :=
  base_ p' = base_ p /\ capacity_ p' = capacity_ p /\ max_capacity_ p' = max_capacity_ p /\
  page_release_mode_ p' = page_release_mode_ p /\ page_release_size_threshold_ p' = page_release_size_threshold_ p.
Lemma frame_refl p : frame p p.
Proof. by repeat split. Qed.
Lemma frame_trans p1 p2 p3 : frame p1 p2 -> frame p2 p3 -> frame p1 p3.
Proof. unfold frame. intuition congruence. Qed.

Lemma coalesced_used l1 k n m l2 : k <> SFree -> coalesced (l1 ++ (SFree, n) :: l2) -> coalesced (l1 ++ (k, m) :: l2).
Proof.
  intros Hk. rewrite !coalesced_app. cbn. intros (H1 & [_ H2] & H3). split; [done|].
  split; [|by destruct k]. split; [|done]. by destruct k.
Qed.
Lemma coalesced_rest l1 k n m num l2 : k <> SFree -> coalesced (l1 ++ (SFree, n) :: l2) -> coalesced (l1 ++ (k, num) :: rest m ++ l2).
Proof.
  intros Hk Hc. unfold rest. destruct (Z.ltb_spec 0 m); [|by apply (coalesced_used _ _ n)].
  rewrite coalesced_app in Hc |- *. cbn in *. destruct Hc as (H1 & [H2 H3] & H4). repeat split; try done; by destruct k.
Qed.

Lemma mark_pages_done p i num k : k <> SFree -> 0 <= i -> i * kPageSize < capacity_ p -> 0 < num ->
  (forall j, i <= j < i + num -> IsFreePage p j = true) ->
  exists m, mark_pages num (seg_type k) (addr p i) p = Done (Some (addr p i), with_page_map m p) /\
    (forall j, pm (with_page_map m p) j = if j =? i then seg_type k else if (i <=? j) && (j <? i + num) then part_type k else pm p j).
Proof.
  intros Hk Hi Hc Hn Hf. unfold mark_pages. rewrite (bind_done _ _ _ _ _ (ToPageMapIndex_done p i Hi Hc)), bind_gets.
  rewrite bind_check.
  2: { unfold all_free_pages. apply forallb_forall. intros j Hj%list_elem_of_In%elem_of_seqZ. by apply Hf. }
  destruct (set_pages_done (part_type k) (Z.to_nat (num - 1)) (i + 1) (with_page_map (<[i := seg_type k]> (page_map_ p)) p)) as (m & E & Hm).
  exists m. split.
  - destruct k; [done|..]; cbn [seg_type part_type] in *; rewrite bind_assoc; unfold set_pm; rewrite bind_modify, (bind_done _ _ _ _ _ E); by destruct p.
  - intros j. change (pm (with_page_map m p) j) with (pm (with_page_map m (with_page_map (<[i:=seg_type k]> (page_map_ p)) p)) j).
    rewrite Hm, pm_insert. split_ltb; done.
Qed.

(** A heap from which the pages for [num] pages have been taken, when they are
    marked. *)
Lemma mark_taken p p' l1 n l2 num k : k <> SFree -> pages_inv p (l1 ++ (SFree, n) :: l2) -> 0 < num <= n ->
  p' = with_free_runs (free_starts (base_ p) 0 (l1 ++ (SRun, num) :: rest (n - num) ++ l2))
         (with_size_map (free_page_run_size_map_ p') p) ->
  length (free_page_run_size_map_ p') = length (free_page_run_size_map_ p) ->
  mapped p' 0 l1 -> mapped p' (npages l1 + num) (rest (n - num)) -> mapped p' (npages l1 + n) l2 ->
  exists p'', mark_pages num (seg_type k) (addr p (npages l1)) p' = Done (Some (addr p (npages l1)), p'') /\
    pages_inv p'' (l1 ++ (k, num) :: rest (n - num) ++ l2) /\ frame p p'' /\ words p'' = words p /\ footprint_ p'' = footprint_ p.
Proof.
  intros Hk Hi Hn Ep Elen Hm1 Hmr Hm2. destruct (inv_split _ _ _ _ _ Hi) as (Hn1 & Hn0 & Hn2 & Etot & _ & [Hf _] & _).
  pose proof (inv_index _ _ (npages l1) Hi ltac:(lia)) as Hc.
  assert (Epm : forall j, pm p' j = pm p j) by (rewrite Ep; done).
  destruct (mark_pages_done p' (npages l1) num k) as (m & E & Hm); [done|done|rewrite Ep; exact Hc|lia|
    intros j Hj; unfold IsFreePage; rewrite Epm; apply Hf; lia|].
  assert (Ea : addr p' (npages l1) = addr p (npages l1)) by (rewrite Ep; done). rewrite Ea in E.
  eexists. split; [exact E|]. assert (Hext : forall i l, mapped p' i l -> i + npages l <= npages l1 \/ npages l1 + num <= i -> mapped (with_page_map m p') i l).
  { intros i l Hl Hr. apply (mapped_ext p'); [|done]. intros j Hj. split; [|done]. rewrite Hm. split_ltb; done. }
  split; [|rewrite Ep; by repeat split].
  assert (Enp : npages (l1 ++ (k, num) :: rest (n - num) ++ l2) = npages (l1 ++ (SFree, n) :: l2))
    by (rewrite !npages_app, !npages_cons, npages_app, npages_rest; lia).
  assert (Ewith : forall A (f : Pages -> A), (forall q x y z, f (with_page_map z (with_free_runs x (with_size_map y q))) = f q) -> f (with_page_map m p') = f p)
    by (intros A f Hfun; rewrite Ep; exact (Hfun p _ _ m)).
  split; rewrite ?(Ewith _ base_), ?(Ewith _ capacity_), ?(Ewith _ max_capacity_), ?(Ewith _ footprint_), ?(Ewith _ page_map_size_), ?(Ewith _ words) by done;
    try apply Hi.
  - by rewrite Enp, (p_size _ _ Hi).
  - change (free_page_run_size_map_ (with_page_map m p')) with (free_page_run_size_map_ p'). rewrite Elen. apply Hi.
  - apply mapped_app. split; [apply Hext; [done|lia]|]. cbn. split; [lia|]. split.
    + assert (Hs : pm (with_page_map m p') (npages l1) = seg_type k /\
        forall j, npages l1 < j < npages l1 + num -> pm (with_page_map m p') j = part_type k).
      { split; [rewrite Hm, Z.eqb_refl; done|]. intros j Hj. rewrite Hm. split_ltb. done. }
      by destruct k.
    + apply mapped_app. rewrite npages_rest by lia. split; apply Hext; try lia; [done|].
      replace (0 + npages l1 + num + (n - num)) with (npages l1 + n) by lia. done.
  - change (free_page_runs_ (with_page_map m p')) with (free_page_runs_ p'). rewrite Ep. cbn.
    rewrite !free_starts_app. cbn. by destruct k.
  - apply (coalesced_rest _ _ n); [done|]. apply Hi.
  - intros j Hj. rewrite (p_size _ _ Hi), Etot in Hj. rewrite Hm. split_ltb. rewrite Epm. apply (p_beyond _ _ Hi). rewrite (p_size _ _ Hi). lia.
  - intros a Ha Hfr. apply (p_zero _ _ Hi); [done|]. unfold IsFreePage in *. rewrite Hm, Epm in Hfr.
    destruct (_ =? _); [by destruct k|]. destruct (_ && _); [by destruct k|done].
Qed.

(** *** Growth *)
Lemma free_starts_elem b i l x : x ∈ free_starts b i l ->
  exists l1 n l2, l = l1 ++ (SFree, n) :: l2 /\ x = b + (i + npages l1) * kPageSize.
Proof.
  revert i. induction l as [|[k n] l IH]; intros i Hx; cbn in Hx; [by apply elem_of_nil in Hx|].
  assert (Hrec : x ∈ free_starts b (i + n) l -> exists l1 n' l2, (k, n) :: l = l1 ++ (SFree, n') :: l2 /\ x = b + (i + npages l1) * kPageSize).
  { intros H'. destruct (IH _ H') as (l1 & n' & l2 & -> & ->). exists ((k, n) :: l1), n', l2. rewrite npages_cons, Z.add_assoc. done. }
  destruct k; try by apply Hrec. apply elem_of_cons in Hx as [->|Hx]; [|by apply Hrec].
  exists [], n, l. unfold npages. cbn. by rewrite Z.add_0_r.
Qed.
(** The run of free pages at the end of the heap. *)
Lemma split_end p l : pages_inv p l -> exists l0 n, l = l0 ++ rest n /\ 0 <= n /\ is_free (last l0) = false.
Proof.
  intros Hi. destruct l as [|x l _] using rev_ind; [by exists [], 0|].
  pose proof (p_coalesced _ _ Hi) as Hc. apply coalesced_app in Hc as (_ & _ & Hc). pose proof (p_mapped _ _ Hi) as Hm.
  apply mapped_app in Hm as [_ Hm]. destruct x as [[] n]; cbn in Hm.
  - exists l, n. unfold rest. destruct (Z.ltb_spec 0 n); [|lia]. split; [done|]. split; [lia|]. cbn in Hc. destruct (is_free (last l)); [by specialize (Hc eq_refl)|done].
  - exists (l ++ [(SRun, n)]), 0. rewrite app_nil_r, last_snoc. done.
  - exists (l ++ [(SLarge, n)]), 0. rewrite app_nil_r, last_snoc. done.
Qed.
(** The last run of free pages is not at the end of the heap when the last
    segment is not free. *)
Lemma last_run_inside p l0 x : pages_inv p l0 -> is_free (last l0) = false -> last (free_page_runs_ p) = Some x ->
  exists e, End_ x p = Done (e, p) /\ e <> base_ p + footprint_ p.
Proof.
  intros Hi Hl Ex. pose proof (p_size _ _ Hi) as Hsz. pose proof (p_footprint _ _ Hi) as Hfp.
  apply last_Some_elem_of in Ex. rewrite (p_free _ _ Hi) in Ex.
  apply free_starts_elem in Ex as (l1 & n & l2 & -> & ->). rewrite Z.add_0_l.
  destruct (inv_split _ _ _ _ _ Hi) as (Hn1 & Hn0 & Hn2 & Etot & _ & [Hf Hs] & Hm2 & _).
  pose proof (inv_index _ _ (npages l1) Hi ltac:(lia)) as Hc. change (base_ p + npages l1 * kPageSize) with (addr p (npages l1)).
  exists (addr p (npages l1 + n)). split; [by apply End_done|]. rewrite Hsz, Etot in Hfp.
  destruct l2 as [|[k2 n2] l2]; [by rewrite last_snoc in Hl|]. cbn in Hm2. destruct Hm2 as (Hn2' & _ & Hm2').
  pose proof (mapped_nonneg _ _ _ Hm2'). rewrite npages_cons in Hfp. unfold addr, kPageSize in *. lia.
Qed.
Lemma last_free_run_size_done p l0 n : pages_inv p (l0 ++ rest n) -> 0 <= n -> is_free (last l0) = false ->
  last_free_run_size p = Done (n * kPageSize, p) /\
  (0 < n -> last (free_page_runs_ p) = Some (addr p (npages l0))).
Proof.
  intros Hi Hn Hl. pose proof (p_size _ _ Hi) as Hsz. pose proof (p_footprint _ _ Hi) as Hfp. unfold last_free_run_size. rewrite bind_gets.
  destruct (Z.ltb_spec 0 n) as [Hpos|Hz].
  - assert (Er : rest n = [(SFree, n)]) by (unfold rest; by destruct (Z.ltb_spec 0 n); [|lia]). rewrite Er in *.
    destruct (inv_split _ _ _ _ _ Hi) as (Hn1 & _ & _ & Etot & _ & [Hf Hs] & _ & _ & _ & Efree).
    change (npages []) with 0 in Etot. cbn in Efree. rewrite Efree, last_snoc. split; [|done].
    pose proof (inv_index _ _ (npages l0) Hi ltac:(lia)) as Hc.
    rewrite (bind_done _ _ _ _ _ (End_done p (npages l0) n Hn1 Hc Hs)), bind_gets. rewrite Hsz, Etot in Hfp.
    replace (addr p (npages l0 + n) =? base_ p + footprint_ p) with true by (symmetry; apply Z.eqb_eq; unfold addr; lia).
    rewrite (bind_done _ _ _ _ _ (ToPageMapIndex_done p (npages l0) Hn1 Hc)), bind_gets. rewrite bind_check by (apply Hf; lia).
    by apply ByteSize_done.
  - assert (n = 0) as -> by lia. change (rest 0) with (@nil (segkind * Z)) in *. rewrite app_nil_r in *. split; [|lia].
    destruct (last (free_page_runs_ p)) as [x|] eqn:Ex; [|done]. destruct (last_run_inside p l0 x Hi Hl Ex) as (e & Ee & Hne).
    rewrite (bind_done _ _ _ _ _ Ee), bind_gets. by destruct (Z.eqb_spec e (base_ p + footprint_ p)).
Qed.

Lemma resize_lookup (l : list Z) (n j : Z) : Z.of_nat (length l) <= n -> 0 <= j < Z.of_nat (length l) ->
  resize n l !! Z.to_nat j = l !! Z.to_nat j.
Proof. intros Hn Hj. unfold resize. rewrite lookup_resize; [done|lia|lia]. Qed.
Lemma length_resize_Z (l : list Z) n : 0 <= n -> Z.of_nat (length (resize n l)) = n.
Proof. intros Hn. unfold resize. rewrite length_resize. lia. Qed.

(** The heap with [inc] more free pages at its end. *)
Lemma grown_inv p p' l0 n inc : pages_inv p (l0 ++ rest n) -> 0 <= n -> 0 < inc -> is_free (last l0) = false ->
  (page_map_size_ p + inc) * kPageSize <= capacity_ p ->
  frame p p' -> words p' = words p -> page_map_ p' = page_map_ p ->
  page_map_size_ p' = page_map_size_ p + inc -> footprint_ p' = footprint_ p + inc * kPageSize ->
  free_page_runs_ p' = free_starts (base_ p) 0 (l0 ++ [(SFree, n + inc)]) ->
  free_page_run_size_map_ p' = <[Z.to_nat (npages l0) := (n + inc) * kPageSize]> (resize (page_map_size_ p + inc) (free_page_run_size_map_ p)) ->
  pages_inv p' (l0 ++ [(SFree, n + inc)]).
Proof.
  intros Hi Hn Hinc Hl Hcap (Eb & Ec & Emc & _) Ew Epm Esz Efp Efr Esm.
  pose proof (p_size _ _ Hi) as Hsz. pose proof (p_sizes _ _ Hi) as Hlen. pose proof (p_footprint _ _ Hi) as Hfp.
  rewrite npages_app, npages_rest in Hsz by done. pose proof (p_mapped _ _ Hi) as Hm. apply mapped_app in Hm as [Hm1 Hm2].
  pose proof (mapped_nonneg _ _ _ Hm1) as Hn1. assert (Epm' : forall j, pm p' j = pm p j) by (intros j; unfold pm; by rewrite Epm).
  assert (Hfree : forall j, npages l0 <= j -> IsFreePage p j = true).
  { intros j Hj. unfold IsFreePage. destruct (Z.ltb_spec j (page_map_size_ p)); [|by rewrite (p_beyond _ _ Hi)].
    unfold rest in Hm2. destruct (Z.ltb_spec 0 n); [|lia]. cbn in Hm2. destruct Hm2 as (_ & [Hf _] & _). apply (Hf j). lia. }
  pose proof (p_capacity _ _ Hi). split; rewrite ?Eb, ?Ec, ?Emc, ?Ew, ?Esz, ?Efp; try apply Hi.
  - rewrite npages_app. change (npages [(SFree, n + inc)]) with (n + inc + 0). lia.
  - lia.
  - rewrite Esm, length_insert, length_resize_Z; lia.
  - lia.
  - apply mapped_app. split.
    + apply (mapped_ext p); [|done]. intros j Hj. split; [apply Epm'|]. rewrite Esm, size_insert by (rewrite ?length_resize_Z; lia).
      split_ltb. apply resize_lookup; lia.
    + cbn. split; [lia|]. split; [|done]. split; [intros j Hj; unfold IsFreePage; rewrite Epm'; apply Hfree; lia|].
      rewrite Esm, size_insert by (rewrite ?length_resize_Z; lia). split_ltb. done.
  - done.
  - pose proof (p_coalesced _ _ Hi) as Hc. apply coalesced_app in Hc as (Hc & _). apply coalesced_app. repeat split; [done..|]. by rewrite Hl.
  - intros j Hj. rewrite Epm'. apply (p_beyond _ _ Hi). lia.
  - intros a Ha Hf. apply (p_zero _ _ Hi); [done|]. unfold IsFreePage in *. by rewrite Epm' in Hf.
Qed.

Lemma grow_done p l0 n inc : pages_inv p (l0 ++ rest n) -> 0 <= n -> is_free (last l0) = false -> 0 < inc ->
  (page_map_size_ p + inc) * kPageSize <= capacity_ p ->
  exists p', grow (n * kPageSize) (inc * kPageSize) p = Done (tt, p') /\ pages_inv p' (l0 ++ [(SFree, n + inc)]) /\
    frame p p' /\ words p' = words p /\ footprint_ p' = footprint_ p + inc * kPageSize.
Proof.
  intros Hi Hn Hl Hinc Hcap. destruct (last_free_run_size_done p l0 n Hi Hn Hl) as [_ Hlast].
  pose proof (p_size _ _ Hi) as Hsz. pose proof (p_sizes _ _ Hi) as Hlen. pose proof (p_footprint _ _ Hi) as Hfp.
  rewrite npages_app, npages_rest in Hsz by done. pose proof (p_mapped _ _ Hi) as Hm. apply mapped_app in Hm as [Hm1 _].
  pose proof (mapped_nonneg _ _ _ Hm1) as Hn1. pose proof (p_capacity _ _ Hi) as Hcp. pose proof (p_aligned _ _ Hi) as [Hal1 Hal2].
  unfold grow. rewrite bind_check by (rewrite Z.mod_mul by (unfold kPageSize; lia); done). rewrite bind_gets. change (id p) with p.
  replace ((footprint_ p + inc * kPageSize) / kPageSize) with (page_map_size_ p + inc).
  2: { rewrite Hfp. replace (page_map_size_ p * kPageSize + inc * kPageSize) with ((page_map_size_ p + inc) * kPageSize) by ring.
       by rewrite Z.div_mul by (unfold kPageSize; lia). }
  rewrite bind_check. 2: { rewrite !andb_true_iff, !Z.ltb_lt, Z.leb_le. repeat split; [lia..|].
    apply Z.div_le_lower_bound; [unfold kPageSize; lia|]. plia. }
  rewrite !bind_modify. set (p1 := with_size_map _ _).
  assert (Hset : forall i, 0 <= i < page_map_size_ p + inc -> SetByteSize (addr p i) ((n + inc) * kPageSize) p1 =
    Done (tt, with_size_map (<[Z.to_nat i := (n + inc) * kPageSize]> (resize (page_map_size_ p + inc) (free_page_run_size_map_ p))) p1)).
  { intros i Hii. change (addr p i) with (addr p1 i). rewrite SetByteSize_done; [done|lia|cbn; plia|]. cbn. rewrite length_resize_Z; lia. }
  destruct (Z.ltb_spec 0 (n * kPageSize)) as [Hpos|Hz].
  - rewrite (Hlast ltac:(plia)). replace (n * kPageSize + inc * kPageSize) with ((n + inc) * kPageSize) by ring.
    rewrite (bind_done _ _ _ _ _ (Hset (npages l0) ltac:(plia))). rewrite bind_check by (apply Z.leb_le; plia).
    eexists. split; [reflexivity|]. split; [|cbn; by repeat split].
    apply (grown_inv p _ l0 n inc); try done. cbn. rewrite (p_free _ _ Hi), !free_starts_app.
    unfold rest. destruct (Z.ltb_spec 0 n); [done|plia].
  - assert (n = 0) as -> by plia. change (rest 0) with (@nil (segkind * Z)) in *. rewrite app_nil_r in *. rewrite Z.add_0_l in *.
    replace (base_ p + footprint_ p) with (addr p (npages l0)) by (unfold addr; rewrite Hfp, Hsz, Z.add_0_r; done).
    rewrite bind_assoc, (bind_done _ _ _ _ _ (Hset (npages l0) ltac:(plia))). unfold insert_free_run. rewrite bind_modify.
    rewrite bind_check by (apply Z.leb_le; plia). eexists. split; [reflexivity|]. split; [|cbn; by repeat split].
    apply (grown_inv p _ l0 0 inc); rewrite ?app_nil_r; try done. cbn. rewrite (p_free _ _ Hi), !free_starts_app.
    rewrite <- (app_nil_r (free_starts (base_ p) 0 l0)) at 1. rewrite set_insert_middle; [done| |intros y Hy; by apply elem_of_nil in Hy].
    intros y Hy. apply (free_starts_range _ p) in Hy; [|done]. unfold addr. plia.
Qed.

(** *** The result of [AllocPages] *)
(** The heap [l], or [l] with a larger run of free pages at its end. *)
Definition grown (num : Z) (l l' : segs) : Prop :=
  l' = l \/ Forall (too_small num) l /\ exists l0 n inc, l = l0 ++ rest n /\ 0 <= n /\ 0 < inc /\ l' = l0 ++ [(SFree, n + inc)].

Lemma too_small_grown num l l0 n inc l1 m l2 : Forall (too_small num) l -> l = l0 ++ rest n ->
  l0 ++ [(SFree, n + inc)] = l1 ++ (SFree, m) :: l2 -> num <= m -> l1 = l0 /\ l2 = [] /\ m = n + inc.
Proof.
  intros Hl El E Hm. assert (Hl0 : Forall (too_small num) l0) by (subst l; by apply Forall_app in Hl as [? _]).
  destruct l2 as [|x l2 _] using rev_ind.
  - apply app_inj_tail in E as [-> [= ->]]. done.
  - rewrite app_comm_cons, app_assoc in E. apply app_inj_tail in E as [-> _].
    apply Forall_app in Hl0 as [_ Hx]. apply Forall_cons in Hx as [Hx _]. specialize (Hx eq_refl). cbn in Hx. lia.
Qed.

(** The growth that [AllocPages] tries when no run of free pages is large
    enough: the address of the run that is taken is the end of the used part. *)
Lemma grow_and_take_spec p l num : pages_inv p l -> 0 < num -> Forall (too_small num) l ->
  exists l0 n, l = l0 ++ rest n /\ 0 <= n /\ is_free (last l0) = false /\
  ((capacity_ p - footprint_ p + n * kPageSize < num * kPageSize /\ grow_and_take (num * kPageSize) p = Done (None, p)) \/
   exists p1 p2 inc, 0 < inc /\ num <= n + inc /\ pages_inv p1 (l0 ++ [(SFree, n + inc)]) /\ frame p p1 /\ words p1 = words p /\
     footprint_ p <= footprint_ p1 /\ take_free_run (addr p1 (npages l0)) (num * kPageSize) p1 = Done (tt, p2) /\
     grow_and_take (num * kPageSize) p = Done (Some (addr p (npages l0)), p2)).
Proof.
  intros Hi Hnum Hts. destruct (split_end p l Hi) as (l0 & n & -> & Hn & Hl). exists l0, n. repeat (split; [done|]).
  destruct (last_free_run_size_done p l0 n Hi Hn Hl) as [Hlast _]. pose proof (p_capacity _ _ Hi) as Hcp.
  pose proof (p_footprint _ _ Hi) as Hfp. pose proof (p_aligned _ _ Hi) as [Hal _].
  assert (Hsmall : n < num).
  { apply Forall_app in Hts as [_ Hts]. unfold rest in Hts. destruct (Z.ltb_spec 0 n); [|lia].
    apply Forall_cons in Hts as [Hts _]. by apply Hts. }
  unfold grow_and_take. rewrite bind_gets. change (id p) with p. destruct (Z.ltb_spec (footprint_ p) (capacity_ p)).
  2: { left. split; [plia|done]. }
  rewrite (bind_done _ _ _ _ _ Hlast), bind_check by (apply Z.ltb_lt; plia).
  destruct (Z.leb_spec (num * kPageSize) (capacity_ p - footprint_ p + n * kPageSize)); [right|left; split; [plia|done]].
  assert (exists c, capacity_ p = c * kPageSize) as [c Ec].
  { exists (capacity_ p / kPageSize). pose proof (Z.div_mod (capacity_ p) kPageSize ltac:(plia)). lia. }
  set (inc := Z.min (Z.max 512 (num - n)) (c - page_map_size_ p)).
  replace (Z.min (Z.max (2 * MB) (num * kPageSize - n * kPageSize)) (capacity_ p - footprint_ p)) with (inc * kPageSize).
  2: { unfold inc, MB. rewrite Ec, Hfp. plia. }
  assert (Hinc : 0 < inc /\ num <= n + inc /\ page_map_size_ p + inc <= c) by (unfold inc; rewrite Ec, Hfp in *; plia).
  destruct (grow_done p l0 n inc Hi Hn Hl) as (p1 & Eg & Hi1 & Hf & Hw & Hfp1); [lia|rewrite Ec; plia|].
  destruct (take_free_run_done p1 l0 (n + inc) [] num Hi1 ltac:(lia)) as (p2 & Et & _).
  rewrite (bind_done _ _ _ _ _ Eg), bind_gets.
  destruct (inv_split _ _ _ _ _ Hi1) as (Hn1 & _ & _ & Etot & _ & [_ Hs] & _ & _ & _ & Efree). change (npages []) with 0 in Etot.
  cbn in Efree. rewrite Efree, last_snoc. pose proof (inv_index _ _ (npages l0) Hi1 ltac:(lia)) as Hc1.
  rewrite (bind_done _ _ _ _ _ (ByteSize_done p1 _ _ Hn1 Hc1 Hs)), bind_check by (apply Z.leb_le; plia).
  exists p1, p2, inc. repeat (split; [first [done|lia|plia]|]). rewrite (bind_done _ _ _ _ _ Et).
  unfold addr. by rewrite (proj1 Hf).
Qed.

Lemma free_seg_zero p l1 n l2 a : pages_inv p (l1 ++ (SFree, n) :: l2) ->
  addr p (npages l1) <= a < addr p (npages l1 + n) -> ld (words p) a = 0.
Proof.
  intros Hi Ha. destruct (inv_split _ _ _ _ _ Hi) as (Hn1 & Hn0 & Hn2 & Etot & _ & [Hf _] & _).
  pose proof (p_size _ _ Hi). pose proof (p_footprint _ _ Hi). pose proof (p_capacity _ _ Hi). unfold addr in Ha.
  apply (p_zero _ _ Hi); [plia|]. apply Hf. split; [apply Z.div_le_lower_bound|apply Z.div_lt_upper_bound]; plia.
Qed.

Definition pages_taken (p p' : Pages) (k : segkind) (num : Z) (l l' : segs) (a : Z) : Prop :=
  exists l0 l1 n l2, grown num l l0 /\ l0 = l1 ++ (SFree, n) :: l2 /\ Forall (too_small num) l1 /\ num <= n /\
    l' = l1 ++ (k, num) :: rest (n - num) ++ l2 /\ a = addr p (npages l1) /\ frame p p' /\ words p' = words p /\
    footprint_ p <= footprint_ p' /\ (forall x, a <= x < a + num * kPageSize -> ld (words p) x = 0).

Lemma AllocPages_spec p l num k : pages_inv p l -> 0 < num -> k <> SFree ->
  exists r p', AllocPages num (seg_type k) p = Done (r, p') /\
    match r with
    | Some a => exists l', pages_inv p' l' /\ pages_taken p p' k num l l' a
    | None => p' = p /\ Forall (too_small num) l /\
              exists l0 n, l = l0 ++ rest n /\ 0 <= n /\ is_free (last l0) = false /\
                           capacity_ p - footprint_ p + n * kPageSize < num * kPageSize
    end.
Proof.
  intros Hi Hnum Hk. unfold AllocPages. rewrite bind_gets, (p_free _ _ Hi). pose proof (p_mapped _ _ Hi) as Hm.
  pose proof (p_size _ _ Hi) as Hsz. pose proof (p_footprint _ _ Hi) as Hfp. pose proof (p_capacity _ _ Hi) as Hcap.
  destruct (find_free_run_spec p num 0 l Hm ltac:(lia)) as [[E Hts]|(l1 & n & l2 & -> & Hts & Hle & E)]; [plia|..];
    rewrite (bind_done _ _ _ _ _ E).
  - destruct (grow_and_take_spec p l num Hi Hnum Hts) as (l0 & n & El & Hn & Hlast & [[Hno Eg]|(p1 & p2 & inc & Hinc & Hge & Hi1 & Hf & Hw & Hfp1 & Et & Eg)]);
      rewrite (bind_done _ _ _ _ _ Eg).
    + exists None, p. split; [done|]. eauto 10.
    + destruct (take_free_run_done p1 l0 (n + inc) [] num Hi1 ltac:(lia)) as (p2' & Et' & Hp2 & Hlen & Hm1 & Hmr & Hm2).
      rewrite Et in Et'. injection Et' as <-.
      destruct (mark_taken p1 p2 l0 (n + inc) [] num k Hk Hi1 ltac:(lia) Hp2 Hlen Hm1 Hmr Hm2) as (p3 & E3 & Hi3 & Hf3 & Hw3 & Hfp3).
      assert (Ea : forall i, addr p1 i = addr p i) by (intros i; unfold addr; by rewrite (proj1 Hf)). rewrite Ea in E3.
      exists (Some (addr p (npages l0))), p3. split; [done|]. eexists. split; [exact Hi3|].
      exists (l0 ++ [(SFree, n + inc)]), l0, (n + inc), []. split; [right; eauto 10|]. split; [done|].
      split; [rewrite El in Hts; by apply Forall_app in Hts as [? _]|]. repeat (split; [done|]).
      split; [by eapply frame_trans|]. split; [congruence|]. split; [lia|]. intros x Hx. rewrite <- Hw.
      apply (free_seg_zero p1 l0 (n + inc) [] x Hi1). rewrite !Ea. unfold addr in *. plia.
  - destruct (take_free_run_done p l1 n l2 num Hi ltac:(lia)) as (p2 & Et & Hp2 & Hlen & Hm1 & Hmr & Hm2).
    rewrite Z.add_0_l, bind_assoc, (bind_done _ _ _ _ _ Et).
    destruct (mark_taken p p2 l1 n l2 num k Hk Hi ltac:(lia) Hp2 Hlen Hm1 Hmr Hm2) as (p3 & E3 & Hi3 & Hf3 & Hw3 & Hfp3).
    exists (Some (addr p (npages l1))), p3. split; [exact E3|]. eexists. split; [exact Hi3|].
    exists (l1 ++ (SFree, n) :: l2), l1, n, l2. split; [by left|]. repeat (split; [done|]). split; [lia|].
    intros x Hx. apply (free_seg_zero p l1 n l2 x Hi). unfold addr in *. plia.
Qed.
