(* ===== verification/RosAllocFreePages.v ===== *)
(** The pages of RosAlloc that are given back.

    [FreePages] marks the pages of a run or a large object as free, merges them
    with the runs of free pages on their two sides and, in the page release
    modes that ask for it, gives the memory back to the system; [Trim] cuts the
    free pages at the end of the heap off, [SetFootprintLimit] raises the
    capacity and [ReleasePages] releases the memory of all runs of free pages.
    Each is shown to succeed on a heap that is laid out as its list of segments
    says, with the list of the segments of the result. *)
From stdpp Require Import prelude gmap list.
From Stdlib Require Import ZArith Lia.
From S2P Require Import Prelude BitUtils RosAlloc RosAllocPages.
Import RosAlloc.
Open Scope Z_scope.

(** ** A heap with a run of free pages that is not in [free_page_runs_] yet

    The segments are [l1], the run of [n] pages and [l2].  Where [dirty] holds
    the run has not been zeroed yet. *)
Record open_inv (dirty : bool) (p : Pages) (l1 : segs) (n : Z) (l2 : segs) : Prop := {
  o_base : 0 < base_ p /\ base_ p mod kPageSize = 0 /\ base_ p + max_capacity_ p <= 2 ^ 64;
  o_size : page_map_size_ p = npages l1 + n + npages l2;
  o_footprint : footprint_ p = page_map_size_ p * kPageSize;
  o_sizes : Z.of_nat (length (free_page_run_size_map_ p)) = page_map_size_ p;
  o_capacity : footprint_ p <= capacity_ p <= max_capacity_ p;
  o_aligned : capacity_ p mod kPageSize = 0 /\ max_capacity_ p mod kPageSize = 0;
  o_before : mapped p 0 l1;
  o_run : 0 < n /\ seg_pages p (npages l1) SFree n;
  o_after : mapped p (npages l1 + n) l2;
  o_free : free_page_runs_ p = free_starts (base_ p) 0 l1 ++ free_starts (base_ p) (npages l1 + n) l2;
  o_coalesced : coalesced l1 /\ coalesced l2;
  o_beyond : forall j, page_map_size_ p <= j -> pm p j = kPageMapReleased;
  o_zero : forall a, base_ p <= a < base_ p + max_capacity_ p -> IsFreePage p ((a - base_ p) / kPageSize) = true ->
           dirty = false \/ ~ addr p (npages l1) <= a < addr p (npages l1 + n) -> ld (words p) a = 0
}.

(** The addresses and the sizes the loops of [FreePages] compare. *)
Lemma open_facts d p l1 n l2 : open_inv d p l1 n l2 -> 0 <= npages l1 /\ 0 < n /\ 0 <= npages l2 /\
  (npages l1 + n + npages l2) * kPageSize <= capacity_ p /\
  Z.of_nat (length (free_page_run_size_map_ p)) = npages l1 + n + npages l2 /\
  (forall x, x ∈ free_starts (base_ p) 0 l1 -> x < addr p (npages l1)) /\
  (forall x, x ∈ free_starts (base_ p) (npages l1 + n) l2 -> addr p (npages l1 + n) <= x).
Proof.
  intros Ho. pose proof (o_before _ _ _ _ _ Ho) as H1. pose proof (o_after _ _ _ _ _ Ho) as H2.
  pose proof (mapped_nonneg _ _ _ H1). pose proof (mapped_nonneg _ _ _ H2). pose proof (o_run _ _ _ _ _ Ho) as [Hn _].
  pose proof (o_size _ _ _ _ _ Ho). pose proof (o_footprint _ _ _ _ _ Ho). pose proof (o_capacity _ _ _ _ _ Ho).
  pose proof (o_sizes _ _ _ _ _ Ho). repeat (split; [first [lia|plia]|]).
  split; intros x Hx; apply (free_starts_range _ p) in Hx; try done; unfold addr; lia.
Qed.

(** *** The loop over the pages *)
Lemma free_parts_done part c : part <> kPageMapEmpty -> forall fuel idx p, (c <= fuel)%nat ->
  (forall j, idx <= j < idx + Z.of_nat c -> pm p j = part) -> (c = fuel \/ pm p (idx + Z.of_nat c) <> part) ->
  exists m, free_parts fuel idx part p = Done (Z.of_nat c, with_page_map m p) /\
    forall j, pm (with_page_map m p) j = if (idx <=? j) && (j <? idx + Z.of_nat c) then kPageMapEmpty else pm p j.
Proof.
  intros Hpart. induction c as [|c IH]; intros fuel idx p Hf Hin Hout.
  - exists (page_map_ p). split; [|intros j; split_ltb; done]. destruct p. destruct fuel as [|fuel]; [done|]. destruct Hout as [?|Hout]; [done|].
    cbn [free_parts]. rewrite bind_gets, bool_decide_eq_false_2; [done|]. by rewrite Z.add_0_r in Hout.
  - destruct fuel as [|fuel]; [lia|]. cbn [free_parts]. rewrite bind_gets, bool_decide_eq_true_2 by (apply Hin; lia).
    unfold set_pm. rewrite bind_modify.
    destruct (IH fuel (idx + 1) (with_page_map (<[idx := kPageMapEmpty]> (page_map_ p)) p)) as (m & E & Hm).
    + lia.
    + intros j Hj. rewrite pm_insert. split_ltb. apply Hin. lia.
    + destruct Hout as [?|Hout]; [left; lia|right]. rewrite pm_insert. split_ltb. by replace (idx + 1 + Z.of_nat c) with (idx + Z.of_nat (S c)) by lia.
    + rewrite (bind_done _ _ _ _ _ E). exists m. split; [unfold mret, M_ret; replace (Z.of_nat c + 1) with (Z.of_nat (S c)) by lia; by destruct p|].
      intros j. specialize (Hm j). rewrite pm_insert in Hm. change (pm (with_page_map m p) j) with (pm (with_page_map m (with_page_map (<[idx:=kPageMapEmpty]> (page_map_ p)) p)) j).
      rewrite Hm. split_ltb; done.
Qed.

(** *** Merging with the free pages above and below *)
Lemma coalesce_higher_stops p i n l2 j : 0 <= i -> i * kPageSize < capacity_ p ->
  free_page_run_size_map_ p !! Z.to_nat i = Some (n * kPageSize) -> mapped p j l2 -> i + n <= j -> is_free (head l2) = false \/ i + n < j ->
  coalesce_higher (addr p i) (free_starts (base_ p) j l2) p = Done (tt, p).
Proof.
  intros Hi Hc Hs Hm Hj Hh. destruct (free_starts (base_ p) j l2) as [|h hs] eqn:E; [done|]. cbn [coalesce_higher].
  rewrite (bind_done _ _ _ _ _ (End_done p i n Hi Hc Hs)).
  assert (Hlt : addr p (i + n) < h); [|destruct (Z.eqb_spec (addr p (i + n)) h); [lia|done]].
  destruct l2 as [|[k m] l2]; [done|]. cbn in Hm. destruct Hm as (Hm0 & _ & Hm). destruct k; cbn in E.
  - injection E as <- _. destruct Hh as [?|?]; [done|]. unfold addr. plia.
  - assert (Hin : h ∈ free_starts (base_ p) (j + m) l2) by (rewrite E; left). apply (free_starts_range _ p) in Hin; [|done]. unfold addr. plia.
  - assert (Hin : h ∈ free_starts (base_ p) (j + m) l2) by (rewrite E; left). apply (free_starts_range _ p) in Hin; [|done]. unfold addr. plia.
Qed.

(** Two runs of free pages that are next to each other become one. *)
Lemma size_insert_mapped p i v fr j l : 0 <= i < Z.of_nat (length (free_page_run_size_map_ p)) -> 0 <= j ->
  j + npages l <= i \/ i < j -> mapped p j l ->
  mapped (with_size_map (<[Z.to_nat i := v]> (free_page_run_size_map_ p)) (with_free_runs fr p)) j l.
Proof.
  intros Hi Hj0 Hj. apply mapped_ext. intros x Hx. split; [done|]. cbn. rewrite size_insert by lia. split_ltb; done.
Qed.
Lemma size_insert_merged p i a b fr : 0 <= i < Z.of_nat (length (free_page_run_size_map_ p)) -> 0 < a -> 0 < b ->
  seg_pages p i SFree a -> seg_pages p (i + a) SFree b ->
  seg_pages (with_size_map (<[Z.to_nat i := (a + b) * kPageSize]> (free_page_run_size_map_ p)) (with_free_runs fr p)) i SFree (a + b).
Proof.
  intros Hi Ha Hb [Ha1 _] [Hb1 _]. split; [|cbn; rewrite size_insert by lia; by rewrite Z.eqb_refl].
  intros j Hj. change (IsFreePage p j = true). destruct (Z.lt_ge_cases j (i + a)); [apply Ha1|apply Hb1]; lia.
Qed.

Lemma coalesce_higher_spec d p l1 n l2 : open_inv d p l1 n l2 ->
  exists m l2' p', l2 = rest m ++ l2' /\ 0 <= m /\ is_free (head l2') = false /\
    coalesce_higher (addr p (npages l1)) (free_starts (base_ p) (npages l1 + n) l2) p = Done (tt, p') /\
    open_inv d p' l1 (n + m) l2' /\ frame p p' /\ words p' = words p /\ footprint_ p' = footprint_ p.
Proof.
  intros Ho. destruct (open_facts _ _ _ _ _ Ho) as (Hn1 & Hn & Hn2 & Hc & Hlen & Hlt & Hgt). pose proof (o_run _ _ _ _ _ Ho) as [_ Hseg].
  pose proof (o_after _ _ _ _ _ Ho) as Hm2. destruct (is_free (head l2)) eqn:Eh.
  2: { exists 0, l2, p. rewrite Z.add_0_r. split; [done|]. split; [lia|]. split; [done|]. split; [|split; [done|by repeat split]].
       apply (coalesce_higher_stops p _ n); try done; [plia|apply Hseg|by left]. }
  destruct l2 as [|[[] m] l2]; try done. destruct Hm2 as (Hm & Hsegm & Hm2). rewrite npages_cons in *. pose proof (mapped_nonneg _ _ _ Hm2).
  pose proof (o_coalesced _ _ _ _ _ Ho) as [Hco1 [Hco2 Hco3]]. specialize (Hco2 eq_refl).
  set (fr := free_starts (base_ p) 0 l1 ++ free_starts (base_ p) (npages l1 + n + m) l2).
  set (p' := with_size_map (<[Z.to_nat (npages l1) := (n + m) * kPageSize]> (free_page_run_size_map_ p)) (with_free_runs fr p)).
  assert (Hseg' : seg_pages p' (npages l1) SFree (n + m)) by (apply size_insert_merged; try done; lia).
  assert (Hm2' : mapped p' (npages l1 + n + m) l2) by (apply size_insert_mapped; [lia|lia|lia|done]).
  exists m, l2, p'. split; [unfold rest; destruct (Z.ltb_spec 0 m); [done|lia]|]. split; [lia|]. split; [done|]. split; [|split; [|by repeat split]].
  - cbn [free_starts coalesce_higher]. rewrite (bind_done _ _ _ _ _ (End_done p _ n Hn1 ltac:(plia) (proj2 Hseg))).
    unfold addr at 1. rewrite Z.eqb_refl. unfold erase_free_run. rewrite bind_modify. change (base_ p + (npages l1 + n) * kPageSize) with (addr p (npages l1 + n)).
    rewrite (o_free _ _ _ _ _ Ho). cbn [free_starts]. change (base_ p + (npages l1 + n) * kPageSize) with (addr p (npages l1 + n)).
    rewrite set_erase_middle.
    2: { intros y Hy. specialize (Hlt y Hy). unfold addr in *. plia. }
    2: { intros y Hy. apply (free_starts_range _ p) in Hy; [|done]. unfold addr in *. plia. }
    rewrite (bind_done _ _ _ _ _ (ByteSize_done (with_free_runs fr p) (npages l1) n Hn1 ltac:(cbn; plia) (proj2 Hseg))).
    rewrite (bind_done _ _ _ _ _ (ByteSize_done (with_free_runs fr p) (npages l1 + n) m ltac:(lia) ltac:(cbn; plia) (proj2 Hsegm))).
    rewrite <- Z.mul_add_distr_r.
    rewrite (bind_done _ _ _ _ _ (SetByteSize_done (with_free_runs fr p) (npages l1) (n + m) Hn1 ltac:(cbn; plia) ltac:(cbn; lia))).
    apply (coalesce_higher_stops p' (npages l1) (n + m) l2 (npages l1 + n + m) Hn1); [cbn; plia|apply Hseg'|done|lia|by left].
  - split; try apply Ho; try done.
    + cbn. rewrite (o_size _ _ _ _ _ Ho), npages_cons. lia.
    + cbn. rewrite length_insert. apply Ho.
    + apply size_insert_mapped; [lia|lia|lia|apply Ho].
    + split; [lia|done].
    + by rewrite Z.add_assoc.
    + cbn. unfold fr. by rewrite Z.add_assoc.
    + intros a Ha Hf Hd. apply (o_zero _ _ _ _ _ Ho a Ha Hf). destruct Hd as [Hd|Hd]; [by left|right]. intros Hr. apply Hd. clear -Hr Hm. unfold addr in *. cbn. plia.
Qed.

Lemma mapped_pos p i l : mapped p i l -> l <> [] -> 0 < npages l.
Proof.
  destruct l as [|[k n] l]; [done|]. intros (Hn & _ & Hl) _. pose proof (mapped_nonneg _ _ _ Hl). rewrite npages_cons. lia.
Qed.
Lemma coalesce_lower_stops p l i : mapped p 0 l -> npages l * kPageSize <= capacity_ p -> npages l <= i ->
  is_free (last l) = false -> coalesce_lower (addr p i) (rev (free_starts (base_ p) 0 l)) p = Done (addr p i, p).
Proof.
  intros Hm Hc Hi Hl. destruct (rev (free_starts (base_ p) 0 l)) as [|h hs] eqn:E; [done|]. cbn [coalesce_lower].
  assert (Hin : h ∈ free_starts (base_ p) 0 l) by (apply list_elem_of_In, in_rev; rewrite E; by left).
  apply free_starts_elem in Hin as (la & m & lb & -> & ->). rewrite Z.add_0_l.
  apply mapped_app in Hm as [Hma (Hm0 & [_ Hs] & Hmb)]. rewrite npages_app, npages_cons in *. rewrite Z.add_0_l in *.
  pose proof (mapped_nonneg _ _ _ Hma). assert (0 < npages lb).
  { apply (mapped_pos _ _ _ Hmb). intros ->. by rewrite last_snoc in Hl. }
  change (base_ p + npages la * kPageSize) with (addr p (npages la)).
  rewrite (bind_done _ _ _ _ _ (End_done p (npages la) m ltac:(lia) ltac:(plia) Hs)).
  destruct (Z.eqb_spec (addr p (npages la + m)) (addr p i)) as [He|]; [|done]. unfold addr in He. plia.
Qed.

Lemma coalesce_lower_spec d p l1 n l2 : open_inv d p l1 n l2 ->
  exists m l1' p', l1 = l1' ++ rest m /\ 0 <= m /\ is_free (last l1') = false /\
    coalesce_lower (addr p (npages l1)) (rev (free_starts (base_ p) 0 l1)) p = Done (addr p (npages l1'), p') /\
    open_inv d p' l1' (m + n) l2 /\ frame p p' /\ words p' = words p /\ footprint_ p' = footprint_ p.
Proof.
  intros Ho. destruct (open_facts _ _ _ _ _ Ho) as (Hn1 & Hn & Hn2 & Hc & Hlen & Hlt & Hgt). pose proof (o_run _ _ _ _ _ Ho) as [_ Hseg].
  pose proof (o_before _ _ _ _ _ Ho) as Hm1. destruct (is_free (last l1)) eqn:Eh.
  2: { exists 0, l1, p. rewrite app_nil_r. split; [done|]. split; [lia|]. split; [done|]. split; [|split; [done|by repeat split]].
       apply coalesce_lower_stops; try done; plia. }
  destruct l1 as [|[k m] l1 _] using rev_ind; [done|]. rewrite last_snoc in Eh. destruct k; try done.
  apply mapped_app in Hm1 as [Hm1 (Hm & Hsegm & _)]. rewrite npages_app in *. change (npages [(SFree, m)]) with (m + 0) in *. rewrite Z.add_0_r, Z.add_0_l in *.
  pose proof (mapped_nonneg _ _ _ Hm1). pose proof (o_coalesced _ _ _ _ _ Ho) as [Hco Hco2]. apply coalesced_app in Hco as (Hco1 & _ & Hco).
  assert (Hl : is_free (last l1) = false) by (destruct (is_free (last l1)); [by specialize (Hco eq_refl)|done]).
  set (fr := free_starts (base_ p) 0 l1 ++ free_starts (base_ p) (npages l1 + m + n) l2).
  set (p' := with_size_map (<[Z.to_nat (npages l1) := (m + n) * kPageSize]> (free_page_run_size_map_ p)) (with_free_runs fr p)).
  assert (Hm1' : mapped p' 0 l1) by (apply size_insert_mapped; [lia|lia|lia|done]).
  exists m, l1, p'. split; [unfold rest; destruct (Z.ltb_spec 0 m); [done|lia]|]. split; [lia|]. split; [done|]. split; [|split; [|by repeat split]].
  - rewrite free_starts_app, Z.add_0_l, rev_app_distr. cbn [free_starts rev app coalesce_lower].
    change (base_ p + npages l1 * kPageSize) with (addr p (npages l1)).
    rewrite (bind_done _ _ _ _ _ (End_done p (npages l1) m ltac:(lia) ltac:(plia) (proj2 Hsegm))), Z.eqb_refl.
    unfold erase_free_run. rewrite bind_modify, (o_free _ _ _ _ _ Ho), free_starts_app. cbn [free_starts]. rewrite <- app_assoc. cbn [app].
    rewrite Z.add_0_l, npages_app. change (npages [(SFree, m)]) with (m + 0). rewrite Z.add_0_r. change (base_ p + npages l1 * kPageSize) with (addr p (npages l1)).
    rewrite set_erase_middle.
    2: { intros y Hy. apply (free_starts_range _ p) in Hy; [|done]. unfold addr. plia. }
    2: { intros y Hy. specialize (Hgt y Hy). unfold addr in *. plia. }
    rewrite (bind_done _ _ _ _ _ (ByteSize_done (with_free_runs fr p) (npages l1) m ltac:(lia) ltac:(cbn; plia) (proj2 Hsegm))).
    rewrite (bind_done _ _ _ _ _ (ByteSize_done (with_free_runs fr p) (npages l1 + m) n ltac:(lia) ltac:(cbn; plia) (proj2 Hseg))).
    rewrite <- Z.mul_add_distr_r.
    rewrite (bind_done _ _ _ _ _ (SetByteSize_done (with_free_runs fr p) (npages l1) (m + n) ltac:(lia) ltac:(cbn; plia) ltac:(cbn; lia))).
    apply (coalesce_lower_stops p' l1 (npages l1)); [done|cbn; plia|lia|done].
  - split; try apply Ho; try done.
    + cbn. rewrite (o_size _ _ _ _ _ Ho), npages_app. change (npages [(SFree, m)]) with (m + 0). lia.
    + cbn. rewrite length_insert. apply Ho.
    + split; [lia|]. by apply size_insert_merged; try lia.
    + apply size_insert_mapped; [lia|lia|lia|]. rewrite Z.add_assoc. replace (npages l1 + m) with (npages (l1 ++ [(SFree, m)])) by (rewrite npages_app; unfold npages at 2; cbn; lia). apply Ho.
    + cbn. unfold fr. by rewrite Z.add_assoc.
    + intros a Ha Hf Hd. apply (o_zero _ _ _ _ _ Ho a Ha Hf). destruct Hd as [Hd|Hd]; [by left|right]. intros Hr. apply Hd.
      rewrite npages_app in Hr. change (npages [(SFree, m)]) with (m + 0) in Hr. clear -Hr Hm. unfold addr in *. cbn. plia.
Qed.

(** *** Giving memory back to the system *)
Definition empty_pages (p : Pages) (i n : Z) : Z := Z.of_nat (length (filter (fun j => pm p j = kPageMapEmpty) (seqZ i n))).

Lemma seqZ_S i (n : nat) : seqZ i (Z.of_nat (S n)) = i :: seqZ (i + 1) (Z.of_nat n).
Proof. rewrite seqZ_cons by lia. do 2 f_equal; lia. Qed.
Lemma release_pages_done n : forall i p, (forall j, i <= j < i + Z.of_nat n -> IsFreePage p j = true) ->
  exists m, release_pages n i p = Done (kPageSize * empty_pages p i (Z.of_nat n), with_page_map m p) /\
    forall j, pm (with_page_map m p) j = if (i <=? j) && (j <? i + Z.of_nat n) then kPageMapReleased else pm p j.
Proof.
  induction n as [|n IH]; intros i p Hf.
  - exists (page_map_ p). split; [by destruct p|]. intros j. split_ltb; done.
  - cbn [release_pages]. rewrite bind_gets, bind_check by (apply Hf; lia). rewrite bind_gets.
    unfold empty_pages. rewrite seqZ_S, filter_cons. case_bool_decide as He.
    + set (p1 := with_page_map (<[i := kPageMapReleased]> (page_map_ p)) p). rewrite bind_assoc. unfold set_pm. rewrite bind_modify, bind_ret. fold p1.
      assert (Hpm : forall j, i + 1 <= j -> pm p1 j = pm p j) by (intros j Hj; unfold p1; rewrite pm_insert; split_ltb; done).
      destruct (IH (i + 1) p1) as (m & E & Hm). { intros j Hj. unfold IsFreePage. rewrite Hpm by lia. apply Hf. lia. }
      rewrite (bind_done _ _ _ _ _ E). exists m. split.
      * rewrite decide_True by done. unfold empty_pages, mret, M_ret. cbn [length]. rewrite (filter_ext_in _ (fun j => pm p j = kPageMapEmpty)).
        -- replace (with_page_map m p1) with (with_page_map m p) by done. do 2 f_equal. lia.
        -- intros j Hj%elem_of_seqZ. by rewrite Hpm by lia.
      * intros j. specialize (Hm j). change (pm (with_page_map m p1) j) with (pm (with_page_map m p) j) in Hm. rewrite Hm.
        unfold p1. rewrite pm_insert. split_ltb; done.
    + rewrite bind_ret. destruct (IH (i + 1) p) as (m & E & Hm). { intros j Hj. apply Hf. lia. }
      rewrite (bind_done _ _ _ _ _ E). exists m. split; [rewrite decide_False by done; done|].
      intros j. rewrite Hm. specialize (Hf i ltac:(lia)). unfold IsFreePage in Hf.
      split_ltb; try done. replace j with i by lia. by destruct (pm p i).
Qed.

(** A range of pages that are free, after its release. *)
Definition released (p p' : Pages) (i n : Z) : Prop :=
  exists m, p' = with_page_map m (with_words (zero_range (words p) (addr p i) (n * kPageSize)) p) /\
    forall j, pm p' j = if (i <=? j) && (j <? i + n) then kPageMapReleased else pm p j.

Lemma ReleasePageRange_done p i n : base_ p mod kPageSize = 0 -> 0 <= i -> 0 < n -> i * kPageSize < capacity_ p ->
  (forall j, i <= j < i + n -> IsFreePage p j = true) ->
  exists p', ReleasePageRange (addr p i) (addr p i + n * kPageSize) p = Done (kPageSize * empty_pages p i n, p') /\ released p p' i n.
Proof.
  intros Hb Hi Hn Hc Hf. unfold ReleasePageRange. rewrite bind_check.
  2: { rewrite !andb_true_iff, Z.ltb_lt, !Z.eqb_eq. unfold addr. split; [split; [plia|]|].
       - by rewrite Z.mod_add by plia.
       - rewrite <- Z.add_assoc, <- Z.mul_add_distr_r. by rewrite Z.mod_add by plia. }
  rewrite bind_modify. replace (addr p i + n * kPageSize - addr p i) with (n * kPageSize) by lia. rewrite Z.div_mul by plia.
  set (p1 := with_words _ p). change (addr p i) with (addr p1 i) at 1.
  rewrite (bind_done _ _ _ _ _ (ToPageMapIndex_done p1 i Hi Hc)).
  destruct (release_pages_done (Z.to_nat n) i p1) as (m & E & Hm); rewrite Z2Nat.id in * by lia; [done|].
  eexists. split; [exact E|]. exists m. done.
Qed.
Lemma released_free p p' i n j : released p p' i n -> (forall j, i <= j < i + n -> IsFreePage p j = true) -> IsFreePage p' j = IsFreePage p j.
Proof. intros (m & _ & Hpm) Hf. unfold IsFreePage at 1. rewrite Hpm. split_ltb; try done. symmetry. apply Hf. lia. Qed.
Lemma released_words p p' i n a : released p p' i n ->
  ld (words p') a = if (addr p i <=? a) && (a <? addr p (i + n)) then 0 else ld (words p) a.
Proof.
  intros (m & -> & _). cbn. rewrite ld_zero_range. unfold addr. replace (base_ p + i * kPageSize + n * kPageSize) with (base_ p + (i + n) * kPageSize) by lia. done.
Qed.
Lemma released_mapped p p' i n j l : released p p' i n -> j + npages l <= i \/ i + n <= j -> mapped p j l -> mapped p' j l.
Proof.
  intros (m & -> & Hpm) Hj. apply mapped_ext. intros x Hx. split; [|done]. rewrite Hpm. split_ltb; done.
Qed.
Lemma released_seg p p' i n : released p p' i n -> seg_pages p i SFree n -> seg_pages p' i SFree n.
Proof.
  intros Hr [Hf Hs]. split; [|by destruct Hr as (m & -> & _)]. intros j Hj. rewrite (released_free _ _ _ _ _ Hr Hf). by apply Hf.
Qed.
Lemma released_frame p p' i n : released p p' i n -> frame p p' /\ footprint_ p' = footprint_ p /\ page_map_size_ p' = page_map_size_ p /\
  free_page_run_size_map_ p' = free_page_run_size_map_ p /\ free_page_runs_ p' = free_page_runs_ p.
Proof. intros (m & -> & _). by repeat split. Qed.

Lemma released_open d p p' l1 n l2 : open_inv d p l1 n l2 -> released p p' (npages l1) n -> open_inv false p' l1 n l2.
Proof.
  intros Ho Hr. destruct (open_facts _ _ _ _ _ Ho) as (Hn1 & Hn & Hn2 & Hc & Hlen & _). pose proof (o_run _ _ _ _ _ Ho) as [_ Hseg].
  destruct (released_frame _ _ _ _ Hr) as ((Eb & Ec & Emc & _) & Efp & Esz & Esm & Efr). pose proof Hr as (m & _ & Hpm).
  split; rewrite ?Eb, ?Ec, ?Emc, ?Efp, ?Esz, ?Esm, ?Efr; try apply Ho.
  - apply (released_mapped _ _ _ _ _ _ Hr); [lia|apply Ho].
  - split; [done|]. by apply (released_seg _ _ _ _ Hr).
  - apply (released_mapped _ _ _ _ _ _ Hr); [lia|apply Ho].
  - intros j Hj. rewrite Hpm. split_ltb; [done|by apply Ho..].
  - intros a Ha Hf _. rewrite (released_free _ _ _ _ _ Hr (proj1 Hseg)) in Hf. rewrite (released_words _ _ _ _ _ Hr). split_ltb; try done; apply (o_zero _ _ _ _ _ Ho a Ha Hf); right; lia.
Qed.

Lemma FreePageRun_ReleasePages_spec d p l1 n l2 : open_inv d p l1 n l2 -> (d = true -> page_release_mode_ p = kPageReleaseModeAll) ->
  exists p', FreePageRun_ReleasePages (addr p (npages l1)) p = Done (tt, p') /\ open_inv false p' l1 n l2 /\ frame p p' /\ footprint_ p' = footprint_ p /\
    ((d = false /\ words p' = words p) \/
     forall a, ld (words p') a = if (addr p (npages l1) <=? a) && (a <? addr p (npages l1 + n)) then 0 else ld (words p) a).
Proof.
  intros Ho Hd. destruct (open_facts _ _ _ _ _ Ho) as (Hn1 & Hn & Hn2 & Hc & Hlen & _). pose proof (o_run _ _ _ _ _ Ho) as [_ Hseg].
  pose proof (ByteSize_done p (npages l1) n Hn1 ltac:(plia) (proj2 Hseg)) as Hbs.
  unfold FreePageRun_ReleasePages, ShouldReleasePages. rewrite (bind_done _ _ _ _ _ Hbs), bind_assoc, (bind_done _ _ _ _ _ Hbs), bind_assoc, bind_gets, bind_ret.
  change (id p) with p. match goal with |- context [when ?b _] => destruct b eqn:Eb end; cbn [when].
  - destruct (ReleasePageRange_done p (npages l1) n) as (p' & E & Hr); [apply Ho|lia|lia|plia|apply Hseg|].
    rewrite (bind_done _ _ _ _ _ E). exists p'. split; [done|]. split; [by apply (released_open d p)|].
    destruct (released_frame _ _ _ _ Hr) as (Hf & Efp & _). do 2 (split; [done|]). right. intros a. by apply released_words.
  - exists p. split; [done|]. destruct d; [by rewrite Hd in Eb|]. split; [done|]. split; [by repeat split|]. split; [done|]. by left.
Qed.

(** Closing the heap again. *)
Lemma open_absent d p l1 n l2 : open_inv d p l1 n l2 -> is_free_run p (addr p (npages l1)) = false.
Proof.
  intros Ho. destruct (open_facts _ _ _ _ _ Ho) as (Hn1 & Hn & _ & _ & _ & Hlt & Hgt).
  unfold is_free_run. rewrite bool_decide_eq_false, (o_free _ _ _ _ _ Ho), elem_of_app. intros [Hx|Hx]; [apply Hlt in Hx; lia|apply Hgt in Hx].
  unfold addr in Hx. plia.
Qed.
Lemma open_close p l1 n l2 : open_inv false p l1 n l2 -> is_free (last l1) = false -> is_free (head l2) = false ->
  pages_inv (with_free_runs (set_insert (addr p (npages l1)) (free_page_runs_ p)) p) (l1 ++ (SFree, n) :: l2).
Proof.
  intros Ho H1 H2. destruct (open_facts _ _ _ _ _ Ho) as (Hn1 & Hn & Hn2 & Hc & Hlen & Hlt & Hgt). pose proof (o_run _ _ _ _ _ Ho) as [_ Hseg].
  split; try apply Ho; cbn.
  - rewrite npages_app, npages_cons, (o_size _ _ _ _ _ Ho). lia.
  - apply mapped_app. split; [apply (mapped_ext p); [done|apply Ho]|]. split; [done|]. split; [done|]. apply (mapped_ext p); [done|apply Ho].
  - rewrite (o_free _ _ _ _ _ Ho), set_insert_middle, free_starts_app; [done|done|]. intros y Hy. apply Hgt in Hy. unfold addr in *. plia.
  - apply coalesced_app. pose proof (o_coalesced _ _ _ _ _ Ho) as [Hc1 Hc2]. split; [done|]. split; [by split|]. rewrite H1. done.
  - intros a Ha Hf. by apply (o_zero _ _ _ _ _ Ho); [..|left].
Qed.

(** *** [FreePages] up to the merging *)
Lemma next_not_part p l1 k n l2 : pages_inv p (l1 ++ (k, n) :: l2) -> k <> SFree ->
  npages l2 = 0 \/ pm p (npages l1 + n) <> part_type k.
Proof.
  intros Hi Hk. destruct (inv_split _ _ _ _ _ Hi) as (_ & _ & _ & _ & _ & _ & Hm & _).
  destruct l2 as [|[k2 m] l2]; [by left|right]. destruct Hm as (Hm0 & Hs & _). destruct k2; cbn in Hs.
  - destruct Hs as [Hs _]. specialize (Hs (npages l1 + n) ltac:(lia)). unfold IsFreePage in Hs. intros E. rewrite E in Hs. by destruct k.
  - destruct Hs as [-> _]. by destruct k.
  - destruct Hs as [-> _]. by destruct k.
Qed.
Definition open_at (p : Pages) (m : gmap Z PageMapKind) (w : gmap Z Z) (i n : Z) : Pages :=
  with_size_map (<[Z.to_nat i := n * kPageSize]> (free_page_run_size_map_ p)) (with_words w (with_page_map m p)).
Lemma opened d p l1 k n l2 m w : pages_inv p (l1 ++ (k, n) :: l2) -> k <> SFree ->
  (forall j, pm (with_page_map m p) j = if (npages l1 <=? j) && (j <? npages l1 + n) then kPageMapEmpty else pm p j) ->
  (forall a, ~ addr p (npages l1) <= a < addr p (npages l1 + n) -> ld w a = ld (words p) a) ->
  (d = false -> forall a, addr p (npages l1) <= a < addr p (npages l1 + n) -> ld w a = 0) ->
  open_inv d (open_at p m w (npages l1) n) l1 n l2.
Proof.
  intros Hi Hk Hm Hw Hd. destruct (inv_split _ _ _ _ _ Hi) as (Hn1 & Hn0 & Hn2 & Etot & Hm1 & _ & Hm2 & _ & _ & Efree).
  pose proof (p_sizes _ _ Hi) as Hlen. pose proof (p_size _ _ Hi) as Hsz. rewrite Etot in Hsz.
  assert (Hpm : forall j, pm (open_at p m w (npages l1) n) j = pm (with_page_map m p) j) by done.
  assert (Hext : forall i l, 0 <= i -> i + npages l <= npages l1 \/ npages l1 + n <= i -> mapped p i l -> mapped (open_at p m w (npages l1) n) i l).
  { intros i l Hi0 Hr. apply mapped_ext. intros j Hj. rewrite Hpm, Hm. cbn. rewrite size_insert by lia. split; split_ltb; done. }
  split; try apply Hi; cbn.
  - lia.
  - rewrite length_insert. done.
  - by apply Hext; [lia|lia|].
  - split; [done|]. split; [|cbn; rewrite size_insert by lia; by rewrite Z.eqb_refl].
    intros j Hj. unfold IsFreePage. rewrite Hpm, Hm. split_ltb; done.
  - by apply Hext; [lia|lia|].
  - rewrite Efree. by destruct k.
  - pose proof (p_coalesced _ _ Hi) as Hc. apply coalesced_app in Hc as (? & [_ ?] & _). done.
  - intros j Hj. rewrite Hpm, Hm. split_ltb; by apply Hi.
  - intros a Ha Hf Hr. unfold IsFreePage in Hf. rewrite Hpm, Hm in Hf.
    destruct (decide (addr p (npages l1) <= a < addr p (npages l1 + n))) as [Hin|Hout]; [destruct Hr as [->|Hr]; [by apply Hd|by destruct (Hr Hin)]|].
    rewrite Hw by done. apply Hi; [done|]. revert Hf. destruct (Z.leb_spec (npages l1) ((a - base_ p) / kPageSize)) as [Hlo|]; [|done].
    destruct (Z.ltb_spec ((a - base_ p) / kPageSize) (npages l1 + n)) as [Hhi|]; [|done]. destruct Hout. unfold addr.
    pose proof (Z.div_mod (a - base_ p) kPageSize ltac:(plia)). pose proof (Z.mod_pos_bound (a - base_ p) kPageSize ltac:(plia)). plia.
Qed.

Lemma FreePages_opens p l1 k n l2 (z : bool) : pages_inv p (l1 ++ (k, n) :: l2) -> k <> SFree ->
  (z = true -> forall a, addr p (npages l1) <= a < addr p (npages l1 + n) -> ld (words p) a = 0) ->
  exists d p3, open_inv d p3 l1 n l2 /\ (d = true -> page_release_mode_ p3 = kPageReleaseModeAll) /\ frame p p3 /\ footprint_ p3 = footprint_ p /\
    (forall a, ~ addr p (npages l1) <= a < addr p (npages l1 + n) -> ld (words p3) a = ld (words p) a) /\
    FreePages (addr p (npages l1)) z p =
      (insert_freed (addr p3 (npages l1));; mret (n * kPageSize)) p3.
Proof.
  intros Hi Hk Hz. destruct (inv_split _ _ _ _ _ Hi) as (Hn1 & Hn0 & Hn2 & Etot & _ & Hs & _). pose proof (p_size _ _ Hi) as Hsz. rewrite Etot in Hsz.
  pose proof (inv_index _ _ (npages l1) Hi ltac:(lia)) as Hc. pose proof (p_sizes _ _ Hi) as Hlen.
  pose proof (next_not_part _ _ _ _ _ Hi Hk) as Hnext. set (i := npages l1) in *.
  assert (Hseg : pm p i = seg_type k /\ forall j, i < j < i + n -> pm p j = part_type k) by (by destruct k).
  set (p1 := with_page_map (<[i := kPageMapEmpty]> (page_map_ p)) p).
  destruct (free_parts_done (part_type k) (Z.to_nat (n - 1))) with (fuel := Z.to_nat (page_map_size_ p - (i + 1))) (idx := i + 1) (p := p1) as (m & Ep & Hm).
  { by destruct k. } { lia. }
  { intros j Hj. unfold p1. rewrite pm_insert. split_ltb. apply Hseg. lia. }
  { rewrite Z2Nat.id by lia. destruct Hnext as [Hnext|Hnext]; [left; lia|right]. unfold p1. rewrite pm_insert. split_ltb. by replace (i + 1 + (n - 1)) with (i + n) by lia. }
  rewrite Z2Nat.id in * by lia. change (with_page_map m p1) with (with_page_map m p) in *.
  assert (Hpm : forall j, pm (with_page_map m p) j = if (i <=? j) && (j <? i + n) then kPageMapEmpty else pm p j).
  { intros j. rewrite Hm. unfold p1. rewrite pm_insert. split_ltb; done. }
  set (dirty := negb z && negb (DoesReleaseAllPages p)).
  set (w := if dirty then zero_range (words p) (addr p i) (n * kPageSize) else words p).
  assert (Hw : forall a, ~ addr p i <= a < addr p (i + n) -> ld w a = ld (words p) a).
  { intros a Ha. unfold w. destruct dirty; [|done]. rewrite ld_zero_range. unfold addr in *. split_ltb; try done; plia. }
  exists (negb z && DoesReleaseAllPages p), (open_at p m w i n). split; [|split; [|split; [by repeat split|split; [done|split; [done|]]]]].
  - apply (opened _ _ _ k); try done. intros Hd a Ha. unfold w, dirty in *. destruct z; cbn in *; [by apply Hz|].
    rewrite Hd. cbn. rewrite ld_zero_range. unfold addr in *. fold i in Ha. split_ltb; try done; plia.
  - intros Hd%andb_true_iff. destruct Hd as [_ Hd]. by apply bool_decide_eq_true in Hd.
  - unfold FreePages. rewrite (bind_done _ _ _ _ _ (ToPageMapIndex_done p i Hn1 Hc)), bind_gets, bind_check by (apply Z.ltb_lt; lia).
    rewrite bind_gets, (proj1 Hseg), (bind_done _ _ p (part_type k) p) by (by destruct k). unfold set_pm. rewrite bind_modify, bind_gets. fold p1.
    rewrite (bind_done _ _ _ _ _ Ep), bind_gets. replace (n - 1 + 1) with n by lia.
    rewrite (bind_done _ _ _ tt (with_words w (with_page_map m p))) by (unfold w, dirty; destruct z, (DoesReleaseAllPages p) eqn:E; cbn; unfold DoesReleaseAllPages in *; cbn; rewrite ?E; by destruct p).
    change (addr p i) with (addr (with_words w (with_page_map m p)) i).
    by rewrite (bind_done _ _ _ _ _ (SetByteSize_done (with_words w (with_page_map m p)) i n Hn1 Hc ltac:(cbn; lia))).
Qed.

Lemma insert_freed_spec d p l1 n l2 : open_inv d p l1 n l2 -> (d = true -> page_release_mode_ p = kPageReleaseModeAll) ->
  exists l1' m1 m2 l2' p', l1 = l1' ++ rest m1 /\ l2 = rest m2 ++ l2' /\ 0 <= m1 /\ 0 <= m2 /\
    is_free (last l1') = false /\ is_free (head l2') = false /\
    insert_freed (addr p (npages l1)) p = Done (tt, p') /\ pages_inv p' (l1' ++ (SFree, m1 + n + m2) :: l2') /\
    frame p p' /\ footprint_ p' = footprint_ p /\
    ((d = false /\ words p' = words p) \/
     forall a, ld (words p') a = if (addr p (npages l1') <=? a) && (a <? addr p (npages l1' + (m1 + n + m2))) then 0 else ld (words p) a).
Proof.
  intros Ho Hd. destruct (open_facts _ _ _ _ _ Ho) as (Hn1 & Hn & _ & _ & _ & Hlt & Hgt). unfold insert_freed.
  rewrite bind_gets, (open_absent _ _ _ _ _ Ho), bind_check by done.
  rewrite bind_gets, (o_free _ _ _ _ _ Ho), filter_app.
  rewrite (filter_none _ (free_starts (base_ p) 0 l1)), (filter_all _ (free_starts (base_ p) (npages l1 + n) l2)).
  2: { intros x Hx. apply Hgt in Hx. unfold addr in *. plia. }
  2: { intros x Hx. apply Hlt in Hx. lia. }
  destruct (coalesce_higher_spec _ _ _ _ _ Ho) as (m2 & l2' & p1 & -> & Hm2 & Hh & E1 & Ho1 & Hf1 & Hw1 & Hfp1).
  cbn [app]. rewrite (bind_done _ _ _ _ _ E1), bind_gets.
  destruct (open_facts _ _ _ _ _ Ho1) as (_ & _ & _ & _ & _ & Hlt1 & Hgt1).
  rewrite (o_free _ _ _ _ _ Ho1), filter_app. assert (Ea : forall i, addr p1 i = addr p i) by (intros i; unfold addr; by rewrite (proj1 Hf1)).
  rewrite <- Ea. rewrite (filter_all _ (free_starts (base_ p1) 0 l1)), (filter_none _ (free_starts (base_ p1) (npages l1 + (n + m2)) l2')), app_nil_r.
  2: { intros x Hx. apply Hgt1 in Hx. unfold addr in *. plia. }
  2: { intros x Hx. apply Hlt1 in Hx. lia. }
  destruct (coalesce_lower_spec _ _ _ _ _ Ho1) as (m1 & l1' & p2 & -> & Hm1 & Hl & E2 & Ho2 & Hf2 & Hw2 & Hfp2).
  rewrite (bind_done _ _ _ _ _ E2), bind_gets. assert (Ea2 : forall i, addr p2 i = addr p1 i) by (intros i; unfold addr; by rewrite (proj1 Hf2)).
  assert (Hmode : d = true -> page_release_mode_ p2 = kPageReleaseModeAll).
  { intros H'. destruct Hf1 as (_ & _ & _ & Hmo1 & _), Hf2 as (_ & _ & _ & Hmo2 & _). rewrite Hmo2, Hmo1. by apply Hd. }
  rewrite <- Ea2, (open_absent _ _ _ _ _ Ho2), bind_check by done.
  destruct (FreePageRun_ReleasePages_spec _ _ _ _ _ Ho2 Hmode) as (p3 & E3 & Ho3 & Hf3 & Hfp3 & Hw3).
  rewrite (bind_done _ _ _ _ _ E3). assert (Ea3 : addr p2 (npages l1') = addr p3 (npages l1')) by (unfold addr; by rewrite (proj1 Hf3)).
  rewrite Ea3. exists l1', m1, m2, l2'. eexists. repeat (split; [done|]). split; [rewrite <- Z.add_assoc; by apply open_close|].
  split; [by apply (frame_trans _ _ _ Hf1), (frame_trans _ _ _ Hf2), (frame_trans _ _ _ Hf3)|]. split; [cbn; congruence|]. cbn.
  rewrite <- Z.add_assoc, <- !Ea, <- !Ea2, <- Hw1, <- Hw2. done.
Qed.

(** *** [FreePages] *)
Lemma FreePages_spec p l1 k n l2 (z : bool) : pages_inv p (l1 ++ (k, n) :: l2) -> k <> SFree ->
  (z = true -> forall a, addr p (npages l1) <= a < addr p (npages l1 + n) -> ld (words p) a = 0) ->
  exists l1' m1 m2 l2' p', l1 = l1' ++ rest m1 /\ l2 = rest m2 ++ l2' /\ 0 <= m1 /\ 0 <= m2 /\
    is_free (last l1') = false /\ is_free (head l2') = false /\
    FreePages (addr p (npages l1)) z p = Done (n * kPageSize, p') /\ pages_inv p' (l1' ++ (SFree, m1 + n + m2) :: l2') /\
    frame p p' /\ footprint_ p' = footprint_ p /\
    forall a, ld (words p') a = if (addr p (npages l1) <=? a) && (a <? addr p (npages l1 + n)) then 0 else ld (words p) a.
Proof.
  intros Hi Hk Hz. destruct (FreePages_opens p l1 k n l2 z Hi Hk Hz) as (d & p3 & Ho & Hd & Hf & Hfp & Hw & E).
  destruct (insert_freed_spec _ _ _ _ _ Ho Hd) as (l1' & m1 & m2 & l2' & p' & -> & -> & Hm1 & Hm2 & Hl & Hh & E' & Hi' & Hf' & Hfp' & Hw').
  rewrite E. rewrite (bind_done _ _ _ _ _ E'). exists l1', m1, m2, l2', p'. repeat (split; [done|]).
  split; [by apply (frame_trans _ _ _ Hf)|]. split; [congruence|]. intros a.
  assert (Ea : forall i, addr p3 i = addr p i) by (intros i; unfold addr; by rewrite (proj1 Hf)).
  assert (Ea' : forall i, addr p' i = addr p i) by (intros i; unfold addr; rewrite (proj1 Hf'); by rewrite (proj1 Hf)).
  pose proof (free_seg_zero p' l1' (m1 + n + m2) l2' a Hi') as Hz'. rewrite !Ea' in Hz'.
  rewrite npages_app, npages_rest in * by done. pose proof (o_run _ _ _ _ _ Ho) as [Hn0 _].
  destruct ((addr p (npages l1' + m1) <=? a) && (a <? addr p (npages l1' + m1 + n))) eqn:Er; [apply Hz'|].
  { apply andb_true_iff in Er as [?%Z.leb_le ?%Z.ltb_lt]. unfold addr in *. plia. }
  assert (Hout : ~ addr p (npages l1' + m1) <= a < addr p (npages l1' + m1 + n)).
  { apply andb_false_iff in Er as [?%Z.leb_gt|?%Z.ltb_ge]; lia. }
  rewrite <- (Hw a Hout). destruct Hw' as [[_ ->]|Hw']; [done|]. rewrite Hw', !Ea.
  destruct ((addr p (npages l1') <=? a) && (a <? addr p (npages l1' + (m1 + n + m2)))) eqn:Em; [|done].
  apply andb_true_iff in Em as [Em1%Z.leb_le Em2%Z.ltb_lt]. rewrite (Hw a Hout). symmetry.
  destruct (Z.lt_ge_cases a (addr p (npages l1' + m1))).
  - assert (Hm : 0 < m1) by (unfold addr in *; plia). rewrite <- app_assoc in Hi. unfold rest in Hi at 1. rewrite (proj2 (Z.ltb_lt 0 m1) Hm) in Hi.
    by apply (free_seg_zero p l1' m1 _ a Hi).
  - assert (Hm : 0 < m2) by (unfold addr in *; plia). unfold rest in Hi at 2. rewrite (proj2 (Z.ltb_lt 0 m2) Hm) in Hi. cbn [app] in Hi.
    rewrite (cons_middle (k, n)), app_assoc in Hi. apply (free_seg_zero p _ m2 _ a Hi).
    rewrite !npages_app, npages_rest by done. change (npages [(k, n)]) with (n + 0). clear -Hout Em1 Em2 H. unfold addr in *. plia.
Qed.

(** ** The footprint *)
(** The heap without the free pages at its end. *)
Lemma trimmed_inv p l0 n : pages_inv p (l0 ++ [(SFree, n)]) ->
  pages_inv (with_footprint (npages l0 * kPageSize) (with_size_map (resize (npages l0) (free_page_run_size_map_ p))
    (with_page_map_size (npages l0) (with_page_map (filter (fun kv => kv.1 < npages l0) (page_map_ p))
      (with_free_runs (free_starts (base_ p) 0 l0) p))))) l0.
Proof.
  intros Hi. destruct (inv_split _ _ _ _ _ Hi) as (Hn1 & Hn0 & _ & Etot & Hm1 & [Hf _] & _). change (npages []) with 0 in Etot. rewrite Z.add_0_r in Etot.
  pose proof (p_size _ _ Hi) as Hsz. rewrite Etot in Hsz. pose proof (p_sizes _ _ Hi) as Hlen. pose proof (p_capacity _ _ Hi) as Hcap. pose proof (p_footprint _ _ Hi) as Hfp.
  set (p' := with_footprint _ _).
  assert (Hpm : forall j, pm p' j = if j <? npages l0 then pm p j else kPageMapReleased).
  { intros j. unfold pm, p'. cbn. destruct (Z.ltb_spec j (npages l0)).
    - destruct (page_map_ p !! j) as [k|] eqn:E; [by rewrite (map_lookup_filter_Some_2 _ _ _ k)|]. by rewrite map_lookup_filter_None_2 by (by left).
    - rewrite map_lookup_filter_None_2; [done|]. right. intros k _. cbn. lia. }
  split; try apply Hi; cbn.
  - done.
  - done.
  - by rewrite length_resize_Z.
  - plia.
  - apply (mapped_ext p); [|done]. intros j Hj. rewrite Hpm. cbn. split; [split_ltb; done|]. unfold resize. rewrite lookup_resize; [done|lia|lia].
  - done.
  - pose proof (p_coalesced _ _ Hi) as Hc. by apply coalesced_app in Hc as (? & _).
  - intros j Hj. rewrite Hpm. split_ltb; done.
  - intros a Ha Hfree. apply Hi; [done|]. unfold IsFreePage in Hfree |- *. rewrite Hpm in Hfree. revert Hfree. split_ltb; try done; intros _.
    destruct (Z.lt_ge_cases ((a - base_ p) / kPageSize) (npages l0 + n)); [apply Hf; lia|]. by rewrite (p_beyond _ _ Hi) by lia.
Qed.

Lemma Trim_spec p l : pages_inv p l ->
  exists l0 n p', l = l0 ++ rest n /\ 0 <= n /\ is_free (last l0) = false /\ Trim p = Done (0 <? n, p') /\ pages_inv p' l0 /\
    frame p p' /\ words p' = words p /\ footprint_ p' = footprint_ p - n * kPageSize.
Proof.
  intros Hi. destruct (split_end p l Hi) as (l0 & n & -> & Hn & Hl). exists l0, n. pose proof (p_size _ _ Hi) as Hsz. pose proof (p_footprint _ _ Hi) as Hfp.
  pose proof (p_capacity _ _ Hi) as Hcap. rewrite npages_app, npages_rest in Hsz by done. unfold Trim. rewrite bind_gets. destruct (Z.ltb_spec 0 n) as [Hpos|Hz].
  - assert (Er : rest n = [(SFree, n)]) by (unfold rest; by destruct (Z.ltb_spec 0 n); [|lia]). rewrite Er in *.
    destruct (inv_split _ _ _ _ _ Hi) as (Hn1 & _ & _ & _ & _ & [Hf Hs] & _ & Hlt & _ & Efree).
    cbn in Efree. rewrite Efree, last_snoc. pose proof (inv_index _ _ (npages l0) Hi ltac:(rewrite npages_app, npages_cons; change (npages []) with 0; lia)) as Hc.
    rewrite (bind_done _ _ _ _ _ (End_done p (npages l0) n Hn1 Hc Hs)), bind_gets.
    replace (addr p (npages l0 + n) =? base_ p + footprint_ p) with true by (symmetry; apply Z.eqb_eq; unfold addr; rewrite Hfp, Hsz; lia).
    rewrite (bind_done _ _ _ _ _ (ToPageMapIndex_done p (npages l0) Hn1 Hc)), bind_gets. rewrite bind_check by (apply Hf; lia).
    unfold erase_free_run. rewrite bind_modify, Efree. rewrite set_erase_middle by (try done; intros y Hy; by apply elem_of_nil in Hy). rewrite app_nil_r.
    set (p1 := with_free_runs _ p). change (addr p (npages l0)) with (addr p1 (npages l0)).
    rewrite (bind_done _ _ _ _ _ (ByteSize_done p1 (npages l0) n Hn1 Hc Hs)), bind_gets.
    replace (footprint_ p1 - n * kPageSize) with (npages l0 * kPageSize) by (cbn; rewrite Hfp, Hsz; lia). rewrite Z.div_mul, Z.mod_mul by plia.
    rewrite bind_gets, bind_check by (apply andb_true_iff; split; [done|apply Z.leb_le; cbn; lia]).
    rewrite !bind_modify, bind_gets, bind_check by (apply andb_true_iff; rewrite !Z.ltb_lt; cbn; plia). rewrite bind_modify.
    eexists. repeat (split; [done|]). split; [by apply (trimmed_inv p l0 n)|]. split; [by repeat split|]. split; [done|]. cbn. plia.
  - assert (n = 0) as -> by lia. change (rest 0) with (@nil (segkind * Z)) in *. rewrite app_nil_r in *. exists p.
    do 3 (split; [done|]). split; [|split; [done|split; [by repeat split|split; [done|lia]]]].
    destruct (last (free_page_runs_ p)) as [x|] eqn:Ex; [|done]. destruct (last_run_inside p l0 x Hi Hl Ex) as (e & Ee & Hne).
    rewrite (bind_done _ _ _ _ _ Ee), bind_gets. by destruct (Z.eqb_spec e (base_ p + footprint_ p)).
Qed.

Lemma RoundUp_aligned c : 0 <= c -> c mod kPageSize = 0 -> c + kPageSize <= 2 ^ 64 -> RoundUp c kPageSize = c.
Proof.
  intros H0 Hc Hm. change kPageSize with (2 ^ 12) in *. rewrite RoundUp_pow2 by lia. pose proof (Z.div_mod c (2 ^ 12) ltac:(lia)).
  replace (c + 2 ^ 12 - 1) with (2 ^ 12 - 1 + c / 2 ^ 12 * 2 ^ 12) by lia. rewrite Z.div_add by lia. rewrite (Z.div_small (2 ^ 12 - 1)) by lia. lia.
Qed.
Lemma SetFootprintLimit_spec p l c : pages_inv p l -> 0 <= c -> c mod kPageSize = 0 -> c <= max_capacity_ p ->
  SetFootprintLimit c p = Done (tt, if capacity_ p <? c then with_capacity c p else p) /\
  pages_inv (if capacity_ p <? c then with_capacity c p else p) l.
Proof.
  intros Hi H0 Hc Hm. unfold SetFootprintLimit. rewrite bind_check.
  2: { apply Z.eqb_eq. apply RoundUp_aligned; [lia|done|]. pose proof (p_base _ _ Hi). pose proof (Z.div_mod (base_ p) kPageSize ltac:(plia)). plia. }
  rewrite bind_gets. change (id p) with p. destruct (Z.ltb_spec (capacity_ p) c); cbn [when]; [|done].
  rewrite bind_check by (by apply Z.leb_le). split; [done|]. pose proof (p_capacity _ _ Hi). split; try apply Hi; cbn; try lia.
  - split; [done|apply Hi].
  - apply (mapped_ext p); [done|apply Hi].
Qed.

(** ** [ReleasePages] *)
Lemma empty_pages_app p i a b : 0 <= a -> 0 <= b -> empty_pages p i (a + b) = empty_pages p i a + empty_pages p (i + a) b.
Proof. intros Ha Hb. unfold empty_pages. rewrite seqZ_app, filter_app, length_app by done. lia. Qed.
Lemma empty_pages_none p i n : (forall j, i <= j < i + n -> pm p j <> kPageMapEmpty) -> empty_pages p i n = 0.
Proof. intros Hj. unfold empty_pages. rewrite filter_none; [done|]. intros j Hin%elem_of_seqZ. by apply Hj. Qed.
Lemma empty_pages_ext p p' i n : (forall j, i <= j < i + n -> pm p' j = pm p j) -> empty_pages p' i n = empty_pages p i n.
Proof. intros Hj. unfold empty_pages. rewrite (filter_ext_in _ (fun j => pm p j = kPageMapEmpty)); [done|]. intros j Hin%elem_of_seqZ. by rewrite Hj. Qed.

Lemma released_inv p p' l1 n l2 : pages_inv p (l1 ++ (SFree, n) :: l2) -> released p p' (npages l1) n ->
  pages_inv p' (l1 ++ (SFree, n) :: l2) /\ forall a, ld (words p') a = ld (words p) a.
Proof.
  intros Hi Hr. destruct (inv_split _ _ _ _ _ Hi) as (Hn1 & Hn & Hn2 & Etot & Hm1 & Hseg & Hm2 & _).
  destruct (released_frame _ _ _ _ Hr) as ((Eb & Ec & Emc & _) & Efp & Esz & Esm & Efr). pose proof Hr as (m & _ & Hpm).
  assert (Hw : forall a, ld (words p') a = ld (words p) a).
  { intros a. rewrite (released_words _ _ _ _ _ Hr). destruct (_ && _) eqn:E; [|done]. symmetry. apply (free_seg_zero p l1 n l2 a Hi).
    apply andb_true_iff in E as [?%Z.leb_le ?%Z.ltb_lt]. lia. }
  split; [|done]. split; rewrite ?Eb, ?Ec, ?Emc, ?Efp, ?Esz, ?Esm, ?Efr; try apply Hi.
  - apply mapped_app. split; [by apply (released_mapped _ _ _ _ _ _ Hr); [lia|]|]. split; [done|]. split; [by apply (released_seg _ _ _ _ Hr)|].
    by apply (released_mapped _ _ _ _ _ _ Hr); [lia|].
  - intros j Hj. rewrite Hpm. split_ltb; try done; by apply Hi.
  - intros a Ha Hf. rewrite (released_free _ _ _ _ _ Hr (proj1 Hseg)) in Hf. rewrite Hw. by apply Hi.
Qed.

Lemma release_skips p c : forall fuel i, 0 <= i -> i + Z.of_nat c <= page_map_size_ p ->
  (forall j, i <= j < i + Z.of_nat c -> IsFreePage p j = false) ->
  release_from (c + fuel) i p = release_from fuel (i + Z.of_nat c) p.
Proof.
  induction c as [|c IH]; intros fuel i Hi Hs Hf; [by rewrite Z.add_0_r|]. cbn [Nat.add release_from]. rewrite bind_gets. change (id p) with p.
  destruct (Z.ltb_spec i (page_map_size_ p)); [|lia]. rewrite Hf by lia. cbn [andb]. rewrite IH; [|lia|lia|intros; apply Hf; lia]. f_equal. lia.
Qed.

Definition all_released (p p' : Pages) (i : Z) : Prop := forall j, pm p' j = if (i <=? j) && bool_decide (pm p j = kPageMapEmpty) then kPageMapReleased else pm p j.

Lemma seg_used p i k n j : seg_pages p i k n -> k <> SFree -> i <= j < i + n -> IsFreePage p j = false /\ pm p j <> kPageMapEmpty.
Proof.
  intros Hs Hk Hj. unfold IsFreePage. destruct (decide (j = i)) as [->|]; destruct k; try done; cbn in Hs; destruct Hs as [Hs1 Hs2];
    rewrite ?Hs1, ?Hs2 by lia; done.
Qed.

Lemma release_from_spec l2 : forall l1 p fuel, pages_inv p (l1 ++ l2) -> (Z.to_nat (npages l2) < fuel)%nat ->
  exists p', release_from fuel (npages l1) p = Done (kPageSize * empty_pages p (npages l1) (npages l2), p') /\
    pages_inv p' (l1 ++ l2) /\ frame p p' /\ footprint_ p' = footprint_ p /\ (forall a, ld (words p') a = ld (words p) a) /\
    all_released p p' (npages l1).
Proof.
  induction l2 as [|[k n] l2 IH]; intros l1 p fuel Hi Hfuel.
  - exists p. rewrite app_nil_r in *. pose proof (p_size _ _ Hi) as Hsz. destruct fuel as [|fuel]; [lia|]. cbn [release_from]. rewrite bind_gets.
    change (id p) with p. destruct (Z.ltb_spec (npages l1) (page_map_size_ p)); [lia|]. split; [by destruct p|]. repeat (split; [done|]).
    intros j. destruct (Z.leb_spec (npages l1) j); [|done]. by rewrite (p_beyond _ _ Hi) by lia.
  - destruct (inv_split _ _ _ _ _ Hi) as (Hn1 & Hn & Hn2 & Etot & Hm1 & Hseg & Hm2 & _ & _ & Efree). pose proof (p_size _ _ Hi) as Hsz. rewrite Etot in Hsz.
    rewrite npages_cons in *. rewrite empty_pages_app by lia.
    assert (Enp : npages (l1 ++ [(k, n)]) = npages l1 + n) by (rewrite npages_app, npages_cons; change (npages []) with 0; lia).
    destruct (decide (k = SFree)) as [->|Hk].
    + destruct fuel as [|fuel]; [lia|]. cbn [release_from]. rewrite bind_gets. change (id p) with p.
      destruct (Z.ltb_spec (npages l1) (page_map_size_ p)); [|lia]. rewrite (proj1 Hseg) by lia.
      change (base_ p + npages l1 * kPageSize) with (addr p (npages l1)). pose proof (inv_index _ _ (npages l1) Hi ltac:(lia)) as Hc.
      unfold is_free_run. rewrite bool_decide_eq_true_2 by (rewrite Efree; cbn; set_solver). cbn [andb].
      rewrite (bind_done _ _ _ _ _ (ByteSize_done p (npages l1) n Hn1 Hc (proj2 Hseg))).
      destruct (ReleasePageRange_done p (npages l1) n) as (p1 & E1 & Hr); [apply Hi|lia|lia|lia|apply Hseg|].
      rewrite (bind_done _ _ _ _ _ E1), Z.div_mul by plia. rewrite bind_check by (apply Z.ltb_lt; lia).
      rewrite bind_check by (apply Z.leb_le; lia). destruct (released_inv _ _ _ _ _ Hi Hr) as [Hi1 Hw1].
      destruct (released_frame _ _ _ _ Hr) as (Hf1 & Hfp1 & _). pose proof Hr as (m & _ & Hpm).
      rewrite cons_middle, app_assoc in Hi1. destruct (IH (l1 ++ [(SFree, n)]) p1 fuel Hi1 ltac:(lia)) as (p' & E & Hi' & Hf' & Hfp' & Hw' & Hpm').
      rewrite Enp in *. rewrite (bind_done _ _ _ _ _ E). exists p'. rewrite (empty_pages_ext p p1) by (intros j Hj; rewrite Hpm; split_ltb; done).
      split; [unfold mret, M_ret; do 2 f_equal; lia|]. rewrite cons_middle, app_assoc. split; [done|]. split; [by apply (frame_trans _ _ _ Hf1)|].
      split; [congruence|]. split; [congruence|]. intros j. rewrite Hpm', Hpm.
      destruct (decide (npages l1 <= j < npages l1 + n)) as [Hj|Hj].
      * pose proof (proj1 Hseg j Hj) as Hfree. unfold IsFreePage in Hfree. split_ltb; cbn; try done; by destruct (pm p j).
      * split_ltb; done.
    + pose proof (fun j => seg_used p (npages l1) k n j Hseg Hk) as Hu.
      replace fuel with (Z.to_nat n + (fuel - Z.to_nat n))%nat by lia.
      rewrite release_skips; [|lia|lia|intros j Hj; apply Hu; lia]. rewrite Z2Nat.id by lia.
      rewrite cons_middle, app_assoc in Hi. destruct (IH (l1 ++ [(k, n)]) p (fuel - Z.to_nat n)%nat Hi ltac:(lia)) as (p' & E & Hi' & Hf' & Hfp' & Hw' & Hpm').
      rewrite Enp in *. exists p'. rewrite empty_pages_none by (intros j Hj; by apply Hu). split; [done|]. rewrite cons_middle, app_assoc.
      repeat (split; [done|]). intros j. rewrite Hpm'. destruct (decide (npages l1 <= j < npages l1 + n)) as [Hj|Hj]; [|split_ltb; done].
      destruct (Hu j Hj) as [_ Hne]. rewrite bool_decide_eq_false_2 by done. by rewrite !andb_false_r.
Qed.

Lemma ReleasePages_spec p l : pages_inv p l -> page_release_mode_ p <> kPageReleaseModeAll ->
  exists p', ReleasePages p = Done (kPageSize * empty_pages p 0 (npages l), p') /\ pages_inv p' l /\ frame p p' /\
    footprint_ p' = footprint_ p /\ (forall a, ld (words p') a = ld (words p) a) /\ all_released p p' 0.
Proof.
  intros Hi Hm. unfold ReleasePages. rewrite bind_gets, bind_check.
  2: { unfold DoesReleaseAllPages. by rewrite bool_decide_eq_false_2. }
  rewrite bind_gets, (p_size _ _ Hi). apply (release_from_spec l [] p); [done|]. lia.
Qed.

(** ** A new heap *)
Lemma Create_spec base c mc mode threshold :
  0 < base -> base mod kPageSize = 0 -> base + mc * kPageSize <= 2 ^ 64 -> 0 < c <= mc -> threshold mod kPageSize = 0 ->
  exists p, Create base (c * kPageSize) (mc * kPageSize) mode threshold = Done (mkRosAlloc p ∅ ∅ ∅ ∅) /\
    pages_inv p [(SFree, c)] /\ (forall a, ld (words p) a = 0) /\
    base_ p = base /\ capacity_ p = c * kPageSize /\ max_capacity_ p = mc * kPageSize /\ footprint_ p = c * kPageSize /\
    page_release_mode_ p = mode.
Proof.
  intros Hb0 Hb Hmax Hc Ht. pose proof (Z.div_mod base kPageSize ltac:(plia)) as Hdiv. unfold Create, dcheck.
  rewrite !RoundUp_aligned by (first [by rewrite Z.mod_mul by plia|plia]).
  rewrite Hb, Ht, !Z.eqb_refl, (proj2 (Z.leb_le (c * kPageSize) (mc * kPageSize))) by plia. cbn [andb].
  rewrite Z.div_mul by plia. set (p := mkPages _ _ _ _ _ _ _ _ _ _ _).
  assert (Ea : base = addr p (npages [])) by (unfold addr, npages; cbn; lia).
  set (p1 := with_size_map (<[Z.to_nat 0 := c * kPageSize]> (free_page_run_size_map_ p)) p).
  assert (Ho : open_inv false p1 [] c []).
  { assert (Hlen : Z.of_nat (length (free_page_run_size_map_ p)) = c) by (cbn; by rewrite length_resize_Z by lia).
    split; cbn; rewrite ?length_insert; try done; try plia.
    - change (npages []) with 0. lia.
    - by split; apply Z.mod_mul.
    - split; [lia|]. split; [done|]. cbn. apply list_lookup_insert_eq. cbn in Hlen. lia. }
  destruct (FreePageRun_ReleasePages_spec _ _ _ _ _ Ho ltac:(done)) as (p2 & E2 & Ho2 & Hf2 & Hfp2 & Hw2).
  pose proof (open_close _ _ _ _ Ho2 eq_refl eq_refl) as Hi.
  assert (Ea2 : addr p2 (npages []) = addr p1 (npages [])) by (unfold addr; by rewrite (proj1 Hf2)).
  assert (E1 : SetByteSize base (c * kPageSize) p = Done (tt, p1)).
  { rewrite Ea. apply (SetByteSize_done p (npages []) c); change (npages []) with 0; cbn; rewrite ?length_resize_Z; plia. }
  assert (E : (SetByteSize base (c * kPageSize);; FreePageRun_ReleasePages base;; insert_free_run base) p =
              Done (tt, with_free_runs (set_insert (addr p2 (npages [])) (free_page_runs_ p2)) p2)).
  { rewrite (bind_done _ _ _ _ _ E1), Ea, Ea2. by rewrite (bind_done _ _ _ _ _ E2). }
  eexists. split; [|split; [exact Hi|]].
  - by rewrite E.
  - cbn. destruct Hf2 as (-> & -> & -> & -> & _). rewrite Hfp2. split; [|done]. intros a. cbn. destruct Hw2 as [[_ ->]|Hw2]; [done|].
    rewrite Hw2. split_ltb; done.
Qed.
