(* ===== verification/RosAllocSegments.v ===== *)
(** The runs and the large objects of a RosAlloc heap.

    What the operations on pages do is stated here on the segments that are in
    use, whatever the free pages between them are: [AllocPages] adds a segment
    of zeroed pages or fails without a change, [FreePages] removes one, and the
    others do not change them.  Segments do not overlap. *)
From stdpp Require Import prelude gmap list.
From Stdlib Require Import ZArith Lia.
From S2P Require Import Prelude BitUtils RosAlloc RosAllocPages RosAllocFreePages.
Import RosAlloc.
Open Scope Z_scope.

(** Segment [k] of [n] pages begins at page [i]. *)
Definition used_at (l : segs) (i : Z) (k : segkind) (n : Z) : Prop :=
  k <> SFree /\ exists l1 l2, l = l1 ++ (k, n) :: l2 /\ i = npages l1.

Lemma used_at_cons k0 n0 l i k n :
  used_at ((k0, n0) :: l) i k n <-> k0 <> SFree /\ (i, k, n) = (0, k0, n0) \/ used_at l (i - n0) k n.
Proof.
  split.
  - intros (Hk & [|[k1 n1] l1] & l2 & E & ->); cbn in E; injection E as -> -> ->; [by left|right].
    split; [done|]. exists l1, l2. split; [done|]. rewrite npages_cons. lia.
  - intros [(Hk & [= -> -> ->])|(Hk & l1 & l2 & -> & Ei)]; [split; [done|by exists [], l]|].
    split; [done|]. exists ((k0, n0) :: l1), l2. split; [done|]. rewrite npages_cons. lia.
Qed.
Lemma used_at_app l1 l2 i k n : used_at (l1 ++ l2) i k n <-> used_at l1 i k n \/ used_at l2 (i - npages l1) k n.
Proof.
  revert i. induction l1 as [|[k0 n0] l1 IH]; intros i; cbn [app].
  - change (npages []) with 0. rewrite Z.sub_0_r. split; [by right|]. intros [(_ & [|] & ? & ? & _)|]; done.
  - rewrite !used_at_cons, IH, npages_cons, Z.sub_add_distr. tauto.
Qed.
Lemma used_at_rest m i k n : ~ used_at (rest m) i k n.
Proof.
  unfold rest. destruct (0 <? m); intros (Hk & l1 & l2 & E & _); [|by destruct l1].
  destruct l1 as [|? [|]]; [|done..]. cbn in E. injection E as <- _. done.
Qed.
Lemma used_at_free m l i k n : used_at ((SFree, m) :: l) i k n <-> used_at l (i - m) k n.
Proof. rewrite used_at_cons. split; [intros [[? _]|?]; done|by right]. Qed.

Lemma seg_bounds p l i k n : pages_inv p l -> used_at l i k n -> 0 <= i /\ 0 < n /\ i + n <= npages l.
Proof. intros Hi (_ & l1 & l2 & -> & ->). destruct (inv_split _ _ _ _ _ Hi) as (? & ? & ? & -> & _). lia. Qed.
Lemma used_pages p l i k n : pages_inv p l -> used_at l i k n -> k <> SFree /\ seg_pages p i k n.
Proof. intros Hi (Hk & l1 & l2 & -> & ->). by destruct (inv_split _ _ _ _ _ Hi) as (_ & _ & _ & _ & _ & ? & _). Qed.

Lemma used_inside l i k n : Forall (fun kn => 0 < kn.2) l -> used_at l i k n -> 0 <= i /\ 0 < n /\ i + n <= npages l.
Proof.
  assert (Hnn : forall l : segs, Forall (fun kn => 0 < kn.2) l -> 0 <= npages l).
  { intros l'. induction 1 as [|[? ?] ? H' ? IH]; [done|]. rewrite npages_cons. cbn in H'. lia. }
  intros Hp (_ & l1 & l2 & -> & ->). apply Forall_app in Hp as [Hp1 [Hn Hp2]%Forall_cons]. cbn in Hn. apply Hnn in Hp1, Hp2.
  rewrite npages_app, npages_cons. lia.
Qed.
Lemma used_disjoint_list l i k n i' k' n' : Forall (fun kn => 0 < kn.2) l -> used_at l i k n -> used_at l i' k' n' ->
  (i, k, n) = (i', k', n') \/ i + n <= i' \/ i' + n' <= i.
Proof.
  revert i i'. induction l as [|[k0 n0] l IH]; intros i i' Hp; [by intros (_ & [|] & ? & ? & _)|].
  apply Forall_cons in Hp as [Hn0 Hp]. cbn in Hn0. rewrite !used_at_cons.
  pose proof (fun j k n => used_inside l j k n Hp) as Hpos.
  intros [(_ & [= -> -> ->])|H1] [(_ & [= -> -> ->])|H2].
  - by left.
  - right. left. apply Hpos in H2. lia.
  - right. right. apply Hpos in H1. lia.
  - destruct (IH _ _ Hp H1 H2) as [[= E -> ->]|?]; [left; f_equal; f_equal; lia|right; lia].
Qed.
Lemma mapped_sizes p i l : mapped p i l -> Forall (fun kn => 0 < kn.2) l.
Proof. revert i. induction l as [|[k n] l IH]; intros i; [constructor|]. intros (Hn & _ & Hl). constructor; [done|by eapply IH]. Qed.
Lemma seg_disjoint p l i k n i' k' n' : pages_inv p l -> used_at l i k n -> used_at l i' k' n' ->
  (i, k, n) = (i', k', n') \/ i + n <= i' \/ i' + n' <= i.
Proof. intros Hi. apply used_disjoint_list. eapply mapped_sizes, Hi. Qed.

(** ** The operations *)
Lemma grown_used num l l' i k n : grown num l l' -> used_at l' i k n <-> used_at l i k n.
Proof.
  intros [->|(_ & l0 & m & inc & -> & _ & _ & ->)]; [done|]. rewrite !used_at_app, used_at_free.
  split; intros [?|H']; [by left| |by left|]; [by destruct H' as (_ & [|] & ? & ? & _)|by apply used_at_rest in H'].
Qed.
(** Every window of [num] pages below the capacity has a page in use. *)
Definition no_room (p : Pages) (num : Z) : Prop :=
  forall i, 0 <= i -> (i + num) * kPageSize <= capacity_ p -> exists j, i <= j < i + num /\ j < page_map_size_ p /\ IsFreePage p j = false.
Lemma page_seg l i : 0 <= i < npages l -> exists l1 k m l2, l = l1 ++ (k, m) :: l2 /\ npages l1 <= i < npages l1 + m.
Proof.
  revert i. induction l as [|[k m] l IH]; intros i Hi; [change (npages []) with 0 in Hi; lia|]. rewrite npages_cons in Hi. destruct (Z.lt_ge_cases i m) as [Hlt|Hge].
  - exists [], k, m, l. change (npages []) with 0. split; [done|lia].
  - destruct (IH (i - m) ltac:(lia)) as (l1 & k' & m' & l2 & -> & Hm). exists ((k, m) :: l1), k', m', l2. rewrite npages_cons. split; [done|lia].
Qed.
Lemma too_small_no_room p l l0 n num : pages_inv p l -> 0 < num -> Forall (too_small num) l -> l = l0 ++ rest n -> 0 <= n -> is_free (last l0) = false ->
  capacity_ p - footprint_ p + n * kPageSize < num * kPageSize -> no_room p num.
Proof.
  intros Hi Hnum Hts El Hn Hl0 Hcap i Hi0 Hw. pose proof (p_size _ _ Hi) as Hsz. rewrite (p_footprint _ _ Hi), Hsz, El, npages_app, npages_rest in Hcap by done.
  destruct (page_seg l i) as (l1 & k & m & l2 & E & Him); [rewrite El, npages_app, npages_rest by done; plia|]. pose proof Hi as Hi'. rewrite E in Hi', Hts. apply Forall_app in Hts as [_ [Hm _]%Forall_cons].
  destruct (inv_split _ _ _ _ _ Hi') as (Hn1 & Hm0 & Hn2 & Etot & _ & Hs & Hmap2 & _). rewrite Hsz, E, Etot. destruct (decide (k = SFree)) as [->|Hk].
  2: { exists i. destruct (seg_used _ _ _ _ i Hs Hk Him). split; [lia|]. split; [lia|done]. }
  specialize (Hm eq_refl). cbn in Hm. destruct l2 as [|[k2 m2] l2].
  - exfalso. rewrite El in E. unfold rest in E. destruct (Z.ltb_spec 0 n) as [|Hn0]; [apply app_inj_tail in E as [-> _]; plia|]. rewrite app_nil_r in E. subst l0. by rewrite last_snoc in Hl0.
  - destruct Hmap2 as (Hm2 & Hs2 & Hm3). apply mapped_nonneg in Hm3. assert (Hk2 : k2 <> SFree).
    { pose proof (p_coalesced _ _ Hi') as (_ & (Hc & _) & _)%coalesced_app. specialize (Hc eq_refl). by destruct k2. }
    exists (npages l1 + m). destruct (seg_used _ _ _ _ (npages l1 + m) Hs2 Hk2 ltac:(lia)). rewrite npages_cons. split; [lia|]. split; [lia|done].
Qed.
Lemma AllocPages_used p l num k : pages_inv p l -> 0 < num -> k <> SFree ->
  exists r p', AllocPages num (seg_type k) p = Done (r, p') /\
    match r with
    | None => p' = p /\ no_room p num
    | Some a => exists i l', a = addr p i /\ pages_inv p' l' /\ frame p p' /\ words p' = words p /\ footprint_ p <= footprint_ p' /\
        (forall x, a <= x < a + num * kPageSize -> ld (words p) x = 0) /\ used_at l' i k num /\
        (forall k' n', ~ used_at l i k' n') /\ forall i' k' n', used_at l' i' k' n' <-> used_at l i' k' n' \/ (i', k', n') = (i, k, num)
    end.
Proof.
  intros Hi Hn Hk. destruct (AllocPages_spec p l num k Hi Hn Hk) as (r & p' & E & Hr). exists r, p'. split; [done|].
  destruct r as [a|]; [|destruct Hr as (-> & Hts & l0 & n & El & Hn0 & Hl0 & Hc); split; [done|by apply (too_small_no_room p l l0 n)]]. destruct Hr as (l' & Hi' & l0 & l1 & n & l2 & Hg & -> & _ & Hle & -> & -> & Hf & Hw & Hfp & Hz).
  exists (npages l1), (l1 ++ (k, num) :: rest (n - num) ++ l2). repeat (split; [done|]). split; [split; [done|by exists l1, (rest (n - num) ++ l2)]|].
  split. { intros k' n'. rewrite <- (grown_used _ _ _ _ _ _ Hg), used_at_app, used_at_free. pose proof (mapped_sizes _ _ _ (p_mapped _ _ Hi')) as Hp.
    apply Forall_app in Hp as [Hp1 [_ [_ Hp2]%Forall_app]%Forall_cons]. intros [H'|H']; apply used_inside in H'; [lia|done|lia|done]. }
  intros i' k' n'. rewrite <- (grown_used _ _ _ _ _ _ Hg), !used_at_app, used_at_free, used_at_cons, used_at_app, npages_rest by lia.
  replace (i' - npages l1 - num - (n - num)) with (i' - npages l1 - n) by lia.
  split.
  - intros [?|[[_ [= ? -> ->]]|[H'|?]]]; [by left; left| |by apply used_at_rest in H'|by left; right]. right. f_equal. f_equal. lia.
  - intros [[?|?]|[= -> -> ->]]; [by left|by right; right; right|]. right. left. rewrite Z.sub_diag. done.
Qed.

Lemma FreePages_used p l i k n (z : bool) : pages_inv p l -> used_at l i k n ->
  (z = true -> forall a, addr p i <= a < addr p (i + n) -> ld (words p) a = 0) ->
  exists l' p', FreePages (addr p i) z p = Done (n * kPageSize, p') /\ pages_inv p' l' /\ frame p p' /\ footprint_ p' = footprint_ p /\
    (forall a, ld (words p') a = if (addr p i <=? a) && (a <? addr p (i + n)) then 0 else ld (words p) a) /\
    forall i' k' n', used_at l' i' k' n' <-> used_at l i' k' n' /\ i' <> i.
Proof.
  intros Hi Hu Hz. pose proof Hu as (Hk & l1 & l2 & -> & ->).
  destruct (FreePages_spec p l1 k n l2 z Hi Hk Hz) as (l1' & m1 & m2 & l2' & p' & E1 & E2 & Hm1 & Hm2 & _ & _ & E & Hi' & Hf & Hfp & Hw).
  eexists _, p'. split; [done|]. split; [exact Hi'|]. repeat (split; [done|]). intros i' k' n'.
  assert (Heq : used_at (l1' ++ (SFree, m1 + n + m2) :: l2') i' k' n' <-> used_at l1 i' k' n' \/ used_at l2 (i' - npages l1 - n) k' n').
  { rewrite used_at_app, used_at_free, E1, E2, !used_at_app, npages_app, !npages_rest by done.
    replace (i' - npages l1' - (m1 + n + m2)) with (i' - (npages l1' + m1) - n - m2) by lia.
    pose proof (used_at_rest m1 (i' - npages l1') k' n'). pose proof (used_at_rest m2 (i' - (npages l1' + m1) - n) k' n'). tauto. }
  rewrite Heq, used_at_app, used_at_cons. split.
  - intros Hor. split; [tauto|]. intros ->.
    assert (Hu' : used_at (l1 ++ (k, n) :: l2) (npages l1) k' n') by (rewrite used_at_app, used_at_cons; tauto).
    destruct (inv_split _ _ _ _ _ Hi) as (Hn1 & Hn0 & _ & _ & Hma & _ & Hmb & _). apply mapped_sizes in Hma, Hmb.
    destruct Hor as [H'|H']; apply used_inside in H'; try done; lia.
  - intros [[?|[[_ [= ? -> ->]]|?]] Hne]; [tauto|lia|tauto].
Qed.
Lemma Trim_used p l : pages_inv p l ->
  exists b p' l', Trim p = Done (b, p') /\ pages_inv p' l' /\ frame p p' /\ words p' = words p /\ footprint_ p' <= footprint_ p /\
    forall i k n, used_at l' i k n <-> used_at l i k n.
Proof.
  intros Hi. destruct (Trim_spec p l Hi) as (l0 & n & p' & -> & Hn & _ & E & Hi' & Hf & Hw & Hfp). eexists _, p', l0.
  repeat (split; [done|]). split; [plia|]. intros i k m. rewrite used_at_app. pose proof (used_at_rest n (i - npages l0) k m). tauto.
Qed.

(** The length of a large object, as it is read off the page map. *)
Lemma large_parts_done p (c : nat) : forall fuel idx, (c <= fuel)%nat -> (forall j, idx <= j < idx + Z.of_nat c -> pm p j = kPageMapLargeObjectPart) ->
  (c = fuel \/ pm p (idx + Z.of_nat c) <> kPageMapLargeObjectPart) -> large_parts fuel idx p = Z.of_nat c.
Proof.
  induction c as [|c IH]; intros fuel idx Hf Hin Hout.
  - destruct fuel as [|fuel]; [done|]. cbn [large_parts]. destruct Hout as [?|Hout]; [done|]. rewrite Z.add_0_r in Hout. by rewrite bool_decide_eq_false_2.
  - destruct fuel as [|fuel]; [lia|]. cbn [large_parts]. rewrite bool_decide_eq_true_2 by (apply Hin; lia). rewrite IH; [lia|lia|intros; apply Hin; lia|].
    destruct Hout as [?|Hout]; [left; lia|right]. by replace (idx + 1 + Z.of_nat c) with (idx + Z.of_nat (S c)) by lia.
Qed.
Lemma large_pages_done p l i n : pages_inv p l -> used_at l i SLarge n -> large_pages p i = n.
Proof.
  intros Hi (_ & l1 & l2 & -> & ->). destruct (inv_split _ _ _ _ _ Hi) as (Hn1 & Hn & Hn2 & Etot & _ & [_ Hp] & _). pose proof (p_size _ _ Hi) as Hsz.
  pose proof (next_not_part _ _ _ _ _ Hi ltac:(done)) as Hnext. unfold large_pages. rewrite (large_parts_done p (Z.to_nat (n - 1))); [lia|lia|intros j Hj; apply Hp; lia|].
  destruct Hnext as [?|Hne]; [left; lia|right]. cbn in Hne. by replace (npages l1 + 1 + Z.of_nat (Z.to_nat (n - 1))) with (npages l1 + n) by lia.
Qed.
