(* ===== verification/RosAllocSlots.v ===== *)
(** The slots of the runs of RosAlloc.

    The size brackets: a size goes to the smallest bracket that is large enough,
    and the slots of a run fill it up to its end.  A list of free slots is
    linked through the first words of the slots; [Remove], [Add] and [Merge] are
    the operations on the lists of addresses they stand for. *)
From stdpp Require Import prelude gmap list.
From Stdlib Require Import ZArith Lia.
From S2P Require Import Prelude BitUtils RosAlloc RosAllocPages.
Import RosAlloc.
Open Scope Z_scope.

(** ** Size brackets *)
Definition bracket_ok (i : Z) : bool :=
  (0 <? bracketSizes i) && (bracketSizes i mod 8 =? 0) && (0 <? numOfSlots i) && (numOfSlots i <? 2 ^ 16) &&
  (headerSizes i mod 8 =? 0) && (0 <? headerSizes i) && (0 <? numOfPages i) &&
  (headerSizes i + numOfSlots i * bracketSizes i =? kPageSize * numOfPages i).
Lemma brackets_ok i : 0 <= i < kNumOfSizeBrackets ->
  0 < bracketSizes i /\ bracketSizes i mod 8 = 0 /\ 0 < numOfSlots i < 2 ^ 16 /\ headerSizes i mod 8 = 0 /\ 0 < headerSizes i /\
  0 < numOfPages i /\ headerSizes i + numOfSlots i * bracketSizes i = kPageSize * numOfPages i.
Proof.
  intros Hi. assert (H : forallb bracket_ok (seqZ 0 kNumOfSizeBrackets) = true) by (vm_compute; reflexivity).
  rewrite forallb_forall in H. specialize (H i ltac:(apply list_elem_of_In, elem_of_seqZ; lia)). unfold bracket_ok in H.
  rewrite !andb_true_iff, !Z.ltb_lt, !Z.eqb_eq in H. intuition lia.
Qed.
Definition size_ok (size : Z) : bool :=
  let '(idx, bracket_size) := SizeToIndexAndBracketSize size in
  (0 <=? idx) && (idx <? kNumOfSizeBrackets) && (bracketSizes idx =? bracket_size) && (size <=? bracket_size) &&
  (SizeToIndex size =? idx) && (RoundToBracketSize size =? bracket_size) &&
  Bool.eqb (idx <? kNumThreadLocalSizeBrackets) (IsSizeForThreadLocal size) && ((idx =? 0) || (bracketSizes (idx - 1) <? size)).
Lemma sizes_ok size : 0 < size <= kLargeSizeThreshold ->
  exists idx, SizeToIndexAndBracketSize size = (idx, bracketSizes idx) /\ 0 <= idx < kNumOfSizeBrackets /\
    size <= bracketSizes idx /\ SizeToIndex size = idx /\ RoundToBracketSize size = bracketSizes idx /\
    (idx <? kNumThreadLocalSizeBrackets) = IsSizeForThreadLocal size /\ (idx = 0 \/ bracketSizes (idx - 1) < size).
Proof.
  intros Hs. assert (H : forallb size_ok (seqZ 1 kLargeSizeThreshold) = true) by (vm_compute; reflexivity).
  rewrite forallb_forall in H. specialize (H size ltac:(apply list_elem_of_In, elem_of_seqZ; unfold kLargeSizeThreshold in *; lia)).
  unfold size_ok in H. destruct (SizeToIndexAndBracketSize size) as [idx bs]. exists idx.
  rewrite !andb_true_iff, orb_true_iff, !Z.ltb_lt, !Z.leb_le, !Z.eqb_eq, eqb_true_iff in H. intuition congruence.
Qed.

(** The size of the block for a request. *)
Definition block_size (size : Z) : Z := if kLargeSizeThreshold <? size then RoundUp size kPageSize else RoundToBracketSize size.
Lemma block_size_small size : 0 < size <= kLargeSizeThreshold -> exists idx, SizeToIndexAndBracketSize size = (idx, bracketSizes idx) /\ 0 <= idx < kNumOfSizeBrackets /\ block_size size = bracketSizes idx.
Proof.
  intros Hs. destruct (sizes_ok size Hs) as (idx & E & Hi & _ & _ & Er & _). exists idx. split; [done|]. split; [done|]. unfold block_size.
  destruct (Z.ltb_spec kLargeSizeThreshold size); [lia|done].
Qed.
Lemma RoundUp_pages size : 0 <= size -> size + kPageSize <= 2 ^ 64 -> exists num, RoundUp size kPageSize = num * kPageSize /\ (num - 1) * kPageSize < size <= num * kPageSize.
Proof.
  intros H0 Hmax. change kPageSize with (2 ^ 12) in *. rewrite RoundUp_pow2 by lia. eexists. split; [reflexivity|].
  pose proof (Z.div_mod (size + 2 ^ 12 - 1) (2 ^ 12) ltac:(lia)). pose proof (Z.mod_pos_bound (size + 2 ^ 12 - 1) (2 ^ 12) ltac:(lia)). lia.
Qed.
Lemma block_size_enough size : 0 < size -> size + kPageSize <= 2 ^ 64 -> size <= block_size size.
Proof.
  intros H0 Hmax. unfold block_size. destruct (Z.ltb_spec kLargeSizeThreshold size).
  - destruct (RoundUp_pages size ltac:(lia) Hmax) as (num & -> & _ & ?). done.
  - destruct (sizes_ok size ltac:(lia)) as (idx & _ & _ & ? & _ & -> & _). done.
Qed.

(** ** Slots *)
Lemma elem_of_slots x a i : x ∈ slot_addrs a i <-> exists k, 0 <= k < numOfSlots i /\ x = a + headerSizes i + k * bracketSizes i.
Proof.
  unfold slot_addrs. rewrite list_elem_of_fmap. split.
  - intros (k & -> & Hk%elem_of_seqZ). exists k. split; [lia|done].
  - intros (k & Hk & ->). exists k. split; [done|]. apply elem_of_seqZ. lia.
Qed.
Lemma NoDup_slots a i : 0 <= i < kNumOfSizeBrackets -> NoDup (slot_addrs a i).
Proof.
  intros Hi. destruct (brackets_ok i Hi) as (Hb & _). unfold slot_addrs. apply NoDup_fmap_2_strong; [|apply NoDup_seqZ].
  intros x y _ _ E. assert (x * bracketSizes i = y * bracketSizes i) by lia. nia.
Qed.
Lemma length_slots a i : 0 <= i < kNumOfSizeBrackets -> Z.of_nat (length (slot_addrs a i)) = numOfSlots i.
Proof. intros Hi. destruct (brackets_ok i Hi) as (_ & _ & Hn & _). unfold slot_addrs. rewrite length_fmap, length_seqZ. lia. Qed.
Lemma slot_range x a i : 0 <= i < kNumOfSizeBrackets -> x ∈ slot_addrs a i ->
  a + headerSizes i <= x /\ x + bracketSizes i <= a + numOfPages i * kPageSize.
Proof.
  intros Hi (k & Hk & ->)%elem_of_slots. destruct (brackets_ok i Hi) as (Hb & _ & Hn & _ & Hh & _ & E).
  split; [nia|]. assert ((k + 1) * bracketSizes i <= numOfSlots i * bracketSizes i) by (apply Z.mul_le_mono_nonneg_r; lia). lia.
Qed.
Lemma slot_pos x a i : 0 < a -> 0 <= i < kNumOfSizeBrackets -> x ∈ slot_addrs a i -> x <> 0.
Proof. intros Ha Hi Hx. pose proof (slot_range _ _ _ Hi Hx). destruct (brackets_ok i Hi) as (_ & _ & _ & _ & Hh & _). lia. Qed.
Lemma slots_disjoint x y z a i : 0 <= i < kNumOfSizeBrackets -> x ∈ slot_addrs a i -> y ∈ slot_addrs a i ->
  x <= z < x + bracketSizes i -> y <= z < y + bracketSizes i -> x = y.
Proof.
  intros Hi (k & Hk & ->)%elem_of_slots (j & Hj & ->)%elem_of_slots H1 H2. destruct (brackets_ok i Hi) as (Hb & _).
  assert (k = j) as ->; [|done]. nia.
Qed.
(** An address in a run is in its header or in one of its slots. *)
Lemma slot_cases x a i : 0 <= i < kNumOfSizeBrackets -> a <= x < a + numOfPages i * kPageSize ->
  x < a + headerSizes i \/ exists s, s ∈ slot_addrs a i /\ s <= x < s + bracketSizes i.
Proof.
  intros Hi Hx. destruct (brackets_ok i Hi) as (Hb & _ & Hn & _ & Hh & _ & E). destruct (Z.lt_ge_cases x (a + headerSizes i)); [by left|right].
  set (d := x - (a + headerSizes i)). pose proof (Z.div_mod d (bracketSizes i) ltac:(lia)) as Hd. pose proof (Z.mod_pos_bound d (bracketSizes i) Hb).
  exists (a + headerSizes i + d / bracketSizes i * bracketSizes i). split; [|unfold d in *; lia].
  apply elem_of_slots. exists (d / bracketSizes i). split; [|done]. split; [apply Z.div_pos; unfold d; lia|].
  apply Z.div_lt_upper_bound; unfold d; lia.
Qed.

(** ** Lists of free slots *)
Definition head0 (l : list Z) : Z := default 0 (head l).
Definition last0 (l : list Z) : Z := default 0 (last l).
(** The first words of the slots are the links. *)
Fixpoint linked (m : gmap Z Z) (l : list Z) : Prop :=
  match l with [] => True | x :: l => ld m x = head0 l /\ linked m l end.
(** The lists without and with a tail. *)
Definition flist (l : list Z) : SlotFreeList := mkFreeList (head0 l) 0 (Z.of_nat (length l)).
Definition tlist (l : list Z) : SlotFreeList := mkFreeList (head0 l) (last0 l) (Z.of_nat (length l)).
Definition short (l : list Z) : Prop := Z.of_nat (length l) < 2 ^ 32.

Lemma linked_ext m m' l : (forall x, x ∈ l -> ld m' x = ld m x) -> linked m l -> linked m' l.
Proof.
  induction l as [|x l IH]; intros He; [done|]. intros [H1 H2]. split; [rewrite He by (by left); done|]. apply IH; [|done]. intros y Hy. apply He. by right.
Qed.
Lemma linked_st m x v l : x ∉ l -> linked m l -> linked (st m x v) l.
Proof. intros Hx. apply linked_ext. intros y Hy. rewrite ld_st. destruct (Z.eqb_spec y x) as [->|]; done. Qed.
Lemma linked_last m l x : linked m (l ++ [x]) -> ld m x = 0.
Proof. induction l as [|y l IH]; cbn; [by intros [? _]|]. intros [_ H]. by apply IH. Qed.
Lemma linked_app m l1 x l2 : x ∉ l1 -> x ∉ l2 -> linked m (l1 ++ [x]) -> linked m l2 -> NoDup l1 -> linked (st m x (head0 l2)) (l1 ++ x :: l2).
Proof.
  intros H1 H2 Hl1 Hl2 Hnd. induction l1 as [|y l1 IH]; cbn in *.
  - split; [by rewrite ld_st, Z.eqb_refl|]. by apply linked_st.
  - destruct Hl1 as [Hy Hl1]. apply not_elem_of_cons in H1 as [Hne H1]. apply NoDup_cons in Hnd as [_ Hnd]. split; [|by apply IH].
    rewrite ld_st. destruct (Z.eqb_spec y x) as [->|]; [done|]. rewrite Hy. by destruct l1.
Qed.

Lemma Remove_nil m : Remove false (flist []) m = Done (0, flist [], m).
Proof. done. Qed.
Lemma Remove_cons m x l : x <> 0 -> linked m (x :: l) -> short (x :: l) -> Remove false (flist (x :: l)) m = Done (x, flist l, st m x 0).
Proof.
  intros Hx [Hl _] Hs. unfold Remove, flist, short in *. cbn [head_ tail_ size_].
  assert (E : u32 (Z.of_nat (length (x :: l)) - 1) = Z.of_nat (length l)) by (cbn [length] in *; rewrite wrap_small; unfold in_width; lia).
  rewrite E. change (head0 (x :: l)) with x. rewrite Hl, (proj2 (Z.eqb_neq x 0) Hx). done.
Qed.
Lemma head0_eqb (l : list Z) : (forall x, x ∈ l -> x <> 0) -> (head0 l =? 0) = bool_decide (l = []).
Proof. destruct l as [|x l]; intros Hl; [done|]. change (head0 (x :: l)) with x. rewrite bool_decide_eq_false_2 by done. apply Z.eqb_neq, Hl. by left. Qed.
Lemma last0_eqb (l : list Z) : (forall x, x ∈ l -> x <> 0) -> (last0 l =? 0) = bool_decide (l = []).
Proof.
  destruct l as [|x l _] using rev_ind; intros Hl; [done|]. unfold last0. rewrite last_snoc. rewrite bool_decide_eq_false_2 by (by destruct l).
  apply Z.eqb_neq, Hl. set_solver.
Qed.
Lemma last0_cons x l : last0 (x :: l) = if bool_decide (l = []) then x else last0 l.
Proof. destruct l; done. Qed.

Lemma Add_flist m x l : x <> 0 -> ld m x = 0 -> (forall y, y ∈ l -> y <> 0) -> x ∉ l -> short (x :: l) -> linked m l ->
  exists m', Add false x (flist l) m = Done (flist (x :: l), m') /\ linked m' (x :: l) /\ forall y, y <> x -> ld m' y = ld m y.
Proof.
  intros Hx Hm Hl Hxl Hs Hlk. unfold Add, flist, dcheck. cbn [head_ tail_ size_]. rewrite Hm, (proj2 (Z.eqb_neq x 0) Hx), (head0_eqb l Hl). cbn [negb andb orb].
  assert (E : u32 (Z.of_nat (length l) + 1) = Z.of_nat (length (x :: l))) by (unfold short in Hs; cbn [length] in *; rewrite wrap_small; unfold in_width; lia).
  rewrite E. case_bool_decide as El; [subst l; exists m|exists (st m x (head0 l))]; (split; [done|]).
  - done.
  - split; [split; [by rewrite ld_st, Z.eqb_refl|by apply linked_st]|]. intros y Hy. rewrite ld_st. by destruct (Z.eqb_spec y x).
Qed.
Lemma Add_tlist m x l : x <> 0 -> ld m x = 0 -> (forall y, y ∈ l -> y <> 0) -> x ∉ l -> short (x :: l) -> linked m l ->
  exists m', Add true x (tlist l) m = Done (tlist (x :: l), m') /\ linked m' (x :: l) /\ forall y, y <> x -> ld m' y = ld m y.
Proof.
  intros Hx Hm Hl Hxl Hs Hlk. unfold Add, tlist, dcheck. cbn [head_ tail_ size_]. rewrite Hm, (proj2 (Z.eqb_neq x 0) Hx), (head0_eqb l Hl), (last0_eqb l Hl), last0_cons. cbn [negb andb orb].
  assert (E : u32 (Z.of_nat (length l) + 1) = Z.of_nat (length (x :: l))) by (unfold short in Hs; cbn [length] in *; rewrite wrap_small; unfold in_width; lia).
  rewrite E. case_bool_decide as El; [subst l; exists m|exists (st m x (head0 l))]; (split; [done|]).
  - done.
  - split; [split; [by rewrite ld_st, Z.eqb_refl|by apply linked_st]|]. intros y Hy. rewrite ld_st. by destruct (Z.eqb_spec y x).
Qed.

(** The links of a merged list: the last slot of the first list is linked to
    the second. *)
Definition join (m : gmap Z Z) (l1 l2 : list Z) : gmap Z Z := if bool_decide (l1 = []) || bool_decide (l2 = []) then m else st m (last0 l1) (head0 l2).
Lemma linked_join m l1 l2 : NoDup (l1 ++ l2) -> linked m l1 -> linked m l2 -> linked (join m l1 l2) (l1 ++ l2).
Proof.
  intros Hnd H1 H2. unfold join. destruct l1 as [|x l1 _] using rev_ind; [done|]. rewrite bool_decide_eq_false_2 by (by destruct l1). cbn [orb].
  unfold last0. rewrite last_snoc. cbn [default]. rewrite <- app_assoc in *. cbn [app] in *. apply NoDup_app in Hnd as (Hn1 & Hd & Hn2).
  apply NoDup_cons in Hn2 as [Hx Hn2]. assert (x ∉ l1) by (intros Hin; apply (Hd x Hin); by left).
  case_bool_decide as E; [by subst|]. by apply linked_app.
Qed.
Lemma ld_join m l1 l2 y : y ∉ l1 -> ld (join m l1 l2) y = ld m y.
Proof.
  intros Hy. unfold join. destruct (_ || _) eqn:E; [done|]. rewrite ld_st. destruct (Z.eqb_spec y (last0 l1)) as [->|]; [|done].
  destruct Hy. destruct l1 as [|x l1 _] using rev_ind; [done|]. unfold last0. rewrite last_snoc. set_solver.
Qed.
Lemma Merge_flist m l1 l2 : (forall y, y ∈ l1 ++ l2 -> y <> 0) -> short (l1 ++ l2) ->
  Merge false (tlist l1) (flist l2) m = Done (flist (l1 ++ l2), tlist [], join m l1 l2).
Proof.
  intros Hnz Hs. unfold Merge, tlist, flist, join, dcheck. cbn [head_ tail_ size_]. destruct l1 as [|x l1]; [done|]. rewrite bool_decide_eq_false_2 by done.
  change (head0 (x :: l1)) with x. assert (Hx : x <> 0) by (apply Hnz; by left).
  rewrite (head0_eqb l2) by (intros; apply Hnz; set_solver). change (Z.of_nat (length (x :: l1)) =? 0) with false. cbn [orb app].
  case_bool_decide as E; [subst l2; by rewrite app_nil_r|]. rewrite (proj2 (Z.eqb_neq x 0) Hx), last0_eqb by (intros; apply Hnz; set_solver).
  rewrite bool_decide_eq_false_2 by done. cbn [negb andb]. unfold short in Hs. do 4 f_equal. rewrite wrap_small; [|unfold in_width]; cbn [app] in *; rewrite ?length_app in *; cbn [length] in *; rewrite ?length_app in *; lia.
Qed.
Lemma Merge_tlist m l1 l2 : (forall y, y ∈ l1 ++ l2 -> y <> 0) -> short (l1 ++ l2) ->
  Merge true (tlist l1) (tlist l2) m = Done (tlist (l1 ++ l2), tlist [], join m l1 l2).
Proof.
  intros Hnz Hs. unfold Merge, tlist, join, dcheck. cbn [head_ tail_ size_]. destruct l1 as [|x l1]; [done|]. rewrite bool_decide_eq_false_2 by done.
  change (head0 (x :: l1)) with x. assert (Hx : x <> 0) by (apply Hnz; by left).
  rewrite (head0_eqb l2) by (intros; apply Hnz; set_solver). change (Z.of_nat (length (x :: l1)) =? 0) with false. cbn [orb app].
  case_bool_decide as E; [subst l2; by rewrite app_nil_r|]. rewrite (proj2 (Z.eqb_neq x 0) Hx), last0_eqb by (intros; apply Hnz; set_solver).
  rewrite bool_decide_eq_false_2 by done. cbn [negb andb]. unfold short in Hs.
  assert (El : last0 l2 = last0 (x :: l1 ++ l2)) by (unfold last0; rewrite app_comm_cons, last_app; by destruct l2 as [|y l2 _] using rev_ind; [|rewrite last_snoc]).
  rewrite El. do 4 f_equal. rewrite wrap_small; [|unfold in_width]; cbn [app] in *; rewrite ?length_app in *; cbn [length] in *; rewrite ?length_app in *; lia.
Qed.

(** ** The loops over the slots of a run *)
Definition slots_from (a i k : Z) : list Z := (fun j => a + headerSizes i + j * bracketSizes i) <$> seqZ k (numOfSlots i - k).
Lemma slots_from_step a i k : 0 <= k < numOfSlots i -> slots_from a i k = a + headerSizes i + k * bracketSizes i :: slots_from a i (k + 1).
Proof. intros Hk. unfold slots_from. rewrite seqZ_cons by lia. cbn. do 3 f_equal; lia. Qed.
Lemma slots_from_elem a i k x : 0 <= k -> x ∈ slots_from a i k <-> exists j, k <= j < numOfSlots i /\ x = a + headerSizes i + j * bracketSizes i.
Proof.
  intros H0. unfold slots_from. rewrite list_elem_of_fmap. split.
  - intros (j & -> & Hj%elem_of_seqZ). exists j. split; [lia|done].
  - intros (j & Hj & ->). exists j. split; [done|]. apply elem_of_seqZ. lia.
Qed.

Lemma init_slots_done a i : 0 < a -> 0 <= i < kNumOfSizeBrackets -> forall (k : nat) fuel m, Z.of_nat k <= numOfSlots i -> (k < fuel)%nat ->
  linked m (slots_from a i (Z.of_nat k)) -> (forall j, 0 <= j < Z.of_nat k -> ld m (a + headerSizes i + j * bracketSizes i) = 0) ->
  exists m', init_slots fuel (a + headerSizes i + (Z.of_nat k - 1) * bracketSizes i) (a + headerSizes i) (bracketSizes i)
               (flist (slots_from a i (Z.of_nat k))) m = Done (flist (slot_addrs a i), m') /\
    linked m' (slot_addrs a i) /\ forall y, y ∉ slot_addrs a i -> ld m' y = ld m y.
Proof.
  intros Ha Hi. destruct (brackets_ok i Hi) as (Hb & _ & Hn & _ & Hh & _). assert (Hall : slot_addrs a i = slots_from a i 0) by (unfold slot_addrs, slots_from; by rewrite Z.sub_0_r).
  induction k as [|k IH]; intros fuel m Hk Hf Hl Hz; (destruct fuel as [|fuel]; [lia|]); cbn [init_slots].
  - destruct (Z.leb_spec (a + headerSizes i) (a + headerSizes i + (Z.of_nat 0 - 1) * bracketSizes i)); [lia|]. exists m. rewrite Hall. done.
  - destruct (Z.leb_spec (a + headerSizes i) (a + headerSizes i + (Z.of_nat (S k) - 1) * bracketSizes i)); [|nia].
    set (x := a + headerSizes i + (Z.of_nat (S k) - 1) * bracketSizes i).
    assert (Ex : x = a + headerSizes i + Z.of_nat k * bracketSizes i) by (unfold x; do 2 f_equal; lia).
    assert (Es : slots_from a i (Z.of_nat k) = x :: slots_from a i (Z.of_nat (S k))) by (rewrite slots_from_step by lia; rewrite Ex; do 2 f_equal; lia).
    destruct (Add_flist m x (slots_from a i (Z.of_nat (S k)))) as (m1 & E1 & Hl1 & Hm1).
    { nia. } { rewrite Ex. apply Hz. lia. } { intros y (j & Hj & ->)%slots_from_elem; [nia|lia]. }
    { intros (j & Hj & Ej)%slots_from_elem; [nia|lia]. }
    { unfold short. rewrite <- Es. unfold slots_from. rewrite length_fmap, length_seqZ. lia. } { done. }
    rewrite E1. cbn [mbind outcome_bind]. rewrite <- Es in *. replace (x - bracketSizes i) with (a + headerSizes i + (Z.of_nat k - 1) * bracketSizes i) by (rewrite Ex; lia).
    destruct (IH fuel m1) as (m' & E & Hl' & Hm').
    { lia. } { lia. } { done. } { intros j Hj. rewrite Hm1; [apply Hz; lia|]. rewrite Ex. nia. }
    exists m'. split; [exact E|]. split; [done|]. intros y Hy. rewrite Hm', Hm1; [done| |done]. intros ->. apply Hy. rewrite elem_of_slots. exists (Z.of_nat k). split; [lia|done].
Qed.

Lemma clear_slots_done l : forall m, (forall x, x ∈ l -> x <> 0) -> NoDup l -> linked m l ->
  exists m', clear_slots (S (length l)) (head0 l) m = Done m' /\ forall y, ld m' y = if bool_decide (y ∈ l) then 0 else ld m y.
Proof.
  induction l as [|x l IH]; intros m Hnz Hnd Hl.
  - exists m. split; [done|]. intros y. rewrite bool_decide_eq_false_2; [done|]. by intros ?%elem_of_nil.
  - destruct Hl as [Hx Hl]. apply NoDup_cons in Hnd as [Hxl Hnd]. cbn [length]. cbn [clear_slots]. change (head0 (x :: l)) with x.
    rewrite (proj2 (Z.eqb_neq x 0)) by (apply Hnz; by left). rewrite Hx.
    destruct (IH (st m x 0)) as (m' & E & Hm'); [intros; apply Hnz; by right|done|by apply linked_st|].
    exists m'. split; [exact E|]. intros y. rewrite Hm', ld_st. destruct (Z.eqb_spec y x) as [->|Hne].
    + rewrite bool_decide_eq_false_2, bool_decide_eq_true_2 by (first [done|by left]). done.
    + destruct (bool_decide_reflect (y ∈ l)); [by rewrite bool_decide_eq_true_2 by (by right)|]. rewrite bool_decide_eq_false_2; [done|]. set_solver.
Qed.
Lemma list_slots_done l : forall m, (forall x, x ∈ l -> x <> 0) -> linked m l -> list_slots (S (length l)) (head0 l) m = Done l.
Proof.
  induction l as [|x l IH]; intros m Hnz Hl; [done|]. destruct Hl as [Hx Hl]. specialize (IH m ltac:(intros; apply Hnz; by right) Hl).
  cbn [length]. remember (S (length l)) as fuel eqn:Ef. cbn [list_slots]. change (head0 (x :: l)) with x.
  rewrite (proj2 (Z.eqb_neq x 0)) by (apply Hnz; by left). by rewrite Hx, IH.
Qed.
