(* ===== verification/RosAllocRuns.v ===== *)
(** The runs of RosAlloc and the operations on one run.

    A run is described by its size bracket, who owns it, and the lists of its
    free slots; the header of the run is a function of this description.  [base]
    says that the pages, the headers and the words of the heap fit the
    descriptions of all runs, and each operation on a run, the allocation of a
    run and its release are shown to keep it. *)
From stdpp Require Import prelude gmap list.
From Stdlib Require Import ZArith Lia.
From S2P Require Import Prelude BitUtils RosAlloc RosAllocPages RosAllocFreePages RosAllocSegments RosAllocSlots.
Import RosAlloc.
Open Scope Z_scope.

(** A run belongs to a thread, is the current run of its bracket, is in
    [non_full_runs_], or is in none of them. *)
Inductive owner := OThread (t : Z) | OCurrent | OListed | OLoose.
#[export] Instance owner_eq_dec : EqDecision owner.
Proof. solve_decision. Defined.
Record grun := mkG { g_idx : Z; g_own : owner; g_marked : bool; g_free : list Z; g_tl : list Z; g_bulk : list Z }.
Definition is_thread (o : owner) : bool := match o with OThread _ => true | _ => false end.
Definition hdr (g : grun) : Run :=
  mkRun (g_idx g) (is_thread (g_own g)) (g_marked g) (flist (g_free g)) (tlist (g_bulk g)) (tlist (g_tl g)).
(** The slots that no one uses. *)
Definition unused (g : grun) : list Z := g_free g ++ g_tl g ++ g_bulk g.
Definition run_size (g : grun) : Z := numOfPages (g_idx g) * kPageSize.
(** [y] is not in an unused slot. *)
Definition outside (g : grun) (y : Z) : Prop := forall x, x ∈ unused g -> ~ x <= y < x + bracketSizes (g_idx g).

Record slots_ok (m : gmap Z Z) (a : Z) (g : grun) : Prop := {
  k_idx : 0 <= g_idx g < kNumOfSizeBrackets;
  k_nodup : NoDup (unused g);
  k_slots : forall x, x ∈ unused g -> x ∈ slot_addrs a (g_idx g);
  k_free : linked m (g_free g);
  k_tl : linked m (g_tl g);
  k_bulk : linked m (g_bulk g);
  k_zero : forall x y, x ∈ unused g -> x < y < x + bracketSizes (g_idx g) -> ld m y = 0;
  k_header : forall y, a <= y < a + headerSizes (g_idx g) -> ld m y = 0;
  k_local : is_thread (g_own g) = false -> g_tl g = []
}.

Record base (s : RosAlloc) (l : segs) (G : gmap Z grun) : Prop := {
  b_pages : pages_inv (pages s) l;
  b_runs : runs s = hdr <$> G;
  b_slots : forall a g, G !! a = Some g -> slots_ok (words (pages s)) a g;
  b_used : forall a g, G !! a = Some g -> exists i, a = addr (pages s) i /\ used_at l i SRun (numOfPages (g_idx g));
  b_only : forall i n, used_at l i SRun n -> is_Some (G !! addr (pages s) i)
}.

(** ** One run *)
Lemma slots_ok_ext m m' a g : (forall y, a <= y < a + run_size g -> ld m' y = ld m y) -> 0 < a -> slots_ok m a g -> slots_ok m' a g.
Proof.
  intros He Ha Hk. pose proof (k_idx _ _ _ Hk) as Hi. destruct (brackets_ok _ Hi) as (Hb & _ & Hn & _ & Hh & Hp & Esz). unfold run_size in He.
  assert (Hin : forall x, x ∈ unused g -> forall y, x <= y < x + bracketSizes (g_idx g) -> ld m' y = ld m y).
  { intros x Hx y Hy. apply He. apply (k_slots _ _ _ Hk) in Hx. pose proof (slot_range _ _ _ Hi Hx). lia. }
  assert (Hl : forall l, (forall x, x ∈ l -> x ∈ unused g) -> linked m l -> linked m' l).
  { intros l Hsub. apply linked_ext. intros x Hx. apply (Hin x); [by apply Hsub|lia]. }
  split; try apply Hk.
  - apply Hl, Hk. unfold unused. set_solver.
  - apply Hl, Hk. unfold unused. set_solver.
  - apply Hl, Hk. unfold unused. set_solver.
  - intros x y Hx Hy. rewrite (Hin x Hx) by lia. by apply (k_zero _ _ _ Hk x).
  - intros y Hy. rewrite He by nia. by apply (k_header _ _ _ Hk).
Qed.
Lemma page_addr_inj p i j : addr p i = addr p j -> i = j.
Proof. unfold addr. plia. Qed.
Lemma base_facts s l G a g : base s l G -> G !! a = Some g ->
  slots_ok (words (pages s)) a g /\ 0 < a /\ 0 <= g_idx g < kNumOfSizeBrackets /\ runs s !! a = Some (hdr g) /\
  exists i, a = addr (pages s) i /\ used_at l i SRun (numOfPages (g_idx g)) /\ 0 <= i /\ i + numOfPages (g_idx g) <= page_map_size_ (pages s).
Proof.
  intros Hb Hg. pose proof (b_slots _ _ _ Hb _ _ Hg) as Hk. destruct (b_used _ _ _ Hb _ _ Hg) as (i & -> & Hu).
  pose proof (seg_bounds _ _ _ _ _ (b_pages _ _ _ Hb) Hu) as (Hi & Hn & Hle). pose proof (p_base _ _ (b_pages _ _ _ Hb)).
  split; [done|]. split; [unfold addr; plia|]. split; [apply Hk|]. split; [by rewrite (b_runs _ _ _ Hb), lookup_fmap, Hg|].
  exists i. rewrite (p_size _ _ (b_pages _ _ _ Hb)). done.
Qed.
(** Two runs do not overlap. *)
Lemma runs_disjoint s l G a g b h y : base s l G -> G !! a = Some g -> G !! b = Some h ->
  a <= y < a + run_size g -> b <= y < b + run_size h -> a = b.
Proof.
  intros Hb Hg Hh H1 H2. destruct (b_used _ _ _ Hb _ _ Hg) as (i & -> & Hu). destruct (b_used _ _ _ Hb _ _ Hh) as (j & -> & Hv).
  unfold run_size, addr in *. destruct (seg_disjoint _ _ _ _ _ _ _ _ (b_pages _ _ _ Hb) Hu Hv) as [[= -> _]|[?|?]]; [done|plia|plia].
Qed.
Lemma words_pages p l m : pages_inv p l -> (forall y, base_ p <= y < base_ p + max_capacity_ p -> IsFreePage p ((y - base_ p) / kPageSize) = true -> ld m y = ld (words p) y) ->
  pages_inv (with_words m p) l.
Proof.
  intros Hi He. split; try apply Hi; cbn; [apply (mapped_ext p); [done|apply Hi]|]. intros a Ha Hf. rewrite He by done. by apply Hi.
Qed.
Lemma page_of p i n y : addr p i <= y < addr p i + n * kPageSize -> i <= (y - base_ p) / kPageSize < i + n.
Proof. unfold addr. intros Hy. split; [apply Z.div_le_lower_bound|apply Z.div_lt_upper_bound]; plia. Qed.

(** Run [a] with description [g] and the words [m]. *)
Definition put (a : Z) (m : gmap Z Z) (g : grun) (s : RosAlloc) : RosAlloc :=
  with_runs (<[a := hdr g]> (runs s)) (with_pages (with_words m (pages s)) s).
Lemma put_base s l G a g m g' : base s l G -> G !! a = Some g -> g_idx g' = g_idx g ->
  (forall y, ~ a <= y < a + run_size g -> ld m y = ld (words (pages s)) y) -> slots_ok m a g' -> base (put a m g' s) l (<[a := g']> G).
Proof.
  intros Hb Hg Ei He Hk. destruct (base_facts _ _ _ _ _ Hb Hg) as (_ & Ha & _ & _ & i & Ea & Hu & _). split; cbn.
  - apply words_pages; [apply Hb|]. intros y _ Hf. apply He. intros Hy. unfold run_size in Hy. rewrite Ea in Hy. apply page_of in Hy.
    destruct (used_pages _ _ _ _ _ (b_pages _ _ _ Hb) Hu) as [_ Hs]. destruct (seg_used _ _ _ _ _ Hs ltac:(done) Hy). congruence.
  - by rewrite (b_runs _ _ _ Hb), fmap_insert.
  - intros b h. rewrite lookup_insert_Some. intros [[<- <-]|[Hne Hh]]; [done|]. destruct (base_facts _ _ _ _ _ Hb Hh) as (Hkh & Hb0 & _).
    apply (slots_ok_ext (words (pages s))); [|done|done]. intros y Hy. apply He. intros Hy'. by apply Hne, (runs_disjoint s l G a g b h y).
  - intros b h. rewrite lookup_insert_Some. intros [[<- <-]|[Hne Hh]]; [rewrite Ei|]; by apply (b_used _ _ _ Hb).
  - intros j n Hj. rewrite lookup_insert_is_Some'. right. by eapply (b_only _ _ _ Hb).
Qed.

(** *** The words of a run *)
Definition with_free (f : list Z) (g : grun) : grun := mkG (g_idx g) (g_own g) (g_marked g) f (g_tl g) (g_bulk g).
Definition with_tl (f : list Z) (g : grun) : grun := mkG (g_idx g) (g_own g) (g_marked g) (g_free g) f (g_bulk g).
Definition with_bulk (f : list Z) (g : grun) : grun := mkG (g_idx g) (g_own g) (g_marked g) (g_free g) (g_tl g) f.
Definition with_own (o : owner) (g : grun) : grun := mkG (g_idx g) o (g_marked g) (g_free g) (g_tl g) (g_bulk g).
Definition with_mark (b : bool) (g : grun) : grun := mkG (g_idx g) (g_own g) b (g_free g) (g_tl g) (g_bulk g).
(** What an operation on run [a] leaves in the rest of the heap. *)
Definition same_words (m m' : gmap Z Z) (g g' : grun) : Prop := forall y, outside g y -> outside g' y -> ld m' y = ld m y.

Lemma slots_nonzero m a g x : slots_ok m a g -> 0 < a -> x ∈ unused g -> x <> 0.
Proof. intros Hk Ha Hx. apply (k_slots _ _ _ Hk) in Hx. by apply (slot_pos x a (g_idx g)); [|apply Hk|]. Qed.
Lemma short_unused m a g l : slots_ok m a g -> NoDup l -> (forall x, x ∈ l -> x ∈ slot_addrs a (g_idx g)) -> Z.of_nat (length l) <= numOfSlots (g_idx g) /\ short l.
Proof.
  intros Hk Hnd Hsub. pose proof (k_idx _ _ _ Hk) as Hi. destruct (brackets_ok _ Hi) as (_ & _ & Hn & _).
  assert (Hle : (length l <= length (slot_addrs a (g_idx g)))%nat) by (apply submseteq_length, NoDup_submseteq; done).
  apply Nat2Z.inj_le in Hle. rewrite length_slots in Hle by done. unfold short. lia.
Qed.
Lemma unused_range m a g x : slots_ok m a g -> x ∈ unused g -> a <= x /\ x + bracketSizes (g_idx g) <= a + run_size g /\ 0 < bracketSizes (g_idx g).
Proof.
  intros Hk Hx. pose proof (k_idx _ _ _ Hk) as Hi. apply (k_slots _ _ _ Hk) in Hx. pose proof (slot_range _ _ _ Hi Hx).
  destruct (brackets_ok _ Hi) as (? & _ & _ & _ & ? & _). unfold run_size. lia.
Qed.
(** A description with the same bracket and the same unused slots, or fewer. *)
Lemma slots_ok_sub m m' a g g' : slots_ok m a g -> g_idx g' = g_idx g -> NoDup (unused g') -> (forall x, x ∈ unused g' -> x ∈ unused g) ->
  (forall y, y ∉ unused g -> ld m' y = ld m y) -> linked m' (g_free g') -> linked m' (g_tl g') -> linked m' (g_bulk g') ->
  (is_thread (g_own g') = false -> g_tl g' = []) -> slots_ok m' a g'.
Proof.
  intros Hk Ei Hnd Hsub He H1 H2 H3 Hloc. pose proof (k_idx _ _ _ Hk) as Hi. split; rewrite ?Ei; try done.
  - intros x Hx. by apply Hk, Hsub.
  - intros x y Hx Hy. rewrite He; [by apply (k_zero _ _ _ Hk x); [apply Hsub|]|]. intros Hyu.
    assert (x = y); [|lia]. apply (slots_disjoint x y y a (g_idx g)); [done|by apply Hk, Hsub|by apply Hk|lia|lia].
  - intros y Hy. rewrite He; [by apply Hk|]. intros Hyu. apply Hk in Hyu. apply slot_range in Hyu; [lia|done].
Qed.
(** A slot in use is zeroed and becomes unused. *)
Lemma slots_ok_add m m' a g g' x : slots_ok m a g -> g_idx g' = g_idx g -> NoDup (unused g') -> (forall y, y ∈ unused g' -> y ∈ unused g \/ y = x) ->
  x ∈ slot_addrs a (g_idx g) -> x ∉ unused g -> (forall y, y <> x -> ld m' y = ld (zero_range m x (bracketSizes (g_idx g))) y) ->
  linked m' (g_free g') -> linked m' (g_tl g') -> linked m' (g_bulk g') -> (is_thread (g_own g') = false -> g_tl g' = []) -> slots_ok m' a g'.
Proof.
  intros Hk Ei Hnd Hsub Hx Hxu He H1 H2 H3 Hloc. pose proof (k_idx _ _ _ Hk) as Hi. pose proof (slot_range _ _ _ Hi Hx) as Hr. split; rewrite ?Ei; try done.
  - intros y Hy. apply Hsub in Hy as [Hy| ->]; [by apply Hk|done].
  - intros z y Hz Hy. rewrite He; [|intros ->; apply Hsub in Hz as [Hz| ->]; [|lia]].
    + rewrite ld_zero_range. split_ltb; try done; apply Hsub in Hz as [Hz| ->]; try (by apply (k_zero _ _ _ Hk z)); lia.
    + assert (z = x); [|lia]. apply (slots_disjoint z x x a (g_idx g)); [done|by apply Hk|done|lia|].
      destruct (brackets_ok _ Hi). lia.
  - intros y Hy. rewrite He by lia. rewrite ld_zero_range. split_ltb; try done; by apply Hk.
Qed.

(** ** The operations on one run *)
Lemma get_run_done s l G a g : base s l G -> G !! a = Some g -> get_run (Some a) s = Done (hdr g, s).
Proof. intros Hb Hg. destruct (base_facts _ _ _ _ _ Hb Hg) as (_ & _ & _ & Hr & _). unfold get_run. by rewrite bind_gets, Hr. Qed.
Lemma put_same s l G a g : base s l G -> G !! a = Some g -> put a (words (pages s)) g s = s.
Proof.
  intros Hb Hg. destruct (base_facts _ _ _ _ _ Hb Hg) as (_ & _ & _ & Hr & _). unfold put. rewrite insert_id by done. by destruct s as [[] ? ? ? ?].
Qed.
Lemma on_words_done {A} (f : gmap Z Z -> outcome (A * gmap Z Z)) s a m : f (words (pages s)) = Done (a, m) ->
  on_words f s = Done (a, with_pages (with_words m (pages s)) s).
Proof. intros E. unfold on_words. by rewrite E. Qed.
Lemma ToSlot_done g a x s : 0 <= g_idx g < kNumOfSizeBrackets -> x ∈ slot_addrs a (g_idx g) -> ToSlot a (hdr g) x s = Done (x, s).
Proof.
  intros Hi (k & Hk & ->)%elem_of_slots. destruct (brackets_ok _ Hi) as (Hb & _). unfold ToSlot, FirstSlot. cbn [size_bracket_idx_ hdr].
  replace (a + headerSizes (g_idx g) + k * bracketSizes (g_idx g) - (a + headerSizes (g_idx g))) with (k * bracketSizes (g_idx g)) by lia.
  rewrite Z.mod_mul, Z.div_mul by lia. rewrite bind_check; [done|]. rewrite !andb_true_iff, Z.eqb_eq, Z.leb_le, Z.ltb_lt. nia.
Qed.
(** Storing the new header and words of a run. *)
Lemma put_put a m m' g g' s : put a m' g' (put a m g s) = put a m' g' s.
Proof. unfold put. cbn. by rewrite insert_insert_eq. Qed.

Lemma AllocSlot_nil s l G a g : base s l G -> G !! a = Some g -> g_free g = [] -> AllocSlot (Some a) s = Done (0, s).
Proof.
  intros Hb Hg Hf. unfold AllocSlot. rewrite (bind_done _ _ _ _ _ (get_run_done _ _ _ _ _ Hb Hg)).
  rewrite (bind_done _ _ _ (0, flist []) (with_pages (with_words (words (pages s)) (pages s)) s)) by (apply on_words_done; cbn [free_list_ hdr]; by rewrite Hf, Remove_nil).
  assert (Eh : with_free_list (flist []) (hdr g) = hdr g) by (unfold hdr, with_free_list; cbn; by rewrite Hf).
  unfold set_run. rewrite bind_modify, Eh. change (Done (0, put a (words (pages s)) g s) = Done (0, s)). by rewrite (put_same s l G a g).
Qed.
Lemma AllocSlot_cons s l G a g x f : base s l G -> G !! a = Some g -> g_free g = x :: f ->
  exists m', AllocSlot (Some a) s = Done (x, put a m' (with_free f g) s) /\ base (put a m' (with_free f g) s) l (<[a := with_free f g]> G) /\
    (forall y, y <> x -> ld m' y = ld (words (pages s)) y) /\ ld m' x = 0.
Proof.
  intros Hb Hg Hf. destruct (base_facts _ _ _ _ _ Hb Hg) as (Hk & Ha & Hi & Hr & _). exists (st (words (pages s)) x 0).
  pose proof (k_nodup _ _ _ Hk) as Hnd. pose proof (k_free _ _ _ Hk) as Hl. unfold unused in Hnd. rewrite Hf in Hl, Hnd. cbn [app] in Hnd. apply NoDup_cons in Hnd as [Hx Hnd].
  assert (Hxu : x ∈ unused g) by (unfold unused; rewrite Hf; by left).
  assert (Hsh : short (x :: f)).
  { apply (short_unused _ _ _ _ Hk); [pose proof (k_nodup _ _ _ Hk) as Hnd'; unfold unused in Hnd'; rewrite Hf in Hnd'; by apply NoDup_app in Hnd' as (? & _)|].
    intros y Hy. apply Hk. unfold unused. rewrite Hf. set_solver. }
  split; [|split; [|split]].
  - unfold AllocSlot. rewrite (bind_done _ _ _ _ _ (get_run_done _ _ _ _ _ Hb Hg)).
    rewrite (bind_done _ _ _ (x, flist f) (with_pages (with_words (st (words (pages s)) x 0) (pages s)) s)); [done|].
    apply on_words_done. cbn [free_list_ hdr]. rewrite Hf, Remove_cons; [done|by apply (slots_nonzero _ _ _ _ Hk)|done|done].
  - pose proof (unused_range _ _ _ _ Hk Hxu). apply (put_base _ _ _ _ g); try done.
    + intros y Hy. rewrite ld_st. destruct (Z.eqb_spec y x); [lia|done].
    + apply (slots_ok_sub (words (pages s)) _ a g); try done; cbn.
      * unfold unused. rewrite Hf. cbn. set_solver.
      * intros y Hy. rewrite ld_st. destruct (Z.eqb_spec y x); [congruence|done].
      * destruct Hl as [_ Hl]. apply linked_st; [set_solver|done].
      * apply linked_st; [set_solver|apply Hk].
      * apply linked_st; [set_solver|apply Hk].
      * apply Hk.
  - intros y Hy. rewrite ld_st. by destruct (Z.eqb_spec y x).
  - by rewrite ld_st, Z.eqb_refl.
Qed.

(** *** A slot is given back *)
Lemma zeroed_linked m a g x l : slots_ok m a g -> x ∈ slot_addrs a (g_idx g) -> x ∉ unused g -> (forall y, y ∈ l -> y ∈ unused g) ->
  linked m l -> linked (zero_range m x (bracketSizes (g_idx g))) l.
Proof.
  intros Hk Hx Hxu Hl. apply linked_ext. intros y Hy. rewrite ld_zero_range. destruct (_ && _) eqn:E; [|done].
  apply andb_true_iff in E as [?%Z.leb_le ?%Z.ltb_lt]. pose proof (k_idx _ _ _ Hk) as Hi. destruct (brackets_ok _ Hi) as (Hb & _).
  destruct Hxu. rewrite <- (slots_disjoint y x y a (g_idx g)); [by apply Hl|done|by apply Hk, Hl|done|lia|lia].
Qed.
Definition adds (g g' : grun) (x : Z) : Prop :=
  g_idx g' = g_idx g /\ g_own g' = g_own g /\
  ((g_free g' = x :: g_free g /\ g_tl g' = g_tl g /\ g_bulk g' = g_bulk g) \/
   (g_free g' = g_free g /\ g_tl g' = x :: g_tl g /\ g_bulk g' = g_bulk g /\ is_thread (g_own g) = true) \/
   (g_free g' = g_free g /\ g_tl g' = g_tl g /\ g_bulk g' = x :: g_bulk g)).
Lemma adds_unused g g' x : adds g g' x -> unused g' ≡ₚ x :: unused g.
Proof.
  unfold unused. intros (_ & _ & [(-> & -> & ->)|[(-> & -> & -> & _)|(-> & -> & ->)]]); cbn.
  - done.
  - by rewrite <- Permutation_middle.
  - by rewrite <- !Permutation_middle.
Qed.
Lemma add_slot s l G a g g' x m' : base s l G -> G !! a = Some g -> x ∈ slot_addrs a (g_idx g) -> x ∉ unused g -> adds g g' x ->
  let m0 := zero_range (words (pages s)) x (bracketSizes (g_idx g)) in
  linked m' (g_free g') -> linked m' (g_tl g') -> linked m' (g_bulk g') -> (forall y, y <> x -> ld m' y = ld m0 y) ->
  base (put a m' g' s) l (<[a := g']> G) /\ (forall y, ~ x <= y < x + bracketSizes (g_idx g) -> ld m' y = ld (words (pages s)) y).
Proof.
  intros Hb Hg Hx Hxu Had m0 H1 H2 H3 Hm. pose proof (adds_unused _ _ _ Had) as Hp. destruct Had as (Ei & Eo & Hl).
  destruct (base_facts _ _ _ _ _ Hb Hg) as (Hk & Ha & Hi & _). pose proof (slot_range _ _ _ Hi Hx) as Hr. destruct (brackets_ok _ Hi) as (Hbs & _ & _ & _ & Hh & _).
  assert (Hout : forall y, ~ x <= y < x + bracketSizes (g_idx g) -> ld m' y = ld (words (pages s)) y).
  { intros y Hy. rewrite Hm by lia. unfold m0. rewrite ld_zero_range. split_ltb; try done; lia. }
  split; [|done]. apply (put_base _ _ _ _ g); try done.
  - intros y Hy. apply Hout. unfold run_size in Hy. lia.
  - apply (slots_ok_add (words (pages s)) _ a g _ x); try done.
    + rewrite Hp. apply NoDup_cons. split; [done|apply Hk].
    + intros y Hy. rewrite Hp in Hy. set_solver.
    + rewrite Eo. intros Hth. destruct Hl as [(_ & -> & _)|[(_ & _ & _ & Ht)|(_ & -> & _)]]; [by apply Hk|congruence|by apply Hk].
Qed.
Lemma zero_slot_done x n s : zero_slot x n s = Done (tt, with_pages (with_words (zero_range (words (pages s)) x n) (pages s)) s).
Proof. done. Qed.
Lemma short_cons m a g x l : slots_ok m a g -> x ∈ slot_addrs a (g_idx g) -> x ∉ unused g -> NoDup l -> (forall y, y ∈ l -> y ∈ unused g) -> short (x :: l).
Proof.
  intros Hk Hx Hxu Hnd Hl. apply (short_unused m a g); [done|apply NoDup_cons; split; [intros Hin; by apply Hxu, Hl|done]|].
  intros y [->|Hy]%elem_of_cons; [done|]. by apply Hk, Hl.
Qed.
Lemma unused_parts m a g : slots_ok m a g -> NoDup (g_free g) /\ NoDup (g_tl g) /\ NoDup (g_bulk g) /\
  (forall x, x ∈ g_free g -> x ∈ unused g) /\ (forall x, x ∈ g_tl g -> x ∈ unused g) /\ (forall x, x ∈ g_bulk g -> x ∈ unused g).
Proof.
  intros Hk. pose proof (k_nodup _ _ _ Hk) as Hnd. unfold unused in *. apply NoDup_app in Hnd as (? & _ & Hnd). apply NoDup_app in Hnd as (? & _ & ?).
  repeat (split; [done|]). split; [|split]; intros x Hx; rewrite !elem_of_app; tauto.
Qed.

Section AddSlot.
Context (s : RosAlloc) (l : segs) (G : gmap Z grun) (a : Z) (g : grun) (x : Z).
Context (Hb : base s l G) (Hg : G !! a = Some g) (Hx : x ∈ slot_addrs a (g_idx g)) (Hxu : x ∉ unused g).
Notation m := (words (pages s)).
Notation m0 := (zero_range m x (bracketSizes (g_idx g))).

(** The list [sel] of the run gets the slot. *)
Lemma add_to_list (useTail : bool) (mk : list Z -> SlotFreeList) (sel : list Z) :
  mk = (if useTail then tlist else flist) -> (forall y, y ∈ sel -> y ∈ unused g) -> NoDup sel -> linked m sel ->
  exists m', Add useTail x (mk sel) m0 = Done (mk (x :: sel), m') /\ linked m' (x :: sel) /\ (forall y, y <> x -> ld m' y = ld m0 y).
Proof.
  intros Emk Hsub Hnd Hl. destruct (base_facts _ _ _ _ _ Hb Hg) as (Hk & Ha & Hi & _). destruct (brackets_ok _ Hi) as (Hbs & _).
  assert (Hx0 : x <> 0) by (by apply (slot_pos x a (g_idx g))). assert (Hz : ld m0 x = 0) by (rewrite ld_zero_range; split_ltb; try done; lia).
  assert (Hnz : forall y, y ∈ sel -> y <> 0) by (intros y Hy; by apply (slots_nonzero m a g); [..|apply Hsub]).
  assert (Hl0 : linked m0 sel) by (by apply (zeroed_linked m a)). assert (Hsh : short (x :: sel)) by (by apply (short_cons m a g)).
  assert (x ∉ sel) by (intros Hin; by apply Hxu, Hsub). rewrite Emk. destruct useTail; [by apply Add_tlist|by apply Add_flist].
Qed.
(** The other lists of the run. *)
Lemma other_list m' sel : (forall y, y ∈ sel -> y ∈ unused g) -> linked m sel -> (forall y, y <> x -> ld m' y = ld m0 y) -> linked m' sel.
Proof.
  intros Hsub Hl He. destruct (base_facts _ _ _ _ _ Hb Hg) as (Hk & _). apply (linked_ext m0); [|by apply (zeroed_linked m a)].
  intros y Hy. apply He. intros ->. by apply Hxu, Hsub.
Qed.

Lemma FreeSlot_done : is_thread (g_own g) = false ->
  exists m', FreeSlot a x s = Done (tt, put a m' (with_free (x :: g_free g) g) s) /\
    base (put a m' (with_free (x :: g_free g) g) s) l (<[a := with_free (x :: g_free g) g]> G) /\
    (forall y, ~ x <= y < x + bracketSizes (g_idx g) -> ld m' y = ld m y).
Proof.
  intros Ho. destruct (base_facts _ _ _ _ _ Hb Hg) as (Hk & Ha & Hi & _). destruct (unused_parts _ _ _ Hk) as (N1 & N2 & N3 & S1 & S2 & S3).
  destruct (add_to_list false flist (g_free g)) as (m' & E & Hl & Hm); [done|done|done|apply Hk|]. exists m'. split.
  - unfold FreeSlot. rewrite (bind_done _ _ _ _ _ (get_run_done _ _ _ _ _ Hb Hg)). cbn [is_thread_local_ hdr]. rewrite bind_check by (by rewrite Ho).
    rewrite (bind_done _ _ _ _ _ (ToSlot_done _ _ _ _ Hi Hx)), (bind_done _ _ _ _ _ (zero_slot_done _ _ _)).
    by rewrite (bind_done _ _ _ _ _ (on_words_done _ (with_pages (with_words m0 (pages s)) s) _ _ E)).
  - apply add_slot; try done; cbn; [split; [done|]; split; [done|by left]|..]; apply other_list; try done; apply Hk.
Qed.
Lemma AddToThreadLocalFreeList_done : is_thread (g_own g) = true ->
  exists m', AddToThreadLocalFreeList a x s = Done (tt, put a m' (with_tl (x :: g_tl g) g) s) /\
    base (put a m' (with_tl (x :: g_tl g) g) s) l (<[a := with_tl (x :: g_tl g) g]> G) /\
    (forall y, ~ x <= y < x + bracketSizes (g_idx g) -> ld m' y = ld m y).
Proof.
  intros Ho. destruct (base_facts _ _ _ _ _ Hb Hg) as (Hk & Ha & Hi & _). destruct (unused_parts _ _ _ Hk) as (N1 & N2 & N3 & S1 & S2 & S3).
  destruct (add_to_list true tlist (g_tl g)) as (m' & E & Hl & Hm); [done|done|done|apply Hk|]. exists m'. split.
  - unfold AddToThreadLocalFreeList. rewrite (bind_done _ _ _ _ _ (get_run_done _ _ _ _ _ Hb Hg)). cbn [is_thread_local_ hdr]. rewrite bind_check by done.
    rewrite (bind_done _ _ _ _ _ (ToSlot_done _ _ _ _ Hi Hx)), (bind_done _ _ _ _ _ (zero_slot_done _ _ _)).
    by rewrite (bind_done _ _ _ _ _ (on_words_done _ (with_pages (with_words m0 (pages s)) s) _ _ E)).
  - apply add_slot; try done; cbn; [split; [done|]; split; [done|by right; left]|..]; apply other_list; try done; apply Hk.
Qed.
Lemma AddToBulkFreeList_done :
  exists m', AddToBulkFreeList a x s = Done (bracketSizes (g_idx g), put a m' (with_bulk (x :: g_bulk g) g) s) /\
    base (put a m' (with_bulk (x :: g_bulk g) g) s) l (<[a := with_bulk (x :: g_bulk g) g]> G) /\
    (forall y, ~ x <= y < x + bracketSizes (g_idx g) -> ld m' y = ld m y).
Proof.
  destruct (base_facts _ _ _ _ _ Hb Hg) as (Hk & Ha & Hi & _). destruct (unused_parts _ _ _ Hk) as (N1 & N2 & N3 & S1 & S2 & S3).
  destruct (add_to_list true tlist (g_bulk g)) as (m' & E & Hl & Hm); [done|done|done|apply Hk|]. exists m'. split.
  - unfold AddToBulkFreeList. rewrite (bind_done _ _ _ _ _ (get_run_done _ _ _ _ _ Hb Hg)).
    rewrite (bind_done _ _ _ _ _ (ToSlot_done _ _ _ _ Hi Hx)), (bind_done _ _ _ _ _ (zero_slot_done _ _ _)).
    by rewrite (bind_done _ _ _ _ _ (on_words_done _ (with_pages (with_words m0 (pages s)) s) _ _ E)).
  - apply add_slot; try done; cbn; [split; [done|]; split; [done|by right; right]|..]; apply other_list; try done; apply Hk.
Qed.
End AddSlot.

(** *** Merging the lists of a run *)
Lemma merge_lists s l G a g g' l1 l2 l3 : base s l G -> G !! a = Some g -> g_idx g' = g_idx g -> unused g ≡ₚ l1 ++ l2 ++ l3 -> unused g' ≡ₚ (l1 ++ l2) ++ l3 ->
  linked (words (pages s)) l1 -> linked (words (pages s)) l2 ->
  (forall m', linked m' (l1 ++ l2) -> linked m' [] -> (forall y, y ∉ l1 -> ld m' y = ld (words (pages s)) y) -> linked m' (g_free g') /\ linked m' (g_tl g') /\ linked m' (g_bulk g')) ->
  (is_thread (g_own g') = false -> g_tl g' = []) ->
  let m' := join (words (pages s)) l1 l2 in
  base (put a m' g' s) l (<[a := g']> G) /\ (forall y, y ∉ unused g -> ld m' y = ld (words (pages s)) y) /\
  (forall y, y ∈ l1 ++ l2 -> y <> 0) /\ short (l1 ++ l2).
Proof.
  intros Hb Hg Ei Hp Hp' H1 H2 Hlk Hloc m'. destruct (base_facts _ _ _ _ _ Hb Hg) as (Hk & Ha & Hi & _).
  pose proof (k_nodup _ _ _ Hk) as Hnd. rewrite Hp in Hnd. rewrite app_assoc in Hnd. pose proof Hnd as (Hn12 & _)%NoDup_app.
  assert (Hsub : forall y, y ∈ l1 ++ l2 -> y ∈ unused g) by (intros y Hy; rewrite Hp, app_assoc; apply elem_of_app; by left).
  assert (Hm : forall y, y ∉ l1 -> ld m' y = ld (words (pages s)) y) by (intros y Hy; by apply ld_join).
  assert (Hmu : forall y, y ∉ unused g -> ld m' y = ld (words (pages s)) y) by (intros y Hy; apply Hm; intros Hin; apply Hy, Hsub, elem_of_app; by left).
  destruct (Hlk m') as (L1 & L2 & L3); [by apply linked_join|done|done|].
  split; [|split; [done|split; [intros y Hy; by apply (slots_nonzero _ _ _ _ Hk Ha), Hsub|]]].
  - apply (put_base _ _ _ _ g); try done.
    + intros y Hy. apply Hmu. intros Hin. pose proof (unused_range _ _ _ _ Hk Hin). lia.
    + apply (slots_ok_sub (words (pages s)) _ a g); try done; [by rewrite Hp'|]. intros y Hy. rewrite Hp' in Hy. rewrite Hp. by rewrite <- app_assoc in Hy.
  - apply (short_unused _ _ _ _ Hk Hn12). intros y Hy. by apply Hk, Hsub.
Qed.

Section MergeLists.
Context (s : RosAlloc) (l : segs) (G : gmap Z grun) (a : Z) (g : grun).
Context (Hb : base s l G) (Hg : G !! a = Some g).
Notation m := (words (pages s)).
Lemma MergeThreadLocalFreeListToFreeList_done : is_thread (g_own g) = true ->
  let g' := with_tl [] (with_free (g_tl g ++ g_free g) g) in let m' := join m (g_tl g) (g_free g) in
  MergeThreadLocalFreeListToFreeList (Some a) s = Done (0 <? Z.of_nat (length (g_tl g)), put a m' g' s) /\
  base (put a m' g' s) l (<[a := g']> G) /\ (forall y, y ∉ unused g -> ld m' y = ld m y).
Proof.
  intros Ho g' m'. destruct (base_facts _ _ _ _ _ Hb Hg) as (Hk & Ha & Hi & _). pose proof (k_nodup _ _ _ Hk) as Hnd. unfold unused in Hnd.
  destruct (merge_lists s l G a g g' (g_tl g) (g_free g) (g_bulk g)) as (Hb' & Hm & Hnz & Hsh); try done.
  { unfold unused. solve_Permutation. } { apply Hk. } { apply Hk. }
  { intros m1 Hl _ He. split; [done|]. split; [done|]. apply (linked_ext m); [|apply Hk]. intros y Hy. apply He. cbn in Hy. clear -Hnd Hy. apply NoDup_app in Hnd as (_ & _ & Hnd). apply NoDup_app in Hnd as (_ & Hd & _). intros Hin. by apply (Hd y). }
  split; [|done]. unfold MergeThreadLocalFreeListToFreeList. rewrite (bind_done _ _ _ _ _ (get_run_done _ _ _ _ _ Hb Hg)). cbn [is_thread_local_ hdr]. rewrite bind_check by done.
  rewrite (bind_done _ _ _ (flist (g_tl g ++ g_free g), tlist []) (with_pages (with_words m' (pages s)) s)).
  2: { apply on_words_done. cbn [thread_local_free_list_ free_list_ hdr]. by rewrite Merge_flist. }
  cbn [free_list_ thread_local_free_list_ hdr size_ flist tlist]. rewrite length_app, Nat2Z.inj_add.
  rewrite bind_check.
  2: { apply andb_true_iff. split; [apply bool_decide_eq_true; lia|apply Z.leb_le; lia]. }
  unfold set_run. rewrite bind_modify. unfold mret, M_ret. replace (Z.of_nat (length (g_free g)) <? _) with (0 <? Z.of_nat (length (g_tl g))) by (split_ltb; try done; lia). done.
Qed.
Lemma MergeBulkFreeListToFreeList_done : is_thread (g_own g) = false ->
  let g' := with_bulk [] (with_free (g_bulk g ++ g_free g) g) in let m' := join m (g_bulk g) (g_free g) in
  MergeBulkFreeListToFreeList a s = Done (tt, put a m' g' s) /\
  base (put a m' g' s) l (<[a := g']> G) /\ (forall y, y ∉ unused g -> ld m' y = ld m y).
Proof.
  intros Ho g' m'. destruct (base_facts _ _ _ _ _ Hb Hg) as (Hk & Ha & Hi & _). pose proof (k_nodup _ _ _ Hk) as Hnd. unfold unused in Hnd.
  destruct (merge_lists s l G a g g' (g_bulk g) (g_free g) (g_tl g)) as (Hb' & Hm & Hnz & Hsh); try done.
  { unfold unused. solve_Permutation. } { unfold unused, g'. cbn. by rewrite app_nil_r. } { apply Hk. } { apply Hk. }
  { intros m1 Hl _ He. split; [done|]. cbn. by rewrite (k_local _ _ _ Hk Ho). } { apply Hk. }
  split; [|done]. unfold MergeBulkFreeListToFreeList. rewrite (bind_done _ _ _ _ _ (get_run_done _ _ _ _ _ Hb Hg)). cbn [is_thread_local_ hdr]. rewrite bind_check by (by rewrite Ho).
  rewrite (bind_done _ _ _ (flist (g_bulk g ++ g_free g), tlist []) (with_pages (with_words m' (pages s)) s)); [done|].
  apply on_words_done. cbn [bulk_free_list_ free_list_ hdr]. by rewrite Merge_flist.
Qed.
Lemma MergeBulkFreeListToThreadLocalFreeList_done : is_thread (g_own g) = true ->
  let g' := with_bulk [] (with_tl (g_bulk g ++ g_tl g) g) in let m' := join m (g_bulk g) (g_tl g) in
  MergeBulkFreeListToThreadLocalFreeList a s = Done (tt, put a m' g' s) /\
  base (put a m' g' s) l (<[a := g']> G) /\ (forall y, y ∉ unused g -> ld m' y = ld m y).
Proof.
  intros Ho g' m'. destruct (base_facts _ _ _ _ _ Hb Hg) as (Hk & Ha & Hi & _). pose proof (k_nodup _ _ _ Hk) as Hnd. unfold unused in Hnd.
  destruct (merge_lists s l G a g g' (g_bulk g) (g_tl g) (g_free g)) as (Hb' & Hm & Hnz & Hsh); try done.
  { unfold unused. solve_Permutation. } { unfold unused, g'. cbn. rewrite app_nil_r. solve_Permutation. } { apply Hk. } { apply Hk. }
  { intros m1 Hl _ He. split; [|done]. apply (linked_ext m); [|apply Hk]. intros y Hy. apply He. cbn in Hy. clear -Hnd Hy. apply NoDup_app in Hnd as (_ & Hd & _). intros Hin. apply (Hd y Hy). apply elem_of_app. by right. }
  { cbn. congruence. }
  split; [|done]. unfold MergeBulkFreeListToThreadLocalFreeList. rewrite (bind_done _ _ _ _ _ (get_run_done _ _ _ _ _ Hb Hg)). cbn [is_thread_local_ hdr]. rewrite bind_check by done.
  rewrite (bind_done _ _ _ (tlist (g_bulk g ++ g_tl g), tlist []) (with_pages (with_words m' (pages s)) s)); [done|].
  apply on_words_done. cbn [bulk_free_list_ thread_local_free_list_ hdr]. by rewrite Merge_tlist.
Qed.
End MergeLists.

(** *** The header of a run *)
Lemma put_header s l G a g g' : base s l G -> G !! a = Some g -> g_idx g' = g_idx g -> g_free g' = g_free g -> g_tl g' = g_tl g -> g_bulk g' = g_bulk g ->
  (is_thread (g_own g') = false -> g_tl g = []) -> base (with_runs (<[a := hdr g']> (runs s)) s) l (<[a := g']> G).
Proof.
  intros Hb Hg Ei Ef Et Eb Hloc. destruct (base_facts _ _ _ _ _ Hb Hg) as (Hk & _).
  assert (Eu : unused g' = unused g) by (unfold unused; congruence).
  replace (with_runs (<[a := hdr g']> (runs s)) s) with (put a (words (pages s)) g' s) by (unfold put; by destruct s as [[] ? ? ? ?]).
  apply (put_base _ _ _ _ g); try done.
  apply (slots_ok_sub (words (pages s)) _ a g); rewrite ?Eu, ?Ef, ?Et, ?Eb; try done; apply Hk.
Qed.

(** ** A new run *)
Definition new_run_of (a idx : Z) : grun := mkG idx OLoose false (slot_addrs a idx) [] [].
Lemma InitFreeList_done s a idx : 0 < a -> 0 <= idx < kNumOfSizeBrackets -> runs s !! a = Some (with_idx idx zero_run) ->
  (forall x, x ∈ slot_addrs a idx -> ld (words (pages s)) x = 0) ->
  exists m', InitFreeList a s = Done (tt, put a m' (new_run_of a idx) s) /\ linked m' (slot_addrs a idx) /\
    forall y, y ∉ slot_addrs a idx -> ld m' y = ld (words (pages s)) y.
Proof.
  intros Ha Hi Hr Hz. destruct (brackets_ok _ Hi) as (Hb & _ & Hn & _ & Hh & _ & Esz). unfold InitFreeList.
  assert (E : get_run (Some a) s = Done (with_idx idx zero_run, s)) by (unfold get_run; by rewrite bind_gets, Hr). rewrite (bind_done _ _ _ _ _ E).
  unfold FirstSlot, LastSlot, Run_End. cbn [with_idx zero_run size_bracket_idx_ free_list_].
  replace (a + kPageSize * numOfPages idx - bracketSizes idx) with (a + headerSizes idx + (Z.of_nat (Z.to_nat (numOfSlots idx)) - 1) * bracketSizes idx) by lia.
  rewrite bind_check by (apply Z.leb_le; nia). change empty_list with (flist []).
  destruct (init_slots_done a idx Ha Hi (Z.to_nat (numOfSlots idx)) (S (Z.to_nat (numOfSlots idx))) (words (pages s))) as (m' & Ei & Hl & Hm).
  { lia. } { lia. } { rewrite Z2Nat.id by lia. unfold slots_from. by rewrite Z.sub_diag. } { intros j Hj. apply Hz, elem_of_slots. exists j. split; [lia|done]. }
  assert (Es : slots_from a idx (Z.of_nat (Z.to_nat (numOfSlots idx))) = []) by (rewrite Z2Nat.id by lia; unfold slots_from; by rewrite Z.sub_diag). rewrite Es in Ei.
  exists m'. split; [|done]. by rewrite (bind_done _ _ _ _ _ (on_words_done _ _ _ _ Ei)).
Qed.

Definition same_large (l l' : segs) : Prop := forall i n, used_at l' i SLarge n <-> used_at l i SLarge n.
(** The lists and tables of runs are the same. *)
Definition same_index (s s' : RosAlloc) : Prop :=
  non_full_runs_ s' = non_full_runs_ s /\ current_runs_ s' = current_runs_ s /\ thread_runs s' = thread_runs s.
Lemma new_run_slots m m' a idx : 0 <= idx < kNumOfSizeBrackets -> (forall y, a <= y < a + numOfPages idx * kPageSize -> ld m y = 0) ->
  linked m' (slot_addrs a idx) -> (forall y, y ∉ slot_addrs a idx -> ld m' y = ld m y) -> slots_ok m' a (new_run_of a idx).
Proof.
  intros Hi Hz Hl Hm. destruct (brackets_ok _ Hi) as (Hb & _ & Hn & _ & Hh & _ & Esz). assert (Eu : unused (new_run_of a idx) = slot_addrs a idx) by (unfold unused; cbn; by rewrite app_nil_r).
  split; rewrite ?Eu; try done; cbn.
  - by apply NoDup_slots.
  - intros x y Hx Hy. pose proof (slot_range _ _ _ Hi Hx). rewrite Hm; [apply Hz; lia|]. intros Hin. assert (x = y); [|lia].
    apply (slots_disjoint x y y a idx); try done; lia.
  - intros y Hy. rewrite Hm; [apply Hz; nia|]. intros Hin. pose proof (slot_range _ _ _ Hi Hin). lia.
Qed.

Lemma AllocRun_spec s l G idx : base s l G -> 0 <= idx < kNumOfSizeBrackets ->
  exists r s', AllocRun idx s = Done (r, s') /\ same_index s s' /\ frame (pages s) (pages s') /\
    match r with
    | None => s' = s /\ no_room (pages s) (numOfPages idx)
    | Some a => exists l', G !! a = None /\ base s' l' (<[a := new_run_of a idx]> G) /\ same_large l l' /\
        forall y, outside (new_run_of a idx) y -> ld (words (pages s')) y = ld (words (pages s)) y
    end.
Proof.
  intros Hb Hi. destruct (brackets_ok _ Hi) as (Hbs & _ & Hn & _ & Hh & Hp & Esz).
  destruct (AllocPages_used (pages s) l (numOfPages idx) SRun (b_pages _ _ _ Hb) Hp ltac:(done)) as (r & p1 & E & Hr).
  unfold AllocRun. rewrite (bind_done _ _ s r (with_pages p1 s)) by (unfold in_pages; change kPageMapRun with (seg_type SRun); by rewrite E).
  destruct r as [a|]; [|destruct Hr as [-> Hnr]; eexists _, _; split; [reflexivity|]; by destruct s].
  destruct Hr as (i & l' & Ea & Hi1 & Hf & Hw & _ & Hz & Hu & Hnew & Hl').
  pose proof (p_base _ _ (b_pages _ _ _ Hb)) as (Hb0 & _). pose proof (seg_bounds _ _ _ _ _ Hi1 Hu) as (Hi0 & _).
  assert (Haddr : forall j, addr p1 j = addr (pages s) j) by (intros j; unfold addr; by rewrite (proj1 Hf)).
  assert (HG : G !! a = None).
  { destruct (G !! a) as [g|] eqn:Hg; [|done]. destruct (b_used _ _ _ Hb _ _ Hg) as (j & Ej & Hj). rewrite Ea in Ej. apply page_addr_inj in Ej as ->. by apply Hnew in Hj. }
  rewrite bind_gets. cbn [runs with_pages]. rewrite (b_runs _ _ _ Hb), lookup_fmap, HG. cbn [fmap option_fmap option_map default with_idx zero_run is_thread_local_ to_be_bulk_freed_].
  rewrite bind_check by done. unfold set_run. rewrite bind_modify. set (s1 := with_runs _ _).
  destruct (InitFreeList_done s1 a idx) as (m' & Em & Hlk & Hm); [rewrite Ea; unfold addr; plia|done|by apply lookup_insert_eq| |].
  { intros x Hx. pose proof (slot_range _ _ _ Hi Hx). cbn. rewrite Hw. apply Hz. lia. }
  rewrite (bind_done _ _ _ _ _ Em). eexists _, _. split; [reflexivity|]. split; [done|]. split; [exact Hf|]. exists l'. split; [done|].
  assert (Hdis : forall y, y ∈ slot_addrs a idx -> a <= y < a + numOfPages idx * kPageSize) by (intros y Hy; pose proof (slot_range _ _ _ Hi Hy); lia).
  split; [|split].
  - split; cbn.
    + apply words_pages; [done|]. intros y _ Hfree. apply Hm. intros Hin. apply Hdis in Hin. rewrite Ea, <- Haddr in Hin. apply page_of in Hin.
      destruct (used_pages _ _ _ _ _ Hi1 Hu) as [_ Hs]. destruct (seg_used _ _ _ _ _ Hs ltac:(done) Hin). congruence.
    + rewrite insert_insert_eq, fmap_insert. f_equal. by rewrite <- (b_runs _ _ _ Hb).
    + intros b h. rewrite lookup_insert_Some. intros [[<- <-]|[Hne Hh']].
      { apply (new_run_slots (words p1)); try done. intros y Hy. rewrite Hw. by apply Hz. }
      destruct (b_used _ _ _ Hb _ _ Hh') as (j & Ej & Hj). destruct (base_facts _ _ _ _ _ Hb Hh') as (Hkh & Hb1 & _).
      apply (slots_ok_ext (words (pages s))); [|done|done]. intros y Hy. rewrite Hm; [cbn; by rewrite Hw|]. intros Hin. apply Hdis in Hin.
      assert (Hj' : used_at l' j SRun (numOfPages (g_idx h))) by (apply Hl'; by left). unfold run_size in Hy. rewrite Ej in Hy. rewrite Ea in Hin. unfold addr in *.
      destruct (seg_disjoint _ _ _ _ _ _ _ _ Hi1 Hu Hj') as [[= -> _]|[?|?]]; [by apply Hnew in Hj|plia|plia].
    + intros b h. rewrite lookup_insert_Some. intros [[<- <-]|[Hne Hh']]; [exists i; split; [rewrite Ea; symmetry; apply Haddr|done]|].
      destruct (b_used _ _ _ Hb _ _ Hh') as (j & Ej & Hj). exists j. split; [rewrite Ej; symmetry; apply Haddr|]. apply Hl'. by left.
    + intros j n Hj. change (is_Some (<[a := new_run_of a idx]> G !! addr p1 j)). rewrite Haddr, lookup_insert_is_Some'.
      apply Hl' in Hj as [Hj|[= -> _]]; [right; by eapply (b_only _ _ _ Hb)|by left].
  - intros j n. rewrite Hl'. split; [|by left]. by intros [?|[=]].
  - intros y Hy. cbn. rewrite Hm; [cbn; by rewrite Hw|]. intros Hin. apply (Hy y); [unfold unused; cbn; by rewrite app_nil_r|cbn; lia].
Qed.

(** ** A run that is given back *)
Definition all_free (g : grun) : Prop := Z.of_nat (length (g_free g)) = numOfSlots (g_idx g).
Lemma all_free_slots m a g : slots_ok m a g -> all_free g -> g_free g ≡ₚ slot_addrs a (g_idx g).
Proof.
  intros Hk Ha. destruct (unused_parts _ _ _ Hk) as (Hn & _ & _ & Hs & _). apply submseteq_length_Permutation.
  - apply NoDup_submseteq; [done|]. intros x Hx. by apply Hk, Hs.
  - apply Nat2Z.inj_le. rewrite length_slots by apply Hk. unfold all_free in Ha. lia.
Qed.
Lemma all_free_rest m a g : slots_ok m a g -> all_free g -> g_tl g = [] /\ g_bulk g = [].
Proof.
  intros Hk Ha. pose proof (all_free_slots _ _ _ Hk Ha) as Hp. pose proof (k_nodup _ _ _ Hk) as Hnd. unfold unused in Hnd.
  assert (Hno : forall x, x ∈ g_tl g ++ g_bulk g -> False).
  { intros x Hx. apply NoDup_app in Hnd as (_ & Hd & _). apply (Hd x); [|done]. rewrite Hp. apply Hk. unfold unused. apply elem_of_app. by right. }
  destruct (g_tl g) as [|x t]; [|destruct (Hno x); by left]. destruct (g_bulk g) as [|x t]; [done|]. destruct (Hno x). by left.
Qed.
Lemma ZeroHeaderAndSlotHeaders_done s l G a g : base s l G -> G !! a = Some g -> all_free g ->
  exists m', ZeroHeaderAndSlotHeaders a s = Done (tt, with_runs (delete a (runs s)) (with_pages (with_words m' (pages s)) s)) /\
    (forall y, ~ a <= y < a + run_size g -> ld m' y = ld (words (pages s)) y) /\ (forall y, a <= y < a + run_size g -> ld m' y = 0).
Proof.
  intros Hb Hg Haf. destruct (base_facts _ _ _ _ _ Hb Hg) as (Hk & Ha & Hi & _). destruct (unused_parts _ _ _ Hk) as (Hn & _ & _ & Hs & _).
  pose proof (all_free_slots _ _ _ Hk Haf) as Hp. destruct (brackets_ok _ Hi) as (Hbs & _).
  destruct (clear_slots_done (g_free g) (words (pages s))) as (m' & E & Hm); [intros x Hx; by apply (slots_nonzero _ _ _ _ Hk), Hs|done|apply Hk|].
  exists m'. split; [|split].
  - unfold ZeroHeaderAndSlotHeaders. rewrite (bind_done _ _ _ _ _ (get_run_done _ _ _ _ _ Hb Hg)). rewrite bind_check by (by apply Z.eqb_eq).
    rewrite (bind_done _ _ _ tt (with_pages (with_words m' (pages s)) s)); [done|]. apply on_words_done. cbn [free_list_ hdr flist size_ head_]. by rewrite Nat2Z.id, E.
  - intros y Hy. rewrite Hm, bool_decide_eq_false_2; [done|]. intros Hin. pose proof (unused_range _ _ _ _ Hk (Hs _ Hin)). lia.
  - intros y Hy. rewrite Hm. case_bool_decide as Hin; [done|]. destruct (slot_cases y a (g_idx g) Hi Hy) as [Hh|(x & Hx & Hxy)]; [apply Hk; lia|].
    rewrite <- Hp in Hx. apply (k_zero _ _ _ Hk x); [by apply Hs|]. assert (x <> y) by (intros ->; done). lia.
Qed.

Lemma free_run_spec s l G a g : base s l G -> G !! a = Some g -> all_free g ->
  exists s' l', free_run a s = Done (tt, s') /\ same_index s s' /\ frame (pages s) (pages s') /\ base s' l' (delete a G) /\ same_large l l' /\
    forall y, ~ a <= y < a + run_size g -> ld (words (pages s')) y = ld (words (pages s)) y.
Proof.
  intros Hb Hg Haf. destruct (ZeroHeaderAndSlotHeaders_done _ _ _ _ _ Hb Hg Haf) as (m' & E & Hm & Hz). set (s1 := with_runs _ _) in E.
  destruct (base_facts _ _ _ _ _ Hb Hg) as (Hk & Ha & Hi & _ & i & Ea & Hu & Hi0 & Hle).
  assert (Hr : forall y, a <= y < a + run_size g <-> addr (pages s) i <= y < addr (pages s) (i + numOfPages (g_idx g))) by (intros y; unfold run_size; rewrite Ea; unfold addr; plia).
  assert (Hi1 : pages_inv (pages s1) l).
  { apply words_pages; [apply Hb|]. intros y _ Hf. apply Hm. intros Hy. unfold run_size in Hy. rewrite Ea in Hy. apply page_of in Hy.
    destruct (used_pages _ _ _ _ _ (b_pages _ _ _ Hb) Hu) as [_ Hs]. destruct (seg_used _ _ _ _ _ Hs ltac:(done) Hy). congruence. }
  destruct (FreePages_used (pages s1) l i SRun (numOfPages (g_idx g)) true Hi1 Hu) as (l' & p2 & E2 & Hi2 & Hf2 & _ & Hw2 & Hl').
  { intros _ y Hy. apply Hz, Hr. exact Hy. }
  assert (Hw : forall y, ~ a <= y < a + run_size g -> ld (words p2) y = ld (words (pages s)) y).
  { intros y Hy. rewrite Hw2. destruct (_ && _) eqn:Ey; [|by apply Hm]. apply andb_true_iff in Ey as [?%Z.leb_le ?%Z.ltb_lt]. destruct Hy. by apply Hr. }
  assert (Haddr : forall j, addr p2 j = addr (pages s) j) by (intros j; unfold addr; by rewrite (proj1 Hf2)).
  exists (with_pages p2 s1), l'. split.
  { unfold free_run. rewrite (bind_done _ _ _ _ _ E). change (addr (pages s1) i) with (addr (pages s) i) in E2. rewrite <- Ea in E2. unfold in_pages.
    rewrite (bind_done _ _ _ (numOfPages (g_idx g) * kPageSize) (with_pages p2 s1)); [done|]. by rewrite E2. }
  split; [done|]. split; [exact Hf2|]. split; [|split; [intros j n; rewrite Hl'; split; [by intros [? _]|]; intros Hj; split; [done|]; intros ->|exact Hw]].
  - split; cbn.
    + done.
    + by rewrite (b_runs _ _ _ Hb), fmap_delete.
    + intros b h. rewrite lookup_delete_Some. intros [Hne Hh]. destruct (base_facts _ _ _ _ _ Hb Hh) as (Hkh & Hb0 & _).
      apply (slots_ok_ext (words (pages s))); [|done|done]. intros y Hy. apply Hw. intros Hy'. by apply Hne, (runs_disjoint s l G a g b h y).
    + intros b h. rewrite lookup_delete_Some. intros [Hne Hh]. destruct (b_used _ _ _ Hb _ _ Hh) as (j & Ej & Hj). exists j. rewrite Haddr. split; [done|].
      apply Hl'. split; [done|]. intros ->. congruence.
    + intros j n Hj. apply Hl' in Hj as [Hj Hne]. rewrite Haddr. rewrite lookup_delete_is_Some. split; [|by eapply (b_only _ _ _ Hb)].
      rewrite Ea. intros Ej%page_addr_inj. congruence.
  - destruct (seg_disjoint _ _ _ _ _ _ _ _ (b_pages _ _ _ Hb) Hu Hj) as [?|[?|?]]; [done|..];
      pose proof (seg_bounds _ _ _ _ _ (b_pages _ _ _ Hb) Hu); pose proof (seg_bounds _ _ _ _ _ (b_pages _ _ _ Hb) Hj); lia.
Qed.

(** ** The run or the large object of an address *)
Lemma segment_inside s l G i k n y : base s l G -> used_at l i k n -> addr (pages s) i <= y < addr (pages s) i + n * kPageSize ->
  in_footprint s y = true /\ in_pages (RoundDownToPageMapIndex y) s = Done ((y - base_ (pages s)) / kPageSize, s) /\
  i <= (y - base_ (pages s)) / kPageSize < i + n /\ 0 <= i.
Proof.
  intros Hb Hu Hy. pose proof (b_pages _ _ _ Hb) as Hi. pose proof (seg_bounds _ _ _ _ _ Hi Hu). pose proof (p_size _ _ Hi). pose proof (p_footprint _ _ Hi). pose proof (p_capacity _ _ Hi).
  assert (Hin : base_ (pages s) <= y < base_ (pages s) + footprint_ (pages s)) by (unfold addr in Hy; plia).
  split; [unfold in_footprint; rewrite andb_true_iff, Z.leb_le, Z.ltb_lt; lia|]. split; [|split; [by apply page_of|lia]].
  unfold in_pages, RoundDownToPageMapIndex. rewrite bind_gets, bind_check by (rewrite andb_true_iff, Z.leb_le, Z.ltb_lt; lia). by destruct s.
Qed.
Lemma run_start_done s i (c : nat) : forall fuel, (c < fuel)%nat -> 0 <= i -> pm (pages s) i = kPageMapRun ->
  (forall j, i < j <= i + Z.of_nat c -> pm (pages s) j = kPageMapRunPart) -> run_start fuel (i + Z.of_nat c) s = Done (i, s).
Proof.
  induction c as [|c IH]; intros fuel Hf Hi Hr Hp; (destruct fuel as [|fuel]; [lia|]); cbn [run_start]; rewrite bind_gets.
  - rewrite Z.add_0_r, Hr, bool_decide_eq_true_2 by done. done.
  - rewrite Hp by lia. rewrite bool_decide_eq_false_2 by done. rewrite bind_check by (apply Z.ltb_lt; lia).
    replace (i + Z.of_nat (S c) - 1) with (i + Z.of_nat c) by lia. apply IH; [lia|done|done|]. intros j Hj. apply Hp. lia.
Qed.
Lemma run_of_run s l G a g y : base s l G -> G !! a = Some g -> a <= y < a + run_size g -> in_footprint s y = true /\ run_of y s = Done (Some a, s).
Proof.
  intros Hb Hg Hy. destruct (base_facts _ _ _ _ _ Hb Hg) as (_ & _ & _ & _ & i & Ea & Hu & _). unfold run_size in Hy. rewrite Ea in Hy.
  destruct (segment_inside _ _ _ _ _ _ _ Hb Hu Hy) as (Hin & E & Hj & Hi). split; [done|]. set (j := (y - base_ (pages s)) / kPageSize) in *.
  destruct (used_pages _ _ _ _ _ (b_pages _ _ _ Hb) Hu) as [_ [Hr Hp]]. unfold run_of. rewrite (bind_done _ _ _ _ _ E), bind_gets.
  assert (Es : run_start (S (Z.to_nat j)) j s = Done (i, s)).
  { replace j with (i + Z.of_nat (Z.to_nat (j - i))) at 2 by lia. apply run_start_done; [lia|done|done|]. intros j' Hj'. apply Hp. lia. }
  destruct (decide (j = i)) as [Eji|Hne].
  - rewrite Eji, Hr, <- Eji, (bind_done _ _ _ _ _ Es). by rewrite Ea.
  - rewrite Hp by lia. rewrite (bind_done _ _ _ _ _ Es). by rewrite Ea.
Qed.
Lemma run_of_large s l G i n : base s l G -> used_at l i SLarge n ->
  in_footprint s (addr (pages s) i) = true /\ run_of (addr (pages s) i) s = Done (None, s) /\ in_pages (RoundDownToPageMapIndex (addr (pages s) i)) s = Done (i, s).
Proof.
  intros Hb Hu. pose proof (seg_bounds _ _ _ _ _ (b_pages _ _ _ Hb) Hu).
  destruct (segment_inside _ _ _ _ _ _ (addr (pages s) i) Hb Hu ltac:(plia)) as (Hin & E & Hj & Hi). split; [done|].
  destruct (used_pages _ _ _ _ _ (b_pages _ _ _ Hb) Hu) as [_ [Hr Hp]]. unfold run_of. rewrite (bind_done _ _ _ _ _ E), bind_gets.
  assert (Ej : (addr (pages s) i - base_ (pages s)) / kPageSize = i).
  { unfold addr. replace (base_ (pages s) + i * kPageSize - base_ (pages s)) with (i * kPageSize) by lia. by rewrite Z.div_mul by plia. }
  rewrite Ej in *. by rewrite Hr.
Qed.

(** ** Large objects *)
Lemma base_pages s l G p' l' : base s l G -> pages_inv p' l' -> frame (pages s) p' ->
  (forall a g y, G !! a = Some g -> a <= y < a + run_size g -> ld (words p') y = ld (words (pages s)) y) ->
  (forall i n, used_at l' i SRun n <-> used_at l i SRun n) -> base (with_pages p' s) l' G.
Proof.
  intros Hb Hi Hf Hw Hu. assert (Haddr : forall j, addr p' j = addr (pages s) j) by (intros j; unfold addr; by rewrite (proj1 Hf)). split; cbn.
  - done.
  - apply Hb.
  - intros a g Hg. destruct (base_facts _ _ _ _ _ Hb Hg) as (Hk & Ha & _). apply (slots_ok_ext (words (pages s))); [|done|done]. intros y Hy. by apply (Hw a g).
  - intros a g Hg. destruct (b_used _ _ _ Hb _ _ Hg) as (i & Ea & Hi'). exists i. rewrite Haddr, Hu. done.
  - intros i n Hn. rewrite Hu in Hn. rewrite Haddr. by eapply (b_only _ _ _ Hb).
Qed.
Lemma large_run_disjoint s l G i n a g y : base s l G -> used_at l i SLarge n -> G !! a = Some g ->
  addr (pages s) i <= y < addr (pages s) (i + n) -> ~ a <= y < a + run_size g.
Proof.
  intros Hb Hu Hg Hy Hy'. destruct (b_used _ _ _ Hb _ _ Hg) as (j & -> & Hj). unfold run_size, addr in *.
  destruct (seg_disjoint _ _ _ _ _ _ _ _ (b_pages _ _ _ Hb) Hu Hj) as [?|[?|?]]; [done|plia|plia].
Qed.
Lemma alloc_large s l G num : base s l G -> 0 < num ->
  exists r s', in_pages (AllocPages num kPageMapLargeObject) s = Done (r, s') /\ same_index s s' /\ frame (pages s) (pages s') /\ runs s' = runs s /\ words (pages s') = words (pages s) /\
    match r with
    | None => s' = s /\ no_room (pages s) num
    | Some a => exists i l', a = addr (pages s) i /\ base s' l' G /\ (forall i' n, used_at l' i' SLarge n <-> used_at l i' SLarge n \/ (i', n) = (i, num)) /\
        (forall k n, ~ used_at l i k n) /\ (forall y, a <= y < a + num * kPageSize -> ld (words (pages s)) y = 0)
    end.
Proof.
  intros Hb Hn. destruct (AllocPages_used (pages s) l num SLarge (b_pages _ _ _ Hb) Hn ltac:(done)) as (r & p1 & E & Hr).
  exists r, (with_pages p1 s). split; [unfold in_pages; change kPageMapLargeObject with (seg_type SLarge); by rewrite E|]. split; [done|].
  destruct r as [a|]; [|destruct Hr as [-> Hnr]; by destruct s]. destruct Hr as (i & l' & Ea & Hi1 & Hf & Hw & _ & Hz & Hu & Hnew & Hl').
  split; [done|]. split; [done|]. split; [done|]. exists i, l'. split; [done|]. split; [|split; [|done]].
  - apply (base_pages s l); try done; [intros; by rewrite Hw|]. intros j n. rewrite Hl'. split; [by intros [?|[=]]|by left].
  - intros j n. rewrite Hl'. split; [intros [?|[= -> ->]]; [by left|by right]|intros [?|[= -> ->]]; [by left|by right]].
Qed.
Lemma free_large s l G i n : base s l G -> used_at l i SLarge n ->
  exists s' l', in_pages (FreePages (addr (pages s) i) false) s = Done (n * kPageSize, s') /\ same_index s s' /\ frame (pages s) (pages s') /\ runs s' = runs s /\ base s' l' G /\
    (forall i' n', used_at l' i' SLarge n' <-> used_at l i' SLarge n' /\ i' <> i) /\
    (forall y, ~ addr (pages s) i <= y < addr (pages s) (i + n) -> ld (words (pages s')) y = ld (words (pages s)) y).
Proof.
  intros Hb Hu. destruct (FreePages_used (pages s) l i SLarge n false (b_pages _ _ _ Hb) Hu ltac:(done)) as (l' & p1 & E & Hi1 & Hf & _ & Hw & Hl').
  exists (with_pages p1 s), l'. split; [unfold in_pages; by rewrite E|]. split; [done|]. split; [done|]. split; [done|].
  assert (Hw' : forall y, ~ addr (pages s) i <= y < addr (pages s) (i + n) -> ld (words p1) y = ld (words (pages s)) y).
  { intros y Hy. rewrite Hw. destruct (_ && _) eqn:Ey; [|done]. apply andb_true_iff in Ey as [?%Z.leb_le ?%Z.ltb_lt]. by destruct Hy. }
  split; [|split; [|done]].
  - apply (base_pages s l); try done.
    + intros a g y Hg Hy. apply Hw'. intros Hy'. by apply (large_run_disjoint s l G i n a g y).
    + intros j m. rewrite Hl'. split; [by intros [? _]|]. intros Hj. split; [done|]. intros ->.
      destruct (seg_disjoint _ _ _ _ _ _ _ _ (b_pages _ _ _ Hb) Hu Hj) as [?|?]; [done|].
      pose proof (seg_bounds _ _ _ _ _ (b_pages _ _ _ Hb) Hu). pose proof (seg_bounds _ _ _ _ _ (b_pages _ _ _ Hb) Hj). lia.
  - intros j m. by rewrite Hl'.
Qed.
