(* ===== verification/RosAllocIndex.v ===== *)
(** The owners of the runs of RosAlloc, and the blocks that are in use.

    [index_ok] says that the threads' runs, [current_runs_] and
    [non_full_runs_] are those of the descriptions of the runs; [heap] adds what
    holds between operations, as that a run in [non_full_runs_] is neither full
    nor empty and that a run in none of the tables is full.  [live_in] are the
    blocks in use; [trans] is a change of the heap that does not show in them. *)
From stdpp Require Import prelude gmap list.
From Stdlib Require Import ZArith Lia.
From S2P Require Import Prelude BitUtils RosAlloc RosAllocPages RosAllocFreePages RosAllocSegments RosAllocSlots RosAllocRuns.
Import RosAlloc.
Open Scope Z_scope.

(** ** Sums over maps *)
Definition msum {K A} `{Countable K} (f : A -> Z) (m : gmap K A) : Z := map_fold (fun _ x acc => f x + acc) 0 m.
Section Msum.
Context {K A : Type} `{Countable K} (f : A -> Z).
Implicit Types m : gmap K A.
Lemma msum_empty : msum f (∅ : gmap K A) = 0.
Proof. unfold msum. by rewrite map_fold_empty. Qed.
Lemma msum_insert m i x : m !! i = None -> msum f (<[i := x]> m) = f x + msum f m.
Proof. intros Hi. unfold msum. rewrite map_fold_insert_L; [done| |done]. intros. lia. Qed.
Lemma msum_delete m i x : m !! i = Some x -> msum f (delete i m) = msum f m - f x.
Proof.
  intros Hi. rewrite <- (insert_delete_id m i x Hi) at 2. rewrite msum_insert by apply lookup_delete_eq. lia.
Qed.
Lemma msum_update m i x y : m !! i = Some x -> msum f (<[i := y]> m) = msum f m - f x + f y.
Proof. intros Hi. rewrite <- insert_delete_eq, msum_insert by apply lookup_delete_eq. rewrite (msum_delete _ _ x) by done. lia. Qed.
End Msum.

(** ** The tables of runs *)
Definition nfl (nf : gmap Z (list Z)) (i : Z) : list Z := default [] (nf !! i).
Definition owned (G : gmap Z grun) (a i : Z) (o : owner) : Prop := exists g, G !! a = Some g /\ g_idx g = i /\ g_own g = o.
Record index_ok (tr : gmap (Z * Z) Z) (cu : gmap Z Z) (nf : gmap Z (list Z)) (G : gmap Z grun) : Prop := {
  x_thread : forall t i a, tr !! (t, i) = Some a <-> owned G a i (OThread t);
  x_current : forall i a, cu !! i = Some a <-> owned G a i OCurrent;
  x_listed : forall i a, a ∈ nfl nf i <-> owned G a i OListed;
  x_local : forall a i t, owned G a i (OThread t) -> i < kNumThreadLocalSizeBrackets
}.

Lemma owned_insert G a g b i o : owned (<[a := g]> G) b i o <-> (b = a /\ g_idx g = i /\ g_own g = o) \/ (b <> a /\ owned G b i o).
Proof.
  unfold owned. setoid_rewrite lookup_insert_Some. split.
  - intros (h & [[<- <-]|[Hne Hh]] & ? & ?); [by left|right; eauto].
  - intros [(-> & ? & ?)|(Hne & h & ? & ? & ?)]; [by exists g; auto|exists h; auto 10].
Qed.
Lemma owned_delete G a b i o : owned (delete a G) b i o <-> b <> a /\ owned G b i o.
Proof. unfold owned. setoid_rewrite lookup_delete_Some. naive_solver. Qed.
(** A run changes its owner. *)
Lemma index_move tr cu nf tr' cu' nf' G a g :
  index_ok tr cu nf G -> (forall t, g_own g = OThread t -> g_idx g < kNumThreadLocalSizeBrackets) ->
  (forall t i b, tr' !! (t, i) = Some b <-> (b = a /\ g_idx g = i /\ g_own g = OThread t) \/ (b <> a /\ tr !! (t, i) = Some b)) ->
  (forall i b, cu' !! i = Some b <-> (b = a /\ g_idx g = i /\ g_own g = OCurrent) \/ (b <> a /\ cu !! i = Some b)) ->
  (forall i b, b ∈ nfl nf' i <-> (b = a /\ g_idx g = i /\ g_own g = OListed) \/ (b <> a /\ b ∈ nfl nf i)) ->
  index_ok tr' cu' nf' (<[a := g]> G).
Proof.
  intros Hx Hl H1 H2 H3. split.
  - intros t i b. by rewrite owned_insert, H1, (x_thread _ _ _ _ Hx).
  - intros i b. by rewrite owned_insert, H2, (x_current _ _ _ _ Hx).
  - intros i b. by rewrite owned_insert, H3, (x_listed _ _ _ _ Hx).
  - intros b i t. rewrite owned_insert. intros [(_ & <- & Ht)|[_ Ho]]; [by apply (Hl t)|by apply (x_local _ _ _ _ Hx b i t)].
Qed.
(** The lists of a run change, and its owner does not. *)
Lemma index_same tr cu nf G a g g' : index_ok tr cu nf G -> G !! a = Some g -> g_idx g' = g_idx g -> g_own g' = g_own g -> index_ok tr cu nf (<[a := g']> G).
Proof.
  intros Hx Hg Ei Eo. assert (He : forall b i o, owned (<[a := g']> G) b i o <-> owned G b i o).
  { intros b i o. rewrite owned_insert. split.
    - intros [(-> & <- & <-)|[_ ?]]; [|done]. exists g. by rewrite Ei, Eo.
    - intros Ho. destruct (decide (b = a)) as [->|]; [left|by right]. destruct Ho as (h & Hh & <- & <-). rewrite Hg in Hh. injection Hh as <-. by rewrite Ei, Eo. }
  split; setoid_rewrite He; apply Hx.
Qed.
(** A run in no table appears or disappears. *)
Lemma index_new tr cu nf G a g : index_ok tr cu nf G -> G !! a = None -> g_own g = OLoose -> index_ok tr cu nf (<[a := g]> G).
Proof.
  intros Hx Hg Eo. assert (Hn : forall i o, ~ owned G a i o) by (intros i o (h & Hh & _); congruence).
  apply (index_move tr cu nf); try done; try congruence.
  - intros t i b. rewrite (x_thread _ _ _ _ Hx). split; [|intros [(_ & _ & ?)|[_ ?]]; [congruence|done]]. intros Ho. right. split; [|done]. intros ->. by apply Hn in Ho.
  - intros i b. rewrite (x_current _ _ _ _ Hx). split; [|intros [(_ & _ & ?)|[_ ?]]; [congruence|done]]. intros Ho. right. split; [|done]. intros ->. by apply Hn in Ho.
  - intros i b. rewrite (x_listed _ _ _ _ Hx). split; [|intros [(_ & _ & ?)|[_ ?]]; [congruence|done]]. intros Ho. right. split; [|done]. intros ->. by apply Hn in Ho.
Qed.
Lemma index_gone tr cu nf G a g : index_ok tr cu nf G -> G !! a = Some g -> g_own g = OLoose -> index_ok tr cu nf (delete a G).
Proof.
  intros Hx Hg Eo. assert (He : forall b i o, o <> OLoose -> owned (delete a G) b i o <-> owned G b i o).
  { intros b i o Ho. rewrite owned_delete. split; [by intros [_ ?]|]. intros (h & Hh & Hi & Hoh). split; [|by exists h]. intros ->. congruence. }
  split.
  - intros t i b. rewrite He by done. apply Hx.
  - intros i b. rewrite He by done. apply Hx.
  - intros i b. rewrite He by done. apply Hx.
  - intros b i t. rewrite He by done. apply Hx.
Qed.

(** *** The moves between the tables *)
Lemma elem_of_set_insert x y l : y ∈ set_insert x l <-> y = x \/ y ∈ l.
Proof.
  induction l as [|z l IH]; cbn; [set_solver|]. destruct (Z.ltb_spec x z); [set_solver|]. destruct (Z.eqb_spec x z) as [->|]; [set_solver|].
  rewrite !elem_of_cons, IH. tauto.
Qed.
Lemma elem_of_set_erase x y l : y ∈ set_erase x l <-> y <> x /\ y ∈ l.
Proof. unfold set_erase. by rewrite list_elem_of_filter. Qed.
Lemma nfl_insert nf i l j : nfl (<[i := l]> nf) j = if j =? i then l else nfl nf j.
Proof. unfold nfl. destruct (Z.eqb_spec j i) as [->|Hne]; [by rewrite lookup_insert_eq|by rewrite lookup_insert_ne by done]. Qed.
Lemma owned_unique G a g i o : G !! a = Some g -> owned G a i o -> i = g_idx g /\ o = g_own g.
Proof. intros Hg (h & Hh & <- & <-). rewrite Hg in Hh. by injection Hh as <-. Qed.

Section Moves.
Context (tr : gmap (Z * Z) Z) (cu : gmap Z Z) (nf : gmap Z (list Z)) (G : gmap Z grun) (a : Z) (g : grun).
Context (Hx : index_ok tr cu nf G) (Hg : G !! a = Some g).

Lemma index_not_thread : (forall t, g_own g <> OThread t) -> forall t i, tr !! (t, i) <> Some a.
Proof. intros Ho t i Hc%Hx. destruct (owned_unique _ _ _ _ _ Hg Hc) as [_ E]. by apply (Ho t). Qed.
Lemma index_not_current : g_own g <> OCurrent -> forall i, cu !! i <> Some a.
Proof. intros Ho i Hc%Hx. destruct (owned_unique _ _ _ _ _ Hg Hc) as [_ E]. by apply Ho. Qed.
Lemma index_not_listed : g_own g <> OListed -> forall i, a ∉ nfl nf i.
Proof. intros Ho i Hc%Hx. destruct (owned_unique _ _ _ _ _ Hg Hc) as [_ E]. by apply Ho. Qed.
Lemma index_other_thread (g' : grun) : (forall t, g_own g <> OThread t) -> (forall t, g_own g' <> OThread t) ->
  forall t i b, tr !! (t, i) = Some b <-> (b = a /\ g_idx g' = i /\ g_own g' = OThread t) \/ (b <> a /\ tr !! (t, i) = Some b).
Proof.
  intros H1 H2 t i b. pose proof (index_not_thread H1 t i). split; [|intros [(_ & _ & ?)|[_ ?]]; [by destruct (H2 t)|done]].
  intros Hb. right. split; [congruence|done].
Qed.
Lemma index_other_current (g' : grun) : g_own g <> OCurrent -> g_own g' <> OCurrent ->
  forall i b, cu !! i = Some b <-> (b = a /\ g_idx g' = i /\ g_own g' = OCurrent) \/ (b <> a /\ cu !! i = Some b).
Proof. intros H1 H2 i b. pose proof (index_not_current H1 i). split; [|intros [(_ & _ & ?)|[_ ?]]; done]. intros Hb. right. split; [congruence|done]. Qed.
Lemma index_other_listed (g' : grun) : g_own g <> OListed -> g_own g' <> OListed ->
  forall i b, b ∈ nfl nf i <-> (b = a /\ g_idx g' = i /\ g_own g' = OListed) \/ (b <> a /\ b ∈ nfl nf i).
Proof. intros H1 H2 i b. pose proof (index_not_listed H1 i). split; [|intros [(_ & _ & ?)|[_ ?]]; done]. intros Hb. right. split; [by intros ->|done]. Qed.

Lemma index_unlist : g_own g = OListed -> index_ok tr cu (<[g_idx g := set_erase a (nfl nf (g_idx g))]> nf) (<[a := with_own OLoose g]> G).
Proof.
  intros Ho. apply (index_move tr cu nf); try done.
  - apply index_other_thread; [by rewrite Ho|done].
  - apply index_other_current; [by rewrite Ho|done].
  - intros i b. rewrite nfl_insert. destruct (Z.eqb_spec i (g_idx g)) as [->|Hne].
    + rewrite elem_of_set_erase. cbn. naive_solver.
    + cbn. split; [|naive_solver]. intros Hb. right. split; [|done]. intros ->. apply Hx in Hb. destruct (owned_unique _ _ _ _ _ Hg Hb). done.
Qed.
Lemma index_list : g_own g = OLoose -> index_ok tr cu (<[g_idx g := set_insert a (nfl nf (g_idx g))]> nf) (<[a := with_own OListed g]> G).
Proof.
  intros Ho. apply (index_move tr cu nf); try done.
  - apply index_other_thread; [by rewrite Ho|done].
  - apply index_other_current; [by rewrite Ho|done].
  - pose proof (index_not_listed ltac:(by rewrite Ho)) as Hn. intros i b. rewrite nfl_insert. destruct (Z.eqb_spec i (g_idx g)) as [->|Hne].
    + rewrite elem_of_set_insert. cbn. specialize (Hn (g_idx g)). destruct (decide (b = a)) as [->|]; naive_solver.
    + cbn. specialize (Hn i). destruct (decide (b = a)) as [->|]; naive_solver.
Qed.
(** Erasing a run that is not in the list. *)
Lemma index_erase_other : g_own g <> OListed -> index_ok tr cu (<[g_idx g := set_erase a (nfl nf (g_idx g))]> nf) G.
Proof.
  intros Ho. split; try apply Hx. intros i b. rewrite <- (x_listed _ _ _ _ Hx), nfl_insert. destruct (Z.eqb_spec i (g_idx g)) as [->|]; [|done].
  rewrite elem_of_set_erase. pose proof (index_not_listed Ho (g_idx g)). split; [by intros [_ ?]|]. intros Hb. split; [by intros ->|done].
Qed.
Lemma index_uncurrent : g_own g = OCurrent -> index_ok tr (partial_alter (fun _ => None) (g_idx g) cu) nf (<[a := with_own OLoose g]> G).
Proof.
  intros Ho. assert (Hc : cu !! g_idx g = Some a) by (apply Hx; by exists g). apply (index_move tr cu nf); try done.
  - apply index_other_thread; [by rewrite Ho|done].
  - intros i b. cbn. destruct (decide (i = g_idx g)) as [->|Hne]; [rewrite lookup_partial_alter_eq|rewrite lookup_partial_alter_ne by done].
    + split; [done|]. intros [(_ & _ & ?)|[? ?]]; [done|congruence].
    + split; [|naive_solver]. intros Hb. right. split; [|done]. intros ->. apply Hx in Hb. by destruct (owned_unique _ _ _ _ _ Hg Hb).
  - apply index_other_listed; [by rewrite Ho|done].
Qed.
Lemma index_current : g_own g = OLoose -> cu !! g_idx g = None -> index_ok tr (<[g_idx g := a]> cu) nf (<[a := with_own OCurrent g]> G).
Proof.
  intros Ho Hc. apply (index_move tr cu nf); try done.
  - apply index_other_thread; [by rewrite Ho|done].
  - pose proof (index_not_current ltac:(by rewrite Ho)) as Hn. intros i b. rewrite lookup_insert_Some. cbn. specialize (Hn i).
    destruct (decide (g_idx g = i)) as [<-|]; naive_solver.
  - apply index_other_listed; [by rewrite Ho|done].
Qed.
Lemma index_unthread t : g_own g = OThread t -> index_ok (partial_alter (fun _ => None) (t, g_idx g) tr) cu nf (<[a := with_own OLoose g]> G).
Proof.
  intros Ho. assert (Hc : tr !! (t, g_idx g) = Some a) by (apply Hx; by exists g). apply (index_move tr cu nf); try done.
  - intros t' i b. cbn. destruct (decide ((t', i) = (t, g_idx g))) as [->|Hne]; [rewrite lookup_partial_alter_eq|rewrite lookup_partial_alter_ne by done].
    + split; [done|]. intros [(_ & _ & ?)|[? ?]]; [done|congruence].
    + split; [|naive_solver]. intros Hb. right. split; [|done]. intros ->. apply Hx in Hb. destruct (owned_unique _ _ _ _ _ Hg Hb). congruence.
  - apply index_other_current; [by rewrite Ho|done].
  - apply index_other_listed; [by rewrite Ho|done].
Qed.
Lemma index_thread t : g_own g = OLoose -> g_idx g < kNumThreadLocalSizeBrackets -> tr !! (t, g_idx g) = None ->
  index_ok (<[(t, g_idx g) := a]> tr) cu nf (<[a := with_own (OThread t) g]> G).
Proof.
  intros Ho Hi Hc. apply (index_move tr cu nf); try done.
  - pose proof (index_not_thread ltac:(by rewrite Ho)) as Hn. intros t' i b. rewrite lookup_insert_Some. cbn. specialize (Hn t' i).
    destruct (decide ((t, g_idx g) = (t', i))) as [[= <- <-]|]; naive_solver.
  - apply index_other_current; [by rewrite Ho|done].
  - apply index_other_listed; [by rewrite Ho|done].
Qed.
End Moves.

(** ** The blocks in use *)
Definition live_in (s : RosAlloc) (l : segs) (G : gmap Z grun) (x n : Z) : Prop :=
  (exists a g, G !! a = Some g /\ x ∈ slot_addrs a (g_idx g) /\ x ∉ unused g /\ n = bracketSizes (g_idx g)) \/
  (exists i k, used_at l i SLarge k /\ x = addr (pages s) i /\ n = k * kPageSize).

Lemma slot_in_run s l G a g x : base s l G -> G !! a = Some g -> x ∈ slot_addrs a (g_idx g) -> a <= x /\ x + bracketSizes (g_idx g) <= a + run_size g /\ 0 < bracketSizes (g_idx g).
Proof.
  intros Hb Hg Hx. destruct (base_facts _ _ _ _ _ Hb Hg) as (_ & _ & Hi & _). pose proof (slot_range _ _ _ Hi Hx). destruct (brackets_ok _ Hi) as (? & _ & _ & _ & ? & _).
  unfold run_size. lia.
Qed.
(** Two slots that share an address are the same slot of the same run. *)
Lemma slots_meet s l G a g x b h y z : base s l G -> G !! a = Some g -> x ∈ slot_addrs a (g_idx g) -> G !! b = Some h -> y ∈ slot_addrs b (g_idx h) ->
  x <= z < x + bracketSizes (g_idx g) -> y <= z < y + bracketSizes (g_idx h) -> a = b /\ g = h /\ x = y.
Proof.
  intros Hb Hg Hx Hh Hy H1 H2. pose proof (slot_in_run _ _ _ _ _ _ Hb Hg Hx). pose proof (slot_in_run _ _ _ _ _ _ Hb Hh Hy).
  assert (a = b) as <- by (apply (runs_disjoint s l G a g b h z); try done; lia). rewrite Hg in Hh. injection Hh as <-. split; [done|]. split; [done|].
  destruct (base_facts _ _ _ _ _ Hb Hg) as (_ & _ & Hi & _). by apply (slots_disjoint x y z a (g_idx g)).
Qed.
Lemma slot_large s l G a g x i k z : base s l G -> G !! a = Some g -> x ∈ slot_addrs a (g_idx g) -> used_at l i SLarge k ->
  x <= z < x + bracketSizes (g_idx g) -> addr (pages s) i <= z < addr (pages s) i + k * kPageSize -> False.
Proof.
  intros Hb Hg Hx Hu H1 H2. pose proof (slot_in_run _ _ _ _ _ _ Hb Hg Hx).
  apply (large_run_disjoint s l G i k a g z Hb Hu Hg); [unfold addr in *; plia|lia].
Qed.
Lemma live_meets_slot s l G a g x y n z : base s l G -> G !! a = Some g -> x ∈ slot_addrs a (g_idx g) -> x <= z < x + bracketSizes (g_idx g) ->
  live_in s l G y n -> y <= z < y + n -> y = x /\ x ∉ unused g /\ n = bracketSizes (g_idx g).
Proof.
  intros Hb Hg Hx Hz [(b & h & Hh & Hy & Hyu & ->)|(i & k & Hu & -> & ->)] Hz'.
  - destruct (slots_meet _ _ _ _ _ _ _ _ _ _ Hb Hg Hx Hh Hy Hz Hz') as (-> & -> & ->). done.
  - by destruct (slot_large _ _ _ _ _ _ _ _ _ Hb Hg Hx Hu Hz Hz').
Qed.
Lemma live_outside s l G a g y n z : base s l G -> G !! a = Some g -> live_in s l G y n -> y <= z < y + n -> outside g z.
Proof.
  intros Hb Hg Hl Hz x Hx Hz'. destruct (base_facts _ _ _ _ _ Hb Hg) as (Hk & _).
  by destruct (live_meets_slot _ _ _ _ _ _ _ _ _ Hb Hg (k_slots _ _ _ Hk _ Hx) Hz' Hl Hz) as (_ & ? & _).
Qed.
Lemma live_disjoint s l G x n y m z : base s l G -> live_in s l G x n -> live_in s l G y m -> x <= z < x + n -> y <= z < y + m -> x = y /\ n = m.
Proof.
  intros Hb [(a & g & Hg & Hx & Hxu & ->)|(i & k & Hu & -> & ->)] Hl H1 H2.
  - by destruct (live_meets_slot _ _ _ _ _ _ _ _ _ Hb Hg Hx H1 Hl H2) as (-> & _ & ->).
  - destruct Hl as [(a & g & Hg & Hy & Hyu & ->)|(j & k' & Hu' & -> & ->)]; [by destruct (slot_large _ _ _ _ _ _ _ _ _ Hb Hg Hy Hu H2 H1)|].
    unfold addr in *. destruct (seg_disjoint _ _ _ _ _ _ _ _ (b_pages _ _ _ Hb) Hu Hu') as [[= -> ->]|[?|?]]; [done|plia|plia].
Qed.
Lemma live_pos s l G x n : base s l G -> live_in s l G x n -> 0 < x /\ 0 < n.
Proof.
  intros Hb [(a & g & Hg & Hx & _ & ->)|(i & k & Hu & -> & ->)].
  - destruct (base_facts _ _ _ _ _ Hb Hg) as (_ & Ha & _). pose proof (slot_in_run _ _ _ _ _ _ Hb Hg Hx). lia.
  - pose proof (seg_bounds _ _ _ _ _ (b_pages _ _ _ Hb) Hu). pose proof (p_base _ _ (b_pages _ _ _ Hb)). unfold addr. plia.
Qed.

(** ** Changes that do not show *)
Definition const (s s' : RosAlloc) : Prop :=
  base_ (pages s') = base_ (pages s) /\ max_capacity_ (pages s') = max_capacity_ (pages s) /\ page_release_mode_ (pages s') = page_release_mode_ (pages s).
Lemma const_trans s1 s2 s3 : const s1 s2 -> const s2 s3 -> const s1 s3.
Proof. unfold const. intuition congruence. Qed.
Lemma frame_const s s' : frame (pages s) (pages s') -> const s s'.
Proof. by intros (? & ? & ? & ? & ?). Qed.
Record trans (s : RosAlloc) (l : segs) (G : gmap Z grun) (s' : RosAlloc) (l' : segs) (G' : gmap Z grun) : Prop := {
  t_live : forall x n, live_in s' l' G' x n <-> live_in s l G x n;
  t_words : forall x n y, live_in s l G x n -> x <= y < x + n -> ld (words (pages s')) y = ld (words (pages s)) y;
  t_const : const s s'
}.
Lemma trans_refl s l G : trans s l G s l G.
Proof. by split. Qed.
Lemma trans_trans s l G s1 l1 G1 s2 l2 G2 : trans s l G s1 l1 G1 -> trans s1 l1 G1 s2 l2 G2 -> trans s l G s2 l2 G2.
Proof.
  intros H1 H2. split.
  - intros x n. by rewrite (t_live _ _ _ _ _ _ H2), (t_live _ _ _ _ _ _ H1).
  - intros x n y Hl Hy. rewrite (t_words _ _ _ _ _ _ H2 x n y); [by apply (t_words _ _ _ _ _ _ H1 x n)| |done]. by apply (t_live _ _ _ _ _ _ H1).
  - eapply const_trans; [apply H1|apply H2].
Qed.
(** A run with the same unused slots. *)
Lemma trans_run s s' l G a g g' : base s l G -> G !! a = Some g -> g_idx g' = g_idx g -> (forall x, x ∈ unused g' <-> x ∈ unused g) -> const s s' ->
  (forall y, outside g y -> ld (words (pages s')) y = ld (words (pages s)) y) -> trans s l G s' l (<[a := g']> G).
Proof.
  intros Hb Hg Ei Hu Hc Hw. split; [|intros x n y Hl Hy; by apply Hw, (live_outside s l G a g x n)|done].
  intros x n. unfold live_in, addr. rewrite (proj1 Hc). f_equiv. split.
  - intros (b & h & Hh & Hx & Hxu & ->). apply lookup_insert_Some in Hh as [[<- <-]|[Hne Hh]]; [|by exists b, h].
    exists a, g. rewrite Hu in Hxu. rewrite Ei in *. done.
  - intros (b & h & Hh & Hx & Hxu & ->). destruct (decide (a = b)) as [<-|Hne].
    + rewrite Hg in Hh. injection Hh as <-. exists a, g'. rewrite lookup_insert_eq, Hu, Ei. done.
    + exists b, h. by rewrite lookup_insert_ne.
Qed.
Lemma trans_new s s' l l' G a idx : base s' l' (<[a := new_run_of a idx]> G) -> G !! a = None -> const s s' -> same_large l l' ->
  (forall y, outside (new_run_of a idx) y -> ld (words (pages s')) y = ld (words (pages s)) y) -> trans s l G s' l' (<[a := new_run_of a idx]> G).
Proof.
  intros Hb' Hg Hc Hl Hw. assert (Hlive : forall x n, live_in s' l' (<[a := new_run_of a idx]> G) x n <-> live_in s l G x n).
  { intros x n. unfold live_in, addr. rewrite (proj1 Hc). unfold same_large in Hl. setoid_rewrite Hl. f_equiv. split.
    - intros (b & h & Hh & Hx & Hxu & ->). apply lookup_insert_Some in Hh as [[<- <-]|[Hne Hh]]; [|by exists b, h].
      destruct Hxu. unfold unused. cbn in *. by rewrite app_nil_r.
    - intros (b & h & Hh & Hx & Hxu & ->). exists b, h. rewrite lookup_insert_ne by congruence. done. }
  split; [done| |done]. intros x n y Hx Hy. apply Hw. apply (live_outside s' l' _ a _ x n y Hb'); [apply lookup_insert_eq|by apply Hlive|done].
Qed.
Lemma trans_gone s s' l l' G a g : base s l G -> G !! a = Some g -> all_free g -> const s s' -> same_large l l' ->
  (forall y, ~ a <= y < a + run_size g -> ld (words (pages s')) y = ld (words (pages s)) y) -> trans s l G s' l' (delete a G).
Proof.
  intros Hb Hg Haf Hc Hl Hw. destruct (base_facts _ _ _ _ _ Hb Hg) as (Hk & _ & Hi & _). pose proof (all_free_slots _ _ _ Hk Haf) as Hp.
  assert (Hall : forall x, x ∈ slot_addrs a (g_idx g) -> x ∈ unused g) by (intros x Hx; unfold unused; apply elem_of_app; left; by rewrite Hp).
  split; [|intros x n y Hx Hy; apply Hw; intros Hr|done].
  - intros x n. unfold live_in, addr. rewrite (proj1 Hc). unfold same_large in Hl. setoid_rewrite Hl. f_equiv. split.
    + intros (b & h & Hh & Hx & Hxu & ->). apply lookup_delete_Some in Hh as [Hne Hh]. by exists b, h.
    + intros (b & h & Hh & Hx & Hxu & ->). exists b, h. rewrite lookup_delete_ne; [done|]. intros <-. rewrite Hg in Hh. injection Hh as <-. by apply Hxu, Hall.
  - destruct Hx as [(b & h & Hh & Hx & Hxu & ->)|(i & k & Hu & -> & ->)].
    + pose proof (slot_in_run _ _ _ _ _ _ Hb Hh Hx). assert (a = b) as <- by (apply (runs_disjoint s l G a g b h y); try done; lia).
      rewrite Hg in Hh. injection Hh as <-. by apply Hxu, Hall.
    + apply (large_run_disjoint s l G i k a g y Hb Hu Hg); [unfold addr in *; plia|done].
Qed.
