(* ===== verification/RosAllocAlloc.v ===== *)
(** Allocation from the runs of RosAlloc.

    [heap] is what holds between operations.  [RefillRun] finds a run that has a
    free slot or makes one; allocation takes the first free slot of the current
    run or of the thread's run, after a refill where the run is full.  The block
    is new, zeroed and does not overlap those in use, which keep their
    contents; the bytes that [Alloc] reports are those by which the blocks and
    the free slots of the threads' runs grow. *)
From stdpp Require Import prelude gmap list.
From Stdlib Require Import ZArith Lia.
From S2P Require Import Prelude BitUtils RosAlloc RosAllocPages RosAllocFreePages RosAllocSegments RosAllocSlots RosAllocRuns RosAllocIndex.
Import RosAlloc.
Open Scope Z_scope.

(** ** Between operations *)
Definition settled (g : grun) : Prop :=
  g_marked g = false /\ g_bulk g = [] /\
  match g_own g with OListed => g_free g <> [] /\ ~ all_free g | OLoose => g_free g = [] | _ => True end.
Definition all_settled (G : gmap Z grun) : Prop := forall a g, G !! a = Some g -> settled g.
Record heap (s : RosAlloc) (l : segs) (G : gmap Z grun) : Prop := {
  h_base : base s l G;
  h_index : index_ok (thread_runs s) (current_runs_ s) (non_full_runs_ s) G;
  h_settled : all_settled G
}.
(** The free slots of the runs of threads count as allocated. *)
Definition tl_bytes (g : grun) : Z := if is_thread (g_own g) then Z.of_nat (length (g_free g)) * bracketSizes (g_idx g) else 0.
Definition tl_sum (G : gmap Z grun) : Z := msum tl_bytes G.

Lemma tl_sum_update G a g g' : G !! a = Some g -> tl_sum (<[a := g']> G) = tl_sum G - tl_bytes g + tl_bytes g'.
Proof. apply msum_update. Qed.
Lemma all_settled_insert G a g : all_settled G -> settled g -> all_settled (<[a := g]> G).
Proof. intros HG Hg b h. rewrite lookup_insert_Some. intros [[<- <-]|[_ Hh]]; [done|by apply (HG b)]. Qed.
Lemma all_settled_delete G a : all_settled G -> all_settled (delete a G).
Proof. intros HG b h. rewrite lookup_delete_Some. intros [_ Hh]. by apply (HG b). Qed.
Lemma base_index s s' l G : base s l G -> pages s' = pages s -> runs s' = runs s -> base s' l G.
Proof. intros Hb Ep Er. split; rewrite ?Ep, ?Er; apply Hb. Qed.
Lemma base_own s l G a g o : base s l G -> G !! a = Some g -> is_thread o = is_thread (g_own g) -> base s l (<[a := with_own o g]> G).
Proof.
  intros Hb Hg Ho. destruct (base_facts _ _ _ _ _ Hb Hg) as (Hk & _ & _ & Hr & _).
  assert (Hb' : base (with_runs (<[a := hdr (with_own o g)]> (runs s)) s) l (<[a := with_own o g]> G)).
  { apply (put_header _ _ _ _ g); try done. cbn. rewrite Ho. apply Hk. }
  assert (Eh : hdr (with_own o g) = hdr g) by (unfold hdr; cbn; by rewrite Ho). rewrite Eh, insert_id in Hb' by done. apply (base_index _ s _ _ Hb'); by destruct s.
Qed.
Lemma trans_own s s' l G a g o : base s l G -> G !! a = Some g -> pages s' = pages s -> trans s l G s' l (<[a := with_own o g]> G).
Proof. intros Hb Hg Ep. apply (trans_run _ _ _ _ _ g); try done; [unfold const; by rewrite Ep|by rewrite Ep]. Qed.
Lemma trans_index s s' l G : pages s' = pages s -> trans s l G s' l G.
Proof. intros Ep. split; [|by rewrite Ep|unfold const; by rewrite Ep]. intros x n. unfold live_in. by rewrite Ep. Qed.

(** ** [RefillRun] *)
(** A run from which a slot can be taken. *)
Record refilled (G : gmap Z grun) (a idx : Z) (g : grun) : Prop := {
  f_idx : g_idx g = idx; f_own : g_own g = OLoose; f_free : g_free g <> []; f_tl : g_tl g = []; f_bulk : g_bulk g = []; f_marked : g_marked g = false;
  f_old : forall g0, G !! a = Some g0 -> g_own g0 = OListed
}.
Lemma tl_sum_loose G a g : (forall g0, G !! a = Some g0 -> is_thread (g_own g0) = false) -> is_thread (g_own g) = false -> tl_sum (<[a := g]> G) = tl_sum G.
Proof.
  intros Ho Hg. unfold tl_sum. assert (Hz : tl_bytes g = 0) by (unfold tl_bytes; by rewrite Hg). destruct (G !! a) as [g0|] eqn:E.
  - rewrite (msum_update _ _ _ g0) by done. assert (tl_bytes g0 = 0) by (unfold tl_bytes; by rewrite Ho). lia.
  - rewrite msum_insert by done. lia.
Qed.
(** No run of the size has a free slot, and there is no room for a new one. *)
Definition no_run (s : RosAlloc) (idx : Z) : Prop := non_full s idx = [] /\ no_room (pages s) (numOfPages idx).
Lemma RefillRun_spec s l G tr cu idx : base s l G -> index_ok tr cu (non_full_runs_ s) G -> all_settled G -> 0 <= idx < kNumOfSizeBrackets ->
  exists r s', RefillRun idx s = Done (r, s') /\ thread_runs s' = thread_runs s /\ current_runs_ s' = current_runs_ s /\
    match r with
    | None => s' = s /\ no_run s idx
    | Some a => exists l' g, refilled G a idx g /\ base s' l' (<[a := g]> G) /\ index_ok tr cu (non_full_runs_ s') (<[a := g]> G) /\ trans s l G s' l' (<[a := g]> G)
    end.
Proof.
  intros Hb Hx Hst Hi. unfold RefillRun. rewrite bind_gets. destruct (non_full s idx) as [|a nf] eqn:Enf.
  - destruct (AllocRun_spec s l G idx Hb Hi) as (r & s' & E & (En & Ec & Et) & Hf & Hr). exists r, s'. split; [done|]. split; [done|]. split; [done|].
    destruct r as [a|]; [|by destruct Hr]. destruct Hr as (l' & Hg & Hb' & Hl & Hw). exists l', (new_run_of a idx). destruct (brackets_ok _ Hi) as (_ & _ & Hn & _).
    split; [|split; [done|split; [rewrite En; by apply index_new|apply trans_new; try done; by apply frame_const]]].
    split; try done; [|intros g0 Hg0; congruence]. cbn. intros Hnil. pose proof (length_slots a idx Hi) as Hlen. rewrite Hnil in Hlen. cbn in Hlen. lia.
  - assert (Ho : owned G a idx OListed) by (apply Hx; unfold nfl; unfold non_full in Enf; rewrite Enf; by left). destruct Ho as (g & Hg & Ei & Eo).
    rewrite (bind_done _ _ _ _ _ (get_run_done _ _ _ _ _ Hb Hg)). cbn [is_thread_local_ hdr]. rewrite bind_check by (by rewrite Eo).
    unfold erase_non_full. rewrite bind_modify. eexists _, _. split; [reflexivity|]. split; [done|]. split; [done|].
    destruct (Hst a g Hg) as (Hm & Hbk & Hs). rewrite Eo in Hs. destruct (base_facts _ _ _ _ _ Hb Hg) as (Hk & _).
    exists l, (with_own OLoose g). split; [|split; [|split]].
    + split; try done; [by apply Hs|cbn; apply Hk; by rewrite Eo|]. intros g0 Hg0. rewrite Hg in Hg0. by injection Hg0 as <-.
    + apply (base_index s); [|done|done]. apply base_own; try done. by rewrite Eo.
    + cbn. change (non_full s idx) with (nfl (non_full_runs_ s) idx). rewrite <- Ei. by apply index_unlist.
    + by apply (trans_own s).
Qed.
Lemma alloc_refilled_done s l G tr cu a idx g (o : owner) : base s l G -> index_ok tr cu (non_full_runs_ s) G -> G !! a = Some g ->
  g_idx g = idx -> g_own g = OLoose -> g_free g <> [] ->
  alloc_refilled idx a (is_thread o) s =
    Done (Z.of_nat (length (g_free g)), with_runs (<[a := hdr (with_own o g)]> (runs s)) s).
Proof.
  intros Hb Hx Hg Ei Eo Hf. unfold alloc_refilled. rewrite (bind_done _ _ _ _ _ (get_run_done _ _ _ _ _ Hb Hg)), bind_gets.
  rewrite bind_check.
  2: { unfold is_non_full. rewrite bool_decide_eq_false_2; [done|]. apply (index_not_listed _ _ _ _ _ _ Hx Hg). by rewrite Eo. }
  unfold set_run. rewrite bind_modify, bind_check.
  2: { unfold IsFull. cbn. destruct (g_free g); [done|]. cbn. done. }
  done.
Qed.

(** ** Taking a slot *)
Record allocs (s : RosAlloc) (l : segs) (G : gmap Z grun) (s' : RosAlloc) (l' : segs) (G' : gmap Z grun) (x n : Z) : Prop := {
  a_live : forall y m, live_in s' l' G' y m <-> live_in s l G y m \/ (y, m) = (x, n);
  a_new : forall m, ~ live_in s l G x m;
  a_zero : forall y, x <= y < x + n -> ld (words (pages s')) y = 0;
  a_words : forall z m y, live_in s l G z m -> z <= y < z + m -> ld (words (pages s')) y = ld (words (pages s)) y;
  a_const : const s s'
}.
Lemma trans_allocs s l G s1 l1 G1 s2 l2 G2 x n : trans s l G s1 l1 G1 -> allocs s1 l1 G1 s2 l2 G2 x n -> allocs s l G s2 l2 G2 x n.
Proof.
  intros Ht Ha. split.
  - intros y m. by rewrite (a_live _ _ _ _ _ _ _ _ Ha), (t_live _ _ _ _ _ _ Ht).
  - intros m. rewrite <- (t_live _ _ _ _ _ _ Ht). apply Ha.
  - apply Ha.
  - intros z m y Hz Hy. rewrite (a_words _ _ _ _ _ _ _ _ Ha z m y); [by apply (t_words _ _ _ _ _ _ Ht z m)| |done]. by apply (t_live _ _ _ _ _ _ Ht).
  - eapply const_trans; [apply Ht|apply Ha].
Qed.
Lemma AllocSlot_pop s l G a g x f : base s l G -> G !! a = Some g -> g_free g = x :: f ->
  exists s', AllocSlot (Some a) s = Done (x, s') /\ x <> 0 /\ same_index s s' /\ base s' l (<[a := with_free f g]> G) /\
    allocs s l G s' l (<[a := with_free f g]> G) x (bracketSizes (g_idx g)).
Proof.
  intros Hb Hg Hf. destruct (AllocSlot_cons s l G a g x f Hb Hg Hf) as (m' & E & Hb' & Hm & Hz). destruct (base_facts _ _ _ _ _ Hb Hg) as (Hk & Ha & Hi & _).
  assert (Hxu : x ∈ unused g) by (unfold unused; rewrite Hf; by left). pose proof (k_slots _ _ _ Hk x Hxu) as Hx.
  assert (Hnd : NoDup (x :: unused (with_free f g))) by (pose proof (k_nodup _ _ _ Hk) as Hnd; unfold unused in *; rewrite Hf in Hnd; exact Hnd). apply NoDup_cons in Hnd as [Hxn _].
  assert (Hu : forall y, y ∈ unused g <-> y = x \/ y ∈ unused (with_free f g)) by (intros y; unfold unused; rewrite Hf; cbn; set_solver).
  eexists. split; [exact E|]. split; [by apply (slots_nonzero _ _ _ _ Hk)|]. split; [done|]. split; [done|]. split; [| | | |done].
  - intros y m. unfold live_in. change (pages (put a m' (with_free f g) s)) with (with_words m' (pages s)). change (addr (with_words m' (pages s))) with (addr (pages s)). split.
    + intros [(b & h & Hh & Hy & Hyu & ->)|?]; [|by left; right]. apply lookup_insert_Some in Hh as [[<- <-]|[Hne Hh]]; [|left; left; by exists b, h].
      cbn in Hy. destruct (decide (y = x)) as [->|Hyx]; [by right|]. left. left. exists a, g. rewrite Hu. repeat (split; [done|]). split; [by intros [?|?]|done].
    + intros [[(b & h & Hh & Hy & Hyu & ->)|?]|[= -> ->]]; [|by right|].
      * left. destruct (decide (a = b)) as [<-|Hne]; [|exists b, h; by rewrite lookup_insert_ne]. rewrite Hg in Hh. injection Hh as <-.
        exists a, (with_free f g). rewrite lookup_insert_eq. repeat (split; [done|]). split; [|done]. rewrite Hu in Hyu. tauto.
      * left. exists a, (with_free f g). by rewrite lookup_insert_eq.
  - intros m Hl. pose proof (slot_in_run _ _ _ _ _ _ Hb Hg Hx). pose proof (live_pos _ _ _ _ _ Hb Hl). by destruct (live_meets_slot s l G a g x x m x Hb Hg Hx ltac:(lia) Hl ltac:(lia)) as (_ & ? & _).
  - intros y Hy. cbn. destruct (decide (y = x)) as [->|Hne]; [done|]. rewrite Hm by done. apply (k_zero _ _ _ Hk x); [done|lia].
  - intros z m y Hl Hy. cbn. apply Hm. intros ->. pose proof (slot_in_run _ _ _ _ _ _ Hb Hg Hx).
    by destruct (live_meets_slot s l G a g x z m x Hb Hg Hx ltac:(lia) Hl Hy) as (_ & ? & _).
Qed.
Lemma AllocSlot_none s : AllocSlot None s = Done (0, s).
Proof. by destruct s as [[] ? ? ? ?]. Qed.

(** ** The current runs *)
Lemma drop_current s l G tr cu nf idx : base s l G -> index_ok tr cu nf G -> all_settled G ->
  (forall a g, cu !! idx = Some a -> G !! a = Some g -> g_free g = []) ->
  exists G', base s l G' /\ index_ok tr (partial_alter (fun _ => None) idx cu) nf G' /\ all_settled G' /\ trans s l G s l G' /\ tl_sum G' = tl_sum G.
Proof.
  intros Hb Hx Hst Hf. destruct (cu !! idx) as [a|] eqn:Ec.
  - pose proof Ec as (g & Hg & Ei & Eo)%(x_current _ _ _ _ Hx). exists (<[a := with_own OLoose g]> G). destruct (Hst a g Hg) as (Hm & Hbk & _).
    split; [apply base_own; try done; by rewrite Eo|]. split; [rewrite <- Ei; by apply index_uncurrent|]. split; [|split].
    + apply all_settled_insert; [done|]. split; [done|]. split; [done|]. cbn. by apply (Hf a).
    + by apply trans_own.
    + apply tl_sum_loose; [|done]. intros g0 Hg0. rewrite Hg in Hg0. injection Hg0 as <-. by rewrite Eo.
  - exists G. split; [done|]. split; [|split; [done|split; [apply trans_refl|done]]].
    replace (partial_alter (fun _ => None) idx cu) with cu; [done|]. apply map_eq. intros i. destruct (decide (i = idx)) as [->|]; [by rewrite lookup_partial_alter_eq|by rewrite lookup_partial_alter_ne].
Qed.
Lemma partial_alter_twice {K A} `{Countable K} (m : gmap K A) k x : <[k := x]> (partial_alter (fun _ => None) k m) = partial_alter (fun _ => Some x) k m.
Proof. apply map_eq. intros i. destruct (decide (i = k)) as [->|]; [by rewrite lookup_insert_eq, lookup_partial_alter_eq|by rewrite lookup_insert_ne, !lookup_partial_alter_ne]. Qed.
(** A slot of a run that a thread owns or that is current. *)
Lemma take_slot s l G a g x f : heap s l G -> G !! a = Some g -> g_own g = OCurrent \/ is_thread (g_own g) = true -> g_free g = x :: f ->
  exists s' G', AllocSlot (Some a) s = Done (x, s') /\ x <> 0 /\ heap s' l G' /\ allocs s l G s' l G' x (bracketSizes (g_idx g)) /\
    tl_sum G' = tl_sum G - (if is_thread (g_own g) then bracketSizes (g_idx g) else 0).
Proof.
  intros [Hb Hx Hst] Hg Ho Hf. destruct (AllocSlot_pop s l G a g x f Hb Hg Hf) as (s' & E & Hx0 & (En & Ec & Et) & Hb' & Ha).
  exists s', (<[a := with_free f g]> G). split; [done|]. split; [done|]. split; [|split; [done|]].
  - split; [done| |].
    + rewrite En, Ec, Et. by apply (index_same _ _ _ _ _ g).
    + apply all_settled_insert; [done|]. destruct (Hst a g Hg) as (Hm & Hbk & _). split; [done|]. split; [done|]. cbn. by destruct (g_own g), Ho.
  - rewrite (tl_sum_update _ _ g) by done. unfold tl_bytes. cbn. rewrite Hf. cbn [length]. destruct (is_thread (g_own g)); lia.
Qed.

(** What [AllocSlot] on the current run does. *)
Lemma AllocSlot_current s l G idx : heap s l G ->
  (exists x s' G', AllocSlot (current_runs_ s !! idx) s = Done (x, s') /\ x <> 0 /\ heap s' l G' /\ allocs s l G s' l G' x (bracketSizes idx) /\ tl_sum G' = tl_sum G) \/
  (AllocSlot (current_runs_ s !! idx) s = Done (0, s) /\ (exists r, get_run (current_runs_ s !! idx) s = Done (r, s) /\ IsFull r = true) /\
   forall a g, current_runs_ s !! idx = Some a -> G !! a = Some g -> g_free g = []).
Proof.
  intros Hh. destruct (current_runs_ s !! idx) as [a|] eqn:Ec.
  - pose proof Ec as (g & Hg & Ei & Eo)%(x_current _ _ _ _ (h_index _ _ _ Hh)). pose proof (h_base _ _ _ Hh) as Hb. destruct (g_free g) as [|x f] eqn:Ef.
    + right. split; [by apply (AllocSlot_nil s l G a g)|]. split; [exists (hdr g); split; [by apply (get_run_done _ l G)|unfold IsFull; cbn; by rewrite Ef]|].
      intros b h [= <-] Hh'. rewrite Hg in Hh'. by injection Hh' as <-.
    + left. destruct (take_slot s l G a g x f Hh Hg ltac:(by left) Ef) as (s' & G' & E & Hx & Hh' & Ha & Ht). exists x, s', G'. rewrite <- Ei. rewrite Eo in Ht. cbn in Ht. rewrite Z.sub_0_r in Ht. done.
  - right. split; [apply AllocSlot_none|]. split; [by exists dedicated_full_run|]. done.
Qed.

(** A run, if there is one, has no free slot, and no other can be had. *)
Definition exhausted (s : RosAlloc) (run : option Z) (idx : Z) : Prop :=
  (forall a, run = Some a -> exists r, runs s !! a = Some r /\ size_ (free_list_ r) = 0 /\ size_ (thread_local_free_list_ r) = 0) /\ no_run s idx.
Lemma full_run s l G a g : base s l G -> G !! a = Some g -> g_free g = [] -> g_tl g = [] ->
  exists r, runs s !! a = Some r /\ size_ (free_list_ r) = 0 /\ size_ (thread_local_free_list_ r) = 0.
Proof. intros Hb Hg Hf Ht. destruct (base_facts _ _ _ _ _ Hb Hg) as (_ & _ & _ & Hr & _). exists (hdr g). cbn. by rewrite Hf, Ht. Qed.
Lemma AllocFromCurrentRunUnlocked_spec s l G idx : heap s l G -> 0 <= idx < kNumOfSizeBrackets ->
  exists x s' l' G', AllocFromCurrentRunUnlocked idx s = Done (x, s') /\ heap s' l' G' /\ tl_sum G' = tl_sum G /\
    (x = 0 /\ trans s l G s' l' G' /\ exhausted s (current_runs_ s !! idx) idx \/ x <> 0 /\ allocs s l G s' l' G' x (bracketSizes idx)).
Proof.
  intros Hh Hi. unfold AllocFromCurrentRunUnlocked. rewrite bind_gets.
  destruct (AllocSlot_current s l G idx Hh) as [(x & s' & G' & E & Hx & Hh' & Ha & Ht)|(E & (r & Er & Hr) & Hf)]; rewrite (bind_done _ _ _ _ _ E).
  - rewrite (proj2 (Z.eqb_neq x 0) Hx). exists x, s', l, G'. split; [done|]. split; [done|]. split; [done|]. by right.
  - rewrite Z.eqb_refl, (bind_done _ _ _ _ _ Er), bind_check by done. destruct Hh as [Hb Hx Hst].
    destruct (drop_current s l G _ _ _ idx Hb Hx Hst Hf) as (G0 & Hb0 & Hx0 & Hst0 & Ht0 & Hs0).
    destruct (RefillRun_spec s l G0 _ _ idx Hb0 Hx0 Hst0 Hi) as (ro & s1 & E1 & Et1 & Ec1 & Hro). rewrite (bind_done _ _ _ _ _ E1).
    destruct ro as [b|].
    + destruct Hro as (l1 & g & Hrf & Hb1 & Hx1 & Ht1). set (G1 := <[b := g]> G0) in *. assert (Hg1 : G1 !! b = Some g) by apply lookup_insert_eq.
      rewrite (bind_done _ _ _ _ _ (alloc_refilled_done s1 l1 G1 _ _ b idx g OCurrent Hb1 Hx1 Hg1 (f_idx _ _ _ _ Hrf) (f_own _ _ _ _ Hrf) (f_free _ _ _ _ Hrf))).
      unfold set_current. rewrite bind_modify. set (s2 := with_current _ _). set (G2 := <[b := with_own OCurrent g]> G1).
      assert (Hh2 : heap s2 l1 G2).
      { split.
        - apply (base_index (with_runs (<[b := hdr (with_own OCurrent g)]> (runs s1)) s1)); [|done|done]. apply (put_header _ _ _ _ g); try done. intros _. apply Hrf.
        - cbn. rewrite Et1, Ec1, <- partial_alter_twice, <- (f_idx _ _ _ _ Hrf). apply index_current; [by rewrite (f_idx _ _ _ _ Hrf)|done|apply Hrf|].
          rewrite (f_idx _ _ _ _ Hrf). apply lookup_partial_alter_eq.
        - unfold G2, G1. rewrite insert_insert_eq. apply all_settled_insert; [done|]. split; [apply Hrf|]. split; [apply Hrf|done]. }
      destruct (g_free g) as [|x f] eqn:Ef; [by destruct (f_free _ _ _ _ Hrf)|].
      destruct (take_slot s2 l1 G2 b (with_own OCurrent g) x f Hh2 (lookup_insert_eq _ _ _) ltac:(by left) Ef) as (s3 & G3 & E3 & Hx3 & Hh3 & Ha3 & Hs3).
      rewrite (bind_done _ _ _ _ _ E3), bind_check by (by rewrite (proj2 (Z.eqb_neq x 0) Hx3)). exists x, s3, l1, G3. split; [done|]. split; [done|]. split.
      * rewrite Hs3. cbn. rewrite Z.sub_0_r, <- Hs0. unfold G2, G1. rewrite insert_insert_eq. apply tl_sum_loose; [|done]. intros g0 Hg0. by rewrite (f_old _ _ _ _ Hrf g0 Hg0).
      * right. split; [done|]. cbn in Ha3. rewrite (f_idx _ _ _ _ Hrf) in Ha3.
        apply (trans_allocs _ _ _ s l G0); [done|]. apply (trans_allocs _ _ _ s1 l1 G1); [done|]. apply (trans_allocs _ _ _ s2 l1 G2); [|done]. by apply trans_own.
    + destruct Hro as [-> Hno]. unfold set_current. rewrite bind_modify. eexists 0, _, l, G0. split; [reflexivity|]. split; [|split; [done|left]].
      * split; [by apply (base_index s)|done|done].
      * split; [done|]. split; [eapply trans_trans; [exact Ht0|]; by apply trans_index|]. split; [|done]. intros a Ea. pose proof Ea as (g & Hg & _ & Eo)%Hx.
        apply (full_run s l G a g); [done|done|by apply (Hf a)|]. apply (b_slots _ _ _ Hb a g Hg). by rewrite Eo.
Qed.

(** ** The runs of the threads *)
Lemma thread_owned s l G t i a : heap s l G -> thread_runs s !! (t, i) = Some a -> exists g, G !! a = Some g /\ g_idx g = i /\ g_own g = OThread t.
Proof. intros Hh Ht. by apply (x_thread _ _ _ _ (h_index _ _ _ Hh)) in Ht. Qed.
Lemma thread_run_local s l G t i : heap s l G -> exists r, get_run (thread_runs s !! (t, i)) s = Done (r, s) /\ is_thread_local_ r = true.
Proof.
  intros Hh. destruct (thread_runs s !! (t, i)) as [a|] eqn:E; [|by exists dedicated_full_run]. destruct (thread_owned _ _ _ _ _ _ Hh E) as (g & Hg & _ & Eo).
  exists (hdr g). split; [by apply (get_run_done _ l G); [apply Hh|]|]. cbn. by rewrite Eo.
Qed.
Lemma AllocSlot_thread s l G t i : heap s l G ->
  (exists x s' G', AllocSlot (thread_runs s !! (t, i)) s = Done (x, s') /\ x <> 0 /\ heap s' l G' /\ allocs s l G s' l G' x (bracketSizes i) /\ tl_sum G' = tl_sum G - bracketSizes i) \/
  (AllocSlot (thread_runs s !! (t, i)) s = Done (0, s) /\ (exists r, get_run (thread_runs s !! (t, i)) s = Done (r, s) /\ IsFull r = true) /\
   forall a g, thread_runs s !! (t, i) = Some a -> G !! a = Some g -> g_free g = []).
Proof.
  intros Hh. pose proof (h_base _ _ _ Hh) as Hb. destruct (thread_runs s !! (t, i)) as [a|] eqn:E.
  - destruct (thread_owned _ _ _ _ _ _ Hh E) as (g & Hg & Ei & Eo). destruct (g_free g) as [|x f] eqn:Ef.
    + right. split; [by apply (AllocSlot_nil s l G a g)|]. split; [exists (hdr g); split; [by apply (get_run_done _ l G)|unfold IsFull; cbn; by rewrite Ef]|].
      intros b h [= <-] Hh'. rewrite Hg in Hh'. by injection Hh' as <-.
    + left. destruct (take_slot s l G a g x f Hh Hg ltac:(right; by rewrite Eo) Ef) as (s' & G' & Es & Hx & Hh' & Ha & Ht). exists x, s', G'. rewrite <- Ei. by rewrite Eo in Ht.
  - right. split; [apply AllocSlot_none|]. split; [by exists dedicated_full_run|]. done.
Qed.

(** The thread's full run belongs to no one. *)
Lemma drop_thread s l G t idx : heap s l G ->
  (forall a g, thread_runs s !! (t, idx) = Some a -> G !! a = Some g -> g_free g = [] /\ g_tl g = []) ->
  exists s1 G', drop_thread_run idx (thread_runs s !! (t, idx)) s = Done (tt, s1) /\ same_index s s1 /\ pages s1 = pages s /\ base s1 l G' /\
    index_ok (partial_alter (fun _ => None) (t, idx) (thread_runs s)) (current_runs_ s) (non_full_runs_ s) G' /\ all_settled G' /\ trans s l G s1 l G' /\ tl_sum G' = tl_sum G.
Proof.
  intros Hh Hf. pose proof Hh as [Hb Hx Hst]. destruct (thread_runs s !! (t, idx)) as [a|] eqn:Ec; cbn [drop_thread_run].
  - destruct (thread_owned _ _ _ _ _ _ Hh Ec) as (g & Hg & Ei & Eo). destruct (Hf a g eq_refl Hg) as [Hfr Htl]. destruct (Hst a g Hg) as (Hm & Hbk & _).
    rewrite (bind_done _ _ _ _ _ (get_run_done _ _ _ _ _ Hb Hg)). rewrite bind_check by (unfold IsFull; cbn; by rewrite Hfr).
    rewrite bind_gets, bind_check.
    2: { unfold is_non_full. rewrite bool_decide_eq_false_2; [done|]. apply (index_not_listed _ _ _ _ _ _ Hx Hg). by rewrite Eo. }
    exists (with_runs (<[a := hdr (with_own OLoose g)]> (runs s)) s), (<[a := with_own OLoose g]> G). split; [done|]. split; [done|]. split; [done|].
    split; [apply (put_header _ _ _ _ g); try done|]. split; [rewrite <- Ei; by apply index_unthread|]. split; [|split].
    + apply all_settled_insert; [done|]. done.
    + by apply trans_own.
    + rewrite (tl_sum_update _ _ g) by done. unfold tl_bytes. cbn. rewrite Eo, Hfr. cbn. lia.
  - exists s, G. split; [done|]. split; [done|]. split; [done|]. split; [done|]. split; [|split; [done|split; [apply trans_refl|done]]].
    replace (partial_alter (fun _ => None) (t, idx) (thread_runs s)) with (thread_runs s); [done|].
    apply map_eq. intros i. destruct (decide (i = (t, idx))) as [->|]; [by rewrite lookup_partial_alter_eq|by rewrite lookup_partial_alter_ne].
Qed.
Lemma merge_none s : MergeThreadLocalFreeListToFreeList None s = Done (false, s).
Proof. by destruct s as [[] ? ? ? ?]. Qed.

Lemma refill_thread_run_spec s l G t idx : heap s l G -> 0 <= idx < kNumThreadLocalSizeBrackets ->
  (exists r, get_run (thread_runs s !! (t, idx)) s = Done (r, s) /\ IsFull r = true) ->
  (forall a g, thread_runs s !! (t, idx) = Some a -> G !! a = Some g -> g_free g = []) ->
  exists r s' l' G', refill_thread_run t idx (thread_runs s !! (t, idx)) s = Done (r, s') /\ heap s' l' G' /\ trans s l G s' l' G' /\
    match r with
    | None => tl_sum G' = tl_sum G /\ exhausted s (thread_runs s !! (t, idx)) idx
    | Some (a, n) => exists g, G' !! a = Some g /\ g_own g = OThread t /\ g_idx g = idx /\ g_free g <> [] /\ tl_sum G' = tl_sum G + n * bracketSizes idx
    end.
Proof.
  intros Hh Hi (r & Er & Hr) Hf. unfold refill_thread_run. rewrite (bind_done _ _ _ _ _ Er), bind_check by done.
  assert (Hcase : (exists a g, thread_runs s !! (t, idx) = Some a /\ G !! a = Some g /\ g_tl g <> []) \/
    (MergeThreadLocalFreeListToFreeList (thread_runs s !! (t, idx)) s = Done (false, s) /\ forall a g, thread_runs s !! (t, idx) = Some a -> G !! a = Some g -> g_free g = [] /\ g_tl g = [])).
  { destruct (thread_runs s !! (t, idx)) as [a|] eqn:Ec; [|right; split; [apply merge_none|done]].
    destruct (thread_owned _ _ _ _ _ _ Hh Ec) as (g & Hg & Ei & Eo). destruct (g_tl g) as [|x f] eqn:Et; [right|left; exists a, g; by rewrite Et].
    destruct (MergeThreadLocalFreeListToFreeList_done s l G a g (h_base _ _ _ Hh) Hg ltac:(by rewrite Eo)) as (E & _). rewrite Et in E. cbn [length app join] in E.
    split; [|intros b h [= <-] Hh'; rewrite Hg in Hh'; injection Hh' as <-; split; [by apply (Hf a)|done]]. rewrite E. unfold join. cbn.
    replace (with_tl [] (with_free (g_free g) g)) with g by (destruct g; cbn in *; by subst). by rewrite (put_same s l G a g (h_base _ _ _ Hh) Hg). }
  destruct Hcase as [(a & g & Ec & Hg & Htl)|[Em Hdrop]].
  - rewrite Ec. destruct (thread_owned _ _ _ _ _ _ Hh Ec) as (g' & Hg' & Ei & Eo). rewrite Hg in Hg'. injection Hg' as <-. pose proof Hh as [Hb Hx Hst].
    destruct (MergeThreadLocalFreeListToFreeList_done s l G a g Hb Hg ltac:(by rewrite Eo)) as (E & Hb' & Hw). rewrite (bind_done _ _ _ _ _ E).
    destruct (g_tl g) as [|x f] eqn:Et; [done|]. change (0 <? Z.of_nat (length (x :: f))) with true. cbn iota. set (g' := with_tl [] (with_free ((x :: f) ++ g_free g) g)) in *.
    rewrite (bind_done _ _ _ _ _ (get_run_done _ _ _ _ _ Hb' (lookup_insert_eq _ _ _))). rewrite bind_check by done.
    eexists _, _, l, _. split; [reflexivity|]. split; [|split].
    + split; [exact Hb'|by apply (index_same _ _ _ _ _ g)|]. apply all_settled_insert; [done|]. destruct (Hst a g Hg) as (Hm & Hbk & _). split; [done|]. split; [done|]. cbn. by rewrite Eo.
    + apply (trans_run _ _ _ _ _ g); try done; [|intros y Hy; apply Hw; intros Hin; apply (Hy y Hin); destruct (base_facts _ _ _ _ _ Hb Hg) as (_ & _ & Hi' & _); destruct (brackets_ok _ Hi'); lia].
      intros y. unfold unused. cbn. rewrite Et. set_solver.
    + exists g'. rewrite lookup_insert_eq. split; [done|]. split; [done|]. split; [done|]. split; [done|]. rewrite (tl_sum_update _ _ g) by done. unfold tl_bytes, NumberOfFreeSlots.
      cbn [g' hdr free_list_ flist size_ g_own g_idx g_free with_tl with_free]. rewrite Eo, (Hf a g Ec Hg), Ei. cbn [is_thread length]. lia.
  - rewrite (bind_done _ _ _ _ _ Em). destruct (drop_thread s l G t idx Hh Hdrop) as (s1 & G0 & E0 & (En & Ecu & Etr) & Ep & Hb0 & Hx0 & Hst0 & Ht0 & Hs0).
    rewrite (bind_done _ _ _ _ _ E0). assert (Hi' : 0 <= idx < kNumOfSizeBrackets) by (unfold kNumThreadLocalSizeBrackets, kNumOfSizeBrackets in *; lia). rewrite <- En in Hx0.
    destruct (RefillRun_spec s1 l G0 _ _ idx Hb0 Hx0 Hst0 Hi') as (ro & s2 & E2 & Et2 & Ec2 & Hro). rewrite (bind_done _ _ _ _ _ E2). destruct ro as [b|].
    + destruct Hro as (l1 & g & Hrf & Hb1 & Hx1 & Ht1). set (G1 := <[b := g]> G0) in *. assert (Hg1 : G1 !! b = Some g) by apply lookup_insert_eq.
      rewrite (bind_done _ _ _ _ _ (alloc_refilled_done s2 l1 G1 _ _ b idx g (OThread t) Hb1 Hx1 Hg1 (f_idx _ _ _ _ Hrf) (f_own _ _ _ _ Hrf) (f_free _ _ _ _ Hrf))).
      unfold SetRosAllocRun. rewrite bind_modify. eexists _, _, l1, (<[b := with_own (OThread t) g]> G1). split; [reflexivity|]. split; [|split].
      * split.
        -- apply (base_index (with_runs (<[b := hdr (with_own (OThread t) g)]> (runs s2)) s2)); [|done|done]. by apply (put_header _ _ _ _ g).
        -- cbn. rewrite Et2, Etr, Ec2, Ecu, <- partial_alter_twice, <- (f_idx _ _ _ _ Hrf). apply index_thread; [by rewrite (f_idx _ _ _ _ Hrf)|done|apply Hrf|rewrite (f_idx _ _ _ _ Hrf); lia|].
           rewrite (f_idx _ _ _ _ Hrf). apply lookup_partial_alter_eq.
        -- unfold G1. rewrite insert_insert_eq. apply all_settled_insert; [done|]. split; [apply Hrf|]. split; [apply Hrf|done].
      * apply (trans_trans _ _ _ s1 l G0); [done|]. apply (trans_trans _ _ _ s2 l1 G1); [done|]. by apply trans_own.
      * exists (with_own (OThread t) g). rewrite lookup_insert_eq. split; [done|]. split; [done|]. split; [apply Hrf|]. split; [apply Hrf|].
        rewrite (tl_sum_update _ _ g) by done. unfold G1. rewrite tl_sum_loose; [|intros g0 Hg0; by rewrite (f_old _ _ _ _ Hrf g0 Hg0)|by rewrite (f_own _ _ _ _ Hrf)].
        unfold tl_bytes. cbn [g_own g_idx g_free with_own is_thread]. rewrite (f_own _ _ _ _ Hrf), (f_idx _ _ _ _ Hrf), Hs0. cbn [is_thread]. lia.
    + destruct Hro as [-> Hno]. unfold SetRosAllocRun. rewrite bind_modify. eexists None, _, l, G0. split; [reflexivity|]. split; [|split; [|split; [done|]]].
      * split; [by apply (base_index s1)|cbn; rewrite Etr, Ecu; done|done].
      * eapply trans_trans; [exact Ht0|]. by apply trans_index.
      * unfold exhausted, no_run, non_full in *. rewrite En, Ep in Hno. split; [|done]. intros a Ea. destruct (thread_owned _ _ _ _ _ _ Hh Ea) as (g & Hg & _).
        destruct (Hdrop a g Ea Hg). by apply (full_run s l G a g (h_base _ _ _ Hh)).
Qed.

(** ** [Alloc] *)
(** The run that an allocation of the thread takes slots from. *)
Definition run_for (s : RosAlloc) (safe : bool) (self idx : Z) : option Z :=
  if safe && (idx <? kNumThreadLocalSizeBrackets) then thread_runs s !! (self, idx) else current_runs_ s !! idx.
(** There is no memory for [size] bytes. *)
Definition out_of_memory (s : RosAlloc) (safe : bool) (self size : Z) : Prop :=
  if kLargeSizeThreshold <? size then no_room (pages s) (RoundUp size kPageSize / kPageSize)
  else exhausted s (run_for s safe self (SizeToIndex size)) (SizeToIndex size).
Definition alloc_ok (s : RosAlloc) (l : segs) (G : gmap Z grun) (s' : RosAlloc) (l' : segs) (G' : gmap Z grun) (safe : bool) (self size : Z) (r : option allocation) : Prop :=
  match r with
  | None => trans s l G s' l' G' /\ tl_sum G' = tl_sum G /\ out_of_memory s safe self size
  | Some al => allocs s l G s' l' G' (alloc_addr al) (usable_size al) /\ bytes_allocated al = usable_size al /\ usable_size al = block_size size /\
               tl_sum G' + usable_size al = tl_sum G + bytes_tl_bulk_allocated al
  end.
Lemma size_index size idx b : 0 < size <= kLargeSizeThreshold -> SizeToIndexAndBracketSize size = (idx, b) -> SizeToIndex size = idx.
Proof. intros Hs Eidx. destruct (sizes_ok size Hs) as (i & Ei & _ & _ & -> & _). rewrite Eidx in Ei. by injection Ei as -> _. Qed.
Lemma small_exhausted s (safe : bool) self size idx : 0 < size <= kLargeSizeThreshold -> SizeToIndexAndBracketSize size = (idx, bracketSizes idx) ->
  exhausted s (run_for s safe self idx) idx -> out_of_memory s safe self size.
Proof.
  intros Hs Eidx He. unfold out_of_memory. rewrite (size_index _ _ _ Hs Eidx). by destruct (Z.ltb_spec kLargeSizeThreshold size); [lia|].
Qed.
Lemma alloc_current s l G (safe : bool) self size idx : heap s l G -> 0 < size <= kLargeSizeThreshold -> SizeToIndexAndBracketSize size = (idx, bracketSizes idx) ->
  0 <= idx < kNumOfSizeBrackets -> block_size size = bracketSizes idx -> safe && (idx <? kNumThreadLocalSizeBrackets) = false ->
  exists r s' l' G', (slot_addr ← AllocFromCurrentRunUnlocked idx;
    mret (if slot_addr =? 0 then None else Some (mkAllocation slot_addr (bracketSizes idx) (bracketSizes idx) (bracketSizes idx)))) s = Done (r, s') /\
    heap s' l' G' /\ alloc_ok s l G s' l' G' safe self size r.
Proof.
  intros Hh Hsz Eidx Hi Hs Hsafe. destruct (AllocFromCurrentRunUnlocked_spec s l G idx Hh Hi) as (x & s' & l' & G' & E & Hh' & Ht & Hx). rewrite (bind_done _ _ _ _ _ E).
  eexists _, s', l', G'. split; [reflexivity|]. split; [done|]. destruct Hx as [(-> & Htr & He)|[Hx Ha]].
  - rewrite Z.eqb_refl. split; [done|]. split; [done|]. apply (small_exhausted s safe self size idx Hsz Eidx). unfold run_for. by rewrite Hsafe.
  - rewrite (proj2 (Z.eqb_neq x 0) Hx). cbn. split; [done|]. split; [done|]. split; [done|]. lia.
Qed.
Lemma AllocFromRunThreadUnsafe_spec s l G self size : heap s l G -> 0 < size <= kLargeSizeThreshold ->
  exists r s' l' G', AllocFromRunThreadUnsafe size s = Done (r, s') /\ heap s' l' G' /\ alloc_ok s l G s' l' G' false self size r.
Proof.
  intros Hh Hs. destruct (block_size_small size Hs) as (idx & Eidx & Hi & Hle). unfold AllocFromRunThreadUnsafe. rewrite bind_check by (apply Z.leb_le; lia).
  rewrite Eidx. by apply alloc_current.
Qed.
Lemma AllocFromRun_spec s l G self size : heap s l G -> 0 < size <= kLargeSizeThreshold ->
  exists r s' l' G', AllocFromRun self size s = Done (r, s') /\ heap s' l' G' /\ alloc_ok s l G s' l' G' true self size r.
Proof.
  intros Hh Hs. destruct (block_size_small size Hs) as (idx & Eidx & Hi & Hle). unfold AllocFromRun. rewrite bind_check by (apply Z.leb_le; lia). rewrite Eidx.
  destruct (Z.ltb_spec idx kNumThreadLocalSizeBrackets) as [Hlt|Hge]; [|apply alloc_current; try done; cbn; by apply Z.ltb_ge]. rewrite bind_gets.
  destruct (thread_run_local s l G self idx Hh) as (r0 & E0 & Hr0). rewrite (bind_done _ _ _ _ _ E0), bind_check by done.
  destruct (AllocSlot_thread s l G self idx Hh) as [(x & s' & G' & E & Hx & Hh' & Ha & Ht)|(E & Hfull & Hf)]; rewrite (bind_done _ _ _ _ _ E).
  - rewrite (proj2 (Z.eqb_neq x 0) Hx). eexists _, s', l, G'. split; [reflexivity|]. split; [done|]. cbn. split; [done|]. split; [done|]. split; [done|]. lia.
  - rewrite Z.eqb_refl. destruct (refill_thread_run_spec s l G self idx Hh ltac:(lia) Hfull Hf) as (ro & s1 & l1 & G1 & E1 & Hh1 & Ht1 & Hro).
    rewrite (bind_done _ _ _ _ _ E1). destruct ro as [[a n]|].
    + destruct Hro as (g & Hg & Eo & Ei & Hne & Hsum). destruct (g_free g) as [|x f] eqn:Ef; [done|].
      destruct (take_slot s1 l1 G1 a g x f Hh1 Hg ltac:(right; by rewrite Eo) Ef) as (s2 & G2 & E2 & Hx & Hh2 & Ha & Ht2). rewrite (bind_done _ _ _ _ _ E2).
      rewrite bind_check by (by rewrite (proj2 (Z.eqb_neq x 0) Hx)). eexists _, s2, l1, G2. split; [reflexivity|]. split; [done|]. cbn. rewrite Ei in *.
      split; [by apply (trans_allocs _ _ _ s1 l1 G1)|]. split; [done|]. split; [done|]. rewrite Eo in Ht2. cbn in Ht2. lia.
    + destruct Hro as [Hsum He]. eexists _, s1, l1, G1. split; [reflexivity|]. split; [done|]. split; [done|]. split; [done|]. apply (small_exhausted s true self size idx Hs Eidx). unfold run_for.
      by rewrite (proj2 (Z.ltb_lt _ _) Hlt).
Qed.
Lemma AllocLargeObject_spec s l G safe self size : heap s l G -> kLargeSizeThreshold < size -> size + kPageSize <= 2 ^ 64 ->
  exists r s' l' G', AllocLargeObject size s = Done (r, s') /\ heap s' l' G' /\ alloc_ok s l G s' l' G' safe self size r.
Proof.
  intros Hh Hs Hmax. unfold AllocLargeObject. rewrite bind_check by (apply Z.ltb_lt; lia).
  destruct (RoundUp_pages size) as (num & Enum & Hlo & Hle); [unfold kLargeSizeThreshold in *; lia|done|]. assert (Hn : 0 < num) by (unfold kLargeSizeThreshold in *; plia).
  assert (Ebs : block_size size = num * kPageSize) by (unfold block_size; by rewrite (proj2 (Z.ltb_lt _ _) Hs)). rewrite Enum, Z.div_mul by plia. pose proof Hh as [Hb Hx Hst].
  destruct (alloc_large s l G num Hb Hn) as (r & s' & E & (En & Ec & Et) & Hf & Er & Ew & Hr). rewrite (bind_done _ _ _ _ _ E). destruct r as [a|].
  - destruct Hr as (i & l' & Ea & Hb' & Hl & Hnew & Hz). eexists _, s', l', G. split; [reflexivity|]. split; [split; [done|by rewrite En, Ec, Et|done]|]. cbn.
    split; [|split; [done|split; [done|lia]]]. assert (Haddr : forall j, addr (pages s') j = addr (pages s) j) by (intros j; unfold addr; by rewrite (proj1 Hf)).
    split; [| | |by rewrite Ew|by apply frame_const].
    + intros y m. unfold live_in. setoid_rewrite Haddr. setoid_rewrite Hl. rewrite Ea. split.
      * intros [?|(j & k & [Hj|[= -> ->]] & -> & ->)]; [by left; left|left; right; by exists j, k|by right].
      * intros [[?|(j & k & Hj & -> & ->)]|[= -> ->]]; [by left|right; exists j, k; tauto|right; exists i, num; tauto].
    + intros m [(b & g & Hg & Hb0 & _)|(j & k & Hj & Ej & _)].
      * assert (Hu : used_at l' i SLarge num) by (apply Hl; by right). pose proof (slot_in_run _ _ _ _ _ _ Hb Hg Hb0).
        apply (slot_large s' l' G b g a i num a Hb' Hg Hb0 Hu); [lia|]. rewrite Haddr, <- Ea. plia.
      * rewrite Ea in Ej. apply page_addr_inj in Ej as ->. by apply Hnew in Hj.
    + intros y Hy. rewrite Ew. by apply Hz.
  - destruct Hr as [-> Hno]. eexists _, s, l, G. split; [reflexivity|]. split; [done|]. cbn. split; [apply trans_refl|]. split; [done|]. unfold out_of_memory.
    by rewrite (proj2 (Z.ltb_lt _ _) Hs), Enum, Z.div_mul by plia.
Qed.
Lemma Alloc_spec s l G (safe : bool) self size : heap s l G -> 0 < size -> size + kPageSize <= 2 ^ 64 ->
  exists r s' l' G', Alloc safe self size s = Done (r, s') /\ heap s' l' G' /\ alloc_ok s l G s' l' G' safe self size r.
Proof.
  intros Hh H0 Hmax. unfold Alloc. destruct (Z.ltb_spec kLargeSizeThreshold size); [by apply AllocLargeObject_spec|].
  destruct safe; [by apply AllocFromRun_spec|by apply AllocFromRunThreadUnsafe_spec].
Qed.
(** The inlined allocation of the compiled code. *)
Lemma AllocFromThreadLocalRun_spec s l G self size : heap s l G -> 0 < size <= kMaxThreadLocalBracketSize ->
  exists r s' G' can, AllocFromThreadLocalRun self size s = Done (r, s') /\ heap s' l G' /\ CanAllocFromThreadLocalRun self size s = Done (can, s) /\
    (can = match r with Some _ => true | None => false end) /\
    match r with
    | None => s' = s /\ G' = G /\ exists r, get_run (thread_runs s !! (self, SizeToIndex size)) s = Done (r, s) /\ IsFull r = true
    | Some (x, n) => allocs s l G s' l G' x n /\ n = block_size size /\ tl_sum G' + n = tl_sum G
    end.
Proof.
  intros Hh Hs. destruct (block_size_small size) as (idx & Eidx & Hi & Hle); [unfold kMaxThreadLocalBracketSize, kLargeSizeThreshold in *; lia|].
  unfold AllocFromThreadLocalRun, CanAllocFromThreadLocalRun, IsSizeForThreadLocal. rewrite (proj2 (Z.leb_le size _) (proj2 Hs)), Eidx. cbn [negb]. rewrite !bind_gets.
  destruct (thread_run_local s l G self idx Hh) as (r0 & E0 & Hr0). rewrite !(bind_done _ _ _ _ _ E0), !bind_check by done.
  destruct (AllocSlot_thread s l G self idx Hh) as [(x & s' & G' & E & Hx & Hh' & Ha & Ht)|(E & (r1 & E1 & Hf1) & Hf)]; rewrite (bind_done _ _ _ _ _ E).
  - rewrite (proj2 (Z.eqb_neq x 0) Hx). eexists _, s', G', _. split; [reflexivity|]. split; [done|]. split; [reflexivity|]. split; [|split; [done|split; [done|lia]]].
    destruct (thread_runs s !! (self, idx)) as [a|] eqn:Ec; [|by rewrite AllocSlot_none in E; injection E as <- _].
    destruct (thread_owned _ _ _ _ _ _ Hh Ec) as (g & Hg & Ei & Eo). rewrite (get_run_done _ _ _ _ _ (h_base _ _ _ Hh) Hg) in E0. injection E0 as <-. unfold IsFull. cbn.
    destruct (g_free g) as [|y f] eqn:Ef; [|done]. rewrite (AllocSlot_nil _ _ _ _ _ (h_base _ _ _ Hh) Hg Ef) in E. by injection E as <- _.
  - rewrite Z.eqb_refl. eexists _, s, G, _. split; [reflexivity|]. split; [done|]. split; [reflexivity|]. rewrite (size_index size idx _ ltac:(unfold kMaxThreadLocalBracketSize, kLargeSizeThreshold in *; lia) Eidx).
    split; [|split; [done|split; [done|by exists r1]]]. rewrite E0 in E1. injection E1 as <-. by rewrite Hf1.
Qed.
