(* ===== verification/RosAllocFree.v ===== *)
(** Release of blocks of RosAlloc.

    [Free] gives one block back and [BulkFree] a list of blocks, and
    [RevokeThreadLocalRuns] and its variants take the threads' runs and the
    current runs away; runs of which every slot is free give their pages back.
    Nothing else changes for the blocks in use, and the bytes the operations
    report are those by which the blocks and the free slots of the threads' runs
    shrink. *)
From stdpp Require Import prelude gmap list.
From Stdlib Require Import ZArith Lia.
From S2P Require Import Prelude BitUtils RosAlloc RosAllocPages RosAllocFreePages RosAllocSegments RosAllocSlots RosAllocRuns RosAllocIndex RosAllocAlloc.
Import RosAlloc.
Open Scope Z_scope.

(** ** Giving a block back *)
Record frees (s : RosAlloc) (l : segs) (G : gmap Z grun) (s' : RosAlloc) (l' : segs) (G' : gmap Z grun) (x : Z) : Prop := {
  d_live : forall y m, live_in s' l' G' y m <-> live_in s l G y m /\ y <> x;
  d_words : forall z m y, live_in s' l' G' z m -> z <= y < z + m -> ld (words (pages s')) y = ld (words (pages s)) y;
  d_const : const s s'
}.
Lemma frees_trans s l G s1 l1 G1 s2 l2 G2 x : frees s l G s1 l1 G1 x -> trans s1 l1 G1 s2 l2 G2 -> frees s l G s2 l2 G2 x.
Proof.
  intros Hf Ht. split.
  - intros y m. by rewrite (t_live _ _ _ _ _ _ Ht), (d_live _ _ _ _ _ _ _ Hf).
  - intros z m y Hl Hy. apply (t_live _ _ _ _ _ _ Ht) in Hl. by rewrite (t_words _ _ _ _ _ _ Ht z m y Hl Hy), (d_words _ _ _ _ _ _ _ Hf z m).
  - eapply const_trans; [apply Hf|apply Ht].
Qed.
(** A slot becomes unused. *)
Lemma frees_slot s s' l G a g g' x : base s l G -> G !! a = Some g -> x ∈ slot_addrs a (g_idx g) -> x ∉ unused g -> adds g g' x -> const s s' ->
  (forall y, ~ x <= y < x + bracketSizes (g_idx g) -> ld (words (pages s')) y = ld (words (pages s)) y) ->
  frees s l G s' l (<[a := g']> G) x.
Proof.
  intros Hb Hg Hx Hxu Had Hc Hw. pose proof (adds_unused _ _ _ Had) as Hp. destruct Had as (Ei & _).
  assert (Hu : forall y, y ∈ unused g' <-> y = x \/ y ∈ unused g) by (intros y; rewrite Hp; apply elem_of_cons).
  assert (Hlive : forall y m, live_in s' l (<[a := g']> G) y m <-> live_in s l G y m /\ y <> x).
  { intros y m. unfold live_in, addr. rewrite (proj1 Hc). split.
    - intros [(b & h & Hh & Hy & Hyu & ->)|(i & k & Hu' & -> & ->)].
      + apply lookup_insert_Some in Hh as [[<- <-]|[Hne Hh]]; [rewrite Hu in Hyu; rewrite Ei in *; split; [left; exists a, g; tauto|tauto]|].
        split; [left; by exists b, h|]. intros ->. pose proof (slot_in_run _ _ _ _ _ _ Hb Hh Hy). pose proof (slot_in_run _ _ _ _ _ _ Hb Hg Hx).
        by destruct (slots_meet s l G a g x b h x x Hb Hg Hx Hh Hy ltac:(lia) ltac:(lia)) as (? & _).
      + split; [right; by exists i, k|]. intros <-. pose proof (slot_in_run _ _ _ _ _ _ Hb Hg Hx). pose proof (seg_bounds _ _ _ _ _ (b_pages _ _ _ Hb) Hu').
        apply (slot_large s l G a g (base_ (pages s) + i * kPageSize) i k (base_ (pages s) + i * kPageSize) Hb Hg Hx Hu'); [lia|unfold addr; plia].
    - intros [[(b & h & Hh & Hy & Hyu & ->)|?] Hne]; [left|by right]. destruct (decide (a = b)) as [<-|Hab]; [|exists b, h; by rewrite lookup_insert_ne].
      rewrite Hg in Hh. injection Hh as <-. exists a, g'. rewrite lookup_insert_eq, Hu, Ei. tauto. }
  split; [done| |done]. intros z m y Hl Hy. apply Hw. intros Hxy. apply Hlive in Hl as [Hl Hne].
  by destruct (live_meets_slot s l G a g x z m y Hb Hg Hx Hxy Hl Hy) as (? & _).
Qed.

(** A heap in the middle of an operation, with the tables [tr] and [cu]. *)
Definition indexed_at (tr : gmap (Z * Z) Z) (cu : gmap Z Z) (s : RosAlloc) (l : segs) (G : gmap Z grun) : Prop :=
  base s l G /\ index_ok tr cu (non_full_runs_ s) G.
Definition indexed (s : RosAlloc) (l : segs) (G : gmap Z grun) : Prop := indexed_at (thread_runs s) (current_runs_ s) s l G.
(** A run without an owner of which every slot is free. *)
Lemma release_run_at tr cu s l G a g : indexed_at tr cu s l G -> G !! a = Some g -> g_own g = OLoose -> all_free g ->
  exists s' l', free_run a s = Done (tt, s') /\ thread_runs s' = thread_runs s /\ current_runs_ s' = current_runs_ s /\
    indexed_at tr cu s' l' (delete a G) /\ trans s l G s' l' (delete a G) /\ tl_sum (delete a G) = tl_sum G.
Proof.
  intros [Hb Hx] Hg Eo Haf. destruct (free_run_spec s l G a g Hb Hg Haf) as (s' & l' & E & (En & Ec & Et) & Hf & Hb' & Hl & Hw). exists s', l'. repeat (split; [done|]). split; [|split].
  - split; [done|rewrite En; by apply (index_gone _ _ _ _ _ g)].
  - apply (trans_gone _ _ _ _ _ _ g); try done. by apply frame_const.
  - unfold tl_sum. rewrite (msum_delete _ _ _ g) by done. assert (tl_bytes g = 0) by (unfold tl_bytes; by rewrite Eo). lia.
Qed.
Lemma release_run s l G a g : indexed s l G -> G !! a = Some g -> g_own g = OLoose -> all_free g ->
  exists s' l', free_run a s = Done (tt, s') /\ indexed s' l' (delete a G) /\ trans s l G s' l' (delete a G) /\ tl_sum (delete a G) = tl_sum G.
Proof.
  intros Hix Hg Eo Haf. destruct (release_run_at _ _ s l G a g Hix Hg Eo Haf) as (s' & l' & E & Et & Ec & Hix' & Ht & Hs). exists s', l'. unfold indexed. rewrite Et, Ec. done.
Qed.
(** A run without an owner is listed. *)
Lemma list_run_at tr cu s l G a g : indexed_at tr cu s l G -> G !! a = Some g -> g_own g = OLoose ->
  exists s', insert_non_full (g_idx g) a s = Done (tt, s') /\ thread_runs s' = thread_runs s /\ current_runs_ s' = current_runs_ s /\
    indexed_at tr cu s' l (<[a := with_own OListed g]> G) /\ trans s l G s' l (<[a := with_own OListed g]> G) /\ tl_sum (<[a := with_own OListed g]> G) = tl_sum G.
Proof.
  intros [Hb Hx] Hg Eo. eexists _. split; [reflexivity|]. split; [done|]. split; [done|]. split; [|split].
  - split; [apply (base_index s); [apply base_own; try done; by rewrite Eo|done|done]|cbn; by apply index_list].
  - by apply trans_own.
  - apply tl_sum_loose; [|done]. intros g0 Hg0. rewrite Hg in Hg0. injection Hg0 as <-. by rewrite Eo.
Qed.
Lemma list_run s l G a g : indexed s l G -> G !! a = Some g -> g_own g = OLoose ->
  exists s', insert_non_full (g_idx g) a s = Done (tt, s') /\ indexed s' l (<[a := with_own OListed g]> G) /\ trans s l G s' l (<[a := with_own OListed g]> G) /\
    tl_sum (<[a := with_own OListed g]> G) = tl_sum G.
Proof.
  intros Hix Hg Eo. destruct (list_run_at _ _ s l G a g Hix Hg Eo) as (s' & E & Et & Ec & Hix' & Ht & Hs). exists s'. unfold indexed. rewrite Et, Ec. done.
Qed.
Lemma current_iff s G a g : index_ok (thread_runs s) (current_runs_ s) (non_full_runs_ s) G -> G !! a = Some g ->
  bool_decide (current_runs_ s !! g_idx g = Some a) = bool_decide (g_own g = OCurrent).
Proof.
  intros Hx Hg. apply bool_decide_ext. rewrite (x_current _ _ _ _ Hx). split; [intros (h & Hh & _ & Eo); congruence|]. intros Eo. by exists g.
Qed.
Lemma listed_iff s G a g : index_ok (thread_runs s) (current_runs_ s) (non_full_runs_ s) G -> G !! a = Some g ->
  is_non_full s (g_idx g) a = bool_decide (g_own g = OListed).
Proof.
  intros Hx Hg. apply bool_decide_ext. unfold non_full. fold (nfl (non_full_runs_ s) (g_idx g)). rewrite (x_listed _ _ _ _ Hx).
  split; [intros (h & Hh & _ & Eo); congruence|]. intros Eo. by exists g.
Qed.

(** ** [FreeFromRun] *)
(** The run is taken out of [non_full_runs_] and [current_runs_] and freed. *)
Lemma free_whole_run s l G a g : indexed s l G -> G !! a = Some g -> is_thread (g_own g) = false -> all_free g ->
  exists s' l', (erase_non_full (g_idx g) a;; when (bool_decide (g_own g = OCurrent)) (set_current (g_idx g) None);; free_run a) s = Done (tt, s') /\
    indexed s' l' (delete a G) /\ trans s l G s' l' (delete a G) /\ tl_sum (delete a G) = tl_sum G.
Proof.
  intros [Hb Hx] Hg Ho Haf. set (G1 := <[a := with_own OLoose g]> G).
  assert (Hs1 : exists s1, (erase_non_full (g_idx g) a;; when (bool_decide (g_own g = OCurrent)) (set_current (g_idx g) None)) s = Done (tt, s1) /\ pages s1 = pages s /\ runs s1 = runs s /\
    index_ok (thread_runs s1) (current_runs_ s1) (non_full_runs_ s1) G1).
  { unfold erase_non_full. rewrite bind_modify. destruct (g_own g) eqn:Eo; try done.
    - rewrite bool_decide_eq_true_2 by done. eexists. split; [reflexivity|]. split; [done|]. split; [done|]. cbn. apply index_uncurrent; try done. apply index_erase_other; try done. by rewrite Eo.
    - rewrite bool_decide_eq_false_2 by done. eexists. split; [reflexivity|]. split; [done|]. split; [done|]. cbn. by apply index_unlist.
    - rewrite bool_decide_eq_false_2 by done. eexists. split; [reflexivity|]. split; [done|]. split; [done|]. cbn. unfold G1.
      replace (with_own OLoose g) with g by (destruct g; cbn in *; by subst). rewrite (insert_id G a g) by done. apply index_erase_other; try done. by rewrite Eo. }
  destruct Hs1 as (s1 & E1 & Ep & Er & Hx1). assert (Hb1 : base s1 l G1) by (apply (base_index s); [apply base_own; try done; by rewrite Ho|done|done]).
  destruct (release_run s1 l G1 a (with_own OLoose g)) as (s' & l' & E & Hh & Ht & Hs); [done|apply lookup_insert_eq|done|done|].
  assert (Ed : delete a G1 = delete a G) by apply delete_insert_eq. rewrite Ed in *.
  exists s', l'. split; [|split; [done|split; [|]]].
  - rewrite <- bind_assoc. by rewrite (bind_done _ _ _ _ _ E1).
  - apply (trans_trans _ _ _ s1 l G1); [by apply trans_own|done].
  - rewrite Hs. apply tl_sum_loose; [|done]. intros g0 Hg0. rewrite Hg in Hg0. by injection Hg0 as <-.
Qed.
Lemma FreeFromRun_spec s l G a g x : heap s l G -> G !! a = Some g -> x ∈ slot_addrs a (g_idx g) -> x ∉ unused g ->
  exists s' l' G', FreeFromRun x a s = Done (bracketSizes (g_idx g), s') /\ heap s' l' G' /\ frees s l G s' l' G' x /\ tl_sum G' = tl_sum G.
Proof.
  intros Hh Hg Hx Hxu. pose proof Hh as [Hb Hix Hst]. destruct (base_facts _ _ _ _ _ Hb Hg) as (Hk & Ha & Hi & _). destruct (Hst a g Hg) as (Hm & Hbk & Hset).
  unfold FreeFromRun. rewrite (bind_done _ _ _ _ _ (get_run_done _ _ _ _ _ Hb Hg)). rewrite bind_check.
  2: { pose proof (slot_range _ _ _ Hi Hx). destruct (brackets_ok _ Hi) as (? & _ & _ & _ & ? & _). unfold Run_End. cbn. rewrite andb_true_iff, !Z.ltb_lt. lia. }
  cbn [size_bracket_idx_ is_thread_local_ hdr]. 
  destruct (is_thread (g_own g)) eqn:Eth.
  - rewrite bind_gets, (listed_iff s G a g Hix Hg). rewrite bind_check.
    2: { destruct (g_own g) as [t| | |] eqn:Eo; try done. rewrite bool_decide_eq_false_2 by done. rewrite (proj2 (Z.ltb_lt _ _)); [done|]. apply (x_local _ _ _ _ Hix a _ t). by exists g. }
    destruct (AddToThreadLocalFreeList_done s l G a g x Hb Hg Hx Hxu Eth) as (m' & E & Hb' & Hw). rewrite (bind_done _ _ _ _ _ E).
    eexists _, l, _. split; [reflexivity|]. split; [|split].
    + split; [exact Hb'|by apply (index_same _ _ _ _ _ g)|]. apply all_settled_insert; [done|]. split; [done|]. split; [done|]. cbn. by destruct (g_own g).
    + apply (frees_slot _ _ _ _ _ g); try done. split; [done|]. split; [done|]. right. by left.
    + rewrite (tl_sum_update _ _ g) by done. unfold tl_bytes. cbn. lia.
  - destruct (FreeSlot_done s l G a g x Hb Hg Hx Hxu Eth) as (m' & E & Hb' & Hw). rewrite (bind_done _ _ _ _ _ E). set (g' := with_free (x :: g_free g) g) in *. set (s1 := put a m' g' s) in *.
    assert (Hix1 : index_ok (thread_runs s1) (current_runs_ s1) (non_full_runs_ s1) (<[a := g']> G)) by (by apply (index_same _ _ _ _ _ g)).
    assert (Hg1 : <[a := g']> G !! a = Some g') by apply lookup_insert_eq.
    assert (Hfr : frees s l G s1 l (<[a := g']> G) x). { apply (frees_slot _ _ _ _ _ g); try done. split; [done|]. split; [done|]. by left. }
    assert (Hsum : tl_sum (<[a := g']> G) = tl_sum G). { apply tl_sum_loose; [|done]. intros g0 Hg0. rewrite Hg in Hg0. by injection Hg0 as <-. }
    rewrite (bind_done _ _ _ _ _ (get_run_done _ _ _ _ _ Hb' Hg1)), bind_gets. change (g_idx g) with (g_idx g'). rewrite (current_iff s1 _ a g' Hix1 Hg1).
    unfold IsAllFree at 1. cbn [hdr free_list_ flist size_ size_bracket_idx_]. destruct (Z.eqb_spec (Z.of_nat (length (g_free g'))) (numOfSlots (g_idx g'))) as [Haf|Haf].
    + destruct (free_whole_run s1 l (<[a := g']> G) a g' ltac:(done) Hg1 Eth Haf) as (s' & l' & E' & Hh' & Ht' & Hs').
      rewrite (bind_done _ _ _ _ _ E'). exists s', l', (delete a (<[a := g']> G)). split; [done|].
      split; [split; [apply Hh'|apply Hh'|rewrite delete_insert_eq; by apply all_settled_delete]|]. split; [by apply (frees_trans _ _ _ s1 l (<[a := g']> G))|]. by rewrite Hs'.
    + destruct (bool_decide_reflect (g_own g' = OCurrent)) as [Eo|Hno]; cbn [negb when].
      * exists s1, l, (<[a := g']> G). split; [done|]. split; [|done]. split; [done|done|]. apply all_settled_insert; [done|]. split; [done|]. split; [done|]. by rewrite Eo.
      * rewrite bind_assoc, bind_gets, (listed_iff s1 _ a g' Hix1 Hg1). destruct (bool_decide_reflect (g_own g' = OListed)) as [El|Hnl]; cbn [negb when].
        -- exists s1, l, (<[a := g']> G). split; [done|]. split; [|done]. split; [done|done|]. apply all_settled_insert; [done|]. split; [done|]. split; [done|]. by rewrite El.
        -- assert (Eo : g_own g' = OLoose) by (cbn in *; by destruct (g_own g)). assert (Ef : g_free g = []) by (cbn in Eo; by rewrite Eo in Hset).
           rewrite bind_assoc, bind_check by (unfold IsFull; cbn; by rewrite Ef).
           destruct (list_run s1 l (<[a := g']> G) a g' ltac:(done) Hg1 Eo) as (s' & E' & Hh' & Ht' & Hs').
           rewrite bind_assoc, (bind_done _ _ _ _ _ E'), bind_check by done. eexists s', l, _. split; [done|].
           split; [split; [apply Hh'|apply Hh'|rewrite insert_insert_eq; by apply all_settled_insert]|]. split; [by apply (frees_trans _ _ _ s1 l (<[a := g']> G))|]. by rewrite Hs'.
Qed.

(** ** [Free] *)
Lemma frees_large s l G i n : base s l G -> used_at l i SLarge n ->
  exists s' l', in_pages (FreePages (addr (pages s) i) false) s = Done (n * kPageSize, s') /\ same_index s s' /\ base s' l' G /\ frees s l G s' l' G (addr (pages s) i).
Proof.
  intros Hb Hu. destruct (free_large s l G i n Hb Hu) as (s' & l' & E & Hix & Hf & Er & Hb' & Hl & Hw). exists s', l'. split; [done|]. split; [done|]. split; [done|].
  pose proof (seg_bounds _ _ _ _ _ (b_pages _ _ _ Hb) Hu) as (Hi0 & Hn & _).
  assert (Hlive : forall y m, live_in s' l' G y m <-> live_in s l G y m /\ y <> addr (pages s) i).
  { intros y m. unfold live_in. assert (Haddr : forall j, addr (pages s') j = addr (pages s) j) by (intros j; unfold addr; by rewrite (proj1 Hf)). setoid_rewrite Haddr. setoid_rewrite Hl. split.
    - intros [(a & g & Hg & Hy & Hyu & ->)|(j & k & [Hj Hne] & -> & ->)].
      + split; [left; by exists a, g|]. intros ->. pose proof (slot_in_run _ _ _ _ _ _ Hb Hg Hy).
        apply (slot_large s l G a g _ i n (addr (pages s) i) Hb Hg Hy Hu); [lia|plia].
      + split; [right; by exists j, k|]. by intros ?%page_addr_inj.
    - intros [[?|(j & k & Hj & -> & ->)] Hne]; [by left|right]. exists j, k. split; [|done]. split; [done|]. by intros ->. }
  split; [done| |by apply frame_const]. intros z m y Hz Hy. apply Hw. intros Hin. apply Hlive in Hz as [Hz Hne]. apply Hne.
  apply (live_disjoint s l G z m (addr (pages s) i) (n * kPageSize) y Hb Hz); [right; by exists i, n|done|unfold addr in *; plia].
Qed.
Lemma Free_spec s l G x n : heap s l G -> live_in s l G x n ->
  exists s' l' G', Free x s = Done (n, s') /\ heap s' l' G' /\ frees s l G s' l' G' x /\ tl_sum G' = tl_sum G.
Proof.
  intros Hh Hl. pose proof Hh as [Hb Hix Hst]. unfold Free, FreeInternal. rewrite bind_gets. destruct Hl as [(a & g & Hg & Hx & Hxu & ->)|(i & k & Hu & -> & ->)].
  - pose proof (slot_in_run _ _ _ _ _ _ Hb Hg Hx). destruct (run_of_run s l G a g x Hb Hg ltac:(lia)) as [Hin Er].
    rewrite bind_check by done. rewrite (bind_done _ _ _ _ _ Er). by apply FreeFromRun_spec.
  - destruct (run_of_large s l G i k Hb Hu) as (Hin & Er & _). rewrite bind_check by done. rewrite (bind_done _ _ _ _ _ Er).
    destruct (frees_large s l G i k Hb Hu) as (s' & l' & E & (En & Ec & Et) & Hb' & Hf). exists s', l', G. split; [done|]. split; [|done]. split; [done|by rewrite En, Ec, Et|done].
Qed.

(** ** [BulkFree] *)
Definition own_ok (g : grun) : Prop := match g_own g with OListed => g_free g <> [] /\ ~ all_free g | OLoose => g_free g = [] | _ => True end.
(** The heap during a bulk free: [found] are the runs with slots in their bulk
    free lists. *)
Record bulk_heap (s : RosAlloc) (l : segs) (G : gmap Z grun) (found : list Z) : Prop := {
  u_base : base s l G;
  u_index : index_ok (thread_runs s) (current_runs_ s) (non_full_runs_ s) G;
  u_own : forall a g, G !! a = Some g -> own_ok g /\ g_marked g = bool_decide (a ∈ found) /\ (a ∈ found <-> g_bulk g <> []);
  u_found : NoDup found /\ forall a, a ∈ found -> is_Some (G !! a)
}.
Lemma heap_bulk s l G : heap s l G <-> bulk_heap s l G [].
Proof.
  split.
  - intros [Hb Hx Hst]. split; [done|done| |split; [constructor|by intros a ?%elem_of_nil]]. intros a g Hg. destruct (Hst a g Hg) as (Hm & Hbk & Ho). rewrite Hm, Hbk.
    split; [done|]. split; [symmetry; apply bool_decide_eq_false_2; by intros ?%elem_of_nil|]. split; [by intros ?%elem_of_nil|done].
  - intros [Hb Hx Ho _]. split; [done|done|]. intros a g Hg. destruct (Ho a g Hg) as (Hown & Hm & Hbk). split; [rewrite Hm; apply bool_decide_eq_false_2; by intros ?%elem_of_nil|].
    split; [|done]. destruct (g_bulk g); [done|]. exfalso. assert (Hin : a ∈ @nil Z) by (by apply Hbk). by apply elem_of_nil in Hin.
Qed.
(** One slot of the first loop. *)
Lemma bulk_collect_slot s l G found a g x : bulk_heap s l G found -> G !! a = Some g -> x ∈ slot_addrs a (g_idx g) -> x ∉ unused g ->
  exists s' G', (forall ptrs bytes, bulk_collect (x :: ptrs) bytes found s = bulk_collect ptrs (bytes + bracketSizes (g_idx g)) (if bool_decide (a ∈ found) then found else found ++ [a]) s') /\
    bulk_heap s' l G' (if bool_decide (a ∈ found) then found else found ++ [a]) /\ frees s l G s' l G' x /\ tl_sum G' = tl_sum G.
Proof.
  intros [Hb Hix Hown [Hnd Hfd]] Hg Hx Hxu. destruct (Hown a g Hg) as (Ho & Hm & Hbk). pose proof (slot_in_run _ _ _ _ _ _ Hb Hg Hx).
  destruct (run_of_run s l G a g x Hb Hg ltac:(lia)) as [Hin Er]. destruct (AddToBulkFreeList_done s l G a g x Hb Hg Hx Hxu) as (m' & E & Hb' & Hw).
  set (g1 := with_bulk (x :: g_bulk g) g) in *. set (s1 := put a m' g1 s) in *. assert (Hg1 : <[a := g1]> G !! a = Some g1) by apply lookup_insert_eq.
  set (g2 := with_mark true g1). set (found' := if bool_decide (a ∈ found) then found else found ++ [a]).
  assert (Hfd' : forall b, b ∈ found' <-> b = a \/ b ∈ found) by (intros b; unfold found'; case_bool_decide; set_solver).
  assert (Hix2 : forall h, g_idx h = g_idx g -> g_own h = g_own g -> index_ok (thread_runs s) (current_runs_ s) (non_full_runs_ s) (<[a := h]> G)) by (intros h ? ?; by apply (index_same _ _ _ _ _ g)).
  assert (Hrest : forall s' h, base s' l (<[a := h]> G) -> same_index s s' -> h = g2 -> pages s' = pages s1 -> bulk_heap s' l (<[a := h]> G) found' /\ frees s l G s' l (<[a := h]> G) x /\ tl_sum (<[a := h]> G) = tl_sum G).
  { intros s' h Hbh (En & Ec & Et) -> Ep. split; [split|split].
    - done.
    - rewrite En, Ec, Et. by apply Hix2.
    - intros b h' Hh'. apply lookup_insert_Some in Hh' as [[<- <-]|[Hne Hh']].
      + rewrite bool_decide_eq_true_2 by (apply Hfd'; by left). split; [exact Ho|]. split; [done|]. split; [done|]. intros _. apply Hfd'. by left.
      + destruct (Hown b h' Hh') as (Ho' & Hm' & Hbk'). split; [done|]. split; [rewrite Hm'; apply bool_decide_ext; rewrite Hfd'; naive_solver|]. rewrite Hfd', <- Hbk'. naive_solver.
    - split; [|intros b Hb0; rewrite lookup_insert_is_Some'; apply Hfd' in Hb0 as [->|Hb0]; [by left|right; by apply Hfd]].
      unfold found'. case_bool_decide; [done|]. apply NoDup_app. split; [done|]. split; [|apply NoDup_singleton]. intros b Hb0 Hb1%list_elem_of_singleton. by subst.
    - apply (frees_slot _ _ _ _ _ g); try done; [split; [done|]; split; [done|]; by right; right|unfold const; by rewrite Ep|rewrite Ep; exact Hw].
    - rewrite (tl_sum_update _ _ g) by done. unfold tl_bytes. cbn. lia. }
  assert (Estep : forall ptrs bytes, bulk_collect (x :: ptrs) bytes found s = (r ← get_run (Some a); if to_be_bulk_freed_ r then bulk_collect ptrs (bytes + bracketSizes (g_idx g)) found
      else set_run a (with_bulk_freed true r);; bulk_collect ptrs (bytes + bracketSizes (g_idx g)) (found ++ [a])) s1).
  { intros ptrs bytes. cbn [bulk_collect]. rewrite bind_gets, bind_check by done. rewrite (bind_done _ _ _ _ _ Er). by rewrite (bind_done _ _ _ _ _ E). }
  unfold found' in *. case_bool_decide as Hin'.
  - assert (Eg : g1 = g2) by (unfold g2, g1; destruct g; cbn in *; by rewrite Hm). exists s1, (<[a := g1]> G). split; [|by apply Hrest].
    intros ptrs bytes. rewrite Estep. rewrite (bind_done _ _ _ _ _ (get_run_done _ _ _ _ _ Hb' Hg1)). cbn [to_be_bulk_freed_ hdr]. rewrite Eg. done.
  - exists (with_runs (<[a := hdr g2]> (runs s1)) s1), (<[a := g2]> G). split.
    + intros ptrs bytes. rewrite Estep. rewrite (bind_done _ _ _ _ _ (get_run_done _ _ _ _ _ Hb' Hg1)). cbn [to_be_bulk_freed_ hdr g1 with_bulk g_marked]. rewrite Hm. done.
    + apply Hrest; try done. assert (Hbh : base (with_runs (<[a := hdr g2]> (runs s1)) s1) l (<[a := g2]> (<[a := g1]> G))) by (apply (put_header _ _ _ _ g1); try done; destruct (base_facts _ _ _ _ _ Hb' Hg1) as (Hk1 & _); apply Hk1).
      by rewrite insert_insert_eq in Hbh.
Qed.

Record frees_all (s : RosAlloc) (l : segs) (G : gmap Z grun) (s' : RosAlloc) (l' : segs) (G' : gmap Z grun) (ptrs : list Z) : Prop := {
  e_live : forall y m, live_in s' l' G' y m <-> live_in s l G y m /\ y ∉ ptrs;
  e_words : forall z m y, live_in s' l' G' z m -> z <= y < z + m -> ld (words (pages s')) y = ld (words (pages s)) y;
  e_const : const s s'
}.
Lemma frees_all_nil s l G s' l' G' : trans s l G s' l' G' -> frees_all s l G s' l' G' [].
Proof.
  intros Ht. split; [|intros z m y Hz; apply (t_live _ _ _ _ _ _ Ht) in Hz; by apply (t_words _ _ _ _ _ _ Ht z m)|apply Ht].
  intros y m. rewrite (t_live _ _ _ _ _ _ Ht). split; [|by intros [? _]]. intros Hl. split; [done|]. by intros ?%elem_of_nil.
Qed.
Lemma frees_all_cons s l G s1 l1 G1 s2 l2 G2 x ptrs : frees s l G s1 l1 G1 x -> frees_all s1 l1 G1 s2 l2 G2 ptrs -> frees_all s l G s2 l2 G2 (x :: ptrs).
Proof.
  intros Hf Ha. split.
  - intros y m. rewrite (e_live _ _ _ _ _ _ _ Ha), (d_live _ _ _ _ _ _ _ Hf), not_elem_of_cons. tauto.
  - intros z m y Hz Hy. rewrite (e_words _ _ _ _ _ _ _ Ha z m y Hz Hy). apply (e_live _ _ _ _ _ _ _ Ha) in Hz as [Hz _]. by apply (d_words _ _ _ _ _ _ _ Hf z m).
  - eapply const_trans; [apply Hf|apply Ha].
Qed.
Lemma frees_all_trans s l G s1 l1 G1 s2 l2 G2 ptrs : frees_all s l G s1 l1 G1 ptrs -> trans s1 l1 G1 s2 l2 G2 -> frees_all s l G s2 l2 G2 ptrs.
Proof.
  intros Hf Ht. split.
  - intros y m. by rewrite (t_live _ _ _ _ _ _ Ht), (e_live _ _ _ _ _ _ _ Hf).
  - intros z m y Hl Hy. apply (t_live _ _ _ _ _ _ Ht) in Hl. by rewrite (t_words _ _ _ _ _ _ Ht z m y Hl Hy), (e_words _ _ _ _ _ _ _ Hf z m).
  - eapply const_trans; [apply Hf|apply Ht].
Qed.

Lemma bulk_collect_spec ptrs : forall ns s l G found bytes, bulk_heap s l G found -> NoDup ptrs -> Forall2 (live_in s l G) ptrs ns ->
  exists s' l' G' found', bulk_collect ptrs bytes found s = Done ((bytes + sumZ id ns, found'), s') /\ bulk_heap s' l' G' found' /\ frees_all s l G s' l' G' ptrs /\ tl_sum G' = tl_sum G.
Proof.
  induction ptrs as [|x ptrs IH]; intros ns s l G found bytes Hh Hnd Hl.
  - apply Forall2_nil_inv_l in Hl as ->. exists s, l, G, found. split; [cbn; by rewrite Z.add_0_r|]. split; [done|]. split; [apply frees_all_nil, trans_refl|done].
  - apply Forall2_cons_inv_l in Hl as (n & ns' & Hx & Hl & ->). apply NoDup_cons in Hnd as [Hxp Hnd].
    assert (Hstep : exists s1 l1 G1 found1, bulk_collect (x :: ptrs) bytes found s = bulk_collect ptrs (bytes + n) found1 s1 /\ bulk_heap s1 l1 G1 found1 /\ frees s l G s1 l1 G1 x /\ tl_sum G1 = tl_sum G).
    { pose proof Hh as [Hb Hix Hown Hfd]. destruct Hx as [(a & g & Hg & Hx & Hxu & ->)|(i & k & Hu & -> & ->)].
      - destruct (bulk_collect_slot s l G found a g x Hh Hg Hx Hxu) as (s1 & G1 & E & Hh1 & Hf1 & Ht1). eexists s1, l, G1, _. split; [apply E|]. done.
      - destruct (run_of_large s l G i k Hb Hu) as (Hin & Er & _). destruct (frees_large s l G i k Hb Hu) as (s1 & l1 & E & (En & Ec & Et) & Hb1 & Hf1).
        exists s1, l1, G, found. split; [|split; [split; [done|by rewrite En, Ec, Et|done|done]|done]].
        cbn [bulk_collect]. rewrite bind_gets, bind_check by done. rewrite (bind_done _ _ _ _ _ Er). by rewrite (bind_done _ _ _ _ _ E). }
    destruct Hstep as (s1 & l1 & G1 & found1 & E1 & Hh1 & Hf1 & Ht1).
    destruct (IH ns' s1 l1 G1 found1 (bytes + n) Hh1 Hnd) as (s' & l' & G' & found' & E & Hh' & Hf & Ht).
    { eapply Forall2_impl; [|exact (fun _ _ H => H)]. apply Forall2_same_length_lookup_2; [by eapply Forall2_length|]. intros j y m Hy Hm. apply (d_live _ _ _ _ _ _ _ Hf1).
      split; [by eapply Forall2_lookup_lr|]. intros ->. apply Hxp. by eapply list_elem_of_lookup_2. }
    exists s', l', G', found'. rewrite E1, E. split; [do 3 f_equal; cbn; unfold id; lia|]. split; [done|]. split; [by eapply frees_all_cons|congruence].
Qed.

(** *** The second loop *)
Lemma bulk_done s l G a found s' l' h : bulk_heap s l G (a :: found) -> indexed s' l' (<[a := h]> G) -> own_ok h -> g_marked h = false -> g_bulk h = [] ->
  bulk_heap s' l' (<[a := h]> G) found.
Proof.
  intros [_ _ Hown [Hnd Hfd]] [Hb' Hx'] Ho Hm Hbk. apply NoDup_cons in Hnd as [Ha Hnd]. split; [done|done| |split; [done|intros b Hin; rewrite lookup_insert_is_Some'; right; apply Hfd; by right]].
  intros b h' Hh'. apply lookup_insert_Some in Hh' as [[<- <-]|[Hne Hh']].
  - rewrite Hm, Hbk, bool_decide_eq_false_2 by done. done.
  - destruct (Hown b h' Hh') as (Ho' & Hm' & Hbk'). split; [done|]. rewrite Hm', <- Hbk'. split; [apply bool_decide_ext|]; rewrite elem_of_cons; naive_solver.
Qed.
Lemma bulk_gone s l G a found s' l' h : bulk_heap s l G (a :: found) -> indexed s' l' (delete a (<[a := h]> G)) -> bulk_heap s' l' (delete a (<[a := h]> G)) found.
Proof.
  intros [_ _ Hown [Hnd Hfd]] [Hb' Hx']. apply NoDup_cons in Hnd as [Ha Hnd]. rewrite delete_insert_eq in *.
  split; [done|done| |split; [done|intros b Hin; rewrite lookup_delete_is_Some; split; [congruence|apply Hfd; by right]]].
  intros b h' Hh'. apply lookup_delete_Some in Hh' as [Hne Hh']. destruct (Hown b h' Hh') as (Ho' & Hm' & Hbk'). split; [done|].
  rewrite Hm', <- Hbk'. split; [apply bool_decide_ext|]; rewrite elem_of_cons; naive_solver.
Qed.
Lemma bulk_settle_spec s0 l0 G0 s l G a g found old : bulk_heap s0 l0 G0 (a :: found) -> G = <[a := g]> G0 -> indexed s l G ->
  is_thread (g_own g) = false -> g_marked g = false -> g_bulk g = [] -> g_free g <> [] -> own_ok (with_free old g) ->
  exists s' l' G', bulk_settle a (g_idx g) (bool_decide (g_own g = OListed)) (bool_decide (old = [])) s = Done (tt, s') /\
    bulk_heap s' l' G' found /\ trans s l G s' l' G' /\ tl_sum G' = tl_sum G.
Proof.
  intros Hu EG Hix Eth Hm Hbk Hf Hown. pose proof Hix as [Hb Hx]. assert (Hg : G !! a = Some g) by (subst G; apply lookup_insert_eq).
  unfold bulk_settle. rewrite (bind_done _ _ _ _ _ (get_run_done _ _ _ _ _ Hb Hg)), bind_gets, (current_iff s G a g Hx Hg).
  unfold IsAllFree. cbn [hdr free_list_ flist size_ size_bracket_idx_]. unfold own_ok in Hown. cbn [g_own with_free g_free] in Hown.
  destruct (Z.eqb_spec (Z.of_nat (length (g_free g))) (numOfSlots (g_idx g))) as [Haf|Haf]; destruct (g_own g) as [t| | |] eqn:Eo; try done.
  - rewrite bool_decide_eq_true_2, (bool_decide_eq_false_2 (OCurrent = OListed)) by done. cbn. exists s, l, G. split; [done|]. split; [|split; [apply trans_refl|done]].
    subst G. apply (bulk_done s0 l0 G0); try done. unfold own_ok. by rewrite Eo.
  - rewrite (bool_decide_eq_false_2 (OListed = OCurrent)), (bool_decide_eq_true_2 (OListed = OListed)), (bool_decide_eq_false_2 (old = [])) by (done || apply Hown). cbn [negb when].
    destruct (free_whole_run s l G a g Hix Hg ltac:(by rewrite Eo) Haf) as (s' & l' & E & Hix' & Ht & Hs). rewrite Eo, (bool_decide_eq_false_2 (OListed = OCurrent)) in E by done.
    exists s', l', (delete a G). split; [|split; [subst G; by apply (bulk_gone s0 l0 G0)|done]]. rewrite bind_assoc, bind_check by done. exact E.
  - rewrite (bool_decide_eq_false_2 (OLoose = OCurrent)), (bool_decide_eq_false_2 (OLoose = OListed)), (bool_decide_eq_true_2 (old = [])) by done. cbn [negb when].
    destruct (release_run s l G a g Hix Hg Eo Haf) as (s' & l' & E & Hix' & Ht & Hs). exists s', l', (delete a G). split; [|split; [subst G; by apply (bulk_gone s0 l0 G0)|done]].
    by rewrite bind_ret.
  - rewrite bool_decide_eq_true_2, (bool_decide_eq_false_2 (OCurrent = OListed)) by done. cbn. exists s, l, G. split; [done|]. split; [|split; [apply trans_refl|done]].
    subst G. apply (bulk_done s0 l0 G0); try done. unfold own_ok. by rewrite Eo.
  - rewrite (bool_decide_eq_false_2 (OListed = OCurrent)), (bool_decide_eq_true_2 (OListed = OListed)), (bool_decide_eq_false_2 (old = [])) by (done || apply Hown).
    exists s, l, G. split; [done|]. split; [|split; [apply trans_refl|done]]. subst G. apply (bulk_done s0 l0 G0); try done. unfold own_ok. by rewrite Eo.
  - rewrite (bool_decide_eq_false_2 (OLoose = OCurrent)), (bool_decide_eq_false_2 (OLoose = OListed)), (bool_decide_eq_true_2 (old = [])) by done. rewrite bind_check by done.
    destruct (list_run s l G a g Hix Hg Eo) as (s' & E & Hix' & Ht & Hs). eexists s', l, _. split; [exact E|]. split; [|done].
    subst G. rewrite insert_insert_eq in *. by apply (bulk_done s0 l0 G0).
Qed.
Lemma bulk_merge_spec s l G a found : bulk_heap s l G (a :: found) ->
  exists s' l' G', bulk_merge a s = Done (tt, s') /\ bulk_heap s' l' G' found /\ trans s l G s' l' G' /\ tl_sum G' = tl_sum G.
Proof.
  intros Hu. pose proof Hu as [Hb Hx Hown [Hnd Hfd]]. destruct (Hfd a ltac:(by left)) as [g Hg]. destruct (Hown a g Hg) as (Ho & Hm & Hbk). rewrite bool_decide_eq_true_2 in Hm by (by left).
  assert (Hne : g_bulk g <> []) by (apply Hbk; by left). destruct (base_facts _ _ _ _ _ Hb Hg) as (Hk & _ & Hi & _). destruct (brackets_ok _ Hi) as (Hbs & _).
  unfold bulk_merge. rewrite (bind_done _ _ _ _ _ (get_run_done _ _ _ _ _ Hb Hg)). cbn [to_be_bulk_freed_ hdr]. rewrite bind_check by done. unfold set_run. rewrite bind_modify.
  set (g0 := with_mark false g). change (with_bulk_freed false (hdr g)) with (hdr g0). set (s0 := with_runs _ s).
  assert (Hb0 : base s0 l (<[a := g0]> G)) by (apply (put_header _ _ _ _ g); try done; apply Hk).
  assert (Hg0 : <[a := g0]> G !! a = Some g0) by apply lookup_insert_eq.
  change (size_bracket_idx_ (hdr g)) with (g_idx g). change (is_thread_local_ (hdr g)) with (is_thread (g_own g)).
  rewrite bind_gets. change (is_non_full s0 (g_idx g) a) with (is_non_full s (g_idx g) a). rewrite (listed_iff s G a g Hx Hg).
  assert (Hw : forall m' g', g_idx g' = g_idx g -> (forall x, x ∈ unused g' <-> x ∈ unused g) -> (forall y, y ∉ unused g -> ld m' y = ld (words (pages s)) y) -> trans s l G (put a m' g' s0) l (<[a := g']> G)).
  { intros m' g' Ei Hun Hm'. apply (trans_run _ _ _ _ _ g); try done. intros y Hy. cbn. apply Hm'. intros Hin. apply (Hy y Hin). lia. }
  destruct (is_thread (g_own g)) eqn:Eth.
  - rewrite bind_check.
    2: { destruct (g_own g) as [t| | |] eqn:Eo; try done. rewrite bool_decide_eq_false_2 by done. rewrite (proj2 (Z.ltb_lt _ _)); [done|]. apply (x_local _ _ _ _ Hx a _ t). by exists g. }
    destruct (MergeBulkFreeListToThreadLocalFreeList_done s0 l _ a g0 Hb0 Hg0 Eth) as (E & Hb' & Hw'). rewrite insert_insert_eq in Hb'.
    eexists _, l, (<[a := with_bulk [] (with_tl (g_bulk g0 ++ g_tl g0) g0)]> G). split; [exact E|]. split; [|split].
    + apply (bulk_done s l G); [done|split; [exact Hb'|by apply (index_same _ _ _ _ _ g)]| |done|done]. unfold own_ok. cbn. by destruct (g_own g).
    + apply Hw; [done| |exact Hw']. intros x. unfold unused. cbn. set_solver.
    + rewrite (tl_sum_update _ _ g) by done. unfold tl_bytes. cbn. lia.
  - destruct (MergeBulkFreeListToFreeList_done s0 l _ a g0 Hb0 Hg0 Eth) as (E & Hb' & Hw'). rewrite insert_insert_eq in Hb'. rewrite (bind_done _ _ _ _ _ E).
    set (g1 := with_bulk [] (with_free (g_bulk g0 ++ g_free g0) g0)) in *. set (s1 := put a _ g1 s0) in *.
    assert (Hx1 : index_ok (thread_runs s1) (current_runs_ s1) (non_full_runs_ s1) (<[a := g1]> G)) by (by apply (index_same _ _ _ _ _ g)).
    destruct (bulk_settle_spec s l G s1 l (<[a := g1]> G) a g1 found (g_free g) Hu eq_refl) as (s' & l' & G' & E' & Hu' & Ht' & Hs'); try done.
    { cbn. by destruct (g_bulk g). } 
    exists s', l', G'. split; [|split; [done|split]].
    + change (g_own g1) with (g_own g) in E'. rewrite <- E'. unfold IsFull. cbn [hdr free_list_ flist size_].
      replace (Z.of_nat (length (g_free g)) =? 0) with (bool_decide (g_free g = [])) by (by destruct (g_free g)). done.
    + apply (trans_trans _ _ _ s1 l (<[a := g1]> G)); [|done]. apply Hw; [done| |exact Hw']. intros x. unfold unused. cbn. set_solver.
    + rewrite Hs'. apply tl_sum_loose; [|done]. intros h Hh. rewrite Hg in Hh. by injection Hh as <-.
Qed.
Lemma bulk_merges_spec found : forall s l G, bulk_heap s l G found ->
  exists s' l' G', mfor found bulk_merge s = Done (tt, s') /\ bulk_heap s' l' G' [] /\ trans s l G s' l' G' /\ tl_sum G' = tl_sum G.
Proof.
  induction found as [|a found IH]; intros s l G Hu; [exists s, l, G; split; [done|split; [done|split; [apply trans_refl|done]]]|].
  destruct (bulk_merge_spec s l G a found Hu) as (s1 & l1 & G1 & E1 & Hu1 & Ht1 & Hs1). destruct (IH s1 l1 G1 Hu1) as (s' & l' & G' & E & Hu' & Ht & Hs).
  exists s', l', G'. cbn [mfor]. rewrite (bind_done _ _ _ _ _ E1), E. split; [done|]. split; [done|]. split; [by eapply trans_trans|congruence].
Qed.
Lemma BulkFree_spec s l G ptrs ns : heap s l G -> NoDup ptrs -> Forall2 (live_in s l G) ptrs ns ->
  exists s' l' G', BulkFree ptrs s = Done (sumZ id ns, s') /\ heap s' l' G' /\ frees_all s l G s' l' G' ptrs /\ tl_sum G' = tl_sum G.
Proof.
  intros Hh%heap_bulk Hnd Hl. destruct (bulk_collect_spec ptrs ns s l G [] 0 Hh Hnd Hl) as (s1 & l1 & G1 & found & E1 & Hu1 & Hf1 & Hs1).
  destruct (bulk_merges_spec found s1 l1 G1 Hu1) as (s' & l' & G' & E & Hu' & Ht & Hs). exists s', l', G'. split; [|split; [by apply heap_bulk|split; [by eapply frees_all_trans|congruence]]].
  unfold BulkFree. rewrite (bind_done _ _ _ _ _ E1), (bind_done _ _ _ _ _ E). done.
Qed.

(** ** Revocation *)
Lemma RevokeRun_spec tr cu s l G a g : indexed_at tr cu s l G -> G !! a = Some g -> g_own g = OLoose -> g_marked g = false -> g_bulk g = [] ->
  (forall b h, b <> a -> G !! b = Some h -> settled h) ->
  exists s' l' G', RevokeRun (g_idx g) a s = Done (tt, s') /\ thread_runs s' = thread_runs s /\ current_runs_ s' = current_runs_ s /\
    indexed_at tr cu s' l' G' /\ all_settled G' /\ trans s l G s' l' G' /\ tl_sum G' = tl_sum G.
Proof.
  intros Hix Hg Eo Hm Hbk Hst. unfold RevokeRun. rewrite (bind_done _ _ _ _ _ (get_run_done _ _ _ _ _ (proj1 Hix) Hg)). unfold IsFull, IsAllFree. cbn [hdr free_list_ flist size_ size_bracket_idx_].
  assert (Hins : forall h, settled h -> all_settled (<[a := h]> G)).
  { intros h Hh b h'. rewrite lookup_insert_Some. intros [[<- <-]|[Hne Hh']]; [done|by apply (Hst b)]. }
  destruct (g_free g) as [|x f] eqn:Ef; [|rewrite <- Ef; change (Z.of_nat (length (x :: f)) =? 0) with false; destruct (Z.eqb_spec (Z.of_nat (length (g_free g))) (numOfSlots (g_idx g))) as [Haf|Haf]].
  - exists s, l, G. repeat (split; [done|]). split; [|split; [apply trans_refl|done]]. rewrite <- (insert_id G a g Hg). apply Hins. split; [done|]. split; [done|]. by rewrite Eo.
  - destruct (release_run_at tr cu s l G a g Hix Hg Eo Haf) as (s' & l' & E & Et & Ec & Hix' & Ht & Hs). rewrite Ef. exists s', l', (delete a G). repeat (split; [done|]).
    split; [|done]. intros b h. rewrite lookup_delete_Some. intros [Hne Hh]. by apply (Hst b).
  - destruct (list_run_at tr cu s l G a g Hix Hg Eo) as (s' & E & Et & Ec & Hix' & Ht & Hs). rewrite Ef. eexists s', l, _. repeat (split; [done|]). split; [|done].
    apply Hins. split; [done|]. split; [done|]. cbn. split; [by rewrite Ef|]. exact Haf.
Qed.
Lemma revoke_current_run_spec s l G idx : heap s l G ->
  exists s' l' G', revoke_current_run idx s = Done (tt, s') /\ heap s' l' G' /\ trans s l G s' l' G' /\ tl_sum G' = tl_sum G /\
    thread_runs s' = thread_runs s /\ current_runs_ s' = partial_alter (fun _ => None) idx (current_runs_ s).
Proof.
  intros [Hb Hx Hst]. unfold revoke_current_run. rewrite bind_gets. destruct (current_runs_ s !! idx) as [a|] eqn:Ec.
  - pose proof Ec as (g & Hg & Ei & Eo)%(x_current _ _ _ _ Hx). destruct (Hst a g Hg) as (Hm & Hbk & _).
    set (cu := partial_alter (fun _ => None) idx (current_runs_ s)). set (g0 := with_own OLoose g).
    destruct (RevokeRun_spec (thread_runs s) cu s l (<[a := g0]> G) a g0) as (s1 & l1 & G1 & E1 & Et1 & Ec1 & Hix1 & Hst1 & Ht1 & Hs1); try done.
    { split; [apply base_own; try done; by rewrite Eo|]. unfold cu. rewrite <- Ei. by apply index_uncurrent. } { apply lookup_insert_eq. }
    { intros b h Hne Hh. rewrite lookup_insert_ne in Hh by done. by apply (Hst b). }
    change (g_idx g0) with (g_idx g) in E1. rewrite Ei in E1. rewrite (bind_done _ _ _ _ _ E1). eexists _, l1, G1. split; [reflexivity|]. destruct Hix1 as [Hb1 Hx1]. split; [|split; [|split]].
    + split; [by apply (base_index s1)|cbn; by rewrite Et1, Ec1|done].
    + eapply trans_trans; [by apply (trans_own s s l G a g OLoose)|]. eapply trans_trans; [exact Ht1|]. by apply trans_index.
    + rewrite Hs1. apply tl_sum_loose; [|done]. intros h Hh. rewrite Hg in Hh. injection Hh as <-. by rewrite Eo.
    + cbn. by rewrite Ec1.
  - exists s, l, G. split; [done|]. split; [done|]. split; [apply trans_refl|]. split; [done|]. split; [done|]. apply map_eq. intros i.
    destruct (decide (i = idx)) as [->|]; [by rewrite lookup_partial_alter_eq|by rewrite lookup_partial_alter_ne].
Qed.
Lemma revoke_thread_run_spec s l G t idx : heap s l G ->
  exists n s' l' G', revoke_thread_run t idx s = Done (n, s') /\ heap s' l' G' /\ trans s l G s' l' G' /\ tl_sum G = tl_sum G' + n /\
    current_runs_ s' = current_runs_ s /\ thread_runs s' = partial_alter (fun _ => None) (t, idx) (thread_runs s).
Proof.
  intros Hh. pose proof Hh as [Hb Hx Hst]. unfold revoke_thread_run. rewrite bind_gets. destruct (thread_runs s !! (t, idx)) as [a|] eqn:Ec.
  - destruct (thread_owned _ _ _ _ _ _ Hh Ec) as (g & Hg & Ei & Eo). destruct (Hst a g Hg) as (Hm & Hbk & _). destruct (base_facts _ _ _ _ _ Hb Hg) as (_ & _ & Hi & _).
    rewrite (bind_done _ _ _ _ _ (get_run_done _ _ _ _ _ Hb Hg)). cbn [is_thread_local_ hdr]. rewrite bind_check by (by rewrite Eo). unfold SetRosAllocRun. rewrite bind_modify.
    set (tr := partial_alter (fun _ => None) (t, idx) (thread_runs s)). set (s1 := with_thread_runs tr s). assert (Hb1 : base s1 l G) by (by apply (base_index s)).
    destruct (MergeThreadLocalFreeListToFreeList_done s1 l G a g Hb1 Hg ltac:(by rewrite Eo)) as (E2 & Hb2 & Hw2). set (g1 := with_tl [] (with_free (g_tl g ++ g_free g) g)) in *. set (s2 := put a _ g1 s1) in *.
    rewrite (bind_done _ _ _ _ _ E2). assert (Hg2 : <[a := g1]> G !! a = Some g1) by apply lookup_insert_eq. rewrite (bind_done _ _ _ _ _ (get_run_done _ _ _ _ _ Hb2 Hg2)).
    set (g3 := with_own OLoose g1). change (SetIsThreadLocal false (hdr g1)) with (hdr g3). unfold set_run. rewrite bind_modify. set (s3 := with_runs _ s2). rewrite bind_gets.
    assert (Hb3 : base s3 l (<[a := g3]> G)) by (rewrite <- (insert_insert_eq G a g3 g1); by apply (put_header _ _ _ _ g1)).
    assert (Hx3 : index_ok tr (current_runs_ s) (non_full_runs_ s) (<[a := g3]> G)).
    { rewrite <- (insert_insert_eq G a g3 (with_own OLoose g)). apply (index_same _ _ _ _ _ (with_own OLoose g)); try done; [|apply lookup_insert_eq]. unfold tr. rewrite <- Ei. by apply index_unthread. }
    rewrite bind_check.
    2: { unfold is_non_full. rewrite bool_decide_eq_false_2; [done|]. apply (index_not_listed _ _ _ _ _ _ Hx Hg). by rewrite Eo. }
    destruct (RevokeRun_spec tr (current_runs_ s) s3 l (<[a := g3]> G) a g3) as (s4 & l4 & G4 & E4 & Et4 & Ec4 & Hix4 & Hst4 & Ht4 & Hs4); try done; [apply lookup_insert_eq|..].
    { intros b h Hne Hh'. rewrite lookup_insert_ne in Hh' by done. by apply (Hst b). }
    change (g_idx g3) with (g_idx g) in E4. rewrite Ei in E4. rewrite (bind_done _ _ _ _ _ E4). eexists _, s4, l4, G4. split; [reflexivity|]. destruct Hix4 as [Hb4 Hx4]. split; [|split; [|split]].
    + split; [done|rewrite Et4, Ec4; exact Hx4|done].
    + eapply trans_trans; [|exact Ht4]. apply (trans_run _ _ _ _ _ g); try done; [intros x; unfold unused; cbn; set_solver|].
      intros y Hy. cbn. apply Hw2. intros Hin. apply (Hy y Hin). destruct (brackets_ok _ Hi). lia.
    + rewrite Hs4, (tl_sum_update _ _ g) by done. unfold tl_bytes, NumberOfFreeSlots. cbn [hdr free_list_ flist size_ g3 with_own g_own g1 with_tl with_free is_thread]. rewrite Eo, Ei. cbn [is_thread]. lia.
    + by rewrite Ec4, Et4.
  - exists 0, s, l, G. split; [done|]. split; [done|]. split; [apply trans_refl|]. split; [lia|]. split; [done|]. apply map_eq. intros i.
    destruct (decide (i = (t, idx))) as [->|]; [by rewrite lookup_partial_alter_eq|by rewrite lookup_partial_alter_ne].
Qed.
Lemma revoke_thread_runs_spec t idxs : forall s l G, heap s l G ->
  exists n s' l' G', revoke_thread_runs t idxs s = Done (n, s') /\ heap s' l' G' /\ trans s l G s' l' G' /\ tl_sum G = tl_sum G' + n /\ current_runs_ s' = current_runs_ s /\
    forall u i, thread_runs s' !! (u, i) = if bool_decide (u = t /\ i ∈ idxs) then None else thread_runs s !! (u, i).
Proof.
  induction idxs as [|idx idxs IH]; intros s l G Hh.
  - exists 0, s, l, G. split; [done|]. split; [done|]. split; [apply trans_refl|]. split; [lia|]. split; [done|]. intros u i. rewrite bool_decide_eq_false_2; [done|]. by intros [_ ?%elem_of_nil].
  - destruct (revoke_thread_run_spec s l G t idx Hh) as (n1 & s1 & l1 & G1 & E1 & Hh1 & Ht1 & Hs1 & Ec1 & Et1).
    destruct (IH s1 l1 G1 Hh1) as (n & s' & l' & G' & E & Hh' & Ht & Hs & Ec & Et). cbn [revoke_thread_runs]. rewrite (bind_done _ _ _ _ _ E1), (bind_done _ _ _ _ _ E).
    exists (n1 + n), s', l', G'. split; [done|]. split; [done|]. split; [by eapply trans_trans|]. split; [lia|]. split; [congruence|]. intros u i. rewrite Et, Et1.
    destruct (decide ((u, i) = (t, idx))) as [[= -> ->]|Hne].
    + rewrite lookup_partial_alter_eq, (bool_decide_eq_true_2 (_ /\ _ ∈ idx :: _)) by (split; [done|by left]). by case_bool_decide.
    + rewrite lookup_partial_alter_ne by done. erewrite (bool_decide_ext (u = t /\ i ∈ idx :: idxs)); [done|]. rewrite elem_of_cons. naive_solver.
Qed.
Lemma RevokeThreadLocalRuns_spec s l G t : heap s l G ->
  exists n s' l' G', RevokeThreadLocalRuns t s = Done (n, s') /\ heap s' l' G' /\ trans s l G s' l' G' /\ tl_sum G = tl_sum G' + n /\ current_runs_ s' = current_runs_ s /\
    forall u i, thread_runs s' !! (u, i) = if u =? t then None else thread_runs s !! (u, i).
Proof.
  intros Hh. destruct (revoke_thread_runs_spec t thread_brackets s l G Hh) as (n & s' & l' & G' & E & Hh' & Ht & Hs & Ec & Et). exists n, s', l', G'. repeat (split; [done|]).
  intros u i. rewrite Et. destruct (Z.eqb_spec u t) as [->|Hne]; [|by rewrite bool_decide_eq_false_2 by (by intros [? _])]. case_bool_decide as Hd; [done|].
  destruct (thread_runs s !! (t, i)) as [a|] eqn:Ea; [|done]. destruct (thread_owned _ _ _ _ _ _ Hh Ea) as (g & Hg & Ei & Eo). destruct Hd. split; [done|]. apply elem_of_seqZ.
  destruct (base_facts _ _ _ _ _ (h_base _ _ _ Hh) Hg) as (_ & _ & Hi & _). pose proof (x_local _ _ _ _ (h_index _ _ _ Hh) a i t ltac:(by exists g)). lia.
Qed.
Lemma revoke_threads_spec ts : forall s l G, heap s l G ->
  exists n s' l' G', revoke_threads ts s = Done (n, s') /\ heap s' l' G' /\ trans s l G s' l' G' /\ tl_sum G = tl_sum G' + n /\ current_runs_ s' = current_runs_ s /\
    forall u i, thread_runs s' !! (u, i) = if bool_decide (u ∈ ts) then None else thread_runs s !! (u, i).
Proof.
  induction ts as [|t ts IH]; intros s l G Hh.
  - exists 0, s, l, G. split; [done|]. split; [done|]. split; [apply trans_refl|]. split; [lia|]. split; [done|]. intros u i. rewrite bool_decide_eq_false_2; [done|]. by intros ?%elem_of_nil.
  - destruct (RevokeThreadLocalRuns_spec s l G t Hh) as (n1 & s1 & l1 & G1 & E1 & Hh1 & Ht1 & Hs1 & Ec1 & Et1).
    destruct (IH s1 l1 G1 Hh1) as (n & s' & l' & G' & E & Hh' & Ht & Hs & Ec & Et). cbn [revoke_threads]. rewrite (bind_done _ _ _ _ _ E1), (bind_done _ _ _ _ _ E).
    exists (n1 + n), s', l', G'. split; [done|]. split; [done|]. split; [by eapply trans_trans|]. split; [lia|]. split; [congruence|]. intros u i. rewrite Et, Et1.
    destruct (Z.eqb_spec u t) as [->|Hne].
    + rewrite (bool_decide_eq_true_2 (t ∈ t :: ts)) by (by left). by case_bool_decide.
    + erewrite (bool_decide_ext (u ∈ t :: ts)); [done|]. rewrite elem_of_cons. naive_solver.
Qed.
Lemma revoke_current_spec idxs : forall s l G, heap s l G ->
  exists s' l' G', mfor idxs revoke_current_run s = Done (tt, s') /\ heap s' l' G' /\ trans s l G s' l' G' /\ tl_sum G' = tl_sum G /\ thread_runs s' = thread_runs s /\
    forall i, current_runs_ s' !! i = if bool_decide (i ∈ idxs) then None else current_runs_ s !! i.
Proof.
  induction idxs as [|idx idxs IH]; intros s l G Hh.
  - exists s, l, G. split; [done|]. split; [done|]. split; [apply trans_refl|]. split; [done|]. split; [done|]. intros i. rewrite bool_decide_eq_false_2; [done|]. by intros ?%elem_of_nil.
  - destruct (revoke_current_run_spec s l G idx Hh) as (s1 & l1 & G1 & E1 & Hh1 & Ht1 & Hs1 & Et1 & Ec1).
    destruct (IH s1 l1 G1 Hh1) as (s' & l' & G' & E & Hh' & Ht & Hs & Et & Ec). cbn [mfor]. rewrite (bind_done _ _ _ _ _ E1), E.
    exists s', l', G'. split; [done|]. split; [done|]. split; [by eapply trans_trans|]. split; [congruence|]. split; [congruence|]. intros i. rewrite Ec, Ec1.
    destruct (decide (i = idx)) as [->|Hne].
    + rewrite lookup_partial_alter_eq, (bool_decide_eq_true_2 (idx ∈ idx :: _)) by (by left). by case_bool_decide.
    + rewrite lookup_partial_alter_ne by done. erewrite (bool_decide_ext (i ∈ idx :: idxs)); [done|]. rewrite elem_of_cons. naive_solver.
Qed.
Lemma RevokeAllThreadLocalRuns_spec s l G ts : heap s l G ->
  exists n s' l' G', RevokeAllThreadLocalRuns ts s = Done (n, s') /\ heap s' l' G' /\ trans s l G s' l' G' /\ tl_sum G = tl_sum G' + n /\
    (forall u i, thread_runs s' !! (u, i) = if bool_decide (u ∈ ts) then None else thread_runs s !! (u, i)) /\
    (forall i, current_runs_ s' !! i = if bool_decide (i ∈ thread_brackets) then None else current_runs_ s !! i).
Proof.
  intros Hh. destruct (revoke_threads_spec ts s l G Hh) as (n & s1 & l1 & G1 & E1 & Hh1 & Ht1 & Hs1 & Ec1 & Et1).
  destruct (revoke_current_spec thread_brackets s1 l1 G1 Hh1) as (s' & l' & G' & E & Hh' & Ht & Hs & Et & Ec).
  exists n, s', l', G'. unfold RevokeAllThreadLocalRuns. rewrite (bind_done _ _ _ _ _ E1). unfold RevokeThreadUnsafeCurrentRuns. rewrite (bind_done _ _ _ _ _ E).
  split; [done|]. split; [done|]. split; [by eapply trans_trans|]. split; [lia|]. split; [intros u i; by rewrite Et|]. intros i. by rewrite Ec, Ec1.
Qed.

(** ** The footprint *)
Lemma heap_pages s l G p' l' : heap s l G -> pages_inv p' l' -> base_ p' = base_ (pages s) -> max_capacity_ p' = max_capacity_ (pages s) -> page_release_mode_ p' = page_release_mode_ (pages s) ->
  (forall y, ld (words p') y = ld (words (pages s)) y) -> (forall i k n, used_at l' i k n <-> used_at l i k n) ->
  heap (with_pages p' s) l' G /\ trans s l G (with_pages p' s) l' G.
Proof.
  intros [Hb Hx Hst] Hi Eb Em Er Hw Hu. split; [split; [|done|done]|].
  - assert (Ha : forall j, addr p' j = addr (pages s) j) by (intros j; unfold addr; by rewrite Eb). split; cbn.
    + done.
    + apply Hb.
    + intros a g Hg. destruct (base_facts _ _ _ _ _ Hb Hg) as (Hk & Ha0 & _). apply (slots_ok_ext (words (pages s))); [|done|done]. intros y Hy. apply Hw.
    + intros a g Hg. destruct (b_used _ _ _ Hb _ _ Hg) as (i & Ea & Hi'). exists i. rewrite Ha, Hu. done.
    + intros i n Hn. rewrite Hu in Hn. rewrite Ha. by eapply (b_only _ _ _ Hb).
  - split; [|intros; apply Hw|done]. intros x n. unfold live_in, addr. cbn. rewrite Eb. by setoid_rewrite Hu.
Qed.
Lemma Trim_heap s l G : heap s l G -> exists b s' l', in_pages Trim s = Done (b, s') /\ heap s' l' G /\ trans s l G s' l' G.
Proof.
  intros Hh. destruct (Trim_used _ _ (b_pages _ _ _ (h_base _ _ _ Hh))) as (b & p' & l' & E & Hi & (Eb & _ & Em & Er & _) & Hw & _ & Hu). exists b, (with_pages p' s), l'.
  split; [unfold in_pages; by rewrite E|]. apply heap_pages; try done. intros y. by rewrite Hw.
Qed.
Lemma SetFootprintLimit_heap s l G c : heap s l G -> 0 <= c -> c mod kPageSize = 0 -> c <= max_capacity_ (pages s) ->
  exists s', in_pages (SetFootprintLimit c) s = Done (tt, s') /\ heap s' l G /\ trans s l G s' l G /\ capacity_ (pages s') = Z.max (capacity_ (pages s)) c.
Proof.
  intros Hh H0 Hc Hm. destruct (SetFootprintLimit_spec _ _ c (b_pages _ _ _ (h_base _ _ _ Hh)) H0 Hc Hm) as [E Hi]. eexists. split; [unfold in_pages; by rewrite E|].
  apply and_assoc. split; [apply heap_pages; try done; by destruct (capacity_ (pages s) <? c)|]. cbn. destruct (Z.ltb_spec (capacity_ (pages s)) c); cbn; lia.
Qed.
Lemma ReleasePages_heap s l G : heap s l G -> page_release_mode_ (pages s) <> kPageReleaseModeAll ->
  exists n s', in_pages ReleasePages s = Done (n, s') /\ heap s' l G /\ trans s l G s' l G.
Proof.
  intros Hh Hm. destruct (ReleasePages_spec _ _ (b_pages _ _ _ (h_base _ _ _ Hh)) Hm) as (p' & E & Hi & (Eb & _ & Em & Er & _) & _ & Hw & _). eexists _, (with_pages p' s).
  split; [unfold in_pages; by rewrite E|]. by apply heap_pages.
Qed.

(** ** [UsableSize] *)
Lemma UsableSize_spec s l G x n : base s l G -> live_in s l G x n -> UsableSize x s = Done (n, s).
Proof.
  intros Hb Hl. unfold UsableSize. rewrite bind_gets. destruct Hl as [(a & g & Hg & Hx & Hxu & ->)|(i & k & Hu & -> & ->)].
  - pose proof (slot_in_run _ _ _ _ _ _ Hb Hg Hx). destruct (run_of_run s l G a g x Hb Hg ltac:(lia)) as [Hin Er].
    rewrite bind_check by done. rewrite (bind_done _ _ _ _ _ Er), (bind_done _ _ _ _ _ (get_run_done _ _ _ _ _ Hb Hg)). cbn [size_bracket_idx_ hdr FirstSlot].
    rewrite bind_check; [done|]. apply elem_of_slots in Hx as (k & _ & ->). apply Z.eqb_eq. unfold FirstSlot. cbn.
    replace (a + headerSizes (g_idx g) + k * bracketSizes (g_idx g) - (a + headerSizes (g_idx g))) with (k * bracketSizes (g_idx g)) by lia. apply Z.mod_mul. lia.
  - destruct (run_of_large s l G i k Hb Hu) as (Hin & Er & Ei). rewrite bind_check by done. rewrite (bind_done _ _ _ _ _ Er), (bind_done _ _ _ _ _ Ei).
    unfold gets. by rewrite (large_pages_done _ l i k (b_pages _ _ _ Hb) Hu).
Qed.
