(* ===== verification/RosAllocSpec.v ===== *)
(** What RosAlloc promises, and that it spares it.

    The specification knows the blocks in use with their sizes and contents, the
    bytes that have been reported as allocated and not yet as freed, and the
    threads that may own runs.  [spec_next] says which replies to a call are
    right and what they change.  [conform] runs the allocator and the
    specification side by side. *)
From stdpp Require Import prelude gmap list.
From Stdlib Require Import ZArith Lia.
From S2P Require Import Prelude BitUtils RosAlloc RosAllocPages RosAllocFreePages RosAllocSegments RosAllocSlots RosAllocRuns RosAllocIndex RosAllocAlloc RosAllocFree.
Import RosAlloc.
Open Scope Z_scope.

(** ** The runs of the other threads

    An operation of thread [self] does not change the runs of other threads. *)
Definition others (self : Z) (s s' : RosAlloc) : Prop := forall t i, t <> self -> thread_runs s' !! (t, i) = thread_runs s !! (t, i).
Definition spares (self : Z) {A} (m : M RosAlloc A) : Prop := forall s a s', m s = Done (a, s') -> others self s s'.
Section Keeps.
Context (self : Z).
Lemma spares_ret {A} (a : A) : spares self (mret a).
Proof. by intros s ? s' [= _ <-]. Qed.
Lemma spares_bind {A B} (m : M RosAlloc A) (k : A -> M RosAlloc B) : spares self m -> (forall a, spares self (k a)) -> spares self (m ≫= k).
Proof.
  intros Hm Hk s b s' E. unfold mbind, M_bind in E. destruct (m s) as [[a s1]| | |] eqn:Em; try done. cbn in E. intros t i Ht. rewrite (Hk a s1 b s' E t i Ht). by apply (Hm s a s1 Em).
Qed.
Lemma spares_gets {A} (f : RosAlloc -> A) : spares self (gets f).
Proof. by intros s ? s' [= _ <-]. Qed.
Lemma spares_check b : spares self (check b).
Proof. intros s ? s' E. destruct b; [|done]. by injection E as _ <-. Qed.
Lemma spares_abort {A} : spares self (abort : M RosAlloc A).
Proof. done. Qed.
Lemma spares_fault {A} : spares self (fault : M RosAlloc A).
Proof. done. Qed.
Lemma spares_diverge {A} : spares self (fun _ => Diverged : outcome (A * RosAlloc)).
Proof. done. Qed.
Lemma spares_in_pages {A} (f : M Pages A) : spares self (in_pages f).
Proof. intros s a s' E. unfold in_pages in E. destruct (f (pages s)) as [[b p]| | |]; try done. by injection E as _ <-. Qed.
Lemma spares_on_words {A} (f : gmap Z Z -> outcome (A * gmap Z Z)) : spares self (on_words f).
Proof. intros s a s' E. unfold on_words in E. destruct (f _) as [[b m]| | |]; try done. by injection E as _ <-. Qed.
Lemma spares_modify f : (forall s, thread_runs (f s) = thread_runs s) -> spares self (modify f).
Proof. intros Hf s ? s' [= _ <-] t i _. by rewrite Hf. Qed.
Lemma spares_own idx run : spares self (SetRosAllocRun self idx run).
Proof. intros s ? s' [= _ <-] t i Ht. cbn. rewrite lookup_partial_alter_ne; [done|congruence]. Qed.
Lemma spares_mfor {A} (l : list A) body : (forall a, spares self (body a)) -> spares self (mfor l body).
Proof. intros Hb. induction l as [|a l IH]; [apply spares_ret|]. cbn [mfor]. by apply spares_bind; [|intros _]. Qed.
Lemma spares_get_run run : spares self (get_run run).
Proof. destruct run as [a|]; [|apply spares_ret]. apply spares_bind; [apply spares_gets|]. intros [r|]; [apply spares_ret|apply spares_fault]. Qed.
End Keeps.
Ltac spares_tac :=
  repeat first
    [ progress cbv zeta | solve [auto] | apply spares_ret | apply spares_check | apply spares_gets | apply spares_abort | apply spares_fault | apply spares_diverge | apply spares_in_pages
    | apply spares_on_words | apply spares_own | apply spares_get_run | apply spares_modify; done | apply spares_mfor; intros ? | apply spares_bind; [|intros ?]
    | match goal with |- spares _ (match ?x with _ => _ end) => destruct x | |- spares _ (when ?b _) => destruct b end ].
Lemma spares_run_start self fuel : forall i, spares self (run_start fuel i).
Proof. induction fuel as [|fuel IH]; intros i; cbn [run_start]; spares_tac. Qed.
Lemma spares_RefillRun self idx : spares self (RefillRun idx).
Proof. unfold RefillRun, AllocRun, InitFreeList, set_run, erase_non_full. spares_tac. Qed.
Lemma spares_AllocSlot self run : spares self (AllocSlot run).
Proof. unfold AllocSlot, set_run. spares_tac. Qed.
Lemma spares_alloc_refilled self idx run b : spares self (alloc_refilled idx run b).
Proof. unfold alloc_refilled, set_run. spares_tac. Qed.
Lemma spares_current self idx : spares self (AllocFromCurrentRunUnlocked idx).
Proof.
  pose proof (spares_RefillRun self). pose proof (spares_AllocSlot self). pose proof (spares_alloc_refilled self). unfold AllocFromCurrentRunUnlocked, set_current. spares_tac.
Qed.
Lemma spares_refill self idx run : spares self (refill_thread_run self idx run).
Proof.
  pose proof (spares_RefillRun self). pose proof (spares_alloc_refilled self). unfold refill_thread_run, drop_thread_run, MergeThreadLocalFreeListToFreeList, set_run. spares_tac.
Qed.
Lemma spares_Alloc self safe size : spares self (Alloc safe self size).
Proof.
  pose proof (spares_current self). pose proof (spares_AllocSlot self). pose proof (spares_refill self). unfold Alloc, AllocLargeObject, AllocFromRun, AllocFromRunThreadUnsafe. spares_tac.
Qed.
(** Only [AllocFromRun] gives a thread a run. *)
Lemma spares_Alloc_other self t size (safe : bool) : 0 < size -> safe && IsSizeForThreadLocal size = false -> spares t (Alloc safe self size).
Proof.
  intros H0 Hs. pose proof (spares_current t). unfold Alloc, AllocLargeObject, AllocFromRun, AllocFromRunThreadUnsafe.
  destruct (Z.ltb_spec kLargeSizeThreshold size); [spares_tac|]. destruct (sizes_ok size ltac:(lia)) as (idx & -> & _ & _ & _ & _ & -> & _).
  destruct safe; [cbn in Hs; rewrite Hs|]; spares_tac.
Qed.
Lemma spares_AllocFromThreadLocalRun t self size : spares t (AllocFromThreadLocalRun self size).
Proof. pose proof (spares_AllocSlot t). unfold AllocFromThreadLocalRun. spares_tac. Qed.
Lemma spares_free_run t run : spares t (free_run run).
Proof. unfold free_run, ZeroHeaderAndSlotHeaders. spares_tac. Qed.
Lemma spares_run_of t ptr : spares t (run_of ptr).
Proof. pose proof (spares_run_start t). unfold run_of. spares_tac. Qed.
Lemma spares_Free t ptr : spares t (Free ptr).
Proof.
  pose proof (spares_free_run t). pose proof (spares_run_of t).
  unfold Free, FreeInternal, FreeFromRun, AddToThreadLocalFreeList, FreeSlot, ToSlot, zero_slot, set_run, erase_non_full, insert_non_full, set_current. spares_tac.
Qed.
Lemma spares_BulkFree t ptrs : spares t (BulkFree ptrs).
Proof.
  pose proof (spares_free_run t). pose proof (spares_run_of t).
  assert (Hm : forall run, spares t (bulk_merge run)).
  { intros run. unfold bulk_merge, bulk_settle, MergeBulkFreeListToThreadLocalFreeList, MergeBulkFreeListToFreeList, set_run, erase_non_full, insert_non_full. spares_tac. }
  assert (Hc : forall ptrs bytes found, spares t (bulk_collect ptrs bytes found)).
  { clear ptrs. induction ptrs as [|ptr ptrs IH]; intros bytes found; cbn [bulk_collect]; unfold AddToBulkFreeList, ToSlot, zero_slot, set_run; spares_tac. }
  unfold BulkFree. spares_tac.
Qed.

(** ** Calls *)
Inductive call :=
  | CAlloc (kThreadSafe : bool) (self size : Z)
  | CAllocLocal (self size : Z)
  | CFree (ptr : Z)
  | CBulkFree (ptrs : list Z)
  | CUsableSize (ptr : Z)
  | CRevoke (thread : Z)
  | CRevokeCurrent
  | CRevokeAll (threads : list Z)
  | CTrim
  | CSetFootprintLimit (new_capacity : Z)
  | CReleasePages
  | CRead (a : Z)                     (* the mutator's loads and stores *)
  | CWrite (a v : Z).
Inductive reply :=
  | RBlock (r : option allocation)
  | RLocal (r : option (Z * Z))
  | RBytes (n : Z)
  | RTrimmed (b : bool)
  | RUnit.
Definition exec (c : call) : M RosAlloc reply :=
  match c with
  | CAlloc safe self size => r ← Alloc safe self size; mret (RBlock r)
  | CAllocLocal self size => r ← AllocFromThreadLocalRun self size; mret (RLocal r)
  | CFree ptr => n ← Free ptr; mret (RBytes n)
  | CBulkFree ptrs => n ← BulkFree ptrs; mret (RBytes n)
  | CUsableSize ptr => n ← UsableSize ptr; mret (RBytes n)
  | CRevoke thread => n ← RevokeThreadLocalRuns thread; mret (RBytes n)
  | CRevokeCurrent => RevokeThreadUnsafeCurrentRuns;; mret RUnit
  | CRevokeAll threads => n ← RevokeAllThreadLocalRuns threads; mret (RBytes n)
  | CTrim => b ← in_pages Trim; mret (RTrimmed b)
  | CSetFootprintLimit c => in_pages (SetFootprintLimit c);; mret RUnit
  | CReleasePages => n ← in_pages ReleasePages; mret (RBytes n)
  | CRead a => v ← gets (fun s => ld (words (pages s)) a); mret (RBytes v)
  | CWrite a v => on_words (fun m => Done (tt, st m a v));; mret RUnit
  end.

(** ** The specification *)
Record astate := mkA { blocks : gmap Z Z; contents : Z -> Z; committed : Z; locals : gset Z }.
Definition total (b : gmap Z Z) : Z := msum id b.
Definition sizes (b : gmap Z Z) (ptrs : list Z) : Z := sumZ (fun x => default 0 (b !! x)) ptrs.
Definition remove_all (b : gmap Z Z) (ptrs : list Z) : gmap Z Z := filter (fun kv => kv.1 ∉ ptrs) b.
Definition in_block (b : gmap Z Z) (a : Z) : bool := existsb (fun '(x, n) => (x <=? a) && (a <? x + n)) (map_to_list b).

Section Spec.
(** The heap's first address, its maximal capacity and its page release mode. *)
Context (lo max : Z) (mode : PageReleaseMode).

(** A block that is aligned, in the heap, and apart from the blocks in use. *)
Definition new_block (b : gmap Z Z) (x n : Z) : bool :=
  (x mod 8 =? 0) && (lo <=? x) && (x + n <=? lo + max) && forallb (fun '(y, m) => (y + m <=? x) || (x + n <=? y)) (map_to_list b).
(** What is reported covers the blocks, exactly when no thread owns a run. *)
Definition accounted (a : astate) : bool :=
  (total (blocks a) <=? committed a) && (bool_decide (locals a <> ∅) || (committed a =? total (blocks a))).

Definition allowed (a : astate) (c : call) : bool :=
  match c with
  | CAlloc _ _ size => (0 <? size) && (size + kPageSize <=? 2 ^ 64)
  | CAllocLocal _ size => (0 <? size) && (size <=? kMaxThreadLocalBracketSize)
  | CFree ptr | CUsableSize ptr => bool_decide (is_Some (blocks a !! ptr))
  | CBulkFree ptrs => bool_decide (NoDup ptrs) && forallb (fun x => bool_decide (is_Some (blocks a !! x))) ptrs
  | CSetFootprintLimit c => (0 <=? c) && (c mod kPageSize =? 0) && (c <=? max)
  | CReleasePages => bool_decide (mode <> kPageReleaseModeAll)
  | CRead y | CWrite y _ => in_block (blocks a) y
  | _ => true
  end.
(** The new block has zeros, and [bytes] are reported. *)
Definition add_block (a : astate) (x n size bytes : Z) (locals' : gset Z) : option astate :=
  if new_block (blocks a) x n && (n =? block_size size) && (size <=? n)
  then Some (mkA (<[x := n]> (blocks a)) (fun y => if (x <=? y) && (y <? x + n) then 0 else contents a y) (committed a + bytes) locals')
  else None.
Definition spec_step (a : astate) (c : call) (r : reply) : option astate :=
  match c, r with
  | CAlloc safe self size, RBlock r =>
      let locals' := if safe && IsSizeForThreadLocal size then {[ self ]} ∪ locals a else locals a in
      match r with
      | None => Some (mkA (blocks a) (contents a) (committed a) locals')
      | Some al => if bytes_allocated al =? usable_size al
                   then add_block a (alloc_addr al) (usable_size al) size (bytes_tl_bulk_allocated al) locals' else None
      end
  | CAllocLocal self size, RLocal r =>
      match r with None => Some a | Some (x, n) => add_block a x n size 0 (locals a) end
  | CFree ptr, RBytes n =>
      if bool_decide (blocks a !! ptr = Some n) then Some (mkA (delete ptr (blocks a)) (contents a) (committed a - n) (locals a)) else None
  | CBulkFree ptrs, RBytes n =>
      if n =? sizes (blocks a) ptrs then Some (mkA (remove_all (blocks a) ptrs) (contents a) (committed a - n) (locals a)) else None
  | CUsableSize ptr, RBytes n => if bool_decide (blocks a !! ptr = Some n) then Some a else None
  | CRevoke thread, RBytes n => Some (mkA (blocks a) (contents a) (committed a - n) (locals a ∖ {[ thread ]}))
  | CRevokeAll threads, RBytes n => Some (mkA (blocks a) (contents a) (committed a - n) (locals a ∖ list_to_set threads))
  | CRevokeCurrent, RUnit | CTrim, RTrimmed _ | CSetFootprintLimit _, RUnit | CReleasePages, RBytes _ => Some a
  | CRead y, RBytes v => if v =? contents a y then Some a else None
  | CWrite y v, RUnit => Some (mkA (blocks a) (fun z => if z =? y then v else contents a z) (committed a) (locals a))
  | _, _ => None
  end.
Definition spec_next (a : astate) (c : call) (r : reply) : option astate :=
  a' ← spec_step a c r; if accounted a' then Some a' else None.

(** An allocation fails only where there is no memory for it. *)
Definition justified (s : RosAlloc) (c : call) (r : reply) : Prop :=
  match c, r with
  | CAlloc safe self size, RBlock None => out_of_memory s safe self size
  | CAllocLocal self size, RLocal None => exists r, get_run (thread_runs s !! (self, SizeToIndex size)) s = Done (r, s) /\ IsFull r = true
  | _, _ => True
  end.
(** Every call that is allowed is answered, with a reply that is right. *)
Fixpoint conform (s : RosAlloc) (a : astate) (calls : list call) : Prop :=
  match calls with
  | [] => True
  | c :: calls =>
      allowed a c = true ->
      exists r s' a', exec c s = Done (r, s') /\ spec_next a c r = Some a' /\ justified s c r /\ conform s' a' calls
  end.
Definition spec_init : astate := mkA ∅ (fun _ => 0) 0 ∅.

(** ** The simulation *)
Record sim_at (s : RosAlloc) (a : astate) (l : segs) (G : gmap Z grun) : Prop := {
  m_heap : heap s l G;
  m_blocks : forall x n, blocks a !! x = Some n <-> live_in s l G x n;
  m_contents : forall x n y, live_in s l G x n -> x <= y < x + n -> ld (words (pages s)) y = contents a y;
  m_committed : committed a = total (blocks a) + tl_sum G;
  m_locals : forall t i x, thread_runs s !! (t, i) = Some x -> t ∈ locals a;
  m_const : base_ (pages s) = lo /\ max_capacity_ (pages s) = max /\ page_release_mode_ (pages s) = mode
}.
Definition sim (s : RosAlloc) (a : astate) : Prop := exists l G, sim_at s a l G.

Lemma msum_nonneg {K A} `{Countable K} (f : A -> Z) (m : gmap K A) : (forall i x, m !! i = Some x -> 0 <= f x) -> 0 <= msum f m.
Proof.
  induction m as [|i x m Hi IH] using map_ind; intros Hf; [by rewrite msum_empty|]. rewrite msum_insert by done.
  specialize (Hf i x (lookup_insert_eq _ _ _)) as Hx. enough (0 <= msum f m) by lia. apply IH. intros j y Hj. apply (Hf j). rewrite lookup_insert_ne; [done|congruence].
Qed.
Lemma msum_zero {K A} `{Countable K} (f : A -> Z) (m : gmap K A) : (forall i x, m !! i = Some x -> f x = 0) -> msum f m = 0.
Proof.
  induction m as [|i x m Hi IH] using map_ind; intros Hf; [by rewrite msum_empty|]. rewrite msum_insert by done.
  rewrite (Hf i x (lookup_insert_eq _ _ _)), IH; [done|]. intros j y Hj. apply (Hf j). rewrite lookup_insert_ne; [done|congruence].
Qed.
Lemma tl_bytes_nonneg s l G a g : base s l G -> G !! a = Some g -> 0 <= tl_bytes g.
Proof. intros Hb Hg. destruct (base_facts _ _ _ _ _ Hb Hg) as (_ & _ & Hi & _). destruct (brackets_ok _ Hi) as (Hbs & _). unfold tl_bytes. destruct (is_thread _); nia. Qed.
(** A state that the heap fits is accounted for. *)
Lemma sim_accounted s a l G : sim_at s a l G -> accounted a = true.
Proof.
  intros Hs. pose proof (m_heap _ _ _ _ Hs) as [Hb Hx _]. unfold accounted. rewrite (m_committed _ _ _ _ Hs). apply andb_true_iff. split.
  - apply Z.leb_le. enough (0 <= tl_sum G) by lia. apply msum_nonneg. intros x g Hg. by apply (tl_bytes_nonneg s l G x).
  - destruct (decide (locals a = ∅)) as [He|He]; [|by rewrite bool_decide_eq_true_2]. apply orb_true_iff. right. apply Z.eqb_eq. enough (tl_sum G = 0) by lia. apply msum_zero. intros x g Hg. unfold tl_bytes.
    destruct (g_own g) as [t| | |] eqn:Eo; [|done..]. assert (Ht : thread_runs s !! (t, g_idx g) = Some x) by (apply Hx; by exists g).
    apply (m_locals _ _ _ _ Hs) in Ht. rewrite He in Ht. by apply not_elem_of_empty in Ht.
Qed.

(** *** The blocks *)
Lemma live_in_range s l G x n : base s l G -> live_in s l G x n -> x mod 8 = 0 /\ base_ (pages s) <= x /\ x + n <= base_ (pages s) + footprint_ (pages s).
Proof.
  intros Hb Hl. pose proof (b_pages _ _ _ Hb) as Hi. pose proof (p_base _ _ Hi) as (_ & Hal & _). pose proof (p_capacity _ _ Hi). pose proof (p_footprint _ _ Hi). pose proof (p_size _ _ Hi) as Hsz.
  assert (Hpage : forall i, addr (pages s) i mod 8 = 0).
  { intros i. unfold addr. pose proof (Z.div_mod (base_ (pages s)) kPageSize ltac:(plia)). replace (base_ (pages s) + i * kPageSize) with ((base_ (pages s) / kPageSize + i) * 512 * 8) by plia. apply Z.mod_mul. lia. }
  destruct Hl as [(a & g & Hg & Hx & _ & ->)|(i & k & Hu & -> & ->)].
  - destruct (base_facts _ _ _ _ _ Hb Hg) as (_ & _ & Hidx & _ & i & -> & Hu & Hi0 & Hle). pose proof (slot_range _ _ _ Hidx Hx). apply elem_of_slots in Hx as (k & Hk & ->).
    destruct (brackets_ok _ Hidx) as (Hbs & Hb8 & _ & Hh8 & Hh & _). split; [|unfold addr in *; plia].
    rewrite Z.add_mod, (Z.add_mod (addr _ _)), Hpage, Hh8, Z.mul_mod, Hb8 by lia. by rewrite Z.mul_0_r.
  - pose proof (seg_bounds _ _ _ _ _ Hi Hu). split; [done|]. unfold addr. plia.
Qed.
Lemma apart (x n y m : Z) : 0 < n -> 0 < m -> (forall z, x <= z < x + n -> y <= z < y + m -> False) -> y + m <= x \/ x + n <= y.
Proof. intros Hn Hm H. destruct (Z.le_gt_cases (y + m) x); [by left|right]. destruct (Z.le_gt_cases (x + n) y); [done|]. exfalso. apply (H (Z.max x y)); lia. Qed.
Lemma allocs_new s a l G s' l' G' x n : sim_at s a l G -> heap s' l' G' -> allocs s l G s' l' G' x n -> new_block (blocks a) x n = true /\ blocks a !! x = None.
Proof.
  intros Hs Hh' Ha. pose proof (h_base _ _ _ Hh') as Hb'. assert (Hx : live_in s' l' G' x n) by (apply Ha; by right). pose proof (live_pos _ _ _ _ _ Hb' Hx) as [_ Hn].
  destruct (live_in_range _ _ _ _ _ Hb' Hx) as (Hal & Hlo & Hhi). pose proof (p_capacity _ _ (b_pages _ _ _ Hb')). destruct (a_const _ _ _ _ _ _ _ _ Ha) as (Eb & Em & _). destruct (m_const _ _ _ _ Hs) as (Elo & Emax & _). rewrite Eb, Em in *.
  split.
  - unfold new_block. rewrite !andb_true_iff, Z.eqb_eq, !Z.leb_le. split; [split; [split|]; [done|lia|lia]|]. apply forallb_forall. intros [y m] Hy%list_elem_of_In%elem_of_map_to_list.
    apply (m_blocks _ _ _ _ Hs) in Hy. assert (Hy' : live_in s' l' G' y m) by (apply Ha; by left). pose proof (live_pos _ _ _ _ _ Hb' Hy') as [_ Hm].
    apply orb_true_iff. rewrite !Z.leb_le. apply apart; [done|done|]. intros z Hz1 Hz2. destruct (live_disjoint _ _ _ _ _ _ _ _ Hb' Hx Hy' Hz1 Hz2) as [<- <-].
    by apply (a_new _ _ _ _ _ _ _ _ Ha n).
  - destruct (blocks a !! x) as [m|] eqn:E; [|done]. apply (m_blocks _ _ _ _ Hs) in E. by apply (a_new _ _ _ _ _ _ _ _ Ha) in E.
Qed.
(** A block is allocated. *)
Lemma sim_allocs s a l G s' l' G' x n size bytes locals' : sim_at s a l G -> heap s' l' G' -> allocs s l G s' l' G' x n -> n = block_size size -> 0 < size -> size + kPageSize <= 2 ^ 64 ->
  tl_sum G' + n = tl_sum G + bytes -> (forall t i b, thread_runs s' !! (t, i) = Some b -> t ∈ locals') ->
  exists a', add_block a x n size bytes locals' = Some a' /\ sim_at s' a' l' G'.
Proof.
  intros Hs Hh' Ha Hsz H0 Hmax Hsum Hloc. pose proof (block_size_enough size H0 Hmax) as Hle. rewrite <- Hsz in Hle. destruct (allocs_new _ _ _ _ _ _ _ _ _ Hs Hh' Ha) as [Hnew Hnone]. pose proof (h_base _ _ _ Hh') as Hb'.
  unfold add_block. rewrite Hnew, (proj2 (Z.eqb_eq _ _) Hsz), (proj2 (Z.leb_le _ _) Hle). eexists. split; [reflexivity|]. split; cbn.
  - done.
  - intros y m. rewrite (a_live _ _ _ _ _ _ _ _ Ha), <- (m_blocks _ _ _ _ Hs), lookup_insert_Some. split.
    + intros [[<- <-]|[_ ?]]; [by right|by left].
    + intros [Hy|[= -> ->]]; [right; split; [congruence|done]|by left].
  - intros y m z Hy Hz. apply (a_live _ _ _ _ _ _ _ _ Ha) in Hy as Hy'. destruct Hy' as [Hold|[= -> ->]].
    + destruct ((x <=? z) && (z <? x + n)) eqn:Ez.
      * apply andb_true_iff in Ez as [?%Z.leb_le ?%Z.ltb_lt]. assert (Hx : live_in s' l' G' x n) by (apply Ha; by right).
        destruct (live_disjoint s' l' G' x n y m z Hb' Hx Hy ltac:(lia) Hz) as [<- <-]. by apply (a_new _ _ _ _ _ _ _ _ Ha) in Hold.
      * rewrite (a_words _ _ _ _ _ _ _ _ Ha y m z Hold Hz). by apply (m_contents _ _ _ _ Hs y m).
    + destruct ((x <=? z) && (z <? x + n)) eqn:Ez; [by apply (a_zero _ _ _ _ _ _ _ _ Ha)|]. apply andb_false_iff in Ez as [?%Z.leb_gt|?%Z.ltb_ge]; lia.
  - unfold total. rewrite msum_insert by done. rewrite (m_committed _ _ _ _ Hs). unfold total, id. lia.
  - done.
  - destruct (a_const _ _ _ _ _ _ _ _ Ha) as (-> & -> & ->). apply Hs.
Qed.
(** A change that does not show. *)
Lemma sim_trans s a l G s' l' G' n locals' : sim_at s a l G -> heap s' l' G' -> trans s l G s' l' G' -> tl_sum G = tl_sum G' + n ->
  (forall t i b, thread_runs s' !! (t, i) = Some b -> t ∈ locals') -> sim_at s' (mkA (blocks a) (contents a) (committed a - n) locals') l' G'.
Proof.
  intros Hs Hh' Ht Hsum Hloc. split; cbn.
  - done.
  - intros x m. rewrite (t_live _ _ _ _ _ _ Ht). apply Hs.
  - intros x m y Hx Hy. apply (t_live _ _ _ _ _ _ Ht) in Hx. rewrite (t_words _ _ _ _ _ _ Ht x m y Hx Hy). by apply (m_contents _ _ _ _ Hs x m).
  - rewrite (m_committed _ _ _ _ Hs). lia.
  - done.
  - destruct (t_const _ _ _ _ _ _ Ht) as (-> & -> & ->). apply Hs.
Qed.

(** *** One call *)
Lemma spares_locals {A} (m : M RosAlloc A) s r s' a l G t : sim_at s a l G -> m s = Done (r, s') -> (forall t, spares t m) -> forall i b, thread_runs s' !! (t, i) = Some b -> t ∈ locals a.
Proof. intros Hs E Hk i b Hb. rewrite (Hk (t + 1) s r s' E t i ltac:(lia)) in Hb. by apply (m_locals _ _ _ _ Hs) in Hb. Qed.
Lemma sim_silent s a l G s' l' G' : sim_at s a l G -> heap s' l' G' -> trans s l G s' l' G' -> tl_sum G' = tl_sum G -> (forall t i b, thread_runs s' !! (t, i) = Some b -> t ∈ locals a) -> sim_at s' a l' G'.
Proof.
  intros Hs Hh Ht Hsum Hloc. destruct a as [b c k lo']. replace k with (k - 0) by lia. apply (sim_trans s (mkA b c k lo') l G); try done. lia.
Qed.
(** A reply that the specification takes. *)
Definition answers (s : RosAlloc) (a : astate) (c : call) : Prop :=
  exists r s' a' l' G', exec c s = Done (r, s') /\ spec_step a c r = Some a' /\ sim_at s' a' l' G'.

Lemma answer_Alloc s a l G safe self size : sim_at s a l G -> allowed a (CAlloc safe self size) = true -> answers s a (CAlloc safe self size).
Proof.
  intros Hs Hal. cbn in Hal. apply andb_true_iff in Hal as [H0%Z.ltb_lt Hmax%Z.leb_le]. destruct (Alloc_spec s l G safe self size (m_heap _ _ _ _ Hs) H0 Hmax) as (r & s' & l' & G' & E & Hh & Hr).
  assert (Hloc : forall t i b, thread_runs s' !! (t, i) = Some b -> t ∈ (if safe && IsSizeForThreadLocal size then {[ self ]} ∪ locals a else locals a)).
  { intros t i b Hb. destruct (safe && IsSizeForThreadLocal size) eqn:Es.
    - apply elem_of_union. destruct (decide (t = self)) as [->|Hne]; [left; by apply elem_of_singleton|right]. rewrite (spares_Alloc self safe size s r s' E t i Hne) in Hb. by apply (m_locals _ _ _ _ Hs) in Hb.
    - by apply (spares_locals _ s r s' a l G t Hs E (fun t => spares_Alloc_other self t size safe H0 Es) i b). }
  unfold answers. cbn [exec]. rewrite (bind_done _ _ _ _ _ E). destruct r as [al|]; cbn [alloc_ok] in Hr.
  - destruct Hr as (Ha & Eb & Hle & Hsum). destruct (sim_allocs _ _ _ _ _ _ _ _ _ size _ _ Hs Hh Ha Hle H0 Hmax Hsum Hloc) as (a' & Ea & Hs'). eexists _, s', a', l', G'. split; [reflexivity|]. split; [|done].
    cbn [spec_step]. by rewrite Eb, Z.eqb_refl.
  - destruct Hr as (Ht & Hsum & _). eexists _, s', _, l', G'. split; [reflexivity|]. split; [reflexivity|]. replace (committed a) with (committed a - 0) by lia. apply (sim_trans s a l G); try done. lia.
Qed.
Lemma answer_AllocLocal s a l G self size : sim_at s a l G -> allowed a (CAllocLocal self size) = true -> answers s a (CAllocLocal self size).
Proof.
  intros Hs Hal. cbn in Hal. apply andb_true_iff in Hal as [H0%Z.ltb_lt Hmax%Z.leb_le].
  destruct (AllocFromThreadLocalRun_spec s l G self size (m_heap _ _ _ _ Hs) ltac:(lia)) as (r & s' & G' & can & E & Hh & _ & _ & Hr).
  unfold answers. cbn [exec]. rewrite (bind_done _ _ _ _ _ E). destruct r as [[x n]|].
  - destruct Hr as (Ha & Hle & Hsum). destruct (sim_allocs _ _ _ _ _ _ _ _ _ size 0 (locals a) Hs Hh Ha Hle H0 ltac:(unfold kMaxThreadLocalBracketSize in *; plia) ltac:(lia)) as (a' & Ea & Hs'); [|by eexists _, s', a', l, G'].
    intros t. by apply (spares_locals _ s _ s' a l G t Hs E (fun t => spares_AllocFromThreadLocalRun t self size)).
  - destruct Hr as (-> & -> & _). by eexists _, s, a, l, G.
Qed.
Lemma sim_frees s a l G s' l' G' ptrs : sim_at s a l G -> heap s' l' G' -> frees_all s l G s' l' G' ptrs -> tl_sum G' = tl_sum G -> (forall t i b, thread_runs s' !! (t, i) = Some b -> t ∈ locals a) ->
  sim_at s' (mkA (remove_all (blocks a) ptrs) (contents a) (committed a - (total (blocks a) - total (remove_all (blocks a) ptrs))) (locals a)) l' G'.
Proof.
  intros Hs Hh Hf Hsum Hloc. split; cbn.
  - done.
  - intros x m. unfold remove_all. rewrite map_lookup_filter_Some, (e_live _ _ _ _ _ _ _ Hf), (m_blocks _ _ _ _ Hs). done.
  - intros x m y Hx Hy. rewrite (e_words _ _ _ _ _ _ _ Hf x m y Hx Hy). apply (e_live _ _ _ _ _ _ _ Hf) in Hx as [Hx _]. by apply (m_contents _ _ _ _ Hs x m).
  - rewrite (m_committed _ _ _ _ Hs). lia.
  - done.
  - destruct (e_const _ _ _ _ _ _ _ Hf) as (-> & -> & ->). apply Hs.
Qed.
Lemma frees_one s l G s' l' G' x : frees s l G s' l' G' x -> frees_all s l G s' l' G' [x].
Proof.
  intros Hf. split; [|apply Hf|apply Hf]. intros y m. rewrite (d_live _ _ _ _ _ _ _ Hf). split; intros [? Hne]; (split; [done|]); [by intros ->%list_elem_of_singleton|intros ->; apply Hne; by left].
Qed.
Lemma remove_one (b : gmap Z Z) x : remove_all b [x] = delete x b.
Proof.
  apply map_eq. intros i. unfold remove_all. destruct (decide (i = x)) as [->|Hne].
  - rewrite lookup_delete_eq. apply map_lookup_filter_None_2. right. intros y _ Hn. apply Hn. by left.
  - rewrite lookup_delete_ne by done. destruct (b !! i) as [n|] eqn:E.
    + apply map_lookup_filter_Some_2; [done|]. cbn. by intros ?%list_elem_of_singleton.
    + apply map_lookup_filter_None_2. by left.
Qed.
Lemma answer_Free s a l G x : sim_at s a l G -> allowed a (CFree x) = true -> answers s a (CFree x).
Proof.
  intros Hs Hal. apply bool_decide_eq_true in Hal as [n Hn]. pose proof Hn as Hl%(m_blocks _ _ _ _ Hs). destruct (Free_spec s l G x n (m_heap _ _ _ _ Hs) Hl) as (s' & l' & G' & E & Hh & Hf & Hsum).
  unfold answers. cbn [exec]. rewrite (bind_done _ _ _ _ _ E). eexists _, s', _, l', G'. split; [reflexivity|]. split; [cbn; by rewrite bool_decide_eq_true_2|].
  rewrite <- remove_one. replace n with (total (blocks a) - total (remove_all (blocks a) [x])) by (rewrite remove_one; unfold total; rewrite (msum_delete _ _ _ n) by done; unfold id; lia).
  apply (sim_frees s a l G); try done; [by apply frees_one|]. intros t. by apply (spares_locals _ s n s' a l G t Hs E (fun t => spares_Free t x)).
Qed.
Lemma total_remove (b : gmap Z Z) ptrs : NoDup ptrs -> (forall x, x ∈ ptrs -> is_Some (b !! x)) -> total b - total (remove_all b ptrs) = sizes b ptrs.
Proof.
  induction ptrs as [|x ptrs IH]; intros Hnd Hin.
  - unfold sizes, remove_all. cbn. rewrite map_filter_id; [lia|]. intros i y _. cbn. by intros ?%elem_of_nil.
  - apply NoDup_cons in Hnd as [Hx Hnd]. destruct (Hin x ltac:(by left)) as [n Hn].
    assert (E : remove_all b (x :: ptrs) = delete x (remove_all b ptrs)).
    { apply map_eq. intros i. apply option_eq. intros y. unfold remove_all. rewrite lookup_delete_Some, !map_lookup_filter_Some. cbn. rewrite not_elem_of_cons. naive_solver. }
    specialize (IH Hnd ltac:(intros; apply Hin; by right)). unfold sizes in *. cbn [sumZ]. rewrite E, Hn. unfold total in *. rewrite (msum_delete _ _ _ n); [change (default 0 (Some n)) with n; change (id n) with n; lia|].
    unfold remove_all. by apply map_lookup_filter_Some_2.
Qed.
Lemma answer_BulkFree s a l G ptrs : sim_at s a l G -> allowed a (CBulkFree ptrs) = true -> answers s a (CBulkFree ptrs).
Proof.
  intros Hs Hal. cbn in Hal. apply andb_true_iff in Hal as [Hnd%bool_decide_eq_true Hin]. rewrite forallb_forall in Hin.
  assert (Hsome : forall x, x ∈ ptrs -> is_Some (blocks a !! x)) by (intros x Hx; apply (bool_decide_eq_true_1 (is_Some (blocks a !! x))), Hin; by apply list_elem_of_In).
  assert (Hl : Forall2 (live_in s l G) ptrs ((fun x => default 0 (blocks a !! x)) <$> ptrs)).
  { clear -Hs Hsome. induction ptrs as [|x ptrs IH]; [constructor|]. constructor; [|apply IH; intros; apply Hsome; by right].
    destruct (Hsome x ltac:(by left)) as [n Hn]. rewrite Hn. by apply (m_blocks _ _ _ _ Hs). }
  destruct (BulkFree_spec s l G ptrs _ (m_heap _ _ _ _ Hs) Hnd Hl) as (s' & l' & G' & E & Hh & Hf & Hsum).
  assert (En : sumZ id ((fun x => default 0 (blocks a !! x)) <$> ptrs) = sizes (blocks a) ptrs) by (unfold sizes; clear; induction ptrs as [|x ptrs IH]; [done|]; cbn in *; by rewrite IH).
  rewrite En in E. unfold answers. cbn [exec]. rewrite (bind_done _ _ _ _ _ E). eexists _, s', _, l', G'. split; [reflexivity|]. split; [cbn [spec_step]; rewrite Z.eqb_refl; reflexivity|].
  rewrite <- (total_remove _ ptrs Hnd Hsome). apply (sim_frees s a l G); try done. intros t. by apply (spares_locals _ s _ s' a l G t Hs E (fun t => spares_BulkFree t ptrs)).
Qed.
Lemma answer_Revoke s a l G t : sim_at s a l G -> answers s a (CRevoke t).
Proof.
  intros Hs. destruct (RevokeThreadLocalRuns_spec s l G t (m_heap _ _ _ _ Hs)) as (n & s' & l' & G' & E & Hh & Ht & Hsum & _ & Htr). unfold answers. cbn [exec]. rewrite (bind_done _ _ _ _ _ E).
  eexists _, s', _, l', G'. split; [reflexivity|]. split; [reflexivity|]. apply (sim_trans s a l G); try done. intros u i b Hb. rewrite Htr in Hb. destruct (Z.eqb_spec u t); [done|].
  apply (m_locals _ _ _ _ Hs) in Hb. set_solver.
Qed.
Lemma answer_RevokeAll s a l G ts : sim_at s a l G -> answers s a (CRevokeAll ts).
Proof.
  intros Hs. destruct (RevokeAllThreadLocalRuns_spec s l G ts (m_heap _ _ _ _ Hs)) as (n & s' & l' & G' & E & Hh & Ht & Hsum & Htr & _). unfold answers. cbn [exec]. rewrite (bind_done _ _ _ _ _ E).
  eexists _, s', _, l', G'. split; [reflexivity|]. split; [reflexivity|]. apply (sim_trans s a l G); try done. intros u i b Hb. rewrite Htr in Hb. case_bool_decide; [done|].
  apply (m_locals _ _ _ _ Hs) in Hb. set_solver.
Qed.
Lemma answer_RevokeCurrent s a l G : sim_at s a l G -> answers s a CRevokeCurrent.
Proof.
  intros Hs. destruct (revoke_current_spec thread_brackets s l G (m_heap _ _ _ _ Hs)) as (s' & l' & G' & E & Hh & Ht & Hsum & Htr & _). unfold answers. cbn [exec].
  unfold RevokeThreadUnsafeCurrentRuns. rewrite (bind_done _ _ _ _ _ E).
  eexists _, s', _, l', G'. split; [reflexivity|]. split; [reflexivity|]. apply (sim_silent s a l G); try done. rewrite Htr. apply Hs.
Qed.
Lemma answer_pages s a l G : sim_at s a l G -> answers s a CTrim /\ (forall c, allowed a (CSetFootprintLimit c) = true -> answers s a (CSetFootprintLimit c)) /\
  (allowed a CReleasePages = true -> answers s a CReleasePages).
Proof.
  intros Hs. pose proof (m_heap _ _ _ _ Hs) as Hh. split; [|split].
  - destruct (Trim_heap s l G Hh) as (b & s' & l' & E & Hh' & Ht). unfold answers. cbn [exec]. rewrite (bind_done _ _ _ _ _ E).
    eexists _, s', _, l', G. split; [reflexivity|]. split; [reflexivity|]. apply (sim_silent s a l G); try done. intros t. by apply (spares_locals _ s _ s' a l G t Hs E (fun t => spares_in_pages t _)).
  - intros c Hal. cbn in Hal. rewrite !andb_true_iff, !Z.leb_le, Z.eqb_eq in Hal. destruct Hal as [[H0 Hc] Hm]. destruct (m_const _ _ _ _ Hs) as (_ & Emax & _).
    destruct (SetFootprintLimit_heap s l G c Hh H0 Hc ltac:(lia)) as (s' & E & Hh' & Ht & _). unfold answers. cbn [exec]. rewrite (bind_done _ _ _ _ _ E).
    eexists _, s', _, l, G. split; [reflexivity|]. split; [reflexivity|]. apply (sim_silent s a l G); try done. intros t. by apply (spares_locals _ s _ s' a l G t Hs E (fun t => spares_in_pages t _)).
  - intros Hal. cbn in Hal. apply bool_decide_eq_true in Hal. destruct (m_const _ _ _ _ Hs) as (_ & _ & Emode).
    destruct (ReleasePages_heap s l G Hh ltac:(congruence)) as (n & s' & E & Hh' & Ht). unfold answers. cbn [exec]. rewrite (bind_done _ _ _ _ _ E).
    eexists _, s', _, l, G. split; [reflexivity|]. split; [reflexivity|]. apply (sim_silent s a l G); try done. intros t. by apply (spares_locals _ s _ s' a l G t Hs E (fun t => spares_in_pages t _)).
Qed.

(** *** Loads and stores of the mutator *)
Lemma live_page s l G x n y : base s l G -> live_in s l G x n -> x <= y < x + n -> IsFreePage (pages s) ((y - base_ (pages s)) / kPageSize) = false.
Proof.
  intros Hb Hl Hy. assert (Hu : exists i k m, used_at l i k m /\ addr (pages s) i <= y < addr (pages s) i + m * kPageSize).
  { destruct Hl as [(a & g & Hg & Hx & _ & ->)|(i & k & Hu & -> & ->)]; [|by eauto]. pose proof (slot_in_run _ _ _ _ _ _ Hb Hg Hx) as Hr.
    destruct (b_used _ _ _ Hb _ _ Hg) as (i & -> & Hu). unfold run_size in Hr. eexists i, SRun, _. split; [exact Hu|]. lia. }
  destruct Hu as (i & k & m & Hu & Hin). destruct (used_pages _ _ _ _ _ (b_pages _ _ _ Hb) Hu) as [Hk Hs]. by apply (seg_used _ _ _ _ _ Hs Hk), page_of.
Qed.
Lemma slots_ok_write m a g y v : slots_ok m a g -> outside g y -> ~ a <= y < a + headerSizes (g_idx g) -> slots_ok (st m y v) a g.
Proof.
  intros Hk Ho Hh. destruct (brackets_ok _ (k_idx _ _ _ Hk)) as (Hbs & _). destruct (unused_parts _ _ _ Hk) as (_ & _ & _ & S1 & S2 & S3).
  assert (Hl : forall l, (forall x, x ∈ l -> x ∈ unused g) -> linked m l -> linked (st m y v) l).
  { intros l Hs. apply linked_st. intros Hin. apply (Ho y (Hs y Hin)). lia. }
  split; try apply Hk.
  - apply Hl, Hk. done.
  - apply Hl, Hk. done.
  - apply Hl, Hk. done.
  - intros x z Hx Hz. rewrite ld_st. destruct (Z.eqb_spec z y) as [->|]; [|by apply (k_zero _ _ _ Hk x)]. destruct (Ho x Hx). lia.
  - intros z Hz. rewrite ld_st. destruct (Z.eqb_spec z y) as [->|]; [done|]. by apply Hk.
Qed.
Lemma heap_write s l G x n y v : heap s l G -> live_in s l G x n -> x <= y < x + n -> heap (with_pages (with_words (st (words (pages s)) y v) (pages s)) s) l G.
Proof.
  intros [Hb Hx Hst] Hl Hy. split; [|done|done]. pose proof (live_page _ _ _ _ _ _ Hb Hl Hy) as Hp. split; cbn.
  - apply words_pages; [apply Hb|]. intros z _ Hf. rewrite ld_st. destruct (Z.eqb_spec z y) as [->|]; [congruence|done].
  - apply Hb.
  - intros a g Hg. destruct (base_facts _ _ _ _ _ Hb Hg) as (Hk & _ & Hi & _). apply slots_ok_write; [done|by apply (live_outside s l G a g x n)|]. intros Hh.
    destruct (brackets_ok _ Hi) as (Hbs & _ & Hn & _ & Hh0 & _ & Esz).
    destruct Hl as [(b & h & Hgh & Hx' & _ & ->)|(i & k & Hu & -> & ->)].
    + pose proof (slot_in_run _ _ _ _ _ _ Hb Hgh Hx'). assert (a = b) as <- by (apply (runs_disjoint s l G a g b h y); try done; unfold run_size in *; nia).
      rewrite Hg in Hgh. injection Hgh as <-. pose proof (slot_range _ _ _ Hi Hx'). lia.
    + apply (large_run_disjoint s l G i k a g y Hb Hu Hg); unfold addr, run_size in *; [plia|nia].
  - apply Hb.
  - apply Hb.
Qed.
Lemma in_block_live s a l G y : sim_at s a l G -> in_block (blocks a) y = true -> exists x n, live_in s l G x n /\ x <= y < x + n.
Proof.
  intros Hs Hin. unfold in_block in Hin. apply existsb_exists in Hin as ([x n] & Hx%list_elem_of_In%elem_of_map_to_list & Hy). apply andb_true_iff in Hy as [?%Z.leb_le ?%Z.ltb_lt].
  exists x, n. split; [by apply (m_blocks _ _ _ _ Hs)|lia].
Qed.
Lemma answer_memory s a l G : sim_at s a l G -> (forall y, allowed a (CRead y) = true -> answers s a (CRead y)) /\ (forall y v, allowed a (CWrite y v) = true -> answers s a (CWrite y v)) /\
  (forall x, allowed a (CUsableSize x) = true -> answers s a (CUsableSize x)).
Proof.
  intros Hs. pose proof (m_heap _ _ _ _ Hs) as Hh. split; [|split].
  - intros y (x & n & Hl & Hy)%(in_block_live _ _ _ _ _ Hs). eexists _, s, a, l, G. split; [reflexivity|]. split; [|done]. cbn. by rewrite (m_contents _ _ _ _ Hs x n y Hl Hy), Z.eqb_refl.
  - intros y v (x & n & Hl & Hy)%(in_block_live _ _ _ _ _ Hs). eexists _, _, _, l, G. split; [reflexivity|]. split; [reflexivity|]. split; cbn; try apply Hs.
    + by apply (heap_write s l G x n).
    + intros x' n' y' Hl' Hy'. rewrite ld_st. destruct (y' =? y); [done|]. by apply (m_contents _ _ _ _ Hs x' n').
  - intros x Hal. apply bool_decide_eq_true in Hal as [n Hn]. pose proof Hn as Hl%(m_blocks _ _ _ _ Hs). unfold answers. cbn [exec].
    rewrite (bind_done _ _ _ _ _ (UsableSize_spec s l G x n (h_base _ _ _ Hh) Hl)). eexists _, s, a, l, G. split; [reflexivity|]. split; [|done]. cbn. by rewrite bool_decide_eq_true_2.
Qed.

Lemma exec_justified s a c r s' : sim s a -> allowed a c = true -> exec c s = Done (r, s') -> justified s c r.
Proof.
  intros (l & G & Hs) Hal E. pose proof (m_heap _ _ _ _ Hs) as Hh. destruct c as [safe self size|self size| | | | | | | | | | |]; try done; cbn in Hal; apply andb_true_iff in Hal as [H0%Z.ltb_lt Hmax%Z.leb_le].
  - destruct (Alloc_spec s l G safe self size Hh H0 Hmax) as (al & s1 & l' & G' & Ea & _ & Hr). cbn [exec] in E. rewrite (bind_done _ _ _ _ _ Ea) in E. injection E as <- _.
    destruct al as [al|]; [done|]. apply Hr.
  - destruct (AllocFromThreadLocalRun_spec s l G self size Hh ltac:(lia)) as (al & s1 & G' & can & Ea & _ & _ & _ & Hr). cbn [exec] in E. rewrite (bind_done _ _ _ _ _ Ea) in E. injection E as <- _.
    destruct al as [al|]; [done|]. apply Hr.
Qed.
Lemma exec_sim s a c : sim s a -> allowed a c = true -> exists r s' a', exec c s = Done (r, s') /\ spec_next a c r = Some a' /\ sim s' a'.
Proof.
  intros (l & G & Hs) Hal. assert (Ha : answers s a c).
  { destruct (answer_pages s a l G Hs) as (P1 & P2 & P3). destruct (answer_memory s a l G Hs) as (M1 & M2 & M3). destruct c; auto.
    - by apply (answer_Alloc s a l G).
    - by apply (answer_AllocLocal s a l G).
    - by apply (answer_Free s a l G).
    - by apply (answer_BulkFree s a l G).
    - by apply (answer_Revoke s a l G).
    - by apply (answer_RevokeCurrent s a l G).
    - by apply (answer_RevokeAll s a l G). }
  destruct Ha as (r & s' & a' & l' & G' & E & Hst & Hs'). exists r, s', a'. split; [done|]. split; [|by exists l', G']. unfold spec_next. rewrite Hst. cbn. by rewrite (sim_accounted _ _ _ _ Hs').
Qed.
Lemma sim_conform calls : forall s a, sim s a -> conform s a calls.
Proof.
  induction calls as [|c calls IH]; intros s a Hs; [done|]. cbn. intros Hal. destruct (exec_sim s a c Hs Hal) as (r & s' & a' & E & Hn & Hs'). exists r, s', a'. split; [done|]. split; [done|]. split; [by apply (exec_justified s a c r s')|auto].
Qed.
End Spec.

Lemma sim_init lo c mc mode threshold : 0 < lo -> lo mod kPageSize = 0 -> lo + mc * kPageSize <= 2 ^ 64 -> 0 < c <= mc -> threshold mod kPageSize = 0 ->
  exists s, Create lo (c * kPageSize) (mc * kPageSize) mode threshold = Done s /\ sim lo (mc * kPageSize) mode s spec_init.
Proof.
  intros H0 Hal Hmax Hc Ht. destruct (Create_spec lo c mc mode threshold H0 Hal Hmax Hc Ht) as (p & E & Hi & Hw & Eb & _ & Em & _ & Er). eexists. split; [exact E|].
  assert (Hu : forall i k n, ~ used_at [(SFree, c)] i k n) by (intros i k n; rewrite used_at_free; by intros (_ & [|] & ? & ? & _)).
  assert (Hnl : forall x n, ~ live_in (mkRosAlloc p ∅ ∅ ∅ ∅) [(SFree, c)] ∅ x n).
  { intros x n [(a & g & Hg & _)|(i & k & Hk & _)]; [by rewrite lookup_empty in Hg|by apply Hu in Hk]. }
  exists [(SFree, c)], ∅. split; cbn.
  - split.
    + split; cbn; [done|by rewrite fmap_empty|by intros ? ? ?%lookup_empty_Some|by intros ? ? ?%lookup_empty_Some|]. intros i n Hn. by apply Hu in Hn.
    + split; cbn; [intros t i a|intros i a|intros i a|intros a i t]; [..|by intros (g & Hg%lookup_empty_Some & _)].
      * rewrite lookup_empty. split; [done|]. by intros (g & Hg%lookup_empty_Some & _).
      * rewrite lookup_empty. split; [done|]. by intros (g & Hg%lookup_empty_Some & _).
      * unfold nfl. rewrite lookup_empty. cbn. split; [by intros ?%elem_of_nil|]. by intros (g & Hg%lookup_empty_Some & _).
    + by intros a g ?%lookup_empty_Some.
  - intros x n. rewrite lookup_empty. split; [done|]. intros Hl. by apply Hnl in Hl.
  - intros x n y Hl. by apply Hnl in Hl.
  - unfold total, tl_sum. by rewrite !msum_empty.
  - intros t i x. by rewrite lookup_empty.
  - done.
Qed.

(** ** The states of a heap

    [c] and [mc] are the initial and the maximal capacity in pages. *)
Definition heap_params (lo c mc threshold : Z) : Prop :=
  0 < lo /\ lo mod kPageSize = 0 /\ lo + mc * kPageSize <= 2 ^ 64 /\ 0 < c <= mc /\ threshold mod kPageSize = 0.
Inductive reachable (lo mc : Z) (mode : PageReleaseMode) : RosAlloc -> astate -> Prop :=
  | reach_init c threshold s : heap_params lo c mc threshold -> Create lo (c * kPageSize) (mc * kPageSize) mode threshold = Done s -> reachable lo mc mode s spec_init
  | reach_step s a c r s' a' : reachable lo mc mode s a -> allowed (mc * kPageSize) mode a c = true -> exec c s = Done (r, s') ->
      spec_next lo (mc * kPageSize) a c r = Some a' -> reachable lo mc mode s' a'.
Lemma reachable_sim lo mc mode s a : reachable lo mc mode s a -> sim lo (mc * kPageSize) mode s a.
Proof.
  induction 1 as [c threshold s (H0 & Hal & Hmax & Hc & Ht) E|s a c r s' a' _ IH Hal E Hn].
  - destruct (sim_init lo c mc mode threshold H0 Hal Hmax Hc Ht) as (s' & E' & Hs). rewrite E in E'. by injection E' as <-.
  - destruct (exec_sim lo (mc * kPageSize) mode s a c IH Hal) as (r2 & s2 & a2 & E2 & Hn2 & Hs). rewrite E in E2. injection E2 as <- <-. rewrite Hn in Hn2. by injection Hn2 as <-.
Qed.
