(* ===== verification/RosAllocInspect.v ===== *)
(** The walks over a RosAlloc heap.

    [InspectAll] goes over the pages from the first to the last and reports the
    runs of free pages, the large objects and the slots of the runs; what it
    reports as used are the blocks in use.  [Verify] goes over the pages and the
    runs and finds nothing to complain about. *)
From stdpp Require Import prelude gmap list.
From Stdlib Require Import ZArith Lia.
From S2P Require Import Prelude BitUtils RosAlloc RosAllocPages RosAllocFreePages RosAllocSegments RosAllocSlots RosAllocRuns RosAllocIndex RosAllocAlloc RosAllocFree RosAllocSpec.
Import RosAlloc.
Open Scope Z_scope.

(** ** One run *)
Lemma on_words_read {A} (f : gmap Z Z -> outcome A) s a : f (words (pages s)) = Done a -> on_words (fun m => l ← f m; Done (l, m)) s = Done (a, s).
Proof. intros E. unfold on_words. rewrite E. by destruct s as [[] ? ? ? ?]. Qed.
Lemma free_slots_done s l G a g : base s l G -> G !! a = Some g -> g_bulk g = [] -> free_slots (hdr g) (words (pages s)) = Done (unused g).
Proof.
  intros Hb Hg Hbk. destruct (base_facts _ _ _ _ _ Hb Hg) as (Hk & Ha & _). destruct (unused_parts _ _ _ Hk) as (_ & _ & _ & S1 & S2 & _). unfold free_slots, unused. rewrite Hbk, app_nil_r.
  cbn [hdr free_list_ flist size_ head_ is_thread_local_ thread_local_free_list_ tlist]. rewrite !Nat2Z.id.
  rewrite (list_slots_done (g_free g)); [|intros x Hx; by apply (slots_nonzero _ _ _ _ Hk Ha), S1|apply Hk].
  rewrite (list_slots_done (g_tl g)); [|intros x Hx; by apply (slots_nonzero _ _ _ _ Hk Ha), S2|apply Hk].
  destruct (is_thread (g_own g)) eqn:Eo; [done|].
  rewrite (k_local _ _ _ Hk Eo). done.
Qed.
Lemma unused_are_slots s l G a g : base s l G -> G !! a = Some g -> are_slots a (hdr g) (unused g) = true.
Proof.
  intros Hb Hg. destruct (base_facts _ _ _ _ _ Hb Hg) as (Hk & _ & Hi & _). destruct (brackets_ok _ Hi) as (Hbs & _). unfold are_slots, FirstSlot. cbn [size_bracket_idx_ hdr].
  apply forallb_forall. intros x Hx%list_elem_of_In%(k_slots _ _ _ Hk)%elem_of_slots. destruct Hx as (k & Hk' & ->).
  replace (a + headerSizes (g_idx g) + k * bracketSizes (g_idx g) - (a + headerSizes (g_idx g))) with (k * bracketSizes (g_idx g)) by lia.
  rewrite Z.mod_mul, Z.div_mul by lia. rewrite !andb_true_iff, Z.eqb_eq, Z.leb_le, Z.ltb_lt. nia.
Qed.
Definition run_calls (a : Z) (g : grun) : list (Z * Z * Z) :=
  (fun x => (x, x + bracketSizes (g_idx g), if bool_decide (x ∈ unused g) then 0 else bracketSizes (g_idx g))) <$> slot_addrs a (g_idx g).
Lemma InspectAllSlots_done s l G a g : base s l G -> G !! a = Some g -> g_bulk g = [] -> InspectAllSlots a s = Done (run_calls a g, s).
Proof.
  intros Hb Hg Hbk. destruct (base_facts _ _ _ _ _ Hb Hg) as (Hk & Ha & Hi & _). destruct (brackets_ok _ Hi) as (Hbs & _ & Hn & _ & _ & _ & Esz).
  unfold InspectAllSlots. rewrite (bind_done _ _ _ _ _ (get_run_done _ _ _ _ _ Hb Hg)), (bind_done _ _ _ _ _ (on_words_read _ _ _ (free_slots_done s l G a g Hb Hg Hbk))).
  rewrite bind_check by (by apply (unused_are_slots s l G)). cbn [size_bracket_idx_ hdr]. rewrite bind_check by (apply Z.eqb_eq; lia). done.
Qed.

(** ** [InspectAll] *)
Fixpoint expected (p : Pages) (G : gmap Z grun) (i : Z) (l : segs) : list (Z * Z * Z) :=
  match l with
  | [] => []
  | (k, n) :: l =>
      (match k with
       | SFree => [(addr p i, addr p i + n * kPageSize, 0)]
       | SLarge => [(addr p i, addr p i + n * kPageSize, n * kPageSize)]
       | SRun => match G !! addr p i with Some g => run_calls (addr p i) g | None => [] end
       end) ++ expected p G (i + n) l
  end.
Lemma used_run s l G i n : base s l G -> used_at l i SRun n -> exists g, G !! addr (pages s) i = Some g /\ n = numOfPages (g_idx g).
Proof.
  intros Hb Hu. destruct (b_only _ _ _ Hb _ _ Hu) as [g Hg]. exists g. split; [done|]. destruct (b_used _ _ _ Hb _ _ Hg) as (j & Ej%page_addr_inj & Hj). subst j.
  pose proof (seg_bounds _ _ _ _ _ (b_pages _ _ _ Hb) Hu). pose proof (seg_bounds _ _ _ _ _ (b_pages _ _ _ Hb) Hj).
  destruct (seg_disjoint _ _ _ _ _ _ _ _ (b_pages _ _ _ Hb) Hu Hj) as [[= ?]|[?|?]]; [done|lia|lia].
Qed.
Lemma inspect_from_done s l G l2 : base s l G -> (forall a g, G !! a = Some g -> g_bulk g = []) -> forall l1 fuel, l = l1 ++ l2 -> (Z.to_nat (npages l2) < fuel)%nat ->
  inspect_from fuel (npages l1) s = Done (expected (pages s) G (npages l1) l2, s).
Proof.
  intros Hb Hbk. pose proof (b_pages _ _ _ Hb) as Hi. induction l2 as [|[k n] l2 IH]; intros l1 fuel El Hf; (destruct fuel as [|fuel]; [lia|]); cbn [inspect_from]; rewrite bind_gets, (p_size _ _ Hi).
  - rewrite El, app_nil_r. by rewrite Z.ltb_irrefl.
  - rewrite El in Hi. destruct (inv_split _ _ _ _ _ Hi) as (Hn1 & Hn & Hn2 & Etot & _ & Hs & _ & _ & _ & Efr). rewrite El, Etot, npages_cons in *.
    destruct (Z.ltb_spec (npages l1) (npages l1 + n + npages l2)); [|lia]. change (base_ (pages s) + npages l1 * kPageSize) with (addr (pages s) (npages l1)).
    assert (Hrec : forall c, (check (npages l1 + n <=? npages l1 + n + npages l2);; rest ← inspect_from fuel (npages l1 + n); mret (c ++ rest)) s = Done (c ++ expected (pages s) G (npages l1 + n) l2, s)).
    { intros c. rewrite bind_check by (apply Z.leb_le; lia). replace (npages l1 + n) with (npages (l1 ++ [(k, n)])) by (rewrite npages_app, npages_cons; change (npages []) with 0; lia).
      rewrite (bind_done _ _ _ _ _ (IH (l1 ++ [(k, n)]) fuel ltac:(by rewrite <- app_assoc) ltac:(lia))). done. }
    cbn [expected]. destruct k; cbn [seg_pages] in Hs.
    + assert (Ebs : in_pages (ByteSize (addr (pages s) (npages l1))) s = Done (n * kPageSize, s)).
      { unfold in_pages. rewrite (ByteSize_done _ _ _ Hn1 (inv_index _ _ (npages l1) Hi ltac:(lia)) (proj2 Hs)). by destruct s. }
      assert (Efree : is_free_run (pages s) (addr (pages s) (npages l1)) = true) by (apply bool_decide_eq_true; rewrite Efr; cbn; set_solver).
      pose proof (proj1 Hs (npages l1) ltac:(lia)) as Hf0. unfold IsFreePage in Hf0.
      destruct (pm (pages s) (npages l1)); try done; rewrite bind_assoc, bind_check by done; rewrite bind_assoc, (bind_done _ _ _ _ _ Ebs), bind_ret, Z.div_mul by plia; apply Hrec.
    + destruct (used_run s _ G (npages l1) n Hb) as (g & Hg & En); [split; [done|by exists l1, l2]|]. rewrite (proj1 Hs), Hg, bind_assoc.
      rewrite (bind_done _ _ _ _ _ (InspectAllSlots_done s _ G _ g Hb Hg (Hbk _ _ Hg))), bind_assoc, (bind_done _ _ _ _ _ (get_run_done _ _ _ _ _ Hb Hg)), bind_ret.
      cbn [size_bracket_idx_ hdr]. rewrite <- En. apply Hrec.
    + assert (Hu : used_at (l1 ++ (SLarge, n) :: l2) (npages l1) SLarge n) by (split; [done|by exists l1, l2]). rewrite (proj1 Hs), (large_pages_done _ _ _ n (b_pages _ _ _ Hb) Hu), bind_ret.
      replace (base_ (pages s) + (npages l1 + n) * kPageSize) with (addr (pages s) (npages l1) + n * kPageSize) by (unfold addr; lia). apply Hrec.
Qed.
Lemma InspectAll_done s l G : base s l G -> (forall a g, G !! a = Some g -> g_bulk g = []) -> InspectAll s = Done (expected (pages s) G 0 l, s).
Proof.
  intros Hb Hbk. unfold InspectAll. rewrite bind_gets, (p_size _ _ (b_pages _ _ _ Hb)). by apply (inspect_from_done s l G l Hb Hbk [] _ eq_refl); lia.
Qed.

(** *** What is reported as used *)
Lemma elem_of_run_calls a g x e u : x ∈ slot_addrs a (g_idx g) /\ e = x + bracketSizes (g_idx g) /\ u = (if bool_decide (x ∈ unused g) then 0 else bracketSizes (g_idx g)) <-> (x, e, u) ∈ run_calls a g.
Proof.
  unfold run_calls. rewrite list_elem_of_fmap. split; [intros (Hx & -> & ->); by exists x|]. intros (y & [= -> -> ->] & Hy). done.
Qed.
Lemma expected_used p G l : forall i x e u, (forall a g, G !! a = Some g -> 0 < bracketSizes (g_idx g)) -> Forall (fun kn => 0 < kn.2) l ->
  (x, e, u) ∈ expected p G i l /\ u <> 0 <-> e = x + u /\
  ((exists j n, used_at l j SLarge n /\ x = addr p (i + j) /\ u = n * kPageSize) \/
   (exists j n g, used_at l j SRun n /\ G !! addr p (i + j) = Some g /\ x ∈ slot_addrs (addr p (i + j)) (g_idx g) /\ x ∉ unused g /\ u = bracketSizes (g_idx g))).
Proof.
  induction l as [|[k n] l IH]; intros i x e u Hbs Hp; cbn [expected].
  - split; [by intros [?%elem_of_nil _]|]. intros [_ [(j & m & (_ & [|] & ? & ? & _) & _)|(j & m & g & (_ & [|] & ? & ? & _) & _)]]; done.
  - apply Forall_cons in Hp as [Hn Hp]. cbn in Hn. rewrite elem_of_app. specialize (IH (i + n) x e u Hbs Hp).
    assert (Hsh : forall j, addr p (i + n + (j - n)) = addr p (i + j)) by (intros j; f_equal; lia). split.
    + intros [[Hin|Hin] Hu].
      * destruct k.
        -- apply list_elem_of_singleton in Hin as [= -> -> ->]. done.
        -- destruct (G !! addr p i) as [g|] eqn:Hg; [|by apply elem_of_nil in Hin]. apply elem_of_run_calls in Hin as (Hx & -> & ->). case_bool_decide as Hxu; [done|]. split; [done|].
           right. exists 0, n, g. rewrite Z.add_0_r, used_at_cons. by repeat (split; [first [done|by left]|]).
        -- apply list_elem_of_singleton in Hin as [= -> -> ->]. split; [done|]. left. exists 0, n. rewrite Z.add_0_r, used_at_cons. by repeat (split; [first [done|by left]|]).
      * destruct (proj1 IH (conj Hin Hu)) as [He [(j & m & Hj & Hx & Em)|(j & m & g & Hj & Hg & Hx & Hxu & Em)]]; (split; [done|]); [left; exists (j + n), m|right; exists (j + n), m, g];
          rewrite used_at_cons, Z.add_simpl_r; replace (i + (j + n)) with (i + n + j) by lia; by repeat (split; [first [done|by right]|]).
    + intros [He Hor].
      assert (Hcase : (x, e, u) ∈ expected p G (i + n) l /\ u <> 0 \/ ((k = SLarge /\ x = addr p i /\ u = n * kPageSize) \/ (k = SRun /\ exists g, G !! addr p i = Some g /\ x ∈ slot_addrs (addr p i) (g_idx g) /\ x ∉ unused g /\ u = bracketSizes (g_idx g)))).
      { destruct Hor as [(j & m & Hj & Hx & Em)|(j & m & g & Hj & Hg & Hx & Hxu & Em)]; apply used_at_cons in Hj as [[_ [= -> <- ->]]|Hj].
        - right. left. by rewrite Z.add_0_r in Hx.
        - left. apply IH. split; [done|]. left. exists (j - n), m. by rewrite Hsh.
        - right. right. rewrite Z.add_0_r in *. split; [done|]. by exists g.
        - left. apply IH. split; [done|]. right. exists (j - n), m, g. by rewrite Hsh. }
      destruct Hcase as [[Hin Hu]|[(-> & Hx & Eu)|(-> & g & Hg & Hx & Hxu & Eu)]]; [by split; [right|]|..].
      * split; [left; apply list_elem_of_singleton; by rewrite He, Hx, Eu|]. rewrite Eu. plia.
      * rewrite Hg. split; [left; apply elem_of_run_calls; rewrite bool_decide_eq_false_2 by done; by rewrite He, Eu|]. specialize (Hbs _ _ Hg). lia.
Qed.
Lemma expected_live s l G x e u : base s l G -> (x, e, u) ∈ expected (pages s) G 0 l /\ u <> 0 <-> e = x + u /\ live_in s l G x u.
Proof.
  intros Hb. rewrite expected_used.
  - split; intros [He [H1|H2]]; (split; [done|]).
    + destruct H1 as (j & n & Hj & -> & ->). right. by exists j, n.
    + destruct H2 as (j & n & g & Hj & Hg & Hx & Hxu & ->). left. by exists (addr (pages s) (0 + j)), g.
    + destruct H1 as (a & g & Hg & Hx & Hxu & ->). right. destruct (b_used _ _ _ Hb _ _ Hg) as (j & -> & Hj). by exists j, (numOfPages (g_idx g)), g.
    + destruct H2 as (j & n & Hj & -> & ->). left. by exists j, n.
  - intros a g Hg. destruct (base_facts _ _ _ _ _ Hb Hg) as (_ & _ & Hi & _). by destruct (brackets_ok _ Hi).
  - apply (mapped_sizes (pages s) 0), Hb.
Qed.
(** The addresses of the calls increase. *)
Lemma expected_range p G l : forall i, (forall j n g, used_at l j SRun n -> G !! addr p (i + j) = Some g -> n = numOfPages (g_idx g) /\ 0 <= g_idx g < kNumOfSizeBrackets) ->
  Forall (fun kn => 0 < kn.2) l -> NoDup ((fun c : Z * Z * Z => c.1.1) <$> expected p G i l) /\ (forall c, c ∈ expected p G i l -> addr p i <= c.1.1 < addr p (i + npages l)).
Proof.
  induction l as [|[k n] l IH]; intros i Hr Hp; [split; [constructor|by intros c ?%elem_of_nil]|]. apply Forall_cons in Hp as [Hn Hp]. cbn in Hn. cbn [expected]. rewrite npages_cons.
  destruct (IH (i + n)) as [Hnd Hin]; [|done|].
  { intros j m g Hj Hg. apply (Hr (n + j) m g); [apply used_at_cons; right; by replace (n + j - n) with j by lia|by rewrite Z.add_assoc]. }
  assert (Hnn : 0 <= npages l). { clear -Hp. induction Hp as [|[? ?] ? H' ? IH']; [done|]. rewrite npages_cons. cbn in H'. lia. }
  assert (Hhead : forall hd : list (Z * Z * Z), NoDup ((fun c => c.1.1) <$> hd) -> (forall c, c ∈ hd -> addr p i <= c.1.1 < addr p (i + n)) ->
    NoDup ((fun c : Z * Z * Z => c.1.1) <$> hd ++ expected p G (i + n) l) /\ (forall c, c ∈ hd ++ expected p G (i + n) l -> addr p i <= c.1.1 < addr p (i + (n + npages l)))).
  { intros hd Hh1 Hh2. split.
    - rewrite fmap_app. apply NoDup_app. split; [done|]. split; [|done]. intros x (c & -> & Hc)%list_elem_of_fmap (c' & Ec & Hc')%list_elem_of_fmap. apply Hh2 in Hc. apply Hin in Hc'. rewrite Ec in Hc. lia.
    - intros c [Hc|Hc]%elem_of_app; [apply Hh2 in Hc|apply Hin in Hc]; unfold addr in *; plia. }
  apply Hhead; destruct k; cbn.
  - apply NoDup_singleton.
  - destruct (G !! addr p i) as [g|] eqn:Hg; [|constructor]. destruct (Hr 0 n g) as [_ Hi]; [apply used_at_cons; by left|by rewrite Z.add_0_r|].
    unfold run_calls. rewrite <- list_fmap_compose. cbn. rewrite list_fmap_id. by apply NoDup_slots.
  - apply NoDup_singleton.
  - intros c ->%list_elem_of_singleton. cbn. unfold addr. plia.
  - destruct (G !! addr p i) as [g|] eqn:Hg; [|by intros c ?%elem_of_nil]. destruct (Hr 0 n g) as [En Hi]; [apply used_at_cons; by left|by rewrite Z.add_0_r|].
    intros [[x e] u] (Hx & _)%elem_of_run_calls. cbn. pose proof (slot_range _ _ _ Hi Hx). destruct (brackets_ok _ Hi) as (? & _ & _ & _ & ? & _). unfold addr in *. rewrite En. plia.
  - intros c ->%list_elem_of_singleton. cbn. unfold addr. plia.
Qed.

(** *** Sums *)
Lemma msum_list (L : list (Z * Z)) : NoDup L.*1 -> msum id (list_to_map L : gmap Z Z) = sumZ snd L.
Proof.
  induction L as [|[x n] L IH]; intros Hnd; [apply msum_empty|]. apply NoDup_cons in Hnd as [Hx Hnd]. rewrite list_to_map_cons, msum_insert by (by apply not_elem_of_list_to_map_1).
  rewrite IH by done. done.
Qed.
Definition used_calls (calls : list (Z * Z * Z)) : list (Z * Z) := (fun c => (c.1.1, c.2)) <$> filter (fun c => c.2 <> 0) calls.
Lemma bytes_used calls : bytes_allocated_in calls = sumZ snd (used_calls calls) /\ objects_allocated_in calls = Z.of_nat (length (used_calls calls)).
Proof.
  unfold bytes_allocated_in, objects_allocated_in, used_calls. induction calls as [|[[x e] u] calls [IH1 IH2]]; [done|]. rewrite filter_cons. cbn [sumZ]. cbn.
  destruct (decide (u <> 0)) as [Hu|Hu]; cbn.
  - rewrite (proj2 (Z.eqb_neq u 0)) by done. cbn in *. rewrite IH1, IH2. lia.
  - assert (u = 0) as -> by lia. cbn in *. rewrite IH1, IH2. lia.
Qed.
Lemma inspect_blocks s l G (b : gmap Z Z) : base s l G -> (forall x n, b !! x = Some n <-> live_in s l G x n) ->
  let calls := expected (pages s) G 0 l in
  bytes_allocated_in calls = total b /\ objects_allocated_in calls = Z.of_nat (size b) /\ NoDup ((fun c : Z * Z * Z => c.1.1) <$> calls).
Proof.
  intros Hb Hl calls. pose proof (mapped_sizes _ _ _ (p_mapped _ _ (b_pages _ _ _ Hb))) as Hp. destruct (expected_range (pages s) G l 0) as [Hnd _]; [|done|].
  { intros j n g Hj Hg. destruct (used_run s l G j n Hb Hj) as (g' & Hg' & ->). rewrite Z.add_0_l in Hg. rewrite Hg in Hg'. injection Hg' as <-. by destruct (base_facts _ _ _ _ _ Hb Hg) as (_ & _ & ? & _). }
  assert (Hnd' : NoDup (used_calls calls).*1).
  { unfold used_calls. rewrite <- list_fmap_compose. cbn. eapply (sublist_NoDup _ ((fun c : Z * Z * Z => c.1.1) <$> calls)); [exact Hnd|]. apply fmap_sublist, sublist_filter. }
  assert (Eb : b = list_to_map (used_calls calls)).
  { apply map_eq. intros x. apply option_eq. intros n. rewrite Hl, <- elem_of_list_to_map by done. unfold used_calls. rewrite list_elem_of_fmap. split.
    - intros Hx. exists (x, x + n, n). split; [done|]. rewrite list_elem_of_filter. cbn. apply and_comm. by apply expected_live.
    - intros ([[y e] u] & [= -> ->] & [Hu Hin]%list_elem_of_filter). by apply (expected_live s l G y e u Hb). }
  destruct (bytes_used calls) as [-> ->]. split; [rewrite Eb; unfold total; by rewrite msum_list|]. split; [|done]. rewrite Eb, map_size_list_to_map by done. done.
Qed.

(** ** [Verify] *)
Lemma mfor_same {S A} (l : list A) (body : A -> M S unit) s : (forall a, a ∈ l -> body a s = Done (tt, s)) -> mfor l body s = Done (tt, s).
Proof. induction l as [|a l IH]; intros Hb; [done|]. cbn [mfor]. rewrite (bind_done _ _ _ _ _ (Hb a ltac:(by left))). apply IH. intros b Hin. apply Hb. by right. Qed.
Lemma NoDup_only {A} (l : list A) a : NoDup l -> (forall x, x ∈ l <-> x = a) -> l = [a].
Proof.
  intros Hnd Hl. destruct l as [|x l]; [exfalso; apply (not_elem_of_nil a), Hl; done|]. apply NoDup_cons in Hnd as [Hx Hnd].
  assert (x = a) as -> by (apply Hl; by left). destruct l as [|y l]; [done|]. exfalso. assert (y = a) as -> by (apply Hl; right; by left). apply Hx. by left.
Qed.
Definition run_addrs (p : Pages) : Z -> segs -> list Z := fix go i l := match l with [] => [] | (k, n) :: l => (if decide (k = SRun) then [addr p i] else []) ++ go (i + n) l end.
Lemma run_addrs_used p l : forall i a, a ∈ run_addrs p i l -> exists j n, used_at l j SRun n /\ a = addr p (i + j).
Proof.
  induction l as [|[k n] l IH]; intros i a; [by intros ?%elem_of_nil|]. cbn [run_addrs]. rewrite elem_of_app. intros [Hin|Hin].
  - destruct (decide (k = SRun)) as [->|]; [|by apply elem_of_nil in Hin]. apply list_elem_of_singleton in Hin as ->. exists 0, n. rewrite Z.add_0_r, used_at_cons. split; [by left|done].
  - destruct (IH _ _ Hin) as (j & m & Hj & ->). exists (n + j), m. rewrite used_at_cons, Z.add_assoc. replace (n + j - n) with j by lia. split; [by right|done].
Qed.

Section Verify.
Context (SizeOf : Z -> Z) (s : RosAlloc) (l : segs) (G : gmap Z grun) (threads : list Z).
Context (Hh : heap s l G) (Hnd : NoDup threads) (Hall : forall t i a, thread_runs s !! (t, i) = Some a -> t ∈ threads).
(** The sizes of the objects are those that were asked for. *)
Context (Hsize : forall x n, live_in s l G x n -> 0 < SizeOf x /\ SizeOf x + kPageSize <= 2 ^ 64 /\ block_size (SizeOf x) = n).
Let Hb : base s l G := h_base _ _ _ Hh.
Let Hx : index_ok (thread_runs s) (current_runs_ s) (non_full_runs_ s) G := h_index _ _ _ Hh.

Lemma large_sizeof i n : used_at l i SLarge n -> kLargeSizeThreshold < SizeOf (addr (pages s) i) /\ n = RoundUp (SizeOf (addr (pages s) i)) kPageSize / kPageSize.
Proof.
  intros Hu. destruct (Hsize (addr (pages s) i) (n * kPageSize)) as (H0 & Hmax & Ebs); [right; by exists i, n|]. pose proof (seg_bounds _ _ _ _ _ (b_pages _ _ _ Hb) Hu) as (_ & Hn & _).
  unfold block_size in Ebs. destruct (Z.ltb_spec kLargeSizeThreshold (SizeOf (addr (pages s) i))) as [|Hle]; [split; [done|]; rewrite Ebs; symmetry; apply Z.div_mul; plia|].
  destruct (sizes_ok (SizeOf (addr (pages s) i)) ltac:(lia)) as (idx & _ & Hi & _ & _ & Er & _). rewrite Er in Ebs.
  assert (Hb2 : forallb (fun i => bracketSizes i <=? kLargeSizeThreshold) (seqZ 0 kNumOfSizeBrackets) = true) by (vm_compute; reflexivity). rewrite forallb_forall in Hb2.
  specialize (Hb2 idx ltac:(apply list_elem_of_In, elem_of_seqZ; lia)). apply Z.leb_le in Hb2. unfold kLargeSizeThreshold in *. plia.
Qed.
Lemma slot_sizeof a g x : G !! a = Some g -> x ∈ slot_addrs a (g_idx g) -> x ∉ unused g -> SizeOf x <= kLargeSizeThreshold /\ SizeToIndex (SizeOf x) = g_idx g.
Proof.
  intros Hg Hxs Hxu. destruct (Hsize x (bracketSizes (g_idx g))) as (H0 & Hmax & Ebs); [left; by exists a, g|]. destruct (base_facts _ _ _ _ _ Hb Hg) as (_ & _ & Hi & _).
  assert (Hb2 : forallb (fun i => (bracketSizes i <=? kLargeSizeThreshold) && (SizeToIndex (bracketSizes i) =? i) && (0 <? bracketSizes i)) (seqZ 0 kNumOfSizeBrackets) = true) by (vm_compute; reflexivity).
  rewrite forallb_forall in Hb2. assert (Hinv : forall i, 0 <= i < kNumOfSizeBrackets -> bracketSizes i <= kLargeSizeThreshold /\ SizeToIndex (bracketSizes i) = i).
  { intros i Hi'. specialize (Hb2 i ltac:(apply list_elem_of_In, elem_of_seqZ; lia)). rewrite !andb_true_iff, Z.leb_le, Z.eqb_eq in Hb2. tauto. }
  unfold block_size in Ebs. destruct (Z.ltb_spec kLargeSizeThreshold (SizeOf x)) as [Hlt|Hle].
  - destruct (RoundUp_pages (SizeOf x) ltac:(lia) Hmax) as (num & E & _ & ?). pose proof (proj1 (Hinv _ Hi)). lia.
  - split; [done|]. destruct (sizes_ok (SizeOf x) ltac:(lia)) as (idx & _ & Hi' & _ & -> & Er & _). rewrite Er in Ebs. rewrite <- (proj2 (Hinv _ Hi')), <- (proj2 (Hinv _ Hi)). by rewrite Ebs.
Qed.

Lemma verify_pages_done l2 : forall l1 fuel, l = l1 ++ l2 -> (Z.to_nat (npages l2) < fuel)%nat ->
  verify_pages SizeOf fuel (npages l1) s = Done (run_addrs (pages s) (npages l1) l2, s).
Proof.
  pose proof (b_pages _ _ _ Hb) as Hi. induction l2 as [|[k n] l2 IH]; intros l1 fuel El Hf; (destruct fuel as [|fuel]; [lia|]); cbn [verify_pages]; rewrite bind_gets, (p_size _ _ Hi).
  - rewrite El, app_nil_r. by rewrite Z.ltb_irrefl.
  - assert (Hu : k <> SFree -> used_at l (npages l1) k n) by (intros ?; split; [done|by exists l1, l2]). pose proof Hi as Hi'. rewrite El in Hi'.
    destruct (inv_split _ _ _ _ _ Hi') as (Hn1 & Hn & Hn2 & Etot & _ & Hs & _ & _ & _ & Efr). rewrite npages_cons in Hf. replace (npages l) with (npages l1 + n + npages l2) by (by rewrite El).
    destruct (Z.ltb_spec (npages l1) (npages l1 + n + npages l2)); [|lia]. change (base_ (pages s) + npages l1 * kPageSize) with (addr (pages s) (npages l1)).
    assert (Hrec : forall c, (check (npages l1 + n <=? npages l1 + n + npages l2);; rest ← verify_pages SizeOf fuel (npages l1 + n); mret (c ++ rest)) s = Done (c ++ run_addrs (pages s) (npages l1 + n) l2, s)).
    { intros c. rewrite bind_check by (apply Z.leb_le; lia). replace (npages l1 + n) with (npages (l1 ++ [(k, n)])) by (rewrite npages_app, npages_cons; change (npages []) with 0; lia).
      rewrite (bind_done _ _ _ _ _ (IH (l1 ++ [(k, n)]) fuel ltac:(by rewrite <- app_assoc) ltac:(lia))). done. }
    cbn [run_addrs]. destruct k; cbn [seg_pages] in Hs.
    + assert (Ebs : in_pages (ByteSize (addr (pages s) (npages l1))) s = Done (n * kPageSize, s)).
      { unfold in_pages. rewrite (ByteSize_done _ _ _ Hn1 (inv_index _ _ (npages l1) Hi' ltac:(lia)) (proj2 Hs)). by destruct s. }
      assert (Efree : is_free_run (pages s) (addr (pages s) (npages l1)) = true) by (apply bool_decide_eq_true; rewrite Efr; cbn; set_solver).
      assert (Hfr : all_free_pages (pages s) (npages l1 + 1) (n - 1) = true) by (apply forallb_forall; intros j Hj%list_elem_of_In%elem_of_seqZ; apply Hs; lia).
      pose proof (proj1 Hs (npages l1) ltac:(lia)) as Hf0. unfold IsFreePage in Hf0.
      destruct (pm (pages s) (npages l1)); try done; rewrite bind_assoc, bind_check by done; rewrite bind_assoc, (bind_done _ _ _ _ _ Ebs), Z.div_mul by plia;
        rewrite bind_assoc, bind_check by (apply Z.ltb_lt; lia); rewrite bind_assoc, bind_check, bind_ret by done; apply Hrec.
    + destruct (used_run s l G (npages l1) n Hb (Hu ltac:(done))) as (g & Hg & En). destruct (base_facts _ _ _ _ _ Hb Hg) as (_ & _ & Hidx & _). rewrite (proj1 Hs), bind_assoc, (bind_done _ _ _ _ _ (get_run_done _ _ _ _ _ Hb Hg)).
      cbn [size_bracket_idx_ hdr]. rewrite <- En, bind_assoc, bind_check by (rewrite andb_true_iff, Z.leb_le, Z.ltb_lt; lia). rewrite bind_assoc, bind_check by (apply Z.ltb_lt; lia).
      rewrite bind_assoc, bind_check, bind_ret; [apply Hrec|]. apply forallb_forall. intros j Hj%list_elem_of_In%elem_of_seqZ. apply bool_decide_eq_true, Hs. lia.
    + destruct (large_sizeof (npages l1) n (Hu ltac:(done))) as [Hlt En]. rewrite (proj1 Hs), (large_pages_done _ l _ n Hi (Hu ltac:(done))).
      rewrite bind_assoc, bind_check by (by apply Z.ltb_lt). rewrite bind_assoc, bind_check, bind_ret by (by apply Z.eqb_eq). apply Hrec.
Qed.
(** The tables point at runs of their size. *)
Lemma verify_thread_done t : verify_thread t s = Done (tt, s).
Proof.
  apply mfor_same. intros i _. rewrite bind_gets. destruct (thread_runs s !! (t, i)) as [a|] eqn:Et; [|done].
  apply Hx in Et as (g & Hg & Ei & Eo). rewrite (bind_done _ _ _ _ _ (get_run_done _ _ _ _ _ Hb Hg)), bind_check by (cbn; by rewrite Eo).
  unfold check. cbn. by rewrite Ei, Z.eqb_refl.
Qed.
Lemma verify_current_done i : verify_current i s = Done (tt, s).
Proof.
  unfold verify_current. rewrite bind_gets. destruct (current_runs_ s !! i) as [a|] eqn:Et; [|done].
  apply Hx in Et as (g & Hg & Ei & Eo). rewrite (bind_done _ _ _ _ _ (get_run_done _ _ _ _ _ Hb Hg)), bind_check by (cbn; by rewrite Eo).
  unfold check. cbn. by rewrite Ei, Z.eqb_refl.
Qed.
Lemma owners_one a g t : G !! a = Some g -> g_own g = OThread t -> owners s threads a = [(t, g_idx g)].
Proof.
  intros Hg Ho. assert (Hp : forall ts : list Z, NoDup ts -> NoDup (t ← ts; i ← thread_brackets; [(t, i)])).
  { induction ts as [|u ts IH]; intros Hts; [constructor|]. apply NoDup_cons in Hts as [Hu Hts]. cbn [mbind list_bind]. apply NoDup_app. split; [|split; [|by apply IH]].
    - vm_compute thread_brackets. cbn. repeat (apply NoDup_cons; split; [set_solver|]). constructor.
    - intros [v i] (j & Hj & _)%list_elem_of_bind (w & Hw & Hin)%list_elem_of_bind. apply list_elem_of_singleton in Hj. simplify_eq. apply list_elem_of_bind in Hw as (k & Hk & _). apply list_elem_of_singleton in Hk. simplify_eq. done. }
  apply NoDup_only; [apply NoDup_filter, Hp, Hnd|]. intros [v i]. unfold owners. rewrite list_elem_of_filter. split.
  - intros [Hv _]. apply Hx in Hv as (h & Hh' & <- & Eo). rewrite Hg in Hh'. simplify_eq. rewrite Ho in Eo. by simplify_eq.
  - intros [= -> ->]. assert (Ho' : owned G a (g_idx g) (OThread t)) by (by exists g). pose proof (x_local _ _ _ _ Hx _ _ _ Ho') as Hl. apply Hx in Ho'. split; [done|].
    pose proof (k_idx _ _ _ (b_slots _ _ _ Hb _ _ Hg)). apply list_elem_of_bind. exists t. split; [|by apply (Hall t (g_idx g) a)].
    apply list_elem_of_bind. exists (g_idx g). split; [by left|]. apply elem_of_seqZ. lia.
Qed.
(** The owner of a run is where the flags of the run say it is. *)
Definition verify_owner (a : Z) (r : Run) : M RosAlloc unit :=
  if is_thread_local_ r then match owners s threads a with [(_, i)] => check (i =? size_bracket_idx_ r) | _ => abort end
  else
    check (size_ (thread_local_free_list_ r) =? 0);;
    check (forallb (fun i => (i =? size_bracket_idx_ r) || bool_decide (current_runs_ s !! i <> Some a)) (seqZ 0 kNumOfSizeBrackets));;
    when (bool_decide (current_runs_ s !! size_bracket_idx_ r <> Some a))
      (check (negb (IsAllFree r));; when (negb (IsFull r)) (check (is_non_full s (size_bracket_idx_ r) a))).
Lemma verify_owner_done a g : G !! a = Some g -> verify_owner a (hdr g) s = Done (tt, s).
Proof.
  intros Hg. unfold verify_owner. destruct (h_settled _ _ _ Hh _ _ Hg) as (_ & _ & Hs). destruct (base_facts _ _ _ _ _ Hb Hg) as (Hk & _ & Hi & _). destruct (brackets_ok _ Hi) as (_ & _ & Hn & _).
  cbn [is_thread_local_ hdr thread_local_free_list_ size_bracket_idx_]. destruct (is_thread (g_own g)) eqn:Eo.
  - destruct (g_own g) as [t| | |] eqn:Eo'; try done. rewrite (owners_one a g t Hg Eo'). unfold check. by rewrite Z.eqb_refl.
  - rewrite bind_check by (cbn; by rewrite (k_local _ _ _ Hk Eo)). rewrite bind_check.
    2: { apply forallb_forall. intros i _. rewrite orb_true_iff, Z.eqb_eq, bool_decide_eq_true. destruct (decide (i = g_idx g)); [by left|right].
         intros (h & Hh' & <- & _)%Hx. rewrite Hg in Hh'. by simplify_eq. }
    case_bool_decide as Hc; [|done]. cbn [when]. destruct (g_own g) as [t| | |] eqn:Eo'; [done|exfalso; apply Hc, Hx; by exists g| |].
    + rewrite bind_check by (apply negb_true_iff, Z.eqb_neq; apply Hs). destruct (IsFull (hdr g)); [done|]. cbn [negb when]. unfold check, is_non_full. rewrite bool_decide_eq_true_2; [done|].
      apply (x_listed _ _ _ _ Hx). by exists g.
    + rewrite bind_check by (apply negb_true_iff, Z.eqb_neq; cbn; rewrite Hs; cbn; lia). replace (IsFull (hdr g)) with true; [done|]. unfold IsFull. cbn. by rewrite Hs.
Qed.
Lemma Run_Verify_done a g : G !! a = Some g -> Run_Verify SizeOf threads a s = Done (tt, s).
Proof.
  intros Hg. destruct (h_settled _ _ _ Hh _ _ Hg) as (_ & Hbk & _). destruct (base_facts _ _ _ _ _ Hb Hg) as (Hk & _ & Hi & _). destruct (brackets_ok _ Hi) as (_ & _ & _ & _ & _ & _ & E).
  unfold Run_Verify. rewrite (bind_done _ _ _ _ _ (get_run_done _ _ _ _ _ Hb Hg)), bind_gets. cbv zeta. rewrite bind_check by (cbn; rewrite andb_true_iff, Z.leb_le, Z.ltb_lt; lia).
  rewrite bind_check by (cbn [hdr size_bracket_idx_]; apply Z.eqb_eq; lia). rewrite bind_check by (cbn; by rewrite Hbk).
  rewrite (bind_done _ _ _ _ _ (verify_owner_done a g Hg)), (bind_done _ _ _ _ _ (on_words_read _ _ _ (free_slots_done s l G a g Hb Hg Hbk))).
  rewrite bind_check by (by apply (unused_are_slots s l G)). apply mfor_same. intros x Hxs. case_bool_decide as Hxu; [|done]. cbn [when]. destruct (slot_sizeof a g x Hg Hxs Hxu) as [Hle Es].
  rewrite bind_check by (by apply Z.leb_le). unfold check. cbn [hdr size_bracket_idx_]. by rewrite Es, Z.eqb_refl.
Qed.
Lemma Verify_done : Verify SizeOf threads s = Done (tt, s).
Proof.
  unfold Verify. pose proof (b_pages _ _ _ Hb) as Hi. rewrite bind_gets. rewrite (bind_done _ _ _ _ _ (verify_pages_done l [] (S (Z.to_nat (page_map_size_ (pages s)))) eq_refl ltac:(rewrite (p_size _ _ Hi); lia))).
  rewrite (bind_done _ _ _ _ _ (mfor_same threads _ s (fun t _ => verify_thread_done t))), (bind_done _ _ _ _ _ (mfor_same _ _ s (fun i _ => verify_current_done i))).
  apply mfor_same. intros a (j & n & Hu & ->)%run_addrs_used. destruct (used_run s l G j n Hb Hu) as (g & Hg & _). by apply (Run_Verify_done _ g).
Qed.
End Verify.
