(* ===== verification/RosAllocTheorems.v ===== *)
(** What RosAlloc guarantees: the statements about the whole allocator, with the
    inputs they are checked on. *)
From stdpp Require Import prelude gmap list.
From Stdlib Require Import ZArith Lia.
From S2P Require Import Prelude BitUtils RosAlloc RosAllocPages RosAllocFreePages RosAllocSegments RosAllocSlots RosAllocRuns RosAllocIndex RosAllocAlloc RosAllocFree RosAllocSpec RosAllocInspect.
Import RosAlloc.
Open Scope Z_scope.

(** ** The allocator *)
(** C3: a heap that is created refines the specification of an allocator.
    Whatever calls follow ([Alloc] in its two forms, the inlined allocation,
    [Free], [BulkFree], [UsableSize], the revocations, [Trim],
    [SetFootprintLimit], [ReleasePages], loads and stores in blocks), each that
    is allowed returns without failing a CHECK.  A block that is allocated is
    aligned, of the size of its bracket, in the heap, apart from all others and
    zeroed; a block keeps its contents until it is freed; freeing returns its
    size.  The bytes that are reported cover the blocks, and are exactly theirs
    when no thread has a run.  An allocation fails only when the run that serves
    it is full, no other run of its size has a free slot, and no window of
    pages below the capacity is free. *)
Theorem rosalloc_refines lo c mc mode threshold : heap_params lo c mc threshold ->
  exists s, Create lo (c * kPageSize) (mc * kPageSize) mode threshold = Done s /\
    forall calls, conform lo (mc * kPageSize) mode s spec_init calls.
Proof.
  intros (H0 & Hal & Hmax & Hc & Ht). destruct (sim_init lo c mc mode threshold H0 Hal Hmax Hc Ht) as (s & E & Hs). exists s. split; [done|].
  intros calls. by apply sim_conform.
Qed.
Lemma rosalloc_refines_witness : heap_params (2 ^ 20) 4 8 0 /\
  exists s, Create (2 ^ 20) (4 * kPageSize) (8 * kPageSize) kPageReleaseModeNone 0 = Done s /\
    conform (2 ^ 20) (8 * kPageSize) kPageReleaseModeNone s spec_init
      [CAlloc true 1 100; CAlloc true 1 5000; CWrite 1052680 7; CAllocLocal 1 100; CAlloc false 1 2000; CRead 1052680; CBulkFree [1048720; 1052672]; CSetFootprintLimit 32768; CRevoke 1; CTrim].
Proof.
  assert (Hp : heap_params (2 ^ 20) 4 8 0) by (repeat split; vm_compute; congruence). split; [exact Hp|].
  destruct (rosalloc_refines (2 ^ 20) 4 8 kPageReleaseModeNone 0 Hp) as (s & E & Hc). exists s. split; [exact E|apply Hc].
Defined.
(** Such a run, evaluated: a slot of a run of the thread with the slots that it
    gets in advance, a large object on two pages, the next slot without the
    lock, and no memory for a run of four pages. *)
Definition replies (calls : list call) (s : RosAlloc) : outcome (list reply) :=
  (fix go calls s := match calls with [] => Done [] | c :: calls => '(r, s) ← exec c s; rs ← go calls s; Done (r :: rs) end) calls s.
Lemma rosalloc_run_example :
  (s ← Create (2 ^ 20) (4 * kPageSize) (8 * kPageSize) kPageReleaseModeNone 0;
   replies [CAlloc true 1 100; CAlloc true 1 5000; CAllocLocal 1 100; CAlloc false 1 2000; CWrite 1052680 7; CRead 1052680; CBulkFree [1048720; 1052672]; CUsableSize 1048824; CFree 1048824; CRevoke 1; CTrim] s) =
  Done [RBlock (Some (mkAllocation 1048720 104 104 3952)); RBlock (Some (mkAllocation 1052672 8192 8192 8192)); RLocal (Some (1048824, 104)); RBlock None; RUnit; RBytes 7;
        RBytes 8296; RBytes 104; RBytes 104; RBytes 3744; RTrimmed true].
Proof. vm_compute. reflexivity. Qed.

(** The allocator and the specification after calls that are allowed. *)
Definition follow (lo mc : Z) (mode : PageReleaseMode) : list call -> RosAlloc -> astate -> option (RosAlloc * astate) :=
  fix go calls s a :=
    match calls with
    | [] => Some (s, a)
    | c :: calls =>
        if allowed (mc * kPageSize) mode a c then
          match exec c s with
          | Done (r, s') => match spec_next lo (mc * kPageSize) a c r with Some a' => go calls s' a' | None => None end
          | _ => None
          end
        else None
    end.
Lemma follow_reachable lo mc mode calls : forall s a s' a', reachable lo mc mode s a -> follow lo mc mode calls s a = Some (s', a') -> reachable lo mc mode s' a'.
Proof.
  induction calls as [|c calls IH]; intros s a s' a' Hr; cbn; [by intros [= <- <-]|]. destruct (allowed _ _ a c) eqn:Ea; [|done]. destruct (exec c s) as [[r s1]| | |] eqn:E; try done.
  destruct (spec_next _ _ a c r) as [a1|] eqn:En; [|done]. apply IH. by apply (reach_step _ _ _ s a c r).
Qed.
Definition sample_calls : list call := [CAlloc true 1 100; CAlloc true 1 5000; CAllocLocal 1 100; CAlloc false 1 2000; CFree 1048720].
Definition sample_result : option (RosAlloc * astate) :=
  match Create (2 ^ 20) (4 * kPageSize) (8 * kPageSize) kPageReleaseModeNone 0 with Done s => follow (2 ^ 20) 8 kPageReleaseModeNone sample_calls s spec_init | _ => None end.
Definition sample_heap : RosAlloc := from_option fst (mkRosAlloc (mkPages 0 0 0 0 [] ∅ 0 [] kPageReleaseModeNone 0 ∅) ∅ ∅ ∅ ∅) sample_result.
Definition sample_blocks : astate := from_option snd spec_init sample_result.
Lemma sample_reachable : reachable (2 ^ 20) 8 kPageReleaseModeNone sample_heap sample_blocks.
Proof.
  assert (Hp : heap_params (2 ^ 20) 4 8 0) by (repeat split; vm_compute; congruence). assert (Hs : (match sample_result with Some _ => true | None => false end) = true) by (vm_compute; reflexivity).
  unfold sample_heap, sample_blocks. destruct sample_result as [[s' a']|] eqn:Es; [|discriminate Hs]. cbn. unfold sample_result in Es.
  destruct (Create _ _ _ _ _) as [s| | |] eqn:E; try done. apply (follow_reachable _ _ _ sample_calls s spec_init _ _ (reach_init _ _ _ 4 0 s Hp E) Es).
Qed.

(** ** Pages *)
(** C19: [AllocPages] takes the first run of free pages that is large enough, and
    grows the heap only when there is none.  The pages it returns were zero,
    what it does not need stays a run of free pages, and the map of pages, the
    sizes and the set of free runs are consistent again.  It fails only when
    every window of that many pages below the capacity has a page in use, and
    then changes nothing. *)
Theorem rosalloc_pages_first_fit p l num k : pages_inv p l -> 0 < num -> k <> SFree ->
  exists r p', AllocPages num (seg_type k) p = Done (r, p') /\
    match r with
    | Some a => exists l', pages_inv p' l' /\ pages_taken p p' k num l l' a
    | None => p' = p /\ no_room p num
    end.
Proof.
  intros Hi Hn Hk. destruct (AllocPages_spec p l num k Hi Hn Hk) as (r & p' & E & Hr). exists r, p'. split; [done|]. destruct r as [a|]; [done|].
  destruct Hr as (-> & Hts & l0 & n & El & Hn0 & Hl0 & Hc). split; [done|]. by apply (too_small_no_room p l l0 n).
Qed.
(** A heap of four pages that may have eight, with a run of two pages. *)
Definition sample_pages : Pages :=
  match Create (2 ^ 20) (4 * kPageSize) (8 * kPageSize) kPageReleaseModeNone 0 with
  | Done s => match AllocPages 2 kPageMapRun (pages s) with Done (_, p) => p | _ => pages s end
  | _ => mkPages 0 0 0 0 [] ∅ 0 [] kPageReleaseModeNone 0 ∅
  end.
Lemma sample_pages_inv : pages_inv sample_pages [(SRun, 2); (SFree, 2)].
Proof.
  destruct (Create_spec (2 ^ 20) 4 8 kPageReleaseModeNone 0) as (p & E & Hi & _); [done..|lia|done|].
  destruct (AllocPages_spec p _ 2 SRun Hi ltac:(lia) ltac:(done)) as (r & p' & E' & Hr).
  unfold sample_pages. rewrite E. cbn [pages seg_type] in *. rewrite E'. destruct r as [a|].
  - destruct Hr as (l' & Hi' & l0 & l1 & n & l2 & Hg & -> & _ & Hle & -> & _). assert (El : l1 ++ (SFree, n) :: l2 = [(SFree, 4)]).
    { destruct Hg as [?|(Hts & _)]; [done|]. apply Forall_cons in Hts as [Hts _]. specialize (Hts eq_refl). cbn in Hts. lia. }
    destruct l1 as [|? [|]]; [|done..]. by injection El as -> ->.
  - destruct Hr as (_ & Hts & _). apply Forall_cons in Hts as [Hts _]. specialize (Hts eq_refl). cbn in Hts. lia.
Qed.
Lemma rosalloc_pages_first_fit_witness : exists r p', AllocPages 1 kPageMapLargeObject sample_pages = Done (r, p') /\
    match r with
    | Some a => exists l', pages_inv p' l' /\ pages_taken sample_pages p' SLarge 1 [(SRun, 2); (SFree, 2)] l' a
    | None => p' = sample_pages /\ no_room sample_pages 1
    end.
Proof. apply (rosalloc_pages_first_fit sample_pages _ 1 SLarge sample_pages_inv); [lia|done]. Defined.

(** C20: [FreePages] returns the bytes of the run or large object that it frees,
    zeroes its pages, joins them with the runs of free pages before and after
    them, and leaves two runs of free pages never next to each other. *)
Theorem rosalloc_pages_coalesce p l1 k n l2 (already_zero : bool) : pages_inv p (l1 ++ (k, n) :: l2) -> k <> SFree ->
  (already_zero = true -> forall a, addr p (npages l1) <= a < addr p (npages l1 + n) -> ld (words p) a = 0) ->
  exists l1' m1 m2 l2' p', l1 = l1' ++ rest m1 /\ l2 = rest m2 ++ l2' /\ 0 <= m1 /\ 0 <= m2 /\
    is_free (last l1') = false /\ is_free (head l2') = false /\
    FreePages (addr p (npages l1)) already_zero p = Done (n * kPageSize, p') /\ pages_inv p' (l1' ++ (SFree, m1 + n + m2) :: l2') /\
    frame p p' /\ footprint_ p' = footprint_ p /\
    forall a, ld (words p') a = if (addr p (npages l1) <=? a) && (a <? addr p (npages l1 + n)) then 0 else ld (words p) a.
Proof. apply FreePages_spec. Qed.
Lemma rosalloc_pages_coalesce_witness : exists l1' m1 m2 l2' p', [] = l1' ++ rest m1 /\ [(SFree, 2)] = rest m2 ++ l2' /\ 0 <= m1 /\ 0 <= m2 /\
    is_free (last l1') = false /\ is_free (head l2') = false /\
    FreePages (addr sample_pages (npages [])) false sample_pages = Done (2 * kPageSize, p') /\ pages_inv p' (l1' ++ (SFree, m1 + 2 + m2) :: l2') /\
    frame sample_pages p' /\ footprint_ p' = footprint_ sample_pages /\
    forall a, ld (words p') a = if (addr sample_pages (npages []) <=? a) && (a <? addr sample_pages (npages [] + 2)) then 0 else ld (words sample_pages) a.
Proof. apply (rosalloc_pages_coalesce sample_pages [] SRun 2 [(SFree, 2)] false sample_pages_inv); done. Defined.

(** C35: giving memory back touches free pages only.  [Trim] cuts off exactly the
    run of free pages at the end of the heap and says whether there was one;
    [ReleasePages] releases exactly the empty pages, counts their bytes, and
    leaves the contents of all pages as they were. *)
Theorem rosalloc_gives_back p l : pages_inv p l ->
  (exists l0 n p', l = l0 ++ rest n /\ 0 <= n /\ is_free (last l0) = false /\ Trim p = Done (0 <? n, p') /\ pages_inv p' l0 /\
     words p' = words p /\ footprint_ p' = footprint_ p - n * kPageSize) /\
  (page_release_mode_ p <> kPageReleaseModeAll ->
   exists p', ReleasePages p = Done (kPageSize * empty_pages p 0 (npages l), p') /\ pages_inv p' l /\
     footprint_ p' = footprint_ p /\ (forall a, ld (words p') a = ld (words p) a) /\ all_released p p' 0).
Proof.
  intros Hi. split.
  - destruct (Trim_spec p l Hi) as (l0 & n & p' & E & Hn & Hl & Et & Hi' & _ & Hw & Hf). by exists l0, n, p'.
  - intros Hm. destruct (ReleasePages_spec p l Hi Hm) as (p' & E & Hi' & _ & Hf & Hw & Hr). by exists p'.
Qed.
Lemma rosalloc_gives_back_witness : (exists l0 n p', [(SRun, 2); (SFree, 2)] = l0 ++ rest n /\ 0 <= n /\ is_free (last l0) = false /\ Trim sample_pages = Done (0 <? n, p') /\ pages_inv p' l0 /\
     words p' = words sample_pages /\ footprint_ p' = footprint_ sample_pages - n * kPageSize) /\
  exists p', ReleasePages sample_pages = Done (kPageSize * empty_pages sample_pages 0 4, p') /\ pages_inv p' [(SRun, 2); (SFree, 2)].
Proof.
  destruct (rosalloc_gives_back sample_pages _ sample_pages_inv) as [Ht Hr]. split; [exact Ht|].
  destruct Hr as (p' & E & Hi & _); [vm_compute; congruence|]. exists p'. split; [exact E|exact Hi].
Defined.

(** ** Sizes *)
(** C36: the size brackets fit.  A small size is served by the smallest bracket
    that holds it, [SizeToIndex], [SizeToIndexAndBracketSize] and
    [RoundToBracketSize] agree, and the sizes of thread-local brackets are those
    of [IsSizeForThreadLocal].  A run of any bracket is its header and its slots,
    which fill its pages exactly and are aligned to eight bytes. *)
Theorem rosalloc_brackets size : 0 < size <= kLargeSizeThreshold ->
  exists idx, 0 <= idx < kNumOfSizeBrackets /\ SizeToIndex size = idx /\ SizeToIndexAndBracketSize size = (idx, bracketSizes idx) /\ RoundToBracketSize size = bracketSizes idx /\
    size <= bracketSizes idx /\ (idx = 0 \/ bracketSizes (idx - 1) < size) /\ (idx <? kNumThreadLocalSizeBrackets) = IsSizeForThreadLocal size /\
    bracketSizes idx mod 8 = 0 /\ headerSizes idx mod 8 = 0 /\ 0 < headerSizes idx /\ 0 < numOfSlots idx /\
    headerSizes idx + numOfSlots idx * bracketSizes idx = kPageSize * numOfPages idx.
Proof.
  intros Hs. destruct (sizes_ok size Hs) as (idx & E & Hi & Hle & Ei & Er & Et & Hp). destruct (brackets_ok idx Hi) as (_ & Hb & [Hn _] & Hh8 & Hh & _ & Esz). exists idx. tauto.
Qed.
Lemma rosalloc_brackets_witness : exists idx, 0 <= idx < kNumOfSizeBrackets /\ SizeToIndex 100 = idx /\ SizeToIndexAndBracketSize 100 = (idx, bracketSizes idx) /\ RoundToBracketSize 100 = bracketSizes idx /\
    100 <= bracketSizes idx /\ (idx = 0 \/ bracketSizes (idx - 1) < 100) /\ (idx <? kNumThreadLocalSizeBrackets) = IsSizeForThreadLocal 100 /\
    bracketSizes idx mod 8 = 0 /\ headerSizes idx mod 8 = 0 /\ 0 < headerSizes idx /\ 0 < numOfSlots idx /\
    headerSizes idx + numOfSlots idx * bracketSizes idx = kPageSize * numOfPages idx.
Proof. apply (rosalloc_brackets 100). unfold kLargeSizeThreshold. lia. Defined.

(** ** Walks over the heap *)
(** C15: in every state that calls can lead to, [InspectAll] reports each block in
    use exactly once, with its size, and reports nothing else as used; the
    bytes and the objects that are counted with it are those of the blocks.  It
    does not change the heap. *)
Theorem rosalloc_inspects_blocks lo mc mode s a : reachable lo mc mode s a ->
  exists calls, InspectAll s = Done (calls, s) /\ NoDup ((fun c : Z * Z * Z => c.1.1) <$> calls) /\
    (forall x e n, (x, e, n) ∈ calls /\ n <> 0 <-> e = x + n /\ blocks a !! x = Some n) /\
    bytes_allocated_in calls = total (blocks a) /\ objects_allocated_in calls = Z.of_nat (size (blocks a)).
Proof.
  intros (l & G & Hs)%reachable_sim. pose proof (m_heap _ _ _ _ _ _ _ Hs) as Hh. pose proof (h_base _ _ _ Hh) as Hb. exists (expected (pages s) G 0 l). split; [apply InspectAll_done; [done|]; intros x g Hg; by destruct (h_settled _ _ _ Hh x g Hg) as (_ & ? & _)|].
  destruct (inspect_blocks s l G (blocks a) Hb (m_blocks _ _ _ _ _ _ _ Hs)) as (Hn & Ho & Hnd). split; [done|]. split; [|done].
  intros x e n. rewrite (expected_live s l G x e n Hb). by rewrite (m_blocks _ _ _ _ _ _ _ Hs).
Qed.
Lemma rosalloc_inspects_blocks_witness : blocks sample_blocks !! 1048824 = Some 104 /\ exists calls, InspectAll sample_heap = Done (calls, sample_heap) /\ NoDup ((fun c : Z * Z * Z => c.1.1) <$> calls) /\
    (forall x e n, (x, e, n) ∈ calls /\ n <> 0 <-> e = x + n /\ blocks sample_blocks !! x = Some n) /\
    bytes_allocated_in calls = total (blocks sample_blocks) /\ objects_allocated_in calls = Z.of_nat (size (blocks sample_blocks)).
Proof. split; [vm_compute; reflexivity|]. apply (rosalloc_inspects_blocks (2 ^ 20) 8 kPageReleaseModeNone). apply sample_reachable. Defined.

(** C14: in every state that calls can lead to, the checks of [Verify] pass: the
    maps of pages and of sizes agree with the runs, a run that is marked as a
    thread's is the run of exactly one thread and bracket, the others are a
    current run, or in the set of runs that are not full, or full, and the
    objects fit the slots that they are in.  The hypotheses say that the
    threads of the list are distinct and include all that have runs, and that
    an object is as large as what was asked for when it was allocated. *)
Theorem rosalloc_verifies lo mc mode s a (SizeOf : Z -> Z) threads : reachable lo mc mode s a ->
  NoDup threads -> (forall t, t ∈ locals a -> t ∈ threads) ->
  (forall x n, blocks a !! x = Some n -> 0 < SizeOf x /\ SizeOf x + kPageSize <= 2 ^ 64 /\ block_size (SizeOf x) = n) ->
  Verify SizeOf threads s = Done (tt, s).
Proof.
  intros (l & G & Hs)%reachable_sim Hnd Hall Hsz. apply (Verify_done SizeOf s l G threads (m_heap _ _ _ _ _ _ _ Hs) Hnd).
  - intros t i x Ht. by apply Hall, (m_locals _ _ _ _ _ _ _ Hs t i x).
  - intros x n Hl. by apply Hsz, (m_blocks _ _ _ _ _ _ _ Hs).
Qed.
Lemma rosalloc_verifies_witness : Verify (fun x => if x =? 1048824 then 100 else 5000) [1; 2] sample_heap = Done (tt, sample_heap).
Proof.
  apply (rosalloc_verifies (2 ^ 20) 8 kPageReleaseModeNone sample_heap sample_blocks); [apply sample_reachable|..].
  - apply (bool_decide_eq_true_1 _). vm_compute. reflexivity.
  - intros t Ht. assert (E : locals sample_blocks = {[ 1 ]}) by (vm_compute; reflexivity). rewrite E in Ht. apply elem_of_singleton in Ht as ->. left.
  - assert (H : map_Forall (fun x n => 0 < (if x =? 1048824 then 100 else 5000) /\ (if x =? 1048824 then 100 else 5000) + kPageSize <= 2 ^ 64 /\ block_size (if x =? 1048824 then 100 else 5000) = n) (blocks sample_blocks)).
    { apply (bool_decide_eq_true_1 _). vm_compute. reflexivity. }
    exact H.
Defined.

(** ** Where the comments say something else *)
(** A run of a thread is full although one of its 31 slots is free: the slot is in
    the list that the thread's next refill merges. *)
Lemma full_run_has_free_slot :
  match Create (2 ^ 20) (4 * kPageSize) (8 * kPageSize) kPageReleaseModeNone 0 with
  | Done s =>
      match follow (2 ^ 20) 8 kPageReleaseModeNone (repeat (CAlloc true 1 128) 31 ++ [CFree (2 ^ 20 + 128)]) s spec_init with
      | Some (s, a) => (bool_decide (size (blocks a) = 30%nat), (fun r => (IsFull r, size_ (thread_local_free_list_ r))) <$> runs s !! (2 ^ 20))
      | None => (false, None)
      end
  | _ => (false, None)
  end = (true, Some (true, 1)).
Proof. vm_compute. reflexivity. Qed.
(** Pages that are larger than the threshold, and not at the end of the space,
    are not released in the mode for both. *)
Lemma size_and_end_needs_both :
  let p := mkPages (2 ^ 20) (4 * kPageSize) (4 * kPageSize) (4 * kPageSize) [2 ^ 20] {[ 3 := kPageMapRun ]} 4 [3 * kPageSize; 0; 0; 0] kPageReleaseModeSizeAndEnd kPageSize ∅ in
  ShouldReleasePages (2 ^ 20) p = Done (false, p).
Proof. vm_compute. reflexivity. Qed.
