(* ===== verification/RosAllocSpace.v ===== *)
(** The space of the heap that RosAlloc serves (runtime/gc/space/rosalloc_space.h,
    rosalloc_space-inl.h, rosalloc_space.cc, with malloc_space.h, malloc_space.cc and
    [ContinuousMemMapAllocSpace] of space.cc): its limits, the pages that may be
    accessed, allocation and release, the two bitmaps, sweeping, and the split
    into a zygote space and the space of a child.

    The build is the release build for Android without a memory tool, as in
    RosAlloc: [kDebugSpaces] is false, DCHECKs are modelled as CHECKs.
    [ArtRosAllocMoreCore], which RosAlloc calls when its footprint changes, is
    applied at the end of each operation on RosAlloc, with the difference of the
    footprints: none changes it in both directions.  The kernel is asked for
    memory by [MapAnonymous], an argument; changes of the protection of pages
    succeed.  [GcRecordFree] is in Swap: the objects it is called with are
    recorded here in their order.  Names, locks, and the statistics of
    marvin_instrumentation.h are not part of the state. *)
From stdpp Require Import prelude gmap list.
From Stdlib Require Import ZArith Lia.
From S2P Require Import Prelude BitUtils SpaceBitmap RosAlloc.
Import RosAlloc.
Open Scope Z_scope.

Module RosAllocSpace.
Definition kObjectAlignment : Z := 8.
Definition kGcCardSize : Z := 128.
Definition kDefaultStartingSize : Z := kPageSize.
Definition kDefaultPageReleaseSizeThreshold : Z := 4 * MB.
Abbreviation ContinuousSpaceBitmap := SpaceBitmap.SpaceBitmap.

Record MemMap := mkMemMap { map_begin : Z; map_size : Z }.
Record RosAllocSpace := mkSpace {
  mem_map_ : MemMap;
  begin_ : Z;
  end_ : Z;
  limit_ : Z;
  growth_limit_ : Z;
  starting_size_ : Z;
  initial_size_ : Z;
  low_memory_mode_ : bool;
  live_bitmap_ : ContinuousSpaceBitmap;
  mark_bitmap_ : option ContinuousSpaceBitmap;     (* None: the bitmap of live_bitmap_ *)
  temp_bitmap_ : option ContinuousSpaceBitmap;     (* None: nullptr *)
  rosalloc_ : RosAlloc;
  accessible : Z -> bool;                          (* PROT_READ | PROT_WRITE, or PROT_NONE *)
  recorded : list Z                                (* calls of GcRecordFree *)
}.
Definition with_limits (map : MemMap) (e limit growth : Z) (s : RosAllocSpace) : RosAllocSpace :=
  mkSpace map (begin_ s) e limit growth (starting_size_ s) (initial_size_ s) (low_memory_mode_ s)
    (live_bitmap_ s) (mark_bitmap_ s) (temp_bitmap_ s) (rosalloc_ s) (accessible s) (recorded s).
Definition with_bitmaps (live : ContinuousSpaceBitmap) (mark temp : option ContinuousSpaceBitmap) (s : RosAllocSpace) : RosAllocSpace :=
  mkSpace (mem_map_ s) (begin_ s) (end_ s) (limit_ s) (growth_limit_ s) (starting_size_ s) (initial_size_ s) (low_memory_mode_ s)
    live mark temp (rosalloc_ s) (accessible s) (recorded s).
Definition with_rosalloc (r : RosAlloc) (s : RosAllocSpace) : RosAllocSpace :=
  mkSpace (mem_map_ s) (begin_ s) (end_ s) (limit_ s) (growth_limit_ s) (starting_size_ s) (initial_size_ s) (low_memory_mode_ s)
    (live_bitmap_ s) (mark_bitmap_ s) (temp_bitmap_ s) r (accessible s) (recorded s).
Definition with_accessible (f : Z -> bool) (s : RosAllocSpace) : RosAllocSpace :=
  mkSpace (mem_map_ s) (begin_ s) (end_ s) (limit_ s) (growth_limit_ s) (starting_size_ s) (initial_size_ s) (low_memory_mode_ s)
    (live_bitmap_ s) (mark_bitmap_ s) (temp_bitmap_ s) (rosalloc_ s) f (recorded s).
Definition record_free (ptrs : list Z) (s : RosAllocSpace) : RosAllocSpace :=
  mkSpace (mem_map_ s) (begin_ s) (end_ s) (limit_ s) (growth_limit_ s) (starting_size_ s) (initial_size_ s) (low_memory_mode_ s)
    (live_bitmap_ s) (mark_bitmap_ s) (temp_bitmap_ s) (rosalloc_ s) (accessible s) (recorded s ++ ptrs).
Definition SetEnd (e : Z) (s : RosAllocSpace) : RosAllocSpace := with_limits (mem_map_ s) e (limit_ s) (growth_limit_ s) s.
Definition SetLimit (l : Z) (s : RosAllocSpace) : RosAllocSpace := with_limits (mem_map_ s) (end_ s) l (growth_limit_ s) s.

(** ** Limits *)
Definition Size (s : RosAllocSpace) : Z := end_ s - begin_ s.
Definition Capacity (s : RosAllocSpace) : Z := growth_limit_ s.
Definition NonGrowthLimitCapacity (s : RosAllocSpace) : Z := map_size (mem_map_ s).
Definition HasAddress (s : RosAllocSpace) (obj : Z) : bool := (begin_ s <=? obj) && (obj <? limit_ s).
Definition Contains : RosAllocSpace -> Z -> bool := HasAddress.
Definition protect (start size : Z) (b : bool) (f : Z -> bool) : Z -> bool :=
  fun a => if (start <=? a) && (a <? start + size) then b else f a.
Definition mprotect (start size : Z) (b : bool) : M RosAllocSpace unit :=
  modify (fun s => with_accessible (protect start size b (accessible s)) s).
(** [madvise(start, size, MADV_DONTNEED)] *)
Definition discard (start size : Z) : M RosAllocSpace unit :=
  modify (fun s =>
    let r := rosalloc_ s in
    with_rosalloc (with_pages (with_words (zero_range (words (pages r)) start size) (pages r)) r) s).

Definition MoreCore (increment : Z) : M RosAllocSpace Z :=
  original_end ← gets end_;
  when (negb (increment =? 0))
    (let new_end := original_end + increment in
     (if 0 <? increment then
        ok ← gets (fun s => new_end <=? begin_ s + Capacity s);
        check ok;;
        mprotect original_end increment true
      else
        ok ← gets (fun s => begin_ s <=? original_end + increment);
        check ok;;
        discard new_end (- increment);;
        mprotect new_end (- increment) false);;
     modify (SetEnd new_end));;
  mret original_end.
Definition SetGrowthLimit (growth_limit : Z) (s : RosAllocSpace) : RosAllocSpace :=
  let growth_limit := RoundUp growth_limit kPageSize in
  let s := with_limits (mem_map_ s) (end_ s) (limit_ s) growth_limit s in
  if growth_limit_ s <? Size s then SetEnd (begin_ s + growth_limit) s else s.
Definition ClearGrowthLimit (s : RosAllocSpace) : RosAllocSpace :=
  with_limits (mem_map_ s) (end_ s) (limit_ s) (NonGrowthLimitCapacity s) s.

(** ** Bitmaps *)
Definition GetLiveBitmap (s : RosAllocSpace) : ContinuousSpaceBitmap := live_bitmap_ s.
Definition GetMarkBitmap (s : RosAllocSpace) : ContinuousSpaceBitmap := default (live_bitmap_ s) (mark_bitmap_ s).
Definition HasBoundBitmaps (s : RosAllocSpace) : bool := match temp_bitmap_ s with Some _ => true | None => false end.
(** The heap's list of bitmaps, in which the bitmap is replaced, is not part of
    the state. *)
Definition BindLiveToMarkBitmap : M RosAllocSpace unit :=
  bound ← gets HasBoundBitmaps;
  check (negb bound);;
  modify (fun s => match mark_bitmap_ s with
                   | Some mark_bitmap => with_bitmaps (live_bitmap_ s) None (Some mark_bitmap) s
                   | None => s
                   end).
Definition UnBindBitmaps : M RosAllocSpace unit :=
  temp ← gets temp_bitmap_;
  mark ← gets mark_bitmap_;
  match temp, mark with
  | Some new_bitmap, None => modify (fun s => with_bitmaps (live_bitmap_ s) (Some new_bitmap) None s)
  | _, _ => abort
  end.
Definition SwapBitmaps (s : RosAllocSpace) : RosAllocSpace :=
  match mark_bitmap_ s with
  | Some mark_bitmap => with_bitmaps mark_bitmap (Some (live_bitmap_ s)) (temp_bitmap_ s) s
  | None => s
  end.
(** A change of the bitmap that [live_bitmap_] or that [mark_bitmap_] points to. *)
Definition on_live (f : ContinuousSpaceBitmap -> outcome ContinuousSpaceBitmap) : M RosAllocSpace unit :=
  fun s => b ← f (live_bitmap_ s); Done (tt, with_bitmaps b (mark_bitmap_ s) (temp_bitmap_ s) s).
Definition on_mark (f : ContinuousSpaceBitmap -> outcome ContinuousSpaceBitmap) : M RosAllocSpace unit :=
  fun s => match mark_bitmap_ s with
           | Some mark => b ← f mark; Done (tt, with_bitmaps (live_bitmap_ s) (Some b) (temp_bitmap_ s) s)
           | None => on_live f s
           end.
Definition on_temp (f : ContinuousSpaceBitmap -> outcome ContinuousSpaceBitmap) : M RosAllocSpace unit :=
  fun s => match temp_bitmap_ s with
           | Some temp => b ← f temp; Done (tt, with_bitmaps (live_bitmap_ s) (mark_bitmap_ s) (Some b) s)
           | None => Done (tt, s)
           end.
(** [MemMap::SetSize], which unmaps the end of the mapping. *)
Definition SetSize (new_size : Z) : M RosAllocSpace unit :=
  map ← gets mem_map_;
  when (negb (new_size =? map_size map))
    (check ((new_size mod kPageSize =? 0) && (new_size <=? map_size map));;
     mprotect (map_begin map + new_size) (map_size map - new_size) false;;
     modify (fun s => with_limits (mkMemMap (map_begin map) new_size) (end_ s) (limit_ s) (growth_limit_ s) s)).
Definition ClampGrowthLimit : M RosAllocSpace unit :=
  new_capacity ← gets Capacity;
  ok ← gets (fun s => new_capacity <=? NonGrowthLimitCapacity s);
  check ok;;
  on_live (SpaceBitmap.SetHeapSize kObjectAlignment new_capacity);;
  on_mark (SpaceBitmap.SetHeapSize kObjectAlignment new_capacity);;
  on_temp (SpaceBitmap.SetHeapSize kObjectAlignment new_capacity);;
  SetSize new_capacity;;
  modify (fun s => SetLimit (begin_ s + new_capacity) s).

(** ** Creation *)
Definition CreateRosAlloc (begin morecore_start initial_size maximum_size : Z) (low_memory_mode : bool) : outcome RosAlloc :=
  rosalloc ← RosAlloc.Create begin morecore_start maximum_size
               (if low_memory_mode then kPageReleaseModeAll else kPageReleaseModeSizeAndEnd) kDefaultPageReleaseSizeThreshold;
  '(_, rosalloc) ← in_pages (RosAlloc.SetFootprintLimit initial_size) rosalloc;
  Done rosalloc.
(** The constructor; [mapped] tells whether there is memory for the bitmaps. *)
Definition new_space (mapped : bool) (map : MemMap) (initial_size : Z) (rosalloc : RosAlloc) (begin end_ limit growth_limit starting_size : Z)
    (low_memory_mode : bool) (accessible : Z -> bool) : outcome RosAllocSpace :=
  dcheck ((map_begin map mod kGcCardSize =? 0) && ((map_begin map + map_size map) mod kGcCardSize =? 0))
    (live ← SpaceBitmap.Create kObjectAlignment mapped begin (map_size map);
     mark ← SpaceBitmap.Create kObjectAlignment mapped begin (map_size map);
     match live, mark with
     | Some live, Some mark =>
         Done (mkSpace map begin end_ limit growth_limit starting_size initial_size low_memory_mode live (Some mark) None rosalloc accessible [])
     | _, _ => Aborted
     end).
Definition CreateFromMemMap (mapped : bool) (map : MemMap) (starting_size initial_size growth_limit capacity : Z) (low_memory_mode : bool) : outcome RosAllocSpace :=
  rosalloc ← CreateRosAlloc (map_begin map) starting_size initial_size capacity low_memory_mode;
  let end_ := map_begin map + starting_size in
  let accessible := if 0 <? capacity - starting_size then protect end_ (capacity - starting_size) false (fun _ => true) else fun _ => true in
  new_space mapped map initial_size rosalloc (map_begin map) end_ (map_begin map + capacity) growth_limit starting_size low_memory_mode accessible.
(** The mapping, and the sizes that are updated: the initial size, the growth
    limit and the capacity. *)
Definition CreateMemMap (MapAnonymous : Z -> Z -> option Z) (starting_size initial_size growth_limit capacity requested_begin : Z) :
    option (MemMap * (Z * Z * Z)) :=
  let initial_size := if initial_size <? starting_size then starting_size else initial_size in
  if growth_limit <? initial_size then None
  else if capacity <? growth_limit then None
  else
    let growth_limit := RoundUp growth_limit kPageSize in
    let capacity := RoundUp capacity kPageSize in
    match MapAnonymous requested_begin capacity with
    | Some begin => Some (mkMemMap begin capacity, (initial_size, growth_limit, capacity))
    | None => None
    end.
Definition Create (MapAnonymous : Z -> Z -> option Z) (mapped : bool) (initial_size growth_limit capacity requested_begin : Z) (low_memory_mode : bool) :
    outcome (option RosAllocSpace) :=
  let starting_size := kDefaultStartingSize in
  match CreateMemMap MapAnonymous starting_size initial_size growth_limit capacity requested_begin with
  | None => Done None
  | Some (map, (initial_size, growth_limit, capacity)) =>
      s ← CreateFromMemMap mapped map starting_size initial_size growth_limit capacity low_memory_mode;
      Done (Some s)
  end.

(** ** Operations of RosAlloc *)
Definition in_ros {A} (f : M RosAlloc A) : M RosAllocSpace A :=
  fun s =>
    '(a, r) ← f (rosalloc_ s);
    '(_, s) ← MoreCore (footprint_ (pages r) - footprint_ (pages (rosalloc_ s))) (with_rosalloc r s);
    Done (a, s).

Definition AllocCommon (kThreadSafe : bool) (self num_bytes : Z) : M RosAllocSpace (option allocation) :=
  result ← in_ros (RosAlloc.Alloc kThreadSafe self num_bytes);
  match result with
  | None => mret None
  | Some al =>
      size ← in_ros (UsableSize (alloc_addr al));
      check (usable_size al =? size);;
      mret (Some al)
  end.
Definition AllocNonvirtual (self num_bytes : Z) : M RosAllocSpace (option allocation) := AllocCommon true self num_bytes.
Definition AllocNonvirtualThreadUnsafe (self num_bytes : Z) : M RosAllocSpace (option allocation) := AllocCommon false self num_bytes.
Definition AllocWithGrowth (self num_bytes : Z) : M RosAllocSpace (option allocation) :=
  max_allowed ← gets Capacity;
  in_ros (in_pages (RosAlloc.SetFootprintLimit max_allowed));;
  result ← AllocCommon true self num_bytes;
  footprint ← gets (fun s => footprint_ (pages (rosalloc_ s)));
  in_ros (in_pages (RosAlloc.SetFootprintLimit footprint));;
  mret result.
Definition CanAllocThreadLocal (self num_bytes : Z) : M RosAllocSpace bool := in_ros (CanAllocFromThreadLocalRun self num_bytes).
Definition AllocThreadLocal (self num_bytes : Z) : M RosAllocSpace (option (Z * Z)) := in_ros (AllocFromThreadLocalRun self num_bytes).
(** [UsableSize] of a size, and the size of an object by its class and by its
    address. *)
Definition UsableSizeOf (bytes : Z) : Z := if kLargeSizeThreshold <? bytes then RoundUp bytes kPageSize else RoundToBracketSize bytes.
Definition AllocationSizeNonvirtual (SizeOf : Z -> Z) (obj : Z) : M RosAllocSpace Z :=
  let size_by_size := UsableSizeOf (SizeOf obj) in
  size_by_ptr ← in_ros (UsableSize obj);
  check (size_by_size =? size_by_ptr);;
  mret size_by_size.

Definition Free (ptr : Z) : M RosAllocSpace Z := modify (record_free [ptr]);; in_ros (RosAlloc.Free ptr).
Definition FreeList (ptrs : list Z) : M RosAllocSpace Z := modify (record_free ptrs);; in_ros (BulkFree ptrs).
Definition Trim : M RosAllocSpace Z :=
  in_ros (in_pages RosAlloc.Trim);;
  all ← gets (fun s => DoesReleaseAllPages (pages (rosalloc_ s)));
  if negb all then in_ros (in_pages ReleasePages) else mret 0.
Definition GetFootprint (s : RosAllocSpace) : Z := footprint_ (pages (rosalloc_ s)).
Definition GetFootprintLimit (s : RosAllocSpace) : Z := capacity_ (pages (rosalloc_ s)).
Definition SetFootprintLimit (new_size : Z) : M RosAllocSpace unit :=
  current_space_size ← gets GetFootprint;
  in_ros (in_pages (RosAlloc.SetFootprintLimit (if new_size <? current_space_size then current_space_size else new_size))).
Definition RevokeThreadLocalBuffers (thread : Z) : M RosAllocSpace Z := in_ros (RevokeThreadLocalRuns thread).
Definition RevokeAllThreadLocalBuffers (thread_list : list Z) : M RosAllocSpace Z := in_ros (RevokeAllThreadLocalRuns thread_list).
Definition AssertThreadLocalRunsAreRevoked (thread : Z) : M RosAlloc unit :=
  mfor thread_brackets (fun idx =>
    run ← gets (fun s => thread_runs s !! (thread, idx));
    check (bool_decide (run = None))).
Definition AssertAllThreadLocalRunsAreRevoked (thread_list : list Z) : M RosAlloc unit :=
  mfor thread_list AssertThreadLocalRunsAreRevoked;;
  mfor thread_brackets (fun idx =>
    run ← gets (fun s => current_runs_ s !! idx);
    check (bool_decide (run = None))).

(** The calls of the callback; with [do_null_callback_at_end], one more. *)
Definition InspectAllRosAlloc (do_null_callback_at_end : bool) : M RosAllocSpace (list (Z * Z * Z)) :=
  calls ← in_ros InspectAll;
  mret (if do_null_callback_at_end then calls ++ [(0, 0, 0)] else calls).
Definition Walk : M RosAllocSpace (list (Z * Z * Z)) := InspectAllRosAlloc true.
Definition GetBytesAllocated : M RosAllocSpace Z := calls ← InspectAllRosAlloc false; mret (bytes_allocated_in calls).
Definition GetObjectsAllocated : M RosAllocSpace Z := calls ← InspectAllRosAlloc false; mret (objects_allocated_in calls).

(** The runs of the threads are members of the threads: [Clear] and the split of
    the zygote do not change them. *)
Definition Clear : M RosAllocSpace unit :=
  footprint_limit ← gets GetFootprintLimit;
  modify (fun s => with_bitmaps (SpaceBitmap.ClearAll (live_bitmap_ s)) (mark_bitmap_ s) (temp_bitmap_ s) s);;
  on_mark (fun b => Done (SpaceBitmap.ClearAll b));;
  modify (fun s => SetEnd (begin_ s + starting_size_ s) s);;
  s ← gets id;
  rosalloc ← (fun s' => r ← CreateRosAlloc (map_begin (mem_map_ s)) (starting_size_ s) (initial_size_ s) (NonGrowthLimitCapacity s) (low_memory_mode_ s); Done (r, s'));
  modify (with_rosalloc (with_thread_runs (thread_runs (rosalloc_ s)) rosalloc));;
  SetFootprintLimit footprint_limit.

(** ** Sweeping *)
Fixpoint clear_bits (ptrs : list Z) (b : ContinuousSpaceBitmap) : outcome ContinuousSpaceBitmap :=
  match ptrs with
  | [] => Done b
  | ptr :: ptrs => '(_, b) ← SpaceBitmap.Clear kObjectAlignment b ptr; clear_bits ptrs b
  end.
(** [SweepCallback]; the result is what is added to the objects and the bytes
    that are freed. *)
Definition SweepCallback (swap_bitmaps : bool) (ptrs : list Z) : M RosAllocSpace (Z * Z) :=
  when (negb swap_bitmaps) (on_live (clear_bits ptrs));;
  bytes ← FreeList ptrs;
  mret (Z.of_nat (length ptrs), bytes).
Fixpoint sweep_batches (swap_bitmaps : bool) (batches : list (list Z)) (freed : Z * Z) : M RosAllocSpace (Z * Z) :=
  match batches with
  | [] => mret freed
  | ptrs :: batches =>
      n ← SweepCallback swap_bitmaps ptrs;
      sweep_batches swap_bitmaps batches (freed.1 + n.1, freed.2 + n.2)
  end.
(** The walk reads a word of the bitmaps once, before the callback clears bits of
    it, so that its batches are those of the bitmaps at the start. *)
Definition Sweep (swap_bitmaps : bool) : M RosAllocSpace (Z * Z) :=
  s ← gets id;
  match mark_bitmap_ s with
  | None => mret (0, 0)
  | Some mark_bitmap =>
      let '(live, mark) := if swap_bitmaps then (mark_bitmap, live_bitmap_ s) else (live_bitmap_ s, mark_bitmap) in
      batches ← (fun s' => l ← SpaceBitmap.SweepWalk kObjectAlignment live mark (begin_ s) (end_ s); Done (l, s'));
      sweep_batches swap_bitmaps batches (0, 0)
  end.

(** ** The split at the fork of the zygote

    [MemMap::RemapAtEnd]: the mapping up to [new_end], and a fresh one after
    it. *)
Definition RemapAtEnd (map : MemMap) (new_end : Z) : outcome (MemMap * MemMap) :=
  dcheck ((map_begin map <=? new_end) && (new_end <=? map_begin map + map_size map) && (map_begin map mod kPageSize =? 0)
          && ((map_begin map + map_size map) mod kPageSize =? 0) && (new_end mod kPageSize =? 0))
    (if new_end =? map_begin map + map_size map then Done (map, mkMemMap 0 0)
     else Done (mkMemMap (map_begin map) (new_end - map_begin map), mkMemMap new_end (map_begin map + map_size map - new_end))).
(** The second part of [CreateZygoteSpace], from the remapping of the tail on:
    the old space, whose mapping and bitmaps are those of the zygote space, and
    the new space for the memory that is left. *)
Definition split_tail (mapped : bool) (growth_limit capacity : Z) (low_memory_mode : bool) (s : RosAllocSpace) : outcome (RosAllocSpace * RosAllocSpace) :=
  '(map, tail) ← RemapAtEnd (mem_map_ s) (end_ s);
  allocator ← CreateRosAlloc (end_ s) (starting_size_ s) (initial_size_ s) capacity low_memory_mode;
  let allocator := with_thread_runs (thread_runs (rosalloc_ s)) allocator in
  let e := map_begin tail + starting_size_ s in
  let accessible := if initial_size_ s <? capacity then protect e (capacity - initial_size_ s) false (fun _ => true) else fun _ => true in
  out_malloc_space ← new_space mapped tail (initial_size_ s) allocator (end_ s) e (limit_ s) growth_limit (starting_size_ s) (low_memory_mode_ s) accessible;
  let s := with_limits map (end_ s) (end_ s) (growth_limit_ s) s in
  let live := SpaceBitmap.SetHeapLimit kObjectAlignment (end_ s) (live_bitmap_ s) in
  let mark := SpaceBitmap.SetHeapLimit kObjectAlignment (end_ s) (GetMarkBitmap s) in
  dcheck ((SpaceBitmap.HeapLimit kObjectAlignment live =? end_ s) && (SpaceBitmap.HeapLimit kObjectAlignment mark =? end_ s))
    (Done (with_bitmaps live (Some mark) (temp_bitmap_ s) s, out_malloc_space)).
Definition CreateZygoteSpace (mapped : bool) (thread_list : list Z) (low_memory_mode : bool) (s : RosAllocSpace) : outcome (RosAllocSpace * RosAllocSpace) :=
  '(_, s) ← RevokeAllThreadLocalBuffers thread_list s;
  let s := SetEnd (RoundUp (end_ s) kPageSize) s in
  dcheck ((begin_ s mod kGcCardSize =? 0) && (end_ s mod kGcCardSize =? 0) && (begin_ s mod kPageSize =? 0) && (end_ s mod kPageSize =? 0))
    (let size := RoundUp (Size s) kPageSize in
     let growth_limit := growth_limit_ s - size in
     let capacity := NonGrowthLimitCapacity s - size in
     split_tail mapped growth_limit capacity low_memory_mode (SetGrowthLimit (RoundUp size kPageSize) s)).
End RosAllocSpace.
