(* ===== verification/RosAllocSpaceInvariant.v ===== *)
(** The invariant of RosAllocSpace, and what each of its operations does to the
    blocks, the limits and the bitmaps. *)
From stdpp Require Import prelude gmap list.
From Stdlib Require Import ZArith Lia.
From S2P Require Import Prelude BitUtils SpaceBitmap RosAlloc RosAllocPages RosAllocFreePages RosAllocSegments RosAllocSlots RosAllocRuns RosAllocIndex RosAllocAlloc RosAllocFree RosAllocSpec RosAllocInspect RosAllocSpace.
Import RosAlloc.
Open Scope Z_scope.

(** ** The footprint and its limit

    Only [SetFootprintLimit] changes the limit; only allocation and [Trim] change
    the footprint, which is constrained when it is given. *)
Definition cap_is (c : Z * option Z) (p : Pages) : Prop := capacity_ p = c.1 /\ forall f, c.2 = Some f -> footprint_ p = f.
Definition limit_is (c : Z * option Z) (s : RosAlloc) : Prop := cap_is c (pages s).
Section Limit.
Context (c : Z * option Z).
Lemma keeps_in_pages {A} (f : M Pages A) : keeps (cap_is c) f -> keeps (limit_is c) (in_pages f).
Proof. intros Hf s a s' Hs E. unfold in_pages in E. destruct (f (pages s)) as [[b p]| | |] eqn:Ef; try done. injection E as _ <-. by apply (Hf (pages s) b p). Qed.
Lemma keeps_on_words {A} (f : gmap Z Z -> outcome (A * gmap Z Z)) : keeps (limit_is c) (on_words f).
Proof. intros s a s' Hs E. unfold on_words in E. destruct (f _) as [[b m]| | |]; try done. by injection E as _ <-. Qed.
Lemma keeps_diverge {S A} (P : S -> Prop) : keeps P (fun _ => Diverged : outcome (A * S)).
Proof. by intros s a s' _ E. Qed.
Lemma keeps_fault {S A} (P : S -> Prop) : keeps P (fault (A := A)).
Proof. by intros s a s' _ [=]. Qed.
Lemma keeps_cap (f : Pages -> Pages) : (forall p, capacity_ (f p) = capacity_ p) -> (forall p, footprint_ (f p) = footprint_ p) -> keeps (cap_is c) (modify f).
Proof. intros Hf Hg. apply keeps_modify. intros p. unfold cap_is. by rewrite Hf, Hg. Qed.
Lemma keeps_size (n : Z) (f : Pages -> Pages) : (forall p, capacity_ (f p) = capacity_ p) -> keeps (cap_is (n, None)) (modify f).
Proof. intros Hf. apply keeps_modify. intros p [Hc _]. split; [by rewrite Hf|done]. Qed.
Lemma keeps_limit (f : RosAlloc -> RosAlloc) : (forall s, pages (f s) = pages s) -> keeps (limit_is c) (modify f).
Proof. intros Hf. apply keeps_modify. intros s. unfold limit_is. by rewrite Hf. Qed.
End Limit.
#[local] Hint Resolve keeps_on_words keeps_diverge keeps_fault : keeps.
#[local] Hint Extern 1 (keeps _ (modify _)) => first [apply keeps_cap; done | apply keeps_size; done | apply keeps_limit; done] : keeps.
Ltac keep_all := repeat first [progress cbv zeta | keep_step | apply keeps_in_pages].

Lemma cap_erase c fpr : keeps (cap_is c) (erase_free_run fpr).
Proof. unfold erase_free_run. keep_all. Qed.
Lemma cap_insert c fpr : keeps (cap_is c) (insert_free_run fpr).
Proof. unfold insert_free_run. keep_all. Qed.
#[local] Hint Resolve cap_erase cap_insert : keeps.
Lemma cap_ByteSize c fpr : keeps (cap_is c) (ByteSize fpr).
Proof. unfold ByteSize, ToPageMapIndex. keep_all. Qed.
Lemma cap_SetByteSize c fpr n : keeps (cap_is c) (SetByteSize fpr n).
Proof. unfold SetByteSize, ToPageMapIndex. keep_all. Qed.
Lemma cap_set_pages c k n : forall i, keeps (cap_is c) (set_pages n i k).
Proof. induction n; intros i; cbn [set_pages]; unfold set_pm; keep_all. Qed.
Lemma cap_release_pages c n : forall i, keeps (cap_is c) (release_pages n i).
Proof. induction n; intros i; cbn [release_pages]; unfold set_pm; keep_all. Qed.
#[local] Hint Resolve cap_ByteSize cap_SetByteSize cap_set_pages cap_release_pages : keeps.
Lemma cap_release_run c fpr : keeps (cap_is c) (FreePageRun_ReleasePages fpr).
Proof. unfold FreePageRun_ReleasePages, ShouldReleasePages, ReleasePageRange, ToPageMapIndex. keep_all. Qed.
Lemma cap_find c n l : keeps (cap_is c) (find_free_run n l).
Proof. induction l; cbn [find_free_run]; keep_all. Qed.
Lemma cap_free_parts c k n : forall i, keeps (cap_is c) (free_parts n i k).
Proof. induction n; intros i; cbn [free_parts]; unfold set_pm; keep_all. Qed.
Lemma cap_higher c fpr l : keeps (cap_is c) (coalesce_higher fpr l).
Proof. induction l; cbn [coalesce_higher]; unfold End_; keep_all. Qed.
Lemma cap_lower c l : forall fpr, keeps (cap_is c) (coalesce_lower fpr l).
Proof. induction l; intros fpr; cbn [coalesce_lower]; unfold End_; keep_all. Qed.
Lemma cap_release_from c fuel : forall i, keeps (cap_is c) (release_from fuel i).
Proof. induction fuel; intros i; cbn [release_from]; unfold ReleasePageRange, ToPageMapIndex; keep_all. Qed.
#[local] Hint Resolve cap_release_run cap_find cap_free_parts cap_higher cap_lower cap_release_from : keeps.
Lemma cap_AllocPages c n k : keeps (cap_is (c, None)) (AllocPages n k).
Proof. unfold AllocPages, take_free_run, grow_and_take, last_free_run_size, grow, mark_pages, ToPageMapIndex, End_, set_pm. keep_all. Qed.
Lemma cap_FreePages c ptr b : keeps (cap_is c) (FreePages ptr b).
Proof. unfold FreePages, insert_freed, ToPageMapIndex, set_pm. keep_all. Qed.
Lemma cap_Trim c : keeps (cap_is (c, None)) Trim.
Proof. unfold Trim, End_, ToPageMapIndex. keep_all. Qed.
#[local] Hint Resolve cap_AllocPages cap_FreePages cap_Trim : keeps.

Lemma limit_run_start c fuel : forall i, keeps (limit_is c) (run_start fuel i).
Proof. induction fuel; intros i; cbn [run_start]; keep_all. Qed.
Lemma limit_get_run c run : keeps (limit_is c) (get_run run).
Proof. unfold get_run. keep_all. Qed.
Lemma limit_set_run c run r : keeps (limit_is c) (set_run run r).
Proof. unfold set_run. keep_all. Qed.
Lemma limit_non_full c idx run : keeps (limit_is c) (insert_non_full idx run) /\ keeps (limit_is c) (erase_non_full idx run).
Proof. unfold insert_non_full, erase_non_full. split; keep_all. Qed.
Definition limit_insert c idx run := proj1 (limit_non_full c idx run).
Definition limit_erase c idx run := proj2 (limit_non_full c idx run).
Lemma limit_current c idx run : keeps (limit_is c) (set_current idx run).
Proof. unfold set_current. keep_all. Qed.
#[local] Hint Resolve limit_run_start limit_get_run limit_set_run limit_insert limit_erase limit_current : keeps.
Lemma limit_RefillRun limit idx : keeps (limit_is (limit, None)) (RefillRun idx).
Proof. unfold RefillRun, AllocRun, InitFreeList. keep_all. Qed.
Lemma limit_AllocSlot c run : keeps (limit_is c) (AllocSlot run).
Proof. unfold AllocSlot. keep_all. Qed.
Lemma limit_refilled c idx run b : keeps (limit_is c) (alloc_refilled idx run b).
Proof. unfold alloc_refilled. keep_all. Qed.
#[local] Hint Resolve limit_RefillRun limit_AllocSlot limit_refilled : keeps.
Lemma limit_Alloc limit safe self size : keeps (limit_is (limit, None)) (Alloc safe self size).
Proof.
  unfold Alloc, AllocLargeObject, AllocFromRun, AllocFromRunThreadUnsafe, AllocFromCurrentRunUnlocked, refill_thread_run, drop_thread_run, MergeThreadLocalFreeListToFreeList, SetRosAllocRun.
  keep_all.
Qed.
Lemma limit_AllocLocal c self size : keeps (limit_is c) (AllocFromThreadLocalRun self size).
Proof. unfold AllocFromThreadLocalRun. keep_all. Qed.
Lemma limit_free_run c run : keeps (limit_is c) (free_run run).
Proof. unfold free_run, ZeroHeaderAndSlotHeaders. keep_all. Qed.
Lemma limit_run_of c ptr : keeps (limit_is c) (run_of ptr).
Proof. unfold run_of, RoundDownToPageMapIndex. keep_all. Qed.
Lemma limit_ToSlot c run r ptr : keeps (limit_is c) (ToSlot run r ptr).
Proof. unfold ToSlot. keep_all. Qed.
Lemma limit_zero_slot c slot n : keeps (limit_is c) (zero_slot slot n).
Proof. unfold zero_slot. keep_all. Qed.
#[local] Hint Resolve limit_free_run limit_run_of limit_ToSlot limit_zero_slot : keeps.
Lemma limit_Free c ptr : keeps (limit_is c) (Free ptr).
Proof. unfold Free, FreeInternal, FreeFromRun, AddToThreadLocalFreeList, FreeSlot. keep_all. Qed.
Lemma limit_bulk_merge c run : keeps (limit_is c) (bulk_merge run).
Proof. unfold bulk_merge, bulk_settle, MergeBulkFreeListToThreadLocalFreeList, MergeBulkFreeListToFreeList. keep_all. Qed.
Lemma limit_collect c ptrs : forall bytes found, keeps (limit_is c) (bulk_collect ptrs bytes found).
Proof. induction ptrs; intros bytes found; cbn [bulk_collect]; unfold AddToBulkFreeList; keep_all. Qed.
#[local] Hint Resolve limit_bulk_merge limit_collect : keeps.
Lemma limit_RevokeRun c idx run : keeps (limit_is c) (RevokeRun idx run).
Proof. unfold RevokeRun. keep_all. Qed.
#[local] Hint Resolve limit_RevokeRun : keeps.
Lemma limit_revoke c t idxs : keeps (limit_is c) (revoke_thread_runs t idxs).
Proof. induction idxs; cbn [revoke_thread_runs]; unfold revoke_thread_run, SetRosAllocRun, MergeThreadLocalFreeListToFreeList; keep_all. Qed.
Lemma limit_revoke_all c ts : keeps (limit_is c) (revoke_threads ts).
Proof. pose proof limit_revoke. induction ts; cbn [revoke_threads]; unfold RevokeThreadLocalRuns; keep_all. Qed.
#[local] Hint Resolve limit_Alloc limit_AllocLocal limit_Free limit_revoke limit_revoke_all : keeps.
Lemma exec_limit limit call : (forall n, call <> CSetFootprintLimit n) -> keeps (limit_is (limit, None)) (exec call).
Proof.
  intros Hne. destruct call; try (by destruct (Hne new_capacity)); cbn [exec]; unfold BulkFree, UsableSize, RevokeAllThreadLocalRuns, RevokeThreadUnsafeCurrentRuns, revoke_current_run, RevokeThreadLocalRuns, ReleasePages, RoundDownToPageMapIndex; keep_all.
Qed.
(** What collectors do while threads are stopped. *)
Lemma revoke_footprint c ts : keeps (limit_is c) (RevokeAllThreadLocalRuns ts).
Proof. unfold RevokeAllThreadLocalRuns, RevokeThreadUnsafeCurrentRuns, revoke_current_run. keep_all. Qed.

(** ** The invariant

    The space ends where the footprint does, below its growth limit, and what is
    below its end can be accessed. *)
Import RosAllocSpace.
Definition ros_sim (lo : Z) (r : RosAlloc) (a : astate) : Prop := sim lo (max_capacity_ (pages r)) (page_release_mode_ (pages r)) r a.
Record space_ok (s : RosAllocSpace) (a : astate) : Prop := {
  s_sim : ros_sim (begin_ s) (rosalloc_ s) a;
  s_end : end_ s = begin_ s + footprint_ (pages (rosalloc_ s));
  s_map : map_begin (mem_map_ s) = begin_ s /\ limit_ s = begin_ s + map_size (mem_map_ s);
  s_limits : capacity_ (pages (rosalloc_ s)) <= growth_limit_ s <= map_size (mem_map_ s) /\ map_size (mem_map_ s) <= max_capacity_ (pages (rosalloc_ s));
  s_pages : growth_limit_ s mod kPageSize = 0 /\ map_size (mem_map_ s) mod kPageSize = 0 /\ begin_ s + map_size (mem_map_ s) + 512 < 2 ^ 64;
  s_sizes : 0 < starting_size_ s <= initial_size_ s /\ initial_size_ s <= growth_limit_ s /\ starting_size_ s mod kPageSize = 0 /\ initial_size_ s mod kPageSize = 0;
  s_accessible : forall y, begin_ s <= y < end_ s -> accessible s y = true
}.
Lemma sim_facts lo max mode r a : sim lo max mode r a ->
  base_ (pages r) = lo /\ max_capacity_ (pages r) = max /\ page_release_mode_ (pages r) = mode /\
  0 < lo /\ lo mod kPageSize = 0 /\ 0 <= footprint_ (pages r) <= capacity_ (pages r) /\ capacity_ (pages r) <= max /\
  footprint_ (pages r) mod kPageSize = 0 /\ capacity_ (pages r) mod kPageSize = 0.
Proof.
  intros (l & G & Hs). pose proof (b_pages _ _ _ (h_base _ _ _ (m_heap _ _ _ _ _ _ _ Hs))) as Hi. destruct (m_const _ _ _ _ _ _ _ Hs) as (Eb & Em & Er).
  pose proof (p_base _ _ Hi) as (H0 & Hal & _). pose proof (p_capacity _ _ Hi). pose proof (p_aligned _ _ Hi) as [Hc _]. pose proof (p_footprint _ _ Hi) as Hf.
  pose proof (p_size _ _ Hi) as Hsz. pose proof (mapped_nonneg _ _ _ (p_mapped _ _ Hi)). rewrite <- Hsz in *.
  split_and!; try done; [congruence|congruence|plia|lia|lia|]. rewrite Hf. by apply Z.mod_mul.
Qed.
(** Words that read the same are as good. *)
Lemma sim_words lo max mode r a m : sim lo max mode r a -> (forall y, ld m y = ld (words (pages r)) y) -> sim lo max mode (with_pages (with_words m (pages r)) r) a.
Proof.
  intros (l & G & Hs) He. exists l, G. destruct Hs as [[Hb Hx Hst] Hbl Hc Hcm Hlo Hcn]. split; try done.
  - split; [|done|done]. split; cbn; [|apply Hb| |apply Hb|apply Hb].
    + apply words_pages; [apply Hb|]. intros y _ _. apply He.
    + intros x g Hg. destruct (base_facts _ _ _ _ _ Hb Hg) as (Hk & H0 & _). apply (slots_ok_ext (words (pages r))); [|done|done]. intros y _. apply He.
  - intros x n y Hl Hy. cbn. rewrite He. by apply (Hc x n).
Qed.
(** What is beyond the footprint is zero. *)
Lemma sim_beyond lo max mode r a y : sim lo max mode r a -> lo + footprint_ (pages r) <= y < lo + max -> ld (words (pages r)) y = 0.
Proof.
  intros (l & G & Hs) Hy. pose proof (b_pages _ _ _ (h_base _ _ _ (m_heap _ _ _ _ _ _ _ Hs))) as Hi. destruct (m_const _ _ _ _ _ _ _ Hs) as (Eb & Em & _).
  pose proof (p_footprint _ _ Hi) as Hf. pose proof (mapped_nonneg _ _ _ (p_mapped _ _ Hi)). apply (p_zero _ _ Hi); [pose proof (p_size _ _ Hi); plia|]. unfold IsFreePage. rewrite (p_beyond _ _ Hi); [done|].
  apply Z.div_le_lower_bound; plia.
Qed.

(** Only the end, RosAlloc and the protection change. *)
Definition moved (s s' : RosAllocSpace) : Prop :=
  exists e r f, s' = mkSpace (mem_map_ s) (begin_ s) e (limit_ s) (growth_limit_ s) (starting_size_ s) (initial_size_ s) (low_memory_mode_ s)
                       (live_bitmap_ s) (mark_bitmap_ s) (temp_bitmap_ s) r f (recorded s).
Lemma moved_trans s1 s2 s3 : moved s1 s2 -> moved s2 s3 -> moved s1 s3.
Proof. intros (e & r & f & ->) (e' & r' & f' & ->). by exists e', r', f'. Qed.
Lemma moved_refl s : moved s s.
Proof. destruct s. by eexists _, _, _. Qed.

(** [MoreCore] follows the footprint. *)
Lemma MoreCore_done s a r a' : space_ok s a -> ros_sim (begin_ s) r a' -> max_capacity_ (pages r) = max_capacity_ (pages (rosalloc_ s)) -> capacity_ (pages r) <= growth_limit_ s ->
  exists s' o, MoreCore (footprint_ (pages r) - footprint_ (pages (rosalloc_ s))) (with_rosalloc r s) = Done (o, s') /\ moved s s' /\ space_ok s' a' /\
    (forall y, ld (words (pages (rosalloc_ s'))) y = ld (words (pages r)) y) /\ exists m, rosalloc_ s' = with_pages (with_words m (pages r)) r.
Proof.
  intros Hok Hr Emax Hcap. pose proof (sim_facts _ _ _ _ _ Hr) as (Eb & _ & _ & H0 & Hal & Hf & Hc & Hfa & _). pose proof (sim_facts _ _ _ _ _ (s_sim _ _ Hok)) as (_ & _ & _ & _ & _ & Hf0 & Hc0 & _).
  destruct Hok as [_ Hend Hmap Hlim Hpg Hsz Hacc]. set (inc := footprint_ (pages r) - footprint_ (pages (rosalloc_ s))). unfold MoreCore. rewrite bind_gets. cbn [end_ with_rosalloc].
  assert (Eid : r = with_pages (with_words (words (pages r)) (pages r)) r) by (destruct r as [[] ? ? ? ?]; done).
  assert (Hsame : forall f s', s' = with_accessible f (SetEnd (end_ s + inc) (with_rosalloc r s)) -> (forall y, begin_ s <= y < end_ s + inc -> f y = true) -> moved s s' /\ space_ok s' a' /\ (forall y, ld (words (pages (rosalloc_ s'))) y = ld (words (pages r)) y) /\ exists m, rosalloc_ s' = with_pages (with_words m (pages r)) r).
  { intros f s' -> Hf'. split; [by eexists _, _, _|]. split; [|split; [done|by eexists]]. split; cbn; try done; [unfold inc; lia|rewrite Emax; lia]. }
  destruct (Z.eqb_spec inc 0) as [Ez|Hne]; cbn [negb when].
  - eexists _, _. split; [reflexivity|]. pose proof (Hsame (accessible s) _ eq_refl ltac:(intros y Hy; apply Hacc; lia)) as Hs'.
    replace (end_ s + inc) with (end_ s) in Hs' by lia. destruct s. exact Hs'.
  - rewrite bind_assoc. destruct (Z.ltb_spec 0 inc).
    + rewrite !bind_assoc, bind_gets. unfold Capacity. cbn [begin_ growth_limit_ with_rosalloc]. rewrite (proj2 (Z.leb_le _ _)) by (unfold inc; lia).
      eexists _, _. split; [reflexivity|]. eapply Hsame; [reflexivity|]. intros y Hy. unfold protect. cbn. destruct (Z.leb_spec (end_ s) y), (Z.ltb_spec y (end_ s + inc)); cbn; try done; try lia; apply Hacc; lia.
    + rewrite !bind_assoc, bind_gets. cbn [begin_ with_rosalloc]. rewrite (proj2 (Z.leb_le _ _)) by (unfold inc; lia).
      assert (Hw : forall y, ld (zero_range (words (pages r)) (end_ s + inc) (- inc)) y = ld (words (pages r)) y).
      { intros y. rewrite ld_zero_range. destruct (_ && _) eqn:E; [|done]. apply andb_true_iff in E as [?%Z.leb_le ?%Z.ltb_lt]. symmetry. apply (sim_beyond _ _ _ _ _ y Hr). unfold inc in *. lia. }
      eexists _, _. split; [reflexivity|]. split; [by eexists _, _, _|]. split; [|split; [done|by eexists]]. split; cbn; try done; [by apply sim_words|unfold inc; lia|rewrite Emax; lia|].
      intros y Hy. unfold protect. cbn. destruct (Z.leb_spec (end_ s + inc) y); [lia|]. cbn. apply Hacc. lia.
Qed.

(** ** Operations of RosAlloc *)
(** The limit after a call. *)
Definition limit_after (c : call) (limit : Z) : Z := match c with CSetFootprintLimit n => Z.max limit n | _ => limit end.
Lemma exec_limit_after c s r s' : exec c s = Done (r, s') -> capacity_ (pages s') = limit_after c (capacity_ (pages s)).
Proof.
  intros E. assert (Hk : (forall n, c <> CSetFootprintLimit n) \/ exists n, c = CSetFootprintLimit n) by (destruct c; eauto; left; congruence). destruct Hk as [Hk|[n ->]].
  - destruct (exec_limit (capacity_ (pages s)) c Hk s r s') as [-> _]; [by split|done|]. cbn. destruct c; try done. by destruct (Hk new_capacity).
  - cbn in E. unfold RosAlloc.SetFootprintLimit, in_pages, mbind, M_bind, check, gets, when, modify in E. cbn in E.
    destruct (RoundUp n kPageSize =? n); [|done]. cbn in E. destruct (Z.ltb_spec (capacity_ (pages s)) n); cbn in E.
    + destruct (n <=? max_capacity_ (pages s)); [|done]. injection E as _ <-. cbn. lia.
    + injection E as _ <-. cbn. lia.
Qed.
Lemma spec_next_blocks lo max a c r a' : spec_next lo max a c r = Some a' -> spec_step lo max a c r = Some a'.
Proof. unfold spec_next. destruct (spec_step _ _ _ _ _) as [a1|]; [|done]. cbn. by destruct (accounted a1). Qed.
(** A call on RosAlloc, with what follows for the space. *)
Lemma in_ros_call {A} (f : M RosAlloc A) (reply_of : A -> reply) c s a : space_ok s a ->
  (forall r, exec c r = (x ← f; mret (reply_of x)) r) -> allowed (growth_limit_ s) (page_release_mode_ (pages (rosalloc_ s))) a c = true ->
  exists x s' a', in_ros f s = Done (x, s') /\ spec_next (begin_ s) (max_capacity_ (pages (rosalloc_ s))) a c (reply_of x) = Some a' /\
    moved s s' /\ space_ok s' a' /\ justified (rosalloc_ s) c (reply_of x) /\
    capacity_ (pages (rosalloc_ s')) = limit_after c (capacity_ (pages (rosalloc_ s))) /\
    max_capacity_ (pages (rosalloc_ s')) = max_capacity_ (pages (rosalloc_ s)) /\ page_release_mode_ (pages (rosalloc_ s')) = page_release_mode_ (pages (rosalloc_ s)).
Proof.
  intros Hok He Hal. pose proof (s_sim _ _ Hok) as Hs. destruct (s_limits _ _ Hok) as [Hcap Hmap]. unfold ros_sim in Hs.
  assert (Hal' : allowed (max_capacity_ (pages (rosalloc_ s))) (page_release_mode_ (pages (rosalloc_ s))) a c = true).
  { destruct c; try done. cbn in *. rewrite !andb_true_iff, !Z.leb_le in *. intuition lia. }
  destruct (exec_sim _ _ _ _ _ c Hs Hal') as (r & ro & a' & E & Hn & Hs'). pose proof (exec_justified _ _ _ _ _ _ _ _ Hs Hal' E) as Hj. pose proof (exec_limit_after _ _ _ _ E) as Hl.
  rewrite He in E. unfold mbind, M_bind in E. destruct (f (rosalloc_ s)) as [[x r1]| | |] eqn:Ef; try done. injection E as <- ->.
  destruct (sim_facts _ _ _ _ _ Hs') as (_ & Emax & Emode & _).
  destruct (MoreCore_done s a ro a' Hok) as (s' & o & Em & Hmv & Hok' & _ & m & Er).
  - unfold ros_sim. by rewrite Emax, Emode.
  - done.
  - rewrite Hl. destruct c; cbn in *; lia.
  - exists x, s', a'. split; [unfold in_ros; rewrite Ef; cbn; by rewrite Em|]. split; [done|]. split; [done|]. split; [done|]. split; [done|]. rewrite Er. cbn. by rewrite Hl.
Qed.
(** Inspections leave RosAlloc as it is. *)
Lemma in_ros_read {A} (f : M RosAlloc A) s a x : space_ok s a -> f (rosalloc_ s) = Done (x, rosalloc_ s) -> in_ros f s = Done (x, s).
Proof. intros Hok Ef. unfold in_ros. rewrite Ef. cbn. rewrite Z.sub_diag. cbn. by destruct s. Qed.
(** Raising the limit. *)
Definition raised (c : Z) (r : RosAlloc) : RosAlloc := if capacity_ (pages r) <? c then with_pages (with_capacity c (pages r)) r else r.
Lemma raise_done s a c : space_ok s a -> 0 <= c -> c mod kPageSize = 0 -> c <= growth_limit_ s ->
  in_ros (in_pages (RosAlloc.SetFootprintLimit c)) s = Done (tt, with_rosalloc (raised c (rosalloc_ s)) s) /\ space_ok (with_rosalloc (raised c (rosalloc_ s)) s) a.
Proof.
  intros Hok H0 Hc Hg. destruct (in_ros_call (in_pages (RosAlloc.SetFootprintLimit c)) (fun _ => RUnit) (CSetFootprintLimit c) s a Hok) as (x & s' & a' & E & Hn & _ & Hok' & _).
  - done.
  - cbn. by rewrite (proj2 (Z.leb_le _ _) H0), Hc, Z.eqb_refl, (proj2 (Z.leb_le _ _) Hg).
  - apply spec_next_blocks in Hn. injection Hn as <-. destruct (s_sim _ _ Hok) as (l & G & Hs). destruct (s_limits _ _ Hok).
    destruct (SetFootprintLimit_spec _ _ c (b_pages _ _ _ (h_base _ _ _ (m_heap _ _ _ _ _ _ _ Hs))) H0 Hc ltac:(lia)) as [Ep _].
    assert (Es : s' = with_rosalloc (raised c (rosalloc_ s)) s); [|by destruct x; subst s'].
    unfold in_ros, in_pages in E. rewrite Ep in E. cbn in E. unfold raised. destruct (capacity_ (pages (rosalloc_ s)) <? c); cbn in E; rewrite Z.sub_diag in E; cbn in E; injection E as _ <-; [done|]. by destruct (rosalloc_ s).
Qed.
