(* ===== verification/RosAllocSpaceSpec.v ===== *)
(** What RosAllocSpace promises to the heap and to the collectors.

    The specification adds to that of RosAlloc the sets of addresses that the
    bitmaps stand for, the growth limit, the size of the mapping and the objects
    that the swapping code has been told are freed.  [sconform] runs the space
    and the specification side by side. *)
From stdpp Require Import prelude gmap list sorting.
From Stdlib Require Import ZArith Lia.
From S2P Require Import Prelude BitUtils SpaceBitmap RosAlloc RosAllocPages RosAllocFreePages RosAllocSegments RosAllocSlots RosAllocRuns RosAllocIndex RosAllocAlloc RosAllocFree RosAllocSpec RosAllocInspect RosAllocSpace RosAllocSpaceInvariant.
Import RosAlloc RosAllocSpace.
Open Scope Z_scope.

(** ** Calls *)
Inductive scall :=
  | SCall (c : call)                               (* of RosAlloc, through the space *)
  | SAllocWithGrowth (self size : Z)
  | STrim
  | SBytesAllocated
  | SObjectsAllocated
  | SModify (mark kSetBit : bool) (obj : Z)        (* a bit of the mark or of the live bitmap *)
  | SClearMarks
  | SSwapBitmaps
  | SBind
  | SUnBind
  | SClearGrowthLimit
  | SClampGrowthLimit
  | SSweep (swap_bitmaps : bool).
Inductive sreply := SReply (r : reply) | SFreed (objects bytes : Z).
(** A load or store of protected memory is a fault. *)
Definition access (a : Z) (m : M RosAllocSpace reply) : M RosAllocSpace reply :=
  ok ← gets (fun s => accessible s a); if (ok : bool) then m else fault.
Definition call_on_space (c : call) : M RosAllocSpace reply :=
  match c with
  | CAlloc safe self size => r ← if safe then AllocNonvirtual self size else AllocNonvirtualThreadUnsafe self size; mret (RBlock r)
  | CAllocLocal self size => r ← AllocThreadLocal self size; mret (RLocal r)
  | CFree ptr => n ← Free ptr; mret (RBytes n)
  | CBulkFree ptrs => n ← FreeList ptrs; mret (RBytes n)
  | CUsableSize ptr => n ← in_ros (UsableSize ptr); mret (RBytes n)
  | CRevoke thread => n ← RevokeThreadLocalBuffers thread; mret (RBytes n)
  | CRevokeAll threads => n ← RevokeAllThreadLocalBuffers threads; mret (RBytes n)
  | CSetFootprintLimit n => SetFootprintLimit n;; mret RUnit
  | CRead a => access a (in_ros (exec (CRead a)))
  | CWrite a v => access a (in_ros (exec (CWrite a v)))
  | CRevokeCurrent | CTrim | CReleasePages => abort             (* not offered by the space *)
  end.
Definition modify_bit (kSetBit : bool) (obj : Z) (b : ContinuousSpaceBitmap) : outcome ContinuousSpaceBitmap :=
  '(_, b) ← SpaceBitmap.Modify kObjectAlignment kSetBit b obj; Done b.
Definition quiet (m : M RosAllocSpace unit) : M RosAllocSpace sreply := m;; mret (SReply RUnit).
Definition sexec (c : scall) : M RosAllocSpace sreply :=
  match c with
  | SCall c => r ← call_on_space c; mret (SReply r)
  | SAllocWithGrowth self size => r ← AllocWithGrowth self size; mret (SReply (RBlock r))
  | STrim => n ← Trim; mret (SReply (RBytes n))
  | SBytesAllocated => n ← GetBytesAllocated; mret (SReply (RBytes n))
  | SObjectsAllocated => n ← GetObjectsAllocated; mret (SReply (RBytes n))
  | SModify mark v obj => quiet (if mark then on_mark (modify_bit v obj) else on_live (modify_bit v obj))
  | SClearMarks => quiet (on_mark (fun b => Done (SpaceBitmap.ClearAll b)))
  | SSwapBitmaps => quiet (modify SwapBitmaps)
  | SBind => quiet BindLiveToMarkBitmap
  | SUnBind => quiet UnBindBitmaps
  | SClearGrowthLimit => quiet (modify ClearGrowthLimit)
  | SClampGrowthLimit => quiet ClampGrowthLimit
  | SSweep swap => n ← Sweep swap; mret (SFreed n.1 n.2)
  end.

(** ** The specification *)
Record sstate := mkS {
  v_heap : astate;
  v_live : gset Z;
  v_mark : option (gset Z);            (* None: bound to the live bitmap *)
  v_temp : option (gset Z);
  v_growth : Z;
  v_map : Z;
  v_recorded : list Z
}.
Definition with_heap (a : astate) (rec : list Z) (v : sstate) : sstate :=
  mkS a (v_live v) (v_mark v) (v_temp v) (v_growth v) (v_map v) (v_recorded v ++ rec).
Definition with_sets (live : gset Z) (mark temp : option (gset Z)) (v : sstate) : sstate :=
  mkS (v_heap v) live mark temp (v_growth v) (v_map v) (v_recorded v).
Definition set_bit (v : bool) (obj : Z) (X : gset Z) : gset Z := if v then {[ obj ]} ∪ X else X ∖ {[ obj ]}.
(** What a sweep frees: when the bitmaps have been swapped, [mark_bitmap_] is the
    set of the objects that were live. *)
Definition garbage_of (swap : bool) (live mark : gset Z) : gset Z := if swap then mark ∖ live else live ∖ mark.
Definition to_free (v : sstate) (swap : bool) : gset Z := match v_mark v with None => ∅ | Some mark => garbage_of swap (v_live v) mark end.
Definition all_sets (v : sstate) : gset Z := v_live v ∪ default ∅ (v_mark v) ∪ default ∅ (v_temp v).

Section Spec.
(** The beginning of the space, the maximal capacity and the mode of RosAlloc. *)
Context (lo max : Z) (mode : PageReleaseMode).
Definition recorded_by (c : call) : list Z := match c with CFree ptr => [ptr] | CBulkFree ptrs => ptrs | _ => [] end.
Definition below (g : Z) (b : gmap Z Z) : bool := forallb (fun '(x, n) => x + n <=? lo + g) (map_to_list b).
Definition has_bit (v : sstate) (obj : Z) : bool := (lo <=? obj) && (obj <? lo + v_map v) && ((obj - lo) mod kObjectAlignment =? 0).
Definition sallowed (v : sstate) (c : scall) : bool :=
  match c with
  | SCall CRevokeCurrent | SCall CTrim | SCall CReleasePages => false
  | SCall c => allowed (v_growth v) mode (v_heap v) c
  | SAllocWithGrowth self size => allowed (v_growth v) mode (v_heap v) (CAlloc true self size)
  | SModify _ _ obj => has_bit v obj
  | SBind => bool_decide (v_temp v = None)
  | SUnBind => bool_decide (v_temp v <> None) && bool_decide (v_mark v = None)
  | SClampGrowthLimit => bool_decide (set_Forall (fun x => x < lo + v_growth v) (all_sets v))
  | SSweep swap => bool_decide (to_free v swap ⊆ dom (blocks (v_heap v)))
  | _ => true
  end.
(** The blocks stay below the growth limit. *)
Definition heap_next (v : sstate) (c : call) (r : reply) (rec : list Z) : option sstate :=
  a ← spec_next lo max (v_heap v) c r; if below (v_growth v) (blocks a) then Some (with_heap a rec v) else None.
Definition swept (v : sstate) (swap : bool) : sstate :=
  let free := iter_set (to_free v swap) in
  let a := v_heap v in
  mkS (mkA (remove_all (blocks a) free) (contents a) (committed a - sizes (blocks a) free) (locals a))
    (if swap then v_live v else v_live v ∖ to_free v swap) (v_mark v) (v_temp v) (v_growth v) (v_map v) (v_recorded v ++ free).
Definition snext (v : sstate) (c : scall) (r : sreply) : option sstate :=
  match c, r with
  | SCall c, SReply r => heap_next v c r (recorded_by c)
  | SAllocWithGrowth self size, SReply r => heap_next v (CAlloc true self size) r []
  | STrim, SReply (RBytes _) => Some v
  | SBytesAllocated, SReply (RBytes n) => if n =? total (blocks (v_heap v)) then Some v else None
  | SObjectsAllocated, SReply (RBytes n) => if n =? Z.of_nat (size (blocks (v_heap v))) then Some v else None
  | SModify mark b obj, SReply RUnit =>
      Some (match mark, v_mark v with
            | true, Some X => with_sets (v_live v) (Some (set_bit b obj X)) (v_temp v) v
            | _, _ => with_sets (set_bit b obj (v_live v)) (v_mark v) (v_temp v) v
            end)
  | SClearMarks, SReply RUnit =>
      Some (match v_mark v with
            | Some _ => with_sets (v_live v) (Some ∅) (v_temp v) v
            | None => with_sets ∅ None (v_temp v) v
            end)
  | SSwapBitmaps, SReply RUnit =>
      Some (match v_mark v with Some X => with_sets X (Some (v_live v)) (v_temp v) v | None => v end)
  | SBind, SReply RUnit =>
      Some (match v_mark v with Some X => with_sets (v_live v) None (Some X) v | None => v end)
  | SUnBind, SReply RUnit => Some (with_sets (v_live v) (v_temp v) None v)
  | SClearGrowthLimit, SReply RUnit => Some (mkS (v_heap v) (v_live v) (v_mark v) (v_temp v) (v_map v) (v_map v) (v_recorded v))
  | SClampGrowthLimit, SReply RUnit => Some (mkS (v_heap v) (v_live v) (v_mark v) (v_temp v) (v_growth v) (v_growth v) (v_recorded v))
  | SSweep swap, SFreed n bytes =>
      if (n =? Z.of_nat (size (to_free v swap))) && (bytes =? sizes (blocks (v_heap v)) (iter_set (to_free v swap))) then Some (swept v swap) else None
  | _, _ => None
  end.
(** An allocation that may grow fails only where there is no memory below the
    growth limit. *)
Definition sjustified (s : RosAllocSpace) (c : scall) (r : sreply) : Prop :=
  match c, r with
  | SCall c, SReply r => justified (rosalloc_ s) c r
  | SAllocWithGrowth self size, SReply (RBlock None) => out_of_memory (raised (growth_limit_ s) (rosalloc_ s)) true self size
  | _, _ => True
  end.
Fixpoint sconform (s : RosAllocSpace) (v : sstate) (calls : list scall) : Prop :=
  match calls with
  | [] => True
  | c :: calls =>
      sallowed v c = true ->
      exists r s' v', sexec c s = Done (r, s') /\ snext v c r = Some v' /\ sjustified s c r /\ sconform s' v' calls
  end.
Definition spec_new (growth map : Z) : sstate := mkS spec_init ∅ (Some ∅) None growth map [].

(** ** The simulation *)
Definition bitmap_for (k : nat) (m : Z) (b : ContinuousSpaceBitmap) (X : gset Z) : Prop :=
  SpaceBitmap.represents kObjectAlignment b X /\ SpaceBitmap.heap_begin_ b = lo /\ SpaceBitmap.nwords b * 512 = m /\ length (SpaceBitmap.words b) = k.
Record space_sim_at (k : nat) (s : RosAllocSpace) (v : sstate) : Prop := {
  ss_ok : space_ok s (v_heap v);
  ss_live : bitmap_for k (v_map v) (live_bitmap_ s) (v_live v);
  ss_mark : option_Forall2 (bitmap_for k (v_map v)) (mark_bitmap_ s) (v_mark v);
  ss_temp : option_Forall2 (bitmap_for k (v_map v)) (temp_bitmap_ s) (v_temp v);
  ss_limits : growth_limit_ s = v_growth v /\ map_size (mem_map_ s) = v_map v;
  ss_recorded : recorded s = v_recorded v;
  ss_const : begin_ s = lo /\ max_capacity_ (pages (rosalloc_ s)) = max /\ page_release_mode_ (pages (rosalloc_ s)) = mode
}.
Definition space_sim (s : RosAllocSpace) (v : sstate) : Prop := exists k, space_sim_at k s v.

(** *** Calls of RosAlloc *)
Lemma with_heap_nil v : with_heap (v_heap v) [] v = v.
Proof. destruct v. unfold with_heap. cbn. by rewrite app_nil_r. Qed.
Lemma space_below s a : space_ok s a -> begin_ s = lo -> below (growth_limit_ s) (blocks a) = true.
Proof.
  intros Hok Eb. destruct (s_sim _ _ Hok) as (l & G & Hs). apply forallb_forall. intros [x n] Hx%list_elem_of_In%elem_of_map_to_list. apply Z.leb_le.
  apply (m_blocks _ _ _ _ _ _ _ Hs) in Hx. pose proof (h_base _ _ _ (m_heap _ _ _ _ _ _ _ Hs)) as Hb. destruct (live_in_range _ _ _ _ _ Hb Hx) as (_ & _ & Hle).
  destruct (m_const _ _ _ _ _ _ _ Hs) as (E & _). pose proof (p_capacity _ _ (b_pages _ _ _ Hb)). pose proof (s_limits _ _ Hok). lia.
Qed.
Lemma sim_moved k s v s' a' : space_sim_at k s v -> moved s s' -> space_ok s' a' -> max_capacity_ (pages (rosalloc_ s')) = max_capacity_ (pages (rosalloc_ s)) ->
  page_release_mode_ (pages (rosalloc_ s')) = page_release_mode_ (pages (rosalloc_ s)) -> space_sim_at k s' (with_heap a' [] v).
Proof.
  intros Hs (e & r & f & ->) Hok Emax Emode. destruct Hs as [_ Hl Hm Ht Hlim Hrec Hc]. cbn in *. split; cbn; try done; [by rewrite app_nil_r|]. by rewrite Emax, Emode.
Qed.
Lemma call_answer {A} (f : M RosAlloc A) (R : A -> reply) c k s v : space_sim_at k s v ->
  (forall r, exec c r = (x ← f; mret (R x)) r) -> allowed (v_growth v) mode (v_heap v) c = true ->
  exists x s' v', in_ros f s = Done (x, s') /\ heap_next v c (R x) [] = Some v' /\ space_sim_at k s' v' /\ justified (rosalloc_ s) c (R x).
Proof.
  intros Hs He Hal. pose proof (ss_ok _ _ _ Hs) as Hok. destruct (ss_limits _ _ _ Hs) as [Eg _]. destruct (ss_const _ _ _ Hs) as (Eb & Emax & Emode).
  destruct (in_ros_call f R c s (v_heap v) Hok He) as (x & s' & a' & E & Hn & Hmv & Hok' & Hj & _ & Em' & Er'); [by rewrite Eg, Emode|]. rewrite Eb, Emax in Hn.
  exists x, s', (with_heap a' [] v). split; [done|]. split; [|split; [by apply (sim_moved k s)|done]]. unfold heap_next. rewrite Hn. cbn.
  pose proof Hmv as (e & r & g & Es'). assert (Eb' : begin_ s' = lo) by (by rewrite Es'). assert (Eg' : growth_limit_ s' = v_growth v) by (by rewrite Es'). rewrite <- Eg', (space_below s' a' Hok' Eb'). done.
Qed.
Lemma heap_next_record v c r rec v' : heap_next (with_heap (v_heap v) rec v) c r [] = Some v' -> heap_next v c r rec = Some v'.
Proof.
  unfold heap_next. cbn. destruct (spec_next _ _ _ _ _) as [a|]; [|done]. cbn. destruct (below _ _); [|done]. intros [= <-]. unfold with_heap. cbn. by rewrite app_nil_r.
Qed.
Lemma sim_record k s v ptrs : space_sim_at k s v -> space_sim_at k (record_free ptrs s) (with_heap (v_heap v) ptrs v).
Proof. intros [[] Hl Hm Ht Hlim Hrec Hc]. split; cbn; try done. by rewrite Hrec. Qed.
Lemma free_answer {A} (f : M RosAlloc A) (R : A -> reply) c rec k s v : space_sim_at k s v ->
  (forall r, exec c r = (x ← f; mret (R x)) r) -> allowed (v_growth v) mode (v_heap v) c = true ->
  exists x s' v', (modify (record_free rec);; in_ros f) s = Done (x, s') /\ heap_next v c (R x) rec = Some v' /\ space_sim_at k s' v' /\ justified (rosalloc_ s) c (R x).
Proof.
  intros Hs He Hal. destruct (call_answer f R c k _ _ (sim_record k s v rec Hs) He Hal) as (x & s' & v' & E & Hn & Hs' & Hj).
  exists x, s', v'. rewrite bind_modify. split; [done|]. split; [by apply heap_next_record|done].
Qed.
Lemma AllocCommon_answer k s v safe self size : space_sim_at k s v -> allowed (v_growth v) mode (v_heap v) (CAlloc safe self size) = true ->
  exists r s' v', AllocCommon safe self size s = Done (r, s') /\ heap_next v (CAlloc safe self size) (RBlock r) [] = Some v' /\ space_sim_at k s' v' /\
    justified (rosalloc_ s) (CAlloc safe self size) (RBlock r).
Proof.
  intros Hs Hal. destruct (call_answer (Alloc safe self size) RBlock (CAlloc safe self size) k s v Hs ltac:(done) Hal) as (r & s1 & v1 & E & Hn & Hs1 & Hj).
  unfold AllocCommon. rewrite (bind_done _ _ _ _ _ E). destruct r as [al|]; [|by exists None, s1, v1].
  assert (Hb : blocks (v_heap v1) !! alloc_addr al = Some (usable_size al)).
  { unfold heap_next in Hn. destruct (spec_next _ _ _ _ _) as [a|] eqn:Es; [|done]. cbn in Hn. destruct (below _ _); [|done]. injection Hn as <-. cbn. apply spec_next_blocks in Es. cbn in Es.
    destruct (_ =? _); [|done]. unfold add_block in Es. destruct (_ && _); [|done]. injection Es as <-. cbn. apply lookup_insert_eq. }
  destruct (call_answer (UsableSize (alloc_addr al)) RBytes (CUsableSize (alloc_addr al)) k s1 v1 Hs1 ltac:(done)) as (n & s2 & v2 & E2 & Hn2 & Hs2 & _); [cbn; by rewrite bool_decide_eq_true_2 by (by eexists)|].
  rewrite (bind_done _ _ _ _ _ E2). unfold heap_next in Hn2. destruct (spec_next _ _ _ _ _) as [a|] eqn:Es; [|done]. apply spec_next_blocks in Es. cbn in Es. case_bool_decide as Hd; [|done]. injection Es as <-.
  rewrite Hb in Hd. injection Hd as <-. cbn in Hn2. destruct (below _ _); [|done]. injection Hn2 as <-. rewrite with_heap_nil in Hs2. rewrite Z.eqb_refl. by exists (Some al), s2, v1.
Qed.
Lemma heap_next_same v c r v' : spec_step lo max (v_heap v) c r = Some (v_heap v) -> heap_next v c r [] = Some v' -> v' = v.
Proof.
  intros Es Hn. unfold heap_next in Hn. destruct (spec_next _ _ _ _ _) as [a|] eqn:E; [|done]. apply spec_next_blocks in E. rewrite Es in E. injection E as <-.
  cbn in Hn. destruct (below _ _); [|done]. injection Hn as <-. apply with_heap_nil.
Qed.
Lemma raise_sim k s v c : space_sim_at k s v -> 0 <= c -> c mod kPageSize = 0 -> c <= growth_limit_ s ->
  in_ros (in_pages (RosAlloc.SetFootprintLimit c)) s = Done (tt, with_rosalloc (raised c (rosalloc_ s)) s) /\ space_sim_at k (with_rosalloc (raised c (rosalloc_ s)) s) v.
Proof.
  intros Hs H0 Hc Hg. destruct (raise_done s (v_heap v) c (ss_ok _ _ _ Hs) H0 Hc Hg) as [E Hok]. split; [done|]. rewrite <- (with_heap_nil v).
  apply (sim_moved k s); [done|by eexists _, _, _|done|..]; cbn; unfold raised; by destruct (_ <? c).
Qed.
Lemma AllocWithGrowth_answer k s v self size : space_sim_at k s v -> allowed (v_growth v) mode (v_heap v) (CAlloc true self size) = true ->
  exists r s' v', AllocWithGrowth self size s = Done (r, s') /\ heap_next v (CAlloc true self size) (RBlock r) [] = Some v' /\ space_sim_at k s' v' /\
    sjustified s (SAllocWithGrowth self size) (SReply (RBlock r)).
Proof.
  intros Hs Hal. pose proof (ss_ok _ _ _ Hs) as Hok. pose proof (s_pages _ _ Hok) as (Hg & _). pose proof (s_sizes _ _ Hok) as Hsz.
  destruct (raise_sim k s v (Capacity s) Hs ltac:(unfold Capacity; lia) Hg ltac:(done)) as [E1 Hs1]. unfold AllocWithGrowth. rewrite bind_gets, (bind_done _ _ _ _ _ E1).
  destruct (AllocCommon_answer k _ v true self size Hs1 Hal) as (r & s2 & v2 & E2 & Hn & Hs2 & Hj). rewrite (bind_done _ _ _ _ _ E2), bind_gets.
  destruct (sim_facts _ _ _ _ _ (s_sim _ _ (ss_ok _ _ _ Hs2))) as (_ & _ & _ & _ & _ & Hf & _ & Hfa & _). pose proof (s_limits _ _ (ss_ok _ _ _ Hs2)).
  destruct (raise_sim k s2 v2 (footprint_ (pages (rosalloc_ s2))) Hs2 ltac:(lia) Hfa ltac:(lia)) as [E3 Hs3]. rewrite (bind_done _ _ _ _ _ E3).
  eexists r, _, v2. split; [done|]. split; [done|]. split; [done|]. by destruct r.
Qed.
Lemma Trim_answer k s v : space_sim_at k s v -> exists n s', Trim s = Done (n, s') /\ space_sim_at k s' v.
Proof.
  intros Hs. destruct (call_answer (in_pages RosAlloc.Trim) RTrimmed CTrim k s v Hs ltac:(done) ltac:(done)) as (b & s1 & v1 & E & Hn & Hs1 & _). apply heap_next_same in Hn as ->; [|done].
  unfold Trim. rewrite (bind_done _ _ _ _ _ E), bind_gets. destruct (ss_const _ _ _ Hs1) as (_ & _ & Em). unfold DoesReleaseAllPages. rewrite Em. case_bool_decide as Hm; cbn [negb]; [by exists 0, s1|].
  destruct (call_answer (in_pages ReleasePages) RBytes CReleasePages k s1 v Hs1 ltac:(done)) as (n & s2 & v2 & E2 & Hn & Hs2 & _); [cbn; by rewrite bool_decide_eq_true_2|].
  apply heap_next_same in Hn as ->; [|done]. by exists n, s2.
Qed.
Lemma SetFootprintLimit_answer k s v n : space_sim_at k s v -> allowed (v_growth v) mode (v_heap v) (CSetFootprintLimit n) = true ->
  exists s', SetFootprintLimit n s = Done (tt, s') /\ space_sim_at k s' v.
Proof.
  intros Hs Hal. cbn in Hal. rewrite !andb_true_iff, !Z.leb_le, Z.eqb_eq in Hal. destruct Hal as [[H0 Hn] Hg]. destruct (ss_limits _ _ _ Hs) as [Eg _].
  destruct (sim_facts _ _ _ _ _ (s_sim _ _ (ss_ok _ _ _ Hs))) as (_ & _ & _ & _ & _ & Hf & _ & Hfa & _). pose proof (s_limits _ _ (ss_ok _ _ _ Hs)).
  unfold SetFootprintLimit. rewrite bind_gets. unfold GetFootprint. destruct (Z.ltb_spec n (footprint_ (pages (rosalloc_ s)))); eexists; apply raise_sim; try done; lia.
Qed.
(** The blocks can be accessed. *)
Lemma block_accessible k s v y : space_sim_at k s v -> in_block (blocks (v_heap v)) y = true -> accessible s y = true.
Proof.
  intros Hs Hin. pose proof (ss_ok _ _ _ Hs) as Hok. destruct (s_sim _ _ Hok) as (l & G & Hr). destruct (in_block_live _ _ _ _ _ _ _ _ Hr Hin) as (x & n & Hl & Hy).
  pose proof (h_base _ _ _ (m_heap _ _ _ _ _ _ _ Hr)) as Hb. destruct (live_in_range _ _ _ _ _ Hb Hl) as (_ & H1 & H2). destruct (m_const _ _ _ _ _ _ _ Hr) as (E & _).
  apply (s_accessible _ _ Hok). rewrite (s_end _ _ Hok). lia.
Qed.
Lemma inspect_answer k s v : space_sim_at k s v -> exists calls, InspectAllRosAlloc false s = Done (calls, s) /\
  bytes_allocated_in calls = total (blocks (v_heap v)) /\ objects_allocated_in calls = Z.of_nat (size (blocks (v_heap v))).
Proof.
  intros Hs. pose proof (ss_ok _ _ _ Hs) as Hok. destruct (s_sim _ _ Hok) as (l & G & Hr). pose proof (m_heap _ _ _ _ _ _ _ Hr) as Hh. pose proof (h_base _ _ _ Hh) as Hb.
  exists (expected (pages (rosalloc_ s)) G 0 l). destruct (inspect_blocks _ l G _ Hb (m_blocks _ _ _ _ _ _ _ Hr)) as (Hn & Ho & _). split; [|done].
  unfold InspectAllRosAlloc. rewrite (bind_done _ _ _ _ _ (in_ros_read _ _ _ _ Hok (InspectAll_done _ l G Hb (fun a g Hg => proj1 (proj2 (h_settled _ _ _ Hh a g Hg)))))). done.
Qed.
(** A call of RosAlloc through the space. *)
Lemma answer_SCall k s v c : space_sim_at k s v -> sallowed v (SCall c) = true ->
  exists r s' v', call_on_space c s = Done (r, s') /\ heap_next v c r (recorded_by c) = Some v' /\ space_sim_at k s' v' /\ justified (rosalloc_ s) c r.
Proof.
  intros Hs Hal. assert (Hgo : forall A (m : M RosAllocSpace A) (R : A -> reply) rec, (exists x s' v', m s = Done (x, s') /\ heap_next v c (R x) rec = Some v' /\ space_sim_at k s' v' /\ justified (rosalloc_ s) c (R x)) ->
    exists r s' v', (x ← m; mret (R x)) s = Done (r, s') /\ heap_next v c r rec = Some v' /\ space_sim_at k s' v' /\ justified (rosalloc_ s) c r).
  { intros A m R rec (x & s' & v' & E & H). exists (R x), s', v'. by rewrite (bind_done _ _ _ _ _ E). }
  destruct c as [safe self size|self size|ptr|ptrs|ptr|t| |ts| |n| |y|y x]; try done; cbn [call_on_space recorded_by]; unfold AllocNonvirtual, AllocNonvirtualThreadUnsafe, AllocThreadLocal, RevokeThreadLocalBuffers, RevokeAllThreadLocalBuffers, Free, FreeList.
  - apply Hgo. destruct safe; by apply AllocCommon_answer.
  - apply Hgo. by apply (call_answer _ RLocal).
  - apply Hgo. by apply (free_answer _ RBytes).
  - apply Hgo. by apply (free_answer _ RBytes).
  - apply Hgo. by apply (call_answer _ RBytes).
  - apply Hgo. by apply (call_answer _ RBytes).
  - apply Hgo. by apply (call_answer _ RBytes).
  - destruct (SetFootprintLimit_answer k s v n Hs Hal) as (s' & E & Hs'). exists RUnit, s', v. rewrite (bind_done _ _ _ _ _ E). split; [done|]. split; [|done].
    unfold heap_next, spec_next. cbn. pose proof (ss_ok _ _ _ Hs) as Hok. destruct (s_sim _ _ Hok) as (l & G & Hr). rewrite (sim_accounted _ _ _ _ _ _ _ Hr). cbn.
    destruct (ss_const _ _ _ Hs) as (Eb & _). destruct (ss_limits _ _ _ Hs) as [<- _]. rewrite (space_below s _ Hok Eb). by rewrite with_heap_nil.
  - unfold access. rewrite bind_gets, (block_accessible k s v y Hs Hal). by apply (call_answer _ id).
  - unfold access. rewrite bind_gets, (block_accessible k s v y Hs Hal). by apply (call_answer _ id).
Qed.

(** *** Bitmaps *)
Lemma align_pos : 0 < kObjectAlignment.
Proof. done. Qed.
Lemma bit_index m obj : lo <= obj < lo + m * 512 -> (obj - lo) mod kObjectAlignment = 0 -> exists n, 0 <= n < m * 64 /\ obj = lo + n * kObjectAlignment.
Proof. unfold kObjectAlignment. intros Hr Hm. exists ((obj - lo) / 8). div_lia. Qed.
Lemma modify_bit_done k m b X obj x : bitmap_for k m b X -> lo <= obj < lo + m -> (obj - lo) mod kObjectAlignment = 0 ->
  exists b', modify_bit x obj b = Done b' /\ bitmap_for k m b' (set_bit x obj X).
Proof.
  intros (HX & Eh & <- & Ek) Hr Hm. destruct (bit_index _ _ Hr Hm) as (n & Hn & ->). pose proof HX as (Hb & _). unfold modify_bit.
  rewrite <- Eh. change (SpaceBitmap.heap_begin_ b + n * kObjectAlignment) with (SpaceBitmap.addr kObjectAlignment b n).
  rewrite (SpaceBitmap.Modify_done kObjectAlignment align_pos) by done. eexists. split; [done|]. split; [by apply SpaceBitmap.represents_with_bit|]. split; [done|]. split; [done|].
  cbn. by rewrite length_alter.
Qed.
Lemma ClearAll_for k m b X : bitmap_for k m b X -> bitmap_for k m (SpaceBitmap.ClearAll b) ∅.
Proof.
  intros ((Hb & _) & Eh & En & Ek). split; [|split; [done|split; [done|cbn; by rewrite length_replicate]]]. split_and!.
  - split; cbn; [apply Forall_replicate; unfold in_width; lia| |apply Hb]. rewrite length_replicate. apply Hb.
  - set_solver.
  - intros n _. rewrite bool_decide_eq_false_2 by set_solver. unfold SpaceBitmap.bit. cbn. destruct (replicate _ _ !! _) as [w|] eqn:E; [|done]. apply lookup_replicate in E as [-> _]. apply Z.bits_0.
Qed.
Lemma SetHeapSize_for k m b X g : bitmap_for k m b X -> 0 <= g <= m -> g mod kPageSize = 0 -> lo + m < 2 ^ 64 -> 0 <= lo -> (forall x, x ∈ X -> x < lo + g) ->
  exists b', SpaceBitmap.SetHeapSize kObjectAlignment g b = Done b' /\ bitmap_for k g b' X.
Proof.
  intros ((Hb & Hsub & Hbits) & Eh & En & Ek) Hg Hp Hmax H0 HX. unfold SpaceBitmap.SetHeapSize, SpaceBitmap.HeapSize, SpaceBitmap.IndexToOffset, SpaceBitmap.OffsetToIndex, kObjectAlignment, kBitsPerIntPtrT, sizeof_intptr_t. cbn [SpaceBitmap.bitmap_size_].
  assert (Eg : g / 8 / 64 * 512 = g) by (unfold kPageSize in Hp; div_lia). rewrite Z.div_mul by lia. rewrite wrap_small by (unfold in_width; lia). replace (g / 8 / 64 * 8 * 64) with g by lia. rewrite Z.eqb_refl.
  eexists. split; [done|]. assert (En' : forall ws h, SpaceBitmap.nwords (SpaceBitmap.mkBitmap ws (g / 8 / 64 * 8) h) = g / 8 / 64) by (intros; unfold SpaceBitmap.nwords, sizeof_intptr_t; cbn; by rewrite Z.div_mul).
  split; [|split; [done|split; [rewrite En'; lia|done]]]. split_and!.
  - split; cbn; [apply Hb| |]; rewrite En'; [|split; [apply Hb|]].
    + destruct (SpaceBitmap.bm_size _ _ Hb) as (_ & _ & Hl). split_and!; [lia|by apply Z.mod_mul|nia].
    + rewrite Eh. unfold kObjectAlignment. lia.
  - intros x Hx. rewrite En'. destruct (Hsub x Hx) as (n & Hn & ->). specialize (HX _ Hx). exists n. split; [|done]. unfold SpaceBitmap.addr, kObjectAlignment in HX. rewrite Eh in HX. lia.
  - intros n Hn. rewrite En' in Hn. apply Hbits. nia.
Qed.
Lemma sim_bitmaps k s v live mark temp L Mk T : space_sim_at k s v -> bitmap_for k (v_map v) live L -> option_Forall2 (bitmap_for k (v_map v)) mark Mk ->
  option_Forall2 (bitmap_for k (v_map v)) temp T -> space_sim_at k (with_bitmaps live mark temp s) (with_sets L Mk T v).
Proof. intros [[] _ _ _ Hlim Hrec Hc] Hl Hm Ht. by split. Qed.
Lemma on_live_answer k s v f L : space_sim_at k s v -> (forall b, bitmap_for k (v_map v) b (v_live v) -> exists b', f b = Done b' /\ bitmap_for k (v_map v) b' L) ->
  exists s', on_live f s = Done (tt, s') /\ space_sim_at k s' (with_sets L (v_mark v) (v_temp v) v).
Proof.
  intros Hs Hf. destruct (Hf _ (ss_live _ _ _ Hs)) as (b' & E & Hb). unfold on_live. rewrite E. eexists. split; [done|]. apply sim_bitmaps; [done|done|apply Hs|apply Hs].
Qed.
Lemma on_mark_answer k s v f (L : gset Z -> gset Z) : space_sim_at k s v -> (forall b X, bitmap_for k (v_map v) b X -> exists b', f b = Done b' /\ bitmap_for k (v_map v) b' (L X)) ->
  exists s', on_mark f s = Done (tt, s') /\
    space_sim_at k s' (match v_mark v with Some X => with_sets (v_live v) (Some (L X)) (v_temp v) v | None => with_sets (L (v_live v)) None (v_temp v) v end).
Proof.
  intros Hs Hf. unfold on_mark. pose proof (ss_mark _ _ _ Hs) as Hm. inversion Hm as [b X Hb E1 E2|E1 E2].
  - destruct (Hf b X Hb) as (b' & E & Hb'). rewrite E. eexists. split; [done|]. apply sim_bitmaps; [done|apply Hs|by constructor|apply Hs].
  - destruct (on_live_answer k s v f (L (v_live v)) Hs) as (s' & E & Hs'); [intros b Hb; by apply Hf|]. rewrite <- E2 in Hs'. by exists s'.
Qed.
(** The calls on bitmaps. *)
Lemma answer_bitmaps k s v c : space_sim_at k s v -> sallowed v c = true -> match c with SModify _ _ _ | SClearMarks | SSwapBitmaps | SBind | SUnBind => True | _ => False end ->
  exists s' v', sexec c s = Done (SReply RUnit, s') /\ snext v c (SReply RUnit) = Some v' /\ space_sim_at k s' v'.
Proof.
  intros Hs Hal Hc. assert (Hq : forall m, (exists s' v', m s = Done (tt, s') /\ snext v c (SReply RUnit) = Some v' /\ space_sim_at k s' v') -> exists s' v', quiet m s = Done (SReply RUnit, s') /\ snext v c (SReply RUnit) = Some v' /\ space_sim_at k s' v').
  { intros m (s' & v' & E & H). exists s', v'. unfold quiet. by rewrite (bind_done _ _ _ _ _ E). }
  pose proof (ss_mark _ _ _ Hs) as Hm. pose proof (ss_live _ _ _ Hs) as Hl. pose proof (ss_temp _ _ _ Hs) as Ht. destruct c as [| | | | |mark x obj| | | | | | |]; try done; cbn [sexec]; apply Hq; clear Hq.
  - cbn in Hal. unfold has_bit in Hal. rewrite !andb_true_iff, Z.leb_le, Z.ltb_lt, Z.eqb_eq in Hal. destruct mark.
    + destruct (on_mark_answer k s v (modify_bit x obj) (set_bit x obj) Hs) as (s' & E & Hs'); [intros b X Hb; apply modify_bit_done; tauto|]. eexists s', _. split; [done|]. split; [reflexivity|]. by destruct (v_mark v).
    + destruct (on_live_answer k s v (modify_bit x obj) (set_bit x obj (v_live v)) Hs) as (s' & E & Hs'); [intros b Hb; apply modify_bit_done; tauto|]. eexists s', _. split; [done|]. split; [reflexivity|]. done.
  - destruct (on_mark_answer k s v (fun b => Done (SpaceBitmap.ClearAll b)) (fun _ => ∅) Hs) as (s' & E & Hs'); [intros b X Hb; eexists; split; [done|]; by apply (ClearAll_for k _ b X)|]. eexists s', _. split; [done|]. split; [reflexivity|]. by destruct (v_mark v).
  - eexists _, _. split; [reflexivity|]. split; [reflexivity|]. unfold SwapBitmaps. inversion Hm as [b X Hb E1 E2|E1 E2]; [|done]. apply sim_bitmaps; [done|done|by constructor|done].
  - unfold BindLiveToMarkBitmap, HasBoundBitmaps. rewrite bind_gets. cbn in Hal. apply bool_decide_eq_true in Hal. inversion Ht as [b X Hb E1 E2|E1 E2]; [congruence|]. cbn [negb]. rewrite bind_check by done.
    eexists _, _. split; [reflexivity|]. split; [reflexivity|]. inversion Hm as [b X Hb E3 E4|E3 E4]; [|done]. apply sim_bitmaps; [done|done|by constructor|by constructor].
  - cbn in Hal. apply andb_true_iff in Hal as [Ht1%bool_decide_eq_true Hm1%bool_decide_eq_true]. unfold UnBindBitmaps. rewrite !bind_gets. inversion Ht as [b X Hb E1 E2|E1 E2]; [|congruence]. inversion Hm as [b' X' Hb' E3 E4|E3 E4]; [congruence|].
    eexists _, _. split; [reflexivity|]. split; [reflexivity|]. rewrite <- E2. apply sim_bitmaps; [done|done|by constructor|by constructor].
Qed.

(** *** Limits *)
Lemma answer_ClearGrowthLimit k s v : space_sim_at k s v ->
  exists v', snext v SClearGrowthLimit (SReply RUnit) = Some v' /\ space_sim_at k (ClearGrowthLimit s) v'.
Proof.
  intros [[] Hl Hm Ht [Eg Em] Hrec Hc]. eexists. split; [reflexivity|]. split; cbn; try done. split; cbn; unfold NonGrowthLimitCapacity; try done; [lia|intuition|]. intuition lia.
Qed.
Lemma SetSize_done s a n : space_ok s a -> n = growth_limit_ s ->
  exists f m, SetSize n s = Done (tt, with_accessible f (with_limits m (end_ s) (limit_ s) (growth_limit_ s) s)) /\ m = mkMemMap (map_begin (mem_map_ s)) n /\ forall y, begin_ s <= y < end_ s -> f y = true.
Proof.
  intros Hok ->. pose proof (s_limits _ _ Hok) as Hlim. pose proof (s_pages _ _ Hok) as (Hg & _). destruct (sim_facts _ _ _ _ _ (s_sim _ _ Hok)) as (_ & _ & _ & _ & _ & Hf & _). pose proof (s_end _ _ Hok) as He. destruct (s_map _ _ Hok) as [Eb _].
  unfold SetSize. rewrite bind_gets. destruct (Z.eqb_spec (growth_limit_ s) (map_size (mem_map_ s))) as [Ez|Hne]; cbn [negb when].
  - exists (accessible s), (mem_map_ s). split; [by destruct s|]. split; [rewrite Ez; by destruct (mem_map_ s)|apply Hok].
  - rewrite Hg, Z.eqb_refl, (proj2 (Z.leb_le _ _)) by lia. cbn [andb]. eexists _, _. split; [reflexivity|]. split; [done|]. intros y Hy. unfold protect. cbn. destruct (Z.leb_spec (map_begin (mem_map_ s) + growth_limit_ s) y); [lia|]. cbn. by apply Hok.
Qed.
Lemma answer_Clamp k s v : space_sim_at k s v -> sallowed v SClampGrowthLimit = true ->
  exists s' v', ClampGrowthLimit s = Done (tt, s') /\ snext v SClampGrowthLimit (SReply RUnit) = Some v' /\ space_sim_at k s' v'.
Proof.
  intros Hs Hal. cbn in Hal. apply bool_decide_eq_true in Hal. pose proof (ss_ok _ _ _ Hs) as Hok. destruct (ss_limits _ _ _ Hs) as [Eg Em]. destruct (ss_const _ _ _ Hs) as (Eb & Hmx & Hmd).
  pose proof (s_limits _ _ Hok) as Hlim. pose proof (s_pages _ _ Hok) as (Hg & _ & Hmax). destruct (sim_facts _ _ _ _ _ (s_sim _ _ Hok)) as (_ & _ & _ & H0 & _ & Hf & _). pose proof (s_sizes _ _ Hok) as Hsz.
  assert (Hset : forall m b X, bitmap_for k m b X -> v_growth v <= m <= v_map v -> X ⊆ all_sets v -> exists b', SpaceBitmap.SetHeapSize kObjectAlignment (v_growth v) b = Done b' /\ bitmap_for k (v_growth v) b' X).
  { intros m b X Hb Hm HX. apply (SetHeapSize_for k m); try done; try lia; [congruence|]. intros x Hx. by apply Hal, HX. }
  unfold ClampGrowthLimit, Capacity, NonGrowthLimitCapacity. rewrite !bind_gets, bind_check by (apply Z.leb_le; lia). rewrite Eg.
  destruct (Hset _ _ _ (ss_live _ _ _ Hs) ltac:(lia) ltac:(unfold all_sets; set_solver)) as (live & El & Hl).
  assert (Hmark : exists live' mark' , on_mark (SpaceBitmap.SetHeapSize kObjectAlignment (v_growth v)) (with_bitmaps live (mark_bitmap_ s) (temp_bitmap_ s) s) = Done (tt, with_bitmaps live' mark' (temp_bitmap_ s) s) /\
    bitmap_for k (v_growth v) live' (v_live v) /\ option_Forall2 (bitmap_for k (v_growth v)) mark' (v_mark v)).
  { unfold on_mark, on_live. cbn. pose proof (ss_mark _ _ _ Hs) as Hm. inversion Hm as [b X Hb E1 E2|E1 E2].
    - destruct (Hset _ _ _ Hb ltac:(lia)) as (b' & E & Hb'); [unfold all_sets; rewrite <- E2; set_solver|]. rewrite E. eexists live, (Some b'). split; [done|]. split; [done|by constructor].
    - destruct (Hset _ _ _ Hl ltac:(lia) ltac:(unfold all_sets; set_solver)) as (b' & E & Hb'). rewrite E. eexists b', None. split; [done|]. split; [done|by constructor]. }
  destruct Hmark as (live' & mark' & Emk & Hl' & Hm').
  assert (Htemp : exists temp', on_temp (SpaceBitmap.SetHeapSize kObjectAlignment (v_growth v)) (with_bitmaps live' mark' (temp_bitmap_ s) s) = Done (tt, with_bitmaps live' mark' temp' s) /\ option_Forall2 (bitmap_for k (v_growth v)) temp' (v_temp v)).
  { unfold on_temp. cbn. pose proof (ss_temp _ _ _ Hs) as Ht. inversion Ht as [b X Hb E1 E2|E1 E2].
    - destruct (Hset _ _ _ Hb ltac:(lia)) as (b' & E & Hb'); [unfold all_sets; rewrite <- E2; set_solver|]. rewrite E. eexists (Some b'). split; [done|by constructor].
    - exists None. split; [done|by constructor]. }
  destruct Htemp as (temp' & Et & Ht'). unfold on_live at 1. unfold mbind at 1, M_bind at 1. rewrite El. cbn [mbind outcome_bind outcome_bind_def].
  rewrite (bind_done _ _ _ _ _ Emk), (bind_done _ _ _ _ _ Et).
  destruct (SetSize_done (with_bitmaps live' mark' temp' s) (v_heap v) (v_growth v)) as (f & m & E & -> & Hacc); [by destruct Hok|done|]. rewrite (bind_done _ _ _ _ _ E).
  eexists _, _. split; [reflexivity|]. split; [reflexivity|]. destruct Hok as [Hsim Hend [Emb Elim] _ Hpg _ _]. split; cbn; try done; [|apply Hs].
  split; cbn; try done; [lia|]. rewrite <- Eg. split_and!; [done|done|lia].
Qed.

(** *** Sweeping *)
Definition freed_list (v : sstate) (swap : bool) (l : list Z) : sstate :=
  let a := v_heap v in
  mkS (mkA (remove_all (blocks a) l) (contents a) (committed a - sizes (blocks a) l) (locals a))
    (if swap then v_live v else v_live v ∖ list_to_set l) (v_mark v) (v_temp v) (v_growth v) (v_map v) (v_recorded v ++ l).
Lemma remove_all_app (b : gmap Z Z) l1 l2 : remove_all (remove_all b l1) l2 = remove_all b (l1 ++ l2).
Proof. apply map_eq. intros i. apply option_eq. intros y. unfold remove_all. rewrite !map_lookup_filter_Some. cbn. rewrite not_elem_of_app. tauto. Qed.
Lemma sizes_app b l1 l2 : sizes b (l1 ++ l2) = sizes b l1 + sizes b l2.
Proof. unfold sizes. induction l1 as [|x l1 IH]; [done|]. cbn in *. lia. Qed.
Lemma sizes_remove b l1 l2 : (forall x, x ∈ l2 -> x ∉ l1) -> sizes (remove_all b l1) l2 = sizes b l2.
Proof.
  intros Hd. unfold sizes. induction l2 as [|x l2 IH]; [done|]. cbn. rewrite IH by (intros y Hy; apply Hd; by right). f_equal. unfold remove_all. f_equal.
  destruct (b !! x) as [n|] eqn:E; [apply map_lookup_filter_Some_2; [done|cbn; apply Hd; by left]|apply map_lookup_filter_None_2; by left].
Qed.
Lemma freed_list_app v swap l1 l2 : (forall x, x ∈ l2 -> x ∉ l1) -> freed_list (freed_list v swap l1) swap l2 = freed_list v swap (l1 ++ l2).
Proof.
  intros Hd. unfold freed_list. cbn. rewrite remove_all_app, sizes_remove, sizes_app, app_assoc by done. f_equal; [f_equal; lia|]. destruct swap; [done|].
  apply leibniz_equiv. set_solver.
Qed.
Lemma freed_list_nil v swap : freed_list v swap [] = v.
Proof.
  unfold freed_list. destruct v as [[b c m l] L Mk T g mm rec]. cbn. rewrite app_nil_r. f_equal.
  - f_equal; [|unfold sizes; cbn; lia]. unfold remove_all. apply map_filter_id. intros i x _. cbn. by intros ?%elem_of_nil.
  - destruct swap; [done|]. apply leibniz_equiv. set_solver.
Qed.
Lemma block_has_bit k s v x : space_sim_at k s v -> is_Some (blocks (v_heap v) !! x) -> lo <= x < end_ s /\ x < lo + v_map v /\ (x - lo) mod kObjectAlignment = 0.
Proof.
  intros Hs [n Hn]. pose proof (ss_ok _ _ _ Hs) as Hok. destruct (s_sim _ _ Hok) as (l & G & Hr). apply (m_blocks _ _ _ _ _ _ _ Hr) in Hn. pose proof (h_base _ _ _ (m_heap _ _ _ _ _ _ _ Hr)) as Hb.
  destruct (live_in_range _ _ _ _ _ Hb Hn) as (Hx & H1 & H2). destruct (live_pos _ _ _ _ _ Hb Hn) as [_ Hpos]. destruct (m_const _ _ _ _ _ _ _ Hr) as (E & _). destruct (ss_const _ _ _ Hs) as (Eb & _). destruct (ss_limits _ _ _ Hs) as [_ Em].
  pose proof (s_end _ _ Hok). pose proof (s_limits _ _ Hok). pose proof (p_capacity _ _ (b_pages _ _ _ Hb)). pose proof (p_base _ _ (b_pages _ _ _ Hb)) as (_ & Hal & _).
  split_and!; try lia. unfold kObjectAlignment. assert (lo mod 8 = 0); [|div_lia]. rewrite E, Eb in Hal. unfold kPageSize in Hal. div_lia.
Qed.
Lemma clear_bits_done k m l : forall b X, bitmap_for k m b X -> (forall x, x ∈ l -> lo <= x < lo + m /\ (x - lo) mod kObjectAlignment = 0) ->
  exists b', clear_bits l b = Done b' /\ bitmap_for k m b' (X ∖ list_to_set l).
Proof.
  induction l as [|x l IH]; intros b X Hb Hl; cbn.
  - exists b. split; [done|]. by rewrite difference_empty_L.
  - destruct (Hl x ltac:(by left)) as [Hx Hm]. destruct (modify_bit_done k m b X x false Hb Hx Hm) as (b1 & E & Hb1). unfold modify_bit in E. unfold SpaceBitmap.Clear.
    destruct (SpaceBitmap.Modify _ _ _ _) as [[r b2]| | |]; try done. injection E as ->. cbn. destruct (IH b1 _ Hb1) as (b' & E' & Hb'); [intros y Hy; apply Hl; by right|]. exists b'. split; [done|].
    cbn [set_bit] in Hb'. replace (X ∖ ({[x]} ∪ list_to_set l)) with (X ∖ {[x]} ∖ list_to_set l); [done|]. apply leibniz_equiv. set_solver.
Qed.
Lemma SweepCallback_answer k s v swap l : space_sim_at k s v -> NoDup l -> (forall x, x ∈ l -> is_Some (blocks (v_heap v) !! x)) ->
  exists s', SweepCallback swap l s = Done ((Z.of_nat (length l), sizes (blocks (v_heap v)) l), s') /\ space_sim_at k s' (freed_list v swap l).
Proof.
  intros Hs Hnd Hin. set (L := if swap then v_live v else v_live v ∖ list_to_set l).
  assert (H1 : exists s1, when (negb swap) (on_live (clear_bits l)) s = Done (tt, s1) /\ space_sim_at k s1 (with_sets L (v_mark v) (v_temp v) v)).
  { destruct swap; cbn [negb when]; [exists s; split; [done|]; by destruct v|]. apply on_live_answer; [done|]. intros b Hb. apply clear_bits_done; [done|]. intros x Hx. destruct (block_has_bit k s v x Hs (Hin x Hx)); lia. }
  destruct H1 as (s1 & E1 & Hs1). unfold SweepCallback. rewrite (bind_done _ _ _ _ _ E1). unfold FreeList.
  destruct (free_answer (BulkFree l) RBytes (CBulkFree l) l k s1 _ Hs1 ltac:(done)) as (n & s2 & v2 & E2 & Hn & Hs2 & _).
  { cbn. rewrite bool_decide_eq_true_2 by done. cbn. apply forallb_forall. intros x Hx%list_elem_of_In. apply bool_decide_eq_true. by apply Hin. }
  rewrite (bind_done _ _ _ _ _ E2). unfold heap_next in Hn. destruct (spec_next _ _ _ _ _) as [a|] eqn:Es; [|done]. apply spec_next_blocks in Es. cbn in Es. destruct (Z.eqb_spec n (sizes (blocks (v_heap v)) l)) as [->|]; [|done].
  injection Es as <-. cbn in Hn. destruct (below _ _); [|done]. injection Hn as <-. by exists s2.
Qed.
Lemma sweep_batches_answer k swap batches : forall s v freed, space_sim_at k s v -> NoDup (concat batches) -> (forall x, x ∈ concat batches -> is_Some (blocks (v_heap v) !! x)) ->
  exists s', sweep_batches swap batches freed s = Done ((freed.1 + Z.of_nat (length (concat batches)), freed.2 + sizes (blocks (v_heap v)) (concat batches)), s') /\
    space_sim_at k s' (freed_list v swap (concat batches)).
Proof.
  induction batches as [|l batches IH]; intros s v [n m] Hs Hnd Hin; cbn [sweep_batches concat].
  - exists s. rewrite freed_list_nil. split; [|done]. unfold sizes. cbn. by rewrite !Z.add_0_r.
  - cbn in Hnd, Hin. apply NoDup_app in Hnd as (Hnd1 & Hd & Hnd2). destruct (SweepCallback_answer k s v swap l Hs Hnd1) as (s1 & E1 & Hs1); [intros x Hx; apply Hin, elem_of_app; by left|].
    rewrite (bind_done _ _ _ _ _ E1). cbn. assert (Hd' : forall x, x ∈ concat batches -> x ∉ l) by (intros x Hx Hx'; by apply (Hd x Hx')).
    destruct (IH s1 (freed_list v swap l) (n + Z.of_nat (length l), m + sizes (blocks (v_heap v)) l) Hs1 Hnd2) as (s2 & E2 & Hs2).
    { intros x Hx. cbn. destruct (Hin x ltac:(apply elem_of_app; by right)) as [z Hz]. exists z. unfold remove_all. apply map_lookup_filter_Some_2; [done|]. cbn. by apply Hd'. }
    exists s2. rewrite E2, freed_list_app in * by done. split; [|done]. cbn. rewrite sizes_remove, sizes_app, length_app by done. f_equal. f_equal. f_equal; lia.
Qed.
Lemma sorted_elements (l : list Z) (X : gset Z) : StronglySorted Z.lt l -> (forall x, x ∈ l <-> x ∈ X) -> l = iter_set X /\ NoDup l /\ length l = size X.
Proof.
  intros Hs Hx. assert (Hnd : NoDup l).
  { clear Hx. induction Hs as [|x l Hl IH Hf]; constructor; [|done]. intros Hin. rewrite Forall_forall in Hf. specialize (Hf x Hin). lia. }
  assert (Hp : l ≡ₚ elements X) by (apply NoDup_Permutation; [done|apply NoDup_elements|]; intros x; by rewrite Hx, elem_of_elements).
  split; [|split; [done|by rewrite Hp]]. unfold iter_set. apply (StronglySorted_unique Z.le).
  - clear -Hs. induction Hs as [|x l Hl IH Hf]; constructor; [done|]. eapply Forall_impl; [exact Hf|]. intros y Hy. cbn in *. lia.
  - apply (StronglySorted_merge_sort Z.le).
  - by rewrite merge_sort_Permutation.
Qed.
Lemma bitmaps_match k m b b' X X' : bitmap_for k m b X -> bitmap_for k m b' X' -> SpaceBitmap.matching kObjectAlignment b b'.
Proof.
  intros ((Hb & _) & Eh & En & Ek) ((Hb' & _) & Eh' & En' & Ek'). split_and!; try done; [congruence| |congruence].
  destruct (SpaceBitmap.bm_size _ _ Hb) as (_ & Hm & _), (SpaceBitmap.bm_size _ _ Hb') as (_ & Hm' & _). unfold SpaceBitmap.nwords, sizeof_intptr_t in *. div_lia.
Qed.
(** The walk finds what is in one set and not in the other, below the end. *)
Lemma SweepWalk_sets k m e live mark L Mk : bitmap_for k m live L -> bitmap_for k m mark Mk -> lo <= e <= lo + m -> (e - lo) mod kPageSize = 0 -> (forall x, x ∈ L ∖ Mk -> x < e) ->
  exists batches, SpaceBitmap.SweepWalk kObjectAlignment live mark lo e = Done batches /\ concat batches = iter_set (L ∖ Mk) /\
    NoDup (concat batches) /\ length (concat batches) = size (L ∖ Mk).
Proof.
  intros Hl Hk He Hp Hx. pose proof (bitmaps_match _ _ _ _ _ _ Hl Hk) as Hm. destruct Hl as ((Hb & Hsub & Hbits) & Eh & En & _), Hk as ((_ & _ & Hbits') & Eh' & En' & _).
  assert (Hsame : SpaceBitmap.nwords mark = SpaceBitmap.nwords live) by lia.
  assert (Haddr : forall n, SpaceBitmap.addr kObjectAlignment mark n = SpaceBitmap.addr kObjectAlignment live n) by (intros n; unfold SpaceBitmap.addr; congruence).
  destruct (decide (e = lo)) as [->|Hne].
  - exists []. split; [|apply sorted_elements; [constructor|]].
    + destruct Hm as (_ & _ & E1 & E2 & _). unfold SpaceBitmap.SweepWalk. by rewrite E1, E2, Eh', !Z.eqb_refl, Z.ltb_irrefl, Z.leb_refl.
    + intros x. split; [by intros ?%elem_of_nil|]. intros Hin. specialize (Hx x Hin). apply elem_of_difference in Hin as [Hin _]. destruct (Hsub x Hin) as (n & Hn & ->). unfold SpaceBitmap.addr, kObjectAlignment in Hx. lia.
  - set (E := (e - lo) / kObjectAlignment). assert (HE : 0 < E /\ E <= SpaceBitmap.nwords live * 64 /\ e = lo + E * kObjectAlignment /\ E mod 64 = 0) by (unfold E, kObjectAlignment, kPageSize in *; div_lia).
    destruct HE as (HE0 & HE1 & Ee & HE64). destruct (SpaceBitmap.SweepWalk_done kObjectAlignment align_pos live mark 0 E Hm ltac:(lia) HE1) as (batches & Ew & Ec & _).
    unfold SpaceBitmap.addr at 1 2 in Ew. rewrite Eh, Z.mul_0_l, Z.add_0_r, <- Ee in Ew. exists batches. split; [done|]. apply sorted_elements.
    + rewrite Ec. apply (SpaceBitmap.bits_sorted kObjectAlignment align_pos (SpaceBitmap.garbage live mark)).
    + intros x. rewrite Ec, list_elem_of_fmap. setoid_rewrite list_elem_of_filter. setoid_rewrite elem_of_seqZ. split.
      * intros (n & -> & Hbit & Hn). rewrite (SpaceBitmap.bit_garbage kObjectAlignment) in Hbit by done. assert (0 <= n < SpaceBitmap.nwords live * 64) by div_lia.
        rewrite Hbits, Hbits', Haddr in Hbit by (rewrite ?Hsame; done). apply andb_true_iff in Hbit as [?%bool_decide_eq_true Hb2%negb_true_iff%bool_decide_eq_false]. by apply elem_of_difference.
      * intros Hin. specialize (Hx x Hin). apply elem_of_difference in Hin as [Hin Hnot]. destruct (Hsub x Hin) as (n & Hn & ->). exists n. split; [done|].
        rewrite (SpaceBitmap.bit_garbage kObjectAlignment), Hbits, Hbits', Haddr by (rewrite ?Hsame; done). rewrite bool_decide_eq_true_2, bool_decide_eq_false_2 by done. split; [done|].
        unfold SpaceBitmap.addr, kObjectAlignment in *. div_lia.
Qed.
Lemma answer_Sweep k s v swap : space_sim_at k s v -> sallowed v (SSweep swap) = true ->
  exists s', Sweep swap s = Done ((Z.of_nat (size (to_free v swap)), sizes (blocks (v_heap v)) (iter_set (to_free v swap))), s') /\ space_sim_at k s' (swept v swap).
Proof.
  intros Hs Hal. cbn in Hal. apply bool_decide_eq_true in Hal. pose proof (ss_ok _ _ _ Hs) as Hok. destruct (ss_const _ _ _ Hs) as (Eb & _). destruct (ss_limits _ _ _ Hs) as [_ Em].
  assert (Hsw : swept v swap = freed_list v swap (iter_set (to_free v swap))).
  { unfold swept, freed_list. f_equal. destruct swap; [done|]. apply leibniz_equiv. intros x. rewrite !elem_of_difference, elem_of_list_to_set, elem_of_iter_set. done. }
  rewrite Hsw. unfold Sweep. rewrite bind_gets. unfold id. pose proof (ss_mark _ _ _ Hs) as Hm. unfold to_free in *. inversion Hm as [mark Mk Hk E1 E2|E1 E2].
  - rewrite <- E2 in *. destruct (sim_facts _ _ _ _ _ (s_sim _ _ Hok)) as (_ & _ & _ & _ & _ & Hf & _ & Hfa & _). pose proof (s_end _ _ Hok) as He. pose proof (s_limits _ _ Hok).
    assert (Hlive := ss_live _ _ _ Hs). assert (Hw : exists batches, SpaceBitmap.SweepWalk kObjectAlignment (if swap then mark else live_bitmap_ s) (if swap then live_bitmap_ s else mark) (begin_ s) (end_ s) = Done batches /\
      concat batches = iter_set (garbage_of swap (v_live v) Mk) /\ NoDup (concat batches) /\ length (concat batches) = size (garbage_of swap (v_live v) Mk)).
    { assert (Hx : forall x, x ∈ garbage_of swap (v_live v) Mk -> x < end_ s) by (intros x Hx; apply (block_has_bit k s v x Hs); by apply elem_of_dom, Hal).
      rewrite Eb. destruct swap; (eapply SweepWalk_sets; [done|done|lia| |done]); replace (end_ s - lo) with (footprint_ (pages (rosalloc_ s))) by lia; done. }
    destruct Hw as (batches & Ew & Ec & Hnd & Hlen). destruct (sweep_batches_answer k swap batches s v (0, 0) Hs Hnd) as (s' & E & Hs').
    { intros x Hx. rewrite Ec in Hx. apply elem_of_iter_set in Hx. by apply elem_of_dom, Hal. }
    exists s'. rewrite Ec in Hs'. split; [|done]. cbn in E. rewrite Ec in E at 2. rewrite Hlen in E. destruct swap; (unfold mbind at 1, M_bind at 1; rewrite Ew; exact E).
  - rewrite <- E2 in *. exists s. unfold iter_set. rewrite elements_empty. cbn. rewrite size_empty. split; [done|]. by rewrite freed_list_nil.
Qed.
(** ** The theorem *)
Lemma sexec_sim s v c : space_sim s v -> sallowed v c = true -> exists r s' v', sexec c s = Done (r, s') /\ snext v c r = Some v' /\ sjustified s c r /\ space_sim s' v'.
Proof.
  intros [k Hs] Hal. assert (Hq : forall c, sjustified s c (SReply RUnit) -> (exists s' v', sexec c s = Done (SReply RUnit, s') /\ snext v c (SReply RUnit) = Some v' /\ space_sim_at k s' v') ->
    exists r s' v', sexec c s = Done (r, s') /\ snext v c r = Some v' /\ sjustified s c r /\ space_sim s' v').
  { intros c' Hj (s' & v' & E & Hn & Hs'). exists (SReply RUnit), s', v'. split_and!; try done. by exists k. }
  destruct c as [c|self size| | | |mark x obj| | | | | | |swap]; try (apply Hq; [done|]; by apply answer_bitmaps).
  - destruct (answer_SCall k s v c Hs Hal) as (r & s' & v' & E & Hn & Hs' & Hj). exists (SReply r), s', v'. cbn [sexec]. rewrite (bind_done _ _ _ _ _ E). split_and!; try done. by exists k.
  - destruct (AllocWithGrowth_answer k s v self size Hs Hal) as (r & s' & v' & E & Hn & Hs' & Hj). exists (SReply (RBlock r)), s', v'. cbn [sexec]. rewrite (bind_done _ _ _ _ _ E). split_and!; try done. by exists k.
  - destruct (Trim_answer k s v Hs) as (n & s' & E & Hs'). exists (SReply (RBytes n)), s', v. cbn [sexec]. rewrite (bind_done _ _ _ _ _ E). split_and!; try done. by exists k.
  - destruct (inspect_answer k s v Hs) as (calls & E & Hb & _). exists (SReply (RBytes (total (blocks (v_heap v))))), s, v. cbn [sexec]. unfold GetBytesAllocated. rewrite bind_assoc, (bind_done _ _ _ _ _ E). rewrite Hb. split_and!; try done; [cbn; by rewrite Z.eqb_refl|by exists k].
  - destruct (inspect_answer k s v Hs) as (calls & E & _ & Hb). exists (SReply (RBytes (Z.of_nat (size (blocks (v_heap v)))))), s, v. cbn [sexec]. unfold GetObjectsAllocated. rewrite bind_assoc, (bind_done _ _ _ _ _ E). rewrite Hb. split_and!; try done; [cbn; by rewrite Z.eqb_refl|by exists k].
  - apply Hq; [done|]. destruct (answer_ClearGrowthLimit k s v Hs) as (v' & Hn & Hs'). by exists (ClearGrowthLimit s), v'.
  - apply Hq; [done|]. destruct (answer_Clamp k s v Hs Hal) as (s' & v' & E & Hn & Hs'). exists s', v'. cbn [sexec]. unfold quiet. by rewrite (bind_done _ _ _ _ _ E).
  - destruct (answer_Sweep k s v swap Hs Hal) as (s' & E & Hs'). eexists _, s', _. cbn [sexec]. rewrite (bind_done _ _ _ _ _ E). split_and!; [done|cbn; by rewrite !Z.eqb_refl|done|by exists k].
Qed.
Lemma space_sim_conform calls : forall s v, space_sim s v -> sconform s v calls.
Proof.
  induction calls as [|c calls IH]; intros s v Hs; [done|]. cbn. intros Hal. destruct (sexec_sim s v c Hs Hal) as (r & s' & v' & E & Hn & Hj & Hs'). exists r, s', v'. split_and!; auto.
Qed.
End Spec.

(** ** Creation *)
Definition mode_of (low_memory_mode : bool) : PageReleaseMode := if low_memory_mode then kPageReleaseModeAll else kPageReleaseModeSizeAndEnd.
Lemma pages_of n : n mod kPageSize = 0 -> n = n / kPageSize * kPageSize.
Proof. intros Hn. pose proof (Z.div_mod n kPageSize ltac:(plia)). lia. Qed.
Lemma CreateRosAlloc_done lo start ini m low : 0 < lo -> lo mod kPageSize = 0 -> lo + m <= 2 ^ 64 -> 0 < start -> start <= ini <= m ->
  start mod kPageSize = 0 -> ini mod kPageSize = 0 -> m mod kPageSize = 0 ->
  exists r, CreateRosAlloc lo start ini m low = Done r /\ sim lo m (mode_of low) r spec_init /\ capacity_ (pages r) = ini /\ footprint_ (pages r) = start /\ thread_runs r = ∅.
Proof.
  intros H0 Hal Hmax Hst Hini Hsa Hia Hma. rewrite (pages_of start Hsa), (pages_of m Hma) in *. set (c := start / kPageSize) in *. set (mc := m / kPageSize) in *.
  assert (Hc : 0 < c <= mc) by plia. destruct (Create_spec lo c mc (mode_of low) kDefaultPageReleaseSizeThreshold H0 Hal Hmax Hc ltac:(done)) as (p & E & Hi & _ & Eb & Ec & Em & Ef & Er).
  destruct (sim_init lo c mc (mode_of low) kDefaultPageReleaseSizeThreshold H0 Hal Hmax Hc ltac:(done)) as (r & E' & Hs). rewrite E in E'. injection E' as <-.
  destruct (exec_sim _ _ _ _ _ (CSetFootprintLimit ini) Hs) as (x & r' & a' & Ex & Hn & Hs'); [cbn; rewrite Hia, Z.eqb_refl, !(proj2 (Z.leb_le _ _)) by lia; done|].
  pose proof (exec_limit_after _ _ _ _ Ex) as Hlim. cbn [limit_after pages] in Hlim. apply spec_next_blocks in Hn. cbn [exec] in Ex.
  destruct (SetFootprintLimit_spec p _ ini Hi ltac:(lia) Hia ltac:(lia)) as [Es _].
  assert (Ei : in_pages (RosAlloc.SetFootprintLimit ini) (mkRosAlloc p ∅ ∅ ∅ ∅) = Done (tt, mkRosAlloc (if capacity_ p <? ini then with_capacity ini p else p) ∅ ∅ ∅ ∅)) by (unfold in_pages; cbn; by rewrite Es).
  rewrite (bind_done _ _ _ _ _ Ei) in Ex. unfold CreateRosAlloc. fold (mode_of low). rewrite E, obind_done, Ei.
  injection Ex as <- <-. injection Hn as <-. eexists. split; [reflexivity|]. split; [done|]. split; [cbn in *; lia|]. split; [|done]. cbn. by destruct (capacity_ p <? ini).
Qed.
Lemma new_space_sim map ini r growth start limit low acc : sim (map_begin map) (map_size map) (page_release_mode_ (pages r)) r spec_init ->
  capacity_ (pages r) = ini -> footprint_ (pages r) = start -> limit = map_begin map + map_size map ->
  map_begin map + map_size map + 512 < 2 ^ 64 -> growth mod kPageSize = 0 -> map_size map mod kPageSize = 0 -> growth <= map_size map ->
  0 < start <= ini -> ini <= growth -> start mod kPageSize = 0 -> ini mod kPageSize = 0 ->
  (forall y, map_begin map <= y < map_begin map + start -> acc y = true) ->
  exists s, new_space true map ini r (map_begin map) (map_begin map + start) limit growth start low acc = Done s /\
    space_sim (map_begin map) (map_size map) (page_release_mode_ (pages r)) s (spec_new growth (map_size map)) /\
    low_memory_mode_ s = low /\ rosalloc_ s = r /\ begin_ s = map_begin map /\ starting_size_ s = start /\ initial_size_ s = ini /\ accessible s = acc.
Proof.
  intros Hs Ecap Efp Elim Hmax Hg Hm Hgm Hst Hini Hsa Hia Hacc. destruct (sim_facts _ _ _ _ _ Hs) as (Eb & Em & _ & H0 & Hal & _).
  destruct (bitmap_Create_done 3 (map_begin map) (map_size map) ltac:(lia) ltac:(lia) ltac:(lia) ltac:(lia)) as (b & Ec & Hb & Hh & Hn). change (2 ^ 3) with kObjectAlignment in *.
  unfold new_space. assert (Hc : (map_begin map mod kGcCardSize =? 0) && ((map_begin map + map_size map) mod kGcCardSize =? 0) = true).
  { unfold kPageSize, kGcCardSize in *. apply andb_true_iff. rewrite !Z.eqb_eq. div_lia. }
  rewrite Hc, Ec. cbn [dcheck mbind outcome_bind outcome_bind_def]. eexists. split; [reflexivity|]. split; [|done].
  assert (Hbf : bitmap_for (map_begin map) (length (SpaceBitmap.words b)) (map_size map) b ∅) by (split_and!; try done; unfold kObjectAlignment, kPageSize in *; div_lia).
  exists (length (SpaceBitmap.words b)). split; cbn; try done; [|by constructor|by constructor].
  split; cbn; try done; [unfold ros_sim; by rewrite Em|lia|lia].
Qed.
(** What the kernel returns for a request of memory: nothing, or memory at a page
    that leaves room at the end of the address space. *)
Definition maps_pages (MapAnonymous : Z -> Z -> option Z) : Prop :=
  forall req size begin, MapAnonymous req size = Some begin -> 0 < begin /\ begin mod kPageSize = 0 /\ begin + size + 512 < 2 ^ 64.

(** ** Clearing the space *)
Lemma no_thread_runs lo max mode r a : sim lo max mode r a -> locals a = ∅ -> thread_runs r = ∅.
Proof.
  intros (l & G & Hs) He. apply map_empty. intros [t i]. destruct (thread_runs r !! (t, i)) as [x|] eqn:E; [|done]. apply (m_locals _ _ _ _ _ _ _ Hs) in E. set_solver.
Qed.
Definition cleared (v : sstate) : sstate := mkS spec_init ∅ ((fun _ => ∅) <$> v_mark v) (v_temp v) (v_growth v) (v_map v) (v_recorded v).
Lemma Clear_done lo max mode s v : space_sim lo max mode s v -> locals (v_heap v) = ∅ -> starting_size_ s <= GetFootprint s ->
  exists s', Clear s = Done (tt, s') /\ space_sim lo (v_map v) (mode_of (low_memory_mode_ s)) s' (cleared v) /\ GetFootprint s' = starting_size_ s /\
    GetFootprintLimit s' = Z.max (initial_size_ s) (GetFootprintLimit s).
Proof.
  intros [k Hs] Hloc Hfp. pose proof (ss_ok _ _ _ _ _ _ Hs) as Hok. destruct (ss_const _ _ _ _ _ _ Hs) as (Eb & _). destruct (ss_limits _ _ _ _ _ _ Hs) as [Eg Em]. pose proof (s_sizes _ _ Hok) as (Hst & Hini & Hsa & Hia).
  pose proof (s_limits _ _ Hok) as Hlim. destruct (s_map _ _ Hok) as [Emb Elim]. pose proof (s_pages _ _ Hok) as (Hg & Hm & Hmax). destruct (sim_facts _ _ _ _ _ (s_sim _ _ Hok)) as (_ & _ & _ & H0 & Hal & Hf & Hc & _ & Hca).
  destruct (CreateRosAlloc_done lo (starting_size_ s) (initial_size_ s) (v_map v) (low_memory_mode_ s)) as (r & Er & Hr & Ecap & Efp & Etr); try done; try lia; [by rewrite <- Eb..|congruence|].
  destruct (sim_facts _ _ _ _ _ Hr) as (_ & Emax & Emode & _). pose proof (no_thread_runs _ _ _ _ _ (s_sim _ _ Hok) Hloc) as Ht.
  assert (Ewt : with_thread_runs ∅ r = r) by (destruct r; cbn in *; by subst).
  set (mark := (fun _ => SpaceBitmap.ClearAll (default (live_bitmap_ s) (mark_bitmap_ s))) <$> mark_bitmap_ s).
  set (live := match mark_bitmap_ s with Some _ => SpaceBitmap.ClearAll (live_bitmap_ s) | None => SpaceBitmap.ClearAll (SpaceBitmap.ClearAll (live_bitmap_ s)) end).
  set (s1 := with_rosalloc r (SetEnd (begin_ s + starting_size_ s) (with_bitmaps live mark (temp_bitmap_ s) s))).
  assert (Hs1 : space_sim_at lo (v_map v) (mode_of (low_memory_mode_ s)) k s1 (cleared v)).
  { split; cbn; try done; [| | |apply Hs|apply Hs].
    - split; cbn; try done; try lia; [unfold ros_sim; by rewrite Eb, Emax, Emode|]. intros y Hy. apply (s_accessible _ _ Hok). rewrite (s_end _ _ Hok). unfold GetFootprint in Hfp. lia.
    - pose proof (ClearAll_for _ _ _ _ _ (ss_live _ _ _ _ _ _ Hs)) as Hl. unfold live. destruct (mark_bitmap_ s); [done|]. by apply (ClearAll_for _ _ _ _ ∅).
    - unfold mark. pose proof (ss_mark _ _ _ _ _ _ Hs) as Hmk. inversion Hmk as [b X Hb E1 E2|E1 E2]; cbn; constructor. by apply (ClearAll_for _ _ _ _ X). }
  destruct (SetFootprintLimit_answer lo (v_map v) (mode_of (low_memory_mode_ s)) k s1 (cleared v) (GetFootprintLimit s) Hs1) as (s2 & E2 & Hs2).
  { cbn. unfold GetFootprintLimit. rewrite Hca, Z.eqb_refl, !(proj2 (Z.leb_le _ _)) by lia. done. }
  exists s2. split; [|split; [by exists k|]].
  - unfold Clear. rewrite bind_gets, bind_modify. unfold on_mark at 1. unfold mbind at 1, M_bind at 1. cbn [mark_bitmap_ with_bitmaps].
    destruct (mark_bitmap_ s) as [b|] eqn:Emk; cbn; unfold mbind, M_bind, gets, modify; cbn; unfold NonGrowthLimitCapacity; cbn; rewrite Emb, Em, Eb, Er; cbn; rewrite Ht, Ewt; rewrite <- E2; unfold s1, live, mark; rewrite ?Eb; done.
  - unfold SetFootprintLimit in E2. rewrite bind_gets in E2. unfold GetFootprint at 1 2 in E2. cbn [rosalloc_ s1 with_rosalloc] in E2.
    pose proof (ss_ok _ _ _ _ _ _ Hs1) as Hok1. unfold GetFootprint, GetFootprintLimit in *.
    rewrite Efp in E2. rewrite (proj2 (Z.ltb_ge _ _)) in E2 by lia. destruct (raise_done s1 spec_init (capacity_ (pages (rosalloc_ s))) Hok1 ltac:(lia) Hca ltac:(cbn; lia)) as [E3 _].
    rewrite E2 in E3. injection E3 as ->. cbn. unfold raised. rewrite Ecap. destruct (Z.ltb_spec (initial_size_ s) (capacity_ (pages (rosalloc_ s)))); cbn; lia.
Qed.

(** ** The split of the zygote *)
Lemma SetHeapLimit_for lo k m b X g : bitmap_for lo k m b X -> 0 <= g < m -> g mod kPageSize = 0 -> lo + m < 2 ^ 64 -> 0 <= lo -> (forall x, x ∈ X -> x < lo + g) ->
  bitmap_for lo k g (SpaceBitmap.SetHeapLimit kObjectAlignment (lo + g) b) X /\ SpaceBitmap.HeapLimit kObjectAlignment (SpaceBitmap.SetHeapLimit kObjectAlignment (lo + g) b) = lo + g.
Proof.
  intros Hb Hg Hp Hm H0 HX. destruct (SetHeapSize_for lo k m b X g Hb ltac:(lia) Hp Hm H0 HX) as (b' & E & Hb'). pose proof Hb as ((Hbo & _) & Eh & En & _).
  assert (Es : SpaceBitmap.SetHeapLimit kObjectAlignment (lo + g) b = b' /\ SpaceBitmap.HeapSize kObjectAlignment b' = g).
  { unfold SpaceBitmap.SetHeapSize in E. destruct (Z.eqb_spec (SpaceBitmap.HeapSize kObjectAlignment (SpaceBitmap.mkBitmap (SpaceBitmap.words b) (SpaceBitmap.OffsetToIndex kObjectAlignment g * sizeof_intptr_t) (SpaceBitmap.heap_begin_ b))) g) as [Ez|]; [|done].
    injection E as <-. split; [|done]. unfold SpaceBitmap.SetHeapLimit. rewrite Eh. replace (lo + g - lo) with g by lia. rewrite wrap_small by (unfold in_width; lia). rewrite (proj2 (Z.ltb_lt _ _)); [done|].
    destruct (SpaceBitmap.bm_size _ _ Hbo) as (_ & H8 & _). unfold SpaceBitmap.OffsetToIndex, SpaceBitmap.nwords, kObjectAlignment, kBitsPerIntPtrT, sizeof_intptr_t, kPageSize in *. div_lia. }
  destruct Es as [-> Ehs]. split; [done|]. unfold SpaceBitmap.HeapLimit. rewrite Ehs. destruct Hb' as (_ & -> & _). apply wrap_small. unfold in_width. lia.
Qed.
Lemma revoke_all_done s a ts n s' : space_ok s a -> RevokeAllThreadLocalBuffers ts s = Done (n, s') -> exists r, s' = with_rosalloc r s /\ footprint_ (pages r) = footprint_ (pages (rosalloc_ s)).
Proof.
  intros Hok E. unfold RevokeAllThreadLocalBuffers, in_ros in E. destruct (RevokeAllThreadLocalRuns ts (rosalloc_ s)) as [[x r]| | |] eqn:Er; try done. cbn in E.
  destruct (revoke_footprint (capacity_ (pages (rosalloc_ s)), Some (footprint_ (pages (rosalloc_ s)))) ts (rosalloc_ s) x r) as [_ Hf]; [split; [done|by intros f [= <-]]|done|].
  specialize (Hf _ eq_refl). rewrite Hf, Z.sub_diag in E. cbn in E. injection E as _ <-. by exists r.
Qed.
(** The steps of the split, for a space that ends at a page. *)
Lemma split_tail_eval s m r s2 mark growth low : mark_bitmap_ s = Some mark -> thread_runs (rosalloc_ s) = ∅ -> thread_runs r = ∅ ->
  RemapAtEnd (mem_map_ s) (end_ s) = Done (mkMemMap (begin_ s) (end_ s - begin_ s), mkMemMap (end_ s) m) ->
  CreateRosAlloc (end_ s) (starting_size_ s) (initial_size_ s) m low = Done r ->
  new_space true (mkMemMap (end_ s) m) (initial_size_ s) r (end_ s) (end_ s + starting_size_ s) (limit_ s) growth (starting_size_ s) (low_memory_mode_ s)
    (if initial_size_ s <? m then protect (end_ s + starting_size_ s) (m - initial_size_ s) false (fun _ => true) else fun _ => true) = Done s2 ->
  SpaceBitmap.HeapLimit kObjectAlignment (SpaceBitmap.SetHeapLimit kObjectAlignment (end_ s) (live_bitmap_ s)) = end_ s ->
  SpaceBitmap.HeapLimit kObjectAlignment (SpaceBitmap.SetHeapLimit kObjectAlignment (end_ s) mark) = end_ s ->
  split_tail true growth m low s =
    Done (with_bitmaps (SpaceBitmap.SetHeapLimit kObjectAlignment (end_ s) (live_bitmap_ s)) (Some (SpaceBitmap.SetHeapLimit kObjectAlignment (end_ s) mark)) (temp_bitmap_ s)
            (with_limits (mkMemMap (begin_ s) (end_ s - begin_ s)) (end_ s) (end_ s) (growth_limit_ s) s), s2).
Proof.
  intros Emk Ht0 Ht Erm Er E2 El2 Em2. assert (Ewt : with_thread_runs ∅ r = r) by (destruct r; cbn in *; by subst). unfold split_tail. rewrite Erm, obind_done, Er, obind_done, Ht0, Ewt. cbn [map_begin]. rewrite E2, obind_done.
  unfold GetMarkBitmap. cbn [end_ live_bitmap_ mark_bitmap_ temp_bitmap_ with_limits]. rewrite Emk. cbn [default from_option]. unfold id. by rewrite El2, Em2, Z.eqb_refl.
Qed.
Lemma CreateZygoteSpace_eval s fp n r0 threads low : RevokeAllThreadLocalBuffers threads s = Done (n, with_rosalloc r0 s) ->
  begin_ s mod kPageSize = 0 -> fp mod kPageSize = 0 -> end_ s = begin_ s + fp -> 0 <= begin_ s -> 0 <= fp -> begin_ s + fp + kPageSize <= 2 ^ 64 ->
  CreateZygoteSpace true threads low s = split_tail true (growth_limit_ s - fp) (map_size (mem_map_ s) - fp) low (with_limits (mem_map_ s) (end_ s) (limit_ s) fp (with_rosalloc r0 s)).
Proof.
  intros E0 Hal Hfa He H0 Hf Hmax. assert (Hea : end_ s mod kPageSize = 0) by (rewrite He, Z.add_mod, Hal, Hfa by plia; done).
  assert (Ere : RoundUp (end_ s) kPageSize = end_ s) by (apply RoundUp_aligned; [lia|done|lia]). assert (Erf : RoundUp fp kPageSize = fp) by (apply RoundUp_aligned; [lia|done|lia]).
  unfold CreateZygoteSpace. rewrite E0, obind_done. change (end_ (with_rosalloc r0 s)) with (end_ s). rewrite Ere. unfold Size, SetGrowthLimit, SetEnd. cbn [begin_ end_ with_limits with_rosalloc]. replace (end_ s - begin_ s) with fp by lia. rewrite !Erf.
  assert (Hcards : (begin_ s mod kGcCardSize =? 0) && (end_ s mod kGcCardSize =? 0) && (begin_ s mod kPageSize =? 0) && (end_ s mod kPageSize =? 0) = true).
  { rewrite Hal, Hea, !andb_true_iff, !Z.eqb_eq. unfold kPageSize, kGcCardSize in *. div_lia. }
  rewrite Hcards. cbn [dcheck]. unfold Size. cbn [growth_limit_ begin_ end_ with_limits with_rosalloc]. replace (end_ s - begin_ s) with fp by lia. by rewrite Z.ltb_irrefl.
Qed.
Lemma RemapAtEnd_done lo m fp : lo mod kPageSize = 0 -> m mod kPageSize = 0 -> fp mod kPageSize = 0 -> 0 <= fp < m ->
  RemapAtEnd (mkMemMap lo m) (lo + fp) = Done (mkMemMap lo fp, mkMemMap (lo + fp) (m - fp)).
Proof.
  intros Hal Hm Hf Hr. assert (Hea : (lo + fp) mod kPageSize = 0) by (rewrite Z.add_mod, Hal, Hf by plia; done). assert (Hma : (lo + m) mod kPageSize = 0) by (rewrite Z.add_mod, Hal, Hm by plia; done).
  unfold RemapAtEnd. cbn [map_begin map_size]. rewrite Hal, Hea, Hma, !(proj2 (Z.leb_le _ _)), (proj2 (Z.eqb_neq (lo + fp) (lo + m))) by lia. cbn. do 3 f_equal; lia.
Qed.
Lemma CreateZygoteSpace_done lo max mode s v Mk threads low : space_sim lo max mode s v -> v_mark v = Some Mk -> locals (v_heap v) ⊆ list_to_set threads ->
  initial_size_ s <= v_growth v - GetFootprint s -> (forall x, x ∈ v_live v ∪ Mk -> x < end_ s) ->
  exists s1 s2 a, CreateZygoteSpace true threads low s = Done (s1, s2) /\
    sim lo max mode (rosalloc_ s1) a /\ blocks a = blocks (v_heap v) /\ contents a = contents (v_heap v) /\ committed a = total (blocks a) /\
    begin_ s1 = lo /\ end_ s1 = end_ s /\ limit_ s1 = end_ s /\ mem_map_ s1 = mkMemMap lo (GetFootprint s) /\
    (exists k mark, bitmap_for lo k (GetFootprint s) (live_bitmap_ s1) (v_live v) /\ mark_bitmap_ s1 = Some mark /\ bitmap_for lo k (GetFootprint s) mark Mk) /\
    space_sim (end_ s) (v_map v - GetFootprint s) (mode_of low) s2 (spec_new (v_growth v - GetFootprint s) (v_map v - GetFootprint s)) /\ low_memory_mode_ s2 = low_memory_mode_ s.
Proof.
  intros [k Hs] Emk Hloc Hroom Hsets. pose proof (ss_ok _ _ _ _ _ _ Hs) as Hok. destruct (ss_const _ _ _ _ _ _ Hs) as (Eb & Emax0 & Emode0). destruct (ss_limits _ _ _ _ _ _ Hs) as [Eg Em]. pose proof (s_sizes _ _ Hok) as (Hst & Hini & Hsa & Hia).
  pose proof (s_limits _ _ Hok) as Hlim. destruct (s_map _ _ Hok) as [Emb Elim]. pose proof (s_pages _ _ Hok) as (Hg & Hm & Hmax). destruct (sim_facts _ _ _ _ _ (s_sim _ _ Hok)) as (_ & _ & _ & H0 & Hal & Hf & Hc & Hfa & _). pose proof (s_end _ _ Hok) as Hend.
  destruct (call_answer lo max mode (RevokeAllThreadLocalRuns threads) RBytes (CRevokeAll threads) k s v Hs ltac:(done) ltac:(done)) as (n & s0 & v0 & E0 & Hn & Hs0 & _).
  destruct (revoke_all_done s (v_heap v) threads n s0 Hok E0) as (r0 & -> & Ef0). set (fp := GetFootprint s) in *. change (footprint_ (pages (rosalloc_ s))) with fp in *.
  unfold heap_next in Hn. destruct (spec_next _ _ _ _ _) as [a|] eqn:Es; [|done]. cbn in Hn. destruct (below _ _ _); [|done]. injection Hn as <-. pose proof Es as Hacc. apply spec_next_blocks in Es. cbn in Es. injection Es as <-.
  pose proof (s_sim _ _ (ss_ok _ _ _ _ _ _ Hs0)) as Hr0. cbn in Hr0. destruct (ss_const _ _ _ _ _ _ Hs0) as (_ & Emx & Emd). cbn in Emx, Emd. unfold ros_sim in Hr0. rewrite Emx, Emd, Eb in Hr0.
  assert (Hl0 : locals (v_heap v) ∖ list_to_set threads = ∅) by set_solver. rewrite Hl0 in Hr0, Hacc.
  assert (Hcm : committed (v_heap v) - n = total (blocks (v_heap v))).
  { destruct Hr0 as (l & G & Hr). pose proof (sim_accounted _ _ _ _ _ _ _ Hr) as Ha. unfold accounted in Ha. apply andb_true_iff in Ha as [_ Ha]. cbn in Ha. rewrite bool_decide_eq_false_2 in Ha by tauto. by apply Z.eqb_eq. }
  pose proof (no_thread_runs _ _ _ _ _ Hr0 eq_refl) as Ht0.
  assert (Hpg : kPageSize <= initial_size_ s) by (rewrite (pages_of _ Hia) in *; plia).
  assert (Hea : (lo + fp) mod kPageSize = 0) by (rewrite Z.add_mod, Hfa by plia; rewrite <- Eb, Hal; done).
  destruct (CreateRosAlloc_done (lo + fp) (starting_size_ s) (initial_size_ s) (v_map v - fp) low) as (r & Er & Hr & Ecap & Efp & Etr); try done; try lia.
  { rewrite Zminus_mod, Hfa, <- Em, Hm. done. }
  destruct (sim_facts _ _ _ _ _ Hr) as (_ & _ & Emode & _).
  pose (acc := if initial_size_ s <? v_map v - fp then protect (lo + fp + starting_size_ s) (v_map v - fp - initial_size_ s) false (fun _ => true) else fun _ => true).
  destruct (new_space_sim (mkMemMap (lo + fp) (v_map v - fp)) (initial_size_ s) r (v_growth v - fp) (starting_size_ s) (limit_ s) (low_memory_mode_ s) acc) as (s2 & E2 & Hs2 & Elow & _); cbn; try done; try lia; [by rewrite Emode| | | |].
  { rewrite Zminus_mod, Hfa, <- Eg, Hg. done. }
  { rewrite Zminus_mod, Hfa, <- Em, Hm. done. }
  { intros y Hy. unfold acc. destruct (initial_size_ s <? _); [|done]. unfold protect. destruct (Z.leb_spec (lo + fp + starting_size_ s) y); [lia|done]. }
  cbn in Hs2. rewrite Emode in Hs2.
  pose proof (ss_live _ _ _ _ _ _ Hs) as Hlive. pose proof (ss_mark _ _ _ _ _ _ Hs) as Hmark. rewrite Emk in Hmark. inversion Hmark as [mark X Hmk E1 EX|]. subst X.
  destruct (SetHeapLimit_for lo k (v_map v) _ _ fp Hlive ltac:(lia) Hfa ltac:(lia) ltac:(lia)) as [Hl2 El2]; [intros x Hx; rewrite <- Eb, <- Hend; apply Hsets; set_solver|].
  destruct (SetHeapLimit_for lo k (v_map v) _ _ fp Hmk ltac:(lia) Hfa ltac:(lia) ltac:(lia)) as [Hm2 Em2]; [intros x Hx; rewrite <- Eb, <- Hend; apply Hsets; set_solver|].
  pose (s1 := with_bitmaps (SpaceBitmap.SetHeapLimit kObjectAlignment (lo + fp) (live_bitmap_ s)) (Some (SpaceBitmap.SetHeapLimit kObjectAlignment (lo + fp) mark)) (temp_bitmap_ s) (with_rosalloc r0 (with_limits (mkMemMap lo fp) (lo + fp) (lo + fp) fp s))).
  exists s1, s2, (mkA (blocks (v_heap v)) (contents (v_heap v)) (committed (v_heap v) - n) ∅). rewrite Hend, Eb.
  split; [|split_and!; try done; by exists k, (SpaceBitmap.SetHeapLimit kObjectAlignment (lo + fp) mark)].
  rewrite (CreateZygoteSpace_eval s fp n r0 threads low) by (try done; lia).
  assert (Emm : mem_map_ s = mkMemMap lo (v_map v)) by (rewrite <- Em, <- Eb, <- Emb; by destruct (mem_map_ s)). pose proof (RemapAtEnd_done lo (v_map v) fp ltac:(congruence) ltac:(congruence) Hfa ltac:(lia)) as Erm.
  pose proof (split_tail_eval (with_limits (mem_map_ s) (end_ s) (limit_ s) fp (with_rosalloc r0 s)) (v_map v - fp) r s2 mark (v_growth v - fp) low) as Hsplit. cbn in Hsplit. rewrite Hend, Eb, Eg, Em, Emm in *.
  replace (lo + fp - lo) with fp in Hsplit by lia. by apply Hsplit.
Qed.
