(* ===== verification/RosAllocSpaceTheorems.v ===== *)
(** What RosAllocSpace guarantees to the heap and to the collectors, with the
    inputs that the statements are checked on, and where its code and its
    comments differ. *)
From stdpp Require Import prelude gmap list sorting.
From Stdlib Require Import ZArith Lia.
From S2P Require Import Prelude BitUtils SpaceBitmap RosAlloc RosAllocPages RosAllocFreePages RosAllocSlots RosAllocRuns RosAllocIndex RosAllocAlloc RosAllocFree RosAllocSpec RosAllocSpace RosAllocSpaceInvariant RosAllocSpaceSpec.
Import RosAlloc RosAllocSpace.
Open Scope Z_scope.

(** ** Creation *)
Lemma Create_sim MapAnonymous initial_size growth_limit capacity requested_begin low lo : maps_pages MapAnonymous -> 0 <= initial_size -> initial_size mod kPageSize = 0 -> capacity + kPageSize <= 2 ^ 64 ->
  Z.max kDefaultStartingSize initial_size <= growth_limit <= capacity -> MapAnonymous requested_begin (RoundUp capacity kPageSize) = Some lo ->
  exists s, Create MapAnonymous true initial_size growth_limit capacity requested_begin low = Done (Some s) /\
    space_sim lo (RoundUp capacity kPageSize) (mode_of low) s (spec_new (RoundUp growth_limit kPageSize) (RoundUp capacity kPageSize)) /\
    starting_size_ s = kDefaultStartingSize /\ GetFootprint s = kDefaultStartingSize.
Proof.
  intros Hmap H0 Hi Hc Hr Em. destruct (Hmap _ _ _ Em) as (Hlo & Hla & Hlm). unfold kDefaultStartingSize in *.
  destruct (RoundUp_pages growth_limit ltac:(plia) ltac:(lia)) as (ng & Eg & Hg). destruct (RoundUp_pages capacity ltac:(plia) ltac:(lia)) as (nc & Ec & Hcp). rewrite Eg, Ec in *.
  assert (Hle : ng <= nc) by plia. set (ini := Z.max kPageSize initial_size) in *.
  assert (Hia : ini mod kPageSize = 0) by (unfold ini; destruct (Z.max_spec kPageSize initial_size) as [[_ ->]|[_ ->]]; [done|by apply Z.mod_same]).
  assert (Hil : ini <= ng * kPageSize) by lia.
  destruct (CreateRosAlloc_done lo kPageSize ini (nc * kPageSize) low) as (r & Er & Hs & Ecap & Efp & _); try done; try (by apply Z.mod_mul); try (unfold ini; plia).
  destruct (sim_facts _ _ _ _ _ Hs) as (_ & _ & Emode & _).
  pose (acc := if 0 <? nc * kPageSize - kPageSize then protect (lo + kPageSize) (nc * kPageSize - kPageSize) false (fun _ => true) else fun _ => true).
  destruct (new_space_sim (mkMemMap lo (nc * kPageSize)) ini r (ng * kPageSize) kPageSize (lo + nc * kPageSize) low acc) as (s & En & Hsp & _ & Ero & _ & Est & _); cbn; try done; try (by apply Z.mod_mul); try (unfold ini; plia).
  { by rewrite Emode. }
  { intros y Hy. unfold acc. destruct (0 <? _); [|done]. unfold protect. destruct (Z.leb_spec (lo + kPageSize) y); [lia|done]. }
  cbn in Hsp. rewrite Emode in Hsp. exists s. split; [|split; [done|split; [done|unfold GetFootprint; by rewrite Ero]]].
  unfold Create, CreateMemMap, kDefaultStartingSize. assert (Eini : (if initial_size <? kPageSize then kPageSize else initial_size) = ini) by (unfold ini; destruct (Z.ltb_spec initial_size kPageSize); lia). rewrite Eini.
  rewrite !(proj2 (Z.ltb_ge _ _)) by lia. rewrite Ec, Em, Eg. unfold CreateFromMemMap. cbn [map_begin] in En |- *. rewrite Er, obind_done. fold acc. by rewrite En, obind_done.
Qed.

Definition map_at (lo : Z) (req size : Z) : option Z := Some lo.
Definition sample_scalls : list scall :=
  [SCall (CAlloc true 1 100); SCall (CAlloc true 1 5000); SAllocWithGrowth 1 20000; SCall (CAlloc false 1 2000); SCall (CWrite 1048720 7);
   SModify false true 1048720; SModify false true 1052672; SModify true true 1048720; SSweep false; SCall (CRead 1048720); SBytesAllocated; SClearGrowthLimit; STrim].
Lemma map_at_pages : maps_pages (fun req size => if size =? 64 * kPageSize then map_at (2 ^ 20) req size else None).
Proof. intros req size begin. destruct (Z.eqb_spec size (64 * kPageSize)) as [->|]; [|done]. intros [= <-]. split_and!; vm_compute; congruence. Qed.

(** ** States that calls lead to *)
Definition sfollow (lo max : Z) (mode : PageReleaseMode) : list scall -> RosAllocSpace -> sstate -> option (RosAllocSpace * sstate) :=
  fix go calls s v :=
    match calls with
    | [] => Some (s, v)
    | c :: calls =>
        if sallowed lo mode v c then
          match sexec c s with
          | Done (r, s') => match snext lo max v c r with Some v' => go calls s' v' | None => None end
          | _ => None
          end
        else None
    end.
Lemma sfollow_sim lo max mode calls : forall s v s' v', space_sim lo max mode s v -> sfollow lo max mode calls s v = Some (s', v') -> space_sim lo max mode s' v'.
Proof.
  induction calls as [|c calls IH]; intros s v s' v' Hs; cbn; [by intros [= <- <-]|]. destruct (sallowed lo mode v c) eqn:Ea; [|done].
  destruct (sexec_sim lo max mode s v c Hs Ea) as (r & s1 & v1 & E & Hn & _ & Hs1). rewrite E, Hn. by apply IH.
Qed.
Definition sample_created : outcome (option RosAllocSpace) :=
  Create (fun req size => if size =? 64 * kPageSize then map_at (2 ^ 20) req size else None) true (8 * kPageSize) (32 * kPageSize) (64 * kPageSize) 0 false.
Definition sample_after (calls : list scall) : option (RosAllocSpace * sstate) :=
  match sample_created with Done (Some s) => sfollow (2 ^ 20) (64 * kPageSize) kPageReleaseModeSizeAndEnd calls s (spec_new (32 * kPageSize) (64 * kPageSize)) | _ => None end.
Definition is_some {A} (o : option A) : bool := match o with Some _ => true | None => false end.
Lemma sample_after_sim calls : is_some (sample_after calls) = true ->
  exists s v, sample_after calls = Some (s, v) /\ space_sim (2 ^ 20) (64 * kPageSize) kPageReleaseModeSizeAndEnd s v.
Proof.
  intros Hsome. destruct (sample_after calls) as [[s v]|] eqn:E; [|done]. exists s, v. split; [done|]. unfold sample_after in E.
  destruct (Create_sim (fun req size => if size =? 64 * kPageSize then map_at (2 ^ 20) req size else None) (8 * kPageSize) (32 * kPageSize) (64 * kPageSize) 0 false (2 ^ 20) map_at_pages) as (s0 & E0 & Hs0 & _); try done; [vm_compute; congruence..|].
  unfold sample_created in E. rewrite E0 in E. by apply (sfollow_sim _ _ _ calls _ _ _ _ Hs0 E).
Qed.

(** ** Sweeping *)
(** C16: a sweep frees exactly the garbage.  When the objects that are in the live
    bitmap and not in the mark bitmap (or, when the bitmaps have been swapped,
    the other way round) are blocks of the space, [Sweep] frees these blocks and
    no others, returns their number and the sum of their sizes, tells the
    swapping code about each of them in the order of their addresses, and takes
    them out of the live bitmap unless the bitmaps have been swapped; the other
    blocks keep their contents.  A space with bound bitmaps is not swept. *)
Theorem space_sweeps_garbage lo max mode s v swap : space_sim lo max mode s v -> to_free v swap ⊆ dom (blocks (v_heap v)) ->
  exists s', Sweep swap s = Done ((Z.of_nat (size (to_free v swap)), sizes (blocks (v_heap v)) (iter_set (to_free v swap))), s') /\ space_sim lo max mode s' (swept v swap).
Proof.
  intros [k Hs] Hd. destruct (answer_Sweep lo max mode k s v swap Hs) as (s' & E & Hs'); [cbn; by rewrite bool_decide_eq_true_2|]. exists s'. split; [done|by exists k].
Qed.
Definition sweep_calls : list scall :=
  [SCall (CAlloc true 1 100); SCall (CAlloc true 1 5000); SModify false true 1048720; SModify false true 1052672; SModify true true 1048720].
Lemma space_sweeps_garbage_witness : exists s v s', sample_after sweep_calls = Some (s, v) /\ to_free v false = {[ 1052672 ]} /\
  Sweep false s = Done ((Z.of_nat (size (to_free v false)), sizes (blocks (v_heap v)) (iter_set (to_free v false))), s').
Proof.
  destruct (sample_after_sim sweep_calls) as (s & v & E & Hs); [vm_compute; reflexivity|].
  assert (Hv : (match sample_after sweep_calls with Some (_, v) => bool_decide (to_free v false = {[ 1052672 ]}) && bool_decide (is_Some (blocks (v_heap v) !! 1052672)) | None => false end) = true) by (vm_compute; reflexivity).
  rewrite E in Hv. apply andb_true_iff in Hv as [Hv%bool_decide_eq_true Hd%bool_decide_eq_true].
  destruct (space_sweeps_garbage (2 ^ 20) (64 * kPageSize) kPageReleaseModeSizeAndEnd s v false Hs) as (s' & Es & _); [rewrite Hv; intros x ->%elem_of_singleton; by apply elem_of_dom|].
  exists s, v, s'. split; [exact E|]. split; [exact Hv|exact Es].
Defined.

(** ** Clearing and splitting *)
(** C18: [Clear] empties the space: no block is left, the bitmaps are empty, the
    footprint is what the space started with, and the limits are kept, so that
    the space is as good as a new one.  The hypotheses are that no thread has a
    run of the space, and that its footprint has not been trimmed below the
    starting size. *)
Theorem space_clear lo max mode s v : space_sim lo max mode s v -> locals (v_heap v) = ∅ -> starting_size_ s <= GetFootprint s ->
  exists s', Clear s = Done (tt, s') /\ space_sim lo (v_map v) (mode_of (low_memory_mode_ s)) s' (cleared v) /\ GetFootprint s' = starting_size_ s /\
    GetFootprintLimit s' = Z.max (initial_size_ s) (GetFootprintLimit s) /\ forall calls, sconform lo (v_map v) (mode_of (low_memory_mode_ s)) s' (cleared v) calls.
Proof.
  intros Hs Hl Hf. destruct (Clear_done lo max mode s v Hs Hl Hf) as (s' & E & Hs' & Ef & El). exists s'. split_and!; try done. intros calls. by apply space_sim_conform.
Qed.
Lemma space_clear_witness : exists s v s', sample_after (sweep_calls ++ [SCall (CRevokeAll [1])]) = Some (s, v) /\ Clear s = Done (tt, s') /\ GetFootprint s' = kPageSize.
Proof.
  destruct (sample_after_sim (sweep_calls ++ [SCall (CRevokeAll [1])])) as (s & v & E & Hs); [vm_compute; reflexivity|].
  assert (Hv : (match sample_after (sweep_calls ++ [SCall (CRevokeAll [1])]) with Some (s, v) => bool_decide (locals (v_heap v) = ∅) && (starting_size_ s <=? GetFootprint s) && (starting_size_ s =? kPageSize) | None => false end) = true) by (vm_compute; reflexivity).
  rewrite E in Hv. apply andb_true_iff in Hv as [[Hl%bool_decide_eq_true Hf%Z.leb_le]%andb_true_iff Hst%Z.eqb_eq].
  destruct (space_clear (2 ^ 20) (64 * kPageSize) kPageReleaseModeSizeAndEnd s v Hs Hl Hf) as (s' & Ec & _ & Ef & _). exists s, v, s'. split; [exact E|]. split; [exact Ec|]. rewrite Ef. exact Hst.
Defined.

(** C17: the zygote is split off cleanly.  [CreateZygoteSpace] takes the threads'
    runs back, keeps all blocks with their contents and both bitmaps in the old
    space, which from then on ends where its footprint ended, and creates for
    the rest of the mapping a new, empty space that begins there and obeys the
    specification.  The hypotheses are that the list of threads has all that own
    runs, that the initial size fits below the growth limit that is left, and
    that the bitmaps mark nothing beyond the end. *)
Theorem zygote_split lo max mode s v Mk threads low : space_sim lo max mode s v -> v_mark v = Some Mk -> locals (v_heap v) ⊆ list_to_set threads ->
  initial_size_ s <= v_growth v - GetFootprint s -> (forall x, x ∈ v_live v ∪ Mk -> x < end_ s) ->
  exists s1 s2 a, CreateZygoteSpace true threads low s = Done (s1, s2) /\
    sim lo max mode (rosalloc_ s1) a /\ blocks a = blocks (v_heap v) /\ contents a = contents (v_heap v) /\ committed a = total (blocks a) /\
    begin_ s1 = lo /\ end_ s1 = end_ s /\ limit_ s1 = end_ s /\ mem_map_ s1 = mkMemMap lo (GetFootprint s) /\
    (exists k mark, bitmap_for lo k (GetFootprint s) (live_bitmap_ s1) (v_live v) /\ mark_bitmap_ s1 = Some mark /\ bitmap_for lo k (GetFootprint s) mark Mk) /\
    forall calls, sconform (end_ s) (v_map v - GetFootprint s) (mode_of low) s2 (spec_new (v_growth v - GetFootprint s) (v_map v - GetFootprint s)) calls.
Proof.
  intros Hs Em Hl Hi Hx. destruct (CreateZygoteSpace_done lo max mode s v Mk threads low Hs Em Hl Hi Hx) as (s1 & s2 & a & E & H1 & H2 & H3 & H4 & H5 & H6 & H7 & H8 & H9 & H10 & _).
  exists s1, s2, a. split_and!; try done. intros calls. by apply space_sim_conform.
Qed.
Lemma zygote_split_witness : exists s v s1 s2, sample_after sweep_calls = Some (s, v) /\ CreateZygoteSpace true [1] true s = Done (s1, s2) /\ begin_ s1 = 2 ^ 20.
Proof.
  destruct (sample_after_sim sweep_calls) as (s & v & E & Hs); [vm_compute; reflexivity|].
  assert (Hv : (match sample_after sweep_calls with Some (s, v) => bool_decide (v_mark v = Some {[ 1048720 ]}) && bool_decide (locals (v_heap v) ⊆ list_to_set [1]) && (initial_size_ s <=? v_growth v - GetFootprint s)
    && bool_decide (set_Forall (fun x => x < end_ s) (v_live v ∪ {[ 1048720 ]})) | None => false end) = true) by (vm_compute; reflexivity).
  rewrite E in Hv. apply andb_true_iff in Hv as [[[Hm%bool_decide_eq_true Hl%bool_decide_eq_true]%andb_true_iff Hi%Z.leb_le]%andb_true_iff Hx%bool_decide_eq_true].
  destruct (zygote_split (2 ^ 20) (64 * kPageSize) kPageReleaseModeSizeAndEnd s v {[ 1048720 ]} [1] true Hs Hm Hl Hi Hx) as (s1 & s2 & a & Ez & _ & _ & _ & _ & Eb & _). exists s, v, s1, s2. split; [exact E|]. split; [exact Ez|exact Eb].
Defined.

(** ** Where the code and its comments differ *)
Lemma in_ros_limit {A} (f : M RosAlloc A) (R : A -> reply) c s x s' : (forall r, exec c r = (x ← f; mret (R x)) r) -> in_ros f s = Done (x, s') ->
  GetFootprintLimit s' = limit_after c (GetFootprintLimit s) /\ growth_limit_ s' = growth_limit_ s.
Proof.
  intros He E. unfold in_ros in E. destruct (f (rosalloc_ s)) as [[y r]| | |] eqn:Ef; try done. cbn in E.
  assert (Hl : capacity_ (pages r) = limit_after c (GetFootprintLimit s)) by (apply (exec_limit_after c (rosalloc_ s) (R y)); rewrite He; unfold mbind, M_bind; by rewrite Ef).
  unfold MoreCore in E. set (inc := footprint_ (pages r) - footprint_ (pages (rosalloc_ s))) in E. unfold mbind, M_bind, gets, when, check, modify, mprotect, discard in E. cbn in E.
  destruct (inc =? 0); cbn in E; [by injection E as <- <-|]. destruct (0 <? inc); cbn in E; (destruct (_ <=? _); [|done]); cbn in E; by injection E as <- <-.
Qed.
Lemma AllocCommon_limit safe self size s r s' : AllocCommon safe self size s = Done (r, s') -> GetFootprintLimit s' = GetFootprintLimit s.
Proof.
  intros E. unfold AllocCommon, mbind at 1, M_bind at 1 in E. destruct (in_ros (Alloc safe self size) s) as [[y s3]| | |] eqn:E3; try done. destruct (in_ros_limit _ RBlock (CAlloc safe self size) _ _ _ ltac:(done) E3) as [H3 _]. cbn in H3.
  destruct y as [al|]; [|injection E as <- <-; lia]. unfold mbind at 1, M_bind at 1 in E. destruct (in_ros (UsableSize (alloc_addr al)) s3) as [[n s4]| | |] eqn:E4; try done.
  destruct (in_ros_limit _ RBytes (CUsableSize (alloc_addr al)) _ _ _ ltac:(done) E4) as [H4 _]. cbn in H4. unfold mbind, M_bind, check in E. destruct (_ =? _); [|done]. injection E as <- <-. lia.
Qed.
(** An allocation with growth leaves the footprint limit at the growth limit.
    The comment after the allocation says that the limit is shrunk back to the
    footprint, but [RosAlloc::SetFootprintLimit] only ever raises it: from then
    on [Alloc], which is to leave the collector a chance to free memory first,
    can take all of the space too. *)
Theorem growth_is_not_taken_back lo max mode s v self size : space_sim lo max mode s v -> 0 < size -> size + kPageSize <= 2 ^ 64 ->
  exists r s', AllocWithGrowth self size s = Done (r, s') /\ GetFootprintLimit s' = growth_limit_ s /\ GetFootprint s' <= growth_limit_ s.
Proof.
  intros [k Hs] H0 Hmax. pose proof (ss_ok _ _ _ _ _ _ Hs) as Hok. pose proof (s_pages _ _ Hok) as (Hg & _). pose proof (s_sizes _ _ Hok) as Hsz. pose proof (s_limits _ _ Hok) as Hlim.
  destruct (raise_sim lo max mode k s v (Capacity s) Hs ltac:(unfold Capacity; lia) Hg ltac:(done)) as [E1 Hs1]. unfold AllocWithGrowth. rewrite bind_gets, (bind_done _ _ _ _ _ E1).
  assert (H1 : GetFootprintLimit (with_rosalloc (raised (Capacity s) (rosalloc_ s)) s) = growth_limit_ s).
  { unfold GetFootprintLimit, raised, Capacity. cbn. destruct (Z.ltb_spec (capacity_ (pages (rosalloc_ s))) (growth_limit_ s)); cbn; lia. }
  destruct (AllocCommon_answer lo max mode k _ v true self size Hs1) as (r & s2 & v2 & E2 & _ & Hs2 & _); [cbn; by rewrite (proj2 (Z.ltb_lt _ _)), (proj2 (Z.leb_le _ _))|].
  apply AllocCommon_limit in E2 as H2. rewrite (bind_done _ _ _ _ _ E2), bind_gets. pose proof (s_limits _ _ (ss_ok _ _ _ _ _ _ Hs2)) as Hlim2.
  destruct (sim_facts _ _ _ _ _ (s_sim _ _ (ss_ok _ _ _ _ _ _ Hs2))) as (_ & _ & _ & _ & _ & Hf & _ & Hfa & _).
  destruct (raise_sim lo max mode k s2 v2 (footprint_ (pages (rosalloc_ s2))) Hs2 ltac:(lia) Hfa ltac:(lia)) as [E3 _]. rewrite (bind_done _ _ _ _ _ E3).
  eexists r, _. split; [reflexivity|]. unfold GetFootprintLimit, GetFootprint in *. cbn. unfold raised. rewrite (proj2 (Z.ltb_ge _ _)) by lia. lia.
Qed.
Lemma growth_is_not_taken_back_witness : exists s v r s', sample_after [SCall (CAlloc true 1 100)] = Some (s, v) /\ GetFootprintLimit s = 8 * kPageSize /\
  AllocWithGrowth 1 5000 s = Done (r, s') /\ GetFootprintLimit s' = growth_limit_ s /\ growth_limit_ s = 32 * kPageSize.
Proof.
  destruct (sample_after_sim [SCall (CAlloc true 1 100)]) as (s & v & E & Hs); [vm_compute; reflexivity|].
  assert (Hv : (match sample_after [SCall (CAlloc true 1 100)] with Some (s, v) => (GetFootprintLimit s =? 8 * kPageSize) && (growth_limit_ s =? 32 * kPageSize) | None => false end) = true) by (vm_compute; reflexivity).
  rewrite E in Hv. apply andb_true_iff in Hv as [Hl%Z.eqb_eq Hg%Z.eqb_eq].
  destruct (growth_is_not_taken_back (2 ^ 20) (64 * kPageSize) kPageReleaseModeSizeAndEnd s v 1 5000 Hs) as (r & s' & Ea & Hl' & _); [lia|vm_compute; congruence|].
  exists s, v, r, s'. split; [exact E|]. split; [exact Hl|]. split; [exact Ea|]. split; [exact Hl'|exact Hg].
Defined.

(** [Clear] after [Trim]: when nothing was allocated, [Trim] gives up and protects
    the first page too.  [Clear] moves the end of the space beyond it again, but
    does not make it accessible: the first block is in protected memory. *)
Lemma clear_after_trim_is_protected :
  match sample_after [STrim] with
  | Some (s, _) =>
      match Clear s with
      | Done (_, s) =>
          match AllocNonvirtual 1 100 s with
          | Done (Some al, s) => (GetFootprint s, end_ s - begin_ s, bool_decide (begin_ s <= alloc_addr al < end_ s), accessible s (alloc_addr al))
          | _ => (0, 0, false, true)
          end
      | _ => (0, 0, false, true)
      end
  | None => (0, 0, false, true)
  end = (kPageSize, kPageSize, true, false).
Proof. vm_compute. reflexivity. Qed.
(** The split of the zygote protects as many bytes as are beyond the initial size,
    but from the end of the starting size on: the last pages of the new space
    can be accessed. *)
Lemma zygote_tail_is_not_protected :
  match sample_after sweep_calls with
  | Some (s, _) =>
      match CreateZygoteSpace true [1] false s with
      | Done (_, s) => (accessible s (begin_ s + initial_size_ s - 1), accessible s (limit_ s - 1), limit_ s - 1 <? end_ s)
      | _ => (true, false, true)
      end
  | None => (true, false, true)
  end = (false, true, false).
Proof. vm_compute. reflexivity. Qed.
