(* ===== verification/StubSpaces.v ===== *)
(** The spaces while stubs are created: RosAllocSpace implements the interface
    that the swapping code uses of the main space, and [CreateStubs] of
    runtime/marvin_swap.cc moves every object from its space to the space of
    resident copies, with a stub in the main space, and leaves all other blocks
    of the three spaces alone. *)
From stdpp Require Import prelude gmap list.
From Stdlib Require Import ZArith Lia.
From S2P Require Import RosAlloc RosAllocSlots RosAllocRuns RosAllocIndex RosAllocAlloc RosAllocSpec RosAllocSpace RosAllocSpaceInvariant RosAllocSpaceSpec RosAllocSpaceTheorems.
From S2P Require Import Prelude BitUtils Bits Mem ObjectHeader Mirror ReclamationTable Stub Stream.
From S2P Require Import Allocator LargeObjectSpace SwapState Swap SwapRuns.
Open Scope Z_scope.

(** ** RosAllocSpace as an allocator *)
Module RosAllocator.
Import RosAlloc RosAllocSlots RosAllocRuns RosAllocIndex RosAllocAlloc RosAllocSpec RosAllocSpace RosAllocSpaceInvariant RosAllocSpaceSpec.
Import RosAlloc.RosAlloc RosAllocSpace.RosAllocSpace.
Definition allocate_block (self n : Z) : M RosAllocSpace (option (Z * Z)) :=
  r ← AllocNonvirtual self n; mret ((fun al => (alloc_addr al, usable_size al)) <$> r).
Definition blocks_of (s : RosAllocSpace) (A : gmap Z Z) : Prop := exists lo max mode v, space_sim lo max mode s v /\ blocks (v_heap v) = A.

#[export] Program Instance RosAllocSpace_allocator (self : Z) : Allocator RosAllocSpace := {|
  allocate := allocate_block self;
  release p := FreeList [p];
  contains := Contains;
  max_request := 2 ^ 64 - kPageSize;
  live := blocks_of
|}.
Next Obligation.
  intros _ s A p n q m (lo & max & mode & v & [k Hs] & <-) Hp Hq Hne. destruct (s_sim _ _ (ss_ok _ _ _ _ _ _ Hs)) as (l & G & Hr). apply (m_blocks _ _ _ _ _ _ _ Hr) in Hp, Hq. pose proof (h_base _ _ _ (m_heap _ _ _ _ _ _ _ Hr)) as Hb.
  destruct (live_pos _ _ _ _ _ Hb Hp) as [_ H1], (live_pos _ _ _ _ _ Hb Hq) as [_ H2]. unfold ranges_disjoint. destruct (apart q m p n H2 H1) as [?|?]; [|by left|by right].
  intros z Hz1 Hz2. destruct (live_disjoint _ _ _ _ _ _ _ _ Hb Hp Hq Hz2 Hz1) as [-> _]. done.
Qed.
Next Obligation.
  intros _ s A p n (lo & max & mode & v & [k Hs] & <-) Hp. pose proof (ss_ok _ _ _ _ _ _ Hs) as Hok. destruct (s_sim _ _ Hok) as (l & G & Hr). pose proof (proj1 (m_blocks _ _ _ _ _ _ _ Hr _ _) Hp) as Hl. pose proof (h_base _ _ _ (m_heap _ _ _ _ _ _ _ Hr)) as Hb.
  destruct (live_pos _ _ _ _ _ Hb Hl) as [_ H1]. destruct (block_has_bit lo max mode k s v p Hs) as (H2 & H3 & _); [by eexists|]. destruct (ss_const _ _ _ _ _ _ Hs) as (Eb & _). destruct (ss_limits _ _ _ _ _ _ Hs) as [_ Em]. destruct (s_map _ _ Hok) as [_ El].
  split; [lia|]. unfold Contains, HasAddress. rewrite andb_true_iff, Z.leb_le, Z.ltb_lt. lia.
Qed.
Next Obligation.
  intros self s A n (lo & max & mode & v & [k Hs] & <-) Hn.
  destruct (AllocCommon_answer lo max mode k s v true self n Hs) as (r & s' & v' & E & Hnx & Hs' & _); [cbn; rewrite (proj2 (Z.ltb_lt _ _)), (proj2 (Z.leb_le _ _)) by lia; done|].
  eexists _, s'. split; [unfold allocate_block, AllocNonvirtual; by rewrite (bind_done _ _ _ _ _ E)|].
  unfold heap_next in Hnx. destruct (spec_next _ _ _ _ _) as [a|] eqn:Es; [|done]. cbn in Hnx. destruct (below _ _ _); [|done]. injection Hnx as <-. apply spec_next_blocks in Es. destruct r as [al|]; cbn in Es |- *.
  - destruct (_ =? _); [|done]. unfold add_block in Es. destruct (new_block _ _ _ _ _) eqn:Enb; [|done]. destruct (_ =? block_size n) eqn:Ebs; [|done]. destruct (n <=? usable_size al) eqn:Ele; [|done]. injection Es as <-.
    split; [by apply Z.leb_le|]. split; [|eexists lo, max, mode, _; split; [by exists k|done]].
    destruct (blocks (v_heap v) !! alloc_addr al) as [m|] eqn:Eb; [|done]. exfalso. unfold new_block in Enb. rewrite !andb_true_iff in Enb. destruct Enb as [_ Hf]. rewrite forallb_forall in Hf.
    specialize (Hf (alloc_addr al, m)). cbn in Hf. rewrite orb_true_iff, !Z.leb_le in Hf. destruct Hf as [Hf|Hf]; [by apply list_elem_of_In, elem_of_map_to_list| |].
    + destruct (s_sim _ _ (ss_ok _ _ _ _ _ _ Hs)) as (l & G & Hr). apply (m_blocks _ _ _ _ _ _ _ Hr) in Eb. destruct (live_pos _ _ _ _ _ (h_base _ _ _ (m_heap _ _ _ _ _ _ _ Hr)) Eb). lia.
    + apply Z.leb_le in Ele. lia.
  - injection Es as <-. eexists lo, max, mode, _. split; [by exists k|done].
Qed.
Next Obligation.
  intros _ s A p n (lo & max & mode & v & [k Hs] & <-) Hp. unfold FreeList.
  destruct (free_answer lo max mode (BulkFree [p]) RBytes (CBulkFree [p]) [p] k s v Hs ltac:(done)) as (x & s' & v' & E & Hnx & Hs' & _).
  { cbn. rewrite bool_decide_eq_true_2 by (apply NoDup_singleton). by rewrite bool_decide_eq_true_2 by (by eexists). }
  unfold heap_next in Hnx. destruct (spec_next _ _ _ _ _) as [a|] eqn:Es; [|done]. cbn in Hnx. destruct (below _ _ _); [|done]. injection Hnx as <-. apply spec_next_blocks in Es. cbn [spec_step] in Es. destruct (Z.eqb_spec x (sizes (blocks (v_heap v)) [p])) as [->|]; [|done]. injection Es as <-.
  exists s'. assert (En : sizes (blocks (v_heap v)) [p] = n) by (unfold sizes; cbn; rewrite Hp; cbn; lia). rewrite En in E. split; [done|]. eexists lo, max, mode, _. split; [by exists k|]. cbn. apply remove_one.
Qed.
End RosAllocator.

(** ** Memory *)
Section Memory.
Context (ct : gmap Z ClassInfo).
Definition mem_in {V} (s : mem * V) : Prop := mem_ok s.1.
Lemma mem_ok_note m o : mem_ok m -> mem_ok (note_read m o) /\ mem_ok (note_write m o).
Proof. intros Hm. unfold note_read, note_write. split; [destruct (GetIgnoreReadFlag m o); [done|]|apply mem_ok_store8]; by apply mem_ok_store8. Qed.
Lemma GetField_ok n m o off : mem_ok m -> mem_ok (GetField n m o off).2.
Proof. apply mem_ok_note. Qed.
Lemma SetFieldObject_ok m o off v : mem_ok m -> mem_ok (SetFieldObjectWithoutWriteBarrier m o off v).
Proof. intros Hm. by apply mem_ok_note, mem_ok_storew. Qed.
Lemma on_mem_keeps {V} (f : mem -> mem) : (forall m, mem_ok m -> mem_ok (f m)) -> keeps (mem_in (V := V)) (on_mem f).
Proof. intros Hf. apply keeps_modify. intros [m v]. apply Hf. Qed.
Lemma read_class_keeps {V} o : keeps (mem_in (V := V)) (read_class o).
Proof. intros [m v] k s' Hm [= _ <-]. by apply mem_ok_note. Qed.
Lemma from_mem_keeps {V A} (f : mem -> outcome A) : keeps (mem_in (V := V)) (from_mem f).
Proof. intros s k s' Hm E. unfold from_mem in E. destruct (f s.1); try done. by injection E as _ <-. Qed.
#[local] Hint Resolve read_class_keeps from_mem_keeps : keeps.
Lemma VisitReferences_keeps {V} visitor ref_visitor o : (forall off, keeps (mem_in (V := V)) (visitor o off)) -> (forall k, keeps (mem_in (V := V)) (ref_visitor k o)) ->
  keeps (mem_in (V := V)) (VisitReferences ct visitor ref_visitor o).
Proof.
  intros Hv Hr. unfold VisitReferences. apply keeps_bind; [apply on_mem_keeps; intros m Hm; by apply mem_ok_ignore|intros _]. keep. apply on_mem_keeps. intros m Hm. by apply mem_ok_ignore.
Qed.
Lemma CountReferences_ok m o n m' : mem_ok m -> CountReferences ct m o = Done (n, m') -> mem_ok m'.
Proof.
  intros Hm. unfold CountReferences. destruct (GetClass _ _) as [c m1] eqn:Ec. destruct (super_chain _ _ _) as [[|]| | |]; try done. intros [= _ <-]. apply mem_ok_ignore.
  replace m1 with (GetClass (SetIgnoreReadFlag m o) o).2 by (by rewrite Ec). by apply GetField_ok, mem_ok_ignore.
Qed.
Lemma populate_visitor_keeps stub o off : keeps mem_in (StubPopulateVisitor stub o off).
Proof.
  unfold StubPopulateVisitor. do 3 (apply keeps_bind; [keep|intros ?]). apply keeps_bind; [|intros _; by apply keeps_modify]. apply keeps_modify. intros [m v] Hm. cbn -[GetFieldObject]. pose proof (GetField_ok 4 m o off Hm) as Hg.
  unfold GetFieldObject. destruct (GetField 4 m o off) as [r m1]. by apply mem_ok_storew.
Qed.
Lemma PopulateFrom_ok m t stub o m' t' : mem_ok m -> PopulateFrom ct m t stub o = Done (m', t') -> mem_ok m'.
Proof.
  intros Hm. unfold PopulateFrom. destruct (SetObjectAddress _ _ _ _) as [t1| | |]; try done. rewrite obind_done. set (m1 := SetPaddingB _ _ _). assert (Hm1 : mem_ok m1) by (by apply mem_ok_store8, mem_ok_storew, mem_ok_store8, mem_ok_store8).
  destruct (CountReferences ct m1 o) as [[n m2]| | |] eqn:E2; try done. apply CountReferences_ok in E2; [|done]. rewrite obind_done.
  set (m3 := clear_refs _ _ _). assert (Hm3 : mem_ok m3) by (by apply mem_ok_clear_refs, mem_ok_storew). destruct (VisitReferences _ _ _ _ _) as [[u s]| | |] eqn:Ev; try done. intros [= <- _].
  apply (VisitReferences_keeps (StubPopulateVisitor stub) DummyReferenceVisitor o (populate_visitor_keeps stub o) (fun k => keeps_ret _ _) (m3, 0) u s Hm3 Ev).
Qed.
Lemma patch_field_ok table o off m : mem_ok m -> mem_ok (patch_field table o off m).
Proof.
  intros Hm. unfold patch_field. pose proof (GetField_ok 4 m o off Hm) as Hg. unfold GetFieldObject. destruct (GetField 4 m o off) as [r m1]. destruct (table !! r); [by apply SetFieldObject_ok|done].
Qed.
Lemma patch_visit_ok table o m s : mem_ok m -> VisitReferences ct (PatchVisitor table) (PatchReferenceVisitor table) o (m, tt) = Done s -> mem_ok s.2.1.
Proof.
  intros Hm E. destruct s as [u s]. refine (VisitReferences_keeps (PatchVisitor table) (PatchReferenceVisitor table) o _ _ (m, tt) u s Hm E); intros ?; apply on_mem_keeps, patch_field_ok.
Qed.

(** The classes have sizes below 2^32, and array elements at most 8 bytes. *)
Definition class_ok (_ : Z) (c : ClassInfo) : Prop :=
  0 < class_size_ c < 2 ^ 32 /\
  match component_type_ c with
  | Some (_, shift) => 0 <= shift <= 3
  | None => is_java_lang_Class_ c = false -> IsStringClass c = false -> 0 < object_size_ c < 2 ^ 32
  end.
Lemma u64_size n : 0 < n <= 2 ^ 43 -> 0 < u64 n <= 2 ^ 43.
Proof. intros H. change (0 < wrap 64 n <= 2 ^ 43). rewrite wrap_small; [done|]. unfold in_width. lia. Qed.
Lemma SizeOf_bound m o n : map_Forall class_ok ct -> mem_ok m -> SizeOf ct m o = Done n -> 0 < n <= 2 ^ 43.
Proof.
  intros Hct Hm. unfold SizeOf, class_of. destruct (ct !! load32 m o) as [c|] eqn:Ec; [|done]. rewrite obind_done. destruct (Hct _ _ Ec) as [_ Hc].
  pose proof (loadw_range 4 m (o + 16) Hm) as Hl. unfold in_width in Hl. change (8 * Z.of_nat 4) with 32 in Hl. fold (load32 m (o + 16)) in Hl.
  destruct (component_type_ c) as [[b shift]|].
  - intros [= <-]. apply u64_size. unfold Array_SizeOf, DataOffset, first_element_offset, length_offset. rewrite !Z.shiftl_mul_pow2 by lia.
    assert (Hs : shift = 0 \/ shift = 1 \/ shift = 2 \/ shift = 3) by lia. destruct Hs as [->|[->|[->| ->]]];
      match goal with |- context [?a / ?b * ?c + _] => let v := eval vm_compute in (a / b * c) in change (a / b * c) with v end; lia.
  - destruct (is_java_lang_Class_ c).
    + destruct (ct !! o) as [ck|] eqn:Ek; [|done]. intros [= <-]. destruct (Hct _ _ Ek) as [H _]. apply u64_size. lia.
    + destruct (IsStringClass c); intros [= <-]; apply u64_size; [unfold String_SizeOf; pose proof (Z.div_mod (24 + 2 * load32 m (o + 16) + 7) 8 ltac:(lia)); pose proof (Z.mod_pos_bound (24 + 2 * load32 m (o + 16) + 7) 8 ltac:(lia)); lia|]. specialize (Hc eq_refl eq_refl). lia.
Qed.
End Memory.

(** ** Three spaces

    [A], [B] and [C] are the blocks of the main space, of the space of large
    objects, which begins at [los_lo] and has [los_pages] pages, and of the space
    of resident copies. *)
Section Stubs.
Context {R : Type} {RosAlloc : Allocator R}.
Context (ros_walk : R -> list Z) (ct : gmap Z ClassInfo) (temp_addr : Z) (los_lo los_pages : Z).
Implicit Types w : world R.
Definition los_blocks (s : FreeListSpace.FreeListSpace) (B : gmap Z Z) : Prop :=
  FreeListSpace.begin_ s = los_lo /\ exists bs, FreeListSpace.inv los_pages s bs /\ B = FreeListSpace.live_blocks s bs.
Definition in_los_range (x : Z) : bool := (los_lo <=? x) && (x <? los_lo + los_pages * FreeListSpace.kAlignment).
Record spaces (A B C : gmap Z Z) (w : world R) : Prop := {
  sp_ros : live (ros w) A;
  sp_los : los_blocks (los w) B;
  sp_copies : live (Allocator := FreeListSpace.FreeListSpace_allocator temp_addr) (swappedInSpace w) C
}.
Definition creating (A B C : gmap Z Z) (w : world R) : Prop := spaces A B C w /\ creatingStubs w = true /\ mem_ok (w_mem w).
Definition same_spaces (w w' : world R) : Prop := ros w' = ros w /\ los w' = los w /\ swappedInSpace w' = swappedInSpace w /\ creatingStubs w' = creatingStubs w /\ (mem_ok (w_mem w) -> mem_ok (w_mem w')).
Lemma creating_same A B C w w' : same_spaces w w' -> creating A B C w -> creating A B C w'.
Proof. intros (E1 & E2 & E3 & E4 & E5) [[] [H1 H2]]. split; [split; congruence|]. split; [congruence|by apply E5]. Qed.

(** Actions on the other variables. *)
Section Frame.
Context (A B C : gmap Z Z).
Lemma frame_modify (f : world R -> world R) : (forall w, same_spaces w (f w)) -> keeps (creating A B C) (modify f).
Proof. intros Hf. apply keeps_modify. intros w. by apply creating_same. Qed.
Lemma frame_try {T} (f : world R -> outcome T) : keeps (creating A B C) (try f).
Proof. intros w a w' Hw E. unfold try in E. destruct (f w); try done. by injection E as _ <-. Qed.
Lemma try_hoare {T} (f : world R -> outcome T) (P : T -> Prop) : (forall w x, mem_ok (w_mem w) -> f w = Done x -> P x) ->
  hoare (creating A B C) (try f) (fun x w => creating A B C w /\ P x).
Proof. intros Hf w x w' Hw E. unfold try in E. destruct (f w) as [y| | |] eqn:Ef; try done. injection E as <- <-. split; [done|]. apply (Hf w); [apply Hw|done]. Qed.
Lemma frame_modm (f : mem -> mem) : (forall m, mem_ok m -> mem_ok (f m)) -> keeps (creating A B C) (modm f).
Proof. intros Hf. apply frame_modify. intros w. unfold same_spaces. split_and!; [done..|]. apply Hf. Qed.
Lemma frame_set_mem m : mem_ok m -> keeps (creating A B C) (modify (set_w_mem m)).
Proof. intros Hm. apply frame_modify. intros w. unfold same_spaces. by split_and!. Qed.
End Frame.
#[local] Hint Resolve frame_try : keeps.
#[local] Hint Extern 1 (keeps _ (modify _)) => solve [apply frame_modify; done] : keeps.
#[local] Hint Extern 1 (keeps _ (modm _)) => solve [apply frame_modm; intros; first [by apply mem_ok_store8 | by apply mem_ok_storew | by apply mem_ok_memcpy | by apply mem_ok_madvise]] : keeps.
#[local] Hint Extern 1 (keeps _ (getm _)) => apply keeps_gets : keeps.
Section Simple.
Context (A B C : gmap Z Z).
Lemma frame_with_entry p f : keeps (creating A B C) (with_entry p f).
Proof. unfold with_entry. keep. Qed.
#[local] Hint Resolve frame_with_entry : keeps.
Lemma frame_lock_entry p : keeps (creating A B C) (lock_entry p).
Proof. unfold lock_entry, entry_at. keep. Qed.
#[local] Hint Resolve frame_lock_entry : keeps.
Lemma frame_Lock s : keeps (creating A B C) (LockTableEntry s) /\ keeps (creating A B C) (UnlockTableEntry s) /\ keeps (creating A B C) (stub_entry s).
Proof. unfold LockTableEntry, UnlockTableEntry, stub_entry, unlock_entry_at. split_and!; keep. Qed.
Lemma frame_patch_object o : keeps (creating A B C) (patch_object ct o).
Proof.
  unfold patch_object. eapply hoare_bind; [apply (try_hoare A B C _ (fun s => mem_ok s.2.1)); intros w s Hm; by apply patch_visit_ok|]. intros [u s]. apply hoare_fact. intros Hm. by apply frame_set_mem.
Qed.
Lemma frame_patch_stub_ref s i : keeps (creating A B C) (patch_stub_ref s i).
Proof. apply frame_modify. intros w. destruct (remappingTable w !! _); [|done]. unfold same_spaces. split_and!; [done..|]. apply mem_ok_storew. Qed.
#[local] Hint Resolve frame_patch_object frame_patch_stub_ref : keeps.
Lemma frame_PatchCallback p n : keeps (creating A B C) (PatchCallback ct p n).
Proof. unfold PatchCallback. keep. Qed.
Lemma frame_replace table : keeps (creating A B C) (replaceDataStructurePointers table false).
Proof. unfold replaceDataStructurePointers, rename_key. cbn [when]. keep. Qed.
#[local] Hint Resolve frame_PatchCallback frame_replace : keeps.
Lemma frame_Walk : keeps (creating A B C) (in_los FreeListSpace.Walk).
Proof.
  intros w a w' Hw E. pose proof Hw as [[_ (_ & bs & Hi & _) _] _]. unfold in_los in E. rewrite (FreeListSpace.walk_visits_used _ _ _ Hi) in E. cbn in E. injection E as _ <-. by apply (creating_same A B C w).
Qed.
#[local] Hint Resolve frame_Walk : keeps.
Lemma frame_patchStubReferences : keeps (creating A B C) (patchStubReferences ros_walk ct).
Proof. unfold patchStubReferences, patch_entry, entry_at, unlock_entry_at, patch_roots. keep. Qed.
(** [GcRecordFree] returns at once. *)
Lemma frame_GcRecordFree o : keeps (creating A B C) (GcRecordFree o).
Proof.
  intros w a w' Hw E. unfold GcRecordFree in E. rewrite !bind_gets in E. pose proof Hw as (_ & Hc & _). rewrite Hc, andb_false_r in E. by injection E as _ <-.
Qed.
End Simple.

(** ** One stub *)
Context (Hclasses : map_Forall class_ok ct) (Hmax : 2 ^ 36 <= max_request (Allocator := RosAlloc)).
Lemma stub_size_range m o n m' : GetStubSize ct m o = Done (n, m') -> 0 < n <= 2 ^ 36.
Proof.
  unfold GetStubSize, CountReferences. destruct (GetClass _ _) as [c m1]. destruct (super_chain _ _ _) as [chain| | |]; try done. cbn. destruct chain as [|k chain]; [done|]. cbn. intros [= <- _].
  unfold GetStubSize_refs, sizeof_Stub, sizeof_HeapReference. pose proof (wrap_range 32 (num_reference_instance_fields_ k + sum_refs chain) ltac:(lia)) as Hr. unfold in_width in Hr. unfold sum_refs in Hr. lia.
Qed.
Lemma stub_size_hoare A B C o : hoare (creating A B C) (try (fun w => GetStubSize ct (w_mem w) o)) (fun r w => creating A B C w /\ 0 < r.1 <= 2 ^ 36 /\ mem_ok r.2).
Proof.
  apply try_hoare. intros w [n m] Hm E. split; [by apply (stub_size_range _ _ _ _ E)|]. unfold GetStubSize in E. destruct (CountReferences ct (w_mem w) o) as [[k m']| | |] eqn:Ec; try done. injection E as _ <-. by apply (CountReferences_ok ct _ _ _ _ Hm Ec).
Qed.
Lemma sized_hoare A B C o : hoare (creating A B C) (sized ct o) (fun n w => creating A B C w /\ 0 < n <= 2 ^ 43).
Proof.
  unfold sized. apply hoare_keep; [keep|intros _]. eapply (hoare_bind _ _ _ (fun n w => creating A B C w /\ 0 < n <= 2 ^ 43)).
  - apply try_hoare. intros w n Hm. by apply SizeOf_bound.
  - intros n. apply hoare_fact. intros Hn. apply hoare_keep; [keep|intros _]. by apply hoare_ret.
Qed.
Lemma allocate_hoare A B C n : 0 < n <= 2 ^ 36 ->
  hoare (creating A B C) (in_ros (allocate n)) (fun r w => match r with None => creating A B C w | Some (p, k) => creating (<[p := k]> A) B C w /\ A !! p = None end).
Proof.
  intros Hn w r w' [[Hr Hl Hc] Hcr] E. destruct (allocate_live (ros w) A n Hr ltac:(lia)) as (x & s & Ea & Hx). unfold in_ros in E. rewrite Ea in E. cbn in E. injection E as <- <-.
  destruct x as [[p k]|]; [destruct Hx as (_ & Hp & Hx); split; [|done]|]; by split.
Qed.
Lemma copy_hoare A B C n : 0 < n <= 2 ^ 43 ->
  hoare (creating A B C) (in_swappedInSpace (FreeListSpace.Alloc temp_addr n)) (fun r w => match r with None => creating A B C w | Some (p, k) => creating A B (<[p := k]> C) w /\ C !! p = None end).
Proof.
  intros Hn w r w' [[Hr Hl Hc] Hcr] E. destruct (allocate_live (Allocator := FreeListSpace.FreeListSpace_allocator temp_addr) (swappedInSpace w) C n Hc Hn) as (x & s & Ea & Hx). unfold in_swappedInSpace in E. cbn in Ea. rewrite Ea in E. cbn in E. injection E as <- <-.
  destruct x as [[p k]|]; [destruct Hx as (_ & Hp & Hx); split; [|done]|]; by split.
Qed.
(** The object is a block of the space of large objects, or else of the main
    space. *)
Definition owned (A B : gmap Z Z) (o : Z) : Prop := is_Some (B !! o) \/ is_Some (A !! o) /\ in_los_range o = false.
Definition without (A B : gmap Z Z) (o : Z) : gmap Z Z := match B !! o with Some _ => A | None => delete o A end.
Lemma los_Contains w B o : los_blocks (los w) B -> FreeListSpace.Contains (los w) o = in_los_range o.
Proof. intros (E & bs & Hi & _). unfold FreeListSpace.Contains, in_los_range. destruct (FreeListSpace.inv_end _ _ _ Hi) as [-> _]. by rewrite E. Qed.
Lemma los_free_hoare A B C o : is_Some (B !! o) -> hoare (creating A B C) (in_los (FreeListSpace.Free o)) (fun _ => creating A (delete o B) C).
Proof.
  intros [n Hn] w r w' [[Hr (Eb & bs & Hi & ->) Hc] Hcr] E. destruct (FreeListSpace.Free_live _ _ _ _ _ Hi Hn) as (s' & bs' & Ef & Hi' & El & Eb'). unfold in_los in E. rewrite Ef in E. cbn in E. injection E as <- <-.
  split; [|done]. split; [done| |done]. cbn. split; [congruence|]. exists bs'. by rewrite El.
Qed.
Lemma ros_free_hoare A B C o : is_Some (A !! o) -> hoare (creating A B C) (in_ros (release o)) (fun _ => creating (delete o A) B C).
Proof.
  intros [n Hn] w r w' [[Hr Hl Hc] Hcr] E. destruct (release_live (ros w) A o n Hr Hn) as (s' & Er & Hs'). unfold in_ros in E. rewrite Er in E. cbn in E. injection E as <- <-. by split.
Qed.
Lemma frame_sized A B C o : keeps (creating A B C) (sized ct o).
Proof. unfold sized. keep. Qed.
#[local] Hint Resolve frame_sized frame_GcRecordFree : keeps.
Lemma free_large_hoare A B C o : is_Some (B !! o) -> hoare (creating A B C) (FreeFromLargeObjectSpace ct o) (fun _ => creating A (delete o B) C).
Proof.
  intros Ho. unfold FreeFromLargeObjectSpace. do 2 (apply hoare_keep; [keep|intros ?]). eapply hoare_bind; [by apply los_free_hoare|]. intros n. cbn. change (keeps (creating A (delete o B) C) (modm (fun m => madvise_dontneed m o n))). keep.
Qed.
Lemma free_ros_hoare A B C o : is_Some (A !! o) -> hoare (creating A B C) (FreeFromRosAllocSpace ct o) (fun _ => creating (delete o A) B C).
Proof.
  intros Ho. unfold FreeFromRosAllocSpace. do 2 (apply hoare_keep; [keep|intros ?]). eapply hoare_bind; [by apply ros_free_hoare|]. intros n. by apply hoare_ret.
Qed.
Lemma free_original_hoare A B C o : owned A B o -> hoare (creating A B C) (free_original ct o) (fun _ => creating (without A B o) (delete o B) C).
Proof.
  intros Ho w r w' Hw E. unfold free_original in E. rewrite !bind_gets in E. pose proof (proj1 Hw) as [Hr Hl _]. rewrite (los_Contains w B o Hl) in E. unfold without. destruct (B !! o) as [n|] eqn:EB.
  - assert (Hin : in_los_range o = true).
    { rewrite <- (los_Contains w B o Hl). destruct Hl as (Eb & bs & Hi & EB'). by apply (live_contains (Allocator := FreeListSpace.FreeListSpace_allocator temp_addr) (los w) B o n); [exists los_pages, bs|]. }
    rewrite Hin in E. by apply (free_large_hoare A B C o ltac:(by eexists) w r w' Hw E).
  - destruct Ho as [[? ?]|[Ho Hin]]; [congruence|]. rewrite Hin in E. destruct Ho as [n Hn]. destruct (live_contains (ros w) A o n Hr Hn) as [_ Hc]. rewrite Hc in E.
    rewrite (delete_id B) by done. by apply (free_ros_hoare A B C o ltac:(by eexists) w r w' Hw E).
Qed.
Lemma owned_with_stub A B o p k : owned A B o -> A !! p = None -> owned (<[p := k]> A) B o.
Proof. intros [H|[H Hin]] Hp; [by left|right]. split; [|done]. rewrite lookup_insert_ne; [done|]. intros ->. rewrite Hp in H. by destruct H. Qed.
Lemma create_stub_hoare A B C o : owned A B o ->
  hoare (creating A B C) (create_stub ct temp_addr o) (fun _ w => exists p k c n, A !! p = None /\ C !! c = None /\ creating (without (<[p := k]> A) B o) (delete o B) (<[c := n]> C) w).
Proof.
  intros Ho. unfold create_stub. do 4 (apply hoare_keep; [keep|intros ?]). eapply hoare_bind; [apply stub_size_hoare|]. intros [n m]. apply hoare_fact. cbn [fst]. intros [Hn Hm]. apply hoare_keep; [by apply frame_set_mem|intros ?].
  eapply hoare_bind; [by apply allocate_hoare|]. intros [[p k]|]; cbv beta iota; [|by intros ? ? ? ? [=]]. apply hoare_fact. intros Hp. pose proof (owned_with_stub A B o p k Ho Hp) as Ho'.
  destruct (frame_Lock (<[p:=k]> A) B C p) as (Kl & _ & _).
  apply hoare_keep; [keep|]. intros [entry t]. do 3 (apply hoare_keep; [keep|intros ?]). apply hoare_keep; [done|intros ?].
  eapply hoare_bind; [apply (try_hoare _ _ _ _ (fun r => mem_ok r.1)); intros w [m' t']; by apply PopulateFrom_ok|]. intros [m' t']. apply hoare_fact. intros Hm'. apply hoare_keep; [by apply frame_set_mem|intros ?]. apply hoare_keep; [keep|intros ?].
  eapply hoare_bind; [apply sized_hoare|]. intros size. apply hoare_fact. intros Hs. eapply hoare_bind; [by apply copy_hoare|]. intros [[c n']|]; cbv beta iota; [|by intros ? ? ? ? [=]]. apply hoare_fact. intros Hc.
  apply hoare_keep; [keep|intros ?]. eapply hoare_bind; [by apply free_original_hoare|]. intros ?. cbv beta.
  destruct (frame_Lock (without (<[p:=k]> A) B o) (delete o B) (<[c:=n']> C) p) as (_ & Ku & Ke). pose proof (frame_with_entry (without (<[p:=k]> A) B o) (delete o B) (<[c:=n']> C)) as Kw.
  apply hoare_keep; [keep|intros ?]. apply hoare_keep; [done|intros e]. do 3 (apply hoare_keep; [apply Kw|intros ?]).
  intros w r w' Hw E. exists p, k, c, n'. split; [done|]. split; [done|]. by apply (Ku w r).
Qed.

(** ** All stubs

    What happens to the three spaces when the objects of a list get their
    stubs: each step adds a stub at [p] and a copy at [c], and frees the
    original. *)
Inductive stubbed (A' B' C' : gmap Z Z) : list Z -> gmap Z Z -> gmap Z Z -> gmap Z Z -> Prop :=
| stubbed_nil : stubbed A' B' C' [] A' B' C'
| stubbed_cons o l A B C p k c n : owned A B o -> o ∉ l -> A !! p = None -> C !! c = None ->
    stubbed A' B' C' l (without (<[p := k]> A) B o) (delete o B) (<[c := n]> C) -> stubbed A' B' C' (o :: l) A B C.
Lemma owned_step A B o o' p k : owned A B o' -> o' <> o -> A !! p = None -> owned (without (<[p := k]> A) B o) (delete o B) o'.
Proof.
  intros Ho Hne Hp. destruct (owned_with_stub A B o' p k Ho Hp) as [H|[H Hin]]; [left; by rewrite lookup_delete_ne|right; split; [|done]]. unfold without. destruct (B !! o); [done|]. by rewrite lookup_delete_ne.
Qed.
Lemma create_all_hoare l : forall A B C, NoDup l -> Forall (owned A B) l ->
  hoare (creating A B C) (mfor l (create_stub ct temp_addr)) (fun _ w => exists A' B' C', stubbed A' B' C' l A B C /\ creating A' B' C' w).
Proof.
  induction l as [|o l IH]; intros A B C Hd Ho.
  - intros w r w' Hw [= _ <-]. exists A, B, C. split; [constructor|done].
  - apply NoDup_cons in Hd as [Hnl Hd]. apply Forall_cons in Ho as [Ho Hl]. cbn [mfor]. eapply hoare_bind; [by apply create_stub_hoare|]. intros _ w r w' (p & k & c & n & Hp & Hc & Hw) E.
    assert (Hl' : Forall (owned (without (<[p := k]> A) B o) (delete o B)) l).
    { rewrite Forall_forall in Hl |- *. intros o' Ho'. apply owned_step; [by apply Hl|by intros ->|done]. }
    destruct (IH _ _ _ Hd Hl' w r w' Hw E) as (A' & B' & C' & Hs & Hw'). exists A', B', C'. split; [by econstructor|done].
Qed.
Lemma stubbed_main l A B C A' B' C' x n : stubbed A' B' C' l A B C -> x ∉ l -> A !! x = Some n -> A' !! x = Some n.
Proof.
  induction 1 as [|o l A B C p k c m Ho Hl Hp Hc H IH]; intros Hx HA; [congruence|]. 
  apply not_elem_of_cons in Hx as [Hne Hx]. apply (IH Hx). unfold without. destruct (B !! o); [|rewrite lookup_delete_ne by done]; rewrite lookup_insert_ne; congruence.
Qed.
Lemma stubbed_large l A B C A' B' C' : stubbed A' B' C' l A B C -> B' = filter (fun '(x, _) => x ∉ l) B.
Proof.
  induction 1 as [|o l A B C p k c m Ho Hl Hp Hc H IH].
  - symmetry. apply map_filter_id. intros ? ? _. apply not_elem_of_nil.
  - rewrite IH. apply map_eq. intros x. apply option_eq. intros v. rewrite !map_lookup_filter_Some, lookup_delete_Some, not_elem_of_cons. intuition congruence.
Qed.
Lemma stubbed_copies l A B C A' B' C' : stubbed A' B' C' l A B C -> C ⊆ C' /\ size C' = (size C + length l)%nat.
Proof.
  induction 1 as [|o l A B C p k c m Ho Hl Hp Hc H IH].
  - split; [done|cbn; lia].
  - destruct IH as [Hs Hz]. split; [etransitivity; [|exact Hs]; by apply insert_subseteq|]. rewrite Hz, map_size_insert_None by done. cbn. lia.
Qed.
Definition in_main (B : gmap Z Z) (l : list Z) : list Z := filter (fun o => B !! o = None) l.
Lemma in_main_delete o B l : o ∉ l -> in_main (delete o B) l = in_main B l.
Proof.
  unfold in_main. induction l as [|x l IH]; [done|]. intros [Hx Hl]%not_elem_of_cons. rewrite !filter_cons, IH by done. rewrite lookup_delete_ne by done. done.
Qed.
Lemma stubbed_count l A B C A' B' C' : stubbed A' B' C' l A B C -> (size A' + length (in_main B l) = size A + length l)%nat.
Proof.
  induction 1 as [|o l A B C p k c m Ho Hl Hp Hc H IH].
  - cbn. lia.
  - rewrite in_main_delete in IH by done. unfold in_main in *. rewrite filter_cons. unfold without in IH. destruct (B !! o) as [z|] eqn:EB.
    + rewrite decide_False by done. rewrite map_size_insert_None in IH by done. cbn. lia.
    + rewrite decide_True by done. destruct Ho as [[? ?]|[[z Hz] _]]; [congruence|]. assert (o <> p) by (intros ->; congruence).
      rewrite map_size_delete_Some in IH by (exists z; by rewrite lookup_insert_ne). rewrite map_size_insert_None in IH by done. assert (size A <> 0%nat) by (intros Hz0%map_size_empty_inv; subst; done). cbn. lia.
Qed.

(** The objects that get a stub. *)
Definition to_stub (w : world R) : gset Z := filter (fun o => GetNoSwapFlag (w_mem w) o = false) (createStubSet w).
Lemma in_main_size B (X : gset Z) : length (in_main B (iter_set X)) = size (X ∖ dom B).
Proof.
  rewrite <- length_iter_set. apply Permutation_length, NoDup_Permutation; [apply NoDup_filter, NoDup_iter_set|apply NoDup_iter_set|]. intros x. unfold in_main. rewrite list_elem_of_filter, !elem_of_iter_set, elem_of_difference, not_elem_of_dom. tauto.
Qed.
(** C6: creating the stubs moves exactly the objects that are to get one. If
    [CreateStubs] returns, the three spaces are well formed again; of the main space no
    other block is gone or resized, and it has one more block per stub and one
    less per original that was in it; of the space of large objects exactly
    the originals in it are gone; the space of copies keeps all its blocks and has
    one more per object. *)
Theorem stubs_move_objects A B C w w' : swapEnabled w = true -> mem_ok (w_mem w) -> spaces A B C w -> (forall o, o ∈ to_stub w -> owned A B o) ->
  CreateStubs ros_walk ct temp_addr w = Done (tt, w') ->
  exists A' C', spaces A' (filter (fun '(x, _) => x ∉ to_stub w) B) C' w' /\
    (forall x n, x ∉ to_stub w -> A !! x = Some n -> A' !! x = Some n) /\ (size A' + size (to_stub w ∖ dom B) = size A + size (to_stub w))%nat /\
    C ⊆ C' /\ size C' = (size C + size (to_stub w))%nat.
Proof.
  intros He Hm Hw Ho E. unfold CreateStubs in E. rewrite bind_gets, He in E. cbn [when] in E. rewrite bind_gets in E.
  match type of E with (check ?b ≫= _) _ = _ => destruct b; [rewrite bind_check in E by done|done] end. rewrite !bind_modify, bind_gets in E. cbn [createStubSet set_creatingStubs set_createStubSet] in E.
  set (w1 := set_creatingStubs true _) in E. assert (Hw1 : creating A B C w1) by (destruct Hw; by split). change (filter _ _) with (to_stub w) in E.
  assert (H : hoare (creating A B C) (mfor (iter_set (to_stub w)) (create_stub ct temp_addr);; patchStubReferences ros_walk ct;; modify (set_remappingTable ∅);; modify (set_createStubSet ∅);; modify (set_creatingStubs false);; clear_write_queue)
    (fun _ w' => exists A' B' C', stubbed A' B' C' (iter_set (to_stub w)) A B C /\ spaces A' B' C' w')).
  { eapply hoare_bind; [apply create_all_hoare; [apply NoDup_iter_set|apply Forall_forall; intros o Hin%elem_of_iter_set; by apply Ho]|]. intros _ w2 r w3 (A' & B' & C' & Hs & Hw2) E2. exists A', B', C'. split; [done|].
    assert (Hk : hoare (creating A' B' C') (patchStubReferences ros_walk ct;; modify (set_remappingTable ∅);; modify (set_createStubSet ∅);; modify (set_creatingStubs false);; clear_write_queue) (fun _ => spaces A' B' C')); [|by apply (Hk w2 r w3)].
    apply hoare_keep; [apply frame_patchStubReferences|intros _]. do 2 (apply hoare_keep; [by apply frame_modify|intros _]). intros w4 r4 w5 [[H1 H2 H3] _] [= _ <-]. by split. }
  destruct (H w1 tt w' Hw1 E) as (A' & B' & C' & Hs & Hw'). pose proof (stubbed_large _ _ _ _ _ _ _ Hs) as EB. destruct (stubbed_copies _ _ _ _ _ _ _ Hs) as [HC HC']. pose proof (stubbed_count _ _ _ _ _ _ _ Hs) as HA. rewrite length_iter_set in HA, HC'. rewrite in_main_size in HA.
  exists A', C'. split; [|split_and!; [|done..]; intros x n Hx; apply (stubbed_main _ _ _ _ _ _ _ _ _ Hs); by rewrite elem_of_iter_set].
  replace (filter (fun '(x, _) => x ∉ to_stub w) B) with B'; [done|]. rewrite EB. apply map_filter_ext. intros x y _. by rewrite elem_of_iter_set.
Qed.
End Stubs.

(** ** An instance

    One object in the RosAlloc space and one in the space of large objects; both
    are to get a stub. *)
Module StubRun.
Import RosAlloc RosAllocSlots RosAllocRuns RosAllocSpec RosAllocSpace RosAllocSpaceInvariant RosAllocSpaceSpec RosAllocSpaceTheorems RosAllocator.
Import RosAlloc.RosAlloc RosAllocSpace.RosAllocSpace.
Definition classes : gmap Z ClassInfo :=
  {[ 100 := mkClass 0 0 1 0 8 None false 200 []; 200 := mkClass 0 100 1 1 2048 None false 200 []; 300 := mkClass 0 100 1 1 96 None false 200 [] ]}.
Definition small_object : Z := 1048736.
Definition two_objects (s : RosAllocSpace) : world RosAllocSpace :=
  mkWorld (store32 (store32 ∅ big_object 200) small_object 300) (CreateTable (Some 0x8000) 4) (fresh_space 0xc0000000) los_with_object s
    (mkStream [1; 0; 0; 0] 4 false) ∅ ∅ [] ∅ {[ big_object; small_object ]} ∅ ∅ ∅ false true true 0 0 0 0 0 1 [big_object; small_object] [].
Definition create_stubs (w : world RosAllocSpace) : outcome (unit * world RosAllocSpace) :=
  CreateStubs (RosAlloc := RosAllocSpace_allocator 1) (fun _ => []) classes 0x7000 w.
Definition first_calls : list scall := [SCall (CAlloc true 1 96)].
Lemma stub_run_ok : match sample_after first_calls with Some (s, v) => match create_stubs (two_objects s) with Done _ => bool_decide (blocks (v_heap v) = {[ small_object := 96 ]}) | _ => false end | None => false end = true.
Proof. vm_compute. reflexivity. Qed.
Lemma fresh_live base : 0 <= base -> base mod FreeListSpace.kAlignment = 0 -> base + 8192 < 2 ^ 64 -> FreeListSpace.inv 2 (fresh_space base) [] /\ FreeListSpace.begin_ (fresh_space base) = base.
Proof. intros H0 H1 H2. destruct (FreeListSpace.Create_done base 8192 H0 H1) as (s & E & Hi & Hb & _); [done|lia|done|lia|]. unfold fresh_space. by rewrite E. Qed.
Lemma los_live : los_blocks big_object 2 los_with_object {[ big_object := 4096 ]}.
Proof.
  destruct (fresh_live big_object ltac:(done) ltac:(done) ltac:(done)) as [Hi Hb]. destruct (FreeListSpace.Alloc_live 2 (fresh_space big_object) [] 0x7000 2048 Hi ltac:(lia)) as (r & s & E & Hr).
  assert (Ha : match FreeListSpace.Alloc 0x7000 2048 (fresh_space big_object) with Done (Some (p, k), s) => (p =? big_object) && (k =? 4096) && (FreeListSpace.begin_ s =? big_object) | _ => false end = true) by (vm_compute; reflexivity).
  rewrite E in Ha. destruct r as [[p k]|]; [|done]. apply andb_true_iff in Ha as [[->%Z.eqb_eq ->%Z.eqb_eq]%andb_true_iff Hs%Z.eqb_eq]. destruct Hr as (_ & _ & bs & Hi' & El).
  assert (Ew : los_with_object = s) by (unfold los_with_object; change 0x10000 with big_object; by rewrite E). rewrite Ew. split; [done|]. exists bs. split; [done|]. by rewrite El.
Qed.
Lemma classes_ok : map_Forall class_ok classes.
Proof.
  intros k c. unfold classes. rewrite !lookup_insert_Some, lookup_singleton_Some. intros [[_ <-]|[_ [[_ <-]|[_ [_ <-]]]]]; split; cbn [class_size_ component_type_ object_size_]; intros; lia.
Qed.
Lemma two_objects_memory s : mem_ok (w_mem (two_objects s)).
Proof. by apply mem_ok_storew, mem_ok_storew, map_Forall_empty. Qed.
Lemma stubs_move_objects_witness : exists s v w' A' C', sample_after first_calls = Some (s, v) /\ create_stubs (two_objects s) = Done (tt, w') /\
  spaces (RosAlloc := RosAllocSpace_allocator 1) 0x7000 big_object 2 A' ∅ C' w' /\ size A' = 2%nat /\ size C' = 2%nat.
Proof.
  destruct (sample_after_sim first_calls) as (s & v & E & Hs); [vm_compute; reflexivity|]. pose proof stub_run_ok as Hr. rewrite E in Hr. destruct (create_stubs (two_objects s)) as [[[] w']| | |] eqn:Ec; [|discriminate Hr..]. apply bool_decide_eq_true in Hr.
  assert (Ht : to_stub (two_objects s) = {[ big_object; small_object ]}) by (vm_compute; reflexivity).
  destruct (stubs_move_objects (RosAlloc := RosAllocSpace_allocator 1) (fun _ => []) classes 0x7000 big_object 2 classes_ok ltac:(cbn; unfold kPageSize; lia) {[ small_object := 96 ]} {[ big_object := 4096 ]} ∅ (two_objects s) w') as (A' & C' & Hw & _ & HA & _ & HC); [done|apply two_objects_memory| | |exact Ec|].
  - split; [exists (2 ^ 20), (64 * kPageSize), kPageReleaseModeSizeAndEnd, v; split; [exact Hs|exact Hr]|exact los_live|]. destruct (fresh_live 0xc0000000 ltac:(done) ltac:(done) ltac:(done)) as [Hi _]. exists 2, []. split; [exact Hi|reflexivity].
  - rewrite Ht. intros o [->%elem_of_singleton| ->%elem_of_singleton]%elem_of_union; [left; by eexists|right; split; [by eexists|done]].
  - exists s, v, w', A', C'. rewrite Ht in *. split; [exact E|]. split; [exact Ec|]. split; [exact Hw|]. split; [|exact HC]. change (size A' + 1 = 1 + 2)%nat in HA. lia.
Defined.
End StubRun.
