(* ===== verification/DivRem.v ===== *)
(** Integer division by constants in the ARM64 code generator
    (compiler/optimizing/code_generator_utils.cc, code_generator_arm64.cc).

    [CalculateMagicAndShiftForDivRem] is modelled with its unsigned 64-bit
    arithmetic.  The code generator is a function from the instruction and its
    registers to the list of the A64 instructions it emits; the instructions act
    on a register file the way the architecture defines them, on the low 32 bits
    (with the upper ones cleared) or on all 64 bits of a register. *)
From stdpp Require Import prelude list.
From Stdlib Require Import ZArith Lia ZifyBool.
From S2P Require Import Prelude BitUtils.
Open Scope Z_scope.

Module DivRem.

(** ** Magic numbers *)
Record magic_state := mkMagic { m_p : Z; quotient1 : Z; remainder1 : Z; quotient2 : Z; remainder2 : Z }.
(** One round of the loop. *)
Definition magic_round (abs_nc abs_d : Z) (s : magic_state) : magic_state :=
  let quotient1 := u64 (2 * quotient1 s) in
  let remainder1 := u64 (2 * remainder1 s) in
  let '(quotient1, remainder1) :=
    if abs_nc <=? remainder1 then (u64 (quotient1 + 1), u64 (remainder1 - abs_nc)) else (quotient1, remainder1) in
  let quotient2 := u64 (2 * quotient2 s) in
  let remainder2 := u64 (2 * remainder2 s) in
  let '(quotient2, remainder2) :=
    if abs_d <=? remainder2 then (u64 (quotient2 + 1), u64 (remainder2 - abs_d)) else (quotient2, remainder2) in
  mkMagic (m_p s + 1) quotient1 remainder1 quotient2 remainder2.
Definition magic_again (abs_d : Z) (s : magic_state) : bool :=
  let delta := u64 (abs_d - remainder2 s) in
  (quotient1 s <? delta) || ((quotient1 s =? delta) && (remainder1 s =? 0)).
(** do ... while; [p] stays below 128. *)
Fixpoint magic_loop (fuel : nat) (abs_nc abs_d : Z) (s : magic_state) : option magic_state :=
  match fuel with
  | O => None
  | S fuel =>
      let s := magic_round abs_nc abs_d s in
      if magic_again abs_d s then magic_loop fuel abs_nc abs_d s else Some s
  end.
(** The magic number and the shift. *)
Definition CalculateMagicAndShiftForDivRem (divisor : Z) (is_long : bool) : option (Z * Z) :=
  let p := if is_long then 63 else 31 in
  let exp := if is_long then Z.shiftl 1 63 else Z.shiftl 1 31 in
  let abs_d := u64 (if 0 <=? divisor then divisor else - divisor) in
  let sign_bit := if is_long then Z.shiftr (u64 divisor) 63 else Z.shiftr (u32 divisor) 31 in
  let tmp := u64 (exp + sign_bit) in
  let abs_nc := u64 (tmp - 1 - tmp mod abs_d) in
  s ← magic_loop 64 abs_nc abs_d (mkMagic p (exp / abs_nc) (exp mod abs_nc) (exp / abs_d) (exp mod abs_d));
  let magic := i64 (if 0 <? divisor then u64 (quotient2 s + 1) else u64 (- quotient2 s - 1)) in
  Some (if is_long then magic else i32 magic, if is_long then m_p s - 64 else m_p s - 32).

(** ** Instructions *)
Definition bits (is_long : bool) : Z := if is_long then 64 else 32.
(** The flag of each instruction selects X (true) or W (false) registers. *)
Inductive insn :=
| Mov_imm (x : bool) (rd : nat) (imm : Z)
| Mov (x : bool) (rd rn : nat)
| Neg (x : bool) (rd rm : nat) (asr : Z)                (* rd = - (rm ASR #asr) *)
| Add_imm (x : bool) (rd rn : nat) (imm : Z)
| Add (x : bool) (rd rn rm : nat)
| Sub (x : bool) (rd rn rm : nat) (asr : Z)             (* rd = rn - (rm ASR #asr) *)
| And_imm (x : bool) (rd rn : nat) (imm : Z)
| Asr (x : bool) (rd rn : nat) (k : Z)
| Lsr (x : bool) (rd rn : nat) (k : Z)
| Cmp_imm (x : bool) (rn : nat) (imm : Z)
| Csel_lt (x : bool) (rd rn rm : nat)
| Smull (rd rn rm : nat)                                (* X[rd] = W[rn] * W[rm] *)
| Smulh (rd rn rm : nat)                                (* X[rd] = high half of X[rn] * X[rm] *)
| Msub (x : bool) (rd rn rm ra : nat)                   (* rd = ra - rn * rm *)
| Sdiv (x : bool) (rd rn rm : nat).

Record machine := mkMachine { regs : nat -> Z; flag_lt : bool }.
Definition read (x : bool) (r : nat) (s : machine) : Z := wrap (bits x) (regs s r).
Definition sread (x : bool) (r : nat) (s : machine) : Z := swrap (bits x) (regs s r).
Definition write (x : bool) (rd : nat) (v : Z) (s : machine) : machine :=
  mkMachine (fun r => if (r =? rd)%nat then wrap (bits x) v else regs s r) (flag_lt s).
Definition exec (i : insn) (s : machine) : machine :=
  match i with
  | Mov_imm x rd imm => write x rd imm s
  | Mov x rd rn => write x rd (read x rn s) s
  | Neg x rd rm asr => write x rd (- Z.shiftr (sread x rm s) asr) s
  | Add_imm x rd rn imm => write x rd (read x rn s + imm) s
  | Add x rd rn rm => write x rd (read x rn s + read x rm s) s
  | Sub x rd rn rm asr => write x rd (read x rn s - Z.shiftr (sread x rm s) asr) s
  | And_imm x rd rn imm => write x rd (Z.land (read x rn s) imm) s
  | Asr x rd rn k => write x rd (Z.shiftr (sread x rn s) k) s
  | Lsr x rd rn k => write x rd (Z.shiftr (read x rn s) k) s
  | Cmp_imm x rn imm => mkMachine (regs s) (sread x rn s <? imm)
  | Csel_lt x rd rn rm => write x rd (if flag_lt s then read x rn s else read x rm s) s
  | Smull rd rn rm => write true rd (sread false rn s * sread false rm s) s
  | Smulh rd rn rm => write true rd (Z.shiftr (sread true rn s * sread true rm s) 64) s
  | Msub x rd rn rm ra => write x rd (read x ra s - read x rn s * read x rm s) s
  | Sdiv x rd rn rm => write x rd (if read x rm s =? 0 then 0 else Z.quot (sread x rn s) (sread x rm s)) s
  end.
Definition run (code : list insn) (s : machine) : machine := foldl (fun s i => exec i s) s code.

(** ** Code generation

    [x] is the type of the operation (kPrimLong), [div] tells HDiv from HRem;
    [temp] and [temp_imm] are the scratch registers that are acquired. *)
Section Generate.
Context (x div : bool) (out dividend temp temp_imm : nat).

Definition AbsOrMin (value : Z) : Z := if value =? - 2 ^ 63 then value else Z.abs value.

Definition DivRemOneOrMinusOne (imm : Z) : list insn :=
  if negb div then [Mov_imm x out 0]
  else if imm =? 1 then [Mov x out dividend]
  else [Neg x out dividend 0].
Definition DivRemByPowerOfTwo (imm : Z) : list insn :=
  let abs_imm := u64 (AbsOrMin imm) in
  let ctz_imm := CTZ abs_imm in
  if div then
    [Add_imm x temp dividend (u64 (abs_imm - 1)); Cmp_imm x dividend 0; Csel_lt x out temp dividend;
     if 0 <? imm then Asr x out out ctz_imm else Neg x out out ctz_imm]
  else
    [Asr x temp dividend (bits x - 1); Lsr x temp temp (bits x - ctz_imm); Add x out dividend temp;
     And_imm x out out (u64 (abs_imm - 1)); Sub x out out temp 0].
Definition GenerateDivRemWithAnyConstant (imm : Z) : option (list insn) :=
  '(magic, shift) ← CalculateMagicAndShiftForDivRem imm x;
  Some (
    [Mov_imm x temp magic]
    ++ (if x then [Smulh temp dividend temp] else [Smull temp dividend temp; Lsr true temp temp 32])
    ++ (if (0 <? imm) && (magic <? 0) then [Add x temp temp dividend]
        else if (imm <? 0) && (0 <? magic) then [Sub x temp temp dividend 0] else [])
    ++ (if negb (shift =? 0) then [Asr x temp temp shift] else [])
    ++ (if div then [Sub x out temp temp (bits x - 1)]
        else [Sub x temp temp temp (bits x - 1); Mov_imm x temp_imm imm; Msub x out temp temp_imm dividend])).
(** The divisor is a constant or in a register.  [IsPowerOfTwo] is applied to
    an int64_t, whose subtraction wraps around at the minimum: its argument is
    read as an unsigned word. *)
Inductive operand := Constant (imm : Z) | Register (r : nat).
Definition GenerateDivRemIntegral (second : operand) : option (list insn) :=
  match second with
  | Constant imm =>
      if imm =? 0 then Some []
      else if (imm =? 1) || (imm =? -1) then Some (DivRemOneOrMinusOne imm)
      else if IsPowerOfTwo (u64 (AbsOrMin imm)) then Some (DivRemByPowerOfTwo imm)
      else GenerateDivRemWithAnyConstant imm
  | Register divisor =>
      Some (if div then [Sdiv x out dividend divisor]
            else [Sdiv x temp dividend divisor; Msub x out temp divisor dividend])
  end.
End Generate.

(** Doubling a dividend, the way the loop updates quotient and remainder. *)
Lemma double_div a n :
  0 < n <= 2 ^ 63 -> 0 <= a -> a / n < 2 ^ 63 ->
  (if n <=? u64 (2 * (a mod n)) then (u64 (u64 (2 * (a / n)) + 1), u64 (u64 (2 * (a mod n)) - n))
   else (u64 (2 * (a / n)), u64 (2 * (a mod n)))) = ((2 * a) / n, (2 * a) mod n).
Proof.
  intros Hn Ha Hq. pose proof (Z.mod_pos_bound a n ltac:(lia)). pose proof (Z.div_mod a n ltac:(lia)).
  assert (0 <= a / n) by (apply Z.div_pos; lia).
  rewrite !(wrap_small 64 (2 * _)) by (unfold in_width; lia). destruct (Z.leb_spec n (2 * (a mod n))).
  - rewrite !wrap_small by (unfold in_width; lia).
    f_equal; [apply Z.div_unique with (2 * (a mod n) - n); lia | apply Z.mod_unique with (2 * (a / n) + 1); lia].
  - f_equal; [apply Z.div_unique with (2 * (a mod n)); lia | apply Z.mod_unique with (2 * (a / n)); lia].
Qed.

(** ** The arithmetic of magic numbers

    [D] is the absolute value of the divisor, not a power of two; [B] is the
    largest dividend for which the product is rounded down (one less for a
    positive divisor than for a negative one), and [nc] the largest number up to
    [B] that is one less than a multiple of [D]. *)
Section Magic.
Context (w D B : Z).
Context (Hw : 2 <= w <= 64) (HD : 3 <= D < 2 ^ (w - 1)).
Context (Hnp : forall k, 0 <= k -> 2 ^ k mod D <> 0).
Context (HB : B = 2 ^ (w - 1) - 1 \/ B = 2 ^ (w - 1)).

Definition nc : Z := B - (B + 1) mod D.
Definition delta (p : Z) : Z := D - 2 ^ p mod D.
Definition enough (p : Z) : Prop := nc * delta p < 2 ^ p.

Lemma nc_bounds : D - 1 <= nc <= B /\ (nc + 1) mod D = 0.
Proof using Hw HD Hnp HB.
  pose proof (Z.mod_pos_bound (B + 1) D). pose proof (Z.div_mod (B + 1) D). unfold nc.
  assert (1 <= (B + 1) / D) by (apply Z.div_le_lower_bound; lia). split; [nia|].
  replace (B - (B + 1) mod D + 1) with ((B + 1) / D * D) by lia. apply Z.mod_mul. lia.
Qed.
Lemma delta_bounds p : 0 <= p -> 1 <= delta p <= D - 1.
Proof using Hw HD Hnp HB.
  intros Hp. unfold delta. pose proof (Z.mod_pos_bound (2 ^ p) D). pose proof (Hnp p Hp). lia.
Qed.

(** [2 ^ p / D + 1] times [D] exceeds [2 ^ p] by [delta p]. *)
Lemma magic_excess p : (2 ^ p / D + 1) * D = 2 ^ p + delta p.
Proof using Hw HD Hnp HB. unfold delta. pose proof (Z.div_mod (2 ^ p) D). lia. Qed.

(** Beyond [nc] the remainders are smaller than [D - 1]. *)
Lemma beyond_nc m : nc < m <= B -> m mod D = m - nc - 1 /\ m mod D <= D - 2.
Proof using Hw HD Hnp HB.
  intros Hm. destruct nc_bounds as [Hn H0]. pose proof (Z.mod_pos_bound (B + 1) D).
  assert (E : m mod D = m - nc - 1).
  { symmetry. apply Z.mod_unique with ((nc + 1) / D); [left; unfold nc in *; lia|].
    pose proof (Z.div_mod (nc + 1) D). lia. }
  split; [done|]. rewrite E. unfold nc in *. lia.
Qed.
Lemma excess_small p m : 0 <= p -> enough p -> 0 <= m <= B -> m mod D * 2 ^ p + m * delta p < D * 2 ^ p.
Proof using Hw HD Hnp HB.
  intros Hp He Hm. pose proof (Z.mod_pos_bound m D ltac:(lia)). pose proof (delta_bounds p Hp).
  destruct nc_bounds as [Hn _]. unfold enough in He. assert (0 < 2 ^ p) by (apply Z.pow_pos_nonneg; lia).
  destruct (Z.le_gt_cases m nc) as [Hle|Hgt].
  - assert (m * delta p <= nc * delta p) by nia. nia.
  - destruct (beyond_nc m) as [E Hr]; [lia|]. set (r := m mod D) in *.
    assert ((r + 1) * delta p <= nc * delta p) by nia. assert (m = nc + (r + 1)) by lia.
    replace (m * delta p) with (nc * delta p + (r + 1) * delta p) by nia. nia.
Qed.
(** The product rounded down is the quotient. *)
Lemma magic_floor p m : 0 <= p -> enough p -> 0 <= m <= B -> (2 ^ p / D + 1) * m / 2 ^ p = m / D.
Proof using Hw HD Hnp HB.
  intros Hp He Hm. pose proof (excess_small p m Hp He Hm). pose proof (magic_excess p) as HM.
  assert (0 < 2 ^ p) by (apply Z.pow_pos_nonneg; lia). pose proof (Z.div_mod m D). pose proof (Z.mod_pos_bound m D).
  pose proof (delta_bounds p Hp). set (M := 2 ^ p / D + 1) in *. symmetry. apply Z.div_unique with (M * m - 2 ^ p * (m / D)); [|lia].
  left. assert (D * (M * m - 2 ^ p * (m / D)) = m mod D * 2 ^ p + m * delta p) by nia. nia.
Qed.
(** For a dividend of the other sign: the product rounded up exceeds it by 1. *)
Lemma excess_up p m : w - 1 <= p -> enough p -> 1 <= m <= 2 ^ (w - 1) -> m mod D * 2 ^ p + m * delta p <= D * 2 ^ p.
Proof using Hw HD Hnp HB.
  intros Hp He Hm. destruct (Z.le_gt_cases m B) as [Hle|Hgt]; [pose proof (excess_small p m ltac:(lia) He ltac:(lia)); lia|].
  assert (EB : m = 2 ^ (w - 1) /\ m = B + 1) by lia. destruct EB as [Em EB].
  destruct nc_bounds as [Hn H0]. pose proof (Z.mod_pos_bound (B + 1) D ltac:(lia)) as Hr.
  assert (0 < 2 ^ p) by (apply Z.pow_pos_nonneg; lia). pose proof (delta_bounds p ltac:(lia)) as Hd.
  rewrite EB in *. set (r := (B + 1) mod D) in *. assert (Enc : nc = B - r) by done. unfold enough in He.
  destruct (decide (r = D - 1)) as [Er|Er].
  - (* 2 ^ (w - 1) is -1 modulo D *)
    assert (delta p <= 2 ^ (p - (w - 1))) as Hle.
    { destruct (Z.le_gt_cases D (2 ^ (p - (w - 1)))); [lia|]. unfold delta.
      replace (2 ^ p) with (2 ^ (w - 1) * 2 ^ (p - (w - 1))) by (rewrite <- Z.pow_add_r by lia; f_equal; lia).
      rewrite <- Em. rewrite Z.mul_mod by lia. fold r. rewrite Er. rewrite (Z.mod_small (2 ^ _)) by (split; [apply Z.pow_nonneg; lia | lia]).
      set (j := 2 ^ (p - (w - 1))) in *. assert (0 < j) by (apply Z.pow_pos_nonneg; lia).
      replace ((D - 1) * j) with (D - j + (j - 1) * D) by lia. rewrite Z.mod_add, Z.mod_small by lia. lia. }
    replace (2 ^ p) with ((B + 1) * 2 ^ (p - (w - 1))) by (rewrite Em, <- Z.pow_add_r by lia; f_equal; lia).
    rewrite Er. nia.
  - assert ((r + 1) * delta p <= nc * delta p) by nia.
    replace ((B + 1) * delta p) with (nc * delta p + (r + 1) * delta p) by nia. nia.
Qed.
Lemma magic_ceil p m :
  w - 1 <= p -> enough p -> 1 <= m <= 2 ^ (w - 1) -> (- ((2 ^ p / D + 1) * m)) / 2 ^ p = - (m / D) - 1.
Proof using Hw HD Hnp HB.
  intros Hp He Hm. pose proof (excess_up p m Hp He Hm). pose proof (magic_excess p) as HM.
  assert (0 < 2 ^ p) by (apply Z.pow_pos_nonneg; lia). pose proof (Z.div_mod m D). pose proof (Z.mod_pos_bound m D).
  pose proof (delta_bounds p ltac:(lia)). set (M := 2 ^ p / D + 1) in *. symmetry.
  apply Z.div_unique with (2 ^ p * (m / D + 1) - M * m); [|lia]. left.
  assert (D * (2 ^ p * (m / D + 1) - M * m) = D * 2 ^ p - (m mod D * 2 ^ p + m * delta p)) by nia. nia.
Qed.

(** The state of the loop: quotients and remainders of [2 ^ p]. *)
Definition magic_at (p : Z) : magic_state := mkMagic p (2 ^ p / nc) (2 ^ p mod nc) (2 ^ p / D) (2 ^ p mod D).

Lemma half_range : 2 ^ (w - 1) <= 2 ^ 63.
Proof using Hw HD Hnp HB. apply Z.pow_le_mono_r; lia. Qed.
Lemma magic_round_at p :
  0 <= p -> 2 ^ p / nc < 2 ^ 63 -> 2 ^ p / D < 2 ^ 63 -> magic_round nc D (magic_at p) = magic_at (p + 1).
Proof using Hw HD Hnp HB.
  intros Hp Hn Hd. pose proof half_range. destruct nc_bounds as [Hb _]. assert (0 <= 2 ^ p) by (apply Z.pow_nonneg; lia).
  unfold magic_round, magic_at. simpl. rewrite !double_div by lia.
  by rewrite !Z.pow_add_r, Z.pow_1_r, !(Z.mul_comm (2 ^ p)) by lia.
Qed.
Lemma magic_again_at p : 0 <= p -> magic_again D (magic_at p) = (2 ^ p <=? nc * delta p).
Proof using Hw HD Hnp HB.
  intros Hp. pose proof half_range. destruct nc_bounds as [Hb _]. pose proof (delta_bounds p Hp) as Hd.
  unfold magic_again, magic_at. simpl. fold (delta p). rewrite wrap_small by (unfold in_width; lia).
  pose proof (Z.div_mod (2 ^ p) nc ltac:(lia)). pose proof (Z.mod_pos_bound (2 ^ p) nc ltac:(lia)).
  set (q := 2 ^ p / nc) in *. set (r := 2 ^ p mod nc) in *.
  destruct (Z.leb_spec (2 ^ p) (nc * delta p)).
  - assert (q <= delta p) by nia. destruct (Z.ltb_spec q (delta p)); [done|]. assert (q = delta p) by lia.
    assert (r = 0) by nia. lia.
  - assert (delta p <= q) by nia. assert (q = delta p -> r <> 0) by nia. lia.
Qed.
(** The quotients stay below [2 ^ 63] as long as the loop goes on. *)
Lemma quotients_small p :
  w - 1 <= p -> (p = w - 1 \/ 2 ^ p <= nc * delta p) -> 2 ^ p / nc < 2 ^ 63 /\ 2 ^ p / D < 2 ^ 63.
Proof using Hw HD Hnp HB.
  intros Hp Hc. pose proof half_range. destruct nc_bounds as [Hb _]. pose proof (delta_bounds p ltac:(lia)) as Hd.
  split; apply Z.div_lt_upper_bound; try lia; destruct Hc as [->|Hc]; nia.
Qed.
Lemma magic_loop_done fuel : forall p,
  w - 1 <= p < 2 * (w - 1) -> (p = w - 1 \/ 2 ^ p <= nc * delta p) -> 2 * (w - 1) - p <= Z.of_nat fuel ->
  exists p', p < p' <= 2 * (w - 1) /\ magic_loop fuel nc D (magic_at p) = Some (magic_at p') /\ enough p' /\
    (p' = w \/ 2 ^ (p' - 1) <= nc * delta (p' - 1)).
Proof using Hw HD Hnp HB.
  induction fuel as [|fuel IH]; intros p Hp Hc Hf; [lia|]. cbn [magic_loop].
  destruct (quotients_small p ltac:(lia) Hc) as [H1 H2]. rewrite magic_round_at, magic_again_at by lia.
  destruct (Z.leb_spec (2 ^ (p + 1)) (nc * delta (p + 1))) as [Hle|Hgt].
  - destruct (decide (p + 1 = 2 * (w - 1))) as [E|E].
    + exfalso. rewrite E in Hle. destruct nc_bounds as [Hb _]. pose proof (delta_bounds (2 * (w - 1)) ltac:(lia)).
      replace (2 * (w - 1)) with ((w - 1) + (w - 1)) in Hle at 1 by lia. rewrite Z.pow_add_r in Hle by lia. nia.
    + destruct (IH (p + 1)) as (p' & Hp' & El & He & Hl); [lia | by right | lia|]. exists p'. split; [lia | done].
  - exists (p + 1). split; [lia|]. split; [done|]. split; [exact Hgt|]. replace (p + 1 - 1) with p by lia.
    destruct Hc as [->|Hc]; [left; lia | by right].
Qed.
(** The magic number has at most [w] bits. *)
Lemma magic_fits p : w <= p -> (p = w \/ 2 ^ (p - 1) <= nc * delta (p - 1)) -> 1 <= 2 ^ p / D + 1 < 2 ^ w.
Proof using Hw HD Hnp HB.
  intros Hp Hl. destruct nc_bounds as [Hb _]. split.
  - assert (0 <= 2 ^ p / D) by (apply Z.div_pos; [apply Z.pow_nonneg; lia | lia]). lia.
  - assert (Ew : 2 ^ w = 2 * 2 ^ (w - 1)) by (rewrite <- Z.pow_succ_r by lia; f_equal; lia).
    cut (2 ^ p / D < 2 ^ w - 1); [lia|]. apply Z.div_lt_upper_bound; [lia|]. destruct Hl as [->|Hl]; [nia|].
    pose proof (delta_bounds (p - 1) ltac:(lia)). replace (2 ^ p) with (2 * 2 ^ (p - 1)) by (rewrite <- Z.pow_succ_r by lia; f_equal; lia).
    assert (nc * delta (p - 1) <= nc * (D - 1)) by nia. nia.
Qed.
End Magic.

(** ** Powers of two *)
Lemma divides_pow2 k : forall D, 0 < D -> (D | 2 ^ Z.of_nat k) -> exists j, 0 <= j /\ D = 2 ^ j.
Proof.
  induction k as [|k IH]; intros D HD Hdiv.
  - exists 0. split; [lia|]. apply Z.divide_1_r_nonneg in Hdiv; [|lia]. done.
  - rewrite Nat2Z.inj_succ, Z.pow_succ_r in Hdiv by lia. destruct (Z.Even_or_Odd D) as [[D' ->]|[D' ->]].
    + destruct (IH D') as (j & Hj & ->); [lia | by apply Z.mul_divide_cancel_l in Hdiv|].
      exists (j + 1). split; [lia|]. rewrite Z.pow_add_r by lia. lia.
    + apply IH; [lia|]. apply Z.gauss with 2; [done|]. apply Z.bezout_1_gcd. exists 1, (- D'). lia.
Qed.
Lemma IsPowerOfTwo_pow j : 0 <= j -> IsPowerOfTwo (2 ^ j) = true.
Proof.
  intros Hj. unfold IsPowerOfTwo. apply Z.eqb_eq. replace (2 ^ j - 1) with (Z.ones j) by (rewrite Z.ones_equiv; lia).
  rewrite Z.land_ones by done. apply Z.mod_same. pose proof (Z.pow_pos_nonneg 2 j). lia.
Qed.
Lemma not_power D : 0 < D -> IsPowerOfTwo D = false -> forall k, 0 <= k -> 2 ^ k mod D <> 0.
Proof.
  intros HD Hp k Hk E. apply Z.mod_divide in E; [|lia]. rewrite <- (Z2Nat.id k Hk) in E.
  destruct (divides_pow2 (Z.to_nat k) D HD E) as (j & Hj & ->). by rewrite IsPowerOfTwo_pow in Hp.
Qed.
Lemma is_power D : 0 < D -> IsPowerOfTwo D = true -> 0 <= CTZ D /\ D = 2 ^ CTZ D.
Proof.
  intros HD Hp. apply Z.eqb_eq in Hp. pose proof (Z.log2_spec D HD) as Hl. pose proof (Z.log2_nonneg D) as Hn.
  assert (E : D = 2 ^ Z.log2 D).
  { destruct (decide (D = 2 ^ Z.log2 D)) as [|Hne]; [done|]. exfalso.
    assert (Hb : Z.testbit (Z.land D (D - 1)) (Z.log2 D) = true).
    { rewrite Z.land_spec, Z.bit_log2 by done. simpl.
      rewrite <- (Z.log2_unique (D - 1) (Z.log2 D)) at 1 by lia. apply Z.bit_log2. lia. }
    by rewrite Hp, Z.bits_0 in Hb. }
  destruct (CTZ_spec (Z.log2 D + 1) D) as (Hr & Hb & _); [rewrite Z.add_1_r; lia|]. split; [lia|].
  rewrite E in Hb at 1. rewrite Z.pow2_bits_eqb in Hb by done. apply Z.eqb_eq in Hb. by rewrite <- Hb.
Qed.

(** ** [CalculateMagicAndShiftForDivRem] *)
Lemma bits_range x : 2 <= bits x <= 64.
Proof. destruct x; simpl; lia. Qed.
(** The sign of the divisor, and its quotient truncated towards zero. *)
Lemma quot_abs n d : d <> 0 -> Z.quot n d = Z.sgn n * Z.sgn d * (Z.abs n / Z.abs d).
Proof. intros Hd. rewrite Z.quot_div by done. lia. Qed.

(** [t] is the product with the magic number, rounded down; adding 1 to a
    negative [t] gives the quotient. *)
Lemma magic_quot w D B d M p n :
  2 <= w <= 64 -> 3 <= D < 2 ^ (w - 1) -> (forall k, 0 <= k -> 2 ^ k mod D <> 0) ->
  (0 < d /\ d = D /\ M = 2 ^ p / D + 1 /\ B = 2 ^ (w - 1) - 1 \/ d < 0 /\ d = - D /\ M = - (2 ^ p / D + 1) /\ B = 2 ^ (w - 1)) ->
  w - 1 <= p -> enough D B p -> - 2 ^ (w - 1) <= n < 2 ^ (w - 1) ->
  let t := M * n / 2 ^ p in t - (if t <? 0 then -1 else 0) = Z.quot n d.
Proof.
  intros Hw HD Hnp Hcase Hp He Hn t. assert (HB : B = 2 ^ (w - 1) - 1 \/ B = 2 ^ (w - 1)) by lia.
  pose proof (magic_floor w D B Hw HD Hnp HB p) as Hfloor. pose proof (magic_ceil w D B Hw HD Hnp HB p) as Hceil.
  set (M' := 2 ^ p / D + 1) in *. rewrite quot_abs by lia.
  assert (Hd0 : forall m, 0 <= m -> 0 <= m / D) by (intros; apply Z.div_pos; lia).
  destruct (decide (n = 0)) as [->|Hn0].
  { unfold t. rewrite Z.mul_0_r, Z.div_0_l by (pose proof (Z.pow_pos_nonneg 2 p); lia). done. }
  assert (HM : 0 < M') by (assert (0 <= 2 ^ p / D) by (apply Z.div_pos; [apply Z.pow_nonneg; lia | lia]); lia).
  assert (Hs : 0 < n * d /\ M * n = M' * Z.abs n /\ Z.abs n <= B /\ Z.sgn n * Z.sgn d = 1 \/
    n * d < 0 /\ M * n = - (M' * Z.abs n) /\ Z.abs n <= 2 ^ (w - 1) /\ Z.sgn n * Z.sgn d = -1).
  { destruct Hcase as [(?&?&?&?)|(?&?&?&?)], (Z.lt_total n 0) as [|[|]]; nia. }
  specialize (Hd0 (Z.abs n) ltac:(lia)). replace (Z.abs d) with D by lia. unfold t.
  destruct Hs as [(_ & E & Ha & ->)|(_ & E & Ha & ->)]; rewrite E.
  - rewrite Hfloor by (try done; lia). rewrite (proj2 (Z.ltb_ge _ _) Hd0). lia.
  - rewrite Hceil by (try done; lia). rewrite (proj2 (Z.ltb_lt _ _)) by lia. lia.
Qed.

Lemma swrap_wrap_le w v z : 0 < w <= v -> swrap w (wrap v z) = swrap w z.
Proof.
  intros Hw. apply swrap_congr; [lia|]. unfold wrap. pose proof (Z.div_mod z (2 ^ v)).
  assert (E : 2 ^ v = 2 ^ (v - w) * 2 ^ w) by (rewrite <- Z.pow_add_r by lia; f_equal; lia).
  replace (z mod 2 ^ v) with (z + - (z / 2 ^ v * 2 ^ (v - w)) * 2 ^ w) by (pose proof (Z.pow_pos_nonneg 2 v); nia).
  apply Z.mod_add. pose proof (Z.pow_pos_nonneg 2 w). lia.
Qed.
Lemma swrap_swrap_le w v z : 0 < w <= v -> swrap w (swrap v z) = swrap w z.
Proof.
  intros Hw. rewrite <- (swrap_wrap_le w v) by done. rewrite wrap_swrap by lia. by apply swrap_wrap_le.
Qed.
Lemma sign_bit_eq x d :
  - 2 ^ (bits x - 1) <= d < 2 ^ (bits x - 1) ->
  (if x then Z.shiftr (u64 d) 63 else Z.shiftr (u32 d) 31) = if d <? 0 then 1 else 0.
Proof.
  intros Hd. destruct x; simpl in Hd; rewrite Z.shiftr_div_pow2 by lia; destruct (Z.ltb_spec d 0);
    first [rewrite wrap_small by (unfold in_width; lia) | rewrite <- (wrap_add_mult _ d 1), wrap_small by (unfold in_width; lia)];
    Z.div_mod_to_equations; lia.
Qed.
Lemma CalculateMagic_done x d :
  let w := bits x in
  3 <= Z.abs d < 2 ^ (w - 1) -> IsPowerOfTwo (Z.abs d) = false ->
  exists p M, CalculateMagicAndShiftForDivRem d x = Some (swrap w M, p - w) /\ w <= p <= 2 * (w - 1) /\
    1 <= Z.abs M < 2 ^ w /\ Z.sgn M = Z.sgn d /\
    forall n, - 2 ^ (w - 1) <= n < 2 ^ (w - 1) -> let t := M * n / 2 ^ p in t - (if t <? 0 then -1 else 0) = Z.quot n d.
Proof.
  intros w HD Hp. pose proof (bits_range x) as Hw. fold w in Hw. set (D := Z.abs d) in *.
  pose proof (not_power D ltac:(lia) Hp) as Hnp. set (B := 2 ^ (w - 1) - 1 + if d <? 0 then 1 else 0).
  assert (HB : B = 2 ^ (w - 1) - 1 \/ B = 2 ^ (w - 1)) by (unfold B; destruct (d <? 0); lia).
  pose proof (half_range w D B Hw HD Hnp HB) as H63. destruct (nc_bounds w D B Hw HD Hnp HB) as [Hnc _].
  destruct (magic_loop_done w D B Hw HD Hnp HB 64 (w - 1)) as (p & Hpr & El & He & Hl); [lia | by left | lia|].
  pose proof (magic_fits w D B Hw HD Hnp HB p ltac:(lia) Hl) as Hf.
  exists p, (if 0 <? d then 2 ^ p / D + 1 else - (2 ^ p / D + 1)). split; [|split_and!].
  - unfold CalculateMagicAndShiftForDivRem. rewrite sign_bit_eq by (fold w; lia).
    replace (if x then Z.shiftl 1 63 else Z.shiftl 1 31) with (2 ^ (w - 1)) by (by destruct x).
    replace (if x then 63 else 31) with (w - 1) by (by destruct x).
    replace (if 0 <=? d then d else - d) with D by (destruct (Z.leb_spec 0 d); lia).
    rewrite (wrap_small 64 D) by (unfold in_width; lia).
    replace (2 ^ (w - 1) + (if d <? 0 then 1 else 0)) with (B + 1) by (unfold B; lia).
    rewrite (wrap_small 64 (B + 1)) by (unfold in_width; lia).
    replace (B + 1 - 1 - (B + 1) mod D) with (nc D B) by (unfold nc; lia).
    rewrite (wrap_small 64 (nc D B)) by (unfold in_width; lia).
    fold (magic_at D B (w - 1)). rewrite El. simpl. f_equal. f_equal; [|by destruct x].
    replace (if 0 <? d then u64 (2 ^ p / D + 1) else u64 (- (2 ^ p / D) - 1))
      with (u64 (if 0 <? d then 2 ^ p / D + 1 else - (2 ^ p / D + 1))) by (destruct (0 <? d); f_equal; lia).
    destruct x; simpl in *; subst w; rewrite ?swrap_swrap_le, swrap_wrap_le by lia; done.
  - lia.
  - lia.
  - destruct (0 <? d); lia.
  - destruct (0 <? d); lia.
  - destruct (Z.ltb_spec 0 d); lia.
  - intros n Hn. apply (magic_quot w D B d); try done; [|lia]. unfold B.
    destruct (Z.ltb_spec 0 d), (Z.ltb_spec d 0); lia.
Qed.

(** ** Registers

    Register [r] holds [v], as an X or a W register. *)
Definition holds (x : bool) (r : nat) (v : Z) (s : machine) : Prop := wrap (bits x) (regs s r) = wrap (bits x) v.
Definition signed (x : bool) (v : Z) : Prop := - 2 ^ (bits x - 1) <= v < 2 ^ (bits x - 1).

Lemma sread_holds x r v s : holds x r v s -> signed x v -> sread x r s = v.
Proof.
  intros Hh Hv. pose proof (bits_range x). unfold sread. rewrite (swrap_congr _ _ v) by (done || lia). apply swrap_small; [lia | done].
Qed.
Lemma holds_sread x r s : holds x r (sread x r s) s.
Proof. pose proof (bits_range x). unfold holds, sread. rewrite wrap_swrap; [done | lia]. Qed.
Lemma sread_signed x r s : signed x (sread x r s).
Proof. pose proof (bits_range x). apply swrap_range. lia. Qed.
Lemma write_same x rd v v' s : wrap (bits x) v = wrap (bits x) v' -> holds x rd v' (write x rd v s).
Proof. intros E. unfold holds, write. simpl. by rewrite Nat.eqb_refl, wrap_wrap. Qed.
Lemma write_other x y r rd v v' s : r <> rd -> holds x r v s -> holds x r v (write y rd v' s).
Proof. intros Hr Hh. unfold holds, write. simpl. by rewrite (proj2 (Nat.eqb_neq r rd) Hr). Qed.

Lemma holds_add x rd rn rm a b s : holds x rn a s -> holds x rm b s -> holds x rd (a + b) (exec (Add x rd rn rm) s).
Proof. intros Ha Hb. apply write_same. unfold read. rewrite Ha, Hb. apply wrap_add. Qed.
Lemma holds_add_imm x rd rn imm a s : holds x rn a s -> holds x rd (a + imm) (exec (Add_imm x rd rn imm) s).
Proof. intros Ha. apply write_same. unfold read. rewrite Ha, <- (wrap_add _ (wrap _ a)), wrap_wrap. apply wrap_add. Qed.
Lemma holds_sub x rd rn rm k a b s :
  0 <= k -> holds x rn a s -> holds x rm b s -> signed x b -> holds x rd (a - b / 2 ^ k) (exec (Sub x rd rn rm k) s).
Proof.
  intros Hk Ha Hb Hs. apply write_same. unfold read. rewrite Ha, (sread_holds x rm b s Hb Hs), Z.shiftr_div_pow2 by done.
  rewrite <- (wrap_sub _ (wrap _ a)), wrap_wrap. apply wrap_sub.
Qed.
Lemma holds_neg x rd rm k b s :
  0 <= k -> holds x rm b s -> signed x b -> holds x rd (- (b / 2 ^ k)) (exec (Neg x rd rm k) s).
Proof. intros Hk Hb Hs. apply write_same. by rewrite (sread_holds x rm b s Hb Hs), Z.shiftr_div_pow2. Qed.
Lemma holds_asr x rd rn k a s :
  0 <= k -> holds x rn a s -> signed x a -> holds x rd (a / 2 ^ k) (exec (Asr x rd rn k) s).
Proof. intros Hk Ha Hs. apply write_same. by rewrite (sread_holds x rn a s Ha Hs), Z.shiftr_div_pow2. Qed.
Lemma holds_lsr x rd rn k a s : 0 <= k -> holds x rn a s -> holds x rd (wrap (bits x) a / 2 ^ k) (exec (Lsr x rd rn k) s).
Proof. intros Hk Ha. apply write_same. unfold read. by rewrite Ha, Z.shiftr_div_pow2. Qed.
Lemma holds_msub x rd rn rm ra a b c s :
  holds x rn a s -> holds x rm b s -> holds x ra c s -> holds x rd (c - a * b) (exec (Msub x rd rn rm ra) s).
Proof.
  intros Ha Hb Hc. apply write_same. unfold read. rewrite Ha, Hb, Hc.
  by rewrite <- (wrap_sub _ (wrap _ c)), wrap_wrap, wrap_mul, wrap_sub.
Qed.
Lemma holds_eq x r v v' s : holds x r v s -> wrap (bits x) v = wrap (bits x) v' -> holds x r v' s.
Proof. intros Hh E. unfold holds. by rewrite Hh. Qed.

(** ** The product *)
Lemma wrap_div_high n : wrap 32 (wrap 64 n / 2 ^ 32) = wrap 32 (n / 2 ^ 32).
Proof. unfold wrap. Z.div_mod_to_equations. lia. Qed.
Lemma high_product x (temp dividend : nat) magic n s :
  temp <> dividend -> signed x magic -> signed x n -> holds x dividend n s ->
  let s' := run (if x then [Smulh temp dividend temp] else [Smull temp dividend temp; Lsr true temp temp 32])
              (run [Mov_imm x temp magic] s) in
  holds x temp (n * magic / 2 ^ bits x) s' /\ forall y r v, r <> temp -> holds y r v s -> holds y r v s'.
Proof.
  intros Hne Hm Hn Hh s'. unfold s'. split.
  - assert (H1 : holds x temp magic (exec (Mov_imm x temp magic) s)) by (by apply write_same).
    assert (H2 : holds x dividend n (exec (Mov_imm x temp magic) s)) by (apply write_other; [congruence | done]).
    destruct x; simpl; unfold run; simpl.
    + apply write_same. rewrite (sread_holds true dividend n), (sread_holds true temp magic) by done.
      by rewrite Z.shiftr_div_pow2.
    + unfold holds. simpl. rewrite Nat.eqb_refl. unfold read. simpl. rewrite Nat.eqb_refl.
      rewrite (sread_holds false dividend n), (sread_holds false temp magic) by done.
      rewrite wrap_wrap, Z.shiftr_div_pow2 by done.
      replace (wrap 32 (wrap 64 (wrap 64 (n * magic) / 2 ^ 32))) with (wrap 32 (wrap 64 (n * magic) / 2 ^ 32)).
      * apply wrap_div_high.
      * unfold wrap. Z.div_mod_to_equations. lia.
  - intros y r v Hr H. destruct x; simpl; repeat apply write_other; done.
Qed.

(** The product with a magic number that does not fit into a signed word. *)
Lemma swrap_high w M : 2 <= w -> 2 ^ (w - 1) <= M < 2 ^ w -> swrap w M = M - 2 ^ w.
Proof.
  intros Hw HM. assert (E : 2 ^ w = 2 * 2 ^ (w - 1)) by (rewrite <- (Z.pow_succ_r 2 (w - 1)) by lia; f_equal; lia).
  rewrite <- (swrap_small w (M - 2 ^ w)) by lia. apply swrap_congr; [lia|].
  rewrite <- (wrap_add_mult w M (-1)) by lia. f_equal; lia.
Qed.
Lemma swrap_low w M : 2 <= w -> - 2 ^ w < M < - 2 ^ (w - 1) -> swrap w M = M + 2 ^ w.
Proof.
  intros Hw HM. assert (E : 2 ^ w = 2 * 2 ^ (w - 1)) by (rewrite <- (Z.pow_succ_r 2 (w - 1)) by lia; f_equal; lia).
  rewrite <- (swrap_small w (M + 2 ^ w)) by lia. apply swrap_congr; [lia|].
  rewrite <- (wrap_add_mult w M 1) by lia. f_equal; lia.
Qed.
Lemma adjust_product x (temp dividend : nat) imm M n s :
  temp <> dividend -> 1 <= Z.abs M < 2 ^ bits x -> Z.sgn M = Z.sgn imm -> signed x n ->
  holds x dividend n s -> holds x temp (n * swrap (bits x) M / 2 ^ bits x) s ->
  let magic := swrap (bits x) M in
  let s' := run (if (0 <? imm) && (magic <? 0) then [Add x temp temp dividend]
                 else if (imm <? 0) && (0 <? magic) then [Sub x temp temp dividend 0] else []) s in
  holds x temp (n * M / 2 ^ bits x) s' /\ forall y r v, r <> temp -> holds y r v s -> holds y r v s'.
Proof.
  intros Hne HM Hsgn Hn Hd Ht magic. pose proof (bits_range x) as Hw. set (w := bits x) in *.
  assert (Hp : 0 < 2 ^ w) by (apply Z.pow_pos_nonneg; lia).
  assert (E : 2 ^ w = 2 * 2 ^ (w - 1)) by (rewrite <- (Z.pow_succ_r 2 (w - 1)) by lia; f_equal; lia).
  assert (Hcases : magic = M - 2 ^ w /\ 0 < M /\ magic < 0 \/ magic = M + 2 ^ w /\ M < 0 /\ 0 < magic \/
    magic = M /\ (0 < M -> 0 < magic) /\ (M < 0 -> magic < 0)).
  { unfold magic. destruct (Z.le_gt_cases (2 ^ (w - 1)) M); [left; rewrite swrap_high by lia; lia|]. right.
    destruct (Z.lt_ge_cases M (- 2 ^ (w - 1))); [left; rewrite swrap_low by lia; lia|]. right. rewrite swrap_small by lia. lia. }
  fold magic in Ht. destruct Hcases as [(Em & H1 & H2)|[(Em & H1 & H2)|(Em & H1 & H2)]].
  - rewrite (proj2 (Z.ltb_lt 0 imm)), (proj2 (Z.ltb_lt magic 0)) by lia. simpl. split.
    + eapply holds_eq; [by apply holds_add|]. f_equal. rewrite Em.
      replace (n * (M - 2 ^ w)) with (n * M + (- n) * 2 ^ w) by lia. rewrite Z.div_add by lia. lia.
    + intros y r v Hr H. by apply write_other.
  - rewrite (proj2 (Z.ltb_ge 0 imm)), (proj2 (Z.ltb_lt imm 0)), (proj2 (Z.ltb_lt 0 magic)) by lia. simpl. split.
    + eapply holds_eq; [by apply holds_sub|]. f_equal. rewrite Em, Z.div_1_r.
      replace (n * (M + 2 ^ w)) with (n * M + n * 2 ^ w) by lia. rewrite Z.div_add by lia. lia.
    + intros y r v Hr H. by apply write_other.
  - replace ((0 <? imm) && (magic <? 0)) with false by lia. replace ((imm <? 0) && (0 <? magic)) with false by lia.
    simpl. by rewrite <- Em.
Qed.
Lemma product_signed x M n : Z.abs M < 2 ^ bits x -> signed x n -> signed x (n * M / 2 ^ bits x).
Proof.
  intros HM Hn. unfold signed in *. pose proof (bits_range x). set (w := bits x) in *.
  assert (0 < 2 ^ w) by (apply Z.pow_pos_nonneg; lia). assert (0 < 2 ^ (w - 1)) by (apply Z.pow_pos_nonneg; lia).
  assert (Hb : - 2 ^ (w - 1) * 2 ^ w <= n * M < 2 ^ (w - 1) * 2 ^ w) by nia.
  split; [apply Z.div_le_lower_bound; lia | apply Z.div_lt_upper_bound; lia].
Qed.
Lemma shift_signed x v k : 0 <= k -> signed x v -> signed x (v / 2 ^ k).
Proof.
  intros Hk Hv. unfold signed in *. pose proof (bits_range x). assert (0 < 2 ^ (bits x - 1)) by (apply Z.pow_pos_nonneg; lia).
  assert (0 < 2 ^ k) by (apply Z.pow_pos_nonneg; lia).
  split; [apply Z.div_le_lower_bound; nia | apply Z.div_lt_upper_bound; nia].
Qed.
(** A signed word shifted by its width less one is its sign. *)
Lemma sign_shift x v : signed x v -> v / 2 ^ (bits x - 1) = if v <? 0 then -1 else 0.
Proof.
  intros Hv. unfold signed in Hv. set (m := 2 ^ (bits x - 1)) in *. destruct (Z.ltb_spec v 0).
  - symmetry. apply Z.div_unique with (v + m); lia.
  - apply Z.div_small. lia.
Qed.
Lemma shift_product x (temp : nat) M n p s :
  bits x <= p -> Z.abs M < 2 ^ bits x -> signed x n -> holds x temp (n * M / 2 ^ bits x) s ->
  let s' := run (if negb (p - bits x =? 0) then [Asr x temp temp (p - bits x)] else []) s in
  holds x temp (M * n / 2 ^ p) s' /\ signed x (M * n / 2 ^ p) /\ forall y r v, r <> temp -> holds y r v s -> holds y r v s'.
Proof.
  intros Hp HM Hn Ht. pose proof (bits_range x). pose proof (product_signed x M n HM Hn) as Hs.
  assert (E : M * n / 2 ^ p = n * M / 2 ^ bits x / 2 ^ (p - bits x)).
  { rewrite Z.div_div, <- Z.pow_add_r by (try apply Z.pow_nonzero; try apply Z.pow_pos_nonneg; lia). f_equal; [lia | f_equal; lia]. }
  rewrite E. split_and!.
  - destruct (Z.eqb_spec (p - bits x) 0) as [E0|E0]; simpl; [by rewrite E0, Z.div_1_r|]. apply holds_asr; [lia | done | done].
  - apply shift_signed; [lia | done].
  - intros y r v Hr Hh. destruct (negb _); simpl; [by apply write_other | done].
Qed.

(** ** The generated code

    What Java defines: the quotient is truncated, and the minimum divided by -1
    is the minimum. *)
Definition java_div_rem (x div : bool) (a b : Z) : Z :=
  if div then swrap (bits x) (Z.quot a b) else Z.rem a b.

Lemma run_code_app a b s : run (a ++ b) s = run b (run a s).
Proof. apply foldl_app. Qed.
Lemma sread_result x r v s : holds x r v s -> sread x r s = swrap (bits x) v.
Proof. intros Hh. pose proof (bits_range x). apply swrap_congr; [lia | done]. Qed.
Lemma rem_signed x n d : signed x n -> signed x (Z.rem n d).
Proof.
  intros Hn. destruct (decide (d = 0)) as [->|Hd]; [by rewrite Z.rem_0_r_ext|].
  assert (Z.abs (Z.rem n d) <= Z.abs n).
  { rewrite <- Z.rem_abs by done. apply Z.rem_le; [lia|]. lia. }
  pose proof (Z.rem_sign_mul n d Hd). unfold signed in *. nia.
Qed.
Lemma finish_code (x div : bool) (out dividend temp temp_imm : nat) imm n q t s :
  temp <> dividend -> temp_imm <> dividend -> temp_imm <> temp -> imm <> 0 -> signed x n -> signed x t ->
  holds x dividend n s -> holds x temp t s -> t - (if t <? 0 then -1 else 0) = q -> q = Z.quot n imm ->
  sread x out (run (if div then [Sub x out temp temp (bits x - 1)]
    else [Sub x temp temp temp (bits x - 1); Mov_imm x temp_imm imm; Msub x out temp temp_imm dividend]) s) =
  java_div_rem x div n imm.
Proof.
  intros N1 N2 N3 Hi Hn Ht Hd Hh Eq Hq. pose proof (bits_range x).
  assert (Hsub : forall rd, holds x rd q (exec (Sub x rd temp temp (bits x - 1)) s)).
  { intros rd. eapply holds_eq; [apply holds_sub; [lia | done | done | done]|]. by rewrite sign_shift, Eq. }
  destruct div; cbn [java_div_rem].
  - unfold run. simpl. by rewrite (sread_result x out q), Hq.
  - unfold run. cbn [foldl]. rewrite (sread_result x out (n - q * imm)); [|apply holds_msub].
    + rewrite <- (swrap_small (bits x) (Z.rem n imm)) by (lia || by apply rem_signed). f_equal.
      rewrite (Z.rem_eq n imm Hi), <- Hq. lia.
    + apply write_other; [done|]. apply Hsub.
    + by apply write_same.
    + apply write_other; [congruence|]. by apply write_other.
Qed.
Lemma any_constant_correct (x div : bool) (out dividend temp temp_imm : nat) imm :
  temp <> dividend -> temp_imm <> dividend -> temp_imm <> temp ->
  3 <= Z.abs imm < 2 ^ (bits x - 1) -> IsPowerOfTwo (Z.abs imm) = false ->
  exists code, GenerateDivRemWithAnyConstant x div out dividend temp temp_imm imm = Some code /\
    forall s, sread x out (run code s) = java_div_rem x div (sread x dividend s) imm.
Proof.
  intros N1 N2 N3 Hi Hp. pose proof (bits_range x) as Hw.
  destruct (CalculateMagic_done x imm Hi Hp) as (p & M & E & Hpr & HM & Hsgn & Hq).
  unfold GenerateDivRemWithAnyConstant. rewrite E. eexists. split; [reflexivity|]. intros s.
  pose proof (sread_signed x dividend s) as Hn. pose proof (holds_sread x dividend s) as Hd. set (n := sread x dividend s) in *.
  rewrite !run_code_app.
  destruct (high_product x temp dividend (swrap (bits x) M) n s N1) as [H1 F1]; [apply swrap_range; lia | done | done|].
  destruct (adjust_product x temp dividend imm M n _ N1 HM Hsgn Hn (F1 _ _ _ (not_eq_sym N1) Hd) H1) as [H2 F2].
  destruct (shift_product x temp M n p _ ltac:(lia) ltac:(lia) Hn H2) as (H3 & Hs3 & F3).
  apply (finish_code x div out dividend temp temp_imm imm n (Z.quot n imm) (M * n / 2 ^ p)); try done; [lia | auto | auto].
Qed.

Lemma quot_pow2 n k : 0 <= k -> (if n <? 0 then n + 2 ^ k - 1 else n) / 2 ^ k = Z.quot n (2 ^ k).
Proof.
  intros Hk. assert (0 < 2 ^ k) by (apply Z.pow_pos_nonneg; lia). set (m := 2 ^ k) in *. rewrite quot_abs by lia.
  rewrite (Z.abs_eq m), (Z.sgn_pos m) by lia. destruct (Z.ltb_spec n 0).
  - rewrite (Z.sgn_neg n), (Z.abs_neq n) by lia. pose proof (Z.div_mod (- n) m). pose proof (Z.mod_pos_bound (- n) m).
    symmetry. apply Z.div_unique with (m - 1 - (- n) mod m); lia.
  - destruct (decide (n = 0)) as [->|]; [by rewrite Z.div_0_l by lia|]. rewrite (Z.sgn_pos n), (Z.abs_eq n) by lia. lia.
Qed.
Lemma rem_pow2 n k : 0 <= k -> let c := if n <? 0 then 2 ^ k - 1 else 0 in (n + c) mod 2 ^ k - c = Z.rem n (2 ^ k).
Proof.
  intros Hk c. assert (0 < 2 ^ k) by (apply Z.pow_pos_nonneg; lia). rewrite Z.rem_eq, <- quot_pow2 by lia.
  unfold c. destruct (n <? 0); [|rewrite Z.mod_eq, Z.add_0_r by lia; lia].
  rewrite Z.mod_eq, Z.add_sub_assoc by lia. lia.
Qed.
Lemma abs_imm_eq imm : - 2 ^ 63 <= imm < 2 ^ 63 -> u64 (AbsOrMin imm) = Z.abs imm.
Proof.
  intros Hi. unfold AbsOrMin. destruct (Z.eqb_spec imm (- 2 ^ 63)) as [->|]; [done|]. apply wrap_small. unfold in_width. lia.
Qed.
Section PowerOfTwo.
Context (x : bool) (out dividend temp : nat) (k : Z).
Context (Hne : temp <> dividend) (Hno : temp <> out) (Hk : 1 <= k <= bits x - 1).

Lemma pow_range : 2 <= 2 ^ k <= 2 ^ (bits x - 1).
Proof using Hne Hno Hk. split; [change 2 with (2 ^ 1) at 1|]; apply Z.pow_le_mono_r; lia. Qed.
Lemma div_by_power imm s :
  Z.abs imm = 2 ^ k -> CTZ (Z.abs imm) = k -> - 2 ^ 63 <= imm < 2 ^ 63 ->
  sread x out (run (DivRemByPowerOfTwo x true out dividend temp imm) s) = swrap (bits x) (Z.quot (sread x dividend s) imm).
Proof using Hne Hno Hk.
  intros Ha Hc Hi. pose proof (bits_range x) as Hbw. pose proof pow_range as Hpr. unfold DivRemByPowerOfTwo. rewrite abs_imm_eq, Hc, Ha by done.
  assert (H63 : 2 ^ (bits x - 1) <= 2 ^ 63) by (apply Z.pow_le_mono_r; lia).
  rewrite (wrap_small 64 (2 ^ k - 1)) by (unfold in_width; lia).
  pose proof (sread_signed x dividend s) as Hn. pose proof (holds_sread x dividend s) as Hd. set (n := sread x dividend s) in *.
  set (v := if n <? 0 then n + 2 ^ k - 1 else n).
  assert (Hv : signed x v) by (unfold v, signed in *; destruct (Z.ltb_spec n 0); lia).
  unfold run. cbn [foldl]. set (s1 := exec (Add_imm _ _ _ _) s).
  assert (H1 : holds x temp (n + (2 ^ k - 1)) s1) by (by apply holds_add_imm).
  assert (H2 : holds x dividend n s1) by (apply write_other; [congruence | done]).
  set (s2 := exec (Cmp_imm _ _ _) s1). set (s3 := exec (Csel_lt _ _ _ _) s2).
  assert (H3 : holds x out v s3).
  { apply write_same. unfold s2, read. simpl. rewrite (sread_holds x dividend n s1 H2 Hn). unfold v.
    destruct (n <? 0); rewrite wrap_wrap; [|exact H2]. etransitivity; [exact H1|]. f_equal. lia. }
  replace (Z.quot n imm) with (if 0 <? imm then v / 2 ^ k else - (v / 2 ^ k)).
  - destruct (0 <? imm); apply sread_result; [apply holds_asr | apply holds_neg]; (done || lia).
  - unfold v. rewrite quot_pow2 by lia. destruct (Z.ltb_spec 0 imm).
    + f_equal. lia.
    + replace imm with (- 2 ^ k) by lia. rewrite Z.quot_opp_r by lia. done.
Qed.
Lemma rem_by_power imm s :
  Z.abs imm = 2 ^ k -> CTZ (Z.abs imm) = k -> - 2 ^ 63 <= imm < 2 ^ 63 ->
  sread x out (run (DivRemByPowerOfTwo x false out dividend temp imm) s) = Z.rem (sread x dividend s) imm.
Proof using Hne Hno Hk.
  intros Ha Hc Hi. pose proof (bits_range x) as Hbw. pose proof pow_range as Hpr. unfold DivRemByPowerOfTwo. rewrite abs_imm_eq, Hc, Ha by done.
  assert (H63 : 2 ^ (bits x - 1) <= 2 ^ 63) by (apply Z.pow_le_mono_r; lia).
  rewrite (wrap_small 64 (2 ^ k - 1)) by (unfold in_width; lia).
  pose proof (sread_signed x dividend s) as Hn. pose proof (holds_sread x dividend s) as Hd. set (n := sread x dividend s) in *.
  set (c := if n <? 0 then 2 ^ k - 1 else 0).
  assert (Hcs : signed x c) by (unfold c, signed; destruct (n <? 0); lia).
  unfold run. cbn [foldl]. set (s1 := exec (Asr _ _ _ _) s).
  assert (H1 : holds x temp (if n <? 0 then -1 else 0) s1).
  { rewrite <- (sign_shift x n Hn). apply holds_asr; [lia | done | done]. }
  assert (D1 : holds x dividend n s1) by (apply write_other; [congruence | done]).
  set (s2 := exec (Lsr _ _ _ _) s1).
  assert (H2 : holds x temp c s2).
  { eapply holds_eq; [apply holds_lsr; [lia | exact H1]|]. f_equal. unfold c. destruct (n <? 0).
    - assert (E : 2 ^ bits x = 2 ^ k * 2 ^ (bits x - k)) by (rewrite <- Z.pow_add_r by lia; f_equal; lia).
      assert (0 < 2 ^ (bits x - k)) by (apply Z.pow_pos_nonneg; lia).
      rewrite <- (wrap_add_mult _ (-1) 1), wrap_small by (unfold in_width; nia || lia).
      symmetry. apply Z.div_unique with (2 ^ (bits x - k) - 1); lia.
    - rewrite wrap_small by (unfold in_width; lia). apply Z.div_0_l. apply Z.pow_nonzero; lia. }
  assert (D2 : holds x dividend n s2) by (apply write_other; [congruence | done]).
  set (s3 := exec (Add _ _ _ _) s2). set (s4 := exec (And_imm _ _ _ _) s3).
  assert (H3 : holds x out (n + c) s3) by (by apply holds_add).
  assert (H4 : holds x out ((n + c) mod 2 ^ k) s4).
  { apply write_same. unfold read. rewrite H3. f_equal. replace (2 ^ k - 1) with (Z.ones k) by (rewrite Z.ones_equiv; lia).
    rewrite Z.land_ones by lia. unfold wrap. rewrite (Z.mod_mod_divide _ _ (2 ^ k)); [done|].
    exists (2 ^ (bits x - k)). rewrite <- Z.pow_add_r by lia. f_equal. lia. }
  assert (T4 : holds x temp c s4) by (apply write_other; [done|]; by apply write_other).
  rewrite (sread_result x out ((n + c) mod 2 ^ k - c)).
  - unfold c. rewrite rem_pow2 by lia. destruct (decide (0 < imm)).
    + replace imm with (2 ^ k) by lia. apply swrap_small; [lia|]. by apply rem_signed.
    + replace imm with (- 2 ^ k) by lia. rewrite Z.rem_opp_r by lia. apply swrap_small; [lia|]. by apply rem_signed.
  - eapply holds_eq; [by apply holds_sub|]. by rewrite Z.div_1_r.
Qed.
End PowerOfTwo.

(** Divisors 1 and -1, and a divisor in a register. *)
Lemma one_correct (x div : bool) (out dividend : nat) imm s :
  imm = 1 \/ imm = -1 ->
  sread x out (run (DivRemOneOrMinusOne x div out dividend imm) s) = java_div_rem x div (sread x dividend s) imm.
Proof.
  intros Hi. pose proof (bits_range x). pose proof (sread_signed x dividend s) as Hn.
  pose proof (holds_sread x dividend s) as Hd. set (n := sread x dividend s) in *. unfold DivRemOneOrMinusOne, java_div_rem.
  destruct div; cbn [negb].
  - destruct Hi as [->| ->]; cbn [Z.eqb]; unfold run; cbn [foldl].
    + rewrite Z.quot_1_r. apply sread_result, write_same. unfold read. by rewrite wrap_wrap.
    + replace (Z.quot n (-1)) with (- (n / 2 ^ 0)) by (change (-1) with (Z.opp 1); rewrite Z.quot_opp_r, Z.quot_1_r, Z.div_1_r by lia; done).
      apply sread_result. by apply holds_neg.
  - replace (Z.rem n imm) with 0 by (destruct Hi as [->| ->]; [by rewrite Z.rem_1_r | change (-1) with (Z.opp 1); by rewrite Z.rem_opp_r, Z.rem_1_r by lia]).
    unfold run. cbn [foldl]. rewrite (sread_result x out 0) by (by apply write_same). apply swrap_small; [lia|].
    assert (0 < 2 ^ (bits x - 1)) by (apply Z.pow_pos_nonneg; lia). lia.
Qed.
Lemma register_correct (x div : bool) (out dividend temp divisor : nat) s :
  temp <> dividend -> temp <> divisor -> sread x divisor s <> 0 ->
  sread x out (run (if div then [Sdiv x out dividend divisor]
    else [Sdiv x temp dividend divisor; Msub x out temp divisor dividend]) s) =
  java_div_rem x div (sread x dividend s) (sread x divisor s).
Proof.
  intros N1 N2 Hz. pose proof (bits_range x) as Hw. set (n := sread x dividend s). set (d := sread x divisor s) in *.
  assert (Hr : read x divisor s =? 0 = false).
  { apply Z.eqb_neq. intros E. apply Hz. unfold d, sread. rewrite (swrap_congr _ _ 0); [|lia | exact E].
    apply swrap_small; [lia|]. assert (0 < 2 ^ (bits x - 1)) by (apply Z.pow_pos_nonneg; lia). lia. }
  assert (Hq : forall rd, holds x rd (Z.quot n d) (exec (Sdiv x rd dividend divisor) s)).
  { intros rd. apply write_same. by rewrite Hr. }
  destruct div; unfold run; cbn [foldl]; unfold java_div_rem.
  - by apply sread_result.
  - rewrite (sread_result x out (n - Z.quot n d * d)).
    + rewrite <- (swrap_small (bits x) (Z.rem n d)) by (lia || apply rem_signed, sread_signed). f_equal. rewrite Z.rem_eq by done. lia.
    + apply holds_msub; [done | apply write_other; [congruence | apply holds_sread]..].
Qed.
Lemma constant_correct (x div : bool) (out dividend temp temp_imm : nat) imm :
  temp <> dividend -> temp <> out -> temp_imm <> dividend -> temp_imm <> temp ->
  imm <> 0 -> signed x imm ->
  exists code, GenerateDivRemIntegral x div out dividend temp temp_imm (Constant imm) = Some code /\
    forall s, sread x out (run code s) = java_div_rem x div (sread x dividend s) imm.
Proof.
  intros N1 N2 N3 N4 Hz Hi. pose proof (bits_range x) as Hw. unfold signed in Hi.
  assert (2 ^ (bits x - 1) <= 2 ^ 63) by (apply Z.pow_le_mono_r; lia).
  unfold GenerateDivRemIntegral. rewrite (proj2 (Z.eqb_neq imm 0) Hz), abs_imm_eq by lia.
  destruct ((imm =? 1) || (imm =? -1)) eqn:E1.
  - eexists. split; [done|]. intros s. apply one_correct. lia.
  - destruct (IsPowerOfTwo (Z.abs imm)) eqn:Ep.
    + destruct (is_power (Z.abs imm) ltac:(lia) Ep) as [Hk E]. set (k := CTZ (Z.abs imm)) in *.
      assert (Hkr : 1 <= k <= bits x - 1).
      { split.
        - destruct (decide (k = 0)) as [Ek|]; [rewrite Ek in E; lia | lia].
        - apply (Z.pow_le_mono_r_iff 2); lia. }
      eexists. split; [done|]. intros s. destruct div; cbn [java_div_rem].
      * apply (div_by_power x out dividend temp k); try done; lia.
      * apply (rem_by_power x out dividend temp k); try done; lia.
    + apply any_constant_correct; try done.
      assert (Z.abs imm <> 2) by (intros E2; rewrite E2 in Ep; done).
      assert (Z.abs imm <> 2 ^ (bits x - 1)) by (intros E2; rewrite E2, IsPowerOfTwo_pow in Ep by lia; done). lia.
Qed.
End DivRem.

(** C11: integer division and remainder are compiled correctly. For every
    divisor other than zero, constant or in a register, the instructions that
    [GenerateDivRemIntegral] emits (a move or a negation for 1 and -1, shifts for
    powers of two, a multiplication by a magic number for other constants) leave
    Java's quotient or remainder in the output register, for every dividend and
    all 32-bit and 64-bit types, also when the output register is the one of the
    dividend; in particular the search for the magic number ends. *)
Theorem div_rem_correct (x div : bool) (out dividend temp temp_imm : nat) (second : DivRem.operand) s :
  temp <> dividend -> temp <> out -> temp_imm <> dividend -> temp_imm <> temp ->
  let divisor := match second with DivRem.Constant imm => imm | DivRem.Register r => DivRem.sread x r s end in
  match second with DivRem.Constant imm => DivRem.signed x imm | DivRem.Register r => temp <> r end ->
  divisor <> 0 ->
  exists code, DivRem.GenerateDivRemIntegral x div out dividend temp temp_imm second = Some code /\
    DivRem.sread x out (DivRem.run code s) = DivRem.java_div_rem x div (DivRem.sread x dividend s) divisor.
Proof.
  intros N1 N2 N3 N4 divisor Hs Hz. destruct second as [imm|r]; simpl in *.
  - destruct (DivRem.constant_correct x div out dividend temp temp_imm imm) as (code & E & Hc); try done. eauto.
  - eexists. split; [done|]. by apply DivRem.register_correct.
Qed.
(** -100 / 7 in 32 bits, with the quotient in the register of the dividend. *)
Lemma div_rem_correct_witness :
  exists code, DivRem.GenerateDivRemIntegral false true 0 0 1 2 (DivRem.Constant 7) = Some code /\
    DivRem.sread false 0 (DivRem.run code (DivRem.mkMachine (fun _ => 0xffffffff00000000 + 2 ^ 32 - 100) false)) = -14.
Proof.
  destruct (div_rem_correct false true 0 0 1 2 (DivRem.Constant 7)
    (DivRem.mkMachine (fun _ => 0xffffffff00000000 + 2 ^ 32 - 100) false)) as (code & E & H).
  - discriminate.
  - discriminate.
  - discriminate.
  - discriminate.
  - vm_compute. split; congruence.
  - discriminate.
  - exists code. split; [exact E|]. rewrite H. vm_compute. reflexivity.
Defined.
