(* ===== verification/ParallelMove.v ===== *)
(** Parallel moves on ARM64 (compiler/optimizing/parallel_move_resolver.cc,
    code_generator_arm64.cc): the moves that the register allocator wants to
    happen at once are turned into a sequence of moves, with scratch locations
    where they form cycles ([ParallelMoveResolverNoSwap]).

    Locations are those of ARM64 (register pairs belong to 32-bit targets).  The
    code that is emitted is the list of its moves, which act on a store with one
    value for each location. *)
From stdpp Require Import prelude list.
From Stdlib Require Import ZArith Lia.
From S2P Require Import Prelude.
Open Scope Z_scope.

Module ParallelMove.

(** ** Locations and moves (locations.h, nodes.h) *)
Inductive Location :=
| NoLocation
| ConstantLocation (c : Z)
| StackSlot (index : Z)
| DoubleStackSlot (index : Z)
| RegisterLocation (reg : Z)
| FpuRegisterLocation (reg : Z).
#[export] Instance Location_eq_dec : EqDecision Location.
Proof. solve_decision. Defined.
Inductive Kind := kInvalid | kConstant | kStackSlot | kDoubleStackSlot | kRegister | kFpuRegister.
#[export] Instance Kind_eq_dec : EqDecision Kind.
Proof. solve_decision. Defined.

Definition GetKind (l : Location) : Kind :=
  match l with
  | NoLocation => kInvalid
  | ConstantLocation _ => kConstant
  | StackSlot _ => kStackSlot
  | DoubleStackSlot _ => kDoubleStackSlot
  | RegisterLocation _ => kRegister
  | FpuRegisterLocation _ => kFpuRegister
  end.
Definition Equals (a b : Location) : bool := bool_decide (a = b).
Definition IsInvalid (l : Location) : bool := Equals l NoLocation.
Definition IsConstant (l : Location) : bool := bool_decide (GetKind l = kConstant).
Definition is_stack (l : Location) : bool := bool_decide (GetKind l = kStackSlot) || bool_decide (GetKind l = kDoubleStackSlot).
Definition Contains (a b : Location) : bool :=
  Equals a b || match a with
                | DoubleStackSlot i => Equals (StackSlot i) b || Equals (StackSlot (i + 4)) b
                | _ => false
                end.
Definition OverlapsWith (a b : Location) : bool := Contains a b || Contains b a.

Record MoveOperands := mkMove { source_ : Location; destination_ : Location }.
Definition IsEliminated (m : MoveOperands) : bool := IsInvalid (source_ m).
Definition IsPending (m : MoveOperands) : bool := IsInvalid (destination_ m) && negb (IsInvalid (source_ m)).
Definition Blocks (m : MoveOperands) (loc : Location) : bool := negb (IsEliminated m) && OverlapsWith (source_ m) loc.
Definition IsRedundant (m : MoveOperands) : bool :=
  IsEliminated m || IsInvalid (destination_ m) || Equals (source_ m) (destination_ m).

(** ** The resolver

    [temps_x] and [temps_d] are the registers that VIXL has left to acquire;
    [code] is what was emitted, the last move first. *)
Record resolver := mkResolver {
  moves_ : list MoveOperands;
  pending_moves_ : list MoveOperands;
  scratches_ : list Location;
  temps_x : list Z;
  temps_d : list Z;
  code : list MoveOperands
}.
Definition with_moves (f : list MoveOperands -> list MoveOperands) (s : resolver) : resolver :=
  mkResolver (f (moves_ s)) (pending_moves_ s) (scratches_ s) (temps_x s) (temps_d s) (code s).
Definition with_pending (f : list MoveOperands -> list MoveOperands) (s : resolver) : resolver :=
  mkResolver (moves_ s) (f (pending_moves_ s)) (scratches_ s) (temps_x s) (temps_d s) (code s).

Definition set_move (index : nat) (m : MoveOperands) : resolver -> resolver := with_moves (fun l => <[index := m]> l).
Definition SetDestination (index : nat) (d : Location) : resolver -> resolver :=
  with_moves (alter (fun m => mkMove (source_ m) d) index).
Definition Eliminate (index : nat) : resolver -> resolver := set_move index (mkMove NoLocation NoLocation).
Definition EmitMove (index : nat) (s : resolver) : resolver :=
  match moves_ s !! index with
  | Some m => mkResolver (moves_ s) (pending_moves_ s) (scratches_ s) (temps_x s) (temps_d s) (m :: code s)
  | None => s
  end.

Definition IsBlockedByMoves (loc : Location) (s : resolver) : bool :=
  existsb (fun m => Blocks m loc) (pending_moves_ s) || existsb (fun m => Blocks m loc) (moves_ s).
Definition UpdateMoveSource (from to : Location) : resolver -> resolver :=
  with_moves (fmap (fun m => if Equals (source_ m) from then mkMove to (destination_ m) else m)).
Definition AddPendingMove (source destination : Location) : resolver -> resolver :=
  with_pending (fun l => l ++ [mkMove source destination]).

(** *** Scratch locations *)
Definition GetScratchLocation (kind : Kind) (s : resolver) : Location :=
  let free l := bool_decide (GetKind l = kind) && negb (IsBlockedByMoves l s) in
  match list_find (fun l => free l = true) (scratches_ s) with
  | Some (_, l) => l
  | None =>
      match list_find (fun m => free (destination_ m) = true) (moves_ s) with
      | Some (_, m) => destination_ m
      | None => NoLocation
      end
  end.
Definition AddScratchLocation (l : Location) (s : resolver) : resolver :=
  mkResolver (moves_ s) (pending_moves_ s) (scratches_ s ++ [l]) (temps_x s) (temps_d s) (code s).
Fixpoint remove_location (l : Location) (ls : list Location) : list Location :=
  match ls with
  | [] => []
  | x :: ls => if Equals l x then ls else x :: remove_location l ls
  end.
Definition RemoveScratchLocation (l : Location) (s : resolver) : resolver :=
  mkResolver (moves_ s) (pending_moves_ s) (remove_location l (scratches_ s)) (temps_x s) (temps_d s) (code s).
(** [vixl_temps_.AcquireX()], [vixl_temps_.AcquireD()]: [None] when there is none left. *)
Definition Acquire (kind : Kind) (s : resolver) : option (Location * resolver) :=
  match kind, temps_x s, temps_d s with
  | kRegister, r :: rs, ds =>
      Some (RegisterLocation r, mkResolver (moves_ s) (pending_moves_ s) (scratches_ s) rs ds (code s))
  | kFpuRegister, rs, d :: ds =>
      Some (FpuRegisterLocation d, mkResolver (moves_ s) (pending_moves_ s) (scratches_ s) rs ds (code s))
  | _, _, _ => None
  end.
Definition AllocateScratchLocationFor (kind : Kind) (s : resolver) : option (Location * resolver) :=
  let kind := if bool_decide (kind = kFpuRegister) then kFpuRegister else kRegister in
  let scratch := GetScratchLocation kind s in
  if negb (IsInvalid scratch) then Some (scratch, s)
  else
    '(scratch, s) ← Acquire kind s;
    Some (scratch, AddScratchLocation scratch s).
Definition FreeScratchLocation (loc : Location) (s : resolver) : resolver :=
  RemoveScratchLocation loc
    match loc with
    | RegisterLocation r => mkResolver (moves_ s) (pending_moves_ s) (scratches_ s) (r :: temps_x s) (temps_d s) (code s)
    | FpuRegisterLocation d => mkResolver (moves_ s) (pending_moves_ s) (scratches_ s) (temps_x s) (d :: temps_d s) (code s)
    | _ => s
    end.

(** *** [PerformMove] *)
Fixpoint GetUnblockedPendingMove (loc : Location) (s : resolver) (pending : list MoveOperands) : option MoveOperands :=
  match pending with
  | [] => None
  | m :: pending =>
      if OverlapsWith (destination_ m) loc && negb (IsBlockedByMoves (destination_ m) s) then Some m
      else GetUnblockedPendingMove loc s pending
  end.
Fixpoint remove_move (m : MoveOperands) (l : list MoveOperands) : list MoveOperands :=
  match l with
  | [] => []
  | x :: l => if Equals (source_ m) (source_ x) && Equals (destination_ m) (destination_ x) then l else x :: remove_move m l
  end.
Definition DeletePendingMove (m : MoveOperands) : resolver -> resolver := with_pending (remove_move m).
(** for (size_t i = 0; i < scratches_.size(); ++i), where the list may shrink;
    [fuel] is its size at the start. *)
Fixpoint free_scratches (fuel i : nat) (pending_source : Location) (s : resolver) : resolver :=
  match fuel with
  | O => s
  | S fuel =>
      match scratches_ s !! i with
      | Some scratch =>
          free_scratches fuel (S i) pending_source
            (if OverlapsWith scratch pending_source && negb (IsBlockedByMoves scratch s)
             then FreeScratchLocation pending_source s else s)
      | None => s
      end
  end.
(** Every round deletes a pending move. *)
Fixpoint perform_pending (fuel : nat) (index : nat) (source : Location) (s : resolver) : option resolver :=
  match fuel with
  | O => None
  | S fuel =>
      match GetUnblockedPendingMove source s (pending_moves_ s) with
      | Some pending_move =>
          let s := DeletePendingMove pending_move s in
          let s := set_move index pending_move s in
          let s := EmitMove index s in
          let s := Eliminate index s in
          let s := UpdateMoveSource (source_ pending_move) (destination_ pending_move) s in
          let s := free_scratches (length (scratches_ s)) 0 (source_ pending_move) s in
          perform_pending fuel index source s
      | None => Some s
      end
  end.
(** The moves that block [destination] are performed first. *)
Fixpoint perform_blocking (perform : nat -> resolver -> option resolver) (destination : Location) (idx : list nat)
    (s : resolver) : option resolver :=
  match idx with
  | [] => Some s
  | i :: idx =>
      other_move ← moves_ s !! i;
      s ← (if Blocks other_move destination && negb (IsPending other_move) then perform i s else Some s);
      perform_blocking perform destination idx s
  end.
(** The end of [PerformMove], when only moves that are marked as pending can
    still block the destination. *)
Definition resolve_move (index : nat) (destination : Location) (s : resolver) : option resolver :=
  let s := SetDestination index destination s in
  move ← moves_ s !! index;
  let source := source_ move in
  s ← (if IsBlockedByMoves destination s then
         '(scratch, s) ← AllocateScratchLocationFor (GetKind source) s;
         let s := SetDestination index scratch s in
         let s := EmitMove index s in
         let s := Eliminate index s in
         let s := UpdateMoveSource source scratch s in
         Some (AddPendingMove scratch destination s)
       else
         let s := EmitMove index s in
         let s := Eliminate index s in
         Some (UpdateMoveSource source destination s));
  perform_pending (S (length (pending_moves_ s))) index source s.
(** Every call marks a move as pending, so that [fuel] above the number of moves
    is enough. *)
Fixpoint PerformMove (fuel : nat) (index : nat) (s : resolver) : option resolver :=
  match fuel with
  | O => None
  | S fuel =>
      move ← moves_ s !! index;
      if IsRedundant move then Some (Eliminate index s)
      else
        let destination := destination_ move in
        let s := SetDestination index NoLocation s in
        s ← perform_blocking (PerformMove fuel) destination (seq 0 (length (moves_ s))) s;
        resolve_move index destination s
  end.

(** *** [EmitNativeCode] *)
Definition BuildInitialMoveList (parallel_move : list MoveOperands) : list MoveOperands :=
  filter (fun m => IsRedundant m = false) parallel_move.
Fixpoint for_moves (body : nat -> MoveOperands -> resolver -> option resolver) (idx : list nat) (s : resolver) : option resolver :=
  match idx with
  | [] => Some s
  | i :: idx =>
      m ← moves_ s !! i;
      s ← body i m s;
      for_moves body idx s
  end.
Definition perform_body (i : nat) (m : MoveOperands) (s : resolver) : option resolver :=
  if negb (IsEliminated m) && negb (IsConstant (source_ m)) then PerformMove (S (length (moves_ s))) i s else Some s.
Definition constant_body (i : nat) (m : MoveOperands) (s : resolver) : option resolver :=
  if negb (IsEliminated m) && negb (is_stack (destination_ m)) then
    let s := EmitMove i s in
    let s := Eliminate i s in
    Some (UpdateMoveSource (source_ m) (destination_ m) s)
  else Some s.
Definition rest_body (i : nat) (m : MoveOperands) (s : resolver) : option resolver :=
  if negb (IsEliminated m) then Some (Eliminate i (EmitMove i s)) else Some s.
Definition EmitNativeCode (xs ds : list Z) (parallel_move : list MoveOperands) : option resolver :=
  let s := mkResolver (BuildInitialMoveList parallel_move) [] [] xs ds [] in
  let idx := seq 0 (length (moves_ s)) in
  s ← for_moves perform_body idx s;
  s ← for_moves constant_body idx s;
  for_moves rest_body idx s.

(** ** What the code does *)
Definition store := Location -> Z.
Definition value (st : store) (l : Location) : Z := match l with ConstantLocation c => c | _ => st l end.
Definition exec_move (st : store) (m : MoveOperands) : store :=
  fun l => if Equals l (destination_ m) then value st (source_ m) else st l.
(** The emitted moves, oldest first. *)
Definition run_code (s : resolver) (st : store) : store := foldr (fun m st => exec_move st m) st (code s).

(** ** Invariant

    [ms] are the moves to perform, none of them redundant; [xs] and [ds] are the
    registers that VIXL has. *)
Section Resolve.
Context (ms : list MoveOperands) (xs ds : list Z).

Definition temp (l : Location) : Prop :=
  (exists r, r ∈ xs /\ l = RegisterLocation r) \/ (exists d, d ∈ ds /\ l = FpuRegisterLocation d).
Definition is_dst (l : Location) : Prop := exists m, m ∈ ms /\ destination_ m = l.
Definition is_src (l : Location) : Prop := exists m, m ∈ ms /\ source_ m = l.
Definition used (l : Location) : Prop := is_src l \/ is_dst l \/ temp l.
Definition writable (l : Location) : Prop := used l /\ IsConstant l = false.

Record resolvable : Prop := {
  rs_src : forall m, m ∈ ms -> source_ m <> NoLocation;
  rs_dst : forall m, m ∈ ms -> destination_ m <> NoLocation /\ IsConstant (destination_ m) = false;
  rs_nodup : NoDup (destination_ <$> ms);
  rs_overlap : forall l l', used l -> used l' -> OverlapsWith l l' = true -> l = l';
  rs_temp : forall l, temp l -> ~ is_src l /\ ~ is_dst l;
  rs_temps : xs <> [] /\ ds <> []
}.
Context (Hrs : resolvable).

Definition gone : MoveOperands := mkMove NoLocation NoLocation.
#[local] Instance MoveOperands_eq_dec : EqDecision MoveOperands.
Proof. solve_decision. Defined.

(** [stk] are the moves that are marked as pending.  A move that is left has a
    source with the value its original source had at the start; so have the
    pending moves; the destinations of the other moves have their final values;
    and no other location has changed. *)
Record good (stk : list nat) (s : resolver) : Prop := {
  g_len : length (moves_ s) = length ms;
  g_live : forall i m, moves_ s !! i = Some m -> m <> gone ->
    exists o, ms !! i = Some o /\ used (source_ m) /\
      destination_ m = (if decide (i ∈ stk) then NoLocation else destination_ o) /\
      forall st, value (run_code s st) (source_ m) = value st (source_ o);
  g_stk : forall i, i ∈ stk -> exists m, moves_ s !! i = Some m /\ m <> gone;
  g_pend : forall p, p ∈ pending_moves_ s -> exists i o, ms !! i = Some o /\ moves_ s !! i = Some gone /\
    destination_ p = destination_ o /\ writable (source_ p) /\ forall st, value (run_code s st) (source_ p) = value st (source_ o);
  g_done : forall i o, ms !! i = Some o -> moves_ s !! i = Some gone ->
    (forall p, p ∈ pending_moves_ s -> destination_ p <> destination_ o) ->
    forall st, run_code s st (destination_ o) = value st (source_ o);
  g_else : forall l st, ~ is_dst l -> ~ temp l -> run_code s st l = st l
}.

Lemma Equals_true a b : Equals a b = true <-> a = b.
Proof. apply bool_decide_eq_true. Qed.
Lemma Equals_false a b : Equals a b = false <-> a <> b.
Proof. apply bool_decide_eq_false. Qed.
Lemma Equals_refl a : Equals a a = true.
Proof. by apply Equals_true. Qed.
Lemma temp_writable l : temp l -> writable l.
Proof using Type. intros H. split; [by right; right|]. by destruct H as [(r & _ & ->)|(d & _ & ->)]. Qed.
Lemma dst_writable i o : ms !! i = Some o -> writable (destination_ o).
Proof using Hrs.
  intros Ho. apply list_elem_of_lookup_2 in Ho. split; [right; left; by exists o | by apply (rs_dst Hrs)].
Qed.
Lemma used_valid l : used l -> l <> NoLocation.
Proof using Hrs.
  intros [(m & Hm & <-)|[(m & Hm & <-)|[(r & _ & ->)|(d & _ & ->)]]]; [by apply (rs_src Hrs) | by apply (rs_dst Hrs) | done | done].
Qed.
Lemma dst_inj i j o o' : ms !! i = Some o -> ms !! j = Some o' -> destination_ o = destination_ o' -> i = j.
Proof using Hrs.
  intros Hi Hj E. eapply NoDup_lookup; [apply (rs_nodup Hrs) | rewrite list_lookup_fmap, Hi; done | rewrite list_lookup_fmap, Hj; simpl; by rewrite E].
Qed.
Lemma overlaps_used l l' : used l -> used l' -> OverlapsWith l l' = Equals l l'.
Proof using Hrs.
  intros Hl Hl'. destruct (OverlapsWith l l') eqn:E.
  - symmetry. apply Equals_true. by apply (rs_overlap Hrs).
  - symmetry. apply Equals_false. intros ->. unfold OverlapsWith, Contains in E. by rewrite Equals_refl in E.
Qed.
Lemma value_other st m l : l <> destination_ m -> value (exec_move st m) l = value st l.
Proof using Type. intros Hl. destruct l; simpl; try done; unfold exec_move; by rewrite (proj2 (Equals_false _ _) Hl). Qed.
Lemma value_dst st m : IsConstant (destination_ m) = false -> value (exec_move st m) (destination_ m) = value st (source_ m).
Proof using Type.
  intros Hc. destruct m as [a w]; simpl in *. destruct w; try done; simpl; unfold exec_move; simpl; by rewrite Equals_refl.
Qed.
Lemma value_nonconst st l : IsConstant l = false -> value st l = st l.
Proof using Type. by destruct l. Qed.

(** What [Eliminate] followed by [UpdateMoveSource] does to the moves. *)
Definition redirect (from to : Location) (m : MoveOperands) : MoveOperands :=
  if Equals (source_ m) from then mkMove to (destination_ m) else m.
Lemma redirect_gone from to : from <> NoLocation -> redirect from to gone = gone.
Proof using Type. intros H. unfold redirect. simpl. rewrite (proj2 (Equals_false _ _)); [done | congruence]. Qed.
Lemma redirect_live from to m : to <> NoLocation -> m <> gone -> source_ m <> NoLocation -> redirect from to m <> gone.
Proof using Type.
  intros Ht Hm Hs. unfold redirect. destruct (Equals _ _); [intros [= E _]; done | done].
Qed.
Lemma redirect_lookup (l : list MoveOperands) (x : nat) from to (i : nat) m :
  from <> NoLocation -> (redirect from to <$> <[x := gone]> l) !! i = Some m ->
  i = x /\ m = gone \/ i <> x /\ exists m0, l !! i = Some m0 /\ m = redirect from to m0.
Proof using Type.
  intros Hf E. rewrite list_lookup_fmap in E. destruct (decide (i = x)) as [->|Hne].
  - left. split; [done|]. destruct (decide (x < length l)%nat).
    + rewrite list_lookup_insert_eq in E by done. simpl in E. injection E as <-. by apply redirect_gone.
    + rewrite list_insert_ge, lookup_ge_None_2 in E by lia. done.
  - right. split; [done|]. rewrite list_lookup_insert_ne in E by done. destruct (l !! i) as [m0|]; [|done].
    injection E as <-. by exists m0.
Qed.
Lemma redirect_lookup_ne (l : list MoveOperands) (x : nat) from to (i : nat) m :
  i <> x -> l !! i = Some m -> (redirect from to <$> <[x := gone]> l) !! i = Some (redirect from to m).
Proof using Type. intros Hne E. by rewrite list_lookup_fmap, list_lookup_insert_ne, E by done. Qed.
Lemma redirect_lookup_eq (l : list MoveOperands) (x : nat) from to m :
  from <> NoLocation -> l !! x = Some m -> (redirect from to <$> <[x := gone]> l) !! x = Some gone.
Proof using Type.
  intros Hf E. rewrite list_lookup_fmap, list_lookup_insert_eq by (by apply lookup_lt_Some in E). simpl. f_equal. by apply redirect_gone.
Qed.

Lemma live_source stk s i m : good stk s -> moves_ s !! i = Some m -> m <> gone -> used (source_ m) /\ source_ m <> NoLocation.
Proof using Hrs.
  intros Hg Hm Hl. destruct (g_live _ _ Hg i m Hm Hl) as (o & _ & Hu & _). split; [done | by apply used_valid].
Qed.

(** An update of sources that read the location that was copied. *)
Definition updates (from to : Location) (f : MoveOperands -> MoveOperands) : Prop :=
  f gone = gone /\ forall m, f m = m \/ source_ m = from /\ f m = mkMove to (destination_ m).
Lemma redirect_updates from to : from <> NoLocation -> updates from to (redirect from to).
Proof using Type.
  intros Hf. split; [by apply redirect_gone|]. intros m. unfold redirect. destruct (Equals (source_ m) from) eqn:E; [|by left].
  right. split; [by apply Equals_true | done].
Qed.
Lemma update_lookup (l : list MoveOperands) (x : nat) f (i : nat) m :
  f gone = gone -> (f <$> <[x := gone]> l) !! i = Some m ->
  i = x /\ m = gone \/ i <> x /\ exists m0, l !! i = Some m0 /\ m = f m0.
Proof using Type.
  intros Hf E. rewrite list_lookup_fmap in E. destruct (decide (i = x)) as [->|Hne].
  - left. split; [done|]. destruct (decide (x < length l)%nat).
    + rewrite list_lookup_insert_eq in E by done. simpl in E. injection E as <-. done.
    + rewrite list_insert_ge, lookup_ge_None_2 in E by lia. done.
  - right. split; [done|]. rewrite list_lookup_insert_ne in E by done. destruct (l !! i) as [m0|]; [|done].
    injection E as <-. by exists m0.
Qed.
Lemma update_live from to f m : updates from to f -> to <> NoLocation -> m <> gone -> f m <> gone.
Proof using Type. intros [_ Hf] Ht Hm. destruct (Hf m) as [->|[_ ->]]; [done|]. by intros [= E _]. Qed.

(** Writing a location that is no source of a move left: the move [x] goes to
    its destination, or to a scratch location from which a pending move leads to
    its destination. *)
Lemma good_emit stk s x m o w f pend scr tx td :
  updates (source_ m) w f ->
  good stk s -> moves_ s !! x = Some m -> m <> gone -> x ∉ stk -> ms !! x = Some o -> writable w ->
  (forall j mj, moves_ s !! j = Some mj -> mj <> gone -> source_ mj <> w) ->
  (forall p, p ∈ pending_moves_ s -> source_ p <> w) ->
  (w = destination_ o /\ pend = pending_moves_ s \/
   pend = pending_moves_ s ++ [mkMove w (destination_ o)] /\
   (temp w \/ exists j mj oj, moves_ s !! j = Some mj /\ mj <> gone /\ ms !! j = Some oj /\ w = destination_ oj)) ->
  good stk (mkResolver (f <$> <[x := gone]> (moves_ s)) pend scr tx td (mkMove (source_ m) w :: code s)).
Proof using Hrs.
  intros Hupd Hg Hm Hl Hx Ho [Hwu Hwc] Hfree Hpfree Hw. destruct (live_source _ _ _ _ Hg Hm Hl) as [Hu Hv].
  destruct (g_live _ _ Hg x m Hm Hl) as (o' & Ho' & _ & _ & Hval). rewrite Ho in Ho'. injection Ho' as <-.
  pose proof (used_valid w Hwu) as Hwv.
  assert (Hrun : forall scr' tx' td' mv' pd' st, run_code (mkResolver mv' pd' scr' tx' td' (mkMove (source_ m) w :: code s)) st =
    exec_move (run_code s st) (mkMove (source_ m) w)) by done.
  assert (Hw' : forall st, value (exec_move (run_code s st) (mkMove (source_ m) w)) w = value st (source_ o)).
  { intros st. rewrite <- Hval. exact (value_dst _ (mkMove (source_ m) w) Hwc). }
  pose proof Hupd as [Hfg Hf].
  assert (Hkeep : forall i, i <> x -> moves_ s !! i = Some gone -> (f <$> <[x := gone]> (moves_ s)) !! i = Some gone).
  { intros i Hne E. rewrite list_lookup_fmap, list_lookup_insert_ne, E by done. simpl. by rewrite Hfg. }
  assert (Hback : forall i m0, (f <$> <[x := gone]> (moves_ s)) !! i = Some gone -> i <> x ->
    moves_ s !! i = Some m0 -> m0 = gone).
  { intros i m0 E Hne E0. rewrite list_lookup_fmap, list_lookup_insert_ne, E0 in E by done. injection E as E.
    destruct (decide (m0 = gone)) as [|Hn]; [done|]. by destruct (update_live _ _ f m0 Hupd Hwv Hn). }
  split; simpl.
  - by rewrite length_fmap, length_insert, (g_len _ _ Hg).
  - intros i mi Hi Hli. apply update_lookup in Hi as [[_ ->]|(Hne & m0 & H0 & ->)]; [done | | done].
    assert (Hl0 : m0 <> gone) by (intros ->; by rewrite Hfg in Hli).
    destruct (g_live _ _ Hg i m0 H0 Hl0) as (oi & Hoi & Hui & Hdi & Hvi). exists oi. split; [done|].
    destruct (Hf m0) as [->|[E ->]]; simpl.
    + split_and!; [done | done|]. intros st. rewrite Hrun, value_other; [done|]. simpl. by apply (Hfree i).
    + split_and!; [done | done|]. intros st. rewrite Hrun, Hw', <- Hvi, E, Hval. done.
  - intros i Hi. destruct (g_stk _ _ Hg i Hi) as (m0 & H0 & Hl0). assert (Hne : i <> x) by (intros ->; done).
    eexists. split; [by rewrite list_lookup_fmap, list_lookup_insert_ne, H0 by done|]. by eapply update_live.
  - intros p Hp. assert (Hcase : p ∈ pending_moves_ s \/ p = mkMove w (destination_ o)).
    { destruct Hw as [[_ ->]|[-> _]]; [by left|]. apply elem_of_app in Hp as [|Hp]; [by left|]. right. by apply list_elem_of_singleton in Hp. }
    destruct Hcase as [Hold| ->].
    + destruct (g_pend _ _ Hg p Hold) as (i & oi & Hoi & Hgi & Hdi & Hwi & Hvi).
      assert (Hne : i <> x) by (intros ->; rewrite Hm in Hgi; congruence). exists i, oi.
      split_and!; [done | by apply Hkeep | done | done |].
      * intros st. rewrite Hrun, value_other; [done|]. simpl. by apply Hpfree.
    + exists x, o. split_and!; [done | | done | done |].
      { rewrite list_lookup_fmap, list_lookup_insert_eq by (by eapply lookup_lt_Some). simpl. by rewrite Hfg. }
      intros st. by rewrite Hrun.
  - intros i oi Hoi Hgi Hnp st. rewrite Hrun. destruct (decide (i = x)) as [->|Hne].
    + rewrite Ho in Hoi. injection Hoi as <-. destruct Hw as [[-> _]|[-> _]].
      * rewrite <- (value_nonconst _ (destination_ o)) by (by eapply dst_writable). apply Hw'.
      * exfalso. apply (Hnp (mkMove w (destination_ o))); [|done]. apply elem_of_app. right. by apply list_elem_of_singleton.
    + assert (Hgi0 : moves_ s !! i = Some gone).
      { destruct (moves_ s !! i) as [m0|] eqn:E0; [f_equal; by eapply Hback|].
        apply lookup_ge_None in E0. apply lookup_lt_Some in Hgi. rewrite length_fmap, length_insert in Hgi. lia. }
      assert (Hdw : destination_ oi <> w).
      { destruct Hw as [[-> _]|[_ [Ht|(j & mj & oj & Hj & Hlj & Hoj & ->)]]].
        - intros E. apply Hne. by eapply dst_inj.
        - intros E. apply (rs_temp Hrs w Ht). exists oi. split; [by eapply list_elem_of_lookup_2 | done].
        - intros E. assert (i = j) by (by eapply dst_inj). subst j. rewrite Hgi0 in Hj. congruence. }
      unfold exec_move. simpl. rewrite (proj2 (Equals_false _ _) Hdw). apply (g_done _ _ Hg i); [done | done|].
      intros p Hp. apply Hnp. destruct Hw as [[_ ->]|[-> _]]; [done|]. apply elem_of_app. by left.
  - intros l st Hd Ht. rewrite Hrun. unfold exec_move. simpl. rewrite (proj2 (Equals_false _ _)); [by apply (g_else _ _ Hg)|].
    intros ->. destruct Hw as [[-> _]|[_ [Htw|(j & mj & oj & _ & _ & Hoj & ->)]]]; [|done|].
    + apply Hd. exists o. split; [by eapply list_elem_of_lookup_2 | done].
    + apply Hd. exists oj. split; [by eapply list_elem_of_lookup_2 | done].
Qed.

(** Performing the pending move. *)
Lemma good_pending stk s x p scr tx td :
  good stk s -> moves_ s !! x = Some gone -> pending_moves_ s = [p] ->
  (forall j mj, moves_ s !! j = Some mj -> mj <> gone -> source_ mj <> destination_ p) ->
  good stk (mkResolver (redirect (source_ p) (destination_ p) <$> <[x := gone]> (moves_ s)) [] scr tx td (p :: code s)).
Proof using Hrs.
  intros Hg Hx Hp Hfree. destruct (g_pend _ _ Hg p) as (k & ok & Hok & Hgk & Hdk & [Hpu Hpc] & Hval); [rewrite Hp; by constructor|].
  pose proof (dst_writable k ok Hok) as [Hwu Hwc]. rewrite <- Hdk in Hwu, Hwc.
  pose proof (used_valid _ Hwu) as Hwv. pose proof (used_valid _ Hpu) as Hpv.
  rewrite list_insert_id by done.
  assert (Hrun : forall mv' st, run_code (mkResolver mv' [] scr tx td (p :: code s)) st = exec_move (run_code s st) p) by done.
  assert (Hw' : forall st, value (exec_move (run_code s st) p) (destination_ p) = value st (source_ ok)).
  { intros st. rewrite <- Hval. by apply value_dst. }
  assert (Hlk : forall i m, (redirect (source_ p) (destination_ p) <$> moves_ s) !! i = Some m ->
    exists m0, moves_ s !! i = Some m0 /\ m = redirect (source_ p) (destination_ p) m0).
  { intros i m E. rewrite list_lookup_fmap in E. destruct (moves_ s !! i) as [m0|]; [|done]. injection E as <-. by exists m0. }
  split; simpl.
  - by rewrite length_fmap, (g_len _ _ Hg).
  - intros i mi Hi Hli. apply Hlk in Hi as (m0 & H0 & ->).
    assert (Hl0 : m0 <> gone) by (intros ->; by rewrite redirect_gone in Hli).
    destruct (g_live _ _ Hg i m0 H0 Hl0) as (oi & Hoi & Hui & Hdi & Hvi). exists oi. split; [done|]. unfold redirect.
    destruct (Equals (source_ m0) (source_ p)) eqn:E; simpl.
    + apply Equals_true in E. split_and!; [done | done|]. intros st. rewrite Hrun, Hw', <- Hvi, E, Hval. done.
    + split_and!; [done | done|]. intros st. rewrite Hrun, value_other; [done|]. by apply (Hfree i).
  - intros i Hi. destruct (g_stk _ _ Hg i Hi) as (m0 & H0 & Hl0). eexists.
    split; [by rewrite list_lookup_fmap, H0|]. destruct (live_source _ _ _ _ Hg H0 Hl0). by apply redirect_live.
  - intros q Hq. by apply elem_of_nil in Hq.
  - intros i oi Hoi Hgi _ st. rewrite Hrun. apply Hlk in Hgi as (m0 & H0 & E0).
    assert (m0 = gone) as ->.
    { destruct (decide (m0 = gone)) as [|Hn]; [done|]. destruct (live_source _ _ _ _ Hg H0 Hn) as [_ Hs].
      by destruct (redirect_live (source_ p) (destination_ p) m0 Hwv Hn Hs). }
    destruct (decide (destination_ oi = destination_ p)) as [E|E].
    + assert (i = k) as -> by (eapply dst_inj; [done | done | congruence]). rewrite Hok in Hoi. injection Hoi as <-.
      rewrite E, <- (value_nonconst _ (destination_ p)) by done. apply Hw'.
    + unfold exec_move. rewrite (proj2 (Equals_false _ _) E). apply (g_done _ _ Hg i); [done | done|].
      intros q Hq. rewrite Hp in Hq. apply list_elem_of_singleton in Hq as ->. congruence.
  - intros l st Hd Ht. rewrite Hrun. unfold exec_move. rewrite (proj2 (Equals_false _ _)); [by apply (g_else _ _ Hg)|].
    intros ->. apply Hd. exists ok. split; [by eapply list_elem_of_lookup_2 | done].
Qed.

(** Marking a move as pending, and the reverse. *)
Lemma good_mark stk s x m :
  good stk s -> moves_ s !! x = Some m -> m <> gone -> x ∉ stk -> good (x :: stk) (SetDestination x NoLocation s).
Proof using Hrs.
  intros Hg Hm Hl Hx. destruct (live_source _ _ _ _ Hg Hm Hl) as [_ Hv].
  assert (Hlk : forall i, i <> x -> moves_ (SetDestination x NoLocation s) !! i = moves_ s !! i)
    by (intros i Hi; simpl; by apply list_lookup_alter_ne).
  assert (Hxx : moves_ (SetDestination x NoLocation s) !! x = Some (mkMove (source_ m) NoLocation))
    by (simpl; by rewrite list_lookup_alter_eq, Hm).
  assert (Hgone : forall i, moves_ (SetDestination x NoLocation s) !! i = Some gone -> moves_ s !! i = Some gone).
  { intros i Hi. destruct (decide (i = x)) as [->|Hne]; [rewrite Hxx in Hi; injection Hi as E; congruence | by rewrite <- Hlk]. }
  split.
  - simpl. by rewrite length_alter, (g_len _ _ Hg).
  - intros i mi Hi Hli. destruct (decide (i = x)) as [->|Hne].
    + rewrite Hxx in Hi. injection Hi as <-. destruct (g_live _ _ Hg x m Hm Hl) as (o & Ho & Hu & _ & Hval). exists o.
      split_and!; [done | done | by rewrite decide_True by (by left) | done].
    + rewrite Hlk in Hi by done. destruct (g_live _ _ Hg i mi Hi Hli) as (o & Ho & Hu & Hd & Hval). exists o.
      split_and!; [done | done | | done]. rewrite Hd. destruct (decide (i ∈ stk)) as [Hin|Hin].
      * by rewrite decide_True by (by right).
      * rewrite decide_False; [done|]. intros [->|]%elem_of_cons; done.
  - intros i [->|Hi]%elem_of_cons.
    + eexists. split; [exact Hxx|]. intros [= E]. done.
    + destruct (g_stk _ _ Hg i Hi) as (mi & Hmi & Hli). exists mi. rewrite Hlk by (intros ->; done). done.
  - intros p Hp. destruct (g_pend _ _ Hg p Hp) as (i & oi & Hoi & Hgi & Hrest). exists i, oi.
    rewrite Hlk by (intros ->; congruence). done.
  - intros i oi Hoi Hgi Hnp st. by apply (g_done _ _ Hg i oi Hoi (Hgone i Hgi)).
  - exact (g_else _ _ Hg).
Qed.
Lemma good_unmark stk s x o :
  good (x :: stk) s -> x ∉ stk -> ms !! x = Some o -> good stk (SetDestination x (destination_ o) s).
Proof using Hrs.
  intros Hg Hx Ho. destruct (g_stk _ _ Hg x) as (m & Hm & Hl); [by left|]. destruct (live_source _ _ _ _ Hg Hm Hl) as [_ Hv].
  assert (Hlk : forall i, i <> x -> moves_ (SetDestination x (destination_ o) s) !! i = moves_ s !! i)
    by (intros i Hi; simpl; by apply list_lookup_alter_ne).
  assert (Hxx : moves_ (SetDestination x (destination_ o) s) !! x = Some (mkMove (source_ m) (destination_ o)))
    by (simpl; by rewrite list_lookup_alter_eq, Hm).
  assert (Hgone : forall i, moves_ (SetDestination x (destination_ o) s) !! i = Some gone -> moves_ s !! i = Some gone).
  { intros i Hi. destruct (decide (i = x)) as [->|Hne]; [rewrite Hxx in Hi; injection Hi as E; congruence | by rewrite <- Hlk]. }
  split.
  - simpl. by rewrite length_alter, (g_len _ _ Hg).
  - intros i mi Hi Hli. destruct (decide (i = x)) as [->|Hne].
    + rewrite Hxx in Hi. injection Hi as <-. destruct (g_live _ _ Hg x m Hm Hl) as (o' & Ho' & Hu & _ & Hval).
      rewrite Ho in Ho'. injection Ho' as <-. exists o. split_and!; [done | done | by rewrite decide_False | done].
    + rewrite Hlk in Hi by done. destruct (g_live _ _ Hg i mi Hi Hli) as (oi & Hoi & Hu & Hd & Hval). exists oi.
      split_and!; [done | done | | done]. rewrite Hd. destruct (decide (i ∈ stk)) as [Hin|Hin].
      * by rewrite decide_True by (by right).
      * rewrite decide_False; [done|]. intros [->|]%elem_of_cons; done.
  - intros i Hi. destruct (g_stk _ _ Hg i) as (mi & Hmi & Hli); [by right|]. exists mi. rewrite Hlk by (intros ->; done). done.
  - intros p Hp. destruct (g_pend _ _ Hg p Hp) as (i & oi & Hoi & Hgi & Hrest). exists i, oi.
    rewrite Hlk by (intros ->; congruence). done.
  - intros i oi Hoi Hgi Hnp st. by apply (g_done _ _ Hg i oi Hoi (Hgone i Hgi)).
  - exact (g_else _ _ Hg).
Qed.

(** ** The moves that are marked as pending

    form a chain: every one but the first reads the destination of the one
    before it.  The first of [stk] is the one that was marked last. *)
Definition src (s : resolver) (i : nat) : option Location := source_ <$> moves_ s !! i.
Definition dst (i : nat) : option Location := destination_ <$> ms !! i.
Fixpoint chain (s : resolver) (stk : list nat) : Prop :=
  match stk with
  | a :: (b :: _) as r => src s a = dst b /\ chain s r
  | _ => True
  end.
Definition no_blocker (s : resolver) (l : Location) : Prop :=
  forall i m, moves_ s !! i = Some m -> m <> gone -> source_ m <> l.

(** No pending move; or one for a cycle through the first move of the chain. *)
Definition idle (s : resolver) : Prop :=
  pending_moves_ s = [] /\ scratches_ s = [] /\ temps_x s = xs /\ temps_d s = ds /\
  forall i m, moves_ s !! i = Some m -> m <> gone -> ~ temp (source_ m).
Definition acquired (L : Location) (s : resolver) : Prop :=
  (exists r, L = RegisterLocation r /\ xs = r :: temps_x s /\ temps_d s = ds) \/
  (exists d, L = FpuRegisterLocation d /\ temps_x s = xs /\ ds = d :: temps_d s).
Definition busy (stk : list nat) (s : resolver) : Prop :=
  exists L A b, last stk = Some b /\ pending_moves_ s = [mkMove L A] /\ src s b = Some A /\ L <> A /\
    (forall j, j ∈ stk -> dst j <> Some L) /\
    (forall i m, moves_ s !! i = Some m -> m <> gone -> temp (source_ m) -> source_ m = L) /\
    (scratches_ s = [] /\ temps_x s = xs /\ temps_d s = ds \/ scratches_ s = [L] /\ acquired L s).
Definition phase (stk : list nat) (s : resolver) : Prop :=
  idle s \/ busy stk s /\ forall c l, head stk = Some c -> dst c = Some l -> no_blocker s l.

(** No move comes to read the destination of a move that is marked, or a
    constant, or another location instead of a constant. *)
Record evolves (stk : list nat) (s s' : resolver) : Prop := {
  ev_gone : forall i, moves_ s !! i = Some gone -> moves_ s' !! i = Some gone;
  ev_const : forall i m', moves_ s' !! i = Some m' -> m' <> gone ->
    exists m, moves_ s !! i = Some m /\ m <> gone /\ IsConstant (source_ m') = IsConstant (source_ m);
  ev_src : forall j i m l, j ∈ stk -> dst j = Some l -> moves_ s' !! i = Some m -> m <> gone -> source_ m = l -> src s i = Some l
}.
Lemma evolves_refl stk s : evolves stk s s.
Proof using Type. split; [done | eauto|]. intros j i m l _ _ Hm _ <-. unfold src. by rewrite Hm. Qed.
Lemma dst_used j l : dst j = Some l -> writable l /\ l <> NoLocation.
Proof using Hrs.
  intros E. unfold dst in E. destruct (ms !! j) as [o|] eqn:Eo; [|done]. injection E as <-.
  pose proof (dst_writable j o Eo) as H. split; [done | by apply used_valid, H].
Qed.
Lemma evolves_trans stk s1 s2 s3 : evolves stk s1 s2 -> evolves stk s2 s3 -> evolves stk s1 s3.
Proof using Hrs.
  intros [G1 C1 S1] [G2 C2 S2]. split; [auto | |].
  { intros i m' Hm' Hn'. destruct (C2 i m' Hm' Hn') as (m2 & Hm2 & Hn2 & ->). by apply C1. }
  intros j i m l Hj Hd Hm Hl E. specialize (S2 j i m l Hj Hd Hm Hl E).
  unfold src in S2. destruct (moves_ s2 !! i) as [m2|] eqn:E2; [|done]. injection S2 as S2.
  eapply S1; [done | done | done | | done]. intros ->. simpl in S2. by destruct (dst_used j l Hd).
Qed.
Lemma dst_eq i j l : dst i = Some l -> dst j = Some l -> i = j.
Proof using Hrs.
  intros Ei Ej. unfold dst in *. destruct (ms !! i) eqn:Oi, (ms !! j) eqn:Oj; try done. eapply dst_inj; [done | done|]. simpl in *. congruence.
Qed.

(** Blocking, in terms of equality. *)
Lemma Blocks_live stk s i m l : good stk s -> moves_ s !! i = Some m -> used l -> Blocks m l = true <-> m <> gone /\ source_ m = l.
Proof using Hrs.
  intros Hg Hm Hl. unfold Blocks, IsEliminated. destruct (decide (m = gone)) as [->|Hne]; [simpl; naive_solver|].
  destruct (live_source _ _ _ _ Hg Hm Hne) as [Hu Hv]. unfold IsInvalid. rewrite (proj2 (Equals_false _ _) Hv). simpl.
  rewrite overlaps_used by done. rewrite Equals_true. naive_solver.
Qed.
Lemma existsb_false_iff {A} (f : A -> bool) l : existsb f l = false <-> forall a, a ∈ l -> f a = false.
Proof using Type.
  induction l as [|a l IH]; simpl; [split; [intros _ a Ha; by apply elem_of_nil in Ha | done]|].
  rewrite orb_false_iff, IH. split.
  - intros [Ha Hl] b [->|Hb]%elem_of_cons; auto.
  - intros H. split; [apply H; by left | intros b Hb; apply H; by right].
Qed.
Lemma IsBlocked_false stk s l :
  good stk s -> used l ->
  IsBlockedByMoves l s = false <-> (forall p, p ∈ pending_moves_ s -> source_ p <> l) /\ no_blocker s l.
Proof using Hrs.
  intros Hg Hl. unfold IsBlockedByMoves. rewrite orb_false_iff, !existsb_false_iff. split; intros [H1 H2]; split.
  - intros p Hp E. specialize (H1 p Hp). destruct (g_pend _ _ Hg p Hp) as (_ & _ & _ & _ & _ & [Hu _] & _).
    pose proof (used_valid _ Hu) as Hv. unfold Blocks, IsEliminated, IsInvalid in H1. rewrite (proj2 (Equals_false _ _) Hv) in H1.
    simpl in H1. rewrite overlaps_used, E, Equals_refl in H1 by done. done.
  - intros i m Hm Hn E. specialize (H2 m (list_elem_of_lookup_2 _ _ _ Hm)).
    by rewrite (proj2 (Blocks_live _ _ _ _ _ Hg Hm Hl) (conj Hn E)) in H2.
  - intros p Hp. specialize (H1 p Hp). destruct (g_pend _ _ Hg p Hp) as (_ & _ & _ & _ & _ & [Hu _] & _).
    unfold Blocks. rewrite overlaps_used, (proj2 (Equals_false _ _) H1) by done. apply andb_false_r.
  - intros m Hm. apply list_elem_of_lookup_1 in Hm as (i & Hm). destruct (Blocks m l) eqn:E; [|done].
    apply (Blocks_live _ _ _ _ _ Hg Hm Hl) in E as [Hn E]. by destruct (H2 i m Hm Hn).
Qed.
Lemma IsPending_live stk s i m : good stk s -> moves_ s !! i = Some m -> m <> gone -> IsPending m = bool_decide (i ∈ stk).
Proof using Hrs.
  intros Hg Hm Hn. destruct (live_source _ _ _ _ Hg Hm Hn) as [_ Hv]. destruct (g_live _ _ Hg i m Hm Hn) as (o & Ho & _ & Hd & _).
  unfold IsPending, IsInvalid. rewrite (proj2 (Equals_false _ _) Hv), Hd, andb_true_r. destruct (decide (i ∈ stk)).
  - by rewrite bool_decide_eq_true_2.
  - rewrite bool_decide_eq_false_2 by done. apply Equals_false. by apply used_valid, (dst_writable i).
Qed.

(** *** Effect of [UpdateMoveSource] on the chain *)
Lemma src_redirect s s' x from to i :
  moves_ s' = redirect from to <$> <[x := gone]> (moves_ s) -> i <> x ->
  src s' i = (fun l => if Equals l from then to else l) <$> src s i.
Proof using Type.
  intros E Hi. unfold src. rewrite E, list_lookup_fmap, list_lookup_insert_ne by done.
  destruct (moves_ s !! i) as [m|]; [|done]. simpl. unfold redirect. by destruct (Equals _ _).
Qed.
Lemma chain_redirect s s' stk x from to :
  moves_ s' = redirect from to <$> <[x := gone]> (moves_ s) -> x ∉ stk ->
  (forall b, b ∈ tail stk -> dst b <> Some from) -> chain s stk -> chain s' stk.
Proof using Type.
  intros E Hx Hf. induction stk as [|a [|b r] IH]; [done | done|]. intros [Hab Hc]. split.
  - rewrite (src_redirect _ _ _ _ _ _ E) by (intros ->; apply Hx; by left). rewrite Hab.
    assert (Hb : dst b <> Some from) by (apply Hf; by left). destruct (dst b) as [l|]; [|done]. simpl.
    rewrite (proj2 (Equals_false l from)); [done | congruence].
  - apply IH; [intros H; apply Hx; by right | | done]. intros b' Hb'. apply Hf. by right.
Qed.
Lemma evolves_redirect stk s s' x from to m :
  moves_ s' = redirect from to <$> <[x := gone]> (moves_ s) -> moves_ s !! x = Some m -> from <> NoLocation ->
  IsConstant from = false -> IsConstant to = false -> (forall j, j ∈ stk -> dst j <> Some to) -> evolves stk s s'.
Proof using Type.
  intros E Hx Hf Hcf Hct Hto. split.
  - intros i Hi. rewrite E. destruct (decide (i = x)) as [->|Hne]; [by eapply redirect_lookup_eq|].
    rewrite (redirect_lookup_ne _ _ _ _ _ _ Hne Hi). f_equal. by apply redirect_gone.
  - intros i m' Hi Hn. rewrite E in Hi. apply redirect_lookup in Hi as [[_ ->]|(Hne & m0 & H0 & ->)]; [done | | done].
    exists m0. split; [done|]. split; [intros ->; by rewrite redirect_gone in Hn|]. unfold redirect.
    destruct (Equals (source_ m0) from) eqn:Eq; [|done]. apply Equals_true in Eq. simpl. congruence.
  - intros j i mi l Hj Hd Hi Hn Hl. rewrite E in Hi. apply redirect_lookup in Hi as [[_ ->]|(Hne & m0 & H0 & ->)]; [done | | done].
    unfold src. rewrite H0. simpl. f_equal. unfold redirect in Hl. destruct (Equals _ _); [|done]. simpl in Hl. subst l. by destruct (Hto j Hj).
Qed.
(** After it, nothing reads the old source. *)
Lemma no_blocker_redirect s s' x from to :
  moves_ s' = redirect from to <$> <[x := gone]> (moves_ s) -> from <> NoLocation -> to <> from -> no_blocker s' from.
Proof using Type.
  intros E Hf Ht i m Hi Hn. rewrite E in Hi. apply redirect_lookup in Hi as [[_ ->]|(Hne & m0 & H0 & ->)]; [done | | done].
  unfold redirect. destruct (Equals (source_ m0) from) eqn:Eq; [done|]. by apply Equals_false.
Qed.
(** The sources that are scratch registers. *)
Lemma temps_redirect s s' x from to (L : Location) :
  moves_ s' = redirect from to <$> <[x := gone]> (moves_ s) -> from <> NoLocation -> (temp to -> to = L) ->
  (forall i m, moves_ s !! i = Some m -> m <> gone -> temp (source_ m) -> source_ m = L) ->
  forall i m, moves_ s' !! i = Some m -> m <> gone -> temp (source_ m) -> source_ m = L.
Proof using Type.
  intros E Hf Ht H i m Hi Hn Hm. rewrite E in Hi. apply redirect_lookup in Hi as [[_ ->]|(Hne & m0 & H0 & ->)]; [done | | done].
  assert (m0 <> gone) by (intros ->; by rewrite redirect_gone in Hn).
  unfold redirect in *. destruct (Equals (source_ m0) from); simpl in *; eauto.
Qed.
Lemma idle_redirect s s' x from to :
  moves_ s' = redirect from to <$> <[x := gone]> (moves_ s) -> from <> NoLocation -> ~ temp to ->
  pending_moves_ s' = [] -> scratches_ s' = [] -> temps_x s' = xs -> temps_d s' = ds ->
  (forall i m, moves_ s !! i = Some m -> m <> gone -> ~ temp (source_ m)) -> idle s'.
Proof using Type.
  intros E Hf Ht E1 E2 E3 E4 H. split_and!; try done. intros i m Hi Hn Hm.
  rewrite E in Hi. apply redirect_lookup in Hi as [[_ ->]|(Hne & m0 & H0 & ->)]; [done | | done].
  assert (m0 <> gone) by (intros ->; by rewrite redirect_gone in Hn).
  unfold redirect in Hm. destruct (Equals (source_ m0) from); simpl in *; [done|]. by eapply H.
Qed.
Lemma dst_not_temp j l : dst j = Some l -> ~ temp l.
Proof using Hrs.
  intros E Ht. apply (rs_temp Hrs l Ht). unfold dst in E. destruct (ms !! j) as [o|] eqn:Eo; [|done]. injection E as <-.
  exists o. split; [by eapply list_elem_of_lookup_2 | done].
Qed.
(** The destination of a pending move is not the one of a move that is left. *)
Lemma pending_dst stk s p i m l :
  good stk s -> p ∈ pending_moves_ s -> moves_ s !! i = Some m -> m <> gone -> dst i = Some l -> destination_ p <> l.
Proof using Hrs.
  intros Hg Hp Hm Hn Hd E. destruct (g_pend _ _ Hg p Hp) as (k & ok & Hok & Hgk & Hdk & _).
  assert (i = k) as -> by (eapply dst_eq; [done|]; unfold dst; rewrite Hok; simpl; congruence). congruence.
Qed.

(** *** The pending moves *)
Lemma perform_pending_S fuel x source s :
  perform_pending (S fuel) x source s =
  match GetUnblockedPendingMove source s (pending_moves_ s) with
  | Some p =>
      let s := UpdateMoveSource (source_ p) (destination_ p) (Eliminate x (EmitMove x (set_move x p (DeletePendingMove p s)))) in
      perform_pending fuel x source (free_scratches (length (scratches_ s)) 0 (source_ p) s)
  | None => Some s
  end.
Proof using Type. done. Qed.
Lemma perform_pending_none stk fuel x source s :
  good stk s -> used source -> (forall p, p ∈ pending_moves_ s -> destination_ p <> source) ->
  perform_pending (S fuel) x source s = Some s.
Proof using Hrs.
  intros Hg Hu Hp. simpl. replace (GetUnblockedPendingMove source s (pending_moves_ s)) with (@None MoveOperands); [done|].
  assert (Hd : forall p, p ∈ pending_moves_ s -> used (destination_ p)).
  { intros p H. destruct (g_pend _ _ Hg p H) as (i & o & Ho & _ & -> & _). by eapply dst_writable. }
  induction (pending_moves_ s) as [|p l IH]; [done|]. simpl.
  rewrite overlaps_used, (proj2 (Equals_false _ _)); [|apply Hp; by left | apply Hd; by left | done].
  simpl. apply IH; intros q Hq; [apply Hp | apply Hd]; by right.
Qed.
(** The registers are given back. *)
Lemma free_scratches_done stk s L :
  good stk s -> used L -> no_blocker s L -> pending_moves_ s = [] ->
  (scratches_ s = [] /\ temps_x s = xs /\ temps_d s = ds \/ scratches_ s = [L] /\ acquired L s) ->
  exists scr tx td, free_scratches (length (scratches_ s)) 0 L s = mkResolver (moves_ s) [] scr tx td (code s) /\
    scr = [] /\ tx = xs /\ td = ds.
Proof using Hrs.
  intros Hg Hu Hnb Hp [(Hs & Hx & Hd)|[Hs Ha]]; rewrite Hs; simpl.
  - eexists _, _, _. split; [|done]. destruct s; simpl in *. by subst.
  - rewrite Hs. simpl. rewrite overlaps_used, Equals_refl by done.
    assert (Hb : IsBlockedByMoves L s = false).
    { eapply IsBlocked_false; [done | done|]. split; [|done]. rewrite Hp. intros p H. by apply elem_of_nil in H. }
    rewrite Hb. simpl. unfold FreeScratchLocation, RemoveScratchLocation.
    destruct Ha as [(r & -> & E1 & E2)|(r & -> & E1 & E2)]; simpl; rewrite Hs, Hp; simpl; rewrite Equals_refl;
      eexists _, _, _; (split; [reflexivity | done]).
Qed.
Lemma perform_pending_one s x L A :
  good [] s -> moves_ s !! x = Some gone -> pending_moves_ s = [mkMove L A] -> no_blocker s A -> L <> A ->
  (forall i m, moves_ s !! i = Some m -> m <> gone -> temp (source_ m) -> source_ m = L) ->
  (scratches_ s = [] /\ temps_x s = xs /\ temps_d s = ds \/ scratches_ s = [L] /\ acquired L s) ->
  exists s', perform_pending 2 x A s = Some s' /\ good [] s' /\ idle s' /\
    moves_ s' = redirect L A <$> <[x := gone]> (moves_ s).
Proof using Hrs.
  intros Hg Hx Hp Hnb HLA Ht Hscr. destruct (g_pend _ _ Hg (mkMove L A)) as (k & ok & Hok & Hgk & Hdk & [HLu HLc] & _); [rewrite Hp; by left|].
  simpl in Hdk. pose proof (dst_writable k ok Hok) as [HAu _]. rewrite <- Hdk in HAu. pose proof (used_valid L HLu) as HLv.
  assert (Hb : IsBlockedByMoves A s = false).
  { eapply IsBlocked_false; [done | done|]. split; [|done]. rewrite Hp. intros p H. apply list_elem_of_singleton in H as ->. done. }
  set (s5 := mkResolver (redirect L A <$> <[x := gone]> (moves_ s)) [] (scratches_ s) (temps_x s) (temps_d s) (mkMove L A :: code s)).
  assert (Hg5 : good [] s5) by (by apply (good_pending [] s x (mkMove L A))).
  assert (Hnb5 : no_blocker s5 L) by (eapply (no_blocker_redirect s s5 x L A); done).
  destruct (free_scratches_done [] s5 L Hg5 HLu Hnb5 eq_refl) as (scr & tx & td & E & -> & -> & ->); [done|].
  set (s6 := mkResolver (moves_ s5) [] [] xs ds (code s5)) in *.
  assert (Hg6 : good [] s6) by (by apply (good_pending [] s x (mkMove L A))).
  exists s6. split_and!; [|done | |done].
  - rewrite (perform_pending_S 1), Hp. cbn [GetUnblockedPendingMove destination_]. rewrite overlaps_used, Equals_refl, Hb by done.
    cbn [negb andb]. cbv zeta. replace (UpdateMoveSource _ _ _) with s5.
    + cbn [source_]. rewrite E. eapply (perform_pending_none []); [exact Hg6 | done|]. intros p H. by apply elem_of_nil in H.
    + unfold DeletePendingMove, set_move, EmitMove, Eliminate, UpdateMoveSource, with_moves, with_pending. simpl. rewrite Hp.
      cbn [remove_move source_ destination_]. rewrite !Equals_refl. cbn [andb]. apply lookup_lt_Some in Hx as Hlt.
      rewrite list_lookup_insert_eq by done. simpl. unfold s5, set_move, with_moves. simpl. by rewrite list_insert_insert_eq.
  - assert (HtA : ~ temp A) by (apply (dst_not_temp k); unfold dst; rewrite Hok; simpl; congruence).
    split_and!; try done. intros i m Hm Hn Htm. apply (Hnb5 i m Hm Hn).
    by apply (temps_redirect s s6 x L A L) with i.
Qed.

(** *** Scratch locations: a destination that nothing reads, or a register *)
Definition scratch_ok (stk : list nat) (s : resolver) (L : Location) (scr : list Location) (tx td : list Z) : Prop :=
  temp L /\ scr = [L] /\ acquired L (mkResolver [] [] scr tx td []) \/
  (exists j mj oj, moves_ s !! j = Some mj /\ mj <> gone /\ ms !! j = Some oj /\ L = destination_ oj /\ j ∉ stk) /\
  scr = [] /\ tx = xs /\ td = ds.
Lemma get_scratch_found stk s kind L :
  good stk s -> idle s -> kind = kRegister \/ kind = kFpuRegister -> GetScratchLocation kind s = L -> L <> NoLocation ->
  writable L /\ no_blocker s L /\ scratch_ok stk s L [] xs ds.
Proof using Hrs.
  intros Hg (Hp & Hs & _) Hk HL Hv. unfold GetScratchLocation in HL. rewrite Hs in HL. cbn [list_find] in HL.
  destruct (list_find _ (moves_ s)) as [[j mj]|] eqn:E; [|done].
  apply list_find_Some in E as (Hj & Hfree & _). subst L. apply andb_true_iff in Hfree as [_ Hb%negb_true_iff].
  assert (Hn : mj <> gone) by (by intros ->). destruct (g_live _ _ Hg j mj Hj Hn) as (oj & Hoj & _ & Hd & _).
  destruct (decide (j ∈ stk)) as [|Hjs]; [by rewrite Hd in Hv|]. rewrite Hd in *.
  pose proof (dst_writable j oj Hoj) as [Hu Hc]. split; [done|].
  apply (IsBlocked_false _ _ _ Hg Hu) in Hb as [_ Hb]. split; [done|]. right. split; [|done]. by exists j, mj, oj.
Qed.
Lemma acquire_done stk s kind :
  good stk s -> idle s -> kind = kRegister \/ kind = kFpuRegister ->
  exists L tx td, Acquire kind s = Some (L, mkResolver (moves_ s) (pending_moves_ s) (scratches_ s) tx td (code s)) /\
    writable L /\ no_blocker s L /\ scratch_ok stk s L [L] tx td.
Proof using Hrs.
  intros Hg (Hp & Hs & Hx & Hd & Ht) Hk. destruct (rs_temps Hrs) as [Nx Nd]. unfold Acquire.
  destruct Hk as [->| ->].
  - assert (exists r rs, xs = r :: rs) as (r & rs & E) by (destruct xs; [done | eauto]).
    rewrite E in Hx. rewrite Hx. eexists _, _, _. split; [reflexivity|].
    assert (HL : temp (RegisterLocation r)) by (left; exists r; split; [rewrite E; constructor | done]).
    split_and!; [by apply temp_writable | intros i m Hm Hn Em; apply (Ht i m Hm Hn); by rewrite Em |].
    left. split_and!; [done | done|]. left. exists r. simpl. by rewrite E.
  - assert (exists r rs, ds = r :: rs) as (r & rs & E) by (destruct ds; [done | eauto]).
    rewrite E in Hd. rewrite Hd. eexists _, _, _. split; [reflexivity|].
    assert (HL : temp (FpuRegisterLocation r)) by (right; exists r; split; [rewrite E; constructor | done]).
    split_and!; [by apply temp_writable | intros i m Hm Hn Em; apply (Ht i m Hm Hn); by rewrite Em |].
    left. split_and!; [done | done|]. right. exists r. simpl. by rewrite E.
Qed.
Lemma allocate_done stk s kind :
  good stk s -> idle s ->
  exists L scr tx td, AllocateScratchLocationFor kind s = Some (L, mkResolver (moves_ s) [] scr tx td (code s)) /\
    writable L /\ no_blocker s L /\ scratch_ok stk s L scr tx td.
Proof using Hrs.
  intros Hg Hi. pose proof Hi as (Hp & Hs & Hx & Hd & Ht). unfold AllocateScratchLocationFor.
  set (k := if bool_decide (kind = kFpuRegister) then kFpuRegister else kRegister).
  assert (Hk : k = kRegister \/ k = kFpuRegister) by (unfold k; destruct (bool_decide _); auto).
  destruct (IsInvalid (GetScratchLocation k s)) eqn:E; cbn [negb].
  - destruct (acquire_done stk s k Hg Hi Hk) as (L & tx & td & -> & H1 & H2 & H3). cbn.
    unfold AddScratchLocation. simpl. rewrite Hp, Hs. eexists _, _, _, _. split; [reflexivity|]. done.
  - apply Equals_false in E. destruct (get_scratch_found stk s k _ Hg Hi Hk eq_refl E) as (H1 & H2 & H3).
    exists (GetScratchLocation k s), [], xs, ds. split_and!; [|done..]. f_equal. f_equal. destruct s; simpl in *. by subst.
Qed.

(** *** The end of [PerformMove] *)
Lemma insert_alter (l : list MoveOperands) (x : nat) f g : <[x := g]> (alter f x l) = <[x := g]> l.
Proof using Type.
  apply list_eq. intros i. destruct (decide (i = x)) as [->|Hne].
  - destruct (decide (x < length l)%nat).
    + by rewrite !list_lookup_insert_eq by (by rewrite ?length_alter).
    + by rewrite !list_insert_ge, list_lookup_alter_eq, lookup_ge_None_2 by (rewrite ?length_alter; lia).
  - by rewrite !list_lookup_insert_ne, list_lookup_alter_ne by done.
Qed.
Lemma src_SetDestination x d s i : src (SetDestination x d s) i = src s i.
Proof using Type.
  unfold src. simpl. destruct (decide (i = x)) as [->|Hne]; [|by rewrite list_lookup_alter_ne].
  rewrite list_lookup_alter_eq. by destruct (moves_ s !! x).
Qed.
Lemma chain_ext s s' stk : (forall i, src s' i = src s i) -> chain s stk -> chain s' stk.
Proof using Type. intros E. induction stk as [|a [|b r] IH]; [done | done|]. intros [H1 H2]. rewrite <- E in H1. split; [done | by apply IH]. Qed.

(** All but the first move of a chain read the destination of another one. *)
Lemma chain_src s stk i : chain s stk -> i ∈ stk -> last stk <> Some i -> exists j, j ∈ stk /\ src s i = dst j.
Proof using Type.
  induction stk as [|a [|b r] IH]; intros Hc Hi Hl.
  - by apply elem_of_nil in Hi.
  - apply list_elem_of_singleton in Hi as ->. done.
  - destruct Hc as [E Hc]. apply elem_of_cons in Hi as [->|Hi]; [exists b; split; [by right; left | done]|].
    destruct (IH Hc Hi) as (j & Hj & Ej); [exact Hl|]. exists j. split; [by right | done].
Qed.

(** The state after the move has been emitted. *)
Definition emitted (x : nat) (source w : Location) (pend : list MoveOperands) (scr : list Location) (tx td : list Z)
    (s : resolver) : resolver :=
  mkResolver (redirect source w <$> <[x := gone]> (moves_ s)) pend scr tx td (mkMove source w :: code s).

Section Level.
Context (stk : list nat) (s : resolver) (x : nat) (m o : MoveOperands).
Context (Hg : good (x :: stk) s) (Hc : chain s (x :: stk)) (Hnd : NoDup (x :: stk)).
Context (Ho : ms !! x = Some o) (Hm : moves_ s !! x = Some m).
Context (Hself : source_ m <> destination_ o) (Hcm : IsConstant (source_ m) = false).
Context (Hfree : forall i mi, moves_ s !! i = Some mi -> mi <> gone -> i ∉ x :: stk -> source_ mi <> destination_ o).

Let s3 := SetDestination x (destination_ o) s.
Lemma level_facts :
  good stk s3 /\ moves_ s3 !! x = Some (mkMove (source_ m) (destination_ o)) /\ mkMove (source_ m) (destination_ o) <> gone /\
  x ∉ stk /\ used (source_ m) /\ source_ m <> NoLocation /\ dst x = Some (destination_ o) /\
  (forall c r, stk = c :: r -> dst c = Some (source_ m)).
Proof using All.
  apply NoDup_cons in Hnd as [Hx Hnd']. destruct (g_stk _ _ Hg x) as (m' & Hm' & Hn); [by left|].
  rewrite Hm in Hm'. injection Hm' as <-. destruct (live_source _ _ _ _ Hg Hm Hn) as [Hu Hv].
  split_and!; try done.
  - by apply good_unmark.
  - simpl. by rewrite list_lookup_alter_eq, Hm.
  - intros [= E _]. done.
  - unfold dst. by rewrite Ho.
  - intros c r ->. destruct Hc as [E _]. unfold src in E. rewrite Hm in E. by symmetry.
Qed.

(** Only the first move of the chain can still read the destination. *)
Lemma level_no_blocker :
  (forall b, last stk = Some b -> src s b <> Some (destination_ o)) -> no_blocker s3 (destination_ o).
Proof using All.
  destruct level_facts as (Hg3 & Hx3 & Hn3 & Hx & Hu & Hv & Hdx & Hdc). intros Hb i mi Hi Hni E.
  destruct (decide (i = x)) as [->|Hne]; [rewrite Hx3 in Hi; injection Hi as <-; done|].
  assert (Hi' : moves_ s !! i = Some mi) by (simpl in Hi; by rewrite list_lookup_alter_ne in Hi).
  assert (Hsi : src s i = Some (destination_ o)) by (unfold src; rewrite Hi'; simpl; by rewrite E).
  destruct (decide (i ∈ stk)) as [His|His].
  - destruct (decide (last stk = Some i)) as [Hl|Hl]; [by apply (Hb i)|].
    assert (Hcs : chain s stk) by (destruct stk; [done | apply Hc]).
    destruct (chain_src s stk i Hcs His Hl) as (j & Hj & Ej). rewrite Hsi in Ej.
    assert (x = j) as -> by (by eapply dst_eq). done.
  - apply (Hfree i mi Hi' Hni); [|done]. by intros [->|]%elem_of_cons.
Qed.
Lemma level_blocked :
  idle s \/ busy (x :: stk) s -> IsBlockedByMoves (destination_ o) s3 = true ->
  idle s /\ exists b, last stk = Some b /\ src s b = Some (destination_ o).
Proof using All.
  destruct level_facts as (Hg3 & Hx3 & Hn3 & Hx & Hu & Hv & Hdx & Hdc). intros Hph Hblk.
  pose proof (dst_writable x o Ho) as [Hdu _].
  assert (Hcontra : (forall p, p ∈ pending_moves_ s3 -> source_ p <> destination_ o) ->
    (forall b, last stk = Some b -> src s b <> Some (destination_ o)) -> False).
  { intros H1 H2. rewrite (proj2 (IsBlocked_false stk s3 _ Hg3 Hdu)) in Hblk; [done|]. split; [done | by apply level_no_blocker]. }
  destruct Hph as [Hi|(L & A & b & Hl & Hp & Hsb & HLA & HL & _)].
  - split; [done|]. destruct (last stk) as [b|] eqn:El; [|exfalso; apply Hcontra; [|done]; simpl; destruct Hi as [-> _]; intros p H; by apply elem_of_nil in H].
    exists b. split; [done|]. destruct (decide (src s b = Some (destination_ o))) as [|Hne]; [done|]. exfalso. apply Hcontra.
    + simpl. destruct Hi as [-> _]. intros p H. by apply elem_of_nil in H.
    + intros b' [= <-]. done.
  - exfalso. apply Hcontra.
    + simpl. rewrite Hp. intros p H. apply list_elem_of_singleton in H as ->. simpl. intros ->. by apply (HL x); [left|].
    + intros b' Hb'. rewrite last_cons, Hb' in Hl. injection Hl as ->. rewrite Hsb. intros [= E].
      apply (pending_dst (x :: stk) s (mkMove L A) x m (destination_ o) Hg); [rewrite Hp; by left | done | | done | done].
      intros ->. done.
Qed.

(** What a call has done. *)
Definition level_done (s' : resolver) : Prop :=
  good stk s' /\ chain s' stk /\ evolves stk s s' /\ moves_ s' !! x = Some gone /\ phase stk s'.

(** Everything but the pending move, for a move to [w]. *)
Lemma level_emitted w pend scr tx td :
  let s4 := emitted x (source_ m) w pend scr tx td s3 in
  IsConstant w = false -> (forall j, j ∈ stk -> dst j <> Some w) ->
  moves_ s4 = redirect (source_ m) w <$> <[x := gone]> (moves_ s) /\ chain s4 stk /\ evolves stk s s4 /\ moves_ s4 !! x = Some gone.
Proof using All.
  destruct level_facts as (Hg3 & Hx3 & Hn3 & Hx & Hu & Hv & Hdx & Hdc). intros s4 Hwc Hw.
  assert (E : moves_ s4 = redirect (source_ m) w <$> <[x := gone]> (moves_ s)) by (simpl; by rewrite insert_alter).
  split_and!; [done | | |].
  - apply (chain_redirect s s4 stk x (source_ m) w E Hx).
    + intros b Hb. destruct stk as [|c r] eqn:Es; [by apply elem_of_nil in Hb|]. intros Eb.
      assert (b = c) as -> by (eapply dst_eq; [done|]; by eapply Hdc). apply NoDup_cons in Hnd as [_ Hnd'].
      by apply NoDup_cons in Hnd' as [? _].
    + destruct stk; [done | apply Hc].
  - by eapply evolves_redirect.
  - rewrite E. by eapply redirect_lookup_eq.
Qed.
Lemma level_scratch :
  idle s -> IsBlockedByMoves (destination_ o) s3 = true -> exists s', resolve_move x (destination_ o) s = Some s' /\ level_done s'.
Proof using All.
  intros Hi Hblk. destruct (level_blocked (or_introl Hi) Hblk) as (_ & b & Hlb & Hsb).
  destruct level_facts as (Hg3 & Hx3 & Hn3 & Hx & Hu & Hv & Hdx & Hdc).
  assert (Hi3 : idle s3).
  { destruct Hi as (E1 & E2 & E3 & E4 & Ht). split_and!; try done. intros i mi Hmi Hni. simpl in Hmi.
    destruct (decide (i = x)) as [->|Hne].
    - rewrite list_lookup_alter_eq, Hm in Hmi. injection Hmi as <-. simpl. apply (Ht x m Hm). intros ->. done.
    - rewrite list_lookup_alter_ne in Hmi by done. by eapply Ht. }
  destruct (allocate_done stk s3 (GetKind (source_ m)) Hg3 Hi3) as (L & scr & tx & td & Ea & HLw & HLnb & HLs).
  assert (HLm : L <> source_ m) by (intros E; by apply (HLnb x _ Hx3 Hn3)).
  assert (HLd : L <> destination_ o).
  { intros E. destruct (g_stk _ _ Hg3 b) as (mb & Hmb & Hnb); [by apply last_Some_elem_of|]. apply (HLnb b mb Hmb Hnb).
    rewrite <- (src_SetDestination x (destination_ o)) in Hsb. unfold src in Hsb. fold s3 in Hsb. rewrite Hmb in Hsb. simpl in Hsb. congruence. }
  assert (HLj : forall j, j ∈ stk -> dst j <> Some L).
  { intros j Hj Ej. destruct HLs as [(Ht & _)|((k & mk & ok & _ & _ & Hok & -> & Hks) & _)]; [by apply (dst_not_temp j L)|].
    assert (j = k) as -> by (eapply dst_eq; [done|]; unfold dst; by rewrite Hok). done. }
  set (s4 := emitted x (source_ m) L [mkMove L (destination_ o)] scr tx td s3).
  destruct (level_emitted L [mkMove L (destination_ o)] scr tx td (proj2 HLw) HLj) as (Em & Hc4 & Hev & Hx4).
  assert (Hg4 : good stk s4).
  { apply (good_emit stk s3 x (mkMove (source_ m) (destination_ o)) o L (redirect (source_ m) L)); try done.
    - by apply redirect_updates.
    - simpl. destruct Hi as [-> _]. intros p H. by apply elem_of_nil in H.
    - right. simpl. destruct Hi as [-> _]. split; [done|]. destruct HLs as [(Ht & _)|((k & mk & ok & Hk1 & Hk2 & Hok & -> & _) & _)]; [by left|].
      right. by exists k, mk, ok. }
  exists s4. split; [|split_and!; try done].
  - unfold resolve_move. fold s3. cbv zeta. rewrite Hx3. cbn [mbind option_bind source_]. rewrite Hblk, Ea. cbn [mbind option_bind].
    unfold SetDestination, EmitMove, Eliminate, UpdateMoveSource, AddPendingMove, set_move, with_moves, with_pending. cbn [moves_ pending_moves_].
    rewrite list_lookup_alter_eq, Hx3. cbn [fmap option_fmap option_map moves_ pending_moves_ scratches_ temps_x temps_d code source_ destination_].
    rewrite insert_alter. apply (perform_pending_none stk 1 x (source_ m) s4 Hg4 Hu).
    intros p H. apply list_elem_of_singleton in H as ->. simpl. congruence.
  - right. split.
    + exists L, (destination_ o), b. split_and!; try done.
      * rewrite (src_redirect s s4 x (source_ m) L b Em) by (intros ->; by apply Hx, last_Some_elem_of). rewrite Hsb. simpl.
        rewrite (proj2 (Equals_false _ _)); [done | congruence].
      * eapply (temps_redirect s s4 x (source_ m) L L Em Hv); [done|]. intros i mi Hmi Hni Ht. exfalso. by eapply Hi.
      * destruct HLs as [(_ & -> & Hacq)|(_ & -> & -> & ->)]; [right | left; done]. split; [done|]. exact Hacq.
    + intros c l Hhd Hdl. destruct stk as [|c' r] eqn:Es; [done|]. injection Hhd as ->. rewrite (Hdc c r eq_refl) in Hdl. injection Hdl as <-.
      by apply (no_blocker_redirect s s4 x (source_ m) L).
Qed.

Lemma level_unblocked :
  idle s \/ busy (x :: stk) s -> IsBlockedByMoves (destination_ o) s3 = false ->
  exists s', resolve_move x (destination_ o) s = Some s' /\ level_done s'.
Proof using All.
  intros Hph Hblk. destruct level_facts as (Hg3 & Hx3 & Hn3 & Hx & Hu & Hv & Hdx & Hdc).
  pose proof (dst_writable x o Ho) as Hdw. apply (IsBlocked_false stk s3 _ Hg3 (proj1 Hdw)) in Hblk as Hnb. destruct Hnb as [Hpf Hnb].
  set (s4 := emitted x (source_ m) (destination_ o) (pending_moves_ s) (scratches_ s) (temps_x s) (temps_d s) s3).
  assert (Hdj : forall j, j ∈ stk -> dst j <> Some (destination_ o)).
  { intros j Hj Ej. assert (x = j) as -> by (by eapply dst_eq). done. }
  destruct (level_emitted (destination_ o) (pending_moves_ s) (scratches_ s) (temps_x s) (temps_d s) (proj2 Hdw) Hdj) as (Em & Hc4 & Hev & Hx4).
  fold s4 in Em, Hc4, Hev, Hx4.
  assert (Hg4 : good stk s4).
  { apply (good_emit stk s3 x (mkMove (source_ m) (destination_ o)) o (destination_ o) (redirect (source_ m) (destination_ o))); try done;
      [by apply redirect_updates | by left]. }
  assert (Hres : resolve_move x (destination_ o) s = perform_pending (S (length (pending_moves_ s))) x (source_ m) s4).
  { unfold resolve_move. fold s3. cbv zeta. rewrite Hx3. cbn [mbind option_bind source_]. rewrite Hblk. cbn [mbind option_bind].
    unfold EmitMove. rewrite Hx3. reflexivity. }
  rewrite Hres. assert (Hnt : ~ temp (destination_ o)) by (by eapply dst_not_temp).
  assert (Hnm : no_blocker s4 (source_ m)) by (by apply (no_blocker_redirect s s4 x (source_ m) (destination_ o))).
  destruct Hph as [Hi|(L & A & b & Hl & Hp & Hsb & HLA & HL & Ht & Hscr)].
  - exists s4. split; [|split_and!; try done].
    + apply (perform_pending_none stk); [done | done|]. simpl. destruct Hi as [-> _]. intros p H. by apply elem_of_nil in H.
    + left. destruct Hi as (E1 & E2 & E3 & E4 & Ht). by apply (idle_redirect s s4 x (source_ m) (destination_ o)).
  - destruct stk as [|c r] eqn:Es.
    + injection Hl as <-. unfold src in Hsb. rewrite Hm in Hsb. injection Hsb as EA. rewrite EA in *.
      destruct (perform_pending_one s4 x L A) as (s' & E & Hg' & Hi' & Em'); try done.
      * by apply (temps_redirect s s4 x A (destination_ o) L).
      * rewrite Hp. exists s'. split; [exact E|].
        destruct (g_pend _ _ Hg4 (mkMove L A)) as (_ & _ & _ & _ & _ & [HLu HLc] & _); [simpl; rewrite Hp; by left|].
        assert (Hev' : evolves [] s4 s').
        { eapply (evolves_redirect [] s4 s' x L A); [done | done | by apply used_valid | done | done | intros j Hj; by apply elem_of_nil in Hj]. }
        unfold level_done. rewrite Es. split_and!; [done | done | by eapply evolves_trans | by apply (ev_gone _ _ _ Hev') | by left].
    + assert (HAm : A <> source_ m).
      { intros ->. destruct (g_stk _ _ Hg c) as (mc & Hmc & Hnc); [right; left|].
        by apply (pending_dst (x :: c :: r) s (mkMove L (source_ m)) c mc (source_ m) Hg); [rewrite Hp; left | | | apply (Hdc c r) |]. }
      exists s4. split; [|unfold level_done; rewrite Es; split_and!; try done].
      * apply (perform_pending_none (c :: r)); [done | done|]. simpl. rewrite Hp. intros p H. apply list_elem_of_singleton in H as ->. done.
      * right. split; [|intros c' l [= <-]; rewrite (Hdc c r eq_refl); by intros [= <-]].
        exists L, A, b. rewrite last_cons_cons in Hl. split_and!; try done.
        -- rewrite (src_redirect s s4 x (source_ m) (destination_ o) b Em), Hsb by (intros ->; by apply Hx, last_Some_elem_of). simpl.
           by rewrite (proj2 (Equals_false _ _) HAm).
        -- intros j Hj. apply HL. by right.
        -- by apply (temps_redirect s s4 x (source_ m) (destination_ o) L).
Qed.
Lemma level_resolved :
  idle s \/ busy (x :: stk) s -> exists s', resolve_move x (destination_ o) s = Some s' /\ level_done s'.
Proof using All.
  intros Hph. destruct (IsBlockedByMoves (destination_ o) s3) eqn:E; [|by apply level_unblocked].
  apply level_scratch; [by apply level_blocked | done].
Qed.
End Level.

(** *** The recursion *)

(** What a call of [PerformMove] does, on any chain of marked moves. *)
Definition perform_spec (perform : nat -> resolver -> option resolver) (stk : list nat) : Prop :=
  forall x s m, good stk s -> chain s stk -> idle s -> moves_ s !! x = Some m -> m <> gone -> x ∉ stk ->
    IsConstant (source_ m) = false -> (forall c r, stk = c :: r -> dst c = Some (source_ m)) ->
    exists s', perform x s = Some s' /\ level_done stk s x s'.

(** The loop over the blocking moves, at the level of [x]. *)
Lemma perform_blocking_done perform x stk o idx : forall s,
  perform_spec perform (x :: stk) -> good (x :: stk) s -> chain s (x :: stk) -> phase (x :: stk) s ->
  ms !! x = Some o -> Forall (fun i => i < length ms)%nat idx ->
  exists s', perform_blocking perform (destination_ o) idx s = Some s' /\ good (x :: stk) s' /\ chain s' (x :: stk) /\
    evolves (x :: stk) s s' /\ phase (x :: stk) s' /\
    forall i m, i ∈ idx -> moves_ s' !! i = Some m -> m <> gone -> i ∉ x :: stk -> source_ m <> destination_ o.
Proof using Hrs.
  induction idx as [|i idx IH]; intros s Hspec Hg Hc Hph Ho Hidx.
  - exists s. split_and!; try done; [apply evolves_refl|]. intros i m Hi. by apply elem_of_nil in Hi.
  - apply Forall_cons in Hidx as [Hlt Hidx]. cbn [perform_blocking].
    assert (exists mi, moves_ s !! i = Some mi) as (mi & Hmi) by (apply lookup_lt_is_Some; by rewrite (g_len _ _ Hg)).
    rewrite Hmi. cbn [mbind option_bind]. assert (Hdx : dst x = Some (destination_ o)) by (unfold dst; by rewrite Ho).
    destruct (dst_used x _ Hdx) as [[Hdu _] _].
    assert (Hstep : exists s1, (if Blocks mi (destination_ o) && negb (IsPending mi) then perform i s else Some s) = Some s1 /\
      good (x :: stk) s1 /\ chain s1 (x :: stk) /\ evolves (x :: stk) s s1 /\ phase (x :: stk) s1 /\
      forall m, moves_ s1 !! i = Some m -> m <> gone -> i ∉ x :: stk -> source_ m <> destination_ o).
    { destruct (Blocks mi (destination_ o)) eqn:Eb; cbn [andb].
      - apply (Blocks_live _ _ _ _ _ Hg Hmi Hdu) in Eb as [Hn Es]. rewrite (IsPending_live _ _ _ _ Hg Hmi Hn).
        destruct (decide (i ∈ x :: stk)) as [Hin|Hin].
        + rewrite bool_decide_eq_true_2 by done. exists s. split_and!; try done; apply evolves_refl.
        + rewrite bool_decide_eq_false_2 by done. cbn [negb].
          destruct Hph as [Hi|[_ Hnb]]; [|exfalso; by apply (Hnb x (destination_ o) eq_refl Hdx i mi Hmi Hn)].
          destruct (Hspec i s mi Hg Hc Hi Hmi Hn Hin) as (s1 & E & H1 & H2 & H3 & H4 & H5).
          { rewrite Es. by eapply dst_writable. }
          { intros c r [= <- <-]. by rewrite Es. }
          exists s1. split_and!; try done. intros m' Hm' Hn'. rewrite H4 in Hm'. congruence.
      - exists s. split_and!; try done; [apply evolves_refl|]. intros m' Hm' Hn' _ E. rewrite Hmi in Hm'. injection Hm' as <-.
        by rewrite (proj2 (Blocks_live _ _ _ _ _ Hg Hmi Hdu)) in Eb. }
    destruct Hstep as (s1 & -> & Hg1 & Hc1 & Hev1 & Hph1 & Hi1). cbn [mbind option_bind].
    destruct (IH s1 Hspec Hg1 Hc1 Hph1 Ho Hidx) as (s' & E & Hg' & Hc' & Hev' & Hph' & Hi').
    exists s'. split_and!; try done; [by eapply evolves_trans|].
    intros i' m' [->|Hi2]%elem_of_cons Hm' Hn' Hs' Es'; [|by eapply Hi'].
    (* a later call cannot have created a blocker *)
    pose proof (ev_src _ _ _ Hev' x i m' (destination_ o) ltac:(left) Hdx Hm' Hn' Es') as Hsrc.
    unfold src in Hsrc. destruct (moves_ s1 !! i) as [m1|] eqn:E1; [|done]. injection Hsrc as Hsrc.
    apply (Hi1 m1 eq_refl); [|done|done]. intros ->. simpl in Hsrc. by destruct (dst_used x _ Hdx).
Qed.

(** A move to its own source. *)
Lemma good_drop s x m o :
  good [] s -> moves_ s !! x = Some m -> m <> gone -> ms !! x = Some o -> source_ m = destination_ o -> good [] (Eliminate x s).
Proof using Hrs.
  intros Hg Hm Hn Ho E. destruct (g_live _ _ Hg x m Hm Hn) as (o' & Ho' & _ & _ & Hval). rewrite Ho in Ho'. injection Ho' as <-.
  assert (Hlk : forall i, i <> x -> moves_ (Eliminate x s) !! i = moves_ s !! i) by (intros i Hi; simpl; by apply list_lookup_insert_ne).
  assert (Hxx : moves_ (Eliminate x s) !! x = Some gone) by (simpl; apply list_lookup_insert_eq; by eapply lookup_lt_Some).
  pose proof (dst_writable x o Ho) as [_ Hdc].
  split.
  - simpl. by rewrite length_insert, (g_len _ _ Hg).
  - intros i mi Hi Hli. destruct (decide (i = x)) as [->|Hne]; [congruence|]. rewrite Hlk in Hi by done. by apply (g_live _ _ Hg).
  - intros i Hi. by apply elem_of_nil in Hi.
  - intros p Hp. destruct (g_pend _ _ Hg p Hp) as (i & oi & Hoi & Hgi & Hrest). exists i, oi. rewrite Hlk by (intros ->; congruence). done.
  - intros i oi Hoi Hgi Hnp st. change (run_code (Eliminate x s) st) with (run_code s st). destruct (decide (i = x)) as [->|Hne].
    + rewrite Ho in Hoi. injection Hoi as <-. by rewrite <- Hval, E, value_nonconst.
    + rewrite Hlk in Hgi by done. by apply (g_done _ _ Hg i).
  - exact (g_else _ _ Hg).
Qed.
Lemma stk_length stk s x : good stk s -> NoDup (x :: stk) -> (x < length ms)%nat -> (length stk < length ms)%nat.
Proof using Hrs.
  intros Hg Hnd Hx. assert (Hsub : (x :: stk) ⊆+ seq 0 (length ms)).
  { apply NoDup_submseteq; [done|]. intros i [->|Hi]%elem_of_cons; apply elem_of_seq; [lia|].
    destruct (g_stk _ _ Hg i Hi) as (m & Hm & _). apply lookup_lt_Some in Hm. rewrite (g_len _ _ Hg) in Hm. lia. }
  apply submseteq_length in Hsub. simpl in Hsub. rewrite length_seq in Hsub. lia.
Qed.
Lemma evolves_mark stk s x m :
  moves_ s !! x = Some m -> m <> gone -> evolves stk s (SetDestination x NoLocation s).
Proof using Type.
  intros Hm Hn. split.
  - intros i Hi. simpl. rewrite list_lookup_alter_ne; [done|]. intros ->. congruence.
  - intros i m' Hi Hn'. simpl in Hi. destruct (decide (i = x)) as [->|Hne]; [|rewrite list_lookup_alter_ne in Hi by done; eauto].
    rewrite list_lookup_alter_eq, Hm in Hi. injection Hi as <-. eauto.
  - intros j i mi l _ _ Hi _ <-. rewrite <- (src_SetDestination x NoLocation). unfold src. by rewrite Hi.
Qed.
Lemma idle_mark s x m : idle s -> moves_ s !! x = Some m -> m <> gone -> idle (SetDestination x NoLocation s).
Proof using Type.
  intros (E1 & E2 & E3 & E4 & Ht) Hm Hn. split_and!; try done. intros i mi Hmi Hni. simpl in Hmi.
  destruct (decide (i = x)) as [->|Hne].
  - rewrite list_lookup_alter_eq, Hm in Hmi. injection Hmi as <-. by apply (Ht x m).
  - rewrite list_lookup_alter_ne in Hmi by done. by eapply Ht.
Qed.
Lemma PerformMove_done fuel : forall stk, NoDup stk -> (length ms - length stk < fuel)%nat -> perform_spec (PerformMove fuel) stk.
Proof using Hrs.
  induction fuel as [|fuel IH]; intros stk Hnd Hf x s m Hg Hc Hi Hm Hn Hx Hcm Htop; [lia|]. cbn [PerformMove].
  rewrite Hm. cbn [mbind option_bind]. destruct (g_live _ _ Hg x m Hm Hn) as (o & Ho & Hu & Hd & _).
  rewrite decide_False in Hd by done. assert (Hdx : dst x = Some (destination_ o)) by (unfold dst; by rewrite Ho).
  pose proof (used_valid _ Hu) as Hv. destruct (dst_used x _ Hdx) as [[Hdu _] Hdv].
  unfold IsRedundant, IsEliminated, IsInvalid. rewrite (proj2 (Equals_false _ _) Hv), Hd, (proj2 (Equals_false _ _) Hdv). cbn [orb].
  assert (Hnd' : NoDup (x :: stk)) by (by constructor).
  destruct (Equals (source_ m) (destination_ o)) eqn:Er.
  - apply Equals_true in Er. assert (stk = []) as ->.
    { destruct stk as [|c r]; [done|]. assert (x = c) as -> by (eapply dst_eq; [done|]; rewrite (Htop c r eq_refl); by f_equal). destruct Hx. by left. }
    eexists. split; [done|]. assert (Hxl : moves_ (Eliminate x s) !! x = Some gone) by (simpl; apply list_lookup_insert_eq; by eapply lookup_lt_Some).
    split_and!; [by eapply good_drop | done | | done | left].
    + split; [| |intros j i mi l Hj; by apply elem_of_nil in Hj].
      * intros i Hgi. destruct (decide (i = x)) as [->|Hne]; [done|]. simpl. by rewrite list_lookup_insert_ne.
      * intros i m' Hi' Hn'. destruct (decide (i = x)) as [->|Hne]; [congruence|]. simpl in Hi'.
        rewrite list_lookup_insert_ne in Hi' by done. eauto.
    + destruct Hi as (E1 & E2 & E3 & E4 & Ht). split_and!; try done. intros i mi Hmi Hni.
      destruct (decide (i = x)) as [->|Hne]; [congruence|]. simpl in Hmi. rewrite list_lookup_insert_ne in Hmi by done. by eapply Ht.
  - apply Equals_false in Er. set (s1 := SetDestination x NoLocation s).
    assert (Hg1 : good (x :: stk) s1) by (by eapply good_mark).
    assert (Hs1 : forall i, src s1 i = src s i) by (intros i; apply src_SetDestination).
    assert (Hc1 : chain s1 (x :: stk)).
    { destruct stk as [|c r]; [done|]. split; [|by eapply chain_ext]. rewrite Hs1. unfold src. rewrite Hm. simpl. by rewrite (Htop c r). }
    apply lookup_lt_Some in Hm as Hlt. rewrite (g_len _ _ Hg) in Hlt. pose proof (stk_length stk s x Hg Hnd' Hlt) as Hsl.
    destruct (perform_blocking_done (PerformMove fuel) x stk o (seq 0 (length (moves_ s1))) s1) as (s2 & E2 & Hg2 & Hc2 & Hev2 & Hph2 & Hnb2); try done.
    { apply IH; [done | simpl; lia]. }
    { left. by eapply idle_mark. }
    { apply Forall_forall. intros i Hin. apply elem_of_seq in Hin. rewrite (g_len _ _ Hg1) in Hin. lia. }
    rewrite E2. cbn [mbind option_bind].
    destruct (g_stk _ _ Hg2 x) as (m2 & Hm2 & Hn2); [by left|].
    destruct (level_resolved stk s2 x m2 o Hg2 Hc2 Hnd' Ho Hm2) as (s' & E' & H1 & H2 & H3 & H4 & H5).
    + intros E. pose proof (ev_src _ _ _ Hev2 x x m2 (destination_ o) ltac:(left) Hdx Hm2 Hn2 E) as Hsrc.
      rewrite Hs1 in Hsrc. unfold src in Hsrc. rewrite Hm in Hsrc. injection Hsrc as Hsrc. done.
    + destruct (ev_const _ _ _ Hev2 x m2 Hm2 Hn2) as (m1 & Hm1 & _ & ->). unfold s1 in Hm1. simpl in Hm1.
      rewrite list_lookup_alter_eq, Hm in Hm1. by injection Hm1 as <-.
    + intros i mi Hmi Hni Hin. apply (Hnb2 i mi); try done. apply elem_of_seq. apply lookup_lt_Some in Hmi.
      rewrite (g_len _ _ Hg2) in Hmi. rewrite (g_len _ _ Hg1). lia.
    + by destruct Hph2 as [|[]]; [left | right].
    + exists s'. split; [done|]. split_and!; try done. eapply evolves_trans; [by eapply evolves_mark|]. eapply evolves_trans; [|exact H3].
      destruct Hev2 as [Ga Gc Gb]. split; [done | done|]. intros j i mi l Hj. apply Gb. by right.
Qed.

(** *** The loops of [EmitNativeCode] *)
Lemma IsEliminated_live stk s i m : good stk s -> moves_ s !! i = Some m -> IsEliminated m = bool_decide (m = gone).
Proof using Hrs.
  intros Hg Hm. unfold IsEliminated, IsInvalid. destruct (decide (m = gone)) as [->|Hn].
  - rewrite bool_decide_eq_true_2 by done. apply Equals_refl.
  - rewrite bool_decide_eq_false_2 by done. apply Equals_false. by eapply live_source.
Qed.
Lemma perform_loop idx : forall s,
  good [] s -> idle s -> Forall (fun i => i < length ms)%nat idx ->
  exists s', for_moves perform_body idx s = Some s' /\ good [] s' /\ idle s' /\ evolves [] s s' /\
    forall i m, i ∈ idx -> moves_ s' !! i = Some m -> m <> gone -> IsConstant (source_ m) = true.
Proof using Hrs.
  induction idx as [|i idx IH]; intros s Hg Hi Hidx.
  - exists s. split_and!; try done; [apply evolves_refl|]. intros i m H. by apply elem_of_nil in H.
  - apply Forall_cons in Hidx as [Hlt Hidx]. cbn [for_moves].
    assert (exists mi, moves_ s !! i = Some mi) as (mi & Hmi) by (apply lookup_lt_is_Some; by rewrite (g_len _ _ Hg)).
    rewrite Hmi. cbn [mbind option_bind]. unfold perform_body. rewrite (IsEliminated_live [] s i mi Hg Hmi).
    assert (Hstep : exists s1, (if negb (bool_decide (mi = gone)) && negb (IsConstant (source_ mi)) then PerformMove (S (length (moves_ s))) i s else Some s) = Some s1 /\
      good [] s1 /\ idle s1 /\ evolves [] s s1 /\ forall m, moves_ s1 !! i = Some m -> m <> gone -> IsConstant (source_ m) = true).
    { destruct (decide (mi = gone)) as [->|Hn].
      - rewrite bool_decide_eq_true_2 by done. exists s. split_and!; try done; [apply evolves_refl|]. intros m Hm. congruence.
      - rewrite bool_decide_eq_false_2 by done. destruct (IsConstant (source_ mi)) eqn:Ec; cbn [negb andb].
        + exists s. split_and!; try done; [apply evolves_refl|]. intros m Hm. rewrite Hmi in Hm. by injection Hm as <-.
        + destruct (PerformMove_done (S (length (moves_ s))) [] (NoDup_nil_2)) with i s mi as (s1 & E & H1 & H2 & H3 & H4 & H5);
            try done; [rewrite (g_len _ _ Hg); simpl; lia | intros H; by apply elem_of_nil in H|].
          exists s1. split_and!; try done; [|intros m Hm; congruence]. destruct H5 as [|[(L & A & b & Hl & _) _]]; [done|]. done. }
    destruct Hstep as (s1 & -> & Hg1 & Hi1 & Hev1 & Hc1). cbn [mbind option_bind].
    destruct (IH s1 Hg1 Hi1 Hidx) as (s' & E & Hg' & Hi' & Hev' & Hc'). exists s'. split_and!; try done; [by eapply evolves_trans|].
    intros i' m [->|Hin]%elem_of_cons Hm Hn; [|by eapply Hc'].
    destruct (ev_const _ _ _ Hev' i m Hm Hn) as (m1 & Hm1 & Hn1 & ->). by apply Hc1.
Qed.

(** No move that is left reads the destination of one. *)
Definition settled (s : resolver) : Prop :=
  good [] s /\ pending_moves_ s = [] /\
  forall i m j mj l, moves_ s !! i = Some m -> m <> gone -> moves_ s !! j = Some mj -> mj <> gone -> dst j = Some l -> source_ m <> l.
Lemma settled_emit s i m f scr tx td :
  settled s -> moves_ s !! i = Some m -> m <> gone -> updates (source_ m) (destination_ m) f ->
  settled (mkResolver (f <$> <[i := gone]> (moves_ s)) [] scr tx td (m :: code s)).
Proof using Hrs.
  intros (Hg & Hp & Hs) Hm Hn Hf. destruct (g_live _ _ Hg i m Hm Hn) as (o & Ho & Hu & Hd & _).
  rewrite decide_False in Hd by (intros H; by apply elem_of_nil in H).
  assert (Hdi : dst i = Some (destination_ m)) by (unfold dst; rewrite Ho; simpl; by rewrite Hd).
  split_and!; [| done |].
  - replace (m :: code s) with (mkMove (source_ m) (destination_ m) :: code s) by (by destruct m). apply (good_emit [] s i m o (destination_ m) f); try done.
    + intros H. by apply elem_of_nil in H.
    + rewrite Hd. by eapply dst_writable.
    + intros j mj Hj Hnj. by apply (Hs j mj i m).
    + rewrite Hp. intros p H. by apply elem_of_nil in H.
    + left. split; [done | by symmetry].
  - simpl. intros a ma b mb l Ha Hna Hb Hnb Hdb.
    apply update_lookup in Ha as [[_ ->]|(Hai & m0 & H0 & ->)]; [done | |apply Hf].
    apply update_lookup in Hb as [[_ ->]|(Hbi & n0 & G0 & ->)]; [done | |apply Hf].
    assert (m0 <> gone) by (intros ->; by rewrite (proj1 Hf) in Hna). assert (n0 <> gone) by (intros ->; by rewrite (proj1 Hf) in Hnb).
    destruct (proj2 Hf m0) as [->|[_ ->]]; [by apply (Hs a m0 b n0)|]. simpl. intros <-. apply Hbi. by eapply dst_eq.
Qed.
Lemma EmitMove_live i m s : moves_ s !! i = Some m ->
  EmitMove i s = mkResolver (moves_ s) (pending_moves_ s) (scratches_ s) (temps_x s) (temps_d s) (m :: code s).
Proof using Type. intros H. unfold EmitMove. by rewrite H. Qed.
(** A loop that emits some of the moves, with or without [UpdateMoveSource]. *)
Lemma settled_loop (body : nat -> MoveOperands -> resolver -> option resolver) (may_stay : Prop) idx :
  (forall i m s, settled s -> moves_ s !! i = Some m ->
     exists s', body i m s = Some s' /\ settled s' /\ (forall k, moves_ s !! k = Some gone -> moves_ s' !! k = Some gone) /\
       (moves_ s' !! i = Some gone \/ may_stay)) ->
  forall s, settled s -> Forall (fun i => i < length ms)%nat idx ->
  exists s', for_moves body idx s = Some s' /\ settled s' /\ (forall k, moves_ s !! k = Some gone -> moves_ s' !! k = Some gone) /\
    forall i, i ∈ idx -> moves_ s' !! i = Some gone \/ may_stay.
Proof using Hrs.
  intros Hbody. induction idx as [|i idx IH]; intros s Hs Hidx.
  - exists s. split_and!; try done. intros i H. by apply elem_of_nil in H.
  - apply Forall_cons in Hidx as [Hlt Hidx]. cbn [for_moves].
    assert (exists mi, moves_ s !! i = Some mi) as (mi & Hmi) by (apply lookup_lt_is_Some; by rewrite (g_len _ _ (proj1 Hs))).
    rewrite Hmi. cbn [mbind option_bind]. destruct (Hbody i mi s Hs Hmi) as (s1 & -> & Hs1 & Hk1 & Hi1). cbn [mbind option_bind].
    destruct (IH s1 Hs1 Hidx) as (s' & E & Hs' & Hk' & Hi'). exists s'. split_and!; try done; [by auto|].
    intros k [->|Hk]%elem_of_cons; [|by apply Hi']. destruct Hi1 as [Hi1|Hi1]; [left; by apply Hk' | by right].
Qed.
Lemma constant_body_done i m s :
  settled s -> moves_ s !! i = Some m ->
  exists s', constant_body i m s = Some s' /\ settled s' /\ (forall k, moves_ s !! k = Some gone -> moves_ s' !! k = Some gone) /\
    (moves_ s' !! i = Some gone \/ True).
Proof using Hrs.
  intros Hs Hm. unfold constant_body. rewrite (IsEliminated_live [] s i m (proj1 Hs) Hm).
  destruct (decide (m = gone)) as [->|Hn]; [rewrite bool_decide_eq_true_2 by done; exists s; naive_solver|].
  rewrite bool_decide_eq_false_2 by done. destruct (is_stack (destination_ m)); cbn [negb andb]; [exists s; naive_solver|].
  destruct (live_source _ _ _ _ (proj1 Hs) Hm Hn) as [_ Hv].
  eexists. split; [rewrite (EmitMove_live i m s Hm); reflexivity|]. split_and!.
  - unfold UpdateMoveSource, Eliminate, set_move, with_moves. simpl. rewrite (proj1 (proj2 Hs)).
    apply (settled_emit s i m (redirect (source_ m) (destination_ m))); try done. by apply redirect_updates.
  - intros k Hk. change ((redirect (source_ m) (destination_ m) <$> <[i := gone]> (moves_ s)) !! k = Some gone).
    destruct (decide (k = i)) as [->|Hne]; [by eapply redirect_lookup_eq|].
    rewrite (redirect_lookup_ne _ _ _ _ _ _ Hne Hk). f_equal. by apply redirect_gone.
  - by right.
Qed.
Lemma rest_body_done i m s :
  settled s -> moves_ s !! i = Some m ->
  exists s', rest_body i m s = Some s' /\ settled s' /\ (forall k, moves_ s !! k = Some gone -> moves_ s' !! k = Some gone) /\
    (moves_ s' !! i = Some gone \/ False).
Proof using Hrs.
  intros Hs Hm. unfold rest_body. rewrite (IsEliminated_live [] s i m (proj1 Hs) Hm).
  destruct (decide (m = gone)) as [->|Hn]; [rewrite bool_decide_eq_true_2 by done; exists s; naive_solver|].
  rewrite bool_decide_eq_false_2 by done. cbn [negb].
  eexists. split; [rewrite (EmitMove_live i m s Hm); reflexivity|]. split_and!.
  - unfold Eliminate, set_move, with_moves. simpl. rewrite (proj1 (proj2 Hs)), <- (list_fmap_id (<[i := gone]> (moves_ s))).
    apply (settled_emit s i m id); try done. split; [done|]. by left.
  - intros k Hk. simpl. destruct (decide (k = i)) as [->|Hne]; [apply list_lookup_insert_eq; by eapply lookup_lt_Some | by rewrite list_lookup_insert_ne].
  - left. simpl. apply list_lookup_insert_eq. by eapply lookup_lt_Some.
Qed.

Lemma initial_good : Forall (fun m => IsRedundant m = false) ms -> good [] (mkResolver ms [] [] xs ds []).
Proof using Hrs.
  intros Hr. split; simpl.
  - done.
  - intros i m Hm _. exists m. split_and!; [done | left; exists m; split; [by eapply list_elem_of_lookup_2 | done] | done | done].
  - intros i Hi. by apply elem_of_nil in Hi.
  - intros p Hp. by apply elem_of_nil in Hp.
  - intros i o Ho Hgo. rewrite Ho in Hgo. injection Hgo as ->. by destruct (rs_src Hrs gone); [eapply list_elem_of_lookup_2|].
  - done.
Qed.
Lemma EmitNativeCode_nonredundant :
  Forall (fun m => IsRedundant m = false) ms ->
  exists s, EmitNativeCode xs ds ms = Some s /\ good [] s /\ pending_moves_ s = [] /\
    forall i, (i < length ms)%nat -> moves_ s !! i = Some gone.
Proof using Hrs.
  intros Hr. unfold EmitNativeCode, BuildInitialMoveList.
  replace (filter (fun m => IsRedundant m = false) ms) with ms.
  2:{ clear Hrs. induction Hr as [|m l Hm Hl IH]; [done|]. rewrite filter_cons_True by done. by f_equal. }
  pose proof (initial_good Hr) as Hg0. set (s0 := mkResolver ms [] [] xs ds []) in *. cbv zeta. simpl moves_.
  assert (Hi0 : idle s0).
  { split_and!; try done. intros i m Hm _ Ht. destruct (rs_temp Hrs _ Ht) as [Hs _]. apply Hs. exists m. split; [by eapply list_elem_of_lookup_2 | done]. }
  assert (Hidx : Forall (fun i => i < length ms)%nat (seq 0 (length ms))) by (apply Forall_forall; intros i Hi; apply elem_of_seq in Hi; lia).
  destruct (perform_loop _ s0 Hg0 Hi0 Hidx) as (s1 & -> & Hg1 & Hi1 & _ & Hc1). cbn [mbind option_bind].
  assert (Hs1 : settled s1).
  { split_and!; [done | apply Hi1|]. intros i m j mj l Hm Hn _ _ Hd E. assert (Hlt := lookup_lt_Some _ _ _ Hm). rewrite (g_len _ _ Hg1) in Hlt.
    assert (Hcm : IsConstant (source_ m) = true) by (apply (Hc1 i); [apply elem_of_seq; lia | done | done]).
    destruct (dst_used j l Hd) as [[_ Hcl] _]. congruence. }
  destruct (settled_loop constant_body True _ constant_body_done s1 Hs1 Hidx) as (s2 & -> & Hs2 & _). cbn [mbind option_bind].
  destruct (settled_loop rest_body False _ rest_body_done s2 Hs2 Hidx) as (s3 & E3 & Hs3 & _ & Hall).
  exists s3. split_and!; [done | apply Hs3 | apply Hs3|]. intros i Hi. destruct (Hall i) as [|]; [apply elem_of_seq; lia | done | done].
Qed.
End Resolve.

(** *** Redundant moves *)
Lemma resolvable_filter pm xs ds : resolvable pm xs ds -> resolvable (BuildInitialMoveList pm) xs ds.
Proof.
  intros [H1 H2 H3 H4 H5 H6]. set (f := BuildInitialMoveList pm).
  assert (Hsub : forall m, m ∈ f -> m ∈ pm) by (intros m Hm; by apply list_elem_of_filter in Hm as [_ ?]).
  assert (Hdst : forall l, is_dst f l -> is_dst pm l) by (intros l (m & Hm & <-); exists m; auto).
  assert (Hsrc : forall l, is_src f l -> is_src pm l) by (intros l (m & Hm & <-); exists m; auto).
  assert (Hused : forall l, used f xs ds l -> used pm xs ds l).
  { intros l [H|[H|H]]; [left; by apply Hsrc | right; left; by apply Hdst | by right; right]. }
  split; [auto | auto | | auto | | done].
  - clear - H3. unfold f, BuildInitialMoveList. induction pm as [|m l IH]; [constructor|]. simpl in H3. apply NoDup_cons in H3 as [Hm Hl].
    rewrite filter_cons. destruct (decide _); [|by apply IH]. simpl. apply NoDup_cons. split; [|by apply IH].
    intros Hin. apply Hm. apply list_elem_of_fmap in Hin as (m' & -> & Hm'). apply list_elem_of_fmap. exists m'. split; [done|].
    by apply list_elem_of_filter in Hm' as [_ ?].
  - intros l Ht. destruct (H5 l Ht). split; intros Hc; auto.
Qed.
Lemma EmitNativeCode_filter xs ds pm : EmitNativeCode xs ds (BuildInitialMoveList pm) = EmitNativeCode xs ds pm.
Proof.
  unfold EmitNativeCode. assert (E : BuildInitialMoveList (BuildInitialMoveList pm) = BuildInitialMoveList pm) by (by apply list_filter_filter_l).
  by rewrite E.
Qed.

(** The hypotheses can be checked by evaluation. *)
Definition locations (pm : list MoveOperands) (xs ds : list Z) : list Location :=
  (source_ <$> pm) ++ (destination_ <$> pm) ++ (RegisterLocation <$> xs) ++ (FpuRegisterLocation <$> ds).
Definition resolvableb (pm : list MoveOperands) (xs ds : list Z) : bool :=
  let ls := locations pm xs ds in
  let temps := (RegisterLocation <$> xs) ++ (FpuRegisterLocation <$> ds) in
  forallb (fun m => negb (IsInvalid (source_ m)) && negb (IsInvalid (destination_ m)) && negb (IsConstant (destination_ m))) pm
  && bool_decide (NoDup (destination_ <$> pm))
  && forallb (fun l => forallb (fun l' => negb (OverlapsWith l l') || Equals l l') ls) ls
  && forallb (fun t => forallb (fun m => negb (Equals t (source_ m)) && negb (Equals t (destination_ m))) pm) temps
  && negb (bool_decide (xs = [])) && negb (bool_decide (ds = [])).

Lemma forallb_elem {A} (f : A -> bool) l a : forallb f l = true -> a ∈ l -> f a = true.
Proof. intros H Ha. rewrite forallb_forall in H. apply H. by apply list_elem_of_In. Qed.
Lemma resolvableb_sound pm xs ds : resolvableb pm xs ds = true -> resolvable pm xs ds.
Proof.
  unfold resolvableb. rewrite !andb_true_iff, !negb_true_iff, !bool_decide_eq_false, bool_decide_eq_true.
  intros (((((H1 & H2) & H3) & H4) & H5) & H6).
  assert (Hm : forall m, m ∈ pm -> source_ m <> NoLocation /\ destination_ m <> NoLocation /\ IsConstant (destination_ m) = false).
  { intros m Hm. apply (forallb_elem _ _ _ H1) in Hm. rewrite !andb_true_iff, !negb_true_iff in Hm. destruct Hm as [[Ha Hb] Hc].
    apply Equals_false in Ha. apply Equals_false in Hb. done. }
  assert (Ht : forall l, temp xs ds l -> l ∈ (RegisterLocation <$> xs) ++ (FpuRegisterLocation <$> ds)).
  { intros l [(r & Hr & ->)|(r & Hr & ->)]; apply elem_of_app; [left | right]; apply list_elem_of_fmap; eauto. }
  assert (Hu : forall l, used pm xs ds l -> l ∈ locations pm xs ds).
  { intros l Hl. unfold locations. rewrite !elem_of_app. destruct Hl as [(m & Hi & <-)|[(m & Hi & <-)|Hl]].
    - left. apply list_elem_of_fmap. eauto.
    - right. left. apply list_elem_of_fmap. eauto.
    - right. right. by apply elem_of_app, Ht. }
  split.
  - intros m Hi. by apply Hm.
  - intros m Hi. by apply Hm.
  - done.
  - intros l l' Hl Hl' Ho. pose proof (forallb_elem _ _ l' (forallb_elem _ _ l H3 (Hu l Hl)) (Hu l' Hl')) as E. simpl in E.
    rewrite Ho in E. by apply Equals_true.
  - intros l Hl. pose proof (forallb_elem _ _ l H4 (Ht l Hl)) as E. simpl in E.
    split; intros (m & Hi & <-); pose proof (forallb_elem _ _ m E Hi) as Em; simpl in Em;
      rewrite Equals_refl in Em; simpl in Em; rewrite ?andb_false_r in Em; done.
  - done.
Qed.
End ParallelMove.

(** C10: parallel moves are resolved correctly on ARM64. For moves with distinct
    destinations whose locations do not partly overlap, [EmitNativeCode] ends and
    emits a sequence of moves that has the effect of performing all of them at
    once, through any chains and cycles between them: every destination gets the
    value that its source had at the start, and nothing else changes apart from
    scratch registers; one scratch register of each kind is enough. *)
Theorem parallel_moves_correct (pm : list ParallelMove.MoveOperands) (xs ds : list Z) :
  ParallelMove.resolvable pm xs ds ->
  exists s, ParallelMove.EmitNativeCode xs ds pm = Some s /\
    forall st, let st' := ParallelMove.run_code s st in
      (forall m, m ∈ pm -> st' (ParallelMove.destination_ m) = ParallelMove.value st (ParallelMove.source_ m)) /\
      (forall l, ~ ParallelMove.is_dst pm l -> ~ ParallelMove.temp xs ds l -> st' l = st l).
Proof.
  intros Hr. pose proof (ParallelMove.resolvable_filter pm xs ds Hr) as Hf.
  destruct (ParallelMove.EmitNativeCode_nonredundant _ xs ds Hf) as (s & E & Hg & Hp & Hall).
  { apply Forall_forall. intros m Hm. by apply list_elem_of_filter in Hm as [? _]. }
  exists s. rewrite ParallelMove.EmitNativeCode_filter in E. split; [done|]. intros st st'.
  assert (Helse : forall l, ~ ParallelMove.is_dst (ParallelMove.BuildInitialMoveList pm) l -> ~ ParallelMove.temp xs ds l -> st' l = st l)
    by (intros l H1 H2; by apply (ParallelMove.g_else _ _ _ _ _ Hg)).
  split.
  - intros m Hm. destruct (ParallelMove.IsRedundant m) eqn:Er.
    + destruct (ParallelMove.rs_dst _ _ _ Hr m Hm) as [Hdv Hdc]. pose proof (ParallelMove.rs_src _ _ _ Hr m Hm) as Hsv.
      unfold ParallelMove.IsRedundant, ParallelMove.IsEliminated, ParallelMove.IsInvalid in Er.
      rewrite (proj2 (ParallelMove.Equals_false _ _) Hsv), (proj2 (ParallelMove.Equals_false _ _) Hdv) in Er. simpl in Er.
      apply ParallelMove.Equals_true in Er. rewrite Er, ParallelMove.value_nonconst by done. apply Helse.
      * intros (m' & Hm' & Ed). apply list_elem_of_filter in Hm' as [Hr' Hm']. apply list_elem_of_lookup_1 in Hm as (i & Hi).
        apply list_elem_of_lookup_1 in Hm' as (j & Hj). assert (i = j) as -> by (by eapply (ParallelMove.dst_inj pm xs ds Hr i j)).
        rewrite Hi in Hj. injection Hj as <-. unfold ParallelMove.IsRedundant in Hr'. rewrite Er, ParallelMove.Equals_refl in Hr'.
        by rewrite orb_true_r in Hr'.
      * intros Ht. destruct (ParallelMove.rs_temp _ _ _ Hr _ Ht) as [_ Hnd]. apply Hnd. by exists m.
    + assert (Hmf : m ∈ ParallelMove.BuildInitialMoveList pm) by (by apply list_elem_of_filter).
      apply list_elem_of_lookup_1 in Hmf as (i & Hi). apply (ParallelMove.g_done _ _ _ _ _ Hg i m Hi).
      * apply Hall. by eapply lookup_lt_Some.
      * rewrite Hp. intros p H. by apply elem_of_nil in H.
  - intros l Hl Ht. apply Helse; [|done]. intros (m & Hm & Ed). apply Hl. exists m. split; [|done]. by apply list_elem_of_filter in Hm as [_ ?].
Qed.
(** A cycle of three registers, a move from it, a swap of floating-point
    registers, stack slots and a constant. *)
Definition demo_moves : list ParallelMove.MoveOperands :=
  let R n := ParallelMove.RegisterLocation n in let D n := ParallelMove.FpuRegisterLocation n in
  [ParallelMove.mkMove (R 0) (R 1); ParallelMove.mkMove (R 1) (R 2); ParallelMove.mkMove (R 2) (R 0); ParallelMove.mkMove (R 1) (ParallelMove.StackSlot 16);
   ParallelMove.mkMove (D 0) (D 1); ParallelMove.mkMove (D 1) (D 0); ParallelMove.mkMove (ParallelMove.ConstantLocation 7) (R 3);
   ParallelMove.mkMove (ParallelMove.ConstantLocation 7) (R 4); ParallelMove.mkMove (R 5) (R 5)].
Lemma parallel_moves_correct_witness :
  exists s, ParallelMove.EmitNativeCode [16; 17] [31] demo_moves = Some s /\
    forall st, ParallelMove.run_code s st (ParallelMove.RegisterLocation 0) = st (ParallelMove.RegisterLocation 2).
Proof.
  destruct (parallel_moves_correct demo_moves [16; 17] [31]) as (s & E & H).
  - apply ParallelMove.resolvableb_sound. vm_compute. reflexivity.
  - exists s. split; [exact E|]. intros st. destruct (H st) as [Hd _].
    apply (Hd (ParallelMove.mkMove (ParallelMove.RegisterLocation 2) (ParallelMove.RegisterLocation 0))).
    right. right. left.
Defined.
