(* ===== verification/LockWord.v ===== *)
(** The lock word of an object (runtime/lock_word.h, lock_word-inl.h): the 32
    bits in which an object keeps its thin lock, the id of its monitor, its
    identity hash code or its forwarding address, with the read barrier state
    beside them.

    [kUseReadBarrier] is the build's constant of that name and an argument of
    [GetState].  The debug checks of the class are not modelled; its two
    unconditional checks are, as [Aborted]. *)
From stdpp Require Import prelude.
From Stdlib Require Import ZArith Lia Btauto.
From S2P Require Import Prelude.
Open Scope Z_scope.

Module LockWord.

(** ** Layout *)
Definition kStateSize : Z := 2.
Definition kReadBarrierStateSize : Z := 2.
Definition kThinLockOwnerSize : Z := 16.
Definition kThinLockCountSize : Z := 32 - kThinLockOwnerSize - kStateSize - kReadBarrierStateSize.
Definition kThinLockOwnerShift : Z := 0.
Definition kThinLockOwnerMask : Z := Z.shiftl 1 kThinLockOwnerSize - 1.
Definition kThinLockMaxOwner : Z := kThinLockOwnerMask.
Definition kThinLockCountShift : Z := kThinLockOwnerSize + kThinLockOwnerShift.
Definition kThinLockCountMask : Z := Z.shiftl 1 kThinLockCountSize - 1.
Definition kThinLockMaxCount : Z := kThinLockCountMask.
Definition kStateShift : Z := kReadBarrierStateSize + kThinLockCountSize + kThinLockCountShift.
Definition kStateMask : Z := Z.shiftl 1 kStateSize - 1.
Definition kStateThinOrUnlocked : Z := 0.
Definition kStateFat : Z := 1.
Definition kStateHash : Z := 2.
Definition kStateForwardingAddress : Z := 3.
Definition kReadBarrierStateShift : Z := kThinLockCountSize + kThinLockCountShift.
Definition kReadBarrierStateMask : Z := Z.shiftl 1 kReadBarrierStateSize - 1.
Definition kReadBarrierStateMaskShifted : Z := Z.shiftl kReadBarrierStateMask kReadBarrierStateShift.
Definition kReadBarrierStateMaskShiftedToggled : Z := Z.lnot kReadBarrierStateMaskShifted.
Definition kHashShift : Z := 0.
Definition kHashSize : Z := 32 - kStateSize - kReadBarrierStateSize.
Definition kHashMask : Z := Z.shiftl 1 kHashSize - 1.
Definition kMaxHash : Z := kHashMask.
Definition kMonitorIdShift : Z := kHashShift.
Definition kMonitorIdMask : Z := kHashMask.
Definition kMaxMonitorId : Z := kMaxHash.

(** ** Constructors *)
Definition FromThinLockId (thread_id count rb_state : Z) : outcome Z :=
  if negb (thread_id <=? kThinLockMaxOwner) then Aborted
  else if negb (count <=? kThinLockMaxCount) then Aborted
  else Done (Z.lor (Z.lor (Z.lor (u32 (Z.shiftl thread_id kThinLockOwnerShift))
                                 (u32 (Z.shiftl count kThinLockCountShift)))
                          (u32 (Z.shiftl rb_state kReadBarrierStateShift)))
                   (u32 (Z.shiftl kStateThinOrUnlocked kStateShift))).
Definition FromForwardingAddress (target : Z) : Z :=
  u32 (Z.lor (Z.shiftr target kStateSize) (Z.shiftl kStateForwardingAddress kStateShift)).
Definition FromHashCode (hash_code rb_state : Z) : outcome Z :=
  if negb (hash_code <=? kMaxHash) then Aborted
  else Done (Z.lor (Z.lor (u32 (Z.shiftl hash_code kHashShift))
                          (u32 (Z.shiftl rb_state kReadBarrierStateShift)))
                   (u32 (Z.shiftl kStateHash kStateShift))).
Definition FromDefault (rb_state : Z) : Z := u32 (Z.shiftl rb_state kReadBarrierStateShift).
Definition Default : Z := 0.
(** [LockWord(Monitor* mon, uint32_t rb_state)], of the id of [mon]. *)
Definition FromMonitor (monitor_id rb_state : Z) : Z :=
  Z.lor (Z.lor monitor_id (u32 (Z.shiftl rb_state kReadBarrierStateShift)))
        (u32 (Z.shiftl kStateFat kStateShift)).

(** ** Accessors *)
Inductive LockState := kUnlocked | kThinLocked | kFatLocked | kHashCode | kForwardingAddress.
#[export] Instance LockState_eq_dec : EqDecision LockState.
Proof. solve_decision. Defined.

Definition GetState (kUseReadBarrier : bool) (value_ : Z) : LockState :=
  if (negb kUseReadBarrier && (value_ =? 0)) ||
     (kUseReadBarrier && (Z.land value_ (u32 kReadBarrierStateMaskShiftedToggled) =? 0))
  then kUnlocked
  else
    let internal_state := Z.land (Z.shiftr value_ kStateShift) kStateMask in
    if internal_state =? kStateThinOrUnlocked then kThinLocked
    else if internal_state =? kStateHash then kHashCode
    else if internal_state =? kStateForwardingAddress then kForwardingAddress
    else kFatLocked.
Definition ReadBarrierState (value_ : Z) : Z :=
  Z.land (Z.shiftr value_ kReadBarrierStateShift) kReadBarrierStateMask.
Definition SetReadBarrierState (rb_state value_ : Z) : Z :=
  let value_ := Z.land value_ (u32 (Z.lnot (Z.shiftl kReadBarrierStateMask kReadBarrierStateShift))) in
  Z.lor value_ (u32 (Z.shiftl (Z.land rb_state kReadBarrierStateMask) kReadBarrierStateShift)).
Definition ThinLockOwner (value_ : Z) : Z :=
  Z.land (Z.shiftr value_ kThinLockOwnerShift) kThinLockOwnerMask.
Definition ThinLockCount (value_ : Z) : Z :=
  Z.land (Z.shiftr value_ kThinLockCountShift) kThinLockCountMask.
(** The id from which [FatLockMonitor] looks the monitor up. *)
Definition FatLockMonitorId (value_ : Z) : Z :=
  Z.land (Z.shiftr value_ kMonitorIdShift) kMonitorIdMask.
Definition ForwardingAddress (value_ : Z) : Z := u32 (Z.shiftl value_ kStateSize).
Definition GetHashCode (value_ : Z) : Z := i32 (Z.land (Z.shiftr value_ kHashShift) kHashMask).
Definition GetValueWithoutReadBarrierState (value_ : Z) : Z :=
  Z.land value_ (u32 (Z.lnot (Z.shiftl kReadBarrierStateMask kReadBarrierStateShift))).
Definition IsDefault (lw : Z) : bool := Default =? lw.
Definition Equal (kIncludeReadBarrierState : bool) (lw1 lw2 : Z) : bool :=
  if kIncludeReadBarrierState then lw1 =? lw2
  else GetValueWithoutReadBarrierState lw1 =? GetValueWithoutReadBarrierState lw2.

(** ** What a lock word says

    The value a lock word stands for, built with the constructors and read
    with the accessors. *)
Inductive lock_value :=
| Unlocked (rb : Z)
| Thin (owner count rb : Z)
| Fat (monitor_id rb : Z)
| Hash (hash_code rb : Z)
| Forward (target : Z).

Definition encode (v : lock_value) : outcome Z :=
  match v with
  | Unlocked rb => Done (FromDefault rb)
  | Thin owner count rb => FromThinLockId owner count rb
  | Fat monitor_id rb => Done (FromMonitor monitor_id rb)
  | Hash hash_code rb => FromHashCode hash_code rb
  | Forward target => Done (FromForwardingAddress target)
  end.
Definition decode (kUseReadBarrier : bool) (w : Z) : lock_value :=
  match GetState kUseReadBarrier w with
  | kUnlocked => Unlocked (ReadBarrierState w)
  | kThinLocked => Thin (ThinLockOwner w) (ThinLockCount w) (ReadBarrierState w)
  | kFatLocked => Fat (FatLockMonitorId w) (ReadBarrierState w)
  | kHashCode => Hash (GetHashCode w) (ReadBarrierState w)
  | kForwardingAddress => Forward (ForwardingAddress w)
  end.

(** The read barrier states of the build: white, gray and black, or none
    without read barriers. *)
Definition rb_ok (kUseReadBarrier : bool) (rb : Z) : Prop :=
  if kUseReadBarrier then 0 <= rb <= 2 else rb = 0.
Definition value_ok (kUseReadBarrier : bool) (v : lock_value) : Prop :=
  match v with
  | Unlocked rb => rb_ok kUseReadBarrier rb
  | Thin owner count rb =>
      in_width 16 owner /\ in_width 12 count /\ (owner <> 0 \/ count <> 0) /\ rb_ok kUseReadBarrier rb
  | Fat monitor_id rb => in_width 28 monitor_id /\ rb_ok kUseReadBarrier rb
  | Hash hash_code rb => in_width 28 hash_code /\ rb_ok kUseReadBarrier rb
  | Forward target => in_width 32 target /\ target mod 4 = 0
  end.
(** The words [CheckReadBarrierState] allows. *)
Definition word_ok (kUseReadBarrier : bool) (w : Z) : Prop :=
  in_width 32 w /\
  (Z.shiftr w kStateShift <> kStateForwardingAddress -> rb_ok kUseReadBarrier (ReadBarrierState w)).

(** ** The fields as quotients and remainders *)
Lemma lor_shifted a b n : 0 <= n -> 0 <= a < 2 ^ n -> 0 <= b -> Z.lor a (Z.shiftl b n) = a + b * 2 ^ n.
Proof.
  intros Hn Ha Hb. assert (Z.land a (Z.shiftl b n) = 0).
  { apply Z.bits_inj'. intros i Hi. rewrite Z.land_spec, Z.bits_0.
    destruct (Z.ltb_spec i n).
    - rewrite Z.shiftl_spec_low by done. apply andb_false_r.
    - by rewrite (in_width_testbit n a i). }
  rewrite <- Z.lxor_lor, <- Z.add_nocarry_lxor, Z.shiftl_mul_pow2 by done. reflexivity.
Qed.

Lemma land_field w k n : 0 <= k -> 0 <= n -> Z.land (Z.shiftr w k) (Z.shiftl 1 n - 1) = (w / 2 ^ k) mod 2 ^ n.
Proof.
  intros Hk Hn. rewrite Z.shiftl_1_l, Z.shiftr_div_pow2, <- Z.land_ones by lia.
  f_equal. unfold Z.ones. rewrite Z.shiftl_1_l. lia.
Qed.

Lemma ThinLockOwner_eq w : ThinLockOwner w = w mod 2 ^ 16.
Proof. etransitivity; [apply (land_field w 0 16); lia|]. by rewrite Z.div_1_r. Qed.
Lemma ThinLockCount_eq w : ThinLockCount w = (w / 2 ^ 16) mod 2 ^ 12.
Proof. apply (land_field w 16 12); lia. Qed.
Lemma ReadBarrierState_eq w : ReadBarrierState w = (w / 2 ^ 28) mod 4.
Proof. apply (land_field w 28 2); lia. Qed.
Lemma FatLockMonitorId_eq w : FatLockMonitorId w = w mod 2 ^ 28.
Proof. etransitivity; [apply (land_field w 0 28); lia|]. by rewrite Z.div_1_r. Qed.
Lemma GetHashCode_eq w : GetHashCode w = w mod 2 ^ 28.
Proof.
  change (GetHashCode w) with (i32 (FatLockMonitorId w)). rewrite FatLockMonitorId_eq.
  apply swrap_small; [lia|].
  pose proof (Z.mod_pos_bound w (2 ^ 28)). lia.
Qed.
Lemma ForwardingAddress_eq w : ForwardingAddress w = 4 * (w mod 2 ^ 30).
Proof.
  unfold ForwardingAddress, kStateSize. rewrite Z.shiftl_mul_pow2 by lia.
  unfold wrap. change (2 ^ 32) with (2 ^ 30 * 2 ^ 2). rewrite Z.mul_mod_distr_r by lia. lia.
Qed.

(** The word without its read barrier bits. *)
Lemma clear_rb w : in_width 32 w ->
  Z.land w (u32 kReadBarrierStateMaskShiftedToggled) = w mod 2 ^ 28 + 2 ^ 30 * (w / 2 ^ 30).
Proof.
  intros Hw. transitivity (Z.lor (w mod 2 ^ 28) (Z.shiftl (Z.shiftr w 30) 30)).
  - rewrite <- Z.land_ones by lia. change (u32 kReadBarrierStateMaskShiftedToggled) with
      (Z.lor (Z.ones 28) (Z.shiftl (Z.ones 2) 30)).
    apply Z.bits_inj'. intros i Hi. destruct (Z.ltb_spec i 30); bit_solve.
    replace (i - 30 + 30) with i by lia. btauto.
  - assert (0 <= w mod 2 ^ 28 < 2 ^ 28) by (apply Z.mod_pos_bound; lia).
    rewrite lor_shifted, Z.shiftr_div_pow2 by (try apply Z.shiftr_nonneg; width_lia). lia.
Qed.

Lemma GetState_eq b w : in_width 32 w ->
  GetState b w =
    if (if b then (w mod 2 ^ 28 =? 0) && (w / 2 ^ 30 =? 0) else w =? 0) then kUnlocked
    else if w / 2 ^ 30 =? 0 then kThinLocked
    else if w / 2 ^ 30 =? 2 then kHashCode
    else if w / 2 ^ 30 =? 3 then kForwardingAddress else kFatLocked.
Proof.
  intros Hw. unfold GetState. rewrite clear_rb by done.
  assert (Hs : Z.land (Z.shiftr w kStateShift) kStateMask = w / 2 ^ 30).
  { etransitivity; [apply (land_field w 30 2); lia|]. div_lia. }
  rewrite Hs.
  assert (Hb : (w mod 2 ^ 28 + 2 ^ 30 * (w / 2 ^ 30) =? 0) = (w mod 2 ^ 28 =? 0) && (w / 2 ^ 30 =? 0)).
  { apply eq_true_iff_eq. rewrite andb_true_iff, !Z.eqb_eq. div_lia. }
  rewrite Hb. by destruct b; cbn; rewrite ?orb_false_r.
Qed.

(** ** The constructors as sums *)
Lemma word_sum a b c : 0 <= a < 2 ^ 28 -> 0 <= b <= 3 -> 0 <= c <= 3 ->
  Z.lor (Z.lor a (u32 (Z.shiftl b kReadBarrierStateShift))) (u32 (Z.shiftl c kStateShift)) =
  a + b * 2 ^ 28 + c * 2 ^ 30.
Proof.
  intros Ha Hb Hc. change kReadBarrierStateShift with 28. change kStateShift with 30.
  rewrite !wrap_small by (rewrite Z.shiftl_mul_pow2 by lia; width_lia).
  rewrite (lor_shifted a b 28), (lor_shifted _ c 30) by lia. lia.
Qed.

Lemma rb_ok_range b rb : rb_ok b rb -> 0 <= rb <= 3.
Proof. destruct b; cbn; lia. Qed.

Lemma FromDefault_eq rb : 0 <= rb <= 3 -> FromDefault rb = rb * 2 ^ 28.
Proof.
  intros Hrb. unfold FromDefault. change kReadBarrierStateShift with 28.
  rewrite Z.shiftl_mul_pow2, wrap_small by width_lia. reflexivity.
Qed.
Lemma FromMonitor_eq id rb : in_width 28 id -> 0 <= rb <= 3 ->
  FromMonitor id rb = id + rb * 2 ^ 28 + 1 * 2 ^ 30.
Proof. intros Hid Hrb. apply word_sum; [exact Hid | lia | unfold kStateFat; lia]. Qed.
Lemma FromHashCode_eq h rb : in_width 28 h -> 0 <= rb <= 3 ->
  FromHashCode h rb = Done (h + rb * 2 ^ 28 + 2 * 2 ^ 30).
Proof.
  intros Hh Hrb. unfold FromHashCode. change kMaxHash with (2 ^ 28 - 1).
  destruct (Z.leb_spec h (2 ^ 28 - 1)); [|width_lia]. cbn [negb]. f_equal.
  rewrite Z.shiftl_0_r, (wrap_small 32 h) by width_lia. by apply word_sum.
Qed.
Lemma FromThinLockId_eq o c rb : in_width 16 o -> in_width 12 c -> 0 <= rb <= 3 ->
  FromThinLockId o c rb = Done (o + c * 2 ^ 16 + rb * 2 ^ 28).
Proof.
  intros Ho Hc Hrb. unfold FromThinLockId.
  change kThinLockMaxOwner with (2 ^ 16 - 1). change kThinLockMaxCount with (2 ^ 12 - 1).
  destruct (Z.leb_spec o (2 ^ 16 - 1)); [|width_lia].
  destruct (Z.leb_spec c (2 ^ 12 - 1)); [|width_lia]. cbn [negb]. f_equal.
  rewrite Z.shiftl_0_r, (wrap_small 32 o) by width_lia.
  change kThinLockCountShift with 16.
  rewrite (wrap_small 32 (Z.shiftl c _)) by (rewrite Z.shiftl_mul_pow2 by lia; width_lia).
  rewrite (lor_shifted o c 16) by width_lia. rewrite (word_sum _ rb 0) by width_lia. lia.
Qed.
Lemma FromForwardingAddress_eq t : in_width 32 t -> t mod 4 = 0 ->
  FromForwardingAddress t = t / 4 + 3 * 2 ^ 30.
Proof.
  intros Ht Hm. unfold FromForwardingAddress. change kStateSize with 2.
  change kStateShift with 30. rewrite Z.shiftr_div_pow2 by lia. change (2 ^ 2) with 4.
  rewrite (lor_shifted _ _ 30) by (unfold kStateForwardingAddress; div_lia).
  apply wrap_small. unfold kStateForwardingAddress. div_lia.
Qed.

(** ** Encoding and decoding *)
Create HintDb lockword.
#[local] Hint Rewrite ThinLockOwner_eq ThinLockCount_eq ReadBarrierState_eq FatLockMonitorId_eq
  GetHashCode_eq ForwardingAddress_eq : lockword.

(** The state and the fields of a word given by its parts. *)
Lemma decode_parts b w : in_width 32 w ->
  decode b w =
    if (if b then (w mod 2 ^ 28 =? 0) && (w / 2 ^ 30 =? 0) else w =? 0) then Unlocked ((w / 2 ^ 28) mod 4)
    else if w / 2 ^ 30 =? 0 then Thin (w mod 2 ^ 16) ((w / 2 ^ 16) mod 2 ^ 12) ((w / 2 ^ 28) mod 4)
    else if w / 2 ^ 30 =? 2 then Hash (w mod 2 ^ 28) ((w / 2 ^ 28) mod 4)
    else if w / 2 ^ 30 =? 3 then Forward (4 * (w mod 2 ^ 30))
    else Fat (w mod 2 ^ 28) ((w / 2 ^ 28) mod 4).
Proof.
  intros Hw. unfold decode. rewrite GetState_eq by done. autorewrite with lockword.
  repeat case_match; reflexivity || congruence.
Qed.

(** Decide the comparisons of [decode_parts] on a word written as a sum. *)
Ltac by_parts :=
  repeat match goal with
         | |- context [?a =? ?b] => destruct (Z.eqb_spec a b); cbn [andb]; try (exfalso; div_lia)
         end; cbn [andb]; f_equal; div_lia.

Lemma word_sum_ok b a rb c : 0 <= a < 2 ^ 28 -> rb_ok b rb -> 0 <= c <= 2 ->
  word_ok b (a + rb * 2 ^ 28 + c * 2 ^ 30).
Proof.
  intros Ha Hrb Hc. pose proof (rb_ok_range b rb Hrb). split; [width_lia|].
  rewrite ReadBarrierState_eq. intros _. by replace (_ mod 4) with rb by div_lia.
Qed.

Lemma encode_ok b v : value_ok b v -> exists w, encode v = Done w /\ word_ok b w /\ decode b w = v.
Proof.
  destruct v as [rb|o c rb|id rb|h rb|t]; cbn [value_ok encode].
  - intros Hrb. pose proof (rb_ok_range b rb Hrb). rewrite FromDefault_eq by done. eexists; split; [done|].
    split; [replace (rb * 2 ^ 28) with (0 + rb * 2 ^ 28 + 0 * 2 ^ 30) by lia; by apply word_sum_ok|].
    rewrite decode_parts by width_lia. destruct b; cbn in Hrb; by_parts.
  - intros (Ho & Hc & Hoc & Hrb). pose proof (rb_ok_range b rb Hrb). rewrite FromThinLockId_eq by done.
    eexists; split; [done|]. split.
    { replace (_ + _) with (o + c * 2 ^ 16 + rb * 2 ^ 28 + 0 * 2 ^ 30) by lia. apply word_sum_ok; [width_lia|done|lia]. }
    rewrite decode_parts by width_lia. destruct b; cbn in Hrb; by_parts.
  - intros (Hid & Hrb). pose proof (rb_ok_range b rb Hrb). rewrite FromMonitor_eq by done.
    eexists; split; [done|]. split; [by apply word_sum_ok|].
    rewrite decode_parts by width_lia. destruct b; cbn in Hrb; by_parts.
  - intros (Hid & Hrb). pose proof (rb_ok_range b rb Hrb). rewrite FromHashCode_eq by done.
    eexists; split; [done|]. split; [by apply word_sum_ok|].
    rewrite decode_parts by width_lia. destruct b; cbn in Hrb; by_parts.
  - intros (Ht & Hm). rewrite FromForwardingAddress_eq by done. eexists; split; [done|].
    split; [split; [div_lia|]|].
    + change kStateShift with 30. rewrite Z.shiftr_div_pow2 by lia. unfold kStateForwardingAddress.
      intros Hne. exfalso. apply Hne. div_lia.
    + rewrite decode_parts by div_lia. destruct b; by_parts.
Qed.

Lemma decode_ok b w : word_ok b w -> value_ok b (decode b w) /\ encode (decode b w) = Done w.
Proof.
  intros [Hw Hrb]. rewrite ReadBarrierState_eq in Hrb. change kStateShift with 30 in Hrb.
  rewrite Z.shiftr_div_pow2 in Hrb by lia. unfold kStateForwardingAddress in Hrb.
  rewrite decode_parts by done.
  assert (Hu : (if b then (w mod 2 ^ 28 =? 0) && (w / 2 ^ 30 =? 0) else w =? 0) = true ->
               w mod 2 ^ 28 = 0 /\ w / 2 ^ 30 = 0).
  { destruct b; [rewrite andb_true_iff, !Z.eqb_eq; done|]. rewrite Z.eqb_eq. intros ->. done. }
  assert (Hn : (if b then (w mod 2 ^ 28 =? 0) && (w / 2 ^ 30 =? 0) else w =? 0) = false ->
               w / 2 ^ 30 <> 3 -> w mod 2 ^ 28 <> 0 \/ w / 2 ^ 30 <> 0).
  { destruct b; [rewrite andb_false_iff, !Z.eqb_neq; lia|]. rewrite Z.eqb_neq. cbn in Hrb. div_lia. }
  destruct (if b then _ else _).
  - destruct (Hu eq_refl). cbn [value_ok encode]. split; [apply Hrb; lia|].
    rewrite FromDefault_eq by div_lia. f_equal. div_lia.
  - specialize (Hn eq_refl). clear Hu. repeat case_match;
      repeat match goal with H : (_ =? _) = true |- _ => apply Z.eqb_eq in H
             | H : (_ =? _) = false |- _ => apply Z.eqb_neq in H end; cbn [value_ok encode].
    + split; [repeat split; try apply Hrb; div_lia|].
      rewrite FromThinLockId_eq by div_lia. f_equal. div_lia.
    + split; [repeat split; try apply Hrb; div_lia|].
      rewrite FromHashCode_eq by div_lia. f_equal. div_lia.
    + split; [div_lia|]. rewrite FromForwardingAddress_eq by div_lia. f_equal. div_lia.
    + split; [repeat split; try apply Hrb; div_lia|].
      rewrite FromMonitor_eq by div_lia. f_equal. div_lia.
Qed.

(** ** Read barrier bits *)
Definition with_rb (rb : Z) (v : lock_value) : lock_value :=
  match v with
  | Unlocked _ => Unlocked rb
  | Thin owner count _ => Thin owner count rb
  | Fat monitor_id _ => Fat monitor_id rb
  | Hash hash_code _ => Hash hash_code rb
  | Forward target => Forward target
  end.
Definition is_forward (v : lock_value) : bool := match v with Forward _ => true | _ => false end.

Lemma SetReadBarrierState_eq rb w : in_width 32 w -> 0 <= rb <= 3 ->
  SetReadBarrierState rb w = w mod 2 ^ 28 + rb * 2 ^ 28 + (w / 2 ^ 30) * 2 ^ 30.
Proof.
  intros Hw Hrb. unfold SetReadBarrierState.
  replace (Z.land rb kReadBarrierStateMask) with rb by (destruct (decide (rb = 0 \/ rb = 1 \/ rb = 2 \/ rb = 3))
    as [[->|[->|[->| ->]]]|]; [reflexivity..|lia]).
  change (u32 (Z.lnot _)) with (u32 kReadBarrierStateMaskShiftedToggled). rewrite clear_rb by done.
  assert (0 <= w mod 2 ^ 28 < 2 ^ 28) by (apply Z.mod_pos_bound; lia).
  replace (w mod 2 ^ 28 + 2 ^ 30 * (w / 2 ^ 30)) with (Z.lor (w mod 2 ^ 28) (u32 (Z.shiftl (w / 2 ^ 30) 30)))
    by (rewrite wrap_small by (rewrite Z.shiftl_mul_pow2 by lia; div_lia); rewrite lor_shifted by div_lia; lia).
  rewrite <- Z.lor_assoc, (Z.lor_comm (u32 (_ ≪ 30))), Z.lor_assoc.
  apply (word_sum (w mod 2 ^ 28) rb (w / 2 ^ 30)); div_lia.
Qed.

Lemma set_rb_ok b w rb : word_ok b w -> rb_ok b rb -> is_forward (decode b w) = false ->
  word_ok b (SetReadBarrierState rb w) /\ decode b (SetReadBarrierState rb w) = with_rb rb (decode b w).
Proof.
  intros [Hw Hrb] Hrb' Hf. pose proof (rb_ok_range b rb Hrb').
  rewrite ReadBarrierState_eq in Hrb. change kStateShift with 30 in Hrb.
  rewrite Z.shiftr_div_pow2 in Hrb by lia. unfold kStateForwardingAddress in Hrb.
  rewrite SetReadBarrierState_eq by done. rewrite (decode_parts b w) in Hf |- * by done.
  assert (H3 : w / 2 ^ 30 <> 3).
  { intros H3. rewrite H3 in Hf. destruct b; [rewrite andb_false_r in Hf; discriminate|].
    destruct (Z.eqb_spec w 0); [subst w|]; discriminate. }
  specialize (Hrb H3). split; [apply word_sum_ok; [apply Z.mod_pos_bound; lia|done|div_lia]|].
  rewrite decode_parts by div_lia.
  set (w' := w mod 2 ^ 28 + rb * 2 ^ 28 + w / 2 ^ 30 * 2 ^ 30).
  assert (E1 : w' mod 2 ^ 28 = w mod 2 ^ 28) by (unfold w'; div_lia).
  assert (E2 : w' / 2 ^ 30 = w / 2 ^ 30) by (unfold w'; div_lia).
  assert (E3 : (w' / 2 ^ 28) mod 4 = rb) by (unfold w'; div_lia).
  assert (E4 : w' mod 2 ^ 16 = w mod 2 ^ 16) by div_lia.
  assert (E5 : (w' / 2 ^ 16) mod 2 ^ 12 = (w / 2 ^ 16) mod 2 ^ 12) by (clear E4; div_lia).
  rewrite E1, E2, E3, E4, E5. clear E4 E5.
  destruct b; cbn in Hrb, Hrb'; [by repeat case_match|].
  replace w' with w by (unfold w'; div_lia). repeat case_match; done || (cbn; f_equal; lia).
Qed.

(** ** Claims *)
(** C24: the lock words of a build are exactly the encodings of the values
    they stand for: a constructor applied to a value in range passes its
    checks and gives a word from which the accessors read that value back, and
    a word is given back by encoding what the accessors read from it.
    [SetReadBarrierState] changes the read barrier state and nothing else. *)
Theorem lock_word_values b v w rb :
  value_ok b v -> word_ok b w -> rb_ok b rb ->
  (exists wv, encode v = Done wv /\ word_ok b wv /\ decode b wv = v) /\
  (value_ok b (decode b w) /\ encode (decode b w) = Done w) /\
  (GetState b w <> kForwardingAddress ->
   word_ok b (SetReadBarrierState rb w) /\ decode b (SetReadBarrierState rb w) = with_rb rb (decode b w)).
Proof.
  intros Hv Hw Hrb. split; [by apply encode_ok|]. split; [by apply decode_ok|].
  intros Hf. apply set_rb_ok; [done|done|]. unfold decode. by destruct (GetState b w).
Qed.

Lemma lock_word_values_witness :
  (exists wv, encode (Thin 7 4095 2) = Done wv /\ word_ok true wv /\ decode true wv = Thin 7 4095 2) /\
  (value_ok true (decode true 0x6000002a) /\ encode (decode true 0x6000002a) = Done 0x6000002a) /\
  (GetState true 0x6000002a <> kForwardingAddress ->
   word_ok true (SetReadBarrierState 1 0x6000002a) /\
   decode true (SetReadBarrierState 1 0x6000002a) = with_rb 1 (decode true 0x6000002a)).
Proof.
  apply (lock_word_values true (Thin 7 4095 2) 0x6000002a 1).
  - cbn. unfold in_width. lia.
  - split; [unfold in_width; lia|]. intros _. vm_compute. split; discriminate.
  - cbn. lia.
Defined.

End LockWord.
