(* ===== verification/MonitorPool.v ===== *)
(** The pool of monitors (runtime/monitor_pool.h, monitor_pool.cc, the 64-bit
    build): chunks of monitors kept in up to eight lists of doubling capacity,
    a free list threaded through the free monitors, and the 28-bit ids that
    stand for monitors in lock words.

    The pool is proved to be an [IdPool], the interface through which monitors
    are created and released: an id that is handed out is in range, is not in
    use, and leads back to its monitor.  The chunk that [allocator_.allocate]
    returns is an argument of the operations; every operation runs under
    [allocated_monitor_ids_lock_] and is one function. *)
From stdpp Require Import prelude gmap list.
From Stdlib Require Import ZArith Lia.
From S2P Require Import Prelude LockWord.
Open Scope Z_scope.

(** What a pool of monitors promises: [ids_inv L p] says that [L] are the ids in
    use.  [fresh_chunk] is the memory an allocation may get. *)
Class IdPool (P C : Type) := {
  ids_inv : gset Z -> P -> Prop;
  fresh_chunk : P -> C -> Prop;
  create_id : C -> P -> outcome (Z * P);
  release_id : Z -> P -> P;
  create_id_fresh : forall L p c, ids_inv L p -> fresh_chunk p c ->
    match create_id c p with
    | Done (id, p') => (id ∉ L) /\ 0 <= id <= LockWord.kMaxMonitorId /\ ids_inv ({[id]} ∪ L) p'
    | Aborted => True
    | _ => False
    end;
  release_id_spec : forall L p id, ids_inv L p -> id ∈ L -> ids_inv (L ∖ {[id]}) (release_id id p)
}.

Module MonitorPool.

(** ** Sizes *)
Definition kPageSize : Z := 4096.
Definition kMonitorAlignment : Z := 8.
Definition kChunkSize : Z := kPageSize.
Definition kMaxChunkLists : Z := 8.

(** The build: whether it is a debug build, and [sizeof(Monitor)]. *)
Class Build := { kIsDebugBuild : bool; sizeof_Monitor : Z }.

Section Sizes.
Context `{Build}.
Definition kAlignedMonitorSize : Z :=
  Z.land (sizeof_Monitor + kMonitorAlignment - 1) (- kMonitorAlignment).
Definition kChunkCapacity : Z := kPageSize / kAlignedMonitorSize.
Definition kInitialChunkStorage : Z := if kIsDebugBuild then 1 else 256.
Definition kMaxListSize : Z := Z.shiftl kInitialChunkStorage (kMaxChunkLists - 1).
Definition ChunkListCapacity (index : Z) : Z := Z.shiftl kInitialChunkStorage index.
Definition MonitorIdToOffset (id : Z) : Z := u32 (Z.shiftl id 3).
Definition OffsetToMonitorId (offset : Z) : Z := u32 (Z.shiftr offset 3).
End Sizes.

(** ** State

    [monitor_chunks_] holds the entries of the chunk lists that are not zero,
    by list and by index in the list; [next_free_] and [monitor_id_] are the
    members of the monitors in memory, by address. *)
Record MonitorPool := mkPool {
  monitor_chunks_ : gmap (Z * Z) Z;
  current_chunk_list_index_ : Z;
  num_chunks_ : Z;
  current_chunk_list_capacity_ : Z;
  first_free_ : Z;
  next_free_ : gmap Z Z;
  monitor_id_ : gmap Z Z
}.

Section Pool.
Context `{Build}.

(** The loop of [AllocateChunk] that links the monitors of a chunk from the
    last to the first. *)
Fixpoint link_chunk (n : nat) (last : Z) (next id : gmap Z Z) : Z * gmap Z Z * gmap Z Z :=
  match n with
  | O => (last, next, id)
  | S n =>
      let before := last - kAlignedMonitorSize in
      let id_last := default 0 (id !! last) in
      link_chunk n before (<[before := last]> next)
        (<[before := OffsetToMonitorId (MonitorIdToOffset id_last - kAlignedMonitorSize)]> id)
  end.

(** The chunk list a new chunk goes to: the current list, its capacity and the
    number of its chunks, or the next list when the current one is full. *)
Definition next_list (p : MonitorPool) : outcome (Z * Z * Z) :=
  if num_chunks_ p =? current_chunk_list_capacity_ p then
    let index := if negb (current_chunk_list_capacity_ p =? 0) then current_chunk_list_index_ p + 1
                 else current_chunk_list_index_ p in
    if negb (current_chunk_list_capacity_ p =? 0) && negb (index <? kMaxChunkLists) then Aborted
    else Done (index, ChunkListCapacity index, 0)
  else Done (current_chunk_list_index_ p, current_chunk_list_capacity_ p, num_chunks_ p).

Definition AllocateChunk (chunk : Z) (p : MonitorPool) : outcome MonitorPool :=
  '(index, capacity, num_chunks) ← next_list p;
  if chunk =? 0 then Aborted
  else if negb (chunk mod kMonitorAlignment =? 0) then Aborted
  else
    let chunks := <[(index, num_chunks) := chunk]> (monitor_chunks_ p) in
    let num_chunks := num_chunks + 1 in
    let last := chunk + (kChunkCapacity - 1) * kAlignedMonitorSize in
    let next := <[last := 0]> (next_free_ p) in
    let id := <[last := OffsetToMonitorId (index * (kMaxListSize * kChunkSize)
                          + (num_chunks - 1) * kChunkSize + (kChunkCapacity - 1) * kAlignedMonitorSize)]>
                (monitor_id_ p) in
    let '(last, next, id) := link_chunk (Z.to_nat (kChunkCapacity - 1)) last next id in
    Done (mkPool chunks index num_chunks capacity last next id).

(** [MonitorPool::MonitorPool]. *)
Definition Create (chunk : Z) : outcome MonitorPool := AllocateChunk chunk (mkPool ∅ 0 0 0 0 ∅ ∅).

(** The monitor and its id; the monitor's other members are the caller's. *)
Definition CreateMonitorInPool (chunk : Z) (p : MonitorPool) : outcome (Z * Z * MonitorPool) :=
  p ← if first_free_ p =? 0 then AllocateChunk chunk p else Done p;
  let mon_uninitialized := first_free_ p in
  match next_free_ p !! mon_uninitialized, monitor_id_ p !! mon_uninitialized with
  | Some next, Some id =>
      Done (mon_uninitialized, id,
            mkPool (monitor_chunks_ p) (current_chunk_list_index_ p) (num_chunks_ p)
              (current_chunk_list_capacity_ p) next (next_free_ p) (<[mon_uninitialized := id]> (monitor_id_ p)))
  | _, _ => Faulted
  end.

Definition ReleaseMonitorToPool (monitor : Z) (p : MonitorPool) : MonitorPool :=
  let id := default 0 (monitor_id_ p !! monitor) in
  mkPool (monitor_chunks_ p) (current_chunk_list_index_ p) (num_chunks_ p) (current_chunk_list_capacity_ p)
    monitor (<[monitor := first_free_ p]> (next_free_ p)) (<[monitor := id]> (monitor_id_ p)).
Definition ReleaseMonitorsToPool (monitors : list Z) (p : MonitorPool) : MonitorPool :=
  foldl (fun p mon => ReleaseMonitorToPool mon p) p monitors.

Definition LookupMonitor (mon_id : Z) (p : MonitorPool) : Z :=
  let offset := MonitorIdToOffset mon_id in
  let index := offset / kChunkSize in
  let top_index := index / kMaxListSize in
  let list_index := index mod kMaxListSize in
  let offset_in_chunk := offset mod kChunkSize in
  let base := default 0 (monitor_chunks_ p !! (top_index, list_index)) in
  base + offset_in_chunk.

Definition IsInChunk (base_addr mon : Z) : bool :=
  (base_addr <=? mon) && (u64 (mon - base_addr) <? kChunkSize).

(** The loops of [ComputeMonitorIdInPool], with [n] rounds left. *)
Fixpoint search_list (n : nat) (p : MonitorPool) (mon i j : Z) : option Z :=
  match n with
  | O => None
  | S n =>
      if (num_chunks_ p <=? j) && (i =? current_chunk_list_index_ p) then None
      else
        let chunk_addr := default 0 (monitor_chunks_ p !! (i, j)) in
        if IsInChunk chunk_addr mon
        then Some (OffsetToMonitorId (mon - chunk_addr + i * (kMaxListSize * kChunkSize) + j * kChunkSize))
        else search_list n p mon i (j + 1)
  end.
Fixpoint search_lists (n : nat) (p : MonitorPool) (mon i : Z) : outcome Z :=
  match n with
  | O => Aborted
  | S n =>
      match search_list (Z.to_nat (ChunkListCapacity i)) p mon i 0 with
      | Some id => Done id
      | None => search_lists n p mon (i + 1)
      end
  end.
Definition ComputeMonitorIdInPool (mon : Z) (p : MonitorPool) : outcome Z :=
  search_lists (Z.to_nat (current_chunk_list_index_ p + 1)) p mon 0.

(** ** Sizes and offsets *)
Definition sizes_ok : Prop := 1 <= sizeof_Monitor <= kPageSize.
Context (Hsizes : sizes_ok).

Lemma aligned_size : kAlignedMonitorSize = 8 * ((sizeof_Monitor + 7) / 8).
Proof using.
  unfold kAlignedMonitorSize, kMonitorAlignment. change (- (8)) with (Z.lnot (Z.ones 3)).
  rewrite <- Z.ldiff_land, Z.ldiff_ones_r, Z.shiftl_mul_pow2, Z.shiftr_div_pow2 by lia.
  change (2 ^ 3) with 8. rewrite Z.mul_comm. do 2 f_equal. lia.
Qed.
Lemma size_range : 8 <= kAlignedMonitorSize <= kPageSize.
Proof using Hsizes. rewrite aligned_size. unfold sizes_ok, kPageSize in *. Z.div_mod_to_equations. lia. Qed.
Lemma capacity_range : 1 <= kChunkCapacity /\ kChunkCapacity * kAlignedMonitorSize <= kPageSize.
Proof using Hsizes.
  pose proof size_range. unfold kChunkCapacity. split.
  - apply Z.div_le_lower_bound; lia.
  - rewrite Z.mul_comm. apply Z.mul_div_le. lia.
Qed.
(** A monitor that starts in a chunk ends in it. *)
Lemma in_chunk k : 0 <= k < kChunkCapacity ->
  0 <= k * kAlignedMonitorSize /\ k * kAlignedMonitorSize + kAlignedMonitorSize <= kChunkSize.
Proof using Hsizes. pose proof size_range. pose proof capacity_range. unfold kChunkSize. nia. Qed.

Lemma storage : kInitialChunkStorage = 1 \/ kInitialChunkStorage = 256.
Proof using. unfold kInitialChunkStorage. destruct kIsDebugBuild; auto. Qed.
Lemma max_list_size : kMaxListSize = kInitialChunkStorage * 128.
Proof using. unfold kMaxListSize. by rewrite Z.shiftl_mul_pow2. Qed.
Lemma list_capacity i : 0 <= i < kMaxChunkLists -> 1 <= ChunkListCapacity i <= kMaxListSize.
Proof using.
  intros Hi. unfold ChunkListCapacity, kMaxListSize, kMaxChunkLists in *.
  rewrite !Z.shiftl_mul_pow2 by lia. pose proof storage.
  assert (2 ^ 0 <= 2 ^ i <= 2 ^ 7) by (split; apply Z.pow_le_mono_r; lia). change (8 - 1) with 7. nia.
Qed.

(** The offset that stands for monitor [k] of chunk [j] of list [i]. *)
Definition offset (i j k : Z) : Z :=
  i * (kMaxListSize * kChunkSize) + j * kChunkSize + k * kAlignedMonitorSize.
Definition in_lists (i j : Z) : Prop := 0 <= i < kMaxChunkLists /\ 0 <= j < ChunkListCapacity i.

Lemma offset_range i j k : in_lists i j -> 0 <= k < kChunkCapacity -> 0 <= offset i j k < 2 ^ 30.
Proof using Hsizes.
  intros [Hi Hj] Hk. pose proof (list_capacity i Hi). pose proof (in_chunk k Hk). pose proof size_range.
  pose proof max_list_size. pose proof storage. unfold offset, kChunkSize, kPageSize, kMaxChunkLists in *. nia.
Qed.
Lemma offset_aligned i j k : offset i j k mod 8 = 0.
Proof using.
  unfold offset. rewrite aligned_size. apply Z.mod_divide; [lia|].
  apply Z.divide_add_r; [apply Z.divide_add_r|].
  - apply Z.divide_mul_r, Z.divide_mul_r. by exists 512.
  - apply Z.divide_mul_r. by exists 512.
  - apply Z.divide_mul_r, Z.divide_factor_l.
Qed.
Lemma offset_id o : 0 <= o < 2 ^ 32 -> o mod 8 = 0 -> OffsetToMonitorId o = o / 8 /\ MonitorIdToOffset (o / 8) = o.
Proof using.
  intros Ho Hm. unfold OffsetToMonitorId, MonitorIdToOffset.
  rewrite Z.shiftr_div_pow2, Z.shiftl_mul_pow2 by lia. change (2 ^ 3) with 8.
  assert (E : o / 8 * 8 = o) by (Z.div_mod_to_equations; lia). rewrite E. split; apply wrap_small; width_lia.
Qed.
Lemma offset_split i j k : in_lists i j -> 0 <= k < kChunkCapacity ->
  offset i j k / kChunkSize / kMaxListSize = i /\ (offset i j k / kChunkSize) mod kMaxListSize = j /\
  offset i j k mod kChunkSize = k * kAlignedMonitorSize.
Proof using Hsizes.
  intros [Hi Hj] Hk. pose proof (list_capacity i Hi). pose proof (in_chunk k Hk) as [Hk1 Hk2]. pose proof size_range.
  replace (offset i j k) with (k * kAlignedMonitorSize + (j + i * kMaxListSize) * kChunkSize)
    by (unfold offset; lia).
  unfold kChunkSize, kPageSize in *. rewrite Z.mod_add, (Z.mod_small (k * _)) by lia.
  rewrite Z.div_add, (Z.div_small (k * _)), Z.add_0_l by lia.
  rewrite Z.div_add, Z.mod_add, (Z.div_small j), (Z.mod_small j) by lia. lia.
Qed.

(** ** The invariant *)

(** [next] links the monitors of [l] in order, from [a] to null. *)
Fixpoint chain (next : gmap Z Z) (a : Z) (l : list Z) : Prop :=
  match l with
  | [] => a = 0
  | x :: l => a = x /\ x <> 0 /\ exists n, next !! x = Some n /\ chain next n l
  end.

(** The entries of the chunk lists in use. *)
Definition used (p : MonitorPool) (i j : Z) : Prop :=
  0 <= i <= current_chunk_list_index_ p /\ 0 <= j < ChunkListCapacity i /\
  (i = current_chunk_list_index_ p -> j < num_chunks_ p).
(** Monitor [k] of chunk [j] of list [i] is at address [a]. *)
Definition slot (p : MonitorPool) (i j k a : Z) : Prop :=
  0 <= k < kChunkCapacity /\
  exists base, monitor_chunks_ p !! (i, j) = Some base /\ a = base + k * kAlignedMonitorSize.
Definition chunk_ok (b : Z) : Prop := 0 < b /\ b mod 8 = 0 /\ b + kChunkSize <= 2 ^ 64.
Definition apart (b b' : Z) : Prop := b + kChunkSize <= b' \/ b' + kChunkSize <= b.

Definition lists_ok (p : MonitorPool) : Prop :=
  0 <= current_chunk_list_index_ p < kMaxChunkLists /\
  (current_chunk_list_capacity_ p = ChunkListCapacity (current_chunk_list_index_ p) /\
   1 <= num_chunks_ p <= current_chunk_list_capacity_ p \/
   current_chunk_list_capacity_ p = 0 /\ num_chunks_ p = 0 /\ current_chunk_list_index_ p = 0).

Record pool_inv (free : list Z) (live : gset Z) (p : MonitorPool) : Prop := {
  inv_lists : lists_ok p;
  inv_used i j : is_Some (monitor_chunks_ p !! (i, j)) <-> used p i j;
  inv_chunk i j b : monitor_chunks_ p !! (i, j) = Some b -> chunk_ok b;
  inv_apart x y b b' : monitor_chunks_ p !! x = Some b -> monitor_chunks_ p !! y = Some b' -> x <> y -> apart b b';
  inv_ids i j k a : slot p i j k a -> monitor_id_ p !! a = Some (offset i j k / 8);
  inv_chain : chain (next_free_ p) (first_free_ p) free;
  inv_nodup : NoDup free;
  inv_slots a : (exists i j k, slot p i j k a) <-> a ∈ free \/ a ∈ live;
  inv_split a : a ∈ free -> a ∉ live
}.

(** The memory the allocator may give: not null, aligned, and apart from the
    chunks of the pool. *)
Definition chunk_fresh (p : MonitorPool) (c : Z) : Prop :=
  chunk_ok c /\ forall x b, monitor_chunks_ p !! x = Some b -> apart b c.

Lemma used_in_lists p i j : lists_ok p -> used p i j -> in_lists i j.
Proof using. intros Hl Hu. unfold lists_ok, used, in_lists in *. lia. Qed.

Lemma slot_in_lists free live p i j k a : pool_inv free live p -> slot p i j k a -> in_lists i j.
Proof using.
  intros Hp (_ & b & Hb & _). eapply used_in_lists; [by apply (inv_lists _ _ _ Hp)|].
  apply (inv_used _ _ _ Hp). eauto.
Qed.

(** The address of a monitor in use leads back from its id. *)
Lemma lookup_slot free live p i j k a : pool_inv free live p -> slot p i j k a ->
  LookupMonitor (offset i j k / 8) p = a.
Proof using Hsizes.
  intros Hp Hs. pose proof (slot_in_lists _ _ _ _ _ _ _ Hp Hs) as Hin. destruct Hs as (Hk & b & Hb & ->).
  unfold LookupMonitor. pose proof (offset_range i j k Hin Hk).
  destruct (offset_id (offset i j k)) as [_ ->]; [lia | apply offset_aligned |].
  destruct (offset_split i j k Hin Hk) as (-> & -> & ->). by rewrite Hb.
Qed.

Lemma slot_nonnull free live p i j k a : pool_inv free live p -> slot p i j k a -> a <> 0.
Proof using Hsizes.
  intros Hp (Hk & b & Hb & ->). pose proof (inv_chunk _ _ _ Hp _ _ _ Hb) as [Hpos _].
  pose proof (in_chunk k Hk). lia.
Qed.

Lemma id_range i j k : in_lists i j -> 0 <= k < kChunkCapacity ->
  0 <= offset i j k / 8 <= LockWord.kMaxMonitorId.
Proof using Hsizes.
  intros Hin Hk. pose proof (offset_range i j k Hin Hk). change LockWord.kMaxMonitorId with (2 ^ 28 - 1).
  Z.div_mod_to_equations. lia.
Qed.

(** ** [ComputeMonitorIdInPool] *)
Lemma IsInChunk_spec b m : chunk_ok b -> 0 <= m < 2 ^ 64 -> IsInChunk b m = true <-> b <= m < b + kChunkSize.
Proof using.
  intros (Hb & _ & He) Hm. unfold IsInChunk. rewrite andb_true_iff, Z.leb_le, Z.ltb_lt.
  split; intros [H1 H2]; (split; [lia|]); rewrite wrap_small in * by (unfold in_width; lia); lia.
Qed.

(** A monitor in chunk [j0] of list [i0] is in no other chunk. *)
Definition located (p : MonitorPool) (mon i0 j0 : Z) : Prop :=
  forall i j, used p i j ->
    exists b, monitor_chunks_ p !! (i, j) = Some b /\ IsInChunk b mon = bool_decide (i = i0 /\ j = j0).

Lemma slot_located free live p i j k a : pool_inv free live p -> slot p i j k a -> located p a i j.
Proof using Hsizes.
  intros Hp (Hk & b & Hb & ->) i' j' Hu. apply (inv_used _ _ _ Hp) in Hu as [b' Hb']. exists b'. split; [done|].
  pose proof (in_chunk k Hk) as [Hk1 Hk2]. pose proof size_range.
  pose proof (inv_chunk _ _ _ Hp _ _ _ Hb) as Hok. pose proof (inv_chunk _ _ _ Hp _ _ _ Hb') as Hok'.
  assert (0 <= b + k * kAlignedMonitorSize < 2 ^ 64) by (unfold chunk_ok in Hok; lia).
  apply eq_true_iff_eq. rewrite IsInChunk_spec, bool_decide_eq_true by done. split.
  - intros Hin. destruct (decide ((i', j') = (i, j))) as [E|Hne]; [by inversion E|].
    pose proof (inv_apart _ _ _ Hp _ _ _ _ Hb' Hb Hne) as Ha. unfold apart in Ha. lia.
  - intros [-> ->]. rewrite Hb in Hb'. injection Hb' as <-. lia.
Qed.

Lemma search_list_spec p mon i0 j0 b0 i n j :
  located p mon i0 j0 -> monitor_chunks_ p !! (i0, j0) = Some b0 ->
  0 <= i <= current_chunk_list_index_ p -> 0 <= j -> j + Z.of_nat n <= ChunkListCapacity i ->
  (i = i0 -> j <= j0 /\ used p i0 j0 /\ j0 < j + Z.of_nat n) ->
  search_list n p mon i j =
    if i =? i0 then Some (OffsetToMonitorId (mon - b0 + i0 * (kMaxListSize * kChunkSize) + j0 * kChunkSize)) else None.
Proof using.
  intros Hloc Hb0 Hi. revert j. induction n as [|n IH]; intros j Hj Hcap Ht; cbn [search_list].
  { destruct (Z.eqb_spec i i0) as [E|]; [|done]. specialize (Ht E). lia. }
  destruct ((num_chunks_ p <=? j) && (i =? current_chunk_list_index_ p)) eqn:Eb.
  - apply andb_true_iff in Eb as [E1%Z.leb_le E2%Z.eqb_eq]. destruct (Z.eqb_spec i i0) as [E|]; [|done].
    destruct (Ht E) as (? & Hu & ?). subst i0. unfold used in Hu. lia.
  - assert (Hu : used p i j).
    { apply andb_false_iff in Eb. rewrite Z.leb_gt, Z.eqb_neq in Eb. unfold used. lia. }
    destruct (Hloc i j Hu) as (b & Hb & Hin). rewrite Hb. change (default 0 (Some b)) with b. rewrite Hin.
    case_bool_decide as Hd.
    + destruct Hd as [-> ->]. rewrite Hb0 in Hb. injection Hb as <-. by rewrite Z.eqb_refl.
    + apply IH; [lia | lia |]. intros E. destruct (Ht E) as (Ht1 & Ht2 & Ht3).
      assert (j <> j0) by (intros ->; tauto). split; [lia|]. split; [done|lia].
Qed.

Lemma search_lists_spec p mon i0 j0 b0 n i :
  lists_ok p -> located p mon i0 j0 -> monitor_chunks_ p !! (i0, j0) = Some b0 -> used p i0 j0 ->
  0 <= i <= i0 -> i + Z.of_nat n = current_chunk_list_index_ p + 1 ->
  search_lists n p mon i =
    Done (OffsetToMonitorId (mon - b0 + i0 * (kMaxListSize * kChunkSize) + j0 * kChunkSize)).
Proof using.
  intros Hl Hloc Hb0 Hu. revert i. induction n as [|n IH]; intros i Hi Hn; [unfold used in Hu; lia|].
  cbn [search_lists].
  assert (Hi' : 0 <= i < kMaxChunkLists) by (unfold used, lists_ok in *; lia).
  pose proof (list_capacity i Hi').
  assert (Hi0 : 0 <= i <= current_chunk_list_index_ p) by (unfold used in Hu; lia).
  assert (Ht : i = i0 -> 0 <= j0 /\ used p i0 j0 /\ j0 < 0 + Z.of_nat (Z.to_nat (ChunkListCapacity i))).
  { intros ->. split; [unfold used in Hu; lia|]. split; [done|]. unfold used in Hu. lia. }
  rewrite (search_list_spec p mon i0 j0 b0 i _ 0 Hloc Hb0 Hi0) by (done || lia).
  destruct (Z.eqb_spec i i0); [done|]. apply IH; lia.
Qed.

Lemma compute_slot free live p i j k a : pool_inv free live p -> slot p i j k a ->
  ComputeMonitorIdInPool a p = Done (offset i j k / 8).
Proof using Hsizes.
  intros Hp Hs. pose proof (slot_in_lists _ _ _ _ _ _ _ Hp Hs) as Hin.
  pose proof (slot_located _ _ _ _ _ _ _ Hp Hs) as Hloc. destruct Hs as (Hk & b & Hb & ->).
  pose proof (inv_lists _ _ _ Hp) as Hl. assert (Hu : used p i j) by (apply (inv_used _ _ _ Hp); eauto).
  unfold ComputeMonitorIdInPool. rewrite (search_lists_spec p _ i j b) by
    (try done; unfold used, lists_ok in *; lia).
  f_equal. pose proof (offset_range i j k Hin Hk).
  replace (_ + _) with (offset i j k) by (unfold offset; lia).
  apply offset_id; [lia | apply offset_aligned].
Qed.

(** ** [AllocateChunk] *)
Lemma link_chunk_spec o b n next id :
  0 <= o -> o mod 8 = 0 -> o + Z.of_nat n * kAlignedMonitorSize < 2 ^ 32 ->
  id !! (b + Z.of_nat n * kAlignedMonitorSize) = Some ((o + Z.of_nat n * kAlignedMonitorSize) / 8) ->
  exists next' id', link_chunk n (b + Z.of_nat n * kAlignedMonitorSize) next id = (b, next', id') /\
    (forall k, 0 <= k < Z.of_nat n ->
       next' !! (b + k * kAlignedMonitorSize) = Some (b + (k + 1) * kAlignedMonitorSize)) /\
    (forall k, 0 <= k <= Z.of_nat n -> id' !! (b + k * kAlignedMonitorSize) = Some ((o + k * kAlignedMonitorSize) / 8)) /\
    (forall a, (forall k, 0 <= k < Z.of_nat n -> a <> b + k * kAlignedMonitorSize) ->
       next' !! a = next !! a /\ id' !! a = id !! a).
Proof using Hsizes.
  intros Ho Hm. pose proof size_range as Hsz. revert next id. induction n as [|n IH]; intros next id Hlt Hid.
  { exists next, id. cbn [link_chunk]. split; [by replace (b + _) with b by lia|].
    split; [lia|]. split; [|done]. intros k Hk. by replace k with (Z.of_nat 0) by lia. }
  cbn [link_chunk]. rewrite Hid. change (default 0 (Some ?x)) with x.
  replace (b + Z.of_nat (S n) * kAlignedMonitorSize - kAlignedMonitorSize)
    with (b + Z.of_nat n * kAlignedMonitorSize) by lia.
  assert (Ha : forall m, 0 <= m -> (o + m * kAlignedMonitorSize) mod 8 = 0).
  { intros m _. rewrite aligned_size, Z.mul_assoc, (Z.mul_comm m 8), <- Z.mul_assoc, (Z.mul_comm 8).
    by rewrite Z.mod_add by lia. }
  destruct (offset_id (o + Z.of_nat (S n) * kAlignedMonitorSize)) as [_ ->]; [nia | by apply Ha |].
  replace (o + Z.of_nat (S n) * kAlignedMonitorSize - kAlignedMonitorSize)
    with (o + Z.of_nat n * kAlignedMonitorSize) by lia.
  destruct (offset_id (o + Z.of_nat n * kAlignedMonitorSize)) as [-> _]; [nia | apply Ha; lia |].
  edestruct IH as (next' & id' & -> & Hn & Hi & Hr); [nia | apply lookup_insert_eq |].
  exists next', id'. split; [done|]. split; [|split].
  - intros k Hk. destruct (Z.eq_dec k (Z.of_nat n)) as [->|]; [|apply Hn; lia].
    destruct (Hr (b + Z.of_nat n * kAlignedMonitorSize)) as [-> _]; [intros ? ?; nia|].
    rewrite lookup_insert_eq. do 2 f_equal. lia.
  - intros k Hk. destruct (Z.eq_dec k (Z.of_nat (S n))) as [->|]; [|apply Hi; lia].
    destruct (Hr (b + Z.of_nat (S n) * kAlignedMonitorSize)) as [_ ->]; [intros ? ?; nia|].
    by rewrite lookup_insert_ne by nia.
  - intros a Hk. destruct (Hr a) as [-> ->]; [intros k ?; apply Hk; lia|].
    rewrite !lookup_insert_ne by (apply not_eq_sym, Hk; lia). done.
Qed.

(** The pool has no room for another chunk. *)
Definition pool_full (p : MonitorPool) : Prop :=
  current_chunk_list_index_ p = kMaxChunkLists - 1 /\ num_chunks_ p = current_chunk_list_capacity_ p /\
  num_chunks_ p <> 0.

Lemma next_list_spec p : lists_ok p ->
  match next_list p with
  | Done (i, capacity, n) =>
      in_lists i n /\ capacity = ChunkListCapacity i /\ ~ used p i n /\
      forall i' j', (0 <= i' <= i /\ 0 <= j' < ChunkListCapacity i' /\ (i' = i -> j' < n + 1)) <->
                    used p i' j' \/ (i', j') = (i, n)
  | Aborted => pool_full p
  | _ => False
  end.
Proof using.
  intros (Hi & Hc). unfold next_list, pool_full, used, in_lists.
  pose proof (list_capacity _ Hi) as Hcap. unfold kMaxChunkLists in *.
  set (ci := current_chunk_list_index_ p) in *. set (n := num_chunks_ p) in *.
  set (cap := current_chunk_list_capacity_ p) in *.
  destruct (Z.eqb_spec n cap) as [En|En].
  - destruct (Z.eqb_spec cap 0) as [E0|E0]; cbn [negb andb].
    + assert (ci = 0) as -> by lia. split; [lia|]. split; [done|]. split; [lia|].
      intros i' j'. rewrite pair_equal_spec. destruct (Z.eq_dec i' 0) as [->|]; lia.
    + destruct (Z.ltb_spec (ci + 1) 8) as [H8|H8]; cbn [negb]; [|lia].
      pose proof (list_capacity (ci + 1) ltac:(unfold kMaxChunkLists; lia)).
      split; [lia|]. split; [done|]. split; [lia|].
      intros i' j'. rewrite pair_equal_spec.
      destruct (Z.eq_dec i' ci) as [->|]; [lia|]. destruct (Z.eq_dec i' (ci + 1)) as [->|]; lia.
  - assert (cap = ChunkListCapacity ci) by lia.
    split; [lia|]. split; [done|]. split; [lia|].
    intros i' j'. rewrite pair_equal_spec. destruct (Z.eq_dec i' ci) as [->|]; lia.
Qed.

(** The monitors of a chunk, in the order of the free list. *)
Definition chunk_monitors (c : Z) : list Z :=
  (fun k => c + k * kAlignedMonitorSize) <$> seqZ 0 kChunkCapacity.

Lemma elem_chunk_monitors c a :
  a ∈ chunk_monitors c <-> exists k, 0 <= k < kChunkCapacity /\ a = c + k * kAlignedMonitorSize.
Proof using.
  unfold chunk_monitors. rewrite list_elem_of_fmap. setoid_rewrite elem_of_seqZ. naive_solver lia.
Qed.
Lemma NoDup_chunk_monitors c : NoDup (chunk_monitors c).
Proof using Hsizes.
  pose proof size_range. apply NoDup_fmap_2_strong, NoDup_seqZ. intros x y _ _ E. nia.
Qed.

Lemma chain_monitors next c m k : Z.of_nat m = kChunkCapacity - k -> 0 <= k -> 0 < c ->
  (forall k, 0 <= k < kChunkCapacity - 1 ->
     next !! (c + k * kAlignedMonitorSize) = Some (c + (k + 1) * kAlignedMonitorSize)) ->
  next !! (c + (kChunkCapacity - 1) * kAlignedMonitorSize) = Some 0 -> (m <> 0)%nat ->
  chain next (c + k * kAlignedMonitorSize) ((fun k => c + k * kAlignedMonitorSize) <$> seqZ k (Z.of_nat m)).
Proof using Hsizes.
  intros Hm Hk Hc Hn Hl. pose proof size_range. revert k Hm Hk. induction m as [|m IH]; intros k Hm Hk Hne; [done|].
  rewrite seqZ_cons by lia. cbn [fmap list_fmap chain]. split; [done|]. split; [nia|].
  replace (Z.pred (Z.of_nat (S m))) with (Z.of_nat m) by lia. rewrite <- Z.add_1_r. destruct m as [|m].
  - replace k with (kChunkCapacity - 1) by lia. rewrite Hl. by exists 0.
  - rewrite Hn by lia. eexists; split; [done|]. apply IH; lia.
Qed.

(** What [AllocateChunk] makes of the pool's memory. *)
Lemma AllocateChunk_memory c p i capacity n : in_lists i n -> chunk_ok c ->
  next_list p = Done (i, capacity, n) ->
  exists next id, AllocateChunk c p = Done (mkPool (<[(i, n) := c]> (monitor_chunks_ p)) i (n + 1) capacity c next id) /\
    chain next c (chunk_monitors c) /\
    (forall k, 0 <= k < kChunkCapacity -> id !! (c + k * kAlignedMonitorSize) = Some (offset i n k / 8)) /\
    (forall a, a ∉ chunk_monitors c -> id !! a = monitor_id_ p !! a).
Proof using Hsizes.
  intros Hin (Hc & Hm & _) El. pose proof capacity_range as [Hcap _]. unfold AllocateChunk. rewrite El. cbn.
  destruct (Z.eqb_spec c 0); [lia|]. change kMonitorAlignment with 8. rewrite Hm. cbn [Z.eqb negb].
  replace (n + 1 - 1) with n by lia. 
  change (i * _ + _ + _) with (offset i n (kChunkCapacity - 1)).
  set (next0 := <[_ := 0]> _). set (id0 := <[_ := OffsetToMonitorId _]> _).
  assert (Hr : 0 <= offset i n (kChunkCapacity - 1) < 2 ^ 30) by (apply offset_range; [done|lia]).
  assert (Eo : forall k, offset i n k = offset i n 0 + k * kAlignedMonitorSize) by (intros; unfold offset; lia).
  destruct (link_chunk_spec (offset i n 0) c (Z.to_nat (kChunkCapacity - 1)) next0 id0) as (next & id & E & Hn & Hi & Hx).
  { by apply offset_range; [|lia]. } { apply offset_aligned. } { rewrite <- Eo, Z2Nat.id by lia. lia. }
  { rewrite Z2Nat.id, <- Eo by lia. unfold id0. rewrite lookup_insert_eq. f_equal.
    apply offset_id; [lia | apply offset_aligned]. }
  rewrite Z2Nat.id in E, Hn, Hi, Hx by lia. rewrite E. exists next, id. split; [done|]. split; [|split].
  - unfold chunk_monitors. rewrite <- (Z2Nat.id kChunkCapacity) by lia.
    replace c with (c + 0 * kAlignedMonitorSize) at 1 by lia. apply chain_monitors; [lia|lia|lia|done| |lia].
    destruct (Hx (c + (kChunkCapacity - 1) * kAlignedMonitorSize)) as [-> _]; [|apply lookup_insert_eq].
    intros k Hk. pose proof size_range. nia.
  - intros k Hk. rewrite Eo. apply Hi. lia.
  - intros a Ha. rewrite elem_chunk_monitors in Ha.
    destruct (Hx a) as [_ ->]; [intros k Hk E'; apply Ha; exists k; lia|].
    apply lookup_insert_ne. intros E'. apply Ha. exists (kChunkCapacity - 1). lia.
Qed.

Lemma slot_new c p i n capacity next id first i' j' k a :
  monitor_chunks_ p !! (i, n) = None ->
  slot (mkPool (<[(i, n) := c]> (monitor_chunks_ p)) i (n + 1) capacity first next id) i' j' k a <->
  slot p i' j' k a \/ (i', j') = (i, n) /\ 0 <= k < kChunkCapacity /\ a = c + k * kAlignedMonitorSize.
Proof using.
  intros Hnone. unfold slot. cbn. destruct (decide ((i', j') = (i, n))) as [E|E].
  - rewrite E, lookup_insert_eq. rewrite Hnone. naive_solver.
  - rewrite lookup_insert_ne by congruence. naive_solver.
Qed.

Lemma AllocateChunk_inv live c p : pool_inv [] live p -> chunk_fresh p c ->
  match AllocateChunk c p with
  | Done p' =>
      pool_inv (chunk_monitors c) live p' /\ forall a, a ∈ live -> monitor_id_ p' !! a = monitor_id_ p !! a
  | Aborted => pool_full p
  | _ => False
  end.
Proof using Hsizes.
  intros Hp [Hok Hfresh]. pose proof (next_list_spec p (inv_lists _ _ _ Hp)) as Hl.
  destruct (next_list p) as [[[i capacity] n]| | |] eqn:El; [|unfold AllocateChunk; rewrite El; done..].
  destruct Hl as (Hin & -> & Hnu & Hused).
  destruct (AllocateChunk_memory c p i _ n Hin Hok El) as (next & id & -> & Hchain & Hid & Hold).
  assert (Hnone : monitor_chunks_ p !! (i, n) = None).
  { apply eq_None_not_Some. by rewrite (inv_used _ _ _ Hp). }
  assert (Hout : forall i' j' k a, slot p i' j' k a -> a ∉ chunk_monitors c).
  { intros i' j' k a (Hk & b & Hb & ->). rewrite elem_chunk_monitors. intros (k' & Hk' & E).
    pose proof (Hfresh _ _ Hb) as Ha. pose proof (in_chunk k Hk). pose proof (in_chunk k' Hk').
    pose proof size_range. unfold apart in Ha. lia. }
  assert (Hlive : forall a, a ∈ live -> a ∉ chunk_monitors c).
  { intros a Ha. destruct (proj2 (inv_slots _ _ _ Hp a) (or_intror Ha)) as (i' & j' & k & Hs). eauto. }
  split; [|intros a Ha; by apply Hold, Hlive].
  split; cbn [monitor_chunks_ current_chunk_list_index_ num_chunks_ current_chunk_list_capacity_ first_free_
              next_free_ monitor_id_].
  - unfold lists_ok; cbn. unfold in_lists in Hin. lia.
  - intros i' j'. unfold used; cbn. rewrite Hused, <- (inv_used _ _ _ Hp), lookup_insert_is_Some.
    destruct (decide ((i, n) = (i', j'))); naive_solver.
  - intros i' j' b [[_ <-]|[_ Hb]]%lookup_insert_Some; [done|]. by apply (inv_chunk _ _ _ Hp) in Hb.
  - intros x y b b' [[<- <-]|[Hx Hb]]%lookup_insert_Some [[<- <-]|[Hy Hb']]%lookup_insert_Some Hne; [done|..].
    + apply Hfresh in Hb'. unfold apart in *. lia.
    + by apply Hfresh in Hb.
    + by apply (inv_apart _ _ _ Hp x y).
  - intros i' j' k a Hs. apply slot_new in Hs as [Hs|(E & Hk & ->)]; [|injection E as -> ->; by apply Hid|done].
    rewrite Hold by eauto. by apply (inv_ids _ _ _ Hp).
  - done.
  - apply NoDup_chunk_monitors.
  - intros a. setoid_rewrite slot_new; [|done]. rewrite elem_chunk_monitors.
    pose proof (inv_slots _ _ _ Hp a) as Ha. rewrite elem_of_nil in Ha. naive_solver.
  - intros a Hc' Ha. by apply Hlive in Ha.
Qed.

(** ** Creation and release *)
Lemma empty_inv : pool_inv [] ∅ (mkPool ∅ 0 0 0 0 ∅ ∅).
Proof using Hsizes.
  split; cbn; try done.
  - unfold lists_ok; cbn. unfold kMaxChunkLists. lia.
  - intros i j. rewrite lookup_empty. unfold used; cbn. split; [by intros [? ?]|lia].
  - intros i j k a (_ & b & Hb & _). cbn in Hb; by rewrite lookup_empty in Hb.
  - constructor.
  - intros a. split; [|set_solver]. intros (i & j & k & _ & b & Hb & _). cbn in Hb; by rewrite lookup_empty in Hb.
Qed.

Lemma Create_inv c p : chunk_ok c -> Create c = Done p -> pool_inv (chunk_monitors c) ∅ p.
Proof using Hsizes.
  intros Hc E. pose proof (AllocateChunk_inv ∅ c _ empty_inv) as Ha. unfold Create in E. rewrite E in Ha.
  apply Ha. split; [done|]. intros x b Hb. cbn in Hb; by rewrite lookup_empty in Hb.
Qed.

Definition with_free (first : Z) (next : gmap Z Z) (p : MonitorPool) : MonitorPool :=
  mkPool (monitor_chunks_ p) (current_chunk_list_index_ p) (num_chunks_ p) (current_chunk_list_capacity_ p)
    first next (monitor_id_ p).

(** Moving monitors between the free list and the monitors in use. *)
Lemma move_inv free live free' live' first next p :
  pool_inv free live p -> chain next first free' -> NoDup free' ->
  (forall a, a ∈ free' \/ a ∈ live' <-> a ∈ free \/ a ∈ live) -> (forall a, a ∈ free' -> a ∉ live') ->
  pool_inv free' live' (with_free first next p).
Proof using Hsizes.
  intros Hp Hc Hn Hs Hd. destruct Hp as [H1 H2 H3 H4 H5 H6 H7 H8 H9]. split; cbn; try done.
  intros a. rewrite Hs. apply H8.
Qed.

Lemma chain_insert next a l m v : m ∉ l -> chain next a l -> chain (<[m := v]> next) a l.
Proof using Hsizes.
  revert a. induction l as [|x l IH]; intros a Hm; cbn [chain]; [done|].
  intros (-> & Hx & n & En & Hc). apply not_elem_of_cons in Hm as [Hne Hm].
  split; [done|]. split; [done|]. exists n. rewrite lookup_insert_ne by done. auto.
Qed.

Lemma slot_id free live p m : pool_inv free live p -> m ∈ free \/ m ∈ live ->
  exists i j k, slot p i j k m /\ in_lists i j /\ 0 <= k < kChunkCapacity /\
    monitor_id_ p !! m = Some (offset i j k / 8).
Proof using Hsizes.
  intros Hp Hm. apply (inv_slots _ _ _ Hp) in Hm as (i & j & k & Hs). exists i, j, k.
  split; [done|]. split; [by eapply slot_in_lists|]. split; [by destruct Hs|]. by apply (inv_ids _ _ _ Hp).
Qed.

Lemma take_first free live x p : pool_inv (x :: free) live p ->
  first_free_ p = x /\ exists n id, next_free_ p !! x = Some n /\ monitor_id_ p !! x = Some id /\ x ∉ live /\
    pool_inv free ({[x]} ∪ live) (with_free n (next_free_ p) p).
Proof using Hsizes.
  intros Hp. destruct (inv_chain _ _ _ Hp) as (-> & _ & n & En & Hc). split; [done|].
  destruct (slot_id _ _ _ x Hp) as (i & j & k & _ & _ & _ & Hid); [set_solver|]. exists n. eexists. split; [done|].
  split; [done|]. pose proof (inv_nodup _ _ _ Hp) as [Hx Hn]%NoDup_cons.
  pose proof (inv_split _ _ _ Hp) as Hd. split; [set_solver|]. eapply move_inv; [done | done | done | set_solver |].
  intros a Ha. assert (a <> x) by (intros ->; done). specialize (Hd a). set_solver.
Qed.

Lemma CreateMonitorInPool_inv free live c p : pool_inv free live p -> chunk_fresh p c ->
  match CreateMonitorInPool c p with
  | Done (m, id, p') =>
      (m ∉ live) /\ monitor_id_ p' !! m = Some id /\ (exists free', pool_inv free' ({[m]} ∪ live) p') /\
      forall a, a ∈ live -> monitor_id_ p' !! a = monitor_id_ p !! a
  | Aborted => free = [] /\ pool_full p
  | _ => False
  end.
Proof using Hsizes.
  assert (Ht : forall x free p, pool_inv (x :: free) live p ->
    exists id p', CreateMonitorInPool c p = Done (x, id, p') /\ x ∉ live /\ monitor_id_ p' !! x = Some id /\
      (exists free', pool_inv free' ({[x]} ∪ live) p') /\ monitor_id_ p' = monitor_id_ p).
  { clear p free. intros x free p Hp. pose proof (inv_slots _ _ _ Hp x) as Hsl.
    destruct (take_first _ _ _ _ Hp) as (Ef & n & id & En & Ei & Hl & Hp').
    destruct (proj2 Hsl) as (i & j & k & Hs); [set_solver|]. pose proof (slot_nonnull _ _ _ _ _ _ _ Hp Hs).
    exists id, (with_free n (next_free_ p) p). unfold CreateMonitorInPool. rewrite Ef.
    destruct (Z.eqb_spec x 0); [done|]. cbn. rewrite Ef, En, Ei. unfold with_free. rewrite insert_id by done.
    split; [done|]. split; [done|]. split; [done|]. split; [by exists free | done]. }
  intros Hp Hc. destruct free as [|x free].
  - assert (Ef : first_free_ p = 0) by apply (inv_chain _ _ _ Hp).
    pose proof (AllocateChunk_inv live c p Hp Hc) as Ha. unfold CreateMonitorInPool. rewrite Ef. cbn.
    destruct (AllocateChunk c p) as [p1| | |] eqn:Ea; [|done..]. cbn.
    destruct Ha as [Ha Hids].
    pose proof capacity_range. unfold chunk_monitors in Ha. rewrite seqZ_cons in Ha by lia. cbn in Ha.
    destruct (Ht _ _ _ Ha) as (id & p' & E & Hx & Hid & Hf & Eids). unfold CreateMonitorInPool in E.
    destruct (take_first _ _ _ _ Ha) as (Ef1 & _). rewrite Ef1 in E |- *.
    pose proof (proj1 Hc) as (Hc0 & _). destruct (Z.eqb_spec (c + 0 * kAlignedMonitorSize) 0); [lia|].
    cbn in E. rewrite Ef1 in E. rewrite E. repeat (split; [done|]).
    intros a Ha'. rewrite Eids. auto.
  - destruct (Ht _ _ _ Hp) as (id & p' & -> & Hx & Hid & Hf & Eids). repeat (split; [done|]).
    intros a _. by rewrite Eids.
Qed.

Lemma ReleaseMonitorToPool_inv free live m p : pool_inv free live p -> m ∈ live ->
  pool_inv (m :: free) (live ∖ {[m]}) (ReleaseMonitorToPool m p).
Proof using Hsizes.
  intros Hp Hm. destruct (slot_id _ _ _ m Hp) as (i & j & k & Hs & _ & _ & Hid); [auto|].
  unfold ReleaseMonitorToPool. rewrite Hid. change (default 0 (Some ?x)) with x. rewrite (insert_id (monitor_id_ p)) by done.
  assert (Hf : m ∉ free) by (intros Hf; by apply (inv_split _ _ _ Hp) in Hf).
  apply (move_inv free live (m :: free) (live ∖ {[m]}) m (<[m := first_free_ p]> (next_free_ p)) p Hp).
  - cbn. split; [done|]. split; [by eapply slot_nonnull|]. exists (first_free_ p). rewrite lookup_insert_eq.
    split; [done|]. apply chain_insert; [done|apply (inv_chain _ _ _ Hp)].
  - apply NoDup_cons. split; [done|apply (inv_nodup _ _ _ Hp)].
  - intros a. destruct (decide (a = m)); set_solver.
  - intros a. pose proof (inv_split _ _ _ Hp a). set_solver.
Qed.

(** The id of a monitor of the pool, by every route. *)
Lemma monitor_ids free live p m : pool_inv free live p -> m ∈ free \/ m ∈ live ->
  exists id, monitor_id_ p !! m = Some id /\ 0 <= id <= LockWord.kMaxMonitorId /\
    LookupMonitor id p = m /\ ComputeMonitorIdInPool m p = Done id.
Proof using Hsizes.
  intros Hp Hm. destruct (slot_id _ _ _ m Hp Hm) as (i & j & k & Hs & Hin & Hk & Hid). eexists. split; [done|].
  split; [by apply id_range|]. split; [by eapply lookup_slot | by eapply compute_slot].
Qed.

Lemma monitor_ids_inj free live p m m' id : pool_inv free live p -> m ∈ free \/ m ∈ live -> m' ∈ free \/ m' ∈ live ->
  monitor_id_ p !! m = Some id -> monitor_id_ p !! m' = Some id -> m = m'.
Proof using Hsizes.
  intros Hp Hm Hm' E E'. destruct (monitor_ids _ _ _ m Hp Hm) as (i1 & E1 & _ & L1 & _).
  destruct (monitor_ids _ _ _ m' Hp Hm') as (i2 & E2 & _ & L2 & _). congruence.
Qed.

End Pool.

(** ** The pool as a pool of ids *)
Section Ids.
Context `{Build}.
Definition pool_ids_inv (L : gset Z) (p : MonitorPool) : Prop :=
  sizes_ok /\ exists free live, pool_inv free live p /\
    forall id, id ∈ L <-> exists m, m ∈ live /\ monitor_id_ p !! m = Some id.
Definition pool_create_id (c : Z) (p : MonitorPool) : outcome (Z * MonitorPool) :=
  '(_, id, p) ← CreateMonitorInPool c p; Done (id, p).
Definition pool_release_id (id : Z) (p : MonitorPool) : MonitorPool :=
  ReleaseMonitorToPool (LookupMonitor id p) p.

Lemma pool_create_spec L p c : pool_ids_inv L p -> chunk_fresh p c ->
  match pool_create_id c p with
  | Done (id, p') => (id ∉ L) /\ 0 <= id <= LockWord.kMaxMonitorId /\ pool_ids_inv ({[id]} ∪ L) p'
  | Aborted => True
  | _ => False
  end.
Proof.
  intros (Hsz & free & live & Hp & HL) Hc. pose proof (CreateMonitorInPool_inv Hsz free live c p Hp Hc) as Hcr.
  unfold pool_create_id. destruct (CreateMonitorInPool c p) as [[[m id] p']| | |]; [|done..]. cbn.
  destruct Hcr as (Hm & Hid & (free' & Hp') & Hold).
  destruct (monitor_ids Hsz _ _ _ m Hp') as (id' & E & Hr & _); [set_solver|].
  assert (id' = id) as -> by congruence. split; [|split; [done|split; [done|]]].
  - rewrite HL. intros (m' & Hm' & E'). rewrite <- Hold in E' by done.
    assert (m = m') by (eapply (monitor_ids_inj Hsz _ _ p'); eauto; set_solver). congruence.
  - exists free', ({[m]} ∪ live). split; [done|]. intros x. rewrite elem_of_union, elem_of_singleton, HL. split.
    + intros [->|(m' & Hm' & E')]; [exists m; set_solver|]. exists m'. rewrite Hold by done. set_solver.
    + intros (m' & [->%elem_of_singleton|Hm']%elem_of_union & E'); [left; congruence|].
      right. exists m'. by rewrite <- Hold by done.
Qed.

Lemma pool_release_spec L p id : pool_ids_inv L p -> id ∈ L -> pool_ids_inv (L ∖ {[id]}) (pool_release_id id p).
Proof.
  intros (Hsz & free & live & Hp & HL) Hid. split; [done|].
  apply HL in Hid as (m & Hm & E). unfold pool_release_id.
  destruct (monitor_ids Hsz _ _ _ m Hp (or_intror Hm)) as (id' & E' & _ & Elk & _).
  assert (id' = id) as -> by congruence. rewrite Elk.
  exists (m :: free), (live ∖ {[m]}). split; [by apply ReleaseMonitorToPool_inv|].
  intros x. unfold ReleaseMonitorToPool. cbn. rewrite E. change (default 0 (Some ?x)) with x.
  rewrite insert_id by done. rewrite elem_of_difference, elem_of_singleton, HL. split.
  - intros [(m' & Hm' & Ex) Hne]. exists m'. split; [|done]. apply elem_of_difference. split; [done|].
    rewrite elem_of_singleton. intros ->. congruence.
  - intros (m' & [Hm' Hne]%elem_of_difference & Ex). split; [eauto|]. intros ->. apply Hne, elem_of_singleton.
    eapply (monitor_ids_inj Hsz _ _ p); eauto.
Qed.

#[export] Instance pool_IdPool : IdPool MonitorPool Z := {
  ids_inv := pool_ids_inv;
  fresh_chunk := chunk_fresh;
  create_id := pool_create_id;
  release_id := pool_release_id;
  create_id_fresh := pool_create_spec;
  release_id_spec := pool_release_spec
}.

(** ** Histories of the pool: the monitors in use after creations and
    releases *)
Inductive pool_reach : gset Z -> MonitorPool -> Prop :=
| reach_new c p : chunk_ok c -> Create c = Done p -> pool_reach ∅ p
| reach_create live p c m id p' : pool_reach live p -> chunk_fresh p c ->
    CreateMonitorInPool c p = Done (m, id, p') -> pool_reach ({[m]} ∪ live) p'
| reach_release live p m : pool_reach live p -> m ∈ live -> pool_reach (live ∖ {[m]}) (ReleaseMonitorToPool m p).

Lemma pool_reach_inv live p : sizes_ok -> pool_reach live p -> exists free, pool_inv free live p.
Proof.
  intros Hsz. induction 1 as [c p Hc E|live p c m id p' _ [free IH] Hc E|live p m _ [free IH] Hm].
  - eexists. by apply Create_inv.
  - pose proof (CreateMonitorInPool_inv Hsz free live c p IH Hc) as Hi. rewrite E in Hi. tauto.
  - eexists. by apply ReleaseMonitorToPool_inv.
Qed.

(** ** Claims *)

(** C21: through any sequence of creations and releases, every monitor in use
    has an id that fits in a lock word, that no other monitor in use has, that
    [LookupMonitor] leads back to the monitor, and that
    [ComputeMonitorIdInPool] finds by searching the chunks; a creation gives a
    monitor that is not in use, and fails only when all the chunk lists are
    full and every monitor of the pool is in use. *)
Theorem monitor_pool_ids live p :
  sizes_ok -> pool_reach live p ->
  (forall m, m ∈ live -> exists id,
     monitor_id_ p !! m = Some id /\ 0 <= id <= LockWord.kMaxMonitorId /\ LookupMonitor id p = m /\
     ComputeMonitorIdInPool m p = Done id /\ forall m', m' ∈ live -> monitor_id_ p !! m' = Some id -> m' = m) /\
  (forall c, chunk_fresh p c ->
     match CreateMonitorInPool c p with
     | Done (m, _, _) => m ∉ live
     | Aborted => pool_full p /\ forall i j k a, slot p i j k a -> a ∈ live
     | _ => False
     end).
Proof.
  intros Hsz Hr. destruct (pool_reach_inv live p Hsz Hr) as [free Hp]. split.
  - intros m Hm. destruct (monitor_ids Hsz _ _ _ m Hp (or_intror Hm)) as (id & E & Hrg & El & Ec).
    exists id. repeat (split; [done|]). intros m' Hm' E'. eapply (monitor_ids_inj Hsz _ _ p); eauto.
  - intros c Hc. pose proof (CreateMonitorInPool_inv Hsz free live c p Hp Hc) as Hi.
    destruct (CreateMonitorInPool c p) as [[[m id] p']| | |]; [tauto| |done..].
    destruct Hi as [-> Hf]. split; [done|]. intros i j k a Hs.
    destruct (proj1 (inv_slots _ _ _ Hp a)) as [Ha|Ha]; [eauto | by apply elem_of_nil in Ha | done].
Qed.

End Ids.

(** A release build with monitors of 120 bytes, and a pool of one chunk from
    which two monitors are taken, the first of which is released. *)
#[local] Instance demo_build : Build := { kIsDebugBuild := false; sizeof_Monitor := 120 }.
Definition demo_base : Z := 0x7000000000.
Definition demo_chunk : Z := 0x7000002000.
Definition pool_of (o : outcome MonitorPool) : MonitorPool :=
  match o with Done p => p | _ => mkPool ∅ 0 0 0 0 ∅ ∅ end.
Definition demo0 : MonitorPool := pool_of (Create demo_base).
Definition demo1 : MonitorPool := pool_of ('(_, _, p) ← CreateMonitorInPool demo_chunk demo0; Done p).
Definition demo2 : MonitorPool := pool_of ('(_, _, p) ← CreateMonitorInPool demo_chunk demo1; Done p).
Definition demo3 : MonitorPool := ReleaseMonitorToPool demo_base demo2.

Lemma demo_fresh p : monitor_chunks_ p = {[(0, 0) := demo_base]} -> chunk_fresh p demo_chunk.
Proof.
  intros E. split; [vm_compute; split; [done|split; [done|discriminate]]|].
  intros x b. rewrite E. intros [_ <-]%lookup_singleton_Some. left. vm_compute. discriminate.
Qed.

Lemma demo_reach : pool_reach (({[demo_base + 120]} ∪ ({[demo_base]} ∪ ∅)) ∖ {[demo_base]}) demo3.
Proof.
  apply reach_release; [|set_solver].
  apply (reach_create _ demo1 demo_chunk _ 15); [|apply demo_fresh; vm_compute; reflexivity | vm_compute; reflexivity].
  apply (reach_create _ demo0 demo_chunk _ 0); [|apply demo_fresh; vm_compute; reflexivity | vm_compute; reflexivity].
  apply (reach_new demo_base); [|vm_compute; reflexivity].
  vm_compute. split; [done|split; [done|discriminate]].
Qed.

Lemma monitor_pool_ids_witness :
  (exists id, monitor_id_ demo3 !! (demo_base + 120) = Some id /\ LookupMonitor id demo3 = demo_base + 120) /\
  match CreateMonitorInPool demo_chunk demo3 with Done (m, id, _) => m = demo_base /\ id = 0 | _ => False end.
Proof.
  split; [|vm_compute; done].
  destruct (monitor_pool_ids _ demo3 ltac:(vm_compute; split; discriminate) demo_reach) as [Hids _].
  destruct (Hids (demo_base + 120)) as (id & E & _ & El & _).
  - apply elem_of_difference. split; [apply elem_of_union; left; by apply elem_of_singleton|].
    rewrite elem_of_singleton. discriminate.
  - exists id. exact (conj E El).
Defined.
End MonitorPool.
