(* ===== verification/Monitor.v ===== *)
(** The locks of objects (runtime/monitor.h, monitor.cc, and
    [IdentityHashCode] of runtime/mirror/object.cc): thin locks in the lock
    word, monitors that lock words are inflated to and deflated from, waiting
    and notification, and identity hash codes.

    The file holds the operations and the state machine they form; the
    invariant and the theorems are in MonitorInvariant and MonitorSpec.  The
    machine is that of one object: threads are named by their ids, and every
    access of the lock word, every critical section of [monitor_lock_] and
    every change between a runnable and a suspended state is one step.  A
    thread can be suspended only at the points where the code lets it
    ([suspendable]); [Deflate] runs when all threads are suspended.  A wait on
    a condition variable may end at any time, which covers time-outs and
    spurious wake-ups.  Tracing, logging and lock profiling are left out. *)
From stdpp Require Import prelude gmap list.
From Stdlib Require Import ZArith Lia.
From S2P Require Import Prelude LockWord MonitorPool.
Import LockWord.
Open Scope Z_scope.

Module Monitor.

(** ** Monitors

    A thread is its id; [obj_] tells whether the monitor still has an object. *)
Record Monitor := mkMonitor {
  num_waiters_ : Z;
  owner_ : option Z;
  lock_count_ : Z;
  obj_ : bool;
  wait_set_ : list Z;
  hash_code_ : Z
}.
Definition new_Monitor (owner : option Z) (hash_code : Z) : Monitor :=
  mkMonitor 0 owner 0 true [] hash_code.
Definition set_owner (owner : option Z) (lock_count : Z) (m : Monitor) : Monitor :=
  mkMonitor (num_waiters_ m) owner lock_count (obj_ m) (wait_set_ m) (hash_code_ m).
Definition add_waiters (d : Z) (m : Monitor) : Monitor :=
  mkMonitor (num_waiters_ m + d) (owner_ m) (lock_count_ m) (obj_ m) (wait_set_ m) (hash_code_ m).
Definition set_wait_set (l : list Z) (m : Monitor) : Monitor :=
  mkMonitor (num_waiters_ m) (owner_ m) (lock_count_ m) (obj_ m) l (hash_code_ m).
Definition set_hash_code (h : Z) (m : Monitor) : Monitor :=
  mkMonitor (num_waiters_ m) (owner_ m) (lock_count_ m) (obj_ m) (wait_set_ m) h.
Definition clear_obj (m : Monitor) : Monitor :=
  mkMonitor (num_waiters_ m) (owner_ m) (lock_count_ m) false (wait_set_ m) (hash_code_ m).

Definition HasHashCode (m : Monitor) : bool := negb (hash_code_ m =? 0).
Definition TryLockLocked (self : Z) (m : Monitor) : outcome (bool * Monitor) :=
  match owner_ m with
  | None => if lock_count_ m =? 0 then Done (true, set_owner (Some self) (lock_count_ m) m) else Aborted
  | Some owner =>
      if owner =? self then Done (true, set_owner (Some owner) (i32 (lock_count_ m + 1)) m)
      else Done (false, m)
  end.
Definition Unlock (self : Z) (m : Monitor) : bool * Monitor :=
  if bool_decide (owner_ m = Some self) then
    if lock_count_ m =? 0 then (true, set_owner None (lock_count_ m) m)
    else (true, set_owner (owner_ m) (lock_count_ m - 1) m)
  else (false, m).
Definition AppendToWaitSet (thread : Z) (m : Monitor) : Monitor := set_wait_set (wait_set_ m ++ [thread]) m.
Fixpoint remove_thread (thread : Z) (l : list Z) : list Z :=
  match l with
  | [] => []
  | t :: l => if t =? thread then l else t :: remove_thread thread l
  end.
Definition RemoveFromWaitSet (thread : Z) (m : Monitor) : Monitor :=
  set_wait_set (remove_thread thread (wait_set_ m)) m.

(** ** Where a thread is *)
Inductive ThreadState := kWaiting | kTimedWaiting | kSleeping.
#[export] Instance ThreadState_eq_dec : EqDecision ThreadState.
Proof. solve_decision. Defined.
Record wait_args := mkWait { ms : Z; ns : Z; interruptShouldThrow : bool; why : ThreadState }.

(** The operation that an inflation belongs to. *)
Inductive kont :=
| KEnter (trylock : bool) (contention_count : Z)
| KHash
| KWait (a : wait_args).
(** The caller of [Monitor::Lock]. *)
Inductive lock_kont :=
| LEnter
| LWait (a : wait_args) (prev_lock_count : Z) (was_interrupted : bool).
(** The use of a generated hash code. *)
Inductive gen_kont := GUnlocked (lw : Z) | GThin (lw : Z) | GFat (mon : Z).

Inductive pc :=
| Running                                        (* outside of the operations *)
| EnterLoop (trylock : bool) (contention_count : Z)
| EnterCas (trylock : bool) (contention_count lock_word thin_locked : Z)
| EnterStore (thin_locked : Z)
| EnterFat (trylock : bool) (mon : Z)
| LockBlocked (mon : Z) (l : lock_kont)          (* contended, in state kBlocked *)
| ExitLoop
| ExitCas (lock_word new_lw : Z)
| ExitStore (new_lw : Z)
| ExitFat (mon : Z)
| InflateCreate (owner : option Z) (hash_code : Z) (susp : option Z) (k : kont)
| InstallRead (m : Z) (susp : option Z) (k : kont)
| InstallCas (m lw fat : Z) (susp : option Z) (k : kont)
| InflateAdd (m : Z) (susp : option Z) (k : kont)
| SuspendOwner (owner hash_code : Z) (k : kont)  (* in SuspendThreadByThreadId *)
| OwnerSuspended (owner hash_code : Z) (k : kont) (* it returned, still in state kBlocked *)
| ResumeOwner (owner : Z) (k : kont)
| WaitLoop (a : wait_args)
| WaitFat (mon : Z) (a : wait_args)
| Waiting (mon : Z) (a : wait_args) (prev_lock_count : Z) (signalled : bool)
| Woken (mon : Z) (a : wait_args) (prev_lock_count : Z) (was_interrupted : bool)
| WaitRelock (mon : Z) (a : wait_args) (prev_lock_count : Z) (was_interrupted : bool)
| WaitLocked (mon : Z) (a : wait_args) (prev_lock_count : Z) (was_interrupted : bool)
| NotifyRead (notify_all : bool)
| NotifyFat (mon : Z) (notify_all : bool)
| HashLoop
| HashGen (g : gen_kont)
| HashCas (lw hash_word : Z)
| HashFat (mon : Z)
| HashFatCas (mon hash : Z).

(** The points at which the thread is suspended, or suspends itself when it is
    asked to. *)
Definition suspendable (p : pc) : bool :=
  match p with
  | Running | LockBlocked _ _ | SuspendOwner _ _ _ | OwnerSuspended _ _ _
  | Waiting _ _ _ _ | Woken _ _ _ _ | WaitRelock _ _ _ _ => true
  | _ => false
  end.
(** The thread that a thread keeps suspended. *)
Definition susp_of (p : pc) : option Z :=
  match p with
  | InflateCreate _ _ susp _ | InstallRead _ susp _ | InstallCas _ _ _ susp _ | InflateAdd _ susp _ => susp
  | OwnerSuspended owner _ _ | ResumeOwner owner _ => Some owner
  | _ => None
  end.
(** [wait_monitor_] is not null. *)
Definition has_wait_monitor (p : pc) : bool :=
  match p with Waiting _ _ _ _ | Woken _ _ _ _ => true | _ => false end.
(** [wait_cond_->Signal()]. *)
Definition signal (p : pc) : pc :=
  match p with Waiting mon a prev _ => Waiting mon a prev true | p => p end.

Definition after (k : kont) : pc :=
  match k with
  | KEnter trylock contention_count => EnterLoop trylock contention_count
  | KHash => HashLoop
  | KWait a => WaitLoop a
  end.
(** What follows [Inflate]: in [InflateThinLocked] the owner is resumed. *)
Definition after_inflate (susp : option Z) (k : kont) : pc :=
  match susp with Some owner => ResumeOwner owner k | None => after k end.

(** What a call returns. *)
Inductive result :=
| REntered | RTryLockFailed | RExited | RIllegalMonitorState | RIllegalArgument
| RWaited (interrupted : bool) | RNotified | RHashCode (h : Z).
(** What a step shows: the return of a call, or the release and the
    acquisition of the lock inside of [Wait]. *)
Inductive label := Tau | Ret (r : result) | WaitRelease | WaitAcquire.

(** ** The machine of one object *)
Section Machine.
Context {P C : Type} `{IdPool P C}.
(** The build's [kUseReadBarrier], and [GetMaxSpinsBeforeThinkLockInflation()]. *)
Context (kUseReadBarrier : bool) (max_spins : Z).

(** [pool] is the monitor pool, [mons] the monitors it has handed out, by id;
    [list_] and [allow_new_monitors_] are the members of the monitor list. *)
Record mstate := mkState {
  lock_word : Z;
  mons : gmap Z Monitor;
  pool : P;
  list_ : list Z;
  allow_new_monitors_ : bool;
  pcs : list pc;
  interrupted : gset Z;
  hash_code_seed : Z
}.
Definition with_lock_word (w : Z) (s : mstate) : mstate :=
  mkState w (mons s) (pool s) (list_ s) (allow_new_monitors_ s) (pcs s) (interrupted s) (hash_code_seed s).
Definition with_mons (ms : gmap Z Monitor) (s : mstate) : mstate :=
  mkState (lock_word s) ms (pool s) (list_ s) (allow_new_monitors_ s) (pcs s) (interrupted s) (hash_code_seed s).
Definition with_pool (p : P) (s : mstate) : mstate :=
  mkState (lock_word s) (mons s) p (list_ s) (allow_new_monitors_ s) (pcs s) (interrupted s) (hash_code_seed s).
Definition with_list (l : list Z) (s : mstate) : mstate :=
  mkState (lock_word s) (mons s) (pool s) l (allow_new_monitors_ s) (pcs s) (interrupted s) (hash_code_seed s).
Definition with_allow (b : bool) (s : mstate) : mstate :=
  mkState (lock_word s) (mons s) (pool s) (list_ s) b (pcs s) (interrupted s) (hash_code_seed s).
Definition with_pcs (l : list pc) (s : mstate) : mstate :=
  mkState (lock_word s) (mons s) (pool s) (list_ s) (allow_new_monitors_ s) l (interrupted s) (hash_code_seed s).
Definition with_interrupted (i : gset Z) (s : mstate) : mstate :=
  mkState (lock_word s) (mons s) (pool s) (list_ s) (allow_new_monitors_ s) (pcs s) i (hash_code_seed s).
Definition with_seed (x : Z) (s : mstate) : mstate :=
  mkState (lock_word s) (mons s) (pool s) (list_ s) (allow_new_monitors_ s) (pcs s) (interrupted s) x.
Definition with_mon (m : Z) (mon : Monitor) (s : mstate) : mstate := with_mons (<[m := mon]> (mons s)) s.

(** Thread ids start at 1. *)
Definition tid (i : nat) : Z := Z.of_nat i + 1.
Definition idx (t : Z) : nat := Z.to_nat (t - 1).
Definition pc_at (s : mstate) (t : Z) : option pc := if 1 <=? t then pcs s !! idx t else None.
Definition set_pc (t : Z) (p : pc) (s : mstate) : mstate := with_pcs (<[idx t := p]> (pcs s)) s.

(** Some thread keeps [t] suspended. *)
Definition suspended (s : mstate) (t : Z) : bool :=
  existsb (fun p => bool_decide (susp_of p = Some t)) (pcs s).
Definition IsSuspended (s : mstate) (t : Z) : bool :=
  suspended s t && match pc_at s t with Some p => suspendable p | None => false end.

(** *** Inflation *)
Definition InflateThinLocked (self lw hash_code : Z) (k : kont) : pc :=
  let owner_thread_id := ThinLockOwner lw in
  if owner_thread_id =? self then InflateCreate (Some self) hash_code None k
  else SuspendOwner owner_thread_id hash_code k.

(** The check of the constructor and of [Install]. *)
Definition owner_stopped (s : mstate) (self : Z) (owner : option Z) : bool :=
  match owner with None => true | Some o => (o =? self) || IsSuspended s o end.

Definition CreateMonitor (self : Z) (owner : option Z) (hash_code : Z) (c : C) (s : mstate) : outcome (Z * mstate) :=
  '(id, p) ← create_id c (pool s);
  if owner_stopped s self owner
  then Done (id, with_mon id (new_Monitor owner hash_code) (with_pool p s)) else Aborted.
Definition ReleaseMonitor (m : Z) (s : mstate) : mstate :=
  with_mons (delete m (mons s)) (with_pool (release_id m (pool s)) s).

(** [Install] up to its compare-and-swap: the lock word it publishes, or
    [None] when another thread has installed a monitor. *)
Definition Install_read (self m : Z) (mon : Monitor) (s : mstate) : outcome (option (Monitor * Z)) :=
  if negb (owner_stopped s self (owner_ mon)) then Aborted
  else
    let lw := lock_word s in
    match GetState kUseReadBarrier lw with
    | kThinLocked =>
        match owner_ mon with
        | Some owner =>
            if owner =? ThinLockOwner lw
            then Done (Some (set_owner (owner_ mon) (ThinLockCount lw) mon, FromMonitor m (ReadBarrierState lw)))
            else Aborted
        | None => Faulted
        end
    | kHashCode =>
        if hash_code_ mon =? GetHashCode lw
        then Done (Some (mon, FromMonitor m (ReadBarrierState lw))) else Aborted
    | kFatLocked => Done None
    | kUnlocked | kForwardingAddress => Aborted
    end.

(** *** Monitor enter and exit *)
Definition MonitorEnter_read (self : Z) (trylock : bool) (contention_count lw : Z) : outcome (pc * label) :=
  match GetState kUseReadBarrier lw with
  | kUnlocked =>
      thin_locked ← FromThinLockId self 0 (ReadBarrierState lw);
      Done (EnterCas trylock contention_count lw thin_locked, Tau)
  | kThinLocked =>
      if ThinLockOwner lw =? self then
        let new_count := ThinLockCount lw + 1 in
        if new_count <=? kThinLockMaxCount then
          thin_locked ← FromThinLockId self new_count (ReadBarrierState lw);
          Done (if negb kUseReadBarrier then EnterStore thin_locked
                else EnterCas trylock contention_count lw thin_locked, Tau)
        else Done (InflateThinLocked self lw 0 (KEnter trylock contention_count), Tau)
      else if trylock then Done (Running, Ret RTryLockFailed)
      else
        let contention_count := contention_count + 1 in
        if contention_count <=? max_spins then Done (EnterLoop trylock contention_count, Tau)
        else Done (InflateThinLocked self lw 0 (KEnter trylock 0), Tau)
  | kFatLocked => Done (EnterFat trylock (FatLockMonitorId lw), Tau)
  | kHashCode => Done (InflateCreate None (GetHashCode lw) None (KEnter trylock contention_count), Tau)
  | kForwardingAddress => Aborted
  end.

Definition MonitorExit_read (self lw : Z) : outcome (pc * label) :=
  match GetState kUseReadBarrier lw with
  | kHashCode | kUnlocked => Done (Running, Ret RIllegalMonitorState)
  | kThinLocked =>
      if negb (ThinLockOwner lw =? self) then Done (Running, Ret RIllegalMonitorState)
      else
        new_lw ← if negb (ThinLockCount lw =? 0)
                 then FromThinLockId self (ThinLockCount lw - 1) (ReadBarrierState lw)
                 else Done (FromDefault (ReadBarrierState lw));
        Done (if negb kUseReadBarrier then ExitStore new_lw else ExitCas lw new_lw, Tau)
  | kFatLocked => Done (ExitFat (FatLockMonitorId lw), Tau)
  | kForwardingAddress => Aborted
  end.

(** One round of the loop of [Monitor::Lock]. *)
Definition Lock_round (self m : Z) (mon : Monitor) (l : lock_kont) : outcome (Monitor * pc * label) :=
  '(locked, mon) ← TryLockLocked self mon;
  if (locked : bool) then
    Done (mon, match l with
               | LEnter => Running
               | LWait a prev int => WaitLocked m a prev int
               end, match l with LEnter => Ret REntered | LWait _ _ _ => WaitAcquire end)
  else Done (add_waiters 1 mon, LockBlocked m l, Tau).

(** *** Waiting and notification *)
Definition Wait_read (self : Z) (a : wait_args) (lw : Z) : outcome (pc * label) :=
  match GetState kUseReadBarrier lw with
  | kHashCode | kUnlocked => Done (Running, Ret RIllegalMonitorState)
  | kThinLocked =>
      if negb (ThinLockOwner lw =? self) then Done (Running, Ret RIllegalMonitorState)
      else Done (InflateCreate (Some self) 0 None (KWait a), Tau)
  | kFatLocked => Done (WaitFat (FatLockMonitorId lw) a, Tau)
  | kForwardingAddress => Aborted
  end.
(** [Monitor::Wait] up to the wait on the condition variable. *)
Definition Wait_release (self m : Z) (a : wait_args) (mon : Monitor) : Monitor * pc * label :=
  if bool_decide (owner_ mon <> Some self) then (mon, Running, Ret RIllegalMonitorState)
  else
    let a := mkWait (ms a) (ns a) (interruptShouldThrow a)
               (if bool_decide (why a = kTimedWaiting) && ((ms a =? 0) && (ns a =? 0)) then kWaiting else why a) in
    if (ms a <? 0) || (ns a <? 0) || (999999 <? ns a) then (mon, Running, Ret RIllegalArgument)
    else
      let mon := add_waiters 1 (AppendToWaitSet self mon) in
      let prev_lock_count := lock_count_ mon in
      (set_owner None 0 mon, Waiting m a prev_lock_count false, WaitRelease).
(** Its end, once [Lock] has returned. *)
Definition Wait_restore (self prev_lock_count : Z) (mon : Monitor) : Monitor :=
  RemoveFromWaitSet self (add_waiters (-1) (set_owner (Some self) prev_lock_count mon)).

Definition DoNotify_read (self : Z) (notify_all : bool) (lw : Z) : outcome (pc * label) :=
  match GetState kUseReadBarrier lw with
  | kHashCode | kUnlocked => Done (Running, Ret RIllegalMonitorState)
  | kThinLocked =>
      if negb (ThinLockOwner lw =? self) then Done (Running, Ret RIllegalMonitorState)
      else Done (Running, Ret RNotified)
  | kFatLocked => Done (NotifyFat (FatLockMonitorId lw) notify_all, Tau)
  | kForwardingAddress => Aborted
  end.
(** The loops of [Notify] and [NotifyAll] over the wait set: the rest of it,
    and the threads' states. *)
Fixpoint notify_loop (ws : list Z) (l : list pc) : list Z * list pc :=
  match ws with
  | [] => ([], l)
  | thread :: ws =>
      match l !! idx thread with
      | Some p => if has_wait_monitor p then (ws, <[idx thread := signal p]> l) else notify_loop ws l
      | None => notify_loop ws l
      end
  end.
Fixpoint notify_all_loop (ws : list Z) (l : list pc) : list pc :=
  match ws with
  | [] => l
  | thread :: ws => notify_all_loop ws (alter signal (idx thread) l)
  end.

(** *** Hash codes *)
(** One round of the loop of [GenerateIdentityHashCode]: the new seed, and the
    hash code unless the loop goes on. *)
Definition Generate_round (expected_value : Z) : Z * option Z :=
  (u32 (expected_value * 1103515245 + 12345),
   if Z.land expected_value kHashMask =? 0 then None else Some (Z.land expected_value kHashMask)).

Definition IdentityHashCode_read (lw : Z) : outcome (pc * label) :=
  match GetState kUseReadBarrier lw with
  | kUnlocked => Done (HashGen (GUnlocked lw), Tau)
  | kThinLocked => Done (HashGen (GThin lw), Tau)
  | kFatLocked => Done (HashFat (FatLockMonitorId lw), Tau)
  | kHashCode => Done (Running, Ret (RHashCode (GetHashCode lw)))
  | kForwardingAddress => Aborted
  end.
(** What the generated hash code is for. *)
Definition hash_generated (self hash : Z) (g : gen_kont) : outcome pc :=
  match g with
  | GUnlocked lw => hash_word ← FromHashCode hash (ReadBarrierState lw); Done (HashCas lw hash_word)
  | GThin lw => Done (InflateThinLocked self lw hash KHash)
  | GFat m => Done (HashFatCas m hash)
  end.

(** *** Deflation *)
(** [Deflate]: whether the lock word is not, or no longer, that of a monitor. *)
Definition Deflate (s : mstate) : outcome (bool * mstate) :=
  let lw := lock_word s in
  match GetState kUseReadBarrier lw with
  | kFatLocked =>
      let m := FatLockMonitorId lw in
      match mons s !! m with
      | None => Faulted
      | Some monitor =>
          if 0 <? num_waiters_ monitor then Done (false, s)
          else
            new_lw ←
              match owner_ monitor with
              | Some owner =>
                  if HasHashCode monitor then Done None
                  else if kThinLockMaxCount <? lock_count_ monitor then Done None
                  else new_lw ← FromThinLockId owner (lock_count_ monitor) (ReadBarrierState lw); Done (Some new_lw)
              | None =>
                  if HasHashCode monitor
                  then new_lw ← FromHashCode (hash_code_ monitor) (ReadBarrierState lw); Done (Some new_lw)
                  else Done (Some (FromDefault (ReadBarrierState lw)))
              end;
            match new_lw with
            | None => Done (false, s)
            | Some new_lw => Done (true, with_mon m (clear_obj monitor) (with_lock_word new_lw s))
            end
      end
  | _ => Done (true, s)
  end.

(** [SweepMonitorList]: [IsMarked] tells whether the object of a monitor is
    still there; the monitors that remain are collected in [kept]. *)
Fixpoint SweepMonitorList (IsMarked : mstate -> outcome (bool * mstate)) (l kept : list Z) (s : mstate) : outcome mstate :=
  match l with
  | [] => Done (with_list (rev kept) s)
  | m :: l =>
      match mons s !! m with
      | None => Faulted
      | Some mon =>
          '(marked, s) ← if obj_ mon then IsMarked s else Done (false, s);
          if (marked : bool) then SweepMonitorList IsMarked l (m :: kept) s
          else SweepMonitorList IsMarked l kept (ReleaseMonitor m s)
      end
  end.
Definition MonitorDeflateVisitor_IsMarked (s : mstate) : outcome (bool * mstate) :=
  '(deflated, s) ← Deflate s; Done (negb deflated, s).
Definition DeflateMonitors (s : mstate) : outcome mstate :=
  SweepMonitorList MonitorDeflateVisitor_IsMarked (list_ s) [] s.

(** *** Steps *)
Inductive call :=
| CallEnter (trylock : bool) | CallExit | CallWait (a : wait_args) | CallNotify (notify_all : bool) | CallHash.
Definition start (c : call) : pc :=
  match c with
  | CallEnter trylock => EnterLoop trylock 0
  | CallExit => ExitLoop
  | CallWait a => WaitLoop a
  | CallNotify notify_all => NotifyRead notify_all
  | CallHash => HashLoop
  end.

(** A step's outcome, with the thread's new place. *)
Definition goto (self : Z) (s : mstate) (o : outcome (pc * label)) : outcome (mstate * label) :=
  '(p, l) ← o; Done (set_pc self p s, l).
(** A critical section of the monitor [m]. *)
Definition in_monitor (self m : Z) (s : mstate) (f : Monitor -> outcome (Monitor * pc * label)) :
    outcome (mstate * label) :=
  match mons s !! m with
  | None => Faulted
  | Some mon => '(mon, p, l) ← f mon; Done (set_pc self p (with_mon m mon s), l)
  end.
(** A weak compare-and-swap of the lock word; [fail] is a spurious failure. *)
Definition cas (fail : bool) (expected desired : Z) (s : mstate) : bool * mstate :=
  if negb fail && (lock_word s =? expected) then (true, with_lock_word desired s) else (false, s).

Definition notify_step (self : Z) (notify_all : bool) (mon : Monitor) (s : mstate) : mstate * Monitor * label :=
  if bool_decide (owner_ mon <> Some self) then (s, mon, Ret RIllegalMonitorState)
  else if notify_all then
    (with_pcs (notify_all_loop (wait_set_ mon) (pcs s)) s, set_wait_set [] mon, Ret RNotified)
  else
    let '(ws, l) := notify_loop (wait_set_ mon) (pcs s) in
    (with_pcs l s, set_wait_set ws mon, Ret RNotified).

(** The step of thread [self] at [p]; [fail] is a spurious failure of a
    compare-and-swap or a failure to suspend a thread, [c] the memory that the
    pool gets.  [None]: the thread has to wait. *)
Definition thread_step (self : Z) (fail : bool) (c : C) (p : pc) (s : mstate) : option (outcome (mstate * label)) :=
  match p with
  | Running => None
  | EnterLoop trylock cc => Some (goto self s (MonitorEnter_read self trylock cc (lock_word s)))
  | EnterCas trylock cc lw thin_locked =>
      let '(ok, s) := cas fail lw thin_locked s in
      Some (goto self s (Done (if (ok : bool) then (Running, Ret REntered) else (EnterLoop trylock cc, Tau))))
  | EnterStore thin_locked => Some (goto self (with_lock_word thin_locked s) (Done (Running, Ret REntered)))
  | EnterFat true m =>
      Some (in_monitor self m s (fun mon =>
        '(locked, mon) ← TryLockLocked self mon;
        Done (mon, Running, Ret (if (locked : bool) then REntered else RTryLockFailed))))
  | EnterFat false m => Some (in_monitor self m s (fun mon => Lock_round self m mon LEnter))
  | LockBlocked m l => Some (in_monitor self m s (fun mon => Lock_round self m (add_waiters (-1) mon) l))
  | ExitLoop => Some (goto self s (MonitorExit_read self (lock_word s)))
  | ExitCas lw new_lw =>
      let '(ok, s) := cas fail lw new_lw s in
      Some (goto self s (Done (if (ok : bool) then (Running, Ret RExited) else (ExitLoop, Tau))))
  | ExitStore new_lw => Some (goto self (with_lock_word new_lw s) (Done (Running, Ret RExited)))
  | ExitFat m =>
      Some (in_monitor self m s (fun mon =>
        let '(ok, mon) := Unlock self mon in
        Done (mon, Running, Ret (if (ok : bool) then RExited else RIllegalMonitorState))))
  | InflateCreate owner hash_code susp k =>
      Some ('(m, s) ← CreateMonitor self owner hash_code c s; goto self s (Done (InstallRead m susp k, Tau)))
  | InstallRead m susp k =>
      Some (match mons s !! m with
            | None => Faulted
            | Some mon =>
                r ← Install_read self m mon s;
                match r with
                | Some (mon, fat) =>
                    goto self (with_mon m mon s) (Done (InstallCas m (lock_word s) fat susp k, Tau))
                | None => goto self (ReleaseMonitor m s) (Done (after_inflate susp k, Tau))
                end
            end)
  | InstallCas m lw fat susp k =>
      let '(ok, s) := cas fail lw fat s in
      Some (if (ok : bool) then goto self s (Done (InflateAdd m susp k, Tau))
            else goto self (ReleaseMonitor m s) (Done (after_inflate susp k, Tau)))
  | InflateAdd m susp k =>
      if negb kUseReadBarrier && negb (allow_new_monitors_ s) then None
      else
        let s := with_list (m :: list_ s) s in
        Some (if bool_decide (GetState kUseReadBarrier (lock_word s) = kFatLocked)
              then goto self s (Done (after_inflate susp k, Tau)) else Aborted)
  | SuspendOwner owner hash_code k =>
      if fail then Some (goto self s (Done (after k, Tau)))
      else
        match pc_at s owner with
        | Some p =>
            if suspendable p && negb (owner =? self)
            then Some (goto self s (Done (OwnerSuspended owner hash_code k, Tau))) else None
        | None => None
        end
  | OwnerSuspended owner hash_code k =>
      let lw := lock_word s in
      Some (goto self s (Done
        (if bool_decide (GetState kUseReadBarrier lw = kThinLocked) && (ThinLockOwner lw =? owner)
         then InflateCreate (Some owner) hash_code (Some owner) k else ResumeOwner owner k, Tau)))
  | ResumeOwner owner k => Some (goto self s (Done (after k, Tau)))
  | WaitLoop a => Some (goto self s (Wait_read self a (lock_word s)))
  | WaitFat m a => Some (in_monitor self m s (fun mon => Done (Wait_release self m a mon)))
  | Waiting m a prev _ =>
      Some (goto self s (Done (Woken m a prev (bool_decide (self ∈ interrupted s)), Tau)))
  | Woken m a prev int =>
      let s := if (int && interruptShouldThrow a : bool) then with_interrupted (interrupted s ∖ {[self]}) s else s in
      Some (goto self s (Done (WaitRelock m a prev int, Tau)))
  | WaitRelock m a prev int => Some (in_monitor self m s (fun mon => Lock_round self m mon (LWait a prev int)))
  | WaitLocked m a prev int =>
      Some (in_monitor self m s (fun mon =>
        Done (Wait_restore self prev mon, Running, Ret (RWaited (int && interruptShouldThrow a)))))
  | NotifyRead notify_all => Some (goto self s (DoNotify_read self notify_all (lock_word s)))
  | NotifyFat m notify_all =>
      Some (match mons s !! m with
            | None => Faulted
            | Some mon =>
                let '(s, mon, l) := notify_step self notify_all mon s in
                goto self (with_mon m mon s) (Done (Running, l))
            end)
  | HashLoop => Some (goto self s (IdentityHashCode_read (lock_word s)))
  | HashGen g =>
      if fail then Some (goto self s (Done (HashGen g, Tau)))
      else
        let '(seed, h) := Generate_round (hash_code_seed s) in
        let s := with_seed seed s in
        Some (match h with
              | None => goto self s (Done (HashGen g, Tau))
              | Some h => p ← hash_generated self h g; goto self s (Done (p, Tau))
              end)
  | HashCas lw hash_word =>
      let '(ok, s) := cas fail lw hash_word s in
      Some (goto self s (Done (if (ok : bool) then (Running, Ret (RHashCode (GetHashCode hash_word))) else (HashLoop, Tau))))
  | HashFat m =>
      Some (in_monitor self m s (fun mon =>
        Done (if HasHashCode mon then (mon, Running, Ret (RHashCode (hash_code_ mon)))
              else (mon, HashGen (GFat m), Tau))))
  | HashFatCas m h =>
      Some (in_monitor self m s (fun mon =>
        Done (if negb fail && (hash_code_ mon =? 0) then (set_hash_code h mon, Running, Ret (RHashCode h))
              else (mon, HashFat m, Tau))))
  end.

Inductive event :=
| Call (t : Z) (c : call)
| Step (t : Z) (fail : bool) (c : C)
| DeflateAll                    (* the collector deflates, all threads suspended *)
| SetReadBarrier (rb : Z)       (* the collector changes the read barrier state *)
| AllowNewMonitors (b : bool)   (* AllowNewMonitors() and DisallowNewMonitors() *)
| Interrupt (t : Z).            (* Thread::Interrupt() *)

Definition interrupt_step (t : Z) (s : mstate) : mstate :=
  if bool_decide (t ∈ interrupted s) then s
  else with_pcs (alter signal (idx t) (pcs s)) (with_interrupted ({[t]} ∪ interrupted s) s).

(** The steps that a thread takes while it is kept suspended: the wait on its
    condition variable may end. *)
Definition may_step (s : mstate) (t : Z) (p : pc) : bool :=
  match p with Waiting _ _ _ _ => true | _ => negb (suspended s t) end.

Definition step (s : mstate) (ev : event) : option (outcome (mstate * option (Z * label))) :=
  match ev with
  | Call t c =>
      match pc_at s t with
      | Some Running => if suspended s t then None else Some (Done (set_pc t (start c) s, None))
      | _ => None
      end
  | Step t fail c =>
      match pc_at s t with
      | Some p =>
          if may_step s t p then
            match thread_step t fail c p s with
            | Some o => Some ('(s, l) ← o; Done (s, Some (t, l)))
            | None => None
            end
          else None
      | None => None
      end
  | DeflateAll => if forallb suspendable (pcs s) then Some (s ← DeflateMonitors s; Done (s, None)) else None
  | SetReadBarrier rb =>
      if kUseReadBarrier && (0 <=? rb) && (rb <=? 2)
      then Some (Done (with_lock_word (SetReadBarrierState rb (lock_word s)) s, None)) else None
  | AllowNewMonitors b => if kUseReadBarrier then None else Some (Done (with_allow b s, None))
  | Interrupt t => if (1 <=? t) && (idx t <? length (pcs s))%nat then Some (Done (interrupt_step t s, None)) else None
  end.

(** A schedule, and the labels of its steps in order. *)
Fixpoint run (s : mstate) (evs : list event) : option (outcome (mstate * list (Z * label))) :=
  match evs with
  | [] => Some (Done (s, []))
  | ev :: evs =>
      match step s ev with
      | Some (Done (s, l)) =>
          match run s evs with
          | Some (Done (s, ls)) => Some (Done (s, option_list l ++ ls))
          | o => o
          end
      | Some Aborted => Some Aborted
      | Some Faulted => Some Faulted
      | Some Diverged => Some Diverged
      | None => None
      end
  end.

(** An object as it is allocated, with [n] threads. *)
Definition initial (n : nat) (s : mstate) : Prop :=
  lock_word s = Default /\ mons s = ∅ /\ ids_inv ∅ (pool s) /\ list_ s = [] /\
  pcs s = replicate n Running /\ Z.of_nat n <= kThinLockMaxOwner.

(** *** Queries *)
Definition kInvalidThreadId : Z := 0.
Definition GetOwnerThreadId (mon : Monitor) : Z :=
  match owner_ mon with Some owner => owner | None => kInvalidThreadId end.
Definition GetLockOwnerThreadId (s : mstate) : outcome Z :=
  let lw := lock_word s in
  match GetState kUseReadBarrier lw with
  | kHashCode | kUnlocked => Done kInvalidThreadId
  | kThinLocked => Done (ThinLockOwner lw)
  | kFatLocked => match mons s !! FatLockMonitorId lw with Some mon => Done (GetOwnerThreadId mon) | None => Faulted end
  | kForwardingAddress => Aborted
  end.
Definition IsValidLockWord (s : mstate) (lw : Z) : outcome bool :=
  match GetState kUseReadBarrier lw with
  | kUnlocked => Done true
  | kThinLocked => Done (negb (ThinLockOwner lw =? kInvalidThreadId))
  | kFatLocked => Done (existsb (fun m => m =? FatLockMonitorId lw) (list_ s))
  | kHashCode => Done true
  | kForwardingAddress => Aborted
  end.
(** [MonitorInfo]: the owner, the number of entries and the waiters. *)
Definition MonitorInfo (s : mstate) : outcome (option Z * Z * list Z) :=
  let lw := lock_word s in
  match GetState kUseReadBarrier lw with
  | kUnlocked | kForwardingAddress | kHashCode => Done (None, 0, [])
  | kThinLocked => Done (Some (ThinLockOwner lw), 1 + ThinLockCount lw, [])
  | kFatLocked =>
      match mons s !! FatLockMonitorId lw with
      | Some mon => Done (owner_ mon, 1 + lock_count_ mon, wait_set_ mon)
      | None => Faulted
      end
  end.

End Machine.
Arguments mstate : clear implicits.
Arguments event : clear implicits.
End Monitor.
