(* ===== verification/MonitorInvariant.v ===== *)
(** The invariant of the machine of Monitor: what the lock word, the monitors
    and the threads' places say about each other, and that every step keeps
    it. *)
From stdpp Require Import prelude gmap list.
From Stdlib Require Import ZArith Lia.
From S2P Require Import Prelude LockWord MonitorPool Monitor.
Import LockWord Monitor.
Open Scope Z_scope.

(** ** Lock words without their read barrier bits *)
Section View.
Context (b : bool).
Definition view (w : Z) : lock_value := with_rb 0 (decode b w).

(** A word in a state the machine allows. *)
Definition good (w : Z) : Prop := word_ok b w /\ GetState b w <> kForwardingAddress.

Lemma good_rb w : good w -> rb_ok b (ReadBarrierState w).
Proof.
  intros [Hw Hf]. pose proof (decode_ok b w Hw) as [Hv _]. unfold decode in Hv.
  destruct (GetState b w); cbn in Hv; tauto.
Qed.

Lemma good_encode v : value_ok b v -> is_forward v = false ->
  exists w, encode v = Done w /\ good w /\ view w = with_rb 0 v.
Proof.
  intros Hv Hf. destruct (encode_ok b v Hv) as (w & E & Hw & Hd). exists w. split; [done|].
  unfold view, good. rewrite Hd. split; [|done]. split; [done|]. intros Hs.
  unfold decode in Hd. rewrite Hs in Hd. by subst v.
Qed.

Lemma thin_word t c rb : 1 <= t <= kThinLockMaxOwner -> 0 <= c <= kThinLockMaxCount -> rb_ok b rb ->
  exists w, FromThinLockId t c rb = Done w /\ good w /\ view w = Thin t c 0.
Proof.
  intros Ht Hc Hrb. apply (good_encode (Thin t c rb)); [|done].
  change kThinLockMaxOwner with (2 ^ 16 - 1) in Ht. change kThinLockMaxCount with (2 ^ 12 - 1) in Hc.
  unfold value_ok, in_width. repeat split; lia || done.
Qed.
Lemma hash_word h rb : 0 <= h <= kMaxHash -> rb_ok b rb ->
  exists w, FromHashCode h rb = Done w /\ good w /\ view w = Hash h 0.
Proof.
  intros Hh Hrb. apply (good_encode (Hash h rb)); [|done].
  change kMaxHash with (2 ^ 28 - 1) in Hh. split; [unfold in_width; lia|done].
Qed.
Lemma default_word rb : rb_ok b rb -> good (FromDefault rb) /\ view (FromDefault rb) = Unlocked 0.
Proof. intros Hrb. destruct (good_encode (Unlocked rb)) as (w & [= <-] & ?); [done|done|]. done. Qed.
Lemma monitor_word m rb : 0 <= m <= kMaxMonitorId -> rb_ok b rb ->
  good (FromMonitor m rb) /\ view (FromMonitor m rb) = Fat m 0.
Proof.
  intros Hm Hrb. destruct (good_encode (Fat m rb)) as (w & [= <-] & ?); [|done|done].
  change kMaxMonitorId with (2 ^ 28 - 1) in Hm. split; [unfold in_width; lia|done].
Qed.
Lemma rb_word rb w : good w -> rb_ok b rb ->
  good (SetReadBarrierState rb w) /\ view (SetReadBarrierState rb w) = view w.
Proof.
  intros [Hw Hf] Hrb. destruct (set_rb_ok b w rb Hw Hrb) as [Hw' Hd].
  { unfold decode. by destruct (GetState b w). }
  unfold view, good. rewrite Hd. split; [split; [done|]|by destruct (decode b w)].
  intros Hs. unfold decode in Hd. rewrite Hs in Hd. destruct (GetState b w); cbn in Hd; congruence.
Qed.

Lemma view_fat_rb w m rb : view w = Fat m rb -> rb = 0.
Proof. unfold view. destruct (decode b w); intros E; by simplify_eq/=. Qed.

(** What a read of a good lock word finds. *)
Lemma read_word w : good w ->
  match GetState b w with
  | kUnlocked => view w = Unlocked 0
  | kThinLocked => view w = Thin (ThinLockOwner w) (ThinLockCount w) 0 /\ 0 <= ThinLockCount w <= kThinLockMaxCount
  | kFatLocked => view w = Fat (FatLockMonitorId w) 0
  | kHashCode => view w = Hash (GetHashCode w) 0 /\ 0 <= GetHashCode w <= kMaxHash
  | kForwardingAddress => False
  end.
Proof.
  intros [Hw Hf]. pose proof (decode_ok b w Hw) as [Hv _]. unfold view. unfold decode in *.
  destruct (GetState b w); cbn in Hv |- *; [done| |done| |done]; split; try done; unfold in_width in Hv.
  - change kThinLockMaxCount with (2 ^ 12 - 1). lia.
  - change kMaxHash with (2 ^ 28 - 1). lia.
Qed.
End View.

(** ** The invariant *)

(** How often a thread is counted in [num_waiters_]. *)
Definition weight (p : pc) : Z :=
  match p with
  | LockBlocked _ LEnter | Waiting _ _ _ _ | Woken _ _ _ _ | WaitRelock _ _ _ _ | WaitLocked _ _ _ _ => 1
  | LockBlocked _ (LWait _ _ _) => 2
  | _ => 0
  end.
(** The thread is between the two halves of [Wait]. *)
Definition in_wait (p : pc) : bool :=
  match p with
  | Waiting _ _ _ _ | Woken _ _ _ _ | WaitRelock _ _ _ _ | WaitLocked _ _ _ _ | LockBlocked _ (LWait _ _ _) => true
  | _ => false
  end.
(** It has not been notified. *)
Definition unsignalled (p : pc) : bool := match p with Waiting _ _ _ false => true | _ => false end.
Definition relocked (p : pc) : bool := match p with WaitLocked _ _ _ _ => true | _ => false end.
(** The monitor that a thread is about to install. *)
Definition priv_of (p : pc) : option Z :=
  match p with InstallRead m _ _ | InstallCas m _ _ _ _ => Some m | _ => None end.
(** The monitor that a thread has created and not yet put on the list. *)
Definition owned_of (p : pc) : option Z :=
  match p with InflateAdd m _ _ => Some m | p => priv_of p end.

(** A lock word that may be inflated by [t] for [owner]: the owner cannot
    change it, being [t] itself or kept suspended by [t]. *)
Definition stopped (t o : Z) (susp : option Z) : Prop := susp = None /\ o = t \/ susp = Some o.
Definition inflatable (v : lock_value) (t : Z) (owner : option Z) (h : Z) (susp : option Z) : Prop :=
  0 <= h <= kMaxHash /\
  match owner with
  | Some o => stopped t o susp /\ ((exists c, v = Thin o c 0) \/ exists m, v = Fat m 0)
  | None => susp = None /\ 0 < h /\ (v = Hash h 0 \/ exists m, v = Fat m 0)
  end.
Definition unlocked_once (t c : Z) : lock_value := if c =? 0 then Unlocked 0 else Thin t (c - 1) 0.

Section Invariant.
Context {P C : Type} `{IdPool P C} (b : bool).

(** What the place [p] of thread [t] says of the lock word, seen as [v], and of
    the monitors; [n] bounds the lock counts. *)
Definition pc_ok (n : Z) (ms : gmap Z Monitor) (v : lock_value) (t : Z) (p : pc) : Prop :=
  match p with
  | Running | EnterLoop _ _ | ExitLoop | WaitLoop _ | NotifyRead _ | HashLoop | ResumeOwner _ _ => True
  | EnterCas _ _ w new =>
      good b w /\ good b new /\ exists c, 0 <= c <= n /\ view b new = Thin t c 0 /\
        (view b w = Unlocked 0 /\ c = 0 \/ view b w = Thin t (c - 1) 0 /\ 1 <= c)
  | EnterStore new => good b new /\ exists c, v = Thin t c 0 /\ view b new = Thin t (c + 1) 0
  | ExitCas w new =>
      good b w /\ good b new /\ exists c, 0 <= c /\ view b w = Thin t c 0 /\ view b new = unlocked_once t c
  | ExitStore new => good b new /\ exists c, v = Thin t c 0 /\ view b new = unlocked_once t c
  | EnterFat _ m | ExitFat m | WaitFat m _ | NotifyFat m _ | HashFat m | HashGen (GFat m) | InflateAdd m _ _ =>
      v = Fat m 0
  | HashFatCas m h => v = Fat m 0 /\ 0 < h <= kMaxHash
  | LockBlocked m l => v = Fat m 0 /\ match l with LWait _ prev _ => 0 <= prev <= n | LEnter => True end
  | Waiting m _ prev _ | Woken m _ prev _ | WaitRelock m _ prev _ | WaitLocked m _ prev _ =>
      v = Fat m 0 /\ 0 <= prev <= n
  | InflateCreate owner h susp _ => inflatable v t owner h susp
  | InstallRead m susp _ => exists owner h, ms !! m = Some (new_Monitor owner h) /\ inflatable v t owner h susp
  | InstallCas m w fat susp _ =>
      exists owner c h, ms !! m = Some (mkMonitor 0 owner c true [] h) /\ good b w /\ good b fat /\
        view b fat = Fat m 0 /\ 0 <= h <= kMaxHash /\
        match owner with
        | Some o => view b w = Thin o c 0 /\ stopped t o susp /\ 0 <= c <= n
        | None => view b w = Hash h 0 /\ 0 < h /\ c = 0
        end
  | SuspendOwner _ h _ | OwnerSuspended _ h _ => 0 <= h <= kMaxHash
  | HashGen (GUnlocked w) => good b w /\ view b w = Unlocked 0
  | HashGen (GThin w) =>
      good b w /\ exists o c, view b w = Thin o c 0 /\ (o = t -> exists c', v = Thin t c' 0)
  | HashCas w new =>
      good b w /\ good b new /\ view b w = Unlocked 0 /\ exists h, 0 < h <= kMaxHash /\ view b new = Hash h 0
  end.

Definition valid_tid (l : list pc) (o : Z) : Prop := exists i, o = tid i /\ (i < length l)%nat.

Definition mon_ok (n : Z) (l : list pc) (mon : Monitor) : Prop :=
  obj_ mon = true /\ 0 <= hash_code_ mon <= kMaxHash /\
  match owner_ mon with None => lock_count_ mon = 0 | Some o => valid_tid l o /\ 0 <= lock_count_ mon <= n end /\
  num_waiters_ mon = sumZ weight l /\ NoDup (wait_set_ mon) /\
  (forall t, t ∈ wait_set_ mon -> exists i p, t = tid i /\ l !! i = Some p /\ in_wait p = true) /\
  (forall i p, l !! i = Some p -> unsignalled p = true -> tid i ∈ wait_set_ mon) /\
  (forall i p, l !! i = Some p -> relocked p = true -> owner_ mon = Some (tid i) /\ lock_count_ mon = 0) /\
  (forall i p, l !! i = Some p -> in_wait p = true -> relocked p = false -> owner_ mon <> Some (tid i)).

Definition lock_ok (n : Z) (ms : gmap Z Monitor) (l : list pc) (v : lock_value) : Prop :=
  match v with
  | Unlocked _ | Forward _ => True
  | Thin o c _ => valid_tid l o /\ 0 <= c <= n
  | Hash h _ => 0 < h
  | Fat m _ => exists mon, ms !! m = Some mon /\ mon_ok n l mon
  end.

Definition list_ok (l : list pc) (ml : list Z) (v : lock_value) : Prop :=
  match v with
  | Fat m _ => ml = [m] /\ (forall i p, l !! i = Some p -> owned_of p = Some m -> False) \/
               ml = [] /\ exists i susp k, l !! i = Some (InflateAdd m susp k)
  | _ => ml = []
  end.

Record minv (n : Z) (s : mstate P) : Prop := {
  i_bound : 0 <= n;
  i_good : good b (lock_word s);
  i_threads : Z.of_nat (length (pcs s)) <= kThinLockMaxOwner;
  i_lock : lock_ok n (mons s) (pcs s) (view b (lock_word s));
  i_pcs i p : pcs s !! i = Some p -> pc_ok n (mons s) (view b (lock_word s)) (tid i) p;
  i_owned i j p q m : pcs s !! i = Some p -> pcs s !! j = Some q ->
    owned_of p = Some m -> owned_of q = Some m -> i = j;
  i_priv i p m : pcs s !! i = Some p -> priv_of p = Some m -> view b (lock_word s) <> Fat m 0;
  i_susp i p o : pcs s !! i = Some p -> susp_of p = Some o ->
    exists j q, o = tid j /\ pcs s !! j = Some q /\ suspendable q = true /\ i <> j;
  i_pool : ids_inv (dom (mons s)) (pool s);
  i_ids m : m ∈ dom (mons s) -> 0 <= m <= kMaxMonitorId;
  i_list : list_ok (pcs s) (list_ s) (view b (lock_word s))
}.

(** *** What a thread relies on is not changed by the others *)

(** How the lock word may change while thread [t] is at [p], when another
    thread or the collector changes it. *)
Definition stable (v v' : lock_value) (t : Z) (p : pc) : Prop :=
  v' = v \/ v = Unlocked 0 \/
  (exists o c, v = Thin o c 0 /\ o <> t /\ susp_of p <> Some o) \/
  (exists o c m, v = Thin o c 0 /\ v' = Fat m 0 /\ (o = t -> suspendable p = true)) \/
  (exists h m, v = Hash h 0 /\ v' = Fat m 0) \/
  (suspendable p = true /\ weight p = 0).

Ltac cases :=
  repeat match goal with
         | Hc : _ /\ _ |- _ => destruct Hc
         | Hc : _ \/ _ |- _ => destruct Hc
         | Hc : exists _, _ |- _ => destruct Hc
         | _ => progress simplify_eq/=
         end.

Lemma inflatable_stable v v' t owner h susp p :
  inflatable v t owner h susp -> susp_of p = susp -> suspendable p = false -> stable v v' t p ->
  inflatable v' t owner h susp.
Proof.
  intros [Hh Hi] Hp Hsp Hs. split; [done|]. destruct owner as [o|].
  - destruct Hi as [Hst Hv]. split; [done|]. unfold stopped, stable in *. cases; eauto; congruence.
  - destruct Hi as (-> & Hpos & Hv). split; [done|]. split; [done|]. unfold stable in *. cases; eauto; congruence.
Qed.

Lemma stable_fat m v' t p : stable (Fat m 0) v' t p -> v' = Fat m 0 \/ suspendable p = true /\ weight p = 0.
Proof. unfold stable. intros Hs. cases; auto. Qed.
Lemma stable_thin c v' t p : stable (Thin t c 0) v' t p -> suspendable p = false -> v' = Thin t c 0.
Proof.
  unfold stable. intros Hs Hp. cases; try congruence.
  match goal with Hw : ?x = ?x -> _ |- _ => specialize (Hw eq_refl) end. congruence.
Qed.

Lemma pc_ok_stable n n' ms ms' v v' t p : n <= n' ->
  (forall m, priv_of p = Some m -> ms' !! m = ms !! m) -> stable v v' t p ->
  pc_ok n ms v t p -> pc_ok n' ms' v' t p.
Proof.
  intros Hn Hms Hs. destruct p; cbn [pc_ok]; try done; intros Hp.
  all: try (destruct Hp as [-> Hp]; destruct (stable_fat _ _ _ _ Hs) as [->|[? ?]]; [|done]; split; [done|];
            lia || done).
  all: try (subst v; destruct (stable_fat _ _ _ _ Hs) as [->|[? ?]]; done).
  - destruct Hp as (Hw & Hw' & c & Hc & Hv). split; [done|]. split; [done|]. exists c. split; [lia|done].
  - destruct Hp as (Hw & c & -> & Hv). split; [done|]. exists c. split; [|done]. by apply (stable_thin _ _ _ _ Hs).
  - destruct Hp as [-> Hp]. destruct (stable_fat _ _ _ _ Hs) as [->|[_ Hl]]; [|by destruct l].
    split; [done|]. destruct l; [done|lia].
  - destruct Hp as (Hw & c & -> & Hv). split; [done|]. exists c. split; [|done]. by apply (stable_thin _ _ _ _ Hs).
  - by eapply inflatable_stable; [exact Hp | | | exact Hs].
  - destruct Hp as (o & h & Hm & Hi). exists o, h. rewrite Hms by done. split; [done|].
    by eapply inflatable_stable; [exact Hi | | | exact Hs].
  - destruct Hp as (o & c & h & Hm & Hw & Hf & Hv & Hh & Hc). exists o, c, h. rewrite Hms by done.
    repeat (split; [done|]). destruct o; [|done]. destruct Hc as (? & ? & ?). split; [done|]. split; [done|lia].
  - destruct g as [w|w|m]; [done| |].
    + destruct Hp as (Hw & o & c & Hv & Ho). split; [done|]. exists o, c. split; [done|].
      intros E. destruct (Ho E) as [c' ->]. exists c'. by apply (stable_thin _ _ _ _ Hs).
    + subst v. by destruct (stable_fat _ _ _ _ Hs) as [->|[? ?]].
Qed.
(** *** Threads *)
Lemma tid_inj i j : tid i = tid j -> i = j.
Proof. unfold tid. lia. Qed.
Lemma idx_tid i : idx (tid i) = i.
Proof. unfold idx, tid. lia. Qed.
Lemma pc_at_Some (s : mstate P) t p : pc_at s t = Some p -> exists i, t = tid i /\ pcs s !! i = Some p.
Proof.
  unfold pc_at. destruct (Z.leb_spec 1 t); [|done]. intros E. exists (idx t). split; [unfold tid, idx; lia|done].
Qed.
Lemma pc_at_tid (s : mstate P) i : pc_at s (tid i) = pcs s !! i.
Proof. unfold pc_at. destruct (Z.leb_spec 1 (tid i)); [by rewrite idx_tid|unfold tid in *; lia]. Qed.
Lemma suspended_false (s : mstate P) t i p : suspended s t = false -> pcs s !! i = Some p -> susp_of p <> Some t.
Proof.
  unfold suspended. intros Hs Hp E. apply not_true_iff_false in Hs. apply Hs, existsb_exists.
  exists p. split; [by apply list_elem_of_In, list_elem_of_lookup_2 with i | by apply bool_decide_eq_true].
Qed.
Lemma valid_tid_insert l i (p : pc) o : valid_tid (<[i := p]> l) o <-> valid_tid l o.
Proof. unfold valid_tid. by rewrite length_insert. Qed.

(** The lookups of a list in which one thread has moved. *)
Lemma lookup_moved {A} (l : list A) i (p p' : A) j q : l !! i = Some p ->
  <[i := p']> l !! j = Some q <-> j = i /\ q = p' \/ j <> i /\ l !! j = Some q.
Proof.
  intros Hi. apply lookup_lt_Some in Hi. destruct (decide (j = i)) as [->|Hne].
  - rewrite list_lookup_insert_eq by done. naive_solver.
  - rewrite list_lookup_insert_ne by done. naive_solver.
Qed.

Lemma owned_in_mons n s i p m : minv n s -> pcs s !! i = Some p -> owned_of p = Some m -> is_Some (mons s !! m).
Proof.
  intros Hi Hp Ho. pose proof (i_pcs _ _ Hi i p Hp) as Hok. pose proof (i_lock _ _ Hi) as Hl.
  destruct p; cbn in Ho; simplify_eq; cbn in Hok.
  - destruct Hok as (? & ? & -> & _). eauto.
  - destruct Hok as (? & ? & ? & -> & _). eauto.
  - rewrite Hok in Hl. destruct Hl as (mon & -> & _). eauto.
Qed.

(** *** The step of one thread *)
Lemma minv_update n s i p p' s' :
  minv n s -> pcs s !! i = Some p -> pcs s' = <[i := p']> (pcs s) ->
  good b (lock_word s') ->
  lock_ok (n + 1) (mons s') (pcs s') (view b (lock_word s')) ->
  pc_ok (n + 1) (mons s') (view b (lock_word s')) (tid i) p' ->
  (forall j q, j <> i -> pcs s !! j = Some q ->
     stable (view b (lock_word s)) (view b (lock_word s')) (tid j) q /\
     forall m, priv_of q = Some m -> mons s' !! m = mons s !! m /\ view b (lock_word s') <> Fat m 0) ->
  (forall m, owned_of p' = Some m -> owned_of p = Some m \/ mons s !! m = None) ->
  (forall m, priv_of p' = Some m -> view b (lock_word s') <> Fat m 0) ->
  (forall o, susp_of p' = Some o -> susp_of p = Some o \/
     exists j q, o = tid j /\ pcs s !! j = Some q /\ suspendable q = true /\ i <> j) ->
  (suspendable p' = true \/ suspendable p = false \/ suspended s (tid i) = false) ->
  ids_inv (dom (mons s')) (pool s') -> (forall m, m ∈ dom (mons s') -> 0 <= m <= kMaxMonitorId) ->
  list_ok (pcs s') (list_ s') (view b (lock_word s')) ->
  minv (n + 1) s'.
Proof.
  intros Hi Hp Epcs Hg Hlock Hpc Hothers Hown Hpriv Hsusp Hst Hpool Hids Hlist.
  split; [pose proof (i_bound _ _ Hi); lia|done| |done| | | | |done|done|done].
  - rewrite Epcs, length_insert. apply (i_threads _ _ Hi).
  - intros j q. rewrite Epcs. intros [[-> ->]|[Hne Hq]]%(lookup_moved _ _ _ _ _ _ Hp); [done|].
    destruct (Hothers j q Hne Hq) as [Hs Hm]. eapply pc_ok_stable; [..|by apply (i_pcs _ _ Hi)]; [lia| |done].
    intros m E. by apply Hm.
  - assert (Hx : forall j q m, j <> i -> pcs s !! j = Some q -> owned_of p' = Some m -> owned_of q = Some m -> False).
    { intros j q m Hne Hq E E'. destruct (Hown m E) as [E1|E1]; [by apply Hne, (i_owned _ _ Hi j i q p m)|].
      destruct (owned_in_mons n s j q m Hi Hq E') as [? ?]. congruence. }
    intros j k q r m. rewrite Epcs.
    intros [[-> ->]|[Hj Hq]]%(lookup_moved _ _ _ _ _ _ Hp) [[-> ->]|[Hk Hr]]%(lookup_moved _ _ _ _ _ _ Hp) E E'.
    + done.
    + by destruct (Hx k r m).
    + by destruct (Hx j q m).
    + by apply (i_owned _ _ Hi j k q r m).
  - intros j q m. rewrite Epcs. intros [[-> ->]|[Hne Hq]]%(lookup_moved _ _ _ _ _ _ Hp) E; [by apply Hpriv|].
    by apply (Hothers j q Hne Hq).
  - assert (Hy : forall j q o, pcs s !! j = Some q -> (susp_of q = Some o \/ j = i /\ susp_of p' = Some o) ->
      (exists k r, o = tid k /\ pcs s !! k = Some r /\ suspendable r = true /\ j <> k) ->
      exists k r, o = tid k /\ pcs s' !! k = Some r /\ suspendable r = true /\ j <> k).
    { intros j q o Hq Ho (k & r & -> & Hr & Hsr & Hne). rewrite Epcs. destruct (decide (k = i)) as [->|Hki].
      - assert (r = p) as -> by congruence.
        destruct Hst as [Hst|[Hst|Hst]]; [|congruence|].
        + exists i, p'. rewrite list_lookup_insert_eq by (by apply lookup_lt_Some in Hp). done.
        + destruct Ho as [Ho|[-> _]]; [|done]. by destruct (suspended_false s _ _ _ Hst Hq).
      - exists k, r. rewrite list_lookup_insert_ne by done. done. }
    intros j q o. rewrite Epcs at 1. intros [[-> ->]|[Hne Hq]]%(lookup_moved _ _ _ _ _ _ Hp) E.
    + apply (Hy i p o Hp); [auto|]. destruct (Hsusp o E) as [E'|E']; [by apply (i_susp _ _ Hi i p)|done].
    + apply (Hy j q o Hq); [auto|]. by apply (i_susp _ _ Hi j q).
Qed.
(** *** Monitors *)
(** The wait set after the step of thread [i]. *)
Definition ws_ok (l : list pc) (i : nat) (p' : pc) (ws' : list Z) : Prop :=
  NoDup ws' /\ (forall t, t ∈ ws' -> exists j q, t = tid j /\ <[i := p']> l !! j = Some q /\ in_wait q = true) /\
  (forall j q, <[i := p']> l !! j = Some q -> unsignalled q = true -> tid j ∈ ws').

Lemma ws_same n l i p p' mon : l !! i = Some p -> mon_ok n l mon ->
  (in_wait p = true -> in_wait p' = true) -> (unsignalled p' = true -> unsignalled p = true) ->
  ws_ok l i p' (wait_set_ mon).
Proof.
  intros Hp (_ & _ & _ & _ & Hnd & Hws & Hun & _) Hw Hu. split; [done|]. split.
  - intros t Ht. destruct (Hws t Ht) as (j & q & -> & Hq & Hin). destruct (decide (j = i)) as [->|Hne].
    + assert (q = p) as -> by congruence. exists i, p'. rewrite list_lookup_insert_eq by (by apply lookup_lt_Some in Hp).
      auto.
    + exists j, q. by rewrite list_lookup_insert_ne.
  - intros j q [[-> ->]|[Hne Hq]]%(lookup_moved _ _ _ _ _ _ Hp); [intros; apply (Hun i p); auto | by apply Hun].
Qed.

Lemma ws_append n l i p p' mon : l !! i = Some p -> mon_ok n l mon ->
  in_wait p = false -> in_wait p' = true -> ws_ok l i p' (wait_set_ mon ++ [tid i]).
Proof.
  intros Hp (_ & _ & _ & _ & Hnd & Hws & Hun & _) Hw Hw'. split; [|split].
  - apply NoDup_app. split; [done|]. split; [|apply NoDup_singleton]. intros t Ht Hi.
    apply list_elem_of_singleton in Hi as ->. destruct (Hws _ Ht) as (j & q & Ej%tid_inj & Hq & Hin). congruence.
  - intros t [Ht| ->%list_elem_of_singleton]%elem_of_app.
    + destruct (Hws t Ht) as (j & q & -> & Hq & Hin). exists j, q.
      rewrite list_lookup_insert_ne by congruence. done.
    + exists i, p'. rewrite list_lookup_insert_eq by (by apply lookup_lt_Some in Hp). done.
  - intros j q [[-> ->]|[Hne Hq]]%(lookup_moved _ _ _ _ _ _ Hp) Hu; apply elem_of_app.
    + right. by apply list_elem_of_singleton.
    + left. by apply (Hun j q).
Qed.

Lemma elem_remove_thread t x l : NoDup l -> x ∈ remove_thread t l <-> x ∈ l /\ x <> t.
Proof.
  induction l as [|y l IH]; cbn; [set_solver|]. intros [Hy Hnd]%NoDup_cons.
  destruct (Z.eqb_spec y t) as [->|Hne]; [set_solver|]. rewrite !elem_of_cons, IH by done. set_solver.
Qed.
Lemma NoDup_remove_thread t l : NoDup l -> NoDup (remove_thread t l).
Proof.
  induction l as [|y l IH]; cbn; [done|]. intros [Hy Hnd]%NoDup_cons.
  destruct (Z.eqb_spec y t) as [->|Hne]; [done|]. apply NoDup_cons. rewrite elem_remove_thread by done. naive_solver.
Qed.
Lemma ws_remove n l i p p' mon : l !! i = Some p -> mon_ok n l mon -> unsignalled p' = false ->
  ws_ok l i p' (remove_thread (tid i) (wait_set_ mon)).
Proof.
  intros Hp (_ & _ & _ & _ & Hnd & Hws & Hun & _) Hw. split; [by apply NoDup_remove_thread|]. split.
  - intros t [Ht Hne]%elem_remove_thread; [|done]. destruct (Hws t Ht) as (j & q & -> & Hq & Hin). exists j, q.
    rewrite list_lookup_insert_ne by congruence. done.
  - intros j q [[-> ->]|[Hne Hq]]%(lookup_moved _ _ _ _ _ _ Hp) Hu; [congruence|].
    apply elem_remove_thread; [done|]. split; [by apply (Hun j q)|]. intros E%tid_inj. done.
Qed.

Lemma mon_ok_update n l i p p' mon mon' : l !! i = Some p -> mon_ok n l mon ->
  obj_ mon' = true -> 0 <= hash_code_ mon' <= kMaxHash ->
  match owner_ mon' with None => lock_count_ mon' = 0 | Some o => valid_tid l o /\ 0 <= lock_count_ mon' <= n + 1 end ->
  num_waiters_ mon' = num_waiters_ mon - weight p + weight p' ->
  ws_ok l i p' (wait_set_ mon') ->
  (forall j q, j <> i -> l !! j = Some q -> relocked q = true -> owner_ mon' = Some (tid j) /\ lock_count_ mon' = 0) ->
  (relocked p' = true -> owner_ mon' = Some (tid i) /\ lock_count_ mon' = 0) ->
  (forall j q, j <> i -> l !! j = Some q -> in_wait q = true -> relocked q = false -> owner_ mon' <> Some (tid j)) ->
  (in_wait p' = true -> relocked p' = false -> owner_ mon' <> Some (tid i)) ->
  mon_ok (n + 1) (<[i := p']> l) mon'.
Proof.
  intros Hp (_ & _ & _ & Hnw & _ & _ & _ & _) Ho Hh Hown Hnw' (Hws1 & Hws2 & Hws3) Hr1 Hr2 Hu1 Hu2.
  split; [done|]. split; [done|]. split; [by destruct (owner_ mon'); [rewrite valid_tid_insert|]|].
  split; [rewrite (sumZ_insert _ _ _ p) by done; lia|]. repeat (split; [done|]).
  split; intros j q [[-> ->]|[Hne Hq]]%(lookup_moved _ _ _ _ _ _ Hp) Hr; auto; [by apply (Hr1 j q)|by apply (Hu1 j q)].
Qed.

(** A move of a thread that does not concern the monitor. *)
Definition quiet (p p' : pc) : Prop :=
  weight p' = weight p /\ in_wait p' = in_wait p /\ (unsignalled p' = true -> unsignalled p = true) /\
  relocked p = false /\ relocked p' = false.

Lemma lock_ok_move n ms l i p p' v : l !! i = Some p -> lock_ok n ms l v -> quiet p p' ->
  lock_ok (n + 1) ms (<[i := p']> l) v.
Proof.
  intros Hp Hl (Hw & Hin & Hu & Hr & Hr'). destruct v as [|o c rb|m rb| |]; cbn in *; try done.
  - rewrite valid_tid_insert. split; [tauto|lia].
  - destruct Hl as (mon & Hm & Hok). exists mon. split; [done|].
    pose proof Hok as (Ho & Hh & Hown & Hnw & _ & _ & _ & Hrel & Hout).
    apply (mon_ok_update n l i p p' mon mon Hp Hok); try done.
    + destruct (owner_ mon); [|done]. split; [tauto|lia].
    + lia.
    + eapply ws_same; [done|done|congruence|done].
    + intros j q _ Hq Hq'. by apply (Hrel j q).
    + congruence.
    + intros j q _ Hq Hq' Hq''. by apply (Hout j q).
    + intros E _. apply (Hout i p Hp); congruence.
Qed.

Lemma list_ok_move l i p p' ml v : l !! i = Some p -> owned_of p = None -> owned_of p' = None ->
  list_ok l ml v -> list_ok (<[i := p']> l) ml v.
Proof.
  intros Hp Ho Ho'. destruct v as [|o c rb|m rb| |]; cbn; try done. intros [[-> Hn]|[-> (j & susp & k & Hj)]].
  - left. split; [done|]. intros j q [[-> ->]|[Hne Hq]]%(lookup_moved _ _ _ _ _ _ Hp); [congruence|by apply (Hn j q)].
  - right. split; [done|]. exists j, susp, k. rewrite list_lookup_insert_ne; [done|]. intros ->.
    assert (p = InflateAdd m susp k) as -> by congruence. done.
Qed.
(** *** Kinds of steps *)
Lemma set_pc_tid i p (s : mstate P) : set_pc (tid i) p s = with_pcs (<[i := p]> (pcs s)) s.
Proof. unfold set_pc. by rewrite idx_tid. Qed.

(** The part that concerns suspension. *)
Definition susp_step (s : mstate P) (i : nat) (p p' : pc) : Prop :=
  (forall o, susp_of p' = Some o -> susp_of p = Some o \/
     exists j q, o = tid j /\ pcs s !! j = Some q /\ suspendable q = true /\ i <> j) /\
  (suspendable p' = true \/ suspendable p = false \/ suspended s (tid i) = false).

Lemma susp_none s i p p' : susp_of p' = None -> (suspendable p = false \/ suspended s (tid i) = false) -> susp_step s i p p'.
Proof. intros E Hs. split; [congruence|auto]. Qed.
Lemma susp_keep s i p p' : susp_of p' = susp_of p -> (suspendable p = false \/ suspended s (tid i) = false) -> susp_step s i p p'.
Proof. intros E Hs. split; [rewrite E; auto|auto]. Qed.

(** A step that changes only the place of the thread. *)
Lemma minv_goto n s i p p' s' : minv n s -> pcs s !! i = Some p ->
  lock_word s' = lock_word s -> mons s' = mons s -> pool s' = pool s -> list_ s' = list_ s ->
  pcs s' = <[i := p']> (pcs s) ->
  quiet p p' -> owned_of p = None -> owned_of p' = None -> susp_step s i p p' ->
  pc_ok (n + 1) (mons s) (view b (lock_word s)) (tid i) p' -> minv (n + 1) s'.
Proof.
  intros Hi Hp El Em Epo Eli Ep Hq Ho Ho' [Hs1 Hs2] Hpc.
  apply (minv_update n s i p p' s' Hi Hp Ep); rewrite ?El, ?Em, ?Epo, ?Eli; try done.
  - apply (i_good _ _ Hi).
  - rewrite Ep. apply (lock_ok_move n _ _ i p); try done. apply (i_lock _ _ Hi).
  - intros j q Hne Hjq. split; [by left|]. intros m E. split; [done|]. by apply (i_priv _ _ Hi j q).
  - intros m E. congruence.
  - intros m E. destruct p'; cbn in *; congruence.
  - apply (i_pool _ _ Hi).
  - apply (i_ids _ _ Hi).
  - rewrite Ep. apply (list_ok_move _ i p); try done. apply (i_list _ _ Hi).
Qed.

(** A step in the critical section of the monitor of the lock word. *)
Lemma minv_monitor n s i p p' m mon' s' : minv n s -> pcs s !! i = Some p -> view b (lock_word s) = Fat m 0 ->
  lock_word s' = lock_word s -> mons s' = <[m := mon']> (mons s) -> pool s' = pool s -> list_ s' = list_ s ->
  pcs s' = <[i := p']> (pcs s) ->
  mon_ok (n + 1) (<[i := p']> (pcs s)) mon' -> owned_of p = None -> owned_of p' = None -> susp_step s i p p' ->
  pc_ok (n + 1) (mons s) (view b (lock_word s)) (tid i) p' -> minv (n + 1) s'.
Proof.
  intros Hi Hp Hv El Em Epo Eli Ep Hmon Ho Ho' [Hs1 Hs2] Hpc.
  assert (Hdom : dom (mons s') = dom (mons s)).
  { rewrite Em, dom_insert_L. pose proof (i_lock _ _ Hi) as Hl. rewrite Hv in Hl. destruct Hl as (mon & Hm & _).
    apply elem_of_dom_2 in Hm. set_solver. }
  assert (Hpr : forall m', priv_of p' = Some m' -> False) by (intros m' E; destruct p'; cbn in *; congruence).
  apply (minv_update n s i p p' s' Hi Hp Ep); rewrite ?El, ?Hdom, ?Epo, ?Eli; try done.
  - apply (i_good _ _ Hi).
  - rewrite Hv, Em. exists mon'. rewrite lookup_insert_eq, Ep. done.
  - apply (pc_ok_stable (n + 1) _ (mons s) _ (view b (lock_word s)) _ _ p'); [lia | | by left | exact Hpc].
    intros m' E. by destruct (Hpr m').
  - intros j q Hne Hq. split; [by left|]. intros m' E.
    pose proof (i_priv _ _ Hi j q m' Hq E) as Hne'. split; [|done]. rewrite Em, lookup_insert_ne; [done|congruence].
  - intros m' E. congruence.
  - intros m' E. by destruct (Hpr m').
  - apply (i_pool _ _ Hi).
  - apply (i_ids _ _ Hi).
  - rewrite Ep. apply (list_ok_move _ i p); try done. apply (i_list _ _ Hi).
Qed.

Definition not_fat (v : lock_value) : Prop := match v with Fat _ _ => False | _ => True end.
Lemma list_ok_not_fat l ml v : not_fat v -> list_ok l ml v -> ml = [].
Proof. by destruct v. Qed.

(** A change of the lock word between values without a monitor. *)
Lemma minv_word n s i p p' w s' : minv n s -> pcs s !! i = Some p ->
  lock_word s' = w -> mons s' = mons s -> pool s' = pool s -> list_ s' = list_ s -> pcs s' = <[i := p']> (pcs s) ->
  good b w -> not_fat (view b (lock_word s)) -> not_fat (view b w) -> lock_ok (n + 1) (mons s) (pcs s') (view b w) ->
  (view b (lock_word s) = Unlocked 0 \/
   exists c, view b (lock_word s) = Thin (tid i) c 0 /\ suspended s (tid i) = false) ->
  owned_of p' = None -> susp_of p' = None -> suspendable p = false ->
  pc_ok (n + 1) (mons s) (view b w) (tid i) p' -> minv (n + 1) s'.
Proof.
  intros Hi Hp El Em Epo Eli Ep Hg Hnf Hnf' Hlock Hst Ho' Hs1 Hs2 Hpc.
  assert (Hpr : forall m', priv_of p' = Some m' -> False) by (intros m' E; destruct p'; cbn in *; congruence).
  apply (minv_update n s i p p' s' Hi Hp Ep); rewrite ?El, ?Em, ?Epo, ?Eli; try done.
  - intros j q Hne Hq. split.
    + destruct Hst as [->|(c & -> & Hs)]; [right; by left|]. do 2 right. left. exists (tid i), c. split; [done|].
      split; [by intros E%tid_inj|by eapply suspended_false].
    + intros m E. split; [done|]. intros E'. by rewrite E' in Hnf'.
  - intros m E. congruence.
  - intros m E. by destruct (Hpr m).
  - congruence.
  - auto.
  - apply (i_pool _ _ Hi).
  - apply (i_ids _ _ Hi).
  - rewrite (list_ok_not_fat _ _ _ Hnf (i_list _ _ Hi)). by destruct (view b w).
Qed.
End Invariant.
Arguments i_bound {P C _ b n s} _.
Arguments i_good {P C _ b n s} _.
Arguments i_threads {P C _ b n s} _.
Arguments i_lock {P C _ b n s} _.
Arguments i_pcs {P C _ b n s} _ _ _ _.
Arguments i_owned {P C _ b n s} _ _ _ _ _ _ _ _ _ _.
Arguments i_priv {P C _ b n s} _ _ _ _ _ _.
Arguments i_susp {P C _ b n s} _ _ _ _ _ _.
Arguments i_pool {P C _ b n s} _.
Arguments i_ids {P C _ b n s} _ _ _.
Arguments i_list {P C _ b n s} _.
