(* ===== verification/MonitorSteps.v ===== *)
(** The steps of the machine of Monitor, one by one: each keeps the invariant,
    none fails a check, and each has the effect on the lock and on the hash
    code that its label shows. *)
From stdpp Require Import prelude gmap list.
From Stdlib Require Import ZArith Lia.
From S2P Require Import Prelude LockWord MonitorPool Monitor MonitorInvariant.
Import LockWord Monitor.
Open Scope Z_scope.

(** ** What is seen of a state *)

(** The holder of the lock and its count. *)
Definition holder (ms : gmap Z Monitor) (v : lock_value) : option (Z * Z) :=
  match v with
  | Thin o c _ => Some (o, c)
  | Fat m _ => mon ← ms !! m; o ← owner_ mon; Some (o, lock_count_ mon)
  | _ => None
  end.
(** The identity hash code. *)
Definition hash_of (ms : gmap Z Monitor) (v : lock_value) : option Z :=
  match v with
  | Hash h _ => Some h
  | Fat m _ => mon ← ms !! m; if hash_code_ mon =? 0 then None else Some (hash_code_ mon)
  | _ => None
  end.
(** The count that a waiting thread has put aside. *)
Definition saved_of (p : pc) : option Z :=
  match p with
  | Waiting _ _ prev _ | Woken _ _ prev _ | WaitRelock _ _ prev _ | WaitLocked _ _ prev _
  | LockBlocked _ (LWait _ prev _) => Some prev
  | _ => None
  end.

(** What a step of thread [t] with label [l] does to the lock, of which [a] is
    the holder and [sv] the count that [t] has put aside. *)
Definition lock_eff (t : Z) (l : label) (a : option (Z * Z)) (sv : option Z) (a' : option (Z * Z)) (sv' : option Z) : Prop :=
  match l with
  | Tau => a' = a /\ sv' = sv
  | Ret (RHashCode _) => a' = a /\ (sv = None /\ sv' = None)
  | Ret REntered =>
      (sv = None /\ sv' = None) /\ (a = None /\ a' = Some (t, 0) \/ exists c, a = Some (t, c) /\ a' = Some (t, c + 1))
  | Ret RExited => (sv = None /\ sv' = None) /\ exists c, a = Some (t, c) /\ a' = if c =? 0 then None else Some (t, c - 1)
  | Ret RTryLockFailed => a' = a /\ (sv = None /\ sv' = None) /\ exists o c, a = Some (o, c) /\ o <> t
  | Ret RIllegalMonitorState => a' = a /\ (sv = None /\ sv' = None) /\ forall c, a <> Some (t, c)
  | Ret RIllegalArgument | Ret RNotified => a' = a /\ (sv = None /\ sv' = None) /\ exists c, a = Some (t, c)
  | WaitRelease => sv = None /\ a' = None /\ exists c, a = Some (t, c) /\ sv' = Some c
  | WaitAcquire => sv' = sv /\ sv <> None /\ a = None /\ a' = Some (t, 0)
  | Ret (RWaited _) => sv' = None /\ exists c, sv = Some c /\ a = Some (t, 0) /\ a' = Some (t, c)
  end.
(** What it does to the hash code. *)
Definition hash_eff (l : label) (h h' : option Z) : Prop :=
  (forall x, h = Some x -> h' = Some x) /\ (forall x, l = Ret (RHashCode x) -> h' = Some x).

Section Steps.
Context {P C : Type} `{IdPool P C} (b : bool).
Local Notation minv := (minv b).
Local Notation pc_ok := (pc_ok b).
Local Notation view := (view b).

Definition obs (s : mstate P) : option (Z * Z) := holder (mons s) (view (lock_word s)).
Definition obs_hash (s : mstate P) : option Z := hash_of (mons s) (view (lock_word s)).

(** A step of thread [i] at [p] that goes well. *)
Definition step_good (n : Z) (s : mstate P) (i : nat) (p : pc) (o : outcome (mstate P * label)) : Prop :=
  exists s' l p', o = Done (s', l) /\ minv (n + 1) s' /\ pcs s' !! i = Some p' /\
    (forall j, j <> i -> saved_of <$> pcs s' !! j = saved_of <$> pcs s !! j) /\
    lock_eff (tid i) l (obs s) (saved_of p) (obs s') (saved_of p') /\ hash_eff l (obs_hash s) (obs_hash s').

(** *** Steps that read the lock word *)
Definition plain (p : pc) : Prop :=
  weight p = 0 /\ in_wait p = false /\ unsignalled p = false /\ relocked p = false /\ owned_of p = None.

Lemma minv_plain n s i p p' s' : minv n s -> pcs s !! i = Some p ->
  lock_word s' = lock_word s -> mons s' = mons s -> pool s' = pool s -> list_ s' = list_ s ->
  pcs s' = <[i := p']> (pcs s) -> plain p -> plain p' -> susp_step s i p p' ->
  pc_ok (n + 1) (mons s) (view (lock_word s)) (tid i) p' -> minv (n + 1) s'.
Proof.
  intros Hi Hp El Em Epo Eli Ep (W & I & U & R & O) (W' & I' & U' & R' & O') Hs Hpc.
  apply (minv_goto b n s i p p' s'); try done. unfold quiet. repeat split; congruence.
Qed.

Lemma tid_range n s i p : minv n s -> pcs s !! i = Some p -> 1 <= tid i <= kThinLockMaxOwner.
Proof.
  intros Hi Hp. apply lookup_lt_Some in Hp. pose proof (i_threads Hi). unfold tid. lia.
Qed.

(** The label [l] of a step that leaves the lock and the hash code alone. *)
Definition idle_label (s : mstate P) (t : Z) (l : label) : Prop :=
  lock_eff t l (obs s) None (obs s) None /\ forall x, l = Ret (RHashCode x) -> obs_hash s = Some x.

(** The result of a step that only moves the thread. *)
Definition read_ok (n : Z) (s : mstate P) (i : nat) (o : outcome (pc * label)) : Prop :=
  exists p' l, o = Done (p', l) /\ plain p' /\ susp_of p' = None /\ idle_label s (tid i) l /\
    pc_ok (n + 1) (mons s) (view (lock_word s)) (tid i) p'.

Lemma saved_plain p : in_wait p = false -> saved_of p = None.
Proof. destruct p; try done. by destruct l. Qed.
Lemma saved_others i p' (s s' : mstate P) : pcs s' = <[i := p']> (pcs s) ->
  forall j, j <> i -> saved_of <$> pcs s' !! j = saved_of <$> pcs s !! j.
Proof. intros -> j Hj. by rewrite list_lookup_insert_ne. Qed.
Lemma moved_self i p p' (s s' : mstate P) : pcs s !! i = Some p -> pcs s' = <[i := p']> (pcs s) -> pcs s' !! i = Some p'.
Proof. intros Hp ->. apply list_lookup_insert_eq. by apply lookup_lt_Some in Hp. Qed.
Lemma idle_tau s t : idle_label s t Tau.
Proof. by split. Qed.
Lemma hash_eff_same l h : (forall x, l = Ret (RHashCode x) -> h = Some x) -> hash_eff l h h.
Proof. by split. Qed.

Lemma goto_good n s i p s0 p' l : minv n s -> pcs s !! i = Some p -> plain p -> plain p' ->
  lock_word s0 = lock_word s -> mons s0 = mons s -> pool s0 = pool s -> list_ s0 = list_ s -> pcs s0 = pcs s ->
  susp_step s i p p' -> idle_label s (tid i) l ->
  pc_ok (n + 1) (mons s) (view (lock_word s)) (tid i) p' -> step_good n s i p (goto (tid i) s0 (Done (p', l))).
Proof.
  intros Hi Hp Hpl Hpl' El Em Epo Eli Ep Hs [Hl1 Hl2] Hpc. exists (set_pc (tid i) p' s0), l, p'.
  assert (Epc : pcs (set_pc (tid i) p' s0) = <[i := p']> (pcs s)) by (rewrite set_pc_tid; cbn; by rewrite Ep).
  assert (Eo : obs (set_pc (tid i) p' s0) = obs s) by (unfold obs; cbn; by rewrite El, Em).
  assert (Eh : obs_hash (set_pc (tid i) p' s0) = obs_hash s) by (unfold obs_hash; cbn; by rewrite El, Em).
  split; [done|]. split; [exact (minv_plain n s i p p' (set_pc (tid i) p' s0) Hi Hp El Em Epo Eli Epc Hpl Hpl' Hs Hpc)|]. split; [by eapply moved_self|].
  split; [by eapply saved_others|]. rewrite Eo, Eh.
  rewrite (saved_plain p), (saved_plain p') by (apply Hpl || apply Hpl'). split; [done|by apply hash_eff_same].
Qed.

Lemma goto_read n s i p o : minv n s -> pcs s !! i = Some p -> plain p -> suspendable p = false -> read_ok n s i o ->
  step_good n s i p (goto (tid i) s o).
Proof.
  intros Hi Hp Hpl Hs (p' & l & -> & Hpl' & Hs' & Hl & Hpc). apply goto_good; try done. apply susp_none; auto.
Qed.

Lemma read_tau n s i p' : plain p' -> susp_of p' = None ->
  pc_ok (n + 1) (mons s) (view (lock_word s)) (tid i) p' -> read_ok n s i (Done (p', Tau)).
Proof. intros. exists p', Tau. split; [done|]. split; [done|]. split; [done|]. split; [apply idle_tau|done]. Qed.
Lemma read_ret n s i l : idle_label s (tid i) l -> read_ok n s i (Done (Running, l)).
Proof. intros. by exists Running, l. Qed.
Ltac plainly := apply read_tau; [by repeat split | done |]; cbn [MonitorInvariant.pc_ok].

(** Labels of reads that find the lock held by another thread, or not held. *)
Lemma idle_not_owner s t : (forall c, obs s <> Some (t, c)) -> idle_label s t (Ret RIllegalMonitorState).
Proof. by repeat split. Qed.
Lemma idle_thin_other s t o c : view (lock_word s) = Thin o c 0 -> o <> t ->
  idle_label s t (Ret RIllegalMonitorState) /\ idle_label s t (Ret RTryLockFailed).
Proof.
  intros Hv Hne. unfold idle_label, obs. rewrite Hv. cbn. repeat split; try done; try congruence. eauto.
Qed.
Lemma idle_unlocked s t : holder (mons s) (view (lock_word s)) = None -> idle_label s t (Ret RIllegalMonitorState).
Proof. intros E. apply idle_not_owner. unfold obs. by rewrite E. Qed.

(** Inflation of a thin lock found by a read. *)
Lemma InflateThinLocked_ok n s i w h k : minv n s -> 0 <= h <= kMaxHash ->
  (ThinLockOwner w = tid i -> exists c, view (lock_word s) = Thin (tid i) c 0) ->
  plain (InflateThinLocked (tid i) w h k) /\ susp_of (InflateThinLocked (tid i) w h k) = None /\
  pc_ok (n + 1) (mons s) (view (lock_word s)) (tid i) (InflateThinLocked (tid i) w h k).
Proof.
  intros Hi Hh Ho. unfold InflateThinLocked. destruct (Z.eqb_spec (ThinLockOwner w) (tid i)) as [E|E].
  - split; [done|]. split; [done|]. split; [done|]. split; [left; done|]. left. by apply Ho.
  - done.
Qed.

Lemma MonitorEnter_read_ok max_spins n s i p trylock cc : minv n s -> pcs s !! i = Some p ->
  read_ok n s i (MonitorEnter_read b max_spins (tid i) trylock cc (lock_word s)).
Proof.
  intros Hi Hp. pose proof (i_good Hi) as Hg. pose proof (read_word b _ Hg) as Hr.
  pose proof (tid_range n s i p Hi Hp) as Ht. pose proof (good_rb b _ Hg) as Hrb. pose proof (i_lock Hi) as Hl.
  pose proof (i_bound Hi) as Hn. unfold MonitorEnter_read. destruct (GetState b (lock_word s)) eqn:Es; [| | | |done].
  - destruct (thin_word b (tid i) 0 (ReadBarrierState (lock_word s))) as (w' & -> & Hg' & Hv'); [done|done|done|].
    plainly. split; [done|]. split; [done|]. exists 0. split; [lia|]. split; [done|by left].
  - destruct Hr as [Hv Hc]. destruct (Z.eqb_spec (ThinLockOwner (lock_word s)) (tid i)) as [Eo|Eo].
    + rewrite Hv in Hl. destruct Hl as [_ Hcn]. rewrite Eo in Hv.
      destruct (Z.leb_spec (ThinLockCount (lock_word s) + 1) kThinLockMaxCount).
      * destruct (thin_word b (tid i) (ThinLockCount (lock_word s) + 1) (ReadBarrierState (lock_word s)))
          as (w' & -> & Hg' & Hv'); [done|lia|done|]. cbn. destruct (negb b); plainly.
        -- split; [done|]. exists (ThinLockCount (lock_word s)). done.
        -- split; [done|]. split; [done|]. exists (ThinLockCount (lock_word s) + 1). split; [lia|]. split; [done|].
           right. split; [|lia]. rewrite Hv. f_equal. lia.
      * destruct (InflateThinLocked_ok n s i (lock_word s) 0 (KEnter trylock cc)) as (H1 & H2 & H3); [done|done|eauto|].
        by apply read_tau.
    + destruct trylock; [apply read_ret; by apply (idle_thin_other _ _ _ _ Hv)|].
      destruct (_ <=? max_spins); [plainly; done|].
      destruct (InflateThinLocked_ok n s i (lock_word s) 0 (KEnter false 0)) as (H1 & H2 & H3); [done|done|done|].
      by apply read_tau.
  - plainly. done.
  - destruct Hr as [Hv Hh]. plainly. rewrite Hv in Hl |- *. cbn in Hl. repeat (split; [done|]). by left.
Qed.

Lemma MonitorExit_read_ok n s i p : minv n s -> pcs s !! i = Some p ->
  read_ok n s i (MonitorExit_read b (tid i) (lock_word s)).
Proof.
  intros Hi Hp. pose proof (i_good Hi) as Hg. pose proof (read_word b _ Hg) as Hr.
  pose proof (tid_range n s i p Hi Hp) as Ht. pose proof (good_rb b _ Hg) as Hrb.
  unfold MonitorExit_read. set (w := lock_word s) in *. destruct (GetState b w) eqn:Es; [| | | |done].
  1, 4: apply read_ret, idle_unlocked; fold w; first [rewrite Hr | rewrite (proj1 Hr)]; done.
  2: plainly; done.
  destruct Hr as [Hv Hc]. destruct (Z.eqb_spec (ThinLockOwner w) (tid i)) as [Eo|Eo]; cbn [negb].
  2: { apply read_ret. by apply (idle_thin_other _ _ _ _ Hv). }
  rewrite Eo in Hv.
  assert (exists w', (if negb (ThinLockCount w =? 0) then FromThinLockId (tid i) (ThinLockCount w - 1) (ReadBarrierState w)
                      else Done (FromDefault (ReadBarrierState w))) = Done w' /\
                     good b w' /\ view w' = unlocked_once (tid i) (ThinLockCount w)) as (w' & -> & Hg' & Hv').
  { unfold unlocked_once. destruct (Z.eqb_spec (ThinLockCount w) 0) as [E0|E0]; cbn [negb].
    - eexists. split; [done|]. by apply default_word.
    - apply thin_word; [done|lia|done]. }
  cbn. destruct (negb b); plainly.
  - split; [done|]. exists (ThinLockCount w). done.
  - split; [done|]. split; [done|]. exists (ThinLockCount w). split; [lia|]. done.
Qed.

Lemma Wait_read_ok n s i p a : minv n s -> pcs s !! i = Some p -> read_ok n s i (Wait_read b (tid i) a (lock_word s)).
Proof.
  intros Hi Hp. pose proof (read_word b _ (i_good Hi)) as Hr.
  unfold Wait_read. set (w := lock_word s) in *. destruct (GetState b w) eqn:Es; [| | | |done].
  1, 4: apply read_ret, idle_unlocked; fold w; first [rewrite Hr | rewrite (proj1 Hr)]; done.
  2: plainly; done.
  destruct Hr as [Hv Hc]. destruct (Z.eqb_spec (ThinLockOwner w) (tid i)) as [Eo|Eo]; cbn [negb].
  - plainly. split; [done|]. split; [by left|]. left. fold w. rewrite Hv, Eo. eauto.
  - apply read_ret. by apply (idle_thin_other _ _ _ _ Hv).
Qed.

Lemma DoNotify_read_ok n s i p all : minv n s -> pcs s !! i = Some p ->
  read_ok n s i (DoNotify_read b (tid i) all (lock_word s)).
Proof.
  intros Hi Hp. pose proof (read_word b _ (i_good Hi)) as Hr.
  unfold DoNotify_read. set (w := lock_word s) in *. destruct (GetState b w) eqn:Es; [| | | |done].
  1, 4: apply read_ret, idle_unlocked; fold w; first [rewrite Hr | rewrite (proj1 Hr)]; done.
  2: plainly; done.
  destruct Hr as [Hv Hc]. destruct (Z.eqb_spec (ThinLockOwner w) (tid i)) as [Eo|Eo]; cbn [negb]; apply read_ret.
  - unfold idle_label, obs. fold w. rewrite Hv, Eo. cbn. by repeat split; eauto.
  - by apply (idle_thin_other _ _ _ _ Hv).
Qed.

Lemma IdentityHashCode_read_ok n s i p : minv n s -> pcs s !! i = Some p ->
  read_ok n s i (IdentityHashCode_read b (lock_word s)).
Proof.
  intros Hi Hp. pose proof (i_good Hi) as Hg. pose proof (read_word b _ Hg) as Hr.
  unfold IdentityHashCode_read. set (w := lock_word s) in *. destruct (GetState b w) eqn:Es; [plainly; done| |plainly; done| |done].
  - plainly. split; [done|]. exists (ThinLockOwner w), (ThinLockCount w). split; [tauto|]. intros <-.
    destruct Hr as [Hv _]. fold w. rewrite Hv. eauto.
  - apply read_ret. unfold idle_label, obs, obs_hash. fold w. rewrite (proj1 Hr). split; [done|]. by intros x [= <-].
Qed.
(** *** Steps that change the lock word of an object without a monitor *)
Lemma valid_self l i (p : pc) : l !! i = Some p -> valid_tid l (tid i).
Proof. intros Hp. exists i. split; [done|by apply lookup_lt_Some in Hp]. Qed.

Lemma word_good n s i p w l : minv n s -> pcs s !! i = Some p -> plain p -> suspendable p = false ->
  suspended s (tid i) = false -> good b w ->
  (view (lock_word s) = Unlocked 0 \/ exists c, view (lock_word s) = Thin (tid i) c 0) ->
  (view w = Unlocked 0 \/ (exists c, 0 <= c <= n + 1 /\ view w = Thin (tid i) c 0) \/ exists h, 0 < h /\ view w = Hash h 0) ->
  lock_eff (tid i) l (obs s) None (holder (mons s) (view w)) None ->
  (forall x, l = Ret (RHashCode x) -> hash_of (mons s) (view w) = Some x) ->
  step_good n s i p (goto (tid i) (with_lock_word w s) (Done (Running, l))).
Proof.
  intros Hi Hp Hpl Hs Hsu Hg Hv Hv' Hl Hh. exists (set_pc (tid i) Running (with_lock_word w s)), l, Running.
  assert (Epc : pcs (set_pc (tid i) Running (with_lock_word w s)) = <[i := Running]> (pcs s)) by by rewrite set_pc_tid.
  split; [done|]. split.
  { apply (minv_word b n s i p Running w (set_pc (tid i) Running (with_lock_word w s)) Hi Hp eq_refl eq_refl eq_refl eq_refl Epc Hg).
    - by destruct Hv as [->|[c ->]].
    - by destruct Hv' as [->|[(c & _ & ->)|(h & _ & ->)]].
    - rewrite Epc. destruct Hv' as [->|[(c & Hc & ->)|(h & Hh' & ->)]]; [done| |done].
      split; [|done]. apply valid_tid_insert. by eapply valid_self.
    - destruct Hv as [->|[c ->]]; eauto.
    - done.
    - done.
    - done.
    - done. }
  split; [by eapply moved_self|]. split; [by eapply saved_others|]. rewrite (saved_plain p) by apply Hpl.
  split; [exact Hl|]. split; [|exact Hh]. unfold obs_hash at 1. by destruct Hv as [->|[c ->]].
Qed.

(** The compare-and-swap of the lock word. *)
Lemma cas_cases fail e w (s : mstate P) :
  cas fail e w s = (false, s) \/ lock_word s = e /\ cas fail e w s = (true, with_lock_word w s).
Proof.
  unfold cas. destruct fail; cbn [negb andb]; [by left|]. destruct (Z.eqb_spec (lock_word s) e); auto.
Qed.

Section One.
Context (n : Z) (s : mstate P) (i : nat) (fail : bool) (Hi : minv n s) (Hsu : suspended s (tid i) = false).

Lemma EnterCas_good trylock cc w new : pcs s !! i = Some (EnterCas trylock cc w new) ->
  step_good n s i (EnterCas trylock cc w new)
    (let '(ok, s) := cas fail w new s in
     goto (tid i) s (Done (if (ok : bool) then (Running, Ret REntered) else (EnterLoop trylock cc, Tau)))).
Proof using Hi Hsu.
  intros Hp. destruct (i_pcs Hi _ _ Hp) as (Hg & Hg' & c & Hc & Hv' & Hv).
  destruct (cas_cases fail w new s) as [->|[E ->]].
  - apply goto_good; try done. by apply susp_none; auto.
  - rewrite <- E in Hv. apply word_good; try done.
    + destruct Hv as [[-> _]|[-> _]]; eauto.
    + right. left. exists c. split; [lia|done].
    + rewrite Hv'. unfold obs. split; [done|]. destruct Hv as [[-> ->]|[-> _]]; [by left|]. right. exists (c - 1).
      split; [done|]. cbn. do 2 f_equal. lia.
Qed.
Lemma EnterStore_good new : pcs s !! i = Some (EnterStore new) ->
  step_good n s i (EnterStore new) (goto (tid i) (with_lock_word new s) (Done (Running, Ret REntered))).
Proof using Hi Hsu.
  intros Hp. destruct (i_pcs Hi _ _ Hp) as (Hg & c & Hv & Hv'). pose proof (i_lock Hi) as Hl. rewrite Hv in Hl.
  destruct Hl as [_ Hc]. apply word_good; try done.
  - eauto.
  - right. left. exists (c + 1). split; [lia|done].
  - rewrite Hv'. unfold obs. rewrite Hv. split; [done|]. right. by exists c.
Qed.

Lemma holder_unlocked_once ms t c :
  holder ms (unlocked_once t c) = if c =? 0 then None else Some (t, c - 1).
Proof using. unfold unlocked_once. by destruct (c =? 0). Qed.
Lemma unlocked_once_ok t c : 0 <= c <= n ->
  unlocked_once t c = Unlocked 0 \/ (exists c', 0 <= c' <= n + 1 /\ unlocked_once t c = Thin t c' 0) \/
  exists h, 0 < h /\ unlocked_once t c = Hash h 0.
Proof using.
  intros Hc. unfold unlocked_once. destruct (Z.eqb_spec c 0); [by left|]. right. left. exists (c - 1). split; [lia|done].
Qed.
Lemma ExitCas_good w new : pcs s !! i = Some (ExitCas w new) ->
  step_good n s i (ExitCas w new)
    (let '(ok, s) := cas fail w new s in
     goto (tid i) s (Done (if (ok : bool) then (Running, Ret RExited) else (ExitLoop, Tau)))).
Proof using Hi Hsu.
  intros Hp. destruct (i_pcs Hi _ _ Hp) as (Hg & Hg' & c & Hc & Hv & Hv').
  destruct (cas_cases fail w new s) as [->|[E ->]].
  - apply goto_good; try done. by apply susp_none; auto.
  - rewrite <- E in Hv. pose proof (i_lock Hi) as Hl. rewrite Hv in Hl. destruct Hl as [_ Hcn].
    apply word_good; try done; rewrite ?Hv'; [eauto|by apply unlocked_once_ok|].
    rewrite holder_unlocked_once. unfold obs. rewrite Hv. split; [done|]. by exists c.
Qed.
Lemma ExitStore_good new : pcs s !! i = Some (ExitStore new) ->
  step_good n s i (ExitStore new) (goto (tid i) (with_lock_word new s) (Done (Running, Ret RExited))).
Proof using Hi Hsu.
  intros Hp. destruct (i_pcs Hi _ _ Hp) as (Hg & c & Hv & Hv'). pose proof (i_lock Hi) as Hl. rewrite Hv in Hl.
  destruct Hl as [_ Hcn]. apply word_good; try done; rewrite ?Hv'; [eauto|by apply unlocked_once_ok|].
  rewrite holder_unlocked_once. unfold obs. rewrite Hv. split; [done|]. by exists c.
Qed.
Lemma HashCas_good w new : pcs s !! i = Some (HashCas w new) ->
  step_good n s i (HashCas w new)
    (let '(ok, s) := cas fail w new s in
     goto (tid i) s (Done (if (ok : bool) then (Running, Ret (RHashCode (GetHashCode new))) else (HashLoop, Tau)))).
Proof using Hi Hsu.
  intros Hp. destruct (i_pcs Hi _ _ Hp) as (Hg & Hg' & Hv & h & Hh & Hv').
  destruct (cas_cases fail w new s) as [->|[E ->]].
  - apply goto_good; try done. by apply susp_none; auto.
  - rewrite <- E in Hv. pose proof (read_word b new Hg') as Hr.
    assert (GetHashCode new = h) as ->.
    { destruct (GetState b new); try done; rewrite Hv' in Hr; [done|by destruct Hr|done|by destruct Hr as [[= ->] _]]. }
    apply word_good; try done; rewrite ?Hv'.
    + by left.
    + do 2 right. exists h. split; [lia|done].
    + unfold obs. by rewrite Hv.
    + intros x [= <-]. done.
Qed.
End One.
(** *** Critical sections of the monitor *)
Definition mon_holder (mon : Monitor) : option (Z * Z) := o ← owner_ mon; Some (o, lock_count_ mon).
Definition mon_hash (mon : Monitor) : option Z := if hash_code_ mon =? 0 then None else Some (hash_code_ mon).

(** What a critical section of thread [i] at [p] has to do. *)
Definition section_ok (n : Z) (s : mstate P) (i : nat) (p : pc) (mon : Monitor) (o : outcome (Monitor * pc * label)) : Prop :=
  exists mon' p' l, o = Done (mon', p', l) /\ mon_ok (n + 1) (<[i := p']> (pcs s)) mon' /\
    owned_of p' = None /\ susp_step s i p p' /\ pc_ok (n + 1) (mons s) (view (lock_word s)) (tid i) p' /\
    lock_eff (tid i) l (mon_holder mon) (saved_of p) (mon_holder mon') (saved_of p') /\
    hash_eff l (mon_hash mon) (mon_hash mon').

Lemma monitor_good n s i p m f : minv n s -> pcs s !! i = Some p -> view (lock_word s) = Fat m 0 -> owned_of p = None ->
  (forall mon, mons s !! m = Some mon -> mon_ok n (pcs s) mon -> section_ok n s i p mon (f mon)) ->
  step_good n s i p (in_monitor (tid i) m s f).
Proof.
  intros Hi Hp Hv Ho Hf. pose proof (i_lock Hi) as Hl. rewrite Hv in Hl. destruct Hl as (mon & Hm & Hok).
  destruct (Hf mon Hm Hok) as (mon' & p' & l & E & Hok' & Ho' & Hs & Hpc & He & Hh).
  unfold in_monitor. rewrite Hm, E. set (s' := set_pc (tid i) p' (with_mon m mon' s)).
  assert (Epc : pcs s' = <[i := p']> (pcs s)) by (unfold s'; by rewrite set_pc_tid).
  exists s', l, p'. split; [done|].
  split; [exact (minv_monitor b n s i p p' m mon' s' Hi Hp Hv eq_refl eq_refl eq_refl eq_refl Epc Hok' Ho Ho' Hs Hpc)|].
  split; [by eapply moved_self|]. split; [by eapply saved_others|].
  assert (E1 : mons s' !! m = Some mon') by apply lookup_insert_eq.
  unfold obs, obs_hash. change (lock_word s') with (lock_word s). rewrite Hv. unfold holder, hash_of. rewrite E1, Hm. done.
Qed.

(** [TryLockLocked] on a monitor whose count is in range. *)
Definition count_ok (n : Z) (mon : Monitor) : Prop :=
  match owner_ mon with None => lock_count_ mon = 0 | Some _ => 0 <= lock_count_ mon <= n end.
Lemma mon_ok_count n l mon : mon_ok n l mon -> count_ok n mon.
Proof. intros (_ & _ & Hown & _). unfold count_ok. destruct (owner_ mon); tauto. Qed.
Lemma TryLockLocked_cases n t mon : count_ok n mon -> n + 1 < 2 ^ 31 ->
  owner_ mon = None /\ TryLockLocked t mon = Done (true, set_owner (Some t) 0 mon) \/
  owner_ mon = Some t /\ 0 <= lock_count_ mon <= n /\
    TryLockLocked t mon = Done (true, set_owner (Some t) (lock_count_ mon + 1) mon) \/
  (exists o, owner_ mon = Some o /\ o <> t) /\ TryLockLocked t mon = Done (false, mon).
Proof.
  intros Hown Hn. unfold TryLockLocked, count_ok in *. destruct (owner_ mon) as [o|].
  - destruct (Z.eqb_spec o t) as [->|Hne].
    + right. left. rewrite swrap_small by lia. done.
    + do 2 right. split; [eauto|done].
  - left. rewrite Hown. done.
Qed.

(** The owner and the count after the step of thread [i]. *)
Definition own_step (n : Z) (i : nat) (mon mon' : Monitor) : Prop :=
  owner_ mon' = owner_ mon /\ lock_count_ mon' = lock_count_ mon \/
  (owner_ mon = None \/ owner_ mon = Some (tid i)) /\
  (owner_ mon' = None /\ lock_count_ mon' = 0 \/ owner_ mon' = Some (tid i) /\ 0 <= lock_count_ mon' <= n + 1).

Lemma mon_ok_section n l i p p' mon mon' : l !! i = Some p -> mon_ok n l mon ->
  obj_ mon' = obj_ mon -> 0 <= hash_code_ mon' <= kMaxHash ->
  num_waiters_ mon' = num_waiters_ mon - weight p + weight p' -> ws_ok l i p' (wait_set_ mon') -> own_step n i mon mon' ->
  (relocked p' = true -> owner_ mon' = Some (tid i) /\ lock_count_ mon' = 0) ->
  (in_wait p' = true -> relocked p' = false -> owner_ mon' <> Some (tid i)) ->
  mon_ok (n + 1) (<[i := p']> l) mon'.
Proof.
  intros Hp Hok Eo Hh Hnw Hws Hown Hr Hw. pose proof Hok as (Ho & _ & Hoc & _ & _ & _ & _ & Hrel & Hout).
  apply (mon_ok_update n l i p p' mon mon' Hp Hok); try done; [congruence|..]; unfold own_step in Hown.
  - destruct Hown as [[-> ->]|[_ [[-> ->]|[-> Hc]]]]; [|done|split; [by eapply valid_self|done]].
    destruct (owner_ mon); [split; [tauto|lia]|done].
  - intros j q Hne Hq Hq'. destruct (Hrel j q Hq Hq') as [E1 E2].
    destruct Hown as [[-> ->]|[[E|E] _]]; [done|congruence|]. rewrite E in E1. injection E1 as E1%tid_inj. congruence.
  - intros j q Hne Hq Hq' Hq''. destruct Hown as [[-> _]|[_ [[-> _]|[-> _]]]]; [by apply (Hout j q)|done|].
    intros [= E%tid_inj]. congruence.
Qed.

Section Two.
Context (n : Z) (s : mstate P) (i : nat) (fail : bool) (Hi : minv n s) (Hsu : suspended s (tid i) = false).
Context (Hn : n + 1 < 2 ^ 31).

Lemma TryLock_good m : pcs s !! i = Some (EnterFat true m) ->
  step_good n s i (EnterFat true m) (in_monitor (tid i) m s (fun mon =>
    '(locked, mon) ← TryLockLocked (tid i) mon;
    Done (mon, Running, Ret (if (locked : bool) then REntered else RTryLockFailed)))).
Proof using Hi Hsu Hn.
  intros Hp. pose proof (i_pcs Hi _ _ Hp) as Hv. apply monitor_good; try done. intros mon Hm Hok.
  pose proof Hok as (_ & Hh & _). pose proof (i_bound Hi).
  assert (Hws : ws_ok (pcs s) i Running (wait_set_ mon)) by (eapply ws_same; done).
  destruct (TryLockLocked_cases n (tid i) mon (mon_ok_count _ _ _ Hok) Hn) as [(E1 & ->)|[(E1 & E2 & ->)|[(o & E1 & Hne) ->]]].
  - eexists _, _, _. split; [reflexivity|]. split; [|split; [done|split; [by apply susp_none; auto|split; [done|]]]].
    { eapply mon_ok_section; try done; cbn; [lia|]. right. split; [auto|]. right. cbn. split; [done|lia]. }
    split; [|by apply hash_eff_same]. split; [done|]. left. unfold mon_holder. by rewrite E1.
  - eexists _, _, _. split; [reflexivity|]. split; [|split; [done|split; [by apply susp_none; auto|split; [done|]]]].
    { eapply mon_ok_section; try done; cbn; [lia|]. right. split; [auto|]. right. cbn. split; [done|lia]. }
    split; [|by apply hash_eff_same]. split; [done|]. right. unfold mon_holder. rewrite E1. by exists (lock_count_ mon).
  - eexists _, _, _. split; [reflexivity|]. split; [|split; [done|split; [by apply susp_none; auto|split; [done|]]]].
    { eapply mon_ok_section; try done; cbn; [lia|]. by left. }
    split; [|by apply hash_eff_same]. split; [done|]. split; [done|]. unfold mon_holder. rewrite E1. cbn. eauto.
Qed.

(** How a thread in [Lock] is counted, besides its wait for the lock. *)
Definition lock_weight (l : lock_kont) : Z := match l with LEnter => 0 | LWait _ _ _ => 1 end.
Definition lock_pc (m : Z) (l : lock_kont) : pc :=
  match l with LEnter => Running | LWait a prev int => WaitLocked m a prev int end.

Lemma Lock_section p l m d mon : pcs s !! i = Some p -> view (lock_word s) = Fat m 0 -> mon_ok n (pcs s) mon ->
  lock_weight l = weight p + d -> in_wait p = in_wait (LockBlocked m l) -> saved_of p = saved_of (LockBlocked m l) ->
  relocked p = false -> susp_of p = None -> pc_ok n (mons s) (view (lock_word s)) (tid i) (LockBlocked m l) ->
  section_ok n s i p mon (Lock_round (tid i) m (add_waiters d mon) l).
Proof using Hi Hsu Hn.
  intros Hp Hv Hok Hd Hin Hsv Hr Hsp Hpc. pose proof Hok as (_ & Hh & _ & _ & _ & _ & _ & _ & Hout).
  pose proof (i_bound Hi) as Hb. pose proof (mon_ok_count _ _ _ Hok) as Hc. unfold Lock_round.
  assert (Hs : forall p', susp_of p' = None -> susp_step s i p p') by (intros; by apply susp_none; auto).
  assert (Hpc' : forall p', pc_ok n (mons s) (view (lock_word s)) (tid i) p' ->
    priv_of p' = None -> pc_ok (n + 1) (mons s) (view (lock_word s)) (tid i) p').
  { intros p' Hp' Hpr. apply (pc_ok_stable b n _ (mons s) _ (view (lock_word s))); [lia|congruence|by left|done]. }
  destruct (TryLockLocked_cases n (tid i) (add_waiters d mon) Hc Hn) as [(E1 & ->)|[(E1 & E2 & ->)|[(o & E1 & Hne) ->]]];
    cbn in E1; cbn [mbind outcome_bind outcome_bind_def].
  - (* free *)
    eexists _, (lock_pc m l), _. split; [reflexivity|].
    split; [|split; [by destruct l|split; [apply Hs; by destruct l|split; [apply Hpc'; by destruct l|]]]].
    { eapply mon_ok_section; try done; cbn.
      - destruct l; cbn in *; lia.
      - eapply ws_same; [done|done| |by destruct l]. rewrite Hin. by destruct l.
      - right. split; [auto|]. right. cbn. split; [done|lia].
      - by destruct l. }
    split; [|by apply hash_eff_same; destruct l]. unfold mon_holder. rewrite E1, Hsv. destruct l; cbn; auto.
  - (* held by this thread *)
    destruct l as [|a prev int]; [|by destruct (Hout i p Hp); [rewrite Hin|done|]].
    eexists _, Running, _. split; [reflexivity|]. split; [|split; [done|split; [by apply Hs|split; [done|]]]].
    { eapply mon_ok_section; try done; cbn.
      - cbn in Hd. lia.
      - eapply ws_same; [done|done| |done]. by rewrite Hin.
      - right. split; [auto|]. right. cbn in *. split; [done|lia]. }
    split; [|by apply hash_eff_same]. unfold mon_holder. rewrite E1, Hsv. split; [done|]. right.
    by exists (lock_count_ mon).
  - (* held by another thread *)
    eexists _, (LockBlocked m l), Tau. split; [reflexivity|].
    split; [|split; [done|split; [by apply Hs|split; [by apply Hpc'|]]]].
    { eapply mon_ok_section; try done; cbn.
      - destruct l; cbn in *; lia.
      - eapply ws_same; [done|done|by rewrite Hin|done].
      - by left.
      - rewrite E1. intros _ _ [= ->]. done. }
    split; [|by apply hash_eff_same]. unfold mon_holder. rewrite Hsv. done.
Qed.

Lemma add_waiters_0 mon : add_waiters 0 mon = mon.
Proof using. destruct mon. unfold add_waiters. cbn. by rewrite Z.add_0_r. Qed.

Lemma Lock_good m : pcs s !! i = Some (EnterFat false m) ->
  step_good n s i (EnterFat false m) (in_monitor (tid i) m s (fun mon => Lock_round (tid i) m mon LEnter)).
Proof using Hi Hsu Hn.
  intros Hp. pose proof (i_pcs Hi _ _ Hp) as Hv. apply monitor_good; try done. intros mon Hm Hok.
  rewrite <- (add_waiters_0 mon) at 2. by apply Lock_section.
Qed.
Lemma LockBlocked_good m l : pcs s !! i = Some (LockBlocked m l) ->
  step_good n s i (LockBlocked m l)
    (in_monitor (tid i) m s (fun mon => Lock_round (tid i) m (add_waiters (-1) mon) l)).
Proof using Hi Hsu Hn.
  intros Hp. pose proof (i_pcs Hi _ _ Hp) as Hv. apply monitor_good; try done; [apply Hv|]. intros mon Hm Hok.
  apply Lock_section; try done; [apply Hv|by destruct l].
Qed.
Lemma WaitRelock_good m a prev int : pcs s !! i = Some (WaitRelock m a prev int) ->
  step_good n s i (WaitRelock m a prev int)
    (in_monitor (tid i) m s (fun mon => Lock_round (tid i) m mon (LWait a prev int))).
Proof using Hi Hsu Hn.
  intros Hp. pose proof (i_pcs Hi _ _ Hp) as Hv. apply monitor_good; try done; [apply Hv|]. intros mon Hm Hok.
  rewrite <- (add_waiters_0 mon) at 2. apply Lock_section; try done. apply Hv.
Qed.

(** A section that ends the call. *)
Lemma section_return p mon mon' l : pcs s !! i = Some p -> mon_ok n (pcs s) mon -> weight p = 0 -> in_wait p = false ->
  obj_ mon' = obj_ mon -> 0 <= hash_code_ mon' <= kMaxHash -> num_waiters_ mon' = num_waiters_ mon ->
  wait_set_ mon' = wait_set_ mon -> own_step n i mon mon' ->
  lock_eff (tid i) l (mon_holder mon) None (mon_holder mon') None -> hash_eff l (mon_hash mon) (mon_hash mon') ->
  section_ok n s i p mon (Done (mon', Running, l)).
Proof using Hi Hsu.
  intros Hp Hok Hw Hin Ho Hh Hnw Hws Hown Hl Hhe. exists mon', Running, l. split; [done|].
  split; [|split; [done|split; [by apply susp_none; auto|split; [done|]]]].
  - eapply mon_ok_section; try done; [cbn; lia|]. rewrite Hws. eapply ws_same; [done|done|congruence|done].
  - by rewrite (saved_plain p).
Qed.

Lemma ExitFat_good m : pcs s !! i = Some (ExitFat m) ->
  step_good n s i (ExitFat m) (in_monitor (tid i) m s (fun mon =>
    let '(ok, mon) := Unlock (tid i) mon in
    Done (mon, Running, Ret (if (ok : bool) then RExited else RIllegalMonitorState)))).
Proof using Hi Hsu Hn.
  intros Hp. pose proof (i_pcs Hi _ _ Hp) as Hv. apply monitor_good; try done. intros mon Hm Hok.
  pose proof Hok as (_ & Hh & _). pose proof (mon_ok_count _ _ _ Hok) as Hc. unfold count_ok in Hc. unfold Unlock.
  case_bool_decide as Eo.
  - rewrite Eo in Hc. destruct (Z.eqb_spec (lock_count_ mon) 0) as [E0|E0]; apply section_return; try done.
    + right. split; [auto|]. left. by rewrite E0.
    + split; [done|]. unfold mon_holder. rewrite Eo. exists (lock_count_ mon). by rewrite E0.
    + right. split; [auto|]. right. cbn. rewrite Eo. split; [done|lia].
    + split; [done|]. unfold mon_holder. cbn. rewrite Eo. exists (lock_count_ mon).
      by destruct (Z.eqb_spec (lock_count_ mon) 0).
  - apply section_return; try done; [by left|]. split; [done|]. split; [done|]. unfold mon_holder.
    destruct (owner_ mon); [|done]. cbn. intros c [= -> _]. done.
Qed.

Lemma WaitFat_good m a : pcs s !! i = Some (WaitFat m a) ->
  step_good n s i (WaitFat m a) (in_monitor (tid i) m s (fun mon => Done (Wait_release (tid i) m a mon))).
Proof using Hi Hsu Hn.
  intros Hp. pose proof (i_pcs Hi _ _ Hp) as Hv. apply monitor_good; try done. intros mon Hm Hok.
  pose proof Hok as (_ & Hh & _). pose proof (mon_ok_count _ _ _ Hok) as Hc. unfold count_ok in Hc. unfold Wait_release.
  case_bool_decide as Eo.
  - apply section_return; try done; [by left|]. split; [done|]. split; [done|]. unfold mon_holder.
    destruct (owner_ mon); [|done]. cbn. intros c [= -> _]. done.
  - rewrite Eo in Hc. cbn zeta. set (a' := mkWait _ _ _ _).
    destruct ((ms a' <? 0) || (ns a' <? 0) || (999999 <? ns a')).
    + apply section_return; try done; [by left|]. split; [done|]. split; [done|]. unfold mon_holder. rewrite Eo. cbn. eauto.
    + eexists _, _, _. split; [reflexivity|]. cbn [lock_count_ add_waiters AppendToWaitSet set_wait_set].
      split; [|split; [done|split; [by apply susp_none; auto|split]]].
      * eapply mon_ok_section; try done; cbn; [lia| |right; split; [auto|by left]]. by eapply ws_append.
      * split; [done|]. lia.
      * split; [|by apply hash_eff_same]. unfold mon_holder. cbn. rewrite Eo. split; [done|]. split; [done|]. eauto.
Qed.

Lemma WaitLocked_good m a prev int : pcs s !! i = Some (WaitLocked m a prev int) ->
  step_good n s i (WaitLocked m a prev int) (in_monitor (tid i) m s (fun mon =>
    Done (Wait_restore (tid i) prev mon, Running, Ret (RWaited (int && interruptShouldThrow a))))).
Proof using Hi Hsu Hn.
  intros Hp. pose proof (i_pcs Hi _ _ Hp) as [Hv Hprev]. apply monitor_good; try done. intros mon Hm Hok.
  pose proof Hok as (_ & Hh & _ & _ & _ & _ & _ & Hrel & _). destruct (Hrel i _ Hp eq_refl) as [Eo Ec].
  eexists _, _, _. split; [reflexivity|]. split; [|split; [done|split; [by apply susp_none; auto|split; [done|]]]].
  - eapply mon_ok_section; try done; cbn; [lia| |right; split; [auto|right; cbn; split; [done|lia]]]. by eapply ws_remove.
  - split; [|by apply hash_eff_same]. unfold mon_holder. cbn. rewrite Eo, Ec. split; [done|]. eauto.
Qed.

Lemma HashFat_good m : pcs s !! i = Some (HashFat m) ->
  step_good n s i (HashFat m) (in_monitor (tid i) m s (fun mon =>
    Done (if HasHashCode mon then (mon, Running, Ret (RHashCode (hash_code_ mon)))
          else (mon, HashGen (GFat m), Tau)))).
Proof using Hi Hsu Hn.
  intros Hp. pose proof (i_pcs Hi _ _ Hp) as Hv. apply monitor_good; try done. intros mon Hm Hok.
  pose proof Hok as (_ & Hh & _). unfold HasHashCode. destruct (Z.eqb_spec (hash_code_ mon) 0) as [E|E]; cbn [negb].
  - eexists _, _, _. split; [reflexivity|]. split; [|split; [done|split; [by apply susp_none; auto|split; [done|]]]].
    + eapply mon_ok_section; try done; cbn; [lia| |by left]. by eapply ws_same.
    + split; [done|by apply hash_eff_same].
  - apply section_return; try done; [by left|]. apply hash_eff_same. intros x [= <-]. unfold mon_hash.
    by destruct (Z.eqb_spec (hash_code_ mon) 0).
Qed.

Lemma HashFatCas_good m h : pcs s !! i = Some (HashFatCas m h) ->
  step_good n s i (HashFatCas m h) (in_monitor (tid i) m s (fun mon =>
    Done (if negb fail && (hash_code_ mon =? 0) then (set_hash_code h mon, Running, Ret (RHashCode h))
          else (mon, HashFat m, Tau)))).
Proof using Hi Hsu Hn.
  intros Hp. pose proof (i_pcs Hi _ _ Hp) as [Hv Hhr]. apply monitor_good; try done. intros mon Hm Hok.
  pose proof Hok as (_ & Hh & _). destruct (negb fail && (hash_code_ mon =? 0)) eqn:E.
  - apply andb_true_iff in E as [_ E%Z.eqb_eq]. apply section_return; try done; [cbn; lia|by left|].
    unfold mon_hash. cbn. rewrite E. destruct (Z.eqb_spec h 0); [lia|]. split; [done|]. by intros x [= <-].
  - eexists _, _, _. split; [reflexivity|]. split; [|split; [done|split; [by apply susp_none; auto|split; [done|]]]].
    + eapply mon_ok_section; try done; cbn; [lia| |by left]. by eapply ws_same.
    + split; [done|by apply hash_eff_same].
Qed.
End Two.
(** *** Moves without effect *)
Section Three.
Context (n : Z) (s : mstate P) (i : nat) (fail : bool) (Hi : minv n s).

Lemma move_good p s0 p' : pcs s !! i = Some p ->
  lock_word s0 = lock_word s -> mons s0 = mons s -> pool s0 = pool s -> list_ s0 = list_ s -> pcs s0 = pcs s ->
  quiet p p' -> owned_of p = None -> owned_of p' = None -> saved_of p' = saved_of p -> susp_step s i p p' ->
  pc_ok (n + 1) (mons s) (view (lock_word s)) (tid i) p' -> step_good n s i p (goto (tid i) s0 (Done (p', Tau))).
Proof using Hi.
  intros Hp El Em Epo Eli Ep Hq Ho Ho' Hsv Hs Hpc. exists (set_pc (tid i) p' s0), Tau, p'.
  assert (Epc : pcs (set_pc (tid i) p' s0) = <[i := p']> (pcs s)) by (rewrite set_pc_tid; cbn; by rewrite Ep).
  assert (Eo : obs (set_pc (tid i) p' s0) = obs s) by (unfold obs; cbn; by rewrite El, Em).
  assert (Eh : obs_hash (set_pc (tid i) p' s0) = obs_hash s) by (unfold obs_hash; cbn; by rewrite El, Em).
  split; [done|].
  split; [exact (minv_goto b n s i p p' (set_pc (tid i) p' s0) Hi Hp El Em Epo Eli Epc Hq Ho Ho' Hs Hpc)|].
  split; [by eapply moved_self|]. split; [by eapply saved_others|]. rewrite Eo, Eh.
  split; [done|by apply hash_eff_same].
Qed.

Lemma Waiting_good m a prev sg : pcs s !! i = Some (Waiting m a prev sg) ->
  step_good n s i (Waiting m a prev sg)
    (goto (tid i) s (Done (Woken m a prev (bool_decide (tid i ∈ interrupted s)), Tau))).
Proof using Hi.
  intros Hp. destruct (i_pcs Hi _ _ Hp) as [Hv Hprev]. apply move_good; try done.
  - by split; auto.
  - split; [done|lia].
Qed.
Lemma Woken_good m a prev int : pcs s !! i = Some (Woken m a prev int) ->
  step_good n s i (Woken m a prev int)
    (goto (tid i) (if (int && interruptShouldThrow a : bool) then with_interrupted (interrupted s ∖ {[tid i]}) s else s)
       (Done (WaitRelock m a prev int, Tau))).
Proof using Hi.
  intros Hp. destruct (i_pcs Hi _ _ Hp) as [Hv Hprev]. apply move_good; try done; try (by destruct (_ && _)).
  - by split; auto.
  - split; [done|lia].
Qed.

Lemma after_plain k : plain (after k) /\ susp_of (after k) = None /\
  forall n ms v t, MonitorInvariant.pc_ok b n ms v t (after k).
Proof using. by destruct k. Qed.
Lemma after_inflate_plain susp k : plain (after_inflate susp k) /\ susp_of (after_inflate susp k) = susp /\
  forall n ms v t, MonitorInvariant.pc_ok b n ms v t (after_inflate susp k).
Proof using. destruct susp; [done|apply after_plain]. Qed.

Context (Hsu : suspended s (tid i) = false).

Lemma SuspendOwner_good owner h k o : pcs s !! i = Some (SuspendOwner owner h k) ->
  (if fail then Some (goto (tid i) s (Done (after k, Tau)))
   else match pc_at s owner with
        | Some p => if suspendable p && negb (owner =? tid i)
                    then Some (goto (tid i) s (Done (OwnerSuspended owner h k, Tau))) else None
        | None => None
        end) = Some o -> step_good n s i (SuspendOwner owner h k) o.
Proof using Hi Hsu.
  intros Hp. pose proof (i_pcs Hi _ _ Hp) as Hh. destruct fail.
  - intros [= <-]. destruct (after_plain k) as (Hpl & Hs & Hpc). apply goto_good; try done. apply susp_none; auto.
  - destruct (pc_at s owner) as [q|] eqn:Eq; [|done]. destruct (suspendable q) eqn:Es; [|done].
    destruct (Z.eqb_spec owner (tid i)) as [|Hne]; [done|]. cbn. intros [= <-].
    apply pc_at_Some in Eq as (j & -> & Hj). apply goto_good; try done. split; [|auto].
    intros o' [= <-]. right. exists j, q. repeat (split; [done|]). congruence.
Qed.
Lemma OwnerSuspended_good owner h k : pcs s !! i = Some (OwnerSuspended owner h k) ->
  step_good n s i (OwnerSuspended owner h k) (goto (tid i) s (Done
    (if bool_decide (GetState b (lock_word s) = kThinLocked) && (ThinLockOwner (lock_word s) =? owner)
     then InflateCreate (Some owner) h (Some owner) k else ResumeOwner owner k, Tau))).
Proof using Hi Hsu.
  intros Hp. pose proof (i_pcs Hi _ _ Hp) as Hh.
  destruct (bool_decide _ && _) eqn:E; apply goto_good; try done; try (by apply susp_keep; auto).
  apply andb_true_iff in E as [E1%bool_decide_eq_true E2%Z.eqb_eq].
  pose proof (read_word b _ (i_good Hi)) as Hr. rewrite E1, E2 in Hr. split; [done|]. split; [by right|].
  left. rewrite (proj1 Hr). eauto.
Qed.
Lemma ResumeOwner_good owner k : pcs s !! i = Some (ResumeOwner owner k) ->
  step_good n s i (ResumeOwner owner k) (goto (tid i) s (Done (after k, Tau))).
Proof using Hi Hsu.
  intros Hp. destruct (after_plain k) as (Hpl & Hs & Hpc). apply goto_good; try done. apply susp_none; auto.
Qed.

Lemma Generate_round_hash x h : snd (Generate_round x) = Some h -> 0 < h <= kMaxHash.
Proof using.
  unfold Generate_round. cbn. destruct (Z.eqb_spec (Z.land x kHashMask) 0) as [|Hne]; [done|]. intros [= <-].
  change kHashMask with (Z.ones 28) in *. rewrite Z.land_ones in * by lia.
  pose proof (Z.mod_pos_bound x (2 ^ 28)). change kMaxHash with (2 ^ 28 - 1). lia.
Qed.
Lemma HashGen_good g : pcs s !! i = Some (HashGen g) ->
  step_good n s i (HashGen g) (
    let '(seed, h) := Generate_round (hash_code_seed s) in
    let s := with_seed seed s in
    match h with
    | None => goto (tid i) s (Done (HashGen g, Tau))
    | Some h => p ← hash_generated (tid i) h g; goto (tid i) s (Done (p, Tau))
    end).
Proof using Hi Hsu.
  intros Hp. pose proof (i_pcs Hi _ _ Hp) as Hg. destruct (Generate_round (hash_code_seed s)) as [seed [h|]] eqn:E.
  - pose proof (Generate_round_hash (hash_code_seed s) h) as Hh. rewrite E in Hh. specialize (Hh eq_refl).
    destruct g as [w|w|m]; cbn [hash_generated].
    + destruct Hg as [Hg Hv]. destruct (hash_word b h (ReadBarrierState w)) as (w' & -> & Hg' & Hv'); [lia|by apply good_rb|].
      cbn [mbind outcome_bind outcome_bind_def]. apply goto_good; try done; [by apply susp_none; auto|].
      repeat (split; [done|]). eauto.
    + destruct Hg as (Hg & o & c & Hv & Ho). cbn [mbind outcome_bind outcome_bind_def].
      destruct (InflateThinLocked_ok n s i w h KHash) as (H1 & H2 & H3); [done|lia| |].
      { intros E'. apply Ho. pose proof (read_word b w Hg) as Hr. destruct (GetState b w); try done; rewrite Hv in Hr;
          try done; destruct Hr as [Hr _]; [|done]. injection Hr as -> _. done. }
      apply goto_good; try done. by apply susp_none; auto.
    + cbn [mbind outcome_bind outcome_bind_def]. apply goto_good; try done; by apply susp_none; auto.
  - apply goto_good; try done. by apply susp_none; auto.
Qed.
End Three.
(** *** Inflation *)
Definition is_add (p : pc) : bool := match p with InflateAdd _ _ _ => true | _ => false end.

(** A change of the monitors that are not installed: [ms] differs from the
    monitors only at those of thread [i], or at new ones. *)
Lemma private_good n s i p p' s0 : minv n s -> pcs s !! i = Some p ->
  lock_word s0 = lock_word s -> list_ s0 = list_ s -> pcs s0 = pcs s ->
  quiet p p' -> in_wait p = false -> is_add p = false -> is_add p' = false -> susp_step s i p p' ->
  (forall m, mons s0 !! m = mons s !! m \/ owned_of p = Some m \/ mons s !! m = None) ->
  (forall m, owned_of p' = Some m -> owned_of p = Some m \/ mons s !! m = None) ->
  ids_inv (dom (mons s0)) (pool s0) -> (forall m, m ∈ dom (mons s0) -> 0 <= m <= kMaxMonitorId) ->
  pc_ok (n + 1) (mons s0) (view (lock_word s)) (tid i) p' -> step_good n s i p (goto (tid i) s0 (Done (p', Tau))).
Proof.
  intros Hi Hp El Eli Ep Hq Hw Ha Ha' Hs Hms Hown Hpool Hids Hpc.
  assert (Hsame : forall m, (exists j q, j <> i /\ pcs s !! j = Some q /\ owned_of q = Some m) \/ view (lock_word s) = Fat m 0 ->
    mons s0 !! m = mons s !! m /\ owned_of p' <> Some m).
  { intros m Hm. assert (Hsome : is_Some (mons s !! m)).
    { destruct Hm as [(j & q & _ & Hj & Hm)|Hm]; [by eapply owned_in_mons|].
      pose proof (i_lock Hi) as Hl. rewrite Hm in Hl. destruct Hl as (mon & -> & _). eauto. }
    assert (Hno : owned_of p <> Some m).
    { intros Hpm. destruct Hm as [(j & q & Hne & Hj & Hm)|Hm]; [by apply Hne, (i_owned Hi j i q p m)|].
      apply (i_priv Hi i p m Hp); [by destruct p|done]. }
    split; [|intros Hm'; destruct (Hown m Hm') as [?|E]; [done|rewrite E in Hsome; by destruct Hsome]].
    destruct (Hms m) as [?|[?|E]]; [done|done|]. rewrite E in Hsome. by destruct Hsome. }
  set (s' := set_pc (tid i) p' s0). assert (Epc : pcs s' = <[i := p']> (pcs s)) by (unfold s'; rewrite set_pc_tid; cbn; by rewrite Ep).
  assert (El' : lock_word s' = lock_word s) by done.
  assert (Hobs : holder (mons s') (view (lock_word s)) = obs s /\ hash_of (mons s') (view (lock_word s)) = obs_hash s).
  { unfold obs, obs_hash. destruct (view (lock_word s)) as [|o c rb|m rb|h rb|a] eqn:Ev; try done. cbn.
    apply view_fat_rb in Ev as Erb; subst rb.
    change (mons s') with (mons s0). by rewrite (proj1 (Hsame m (or_intror eq_refl))). }
  exists s', Tau, p'. split; [done|]. split.
  2: { split; [by eapply moved_self|]. split; [by eapply saved_others|]. unfold obs at 2, obs_hash at 2. rewrite El'.
    destruct Hobs as [-> ->]. destruct Hq as (_ & Hq & _).
    rewrite (saved_plain p), (saved_plain p') by congruence. split; [done|by apply hash_eff_same]. }
  apply (minv_update b n s i p p' s' Hi Hp Epc); rewrite ?El'; try done.
  - apply (i_good Hi).
  - rewrite Epc. pose proof (lock_ok_move n (mons s) (pcs s) i p p' _ Hp (i_lock Hi) Hq) as Hl.
    destruct (view (lock_word s)) as [|o c rb|m rb|h rb|a] eqn:Ev; try done.
    apply view_fat_rb in Ev as Erb; subst rb.
    destruct Hl as (mon & Hm & Hok). exists mon. change (mons s') with (mons s0).
    by rewrite (proj1 (Hsame m (or_intror eq_refl))).
  - intros j q Hne Hq'. split; [by left|]. intros m Hm. split; [|by apply (i_priv Hi j q m)].
    apply Hsame. left. exists j, q. split; [done|]. split; [done|]. by destruct q.
  - intros m Hm E. apply (proj2 (Hsame m (or_intror E))). by destruct p'.
  - apply Hs.
  - apply Hs.
  - rewrite Epc. cbn. rewrite Eli. pose proof (i_list Hi) as Hl.
    destruct (view (lock_word s)) as [|o c rb|m rb|h rb|a] eqn:Ev; try done.
    apply view_fat_rb in Ev as Erb; subst rb.
    destruct Hl as [[-> Hno]|[-> (j & susp & k & Hj)]].
    + left. split; [done|]. intros j q [[-> ->]|[Hne Hjq]]%(lookup_moved _ _ _ _ _ _ Hp); [|by apply (Hno j q)].
      intros Hm. by apply (proj2 (Hsame m (or_intror eq_refl))).
    + right. split; [done|]. exists j, susp, k. rewrite list_lookup_insert_ne; [done|]. intros ->.
      assert (p = InflateAdd m susp k) as -> by congruence. done.
Qed.

Section Four.
Context (n : Z) (s : mstate P) (i : nat) (fail : bool) (c : C) (Hi : minv n s) (Hsu : suspended s (tid i) = false).
(** A thread kept suspended by [i] is suspended. *)
Lemma suspended_true p o : pcs s !! i = Some p -> susp_of p = Some o -> IsSuspended s o = true.
Proof using Hi.
  intros Hp Ho. destruct (i_susp Hi i p o Hp Ho) as (j & q & -> & Hq & Hsq & _).
  unfold IsSuspended. rewrite pc_at_tid, Hq, Hsq, andb_true_r. unfold suspended. apply existsb_exists.
  exists p. split; [by apply list_elem_of_In, list_elem_of_lookup_2 with i | by apply bool_decide_eq_true].
Qed.
Lemma owner_stopped_true p v owner h susp : pcs s !! i = Some p -> susp_of p = susp ->
  inflatable v (tid i) owner h susp -> owner_stopped s (tid i) owner = true.
Proof using Hi.
  intros Hp Hs [_ Hinf]. unfold owner_stopped. destruct owner as [o|]; [|done].
  destruct Hinf as [[[-> ->]| ->] _]; [by rewrite Z.eqb_refl|]. rewrite (suspended_true p o Hp) by done. apply orb_true_r.
Qed.

Lemma InflateCreate_good owner h susp k : fresh_chunk (pool s) c -> pcs s !! i = Some (InflateCreate owner h susp k) ->
  create_id c (pool s) = Aborted \/
  step_good n s i (InflateCreate owner h susp k)
    ('(m, s) ← CreateMonitor (tid i) owner h c s; goto (tid i) s (Done (InstallRead m susp k, Tau))).
Proof using Hi Hsu.
  intros Hc Hp. pose proof (i_pcs Hi _ _ Hp) as Hinf. pose proof (create_id_fresh _ _ _ (i_pool Hi) Hc) as Hcr.
  unfold CreateMonitor. destruct (create_id c (pool s)) as [[m po]| | |]; [|by left|done|done]. right.
  destruct Hcr as (Hm & Hr & Hpo). cbn. rewrite (owner_stopped_true _ _ _ _ _ Hp eq_refl Hinf).
  apply not_elem_of_dom in Hm. cbn [mbind outcome_bind outcome_bind_def].
  apply private_good; try done; cbn.
  - by apply susp_keep; auto.
  - intros m'. destruct (decide (m' = m)) as [->|Hne]; [by right; right|]. left. by rewrite lookup_insert_ne.
  - intros m' [= <-]. by right.
  - by rewrite dom_insert_L.
  - intros m'. rewrite dom_insert_L. intros [->%elem_of_singleton|Hm']%elem_of_union; [done|]. by apply (i_ids Hi).
  - exists owner, h. split; [apply lookup_insert_eq|done].
Qed.

(** A monitor that was not installed is released. *)
Lemma release_good p m susp k : pcs s !! i = Some p -> priv_of p = Some m -> susp_of p = susp ->
  quiet p (after_inflate susp k) -> in_wait p = false -> suspendable p = false -> is_Some (mons s !! m) ->
  step_good n s i p (goto (tid i) (ReleaseMonitor m s) (Done (after_inflate susp k, Tau))).
Proof using Hi Hsu.
  intros Hp Hpr Hs Hq Hw Hsp Hm. destruct (after_inflate_plain susp k) as (Hpl & Hs' & Hpc).
  assert (Hown : owned_of p = Some m) by (by destruct p).
  apply private_good; try done; cbn.
  - by destruct p.
  - destruct susp; [done|by destruct k].
  - apply susp_keep; [congruence|auto].
  - intros m'. destruct (decide (m' = m)) as [->|Hne]; [by right; left|]. left. by rewrite lookup_delete_ne.
  - intros m' E. destruct Hpl as (_ & _ & _ & _ & E'). congruence.
  - rewrite dom_delete_L. apply release_id_spec; [apply (i_pool Hi)|by apply elem_of_dom].
  - intros m'. rewrite dom_delete_L. intros [Hm' _]%elem_of_difference. by apply (i_ids Hi).
Qed.

Lemma InstallRead_good m susp k : pcs s !! i = Some (InstallRead m susp k) ->
  step_good n s i (InstallRead m susp k)
    (match mons s !! m with
     | None => Faulted
     | Some mon =>
         r ← Install_read b (tid i) m mon s;
         match r with
         | Some (mon, fat) => goto (tid i) (with_mon m mon s) (Done (InstallCas m (lock_word s) fat susp k, Tau))
         | None => goto (tid i) (ReleaseMonitor m s) (Done (after_inflate susp k, Tau))
         end
     end).
Proof using Hi Hsu.
  intros Hp. pose proof (i_pcs Hi _ _ Hp) as (owner & h & Hm & Hinf). rewrite Hm. unfold Install_read.
  change (owner_ (new_Monitor owner h)) with owner. rewrite (owner_stopped_true _ _ _ _ _ Hp eq_refl Hinf). cbn [negb].
  pose proof (i_good Hi) as Hg. pose proof (read_word b _ Hg) as Hr. pose proof (good_rb b _ Hg) as Hrb.
  assert (Hid : 0 <= m <= kMaxMonitorId) by (apply (i_ids Hi); by apply elem_of_dom_2 in Hm).
  destruct (monitor_word b m (ReadBarrierState (lock_word s)) Hid Hrb) as [Hgf Hvf].
  assert (Hput : forall cnt, match owner with
        | Some o => view (lock_word s) = Thin o cnt 0 /\ stopped (tid i) o susp /\ 0 <= cnt <= n + 1
        | None => view (lock_word s) = Hash h 0 /\ 0 < h /\ cnt = 0 end ->
    step_good n s i (InstallRead m susp k) (goto (tid i) (with_mon m (mkMonitor 0 owner cnt true [] h) s)
      (Done (InstallCas m (lock_word s) (FromMonitor m (ReadBarrierState (lock_word s))) susp k, Tau)))).
  { intros cnt Hcnt. assert (Hdom : dom (<[m := mkMonitor 0 owner cnt true [] h]> (mons s)) = dom (mons s)).
    { rewrite dom_insert_L. apply elem_of_dom_2 in Hm. set_solver. }
    apply private_good; try done; cbn; rewrite ?Hdom.
    - by apply susp_keep; auto.
    - intros m'. destruct (decide (m' = m)) as [->|Hne]; [by right; left|]. left. by rewrite lookup_insert_ne.
    - auto.
    - apply (i_pool Hi).
    - apply (i_ids Hi).
    - exists owner, cnt, h. split; [apply lookup_insert_eq|]. repeat (split; [done|]). split; [apply Hinf|done]. }
  destruct Hinf as [Hh Hinf]. pose proof (i_lock Hi) as Hl. destruct (GetState b (lock_word s)) eqn:Es.
  - rewrite Hr in Hinf. destruct owner; [destruct Hinf as [_ [[? ?]|[? ?]]]|destruct Hinf as (_ & _ & [?|[? ?]])]; done.
  - destruct Hr as [Hv Hcn]. rewrite Hv in Hinf, Hl. destruct Hl as [_ Hl].
    destruct owner as [o|]; [|by destruct Hinf as (_ & _ & [?|[? ?]])].
    destruct Hinf as [Hst [[c' [= <- <-]]|[? ?]]]; [|done]. rewrite Z.eqb_refl. cbn [mbind outcome_bind outcome_bind_def].
    apply Hput. split; [done|]. split; [done|lia].
  - cbn [mbind outcome_bind outcome_bind_def]. apply release_good; try done.
    destruct susp; [done|by destruct k].
  - destruct Hr as [Hv Hcn]. rewrite Hv in Hinf. destruct owner as [o|]; [by destruct Hinf as [_ [[? ?]|[? ?]]]|].
    destruct Hinf as (_ & Hpos & [[= <-]|[? ?]]); [|done]. cbn [hash_code_ new_Monitor]. rewrite Z.eqb_refl.
    cbn [mbind outcome_bind outcome_bind_def]. by apply (Hput 0).
  - done.
Qed.

(** Without a monitor in the lock word nobody waits. *)
Lemma nobody_waits j q : not_fat (view (lock_word s)) -> pcs s !! j = Some q -> weight q = 0 /\ in_wait q = false.
Proof using Hi Hsu.
  intros Hnf Hq. pose proof (i_pcs Hi j q Hq) as Hok. destruct q; try done; cbn in Hok;
    destruct Hok as [E _]; by rewrite E in Hnf.
Qed.
Lemma sumZ_zero {A} (f : A -> Z) l : (forall j q, l !! j = Some q -> f q = 0) -> sumZ f l = 0.
Proof using.
  induction l as [|x l IH]; intros Hf; [done|]. cbn. rewrite (Hf 0%nat x) by done. rewrite IH; [done|].
  intros j q Hq. by apply (Hf (S j)).
Qed.

(** A freshly installed monitor. *)
Lemma installed_ok p' owner cnt h : not_fat (view (lock_word s)) -> weight p' = 0 -> in_wait p' = false -> 0 <= h <= kMaxHash ->
  match owner with None => cnt = 0 | Some o => valid_tid (pcs s) o /\ 0 <= cnt <= n end ->
  mon_ok (n + 1) (<[i := p']> (pcs s)) (mkMonitor 0 owner cnt true [] h).
Proof using Hi Hsu.
  intros Hnf Hw Hin Hh Hown.
  assert (Hall : forall j q, <[i := p']> (pcs s) !! j = Some q -> weight q = 0 /\ in_wait q = false).
  { intros j q Hq. apply list_lookup_insert_Some in Hq as [(-> & -> & _)|[_ Hq]]; [done|by apply (nobody_waits j)]. }
  assert (Hun : forall q, in_wait q = false -> unsignalled q = false /\ relocked q = false) by (by intros []).
  split; [done|]. split; [done|]. split.
  { cbn. destruct owner; [|done]. rewrite valid_tid_insert. split; [tauto|lia]. }
  split; [cbn; symmetry; apply sumZ_zero; intros j q Hq; by apply (Hall j)|]. split; [constructor|].
  split; [intros t Ht; by apply elem_of_nil in Ht|].
  split; [intros j q Hq E|split; intros j q Hq E]; destruct (Hall j q Hq) as [_ E']; destruct (Hun q E'); congruence.
Qed.

Lemma InstallCas_good m w fat susp k : pcs s !! i = Some (InstallCas m w fat susp k) ->
  step_good n s i (InstallCas m w fat susp k)
    (let '(ok, s) := cas fail w fat s in
     if (ok : bool) then goto (tid i) s (Done (InflateAdd m susp k, Tau))
     else goto (tid i) (ReleaseMonitor m s) (Done (after_inflate susp k, Tau))).
Proof using Hi Hsu.
  intros Hp. pose proof (i_pcs Hi _ _ Hp) as (owner & cnt & h & Hm & Hg & Hg' & Hv' & Hh & Hcase).
  destruct (cas_cases fail w fat s) as [->|[E ->]].
  { apply release_good; try done. destruct susp; [done|by destruct k]. }
  rewrite <- E in Hcase. assert (Hnf : not_fat (view (lock_word s))) by (destruct owner; by destruct Hcase as [-> _]).
  pose proof (i_lock Hi) as Hl.
  set (s' := set_pc (tid i) (InflateAdd m susp k) (with_lock_word fat s)).
  assert (Epc : pcs s' = <[i := InflateAdd m susp k]> (pcs s)) by (unfold s'; by rewrite set_pc_tid).
  assert (Hmm : mons s' !! m = Some (mkMonitor 0 owner cnt true [] h)) by done.
  exists s', Tau, (InflateAdd m susp k). split; [done|]. split.
  2: { split; [by eapply moved_self|]. split; [by eapply saved_others|]. unfold obs, obs_hash.
    change (lock_word s') with fat. rewrite Hv'. unfold holder at 2, hash_of at 2. rewrite Hmm. cbn.
    destruct owner as [o|]; [by destruct Hcase as [-> _]|]. destruct Hcase as (-> & Hpos & ->). cbn.
    destruct (Z.eqb_spec h 0); [lia|]. split; [done|by apply hash_eff_same]. }
  apply (minv_update b n s i _ (InflateAdd m susp k) s' Hi Hp Epc); change (lock_word s') with fat; rewrite ?Hv'; try done.
  - eexists. split; [exact Hmm|]. rewrite Epc. apply installed_ok; try done.
    destruct owner as [o|]; [|by destruct Hcase as (_ & _ & ->)]. destruct Hcase as (Hv & _ & Hcn). rewrite Hv in Hl.
    split; [apply Hl|done].
  - intros j q Hne Hq. split.
    + destruct owner as [o|].
      * destruct Hcase as (Hv & Hst & _). do 3 right. left. exists o, cnt, m. split; [done|]. split; [done|]. intros ->.
        destruct Hst as [[_ E']|Es]; [by apply tid_inj in E'|].
        destruct (i_susp Hi i _ (tid j) Hp Es) as (j' & q' & E'%tid_inj & Hq' & Hsq & _). congruence.
      * destruct Hcase as (Hv & _). do 4 right. left. eauto.
    + intros m' Hm'. split; [done|]. intros [= <-]. apply Hne, (i_owned Hi j i q _ m Hq Hp); [by destruct q|done].
  - auto.
  - auto.
  - auto.
  - apply (i_pool Hi).
  - apply (i_ids Hi).
  - right. pose proof (list_ok_not_fat _ _ _ Hnf (i_list Hi)) as El. split; [exact El|].
    exists i, susp, k. rewrite Epc. apply list_lookup_insert_eq. by apply lookup_lt_Some in Hp.
Qed.

Lemma InflateAdd_good m susp k : pcs s !! i = Some (InflateAdd m susp k) ->
  step_good n s i (InflateAdd m susp k)
    (if bool_decide (GetState b (lock_word s) = kFatLocked)
     then goto (tid i) (with_list (m :: list_ s) s) (Done (after_inflate susp k, Tau)) else Aborted).
Proof using Hi Hsu.
  intros Hp. pose proof (i_pcs Hi _ _ Hp) as Hv. cbn in Hv. destruct (after_inflate_plain susp k) as (Hpl & Hs & Hpc).
  pose proof (read_word b _ (i_good Hi)) as Hr.
  rewrite bool_decide_eq_true_2 by
    (destruct (GetState b (lock_word s)); try done; rewrite Hv in Hr; try done; by destruct Hr).
  set (s' := set_pc (tid i) (after_inflate susp k) (with_list (m :: list_ s) s)).
  assert (Epc : pcs s' = <[i := after_inflate susp k]> (pcs s)) by (unfold s'; by rewrite set_pc_tid).
  assert (Hq : quiet (InflateAdd m susp k) (after_inflate susp k)) by (destruct susp; [done|by destruct k]).
  exists s', Tau, (after_inflate susp k). split; [done|]. split.
  2: { split; [by eapply moved_self|]. split; [by eapply saved_others|].
    rewrite (saved_plain (after_inflate susp k)) by apply Hpl. split; [done|by apply hash_eff_same]. }
  apply (minv_update b n s i _ (after_inflate susp k) s' Hi Hp Epc); change (lock_word s') with (lock_word s); try done.
  - apply (i_good Hi).
  - rewrite Epc. apply (lock_ok_move n (mons s) (pcs s) i _ _ _ Hp (i_lock Hi) Hq).
  - intros j q Hne Hjq. split; [by left|]. intros m' E. split; [done|]. by apply (i_priv Hi j q).
  - intros m' E. destruct Hpl as (_ & _ & _ & _ & E'). congruence.
  - intros m' E. destruct Hpl as (_ & _ & _ & _ & E'). by destruct (after_inflate susp k).
  - rewrite Hs. auto.
  - auto.
  - apply (i_pool Hi).
  - apply (i_ids Hi).
  - pose proof (i_list Hi) as Hl. rewrite Hv in Hl |- *. left. destruct Hl as [[_ Hno]|[El _]]; [by destruct (Hno i _ Hp)|].
    split; [cbn; by rewrite El|]. rewrite Epc. intros j q [[-> ->]|[Hne Hjq]]%(lookup_moved _ _ _ _ _ _ Hp) E.
    + destruct Hpl as (_ & _ & _ & _ & E'). congruence.
    + by apply Hne, (i_owned Hi j i q _ m Hjq Hp).
Qed.
End Four.
End Steps.
