(* ===== verification/MonitorSpec.v ===== *)
(** What the locks of objects promise: the specification of a reentrant lock
    with waiting, and that every event of the machine of Monitor keeps the
    invariant and acts on the lock and on the hash code as the specification
    says, whatever inflations and deflations happen in between. *)
From stdpp Require Import prelude gmap list.
From Stdlib Require Import ZArith Lia.
From S2P Require Import Prelude LockWord MonitorPool Monitor MonitorInvariant MonitorSteps.
Import LockWord Monitor.
Open Scope Z_scope.

(** ** Signals *)
Definition signalled : list pc -> list pc -> Prop := Forall2 (fun p p' => p' = p \/ p' = signal p).

Lemma signal_same p p' : p' = p \/ p' = signal p ->
  weight p' = weight p /\ in_wait p' = in_wait p /\ relocked p' = relocked p /\ owned_of p' = owned_of p /\
  priv_of p' = priv_of p /\ susp_of p' = susp_of p /\ suspendable p' = suspendable p /\ saved_of p' = saved_of p /\
  (unsignalled p' = true -> unsignalled p = true) /\ forall b n ms v t, pc_ok b n ms v t p' <-> pc_ok b n ms v t p.
Proof. intros [-> | ->]; [done|]. by destruct p. Qed.

Lemma signalled_refl l : signalled l l.
Proof. unfold signalled. induction l; constructor; auto. Qed.
Lemma signalled_trans l1 l2 l3 : signalled l1 l2 -> signalled l2 l3 -> signalled l1 l3.
Proof.
  unfold signalled. intros H12. revert l3. induction H12 as [|p1 p2 l1 l2 Hp H12 IH]; intros l3 H23; inversion_clear H23 as [|? p3 ? l3' Hp' H23'].
  - constructor.
  - constructor; [|by apply IH]. destruct Hp as [-> | ->], Hp' as [-> | ->]; auto. right. by destruct p1.
Qed.
Lemma signalled_alter l j : signalled l (alter signal j l).
Proof.
  unfold signalled. revert j. induction l as [|p l IH]; intros [|j]; cbn; constructor; auto. apply signalled_refl.
Qed.
Lemma signalled_length l l' : signalled l l' -> length l' = length l.
Proof. intros Hs. symmetry. by eapply Forall2_length. Qed.
Lemma signalled_back l l' j p' : signalled l l' -> l' !! j = Some p' -> exists p, l !! j = Some p /\ (p' = p \/ p' = signal p).
Proof. intros Hs Hp. by eapply Forall2_lookup_r in Hs. Qed.
Lemma signalled_forth l l' j p : signalled l l' -> l !! j = Some p -> exists p', l' !! j = Some p' /\ (p' = p \/ p' = signal p).
Proof. intros Hs Hp. by eapply Forall2_lookup_l in Hs. Qed.
Lemma signalled_weight l l' : signalled l l' -> sumZ weight l' = sumZ weight l.
Proof.
  induction 1 as [|p p' l l' Hp Hl IH]; [done|]. cbn. rewrite IH. by destruct (signal_same p p' Hp) as [-> _].
Qed.
Lemma signalled_saved l l' j : signalled l l' -> saved_of <$> l' !! j = saved_of <$> l !! j.
Proof.
  intros Hs. destruct (l !! j) as [p|] eqn:E.
  - destruct (signalled_forth _ _ _ _ Hs E) as (p' & -> & Hp). cbn. f_equal. by apply signal_same.
  - apply lookup_ge_None in E. rewrite <- (signalled_length _ _ Hs) in E. apply lookup_ge_None in E. by rewrite E.
Qed.

Section Signals.
Context {P C : Type} `{IdPool P C} (b : bool).
Local Notation minv := (minv b).
Local Notation view := (view b).

(** The threads' places after signals, with the monitors' wait sets as
    [lock_ok] wants them. *)
Lemma minv_signal n s s' : minv n s -> signalled (pcs s) (pcs s') ->
  lock_word s' = lock_word s -> pool s' = pool s -> list_ s' = list_ s -> dom (mons s') = dom (mons s) ->
  (forall m, view (lock_word s) <> Fat m 0 -> mons s' !! m = mons s !! m) ->
  lock_ok n (mons s') (pcs s') (view (lock_word s)) -> minv n s'.
Proof.
  intros Hi Hs El Epo Eli Edom Hms Hl. split; rewrite ?El, ?Epo, ?Eli, ?Edom.
  - apply (i_bound Hi).
  - apply (i_good Hi).
  - rewrite (signalled_length _ _ Hs). apply (i_threads Hi).
  - done.
  - intros j p' Hp'. destruct (signalled_back _ _ _ _ Hs Hp') as (p & Hp & Hpp).
    destruct (signal_same p p' Hpp) as (_ & _ & _ & _ & Epr & _ & _ & _ & _ & Hpc). apply Hpc.
    apply (pc_ok_stable b n n (mons s) _ (view (lock_word s))); [lia| |by left|by apply (i_pcs Hi)].
    intros m Hm. apply Hms. by apply (i_priv Hi j p).
  - intros j k p' q' m Hp' Hq' E1 E2. destruct (signalled_back _ _ _ _ Hs Hp') as (p & Hp & Hpp).
    destruct (signalled_back _ _ _ _ Hs Hq') as (q & Hq & Hqq).
    apply (i_owned Hi j k p q m Hp Hq); [rewrite <- E1|rewrite <- E2]; symmetry; by apply signal_same.
  - intros j p' m Hp' E. destruct (signalled_back _ _ _ _ Hs Hp') as (p & Hp & Hpp).
    apply (i_priv Hi j p m Hp). rewrite <- E. symmetry. by apply signal_same.
  - intros j p' o Hp' E. destruct (signalled_back _ _ _ _ Hs Hp') as (p & Hp & Hpp).
    destruct (i_susp Hi j p o Hp) as (k & q & -> & Hq & Hsq & Hne).
    { rewrite <- E. symmetry. by apply signal_same. }
    destruct (signalled_forth _ _ _ _ Hs Hq) as (q' & Hq' & Hqq). exists k, q'. repeat (split; [done|]).
    split; [|done]. rewrite <- Hsq. by apply signal_same.
  - apply (i_pool Hi).
  - apply (i_ids Hi).
  - pose proof (i_list Hi) as Hli. destruct (view (lock_word s)) as [|o c rb|m rb|h rb|a]; try done.
    destruct Hli as [[-> Hno]|[-> (j & susp & k & Hj)]]; [left|right]; (split; [done|]).
    + intros j p' Hp' E. destruct (signalled_back _ _ _ _ Hs Hp') as (p & Hp & Hpp).
      apply (Hno j p Hp). rewrite <- E. symmetry. by apply signal_same.
    + exists j, susp, k. destruct (signalled_forth _ _ _ _ Hs Hj) as (p' & -> & [-> | ->]); done.
Qed.

(** The monitor after signals. *)
Lemma mon_ok_signal n l l' ws mon : mon_ok n l mon -> signalled l l' -> NoDup ws -> (forall t, t ∈ ws -> t ∈ wait_set_ mon) ->
  (forall j p, l' !! j = Some p -> unsignalled p = true -> tid j ∈ ws) -> mon_ok n l' (set_wait_set ws mon).
Proof.
  intros (Ho & Hh & Hown & Hnw & Hnd & Hws & Hun & Hrel & Hout) Hs Hnd' Hsub Hun'.
  split; [done|]. split; [done|]. split.
  { cbn. destruct (owner_ mon); [|done]. unfold valid_tid in *. by rewrite (signalled_length _ _ Hs). }
  split; [cbn; by rewrite (signalled_weight _ _ Hs)|]. split; [done|]. split.
  { intros t Ht. destruct (Hws t (Hsub t Ht)) as (j & p & -> & Hp & Hin).
    destruct (signalled_forth _ _ _ _ Hs Hp) as (p' & Hp' & Hpp). exists j, p'. repeat (split; [done|]).
    rewrite <- Hin. by apply signal_same. }
  split; [done|]. split.
  - intros j p' Hp' E. destruct (signalled_back _ _ _ _ Hs Hp') as (p & Hp & Hpp). apply (Hrel j p Hp).
    rewrite <- E. symmetry. by apply signal_same.
  - intros j p' Hp' E1 E2. destruct (signalled_back _ _ _ _ Hs Hp') as (p & Hp & Hpp).
    apply (Hout j p Hp); [rewrite <- E1|rewrite <- E2]; symmetry; by apply signal_same.
Qed.

(** *** The loops of [Notify] and [NotifyAll] *)
Definition waiting_at (l : list pc) (t : Z) : bool :=
  match l !! idx t with Some p => unsignalled p | None => false end.

Lemma notify_loop_spec ws l ws' l' : notify_loop ws l = (ws', l') ->
  signalled l l' /\ ws' `suffix_of` ws /\ forall t, t ∈ ws -> t ∉ ws' -> waiting_at l' t = false.
Proof.
  revert ws' l'. induction ws as [|t ws IH]; intros ws' l' E; cbn in E.
  { injection E as <- <-. split; [apply signalled_refl|]. split; [done|]. intros t Ht. by apply elem_of_nil in Ht. }
  assert (Hrec : notify_loop ws l = (ws', l') -> waiting_at l t = false ->
    signalled l l' /\ ws' `suffix_of` t :: ws /\ forall u, u ∈ t :: ws -> u ∉ ws' -> waiting_at l' u = false).
  { intros E' Hw. destruct (IH ws' l' E') as (Hs & Hsuf & Hall). split; [done|]. split; [by apply suffix_cons_r|].
    intros u [->|Hu]%elem_of_cons Hu'; [|by apply Hall].
    unfold waiting_at in *. destruct (l' !! idx t) as [p'|] eqn:Ep; [|done].
    destruct (signalled_back _ _ _ _ Hs Ep) as (p & Hp & Hpp). rewrite Hp in Hw.
    destruct (unsignalled p') eqn:Eu; [|done]. apply (signal_same p p' Hpp) in Eu. congruence. }
  destruct (l !! idx t) as [p|] eqn:Ep.
  - destruct (has_wait_monitor p) eqn:Ew.
    + injection E as <- <-. rewrite <- (alter_as_insert signal _ _ _ Ep). split; [apply signalled_alter|].
      split; [by exists [t]|]. intros u [->|Hu]%elem_of_cons Hu'; [|done]. unfold waiting_at.
      rewrite list_lookup_alter_eq, Ep. by destruct p.
    + apply Hrec; [done|]. unfold waiting_at. rewrite Ep. by destruct p.
  - apply Hrec; [done|]. unfold waiting_at. by rewrite Ep.
Qed.

Lemma notify_all_loop_spec ws l : signalled l (notify_all_loop ws l) /\
  forall t, t ∈ ws -> waiting_at (notify_all_loop ws l) t = false.
Proof.
  revert l. induction ws as [|t ws IH]; intros l; cbn.
  { split; [apply signalled_refl|]. intros t Ht. by apply elem_of_nil in Ht. }
  destruct (IH (alter signal (idx t) l)) as [Hs Hall]. split; [eapply signalled_trans; [apply signalled_alter|done]|].
  intros u [->|Hu]%elem_of_cons; [|by apply Hall]. unfold waiting_at.
  destruct (notify_all_loop ws _ !! idx t) as [p'|] eqn:Ep; [|done].
  destruct (signalled_back _ _ _ _ Hs Ep) as (p & Hp & Hpp). rewrite list_lookup_alter_eq in Hp.
  destruct (l !! idx t) as [p0|]; [|done]. injection Hp as <-. destruct (unsignalled p') eqn:Eu; [|done].
  apply (signal_same _ p' Hpp) in Eu. by destruct p0.
Qed.

(** *** Notification *)
Lemma step_good_via n s s1 i p o : signalled (pcs s) (pcs s1) -> obs b s1 = obs b s -> obs_hash b s1 = obs_hash b s ->
  step_good b n s1 i p o -> step_good b n s i p o.
Proof.
  intros Hs Eo Eh (s' & l & p' & E & Hi & Hp & Hsv & Hl & Hh). rewrite Eo in Hl. rewrite Eh in Hh.
  exists s', l, p'. repeat (split; [done|]). split; [|done]. intros j Hj. rewrite (Hsv j Hj). by apply signalled_saved.
Qed.

Lemma waiting_at_tid l j p : l !! j = Some p -> waiting_at l (tid j) = unsignalled p.
Proof. intros Hp. unfold waiting_at. by rewrite idx_tid, Hp. Qed.

(** Signals with a wait set from which only threads that do not wait have gone. *)
Lemma signals_good n s m mon l' ws : minv n s -> view (lock_word s) = Fat m 0 -> mons s !! m = Some mon ->
  signalled (pcs s) l' -> ws `suffix_of` wait_set_ mon -> (forall t, t ∈ wait_set_ mon -> t ∉ ws -> waiting_at l' t = false) ->
  minv n (with_mon m (set_wait_set ws mon) (with_pcs l' s)) /\
  obs b (with_mon m (set_wait_set ws mon) (with_pcs l' s)) = obs b s /\
  obs_hash b (with_mon m (set_wait_set ws mon) (with_pcs l' s)) = obs_hash b s.
Proof.
  intros Hi Hv Hm Hs Hsuf Hno. pose proof (i_lock Hi) as Hl. rewrite Hv in Hl. destruct Hl as (mon0 & Hm0 & Hok).
  assert (mon0 = mon) as -> by congruence. pose proof Hok as (_ & _ & _ & _ & Hnd & _ & Hun & _). split.
  - apply (minv_signal n s); try done.
    + cbn. rewrite dom_insert_L. apply elem_of_dom_2 in Hm. set_solver.
    + intros m' Hne. cbn. rewrite lookup_insert_ne; [done|congruence].
    + rewrite Hv. exists (set_wait_set ws mon). split; [apply lookup_insert_eq|].
      destruct Hsuf as [pre Epre]. apply (mon_ok_signal n (pcs s)); try done.
      * rewrite Epre in Hnd. by apply NoDup_app in Hnd as (_ & _ & Hnd).
      * intros t Ht. rewrite Epre. apply elem_of_app. by right.
      * intros j p' Hp' Hu. destruct (decide (tid j ∈ ws)) as [?|Hnin]; [done|].
        destruct (signalled_back _ _ _ _ Hs Hp') as (p & Hp & Hpp).
        assert (Hw : waiting_at l' (tid j) = false).
        { apply Hno; [|done]. apply (Hun j p Hp). by apply (signal_same p p' Hpp). }
        rewrite (waiting_at_tid l' j p' Hp') in Hw. congruence.
  - unfold obs, obs_hash. change (lock_word (with_mon _ _ _)) with (lock_word s). rewrite Hv. unfold holder, hash_of.
    cbn. rewrite lookup_insert_eq, Hm. done.
Qed.

Lemma NotifyFat_good n s i m all : minv n s -> suspended s (tid i) = false -> pcs s !! i = Some (NotifyFat m all) ->
  step_good b n s i (NotifyFat m all)
    (match mons s !! m with
     | None => Faulted
     | Some mon =>
         let '(s, mon, l) := notify_step (tid i) all mon s in
         goto (tid i) (with_mon m mon s) (Done (Running, l))
     end).
Proof.
  intros Hi Hsu Hp. pose proof (i_pcs Hi _ _ Hp) as Hv. cbn in Hv. pose proof (i_lock Hi) as Hl. rewrite Hv in Hl.
  destruct Hl as (mon & Hm & Hok). rewrite Hm. unfold notify_step.
  assert (Hobs : obs b s = mon_holder mon) by (unfold obs; rewrite Hv; cbn; by rewrite Hm).
  case_bool_decide as Eo.
  { apply goto_good; try done.
    - cbn. by rewrite insert_id.
    - by apply susp_none; auto.
    - apply idle_not_owner. rewrite Hobs. unfold mon_holder. destruct (owner_ mon); [|done]. cbn.
      intros c [= -> _]. done. }
  assert (Hgo : forall l' ws, signalled (pcs s) l' -> ws `suffix_of` wait_set_ mon ->
    (forall t, t ∈ wait_set_ mon -> t ∉ ws -> waiting_at l' t = false) ->
    step_good b n s i (NotifyFat m all)
      (goto (tid i) (with_mon m (set_wait_set ws mon) (with_pcs l' s)) (Done (Running, Ret RNotified)))).
  { intros l' ws Hs Hsuf Hno. destruct (signals_good n s m mon l' ws Hi Hv Hm Hs Hsuf Hno) as (Hi1 & Eo1 & Eh1).
    apply (step_good_via n s (with_mon m (set_wait_set ws mon) (with_pcs l' s)) i _ _ Hs Eo1 Eh1).
    destruct (signalled_forth _ _ _ _ Hs Hp) as (p' & Hp' & Hpp).
    assert (p' = NotifyFat m all) as -> by (by destruct Hpp as [-> | ->]).
    apply goto_good; try done; [by apply susp_none; auto|].
    unfold idle_label. rewrite Eo1, Hobs. split; [|done]. split; [done|]. split; [done|].
    unfold mon_holder. rewrite Eo. cbn. eauto. }
  destruct all.
  - destruct (notify_all_loop_spec (wait_set_ mon) (pcs s)) as [Hs Hno]. apply Hgo; [done| |auto].
    exists (wait_set_ mon). by rewrite app_nil_r.
  - destruct (notify_loop (wait_set_ mon) (pcs s)) as [ws l'] eqn:E. apply notify_loop_spec in E as (Hs & Hsuf & Hno).
    by apply Hgo.
Qed.
End Signals.

(** ** All the steps *)
Section Machine.
Context {P C : Type} `{IdPool P C} (b : bool) (max_spins : Z).
Local Notation minv := (minv b).
Local Notation view := (view b).

Lemma thread_step_good n (s : mstate P) i fail c p o : minv n s -> n + 1 < 2 ^ 31 -> fresh_chunk (pool s) c ->
  pcs s !! i = Some p -> may_step s (tid i) p = true -> thread_step b max_spins (tid i) fail c p s = Some o ->
  step_good b n s i p o \/ o = Aborted /\ create_id c (pool s) = Aborted.
Proof.
  intros Hi Hn Hc Hp Hmay Ho.
  assert (Hsu : (exists m a prev sg, p = Waiting m a prev sg) \/ suspended s (tid i) = false).
  { destruct p; cbn in Hmay; try (right; by apply negb_true_iff in Hmay). left. eauto. }
  destruct Hsu as [(m & a & prev & sg & ->)|Hsu].
  { cbn in Ho. injection Ho as <-. left. by apply Waiting_good. }
  destruct p as [|try cc|try cc w new|new|[] m|m l| |w new|new|m|owner h susp k|m susp k|m w fat susp k|m susp k|owner h k
    |owner h k|owner k|a|m a|m a prev sg|m a prev int|m a prev int|m a prev int|all|m all| |g|w new|m|m h];
    cbn [thread_step] in Ho.
  1: done.
  all: try (injection Ho as <-).
  - left. apply (goto_read b n); try done. by eapply MonitorEnter_read_ok.
  - left. pose proof (EnterCas_good b n s i fail Hi Hsu _ _ _ _ Hp) as Hg. destruct (cas _ _ _ _). by injection Ho as <-.
  - left. by apply EnterStore_good.
  - left. by apply TryLock_good.
  - left. by apply Lock_good.
  - left. by apply LockBlocked_good.
  - left. apply (goto_read b n); try done. by eapply MonitorExit_read_ok.
  - left. pose proof (ExitCas_good b n s i fail Hi Hsu _ _ Hp) as Hg. destruct (cas _ _ _ _). by injection Ho as <-.
  - left. by apply ExitStore_good.
  - left. by apply ExitFat_good.
  - destruct (InflateCreate_good b n s i c Hi Hsu owner h susp k Hc Hp) as [E|Hg]; [right|by left].
    unfold CreateMonitor. by rewrite E.
  - left. by apply InstallRead_good.
  - left. pose proof (InstallCas_good b n s i fail Hi Hsu _ _ _ _ _ Hp) as Hg. destruct (cas _ _ _ _). by injection Ho as <-.
  - left. destruct (negb b && _); [done|]. injection Ho as <-. by apply InflateAdd_good.
  - left. by apply (SuspendOwner_good b n s i fail Hi Hsu).
  - left. by apply OwnerSuspended_good.
  - left. by apply ResumeOwner_good.
  - left. apply (goto_read b n); try done. by eapply Wait_read_ok.
  - left. by apply WaitFat_good.
  - left. by apply Waiting_good.
  - left. by apply Woken_good.
  - left. by apply WaitRelock_good.
  - left. by apply WaitLocked_good.
  - left. apply (goto_read b n); try done. by eapply DoNotify_read_ok.
  - left. by apply NotifyFat_good.
  - left. apply (goto_read b n); try done. by eapply IdentityHashCode_read_ok.
  - left. pose proof (HashGen_good b n s i Hi Hsu _ Hp) as Hg. destruct fail.
    + injection Ho as <-. apply goto_good; try done; [by apply susp_none; auto|]. exact (i_pcs Hi _ _ Hp).
    + destruct (Generate_round _). by injection Ho as <-.
  - left. pose proof (HashCas_good b n s i fail Hi Hsu _ _ Hp) as Hg. destruct (cas _ _ _ _). by injection Ho as <-.
  - left. by apply HashFat_good.
  - left. by apply HashFatCas_good.
Qed.

(** *** The collector *)
Lemma lock_ok_mono n n' ms l v : n <= n' -> lock_ok n ms l v -> lock_ok n' ms l v.
Proof.
  intros Hn. destruct v; cbn; try done; [intros [? ?]; split; [done|lia]|].
  intros (mon & Hm & H1 & H2 & H3 & H4). exists mon. split; [done|]. repeat (split; [done|]).
  split; [|done]. destruct (owner_ mon); [|done]. split; [tauto|lia].
Qed.

(** A change of the lock word by the collector that no thread notices. *)
Lemma minv_collector n s s' : minv n s -> pcs s' = pcs s -> good b (lock_word s') ->
  lock_ok n (mons s') (pcs s) (view (lock_word s')) ->
  (forall j q, pcs s !! j = Some q ->
     stable (view (lock_word s)) (view (lock_word s')) (tid j) q /\
     forall m, priv_of q = Some m -> mons s' !! m = mons s !! m /\ view (lock_word s') <> Fat m 0) ->
  ids_inv (dom (mons s')) (pool s') -> (forall m, m ∈ dom (mons s') -> 0 <= m <= kMaxMonitorId) ->
  list_ok (pcs s) (list_ s') (view (lock_word s')) -> minv (n + 1) s'.
Proof.
  intros Hi Ep Hg Hl Hall Hpool Hids Hlist. pose proof (i_bound Hi). split; rewrite ?Ep; try done.
  - lia.
  - apply (i_threads Hi).
  - apply (lock_ok_mono n); [lia|done].
  - intros j q Hq. destruct (Hall j q Hq) as [Hst Hm].
    apply (pc_ok_stable b n _ (mons s) _ (view (lock_word s))); [lia| |done|by apply (i_pcs Hi)]. intros m E. by apply Hm.
  - apply (i_owned Hi).
  - intros j q m Hq E. by apply (Hall j q Hq).
  - apply (i_susp Hi).
Qed.

(** The new lock word of a monitor that is deflated. *)
Lemma deflated_word n s m mon : minv n s -> view (lock_word s) = Fat m 0 -> mons s !! m = Some mon ->
  Deflate b s = Done (false, s) \/
  exists w, Deflate b s = Done (true, with_mon m (clear_obj mon) (with_lock_word w s)) /\ num_waiters_ mon <= 0 /\
    good b w /\ not_fat (view w) /\ lock_ok n (delete m (mons s)) (pcs s) (view w) /\
    holder (delete m (mons s)) (view w) = mon_holder mon /\ hash_of (delete m (mons s)) (view w) = mon_hash mon.
Proof.
  intros Hi Hv Hm. pose proof (i_good Hi) as Hg. pose proof (read_word b _ Hg) as Hr. pose proof (good_rb b _ Hg) as Hrb.
  pose proof (i_lock Hi) as Hl. rewrite Hv in Hl. destruct Hl as (mon' & Hm' & Hok). assert (mon' = mon) as -> by congruence.
  pose proof Hok as (_ & Hh & Hown & _). unfold Deflate.
  destruct (GetState b (lock_word s)); try done; rewrite Hv in Hr; try done; try (by destruct Hr).
  injection Hr as <-. rewrite Hm. destruct (Z.ltb_spec 0 (num_waiters_ mon)); [by left|].
  unfold HasHashCode, mon_holder, mon_hash. destruct (owner_ mon) as [o|].
  - destruct (Z.eqb_spec (hash_code_ mon) 0) as [E|E]; cbn [negb]; [|by left].
    destruct (Z.ltb_spec kThinLockMaxCount (lock_count_ mon)); [by left|]. right.
    destruct Hown as [Hval Hcnt]. destruct (thin_word b o (lock_count_ mon) (ReadBarrierState (lock_word s))) as (w & -> & Hgw & Hvw);
      [|lia|done|].
    { destruct Hval as (j & -> & Hj). pose proof (i_threads Hi). unfold tid. lia. }
    exists w. cbn. rewrite Hvw. repeat split; try done; try lia; apply Hgw.
  - right. destruct (Z.eqb_spec (hash_code_ mon) 0) as [E|E]; cbn [negb].
    + eexists. split; [reflexivity|]. destruct (default_word b _ Hrb) as [Hgw Hvw]. rewrite Hvw. repeat split; try done; apply Hgw.
    + destruct (hash_word b (hash_code_ mon) (ReadBarrierState (lock_word s)) Hh Hrb) as (w & -> & Hgw & Hvw).
      exists w. cbn. rewrite Hvw. repeat split; try done; cbn; try lia; apply Hgw.
Qed.

(** What an event that is not a step of a thread leaves as it is. *)
Definition event_good (n : Z) (s s' : mstate P) : Prop :=
  minv (n + 1) s' /\ (forall j, saved_of <$> pcs s' !! j = saved_of <$> pcs s !! j) /\
  obs b s' = obs b s /\ obs_hash b s' = obs_hash b s.

Lemma event_good_same n s s' : minv n s -> pcs s' = pcs s -> lock_word s' = lock_word s -> mons s' = mons s ->
  pool s' = pool s -> list_ s' = list_ s -> event_good n s s'.
Proof.
  intros Hi Ep El Em Epo Eli. split; [|unfold obs, obs_hash; rewrite Ep, El, Em; by repeat split].
  apply (minv_collector n s); rewrite ?El, ?Em, ?Epo, ?Eli; try done; try apply Hi.
  intros j q Hq. split; [by left|]. intros m E. split; [done|]. by apply (i_priv Hi j q).
Qed.

Lemma DeflateMonitors_good n s : minv n s -> forallb suspendable (pcs s) = true ->
  exists s', DeflateMonitors b s = Done s' /\ event_good n s s'.
Proof.
  intros Hi Hall. rewrite forallb_forall in Hall.
  assert (Hsp : forall j q, pcs s !! j = Some q -> suspendable q = true).
  { intros j q Hq. by apply Hall, list_elem_of_In, list_elem_of_lookup_2 with j. }
  pose proof (i_list Hi) as Hli. unfold DeflateMonitors.
  destruct (view (lock_word s)) as [|o c rb|m rb|h rb|a] eqn:Hv.
  1, 2, 4, 5: cbn in Hli; rewrite Hli; eexists; (split; [reflexivity|]); by apply event_good_same.
  apply view_fat_rb in Hv as Erb; subst rb. destruct Hli as [[El _]|[_ (j & susp & k & Hj)]]; [|by apply Hsp in Hj].
  pose proof (i_lock Hi) as Hl. rewrite Hv in Hl. destruct Hl as (mon & Hm & Hok). rewrite El. cbn. rewrite Hm.
  pose proof Hok as (-> & _ & _ & Hnw & _). unfold MonitorDeflateVisitor_IsMarked.
  destruct (deflated_word n s m mon Hi Hv Hm) as [->|(w & -> & Hnw0 & Hg & Hnf & Hl' & Ho & Hh)]; cbn.
  { eexists. split; [reflexivity|]. apply event_good_same; done. }
  eexists. split; [reflexivity|]. assert (Edel : delete m (<[m := clear_obj mon]> (mons s)) = delete m (mons s)) by apply delete_insert_eq.
  split; [|split; [done|]].
  - assert (Hid : m ∈ dom (mons s)) by (by apply elem_of_dom_2 in Hm).
    apply (minv_collector n s); cbn; rewrite ?Edel; try done.
    + intros j q Hq. split.
      * do 5 right. split; [by apply Hsp in Hq|]. assert (Hpos : forall x, 0 <= weight x) by (intros []; cbn; try case_match; lia).
        pose proof (sumZ_lookup weight (pcs s) j q Hpos Hq). pose proof (Hpos q). lia.
      * intros m' E. apply Hsp in Hq. by destruct q.
    + rewrite dom_delete_L. apply release_id_spec; [apply (i_pool Hi)|done].
    + intros m'. rewrite dom_delete_L. intros [Hm' _]%elem_of_difference. by apply (i_ids Hi).
    + by destruct (view w).
  - unfold obs, obs_hash. cbn. rewrite Edel, Ho, Hh, Hv. cbn. by rewrite Hm.
Qed.

(** The start of a call. *)
Lemma Call_good n s i c : minv n s -> pcs s !! i = Some Running -> suspended s (tid i) = false ->
  event_good n s (set_pc (tid i) (start c) s).
Proof.
  intros Hi Hp Hsu. rewrite set_pc_tid. split; [|split; [|done]].
  - apply (minv_plain b n s i Running (start c)); try done; [by destruct c|apply susp_none; [by destruct c|auto]|by destruct c].
  - intros j. cbn. destruct (decide (j = i)) as [->|Hne]; [|by rewrite list_lookup_insert_ne].
    rewrite list_lookup_insert_eq by (by apply lookup_lt_Some in Hp). rewrite Hp. by destruct c.
Qed.

Lemma SetReadBarrier_good n s rb : minv n s -> rb_ok b rb ->
  event_good n s (with_lock_word (SetReadBarrierState rb (lock_word s)) s).
Proof.
  intros Hi Hrb. destruct (rb_word b rb _ (i_good Hi) Hrb) as [Hg Hv].
  split; [|split; [done|]; unfold obs, obs_hash; cbn; by rewrite Hv].
  apply (minv_collector n s); cbn; rewrite ?Hv; try done; try apply Hi.
  intros j q Hq. split; [by left|]. intros m E. split; [done|]. by apply (i_priv Hi j q).
Qed.

Lemma Interrupt_good n s t : minv n s -> event_good n s (interrupt_step t s).
Proof.
  intros Hi. unfold interrupt_step. case_bool_decide; [by apply event_good_same|].
  set (s1 := with_pcs (alter signal (idx t) (pcs s)) s).
  assert (Hs : signalled (pcs s) (pcs s1)) by apply signalled_alter.
  assert (Hi1 : minv n s1).
  { apply (minv_signal b n s); try done. pose proof (i_lock Hi) as Hl.
    destruct (view (lock_word s)) as [|o c rb|m rb|h rb|a]; try done.
    - cbn in Hl |- *. unfold valid_tid in *. by rewrite length_alter.
    - destruct Hl as (mon & Hm & Hok). exists mon. split; [done|].
      replace mon with (set_wait_set (wait_set_ mon) mon) by (by destruct mon).
      pose proof Hok as (_ & _ & _ & _ & Hnd & _ & Hun & _). apply (mon_ok_signal n (pcs s)); try done.
      intros j p' Hp' Hu. destruct (signalled_back _ _ _ _ Hs Hp') as (p & Hp & Hpp). apply (Hun j p Hp).
      by apply (signal_same p p' Hpp). }
  destruct (event_good_same n s1 (with_interrupted ({[t]} ∪ interrupted s) s1) Hi1) as (Hi2 & Hsv & Ho & Hh); try done.
  split; [exact Hi2|]. split; [|done]. intros j. apply (signalled_saved (pcs s) (pcs s1) j Hs).
Qed.

(** ** Executions *)
Definition event_ok (s : mstate P) (ev : event C) : Prop :=
  match ev with Step _ _ c => fresh_chunk (pool s) c | _ => True end.

(** [exec n k tr s]: [n] threads, [k] events, the labels [tr], the state [s]. *)
Inductive exec (n : nat) : Z -> list (Z * label) -> mstate P -> Prop :=
| exec_init s : initial n s -> exec n 0 [] s
| exec_step k tr s ev s' l : exec n k tr s -> event_ok s ev -> step b max_spins s ev = Some (Done (s', l)) ->
    exec n (k + 1) (tr ++ option_list l) s'.

Lemma initial_inv n s : initial n s -> minv 0 s.
Proof.
  intros (El & Em & Epo & Eli & Ep & Hn).
  assert (Hg : good b (lock_word s)).
  { rewrite El. unfold good, word_ok. split; [split; [vm_compute; split; [discriminate|done]|]|by destruct b].
    intros _. destruct b; vm_compute; [split; discriminate|done]. }
  assert (Hv : view (lock_word s) = Unlocked 0) by (rewrite El; by destruct b).
  assert (Hrun : forall i p, pcs s !! i = Some p -> p = Running).
  { intros i p. rewrite Ep. by intros [-> _]%lookup_replicate. }
  split; rewrite ?Hv, ?Em; try done.
  - by rewrite Ep, length_replicate.
  - intros i p Hp. by rewrite (Hrun i p Hp).
  - intros i j p q m Hp. by rewrite (Hrun i p Hp).
  - intros i p o Hp. by rewrite (Hrun i p Hp).
Qed.

(** Every event keeps the invariant. *)
Lemma event_cases n s ev o : minv n s -> n + 1 < 2 ^ 31 -> event_ok s ev -> step b max_spins s ev = Some o ->
  (exists s', o = Done (s', None) /\ event_good n s s') \/
  (exists i p s' l p', o = Done (s', Some (tid i, l)) /\ pcs s !! i = Some p /\ minv (n + 1) s' /\ pcs s' !! i = Some p' /\
     (forall j, j <> i -> saved_of <$> pcs s' !! j = saved_of <$> pcs s !! j) /\
     lock_eff (tid i) l (obs b s) (saved_of p) (obs b s') (saved_of p') /\ hash_eff l (obs_hash b s) (obs_hash b s')) \/
  (o = Aborted /\ exists t fail c, ev = Step t fail c /\ create_id c (pool s) = Aborted).
Proof.
  intros Hi Hn Hok E. destruct ev as [t c|t fail c| |rb|al|t]; cbn in E.
  - destruct (pc_at s t) as [p|] eqn:Et; [|done]. apply pc_at_Some in Et as (i & -> & Hp). destruct p; try done.
    destruct (suspended s (tid i)) eqn:Hsu; [done|]. injection E as <-. left. eexists. split; [done|]. by apply Call_good.
  - destruct (pc_at s t) as [p|] eqn:Et; [|done]. apply pc_at_Some in Et as (i & -> & Hp).
    destruct (may_step s (tid i) p) eqn:Hmay; [|done].
    destruct (thread_step b max_spins (tid i) fail c p s) as [o'|] eqn:Eo; [|done]. injection E as <-. right.
    destruct (thread_step_good n s i fail c p o' Hi Hn Hok Hp Hmay Eo) as [(s' & l & p' & -> & Hg)|[-> Ha]]; [left|right; by eauto 6].
    exists i, p, s', l, p'. cbn. by repeat (split; [done|]).
  - destruct (forallb suspendable (pcs s)) eqn:Hall; [|done]. injection E as <-. left.
    destruct (DeflateMonitors_good n s Hi Hall) as (s' & -> & Hg). exists s'. done.
  - destruct (b && (0 <=? rb) && (rb <=? 2)) eqn:Eb; [|done]. injection E as <-. left. eexists. split; [done|].
    apply SetReadBarrier_good; [done|]. apply andb_true_iff in Eb as [[Eb ?%Z.leb_le]%andb_true_iff ?%Z.leb_le].
    unfold rb_ok. rewrite Eb. lia.
  - assert (o = Done (with_allow al s, None)) as -> by (destruct b; congruence). left. eexists. split; [done|].
    by apply event_good_same.
  - destruct (_ && _); [|done]. injection E as <-. left. eexists. split; [done|]. by apply Interrupt_good.
Qed.

Lemma exec_inv n k tr s : exec n k tr s -> k < 2 ^ 31 -> minv k s.
Proof.
  induction 1 as [s Hs|k tr s ev s' l He IH Hok E]; intros Hk; [by apply (initial_inv n)|].
  specialize (IH ltac:(lia)). destruct (event_cases k s ev _ IH Hk Hok E)
    as [(s1 & [= <- _] & Hg & _)|[(i & p & s1 & l' & p' & [= <- _] & _ & Hg & _)|[? _]]]; done.
Qed.
End Machine.

(** ** The specification: a reentrant lock with waiting

    [a_holder] is the holder and the number of times it has entered again;
    [a_saved] has the count that each waiting thread gets back. *)
Record alock := mkLock { a_holder : option (Z * Z); a_saved : gmap Z Z }.
Definition spec_init : alock := mkLock None ∅.
Definition holds (a : alock) (t : Z) : bool := match a_holder a with Some (o, _) => o =? t | None => false end.

(** The lock after a label of thread [t], or [None] when the lock does not
    allow it. *)
Definition spec_step (a : alock) (tl : Z * label) : option alock :=
  let '(t, l) := tl in
  match l, a_saved a !! t with
  | Tau, _ | Ret (RHashCode _), None => Some a
  | Ret REntered, None =>
      match a_holder a with
      | None => Some (mkLock (Some (t, 0)) (a_saved a))
      | Some (o, c) => if o =? t then Some (mkLock (Some (t, c + 1)) (a_saved a)) else None
      end
  | Ret RExited, None =>
      match a_holder a with
      | Some (o, c) =>
          if o =? t then Some (mkLock (if c =? 0 then None else Some (t, c - 1)) (a_saved a)) else None
      | None => None
      end
  | Ret RTryLockFailed, None =>
      match a_holder a with Some (o, _) => if o =? t then None else Some a | None => None end
  | Ret RIllegalMonitorState, None => if holds a t then None else Some a
  | Ret RIllegalArgument, None | Ret RNotified, None => if holds a t then Some a else None
  | WaitRelease, None =>
      match a_holder a with
      | Some (o, c) => if o =? t then Some (mkLock None (<[t := c]> (a_saved a))) else None
      | None => None
      end
  | WaitAcquire, Some _ =>
      match a_holder a with None => Some (mkLock (Some (t, 0)) (a_saved a)) | Some _ => None end
  | Ret (RWaited _), Some c =>
      match a_holder a with
      | Some (o, c0) => if (o =? t) && (c0 =? 0) then Some (mkLock (Some (t, c)) (delete t (a_saved a))) else None
      | None => None
      end
  | _, _ => None
  end.
Fixpoint spec_run (a : alock) (tr : list (Z * label)) : option alock :=
  match tr with
  | [] => Some a
  | tl :: tr => a ← spec_step a tl; spec_run a tr
  end.
Lemma spec_run_app a tr tr' : spec_run a (tr ++ tr') = (a ← spec_run a tr; spec_run a tr').
Proof. revert a. induction tr as [|tl tr IH]; intros a; cbn; [done|]. destruct (spec_step a tl); cbn; [apply IH|done]. Qed.

(** *** What a thread sees of itself

    The times it has entered and not left, from its own labels: while it waits,
    none, and afterwards as many as before. *)
Definition local_step (t : Z) (ds : Z * Z) (tl : Z * label) : Z * Z :=
  let '(d, saved) := ds in
  if tl.1 =? t then
    match tl.2 with
    | Ret REntered => (d + 1, saved)
    | Ret RExited => (d - 1, saved)
    | WaitRelease => (0, d)
    | Ret (RWaited _) => (saved, 0)
    | _ => (d, saved)
    end
  else (d, saved).
Definition depth (t : Z) (tr : list (Z * label)) : Z := fst (foldl (local_step t) (0, 0) tr).

(** The count of [t] when it holds the lock. *)
Definition count_of (a : alock) (t : Z) : option Z :=
  match a_holder a with Some (o, c) => if o =? t then Some c else None | None => None end.
Definition local_ok (a : alock) (t : Z) (ds : Z * Z) : Prop :=
  match a_saved a !! t with
  | Some c => ds = (0, c + 1) /\ (count_of a t = None \/ count_of a t = Some 0)
  | None => fst ds = match count_of a t with Some c => c + 1 | None => 0 end
  end.

Ltac spec_cases :=
  repeat case_match; simplify_eq; cbn in *;
  rewrite ?andb_true_iff, ?Z.eqb_eq, ?Z.eqb_neq in *; destruct_and?; subst; simplify_eq; try done.

Lemma spec_step_other a u l a' t : u <> t -> spec_step a (u, l) = Some a' ->
  a_saved a' !! t = a_saved a !! t /\ count_of a' t = count_of a t.
Proof.
  intros Hne. destruct a as [h f]. unfold count_of, spec_step, holds. cbn. intros E.
  spec_cases; rewrite ?lookup_insert_ne, ?lookup_delete_ne by done; try done.
Qed.
Lemma local_step_self a l a' t d sv : spec_step a (t, l) = Some a' -> local_ok a t (d, sv) ->
  local_ok a' t (local_step t (d, sv) (t, l)).
Proof.
  destruct a as [h f]. unfold local_ok, count_of, local_step, spec_step, holds. cbn. rewrite Z.eqb_refl. intros E Hl.
  spec_cases; rewrite ?lookup_insert_eq, ?lookup_delete_eq in *; simplify_eq; try lia; try (split; [f_equal; lia|auto]).
  all: spec_cases.
Qed.
Lemma local_run_ok t tr : forall a ds a', spec_run a tr = Some a' -> local_ok a t ds -> local_ok a' t (foldl (local_step t) ds tr).
Proof.
  induction tr as [|[u l] tr IH]; intros a [d sv] a' E Hl; [by injection E as <-|].
  apply bind_Some in E as (a1 & E1 & E). cbn [foldl]. refine (IH a1 _ a' E _).
  destruct (decide (u = t)) as [->|Hne]; [by apply (local_step_self a)|].
  unfold local_step at 1. cbn. destruct (Z.eqb_spec u t); [done|].
  unfold local_ok in *. by destruct (spec_step_other a u l a1 t Hne E1) as [-> ->].
Qed.

(** A thread inside of the lock, by its own labels, is the holder. *)
Lemma depth_holder tr a t : spec_run spec_init tr = Some a -> 0 < depth t tr -> a_holder a = Some (t, depth t tr - 1).
Proof.
  intros E Hd. pose proof (local_run_ok t tr spec_init (0, 0) a E eq_refl) as Hl. unfold depth in *.
  unfold local_ok in Hl. destruct (a_saved a !! t); [destruct Hl as [Hl _]; rewrite Hl in Hd; cbn in Hd; lia|].
  rewrite Hl in Hd |- *. unfold count_of in *. destruct (a_holder a) as [[o c]|]; [|lia].
  destruct (Z.eqb_spec o t) as [->|]; [|lia]. do 2 f_equal. lia.
Qed.

(** *** The effects of MonitorSteps are the steps of the specification *)
Lemma spec_step_eff a t l h' sv' : lock_eff t l (a_holder a) (a_saved a !! t) h' sv' ->
  exists a', spec_step a (t, l) = Some a' /\ a_holder a' = h' /\ a_saved a' !! t = sv' /\
    forall u, u <> t -> a_saved a' !! u = a_saved a !! u.
Proof.
  destruct a as [h f]. unfold spec_step, holds. cbn [a_holder a_saved].
  assert (Hr : forall h1 h2 sv, f !! t = sv -> h1 = h2 -> exists a', Some (mkLock h1 f) = Some a' /\ a_holder a' = h2 /\
    a_saved a' !! t = sv /\ forall u, u <> t -> a_saved a' !! u = f !! u) by (intros; eexists; by repeat split).
  destruct l as [|[]| |]; cbn; intros Hl.
  - destruct Hl as [-> ->]. by apply Hr.
  - destruct Hl as [[E ->] [[-> ->]|(c & -> & ->)]]; rewrite E, ?Z.eqb_refl; by apply Hr.
  - destruct Hl as (-> & [E ->] & o & c & -> & Hne). rewrite E. apply Z.eqb_neq in Hne as ->. by apply Hr.
  - destruct Hl as ([E ->] & c & -> & ->). rewrite E, Z.eqb_refl. by apply Hr.
  - destruct Hl as (-> & [E ->] & Hn). rewrite E. destruct h as [[o c]|]; [|by apply Hr].
    destruct (Z.eqb_spec o t) as [->|]; [by destruct (Hn c)|by apply Hr].
  - destruct Hl as (-> & [E ->] & c & ->). rewrite E, Z.eqb_refl. by apply Hr.
  - destruct Hl as (-> & c & E & -> & ->). rewrite E, Z.eqb_refl. eexists. split; [reflexivity|]. split; [done|]. cbn.
    split; [apply lookup_delete_eq|]. intros u Hu. by apply lookup_delete_ne.
  - destruct Hl as (-> & [E ->] & c & ->). rewrite E, Z.eqb_refl. by apply Hr.
  - destruct Hl as (-> & E & ->). rewrite E. by apply Hr.
  - destruct Hl as (E & -> & c & -> & ->). rewrite E, Z.eqb_refl. eexists. split; [reflexivity|]. split; [done|]. cbn.
    split; [apply lookup_insert_eq|]. intros u Hu. by apply lookup_insert_ne.
  - destruct Hl as (-> & Hne & -> & ->). destruct (f !! t) eqn:E; [|done]. by apply Hr.
Qed.

Section Exec.
Context {P C : Type} `{IdPool P C} (b : bool) (max_spins : Z).

(** The specification after an execution, and the hash codes it has returned. *)
Definition simulates (a : alock) (s : mstate P) : Prop :=
  a_holder a = obs b s /\ forall t, a_saved a !! t = pc_at s t ≫= saved_of.

Lemma saved_at (s s' : mstate P) t : (forall j, t = tid j -> saved_of <$> pcs s' !! j = saved_of <$> pcs s !! j) ->
  pc_at s' t ≫= saved_of = pc_at s t ≫= saved_of.
Proof.
  intros Hj. unfold pc_at. destruct (Z.leb_spec 1 t); [|done]. specialize (Hj (idx t) ltac:(unfold tid, idx; lia)).
  destruct (pcs s' !! idx t), (pcs s !! idx t); try done. by injection Hj.
Qed.

Lemma exec_simulates n k tr s : exec b max_spins n k tr s -> k < 2 ^ 31 ->
  exists a, spec_run spec_init tr = Some a /\ simulates a s.
Proof.
  induction 1 as [s Hs|k tr s ev s' l He IH Hok E]; intros Hk.
  { exists spec_init. destruct Hs as (El & Em & _ & _ & Ep & _). split; [done|]. split.
    - unfold obs. rewrite El. by destruct b.
    - intros t. unfold pc_at. destruct (1 <=? t); [|done]. rewrite Ep. cbn. destruct (replicate n Running !! idx t) eqn:E; [|done].
      apply lookup_replicate in E as [-> _]. done. }
  destruct (IH ltac:(lia)) as (a & Ea & Eo & Es). pose proof (exec_inv b max_spins n k tr s He ltac:(lia)) as Hi.
  rewrite spec_run_app, Ea. cbn.
  destruct (event_cases b max_spins k s ev _ Hi Hk Hok E) as [(s1 & [= <- ->] & _ & Hsv & Eo' & _)|
    [(i & p & s1 & l' & p' & [= <- ->] & Hp & _ & Hp' & Hsv & Hl & _)|[? _]]]; [| |done].
  - exists a. split; [done|]. split; [congruence|]. intros t. rewrite Es. symmetry. by apply saved_at.
  - assert (Hsa : a_saved a !! tid i = saved_of p) by (by rewrite Es, pc_at_tid, Hp).
    rewrite <- Eo, <- Hsa in Hl. destruct (spec_step_eff a _ _ _ _ Hl) as (a' & Ea' & Ho' & Hs' & Hu').
    exists a'. split; [apply bind_Some; by exists a'|]. split; [done|]. intros t. destruct (decide (t = tid i)) as [->|Hne].
    + by rewrite Hs', pc_at_tid, Hp'.
    + rewrite Hu', Es by done. symmetry. apply saved_at. intros j ->. apply Hsv. congruence.
Qed.

Lemma exec_hash n k tr s : exec b max_spins n k tr s -> k < 2 ^ 31 ->
  forall t h, (t, Ret (RHashCode h)) ∈ tr -> obs_hash b s = Some h.
Proof.
  induction 1 as [s Hs|k tr s ev s' l He IH Hok E]; intros Hk t h Ht; [by apply elem_of_nil in Ht|].
  pose proof (exec_inv b max_spins n k tr s He ltac:(lia)) as Hi. apply elem_of_app in Ht.
  destruct (event_cases b max_spins k s ev _ Hi Hk Hok E) as [(s1 & [= <- ->] & _ & _ & _ & Eh)|
    [(i & p & s1 & l' & p' & [= <- ->] & _ & _ & _ & _ & _ & Hh)|[? _]]]; [| |done].
  - rewrite Eh. destruct Ht as [Ht|Ht]; [by apply (IH ltac:(lia) t)|by apply elem_of_nil in Ht].
  - destruct Ht as [Ht|[= _ Ht]%list_elem_of_singleton]; [apply (proj1 Hh), (IH ltac:(lia) t h Ht)|by apply (proj2 Hh)].
Qed.
End Exec.
