(* ===== verification/MonitorRuns.v ===== *)
(** Theorems on the runs of the machine of Monitor: the locks of objects are
    reentrant locks with waiting, no check of the code fails, an object keeps
    its identity hash code, notifications reach the threads that wait, and the
    queries of a lock report its state.  The runs at the end use the pool of
    MonitorPool. *)
From stdpp Require Import prelude gmap list.
From Stdlib Require Import ZArith Lia.
From S2P Require Import Prelude LockWord MonitorPool Monitor MonitorInvariant MonitorSteps MonitorSpec.
Import LockWord Monitor.
Open Scope Z_scope.

(** ** Notification *)

(** [wait_monitor_] of the thread [t] is not null. *)
Definition waits_at (l : list pc) (t : Z) : bool :=
  match l !! idx t with Some p => has_wait_monitor p | None => false end.

Lemma notify_loop_first ws l :
  (forall t, t ∈ ws -> waits_at l t = false) /\ notify_loop ws l = ([], l) \/
  exists pre t post p, ws = pre ++ t :: post /\ (forall u, u ∈ pre -> waits_at l u = false) /\
    l !! idx t = Some p /\ has_wait_monitor p = true /\ notify_loop ws l = (post, <[idx t := signal p]> l).
Proof.
  induction ws as [|t ws IH]; cbn.
  { left. split; [|done]. intros t Ht. by apply elem_of_nil in Ht. }
  assert (Hskip : waits_at l t = false -> notify_loop (t :: ws) l = notify_loop ws l).
  { unfold waits_at. cbn. destruct (l !! idx t) as [p|]; [|done]. by intros ->. }
  destruct (waits_at l t) eqn:Ew.
  - unfold waits_at in Ew. destruct (l !! idx t) as [p|] eqn:Ep; [|done]. right. exists [], t, ws, p.
    rewrite Ew. repeat split; try done. intros u Hu. by apply elem_of_nil in Hu.
  - cbn in Hskip. rewrite Hskip by done. destruct IH as [[Hno ->]|(pre & u & post & p & -> & Hpre & Hp & Hw & ->)].
    + left. split; [|done]. intros u [->|Hu]%elem_of_cons; [done|by apply Hno].
    + right. exists (t :: pre), u, post, p. repeat split; try done. intros v [->|Hv]%elem_of_cons; [done|by apply Hpre].
Qed.

Section Claims.
Context {P C : Type} `{IdPool P C} (b : bool) (max_spins : Z).
Implicit Types s : mstate P.

(** The monitor of a lock word in a reachable state. *)
Lemma exec_monitor n k tr s m : exec b max_spins n k tr s -> k < 2 ^ 31 -> view b (lock_word s) = Fat m 0 ->
  exists mon, mons s !! m = Some mon /\ mon_ok k (pcs s) mon.
Proof. intros He Hk Hv. pose proof (i_lock (exec_inv b max_spins n k tr s He Hk)) as Hl. by rewrite Hv in Hl. Qed.

(** What a query of the lock word meets. *)
Lemma exec_word n k tr s : exec b max_spins n k tr s -> k < 2 ^ 31 ->
  match GetState b (lock_word s) with
  | kUnlocked => obs b s = None /\ list_ s = []
  | kThinLocked => obs b s = Some (ThinLockOwner (lock_word s), ThinLockCount (lock_word s)) /\
      ThinLockOwner (lock_word s) <> 0 /\ list_ s = []
  | kFatLocked => exists mon, mons s !! FatLockMonitorId (lock_word s) = Some mon /\ mon_ok k (pcs s) mon /\
      obs b s = mon_holder mon /\ view b (lock_word s) = Fat (FatLockMonitorId (lock_word s)) 0
  | kHashCode => obs b s = None /\ list_ s = []
  | kForwardingAddress => False
  end.
Proof.
  intros He Hk. pose proof (exec_inv b max_spins n k tr s He Hk) as Hi. pose proof (read_word b _ (i_good Hi)) as Hr.
  pose proof (i_lock Hi) as Hl. pose proof (i_list Hi) as Hli. unfold obs.
  destruct (GetState b (lock_word s)).
  - by rewrite Hr in Hli |- *.
  - destruct Hr as [Hr _]. rewrite Hr in Hl, Hli |- *. destruct Hl as [(j & -> & _) _]. repeat split; try done. unfold tid. lia.
  - rewrite Hr in Hl |- *. destruct Hl as (mon & Hm & Hok). exists mon. cbn. by rewrite Hm.
  - destruct Hr as [Hr _]. by rewrite Hr in Hli |- *.
  - done.
Qed.

(** C5: the locks of objects are reentrant locks with waiting. Whatever the
    schedule, with any inflations, deflations, suspensions and collector
    activity in between, the labels of a run (calls that return, releases and
    acquisitions of the lock by waiting threads) are those of the abstract lock,
    whose holder and count are those that the lock word, or the monitor it
    names, has at the end. A thread that has entered more often than it has
    left, by its own calls, is that holder with that count, and so is the only
    such thread. *)
Theorem monitor_refines n k tr s :
  exec b max_spins n k tr s -> k < 2 ^ 31 ->
  (exists a, spec_run spec_init tr = Some a /\ a_holder a = obs b s) /\
  (forall t, 0 < depth t tr -> obs b s = Some (t, depth t tr - 1)) /\
  (forall t u, 0 < depth t tr -> 0 < depth u tr -> t = u).
Proof.
  intros He Hk. destruct (exec_simulates b max_spins n k tr s He Hk) as (a & Ea & Eo & _).
  split; [eauto|]. split.
  - intros t Ht. rewrite <- Eo. by apply (depth_holder tr a t).
  - intros t u Ht Hu. apply (depth_holder tr a) in Ht, Hu; [congruence|done..].
Qed.

(** C13: no run fails a check of the code or touches a monitor that has been
    released: in every state that a run of fewer than 2^31 events reaches,
    every event that is possible succeeds, except that the creation of a
    monitor aborts when the pool has no more ids. *)
Theorem monitor_never_fails n k tr s ev o :
  exec b max_spins n k tr s -> k + 1 < 2 ^ 31 -> event_ok s ev -> step b max_spins s ev = Some o ->
  (exists s' l, o = Done (s', l)) \/
  (o = Aborted /\ exists t fail c, ev = Step t fail c /\ create_id c (pool s) = Aborted).
Proof.
  intros He Hk Hok E. pose proof (exec_inv b max_spins n k tr s He ltac:(lia)) as Hi.
  destruct (event_cases b max_spins k s ev o Hi Hk Hok E) as [(s' & -> & _)|[(i & p & s' & l & p' & -> & _)|Ha]]; eauto.
Qed.


(** C23: notification. In every reachable state a thread that waits and has not
    been signalled is in the wait set of the object's monitor. [NotifyAll] by
    the owner signals all of them. [Notify] by the owner takes threads from the
    wait set, oldest first, up to the first whose [wait_monitor_] is set, and
    signals that one and no other; there is one if any thread waits without a
    signal. *)
Theorem notify_reaches_waiters n k tr s i m all mon :
  exec b max_spins n k tr s -> k < 2 ^ 31 ->
  pcs s !! i = Some (NotifyFat m all) -> mons s !! m = Some mon -> owner_ mon = Some (tid i) ->
  let '(s', mon', l) := notify_step (tid i) all mon s in
  l = Ret RNotified /\
  (forall j p, pcs s !! j = Some p -> unsignalled p = true -> tid j ∈ wait_set_ mon) /\
  if all then wait_set_ mon' = [] /\ forall j p, pcs s' !! j = Some p -> unsignalled p = false
  else
    (forall t, t ∈ wait_set_ mon -> waits_at (pcs s) t = false) /\ wait_set_ mon' = [] /\ pcs s' = pcs s /\
      (forall j p, pcs s !! j = Some p -> unsignalled p = false) \/
    exists pre t post p, wait_set_ mon = pre ++ t :: post /\ (forall u, u ∈ pre -> waits_at (pcs s) u = false) /\
      pc_at s t = Some p /\ has_wait_monitor p = true /\
      wait_set_ mon' = post /\ pcs s' = <[idx t := signal p]> (pcs s).
Proof.
  intros He Hk Hp Hm Ho. pose proof (exec_inv b max_spins n k tr s He Hk) as Hi. pose proof (i_pcs Hi _ _ Hp) as Hv. cbn in Hv.
  destruct (exec_monitor n k tr s m He Hk Hv) as (mon0 & Hm0 & Hok). assert (mon0 = mon) as -> by congruence.
  destruct Hok as (_ & _ & _ & _ & _ & Hws & Hun & _). unfold notify_step. rewrite bool_decide_eq_false_2 by tauto.
  destruct all.
  - destruct (notify_all_loop_spec (wait_set_ mon) (pcs s)) as [Hs Hno]. repeat split; try done.
    intros j p' Hp'. destruct (unsignalled p') eqn:Eu; [|done]. destruct (signalled_back _ _ _ _ Hs Hp') as (p & Hpp & Hor).
    assert (Hw : waiting_at (notify_all_loop (wait_set_ mon) (pcs s)) (tid j) = false).
    { apply Hno, (Hun j p Hpp). by apply (signal_same p p' Hor). }
    cbn in Hp'. rewrite (waiting_at_tid _ j p' Hp') in Hw. congruence.
  - destruct (notify_loop_first (wait_set_ mon) (pcs s)) as [[Hno ->]|(pre & t & post & p & Ews & Hpre & Ht & Hw & ->)].
    + repeat split; try done. left. repeat split; try done. intros j p Hj. destruct (unsignalled p) eqn:Eu; [|done].
      specialize (Hno (tid j) (Hun j p Hj Eu)). unfold waits_at in Hno. rewrite idx_tid, Hj in Hno. by destruct p.
    + repeat split; try done. right. exists pre, t, post, p. repeat split; try done.
      destruct (Hws t) as (j & q & -> & Hq & _); [rewrite Ews; set_solver|]. rewrite idx_tid in Ht. by rewrite pc_at_tid.
Qed.

(** The queries. In every reachable state [GetLockOwnerThreadId] gives the
    thread that holds the lock, or 0; the lock word passes [IsValidLockWord]
    unless a thread is about to add its monitor to the list; and [MonitorInfo]
    gives the owner, its number of entries, and a list of waiters with all the
    threads that wait without a signal, except that it counts one entry for an
    inflated lock that nobody holds. *)
Theorem lock_queries n k tr s :
  exec b max_spins n k tr s -> k < 2 ^ 31 ->
  GetLockOwnerThreadId b s = Done (match obs b s with Some (o, _) => o | None => kInvalidThreadId end) /\
  ((forall i m susp k', pcs s !! i <> Some (InflateAdd m susp k')) -> IsValidLockWord b s (lock_word s) = Done true) /\
  exists waiters, MonitorInfo b s = Done (fst <$> obs b s,
    match obs b s with
    | Some (_, c) => 1 + c
    | None => if bool_decide (GetState b (lock_word s) = kFatLocked) then 1 else 0
    end, waiters) /\
    (GetState b (lock_word s) = kFatLocked ->
     forall j p, pcs s !! j = Some p -> unsignalled p = true -> tid j ∈ waiters).
Proof.
  intros He Hk. pose proof (exec_word n k tr s He Hk) as Hw. pose proof (i_list (exec_inv b max_spins n k tr s He Hk)) as Hli.
  unfold GetLockOwnerThreadId, IsValidLockWord, MonitorInfo. destruct (GetState b (lock_word s)).
  - destruct Hw as [-> _]. repeat split. by exists [].
  - destruct Hw as (-> & Hne & _). repeat split; [intros _; unfold kInvalidThreadId; by apply Z.eqb_neq in Hne as ->|]. by exists [].
  - destruct Hw as (mon & -> & Hok & -> & Hv). destruct Hok as (_ & _ & Hown & _ & _ & _ & Hun & _).
    unfold GetOwnerThreadId, mon_holder. split; [by destruct (owner_ mon)|]. split.
    + intros Hno. rewrite Hv in Hli. destruct Hli as [[-> _]|[_ (i & susp & k' & Hi)]]; [|by apply Hno in Hi].
      cbn. by rewrite Z.eqb_refl.
    + exists (wait_set_ mon). split; [|done]. destruct (owner_ mon); cbn; [done|]. by rewrite Hown.
  - destruct Hw as [-> _]. repeat split. by exists [].
  - done.
Qed.
End Claims.

(** ** Runs

    Two threads, with the pool of MonitorPool: the first enters twice, asks for
    the hash code, which inflates the lock, and waits; the second enters,
    notifies it and leaves; the first leaves twice; the lock is deflated, and
    the second thread asks for the hash code. *)
Import MonitorPool.
#[local] Existing Instance demo_build.
Definition demo_start (n : nat) : mstate MonitorPool :=
  mkState Default ∅ demo0 [] true (replicate n Running) ∅ 987654321.
Definition steps (t : Z) (n : nat) : list (event Z) := repeat (Step t false demo_chunk) n.
Definition forever : wait_args := mkWait 0 0 true kWaiting.
Definition demo_enter : list (event Z) :=
  Call 1 (CallEnter false) :: steps 1 2 ++ Call 1 (CallEnter false) :: steps 1 2 ++ Call 1 CallHash :: steps 1 8 ++
  Call 2 (CallEnter false) :: steps 2 2.
Definition demo_wait : list (event Z) :=
  demo_enter ++ Call 1 (CallWait forever) :: steps 1 2 ++ steps 2 1 ++ Call 2 (CallNotify false) :: steps 2 1.
Definition demo_events : list (event Z) :=
  demo_wait ++ steps 2 1 ++ steps 1 3 ++ Call 2 CallExit :: steps 2 2 ++ steps 1 2 ++
  Call 1 CallExit :: steps 1 2 ++ Call 1 CallExit :: steps 1 2 ++ DeflateAll :: Call 2 CallHash :: steps 2 1.
Definition demo_end (n : nat) (evs : list (event Z)) : mstate MonitorPool * list (Z * label) :=
  match run false 1 (demo_start n) evs with Some (Done r) => r | _ => (demo_start n, []) end.

(** Every step of a run gets memory that the pool does not have. *)
Fixpoint run_fresh (s : mstate MonitorPool) (evs : list (event Z)) : bool :=
  match evs with
  | [] => true
  | ev :: evs =>
      bool_decide (monitor_chunks_ (pool s) = {[(0, 0) := demo_base]}) &&
      match ev with Step _ _ c => c =? demo_chunk | _ => true end &&
      match step false 1 s ev with Some (Done (s, _)) => run_fresh s evs | _ => false end
  end.

Lemma run_exec n evs : forall k tr s s' ls, exec false 1 n k tr s -> run_fresh s evs = true ->
  run false 1 s evs = Some (Done (s', ls)) -> exec false 1 n (k + Z.of_nat (length evs)) (tr ++ ls) s'.
Proof.
  induction evs as [|ev evs IH]; intros k tr s s' ls He Hf E; cbn [run run_fresh] in E, Hf.
  { injection E as <- <-. rewrite app_nil_r, Z.add_0_r. exact He. }
  apply andb_true_iff in Hf as [[Hc%bool_decide_eq_true Hd]%andb_true_iff Hf].
  destruct (step false 1 s ev) as [[[s1 l]| | |]|] eqn:Es; try done.
  destruct (run false 1 s1 evs) as [[[s2 ls2]| | |]|] eqn:Er; try done. injection E as -> <-.
  rewrite app_assoc. replace (k + Z.of_nat (length (ev :: evs))) with (k + 1 + Z.of_nat (length evs)) by (cbn [length]; lia).
  apply (IH _ _ s1); [|done|done]. apply (exec_step false 1 n k tr s ev s1 l He); [|done].
  destruct ev; try done. apply Z.eqb_eq in Hd as ->. by apply demo_fresh.
Qed.

Lemma demo_initial n : Z.of_nat n <= kThinLockMaxOwner -> initial n (demo_start n).
Proof.
  intros Hn. repeat (split; [done|]). split; [|done].
  assert (Hsz : sizes_ok) by (vm_compute; split; discriminate). split; [done|].
  exists (chunk_monitors demo_base), ∅. split.
  - apply (Create_inv Hsz); [|vm_compute; reflexivity]. vm_compute. split; [done|split; [done|discriminate]].
  - intros id. split; [intros Hid; by apply elem_of_empty in Hid|]. intros (m & Hm & _). by apply elem_of_empty in Hm.
Qed.

Lemma demo_exec n evs : Z.of_nat n <= kThinLockMaxOwner -> run_fresh (demo_start n) evs = true ->
  run false 1 (demo_start n) evs = Some (Done (demo_end n evs)) ->
  exec false 1 n (Z.of_nat (length evs)) (snd (demo_end n evs)) (fst (demo_end n evs)).
Proof.
  intros Hn Hf Hr. apply (run_exec n evs 0 [] (demo_start n)); [|done|by rewrite Hr; destruct (demo_end n evs)].
  by apply exec_init, demo_initial.
Qed.
Ltac demo := apply demo_exec; [vm_compute; discriminate | vm_compute; reflexivity | vm_compute; reflexivity].
Lemma demo_enter_exec : exec false 1 2 (Z.of_nat (length demo_enter)) (snd (demo_end 2 demo_enter)) (fst (demo_end 2 demo_enter)).
Proof. demo. Qed.
Lemma demo_wait_exec : exec false 1 2 (Z.of_nat (length demo_wait)) (snd (demo_end 2 demo_wait)) (fst (demo_end 2 demo_wait)).
Proof. demo. Qed.
Lemma demo_events_exec : exec false 1 2 (Z.of_nat (length demo_events)) (snd (demo_end 2 demo_events)) (fst (demo_end 2 demo_events)).
Proof. demo. Qed.

Lemma monitor_refines_witness :
  depth 1 (snd (demo_end 2 demo_enter)) = 2 /\ obs false (fst (demo_end 2 demo_enter)) = Some (1, 1).
Proof.
  assert (E : depth 1 (snd (demo_end 2 demo_enter)) = 2) by (vm_compute; reflexivity). split; [exact E|].
  destruct (monitor_refines false 1 2 _ _ _ demo_enter_exec ltac:(vm_compute; reflexivity)) as (_ & Hd & _).
  rewrite (Hd 1) by (rewrite E; lia). by rewrite E.
Defined.

Lemma monitor_never_fails_witness :
  exists s' l, step false 1 (fst (demo_end 2 demo_wait)) (Step 2 false demo_chunk) = Some (Done (s', l)).
Proof.
  destruct (step false 1 (fst (demo_end 2 demo_wait)) (Step 2 false demo_chunk)) as [o|] eqn:E;
    [|exfalso; revert E; vm_compute; discriminate].
  destruct (monitor_never_fails false 1 2 _ _ _ (Step 2 false demo_chunk) o demo_wait_exec ltac:(vm_compute; reflexivity))
    as [(s' & l & ->)|[-> _]]; [apply demo_fresh; vm_compute; reflexivity|exact E|eauto|].
  exfalso; revert E; vm_compute; discriminate.
Defined.


Lemma notify_reaches_waiters_witness :
  let s := fst (demo_end 2 demo_wait) in
  exists mon, mons s !! 0 = Some mon /\ wait_set_ mon = [1] /\
    let '(s', mon', l) := notify_step 2 false mon s in l = Ret RNotified /\ wait_set_ mon' = [].
Proof.
  intros s. destruct (mons s !! 0) as [mon|] eqn:Hm; [|exfalso; revert Hm; vm_compute; discriminate].
  assert (Hw : wait_set_ mon = [1]) by (revert Hm; vm_compute; by intros [= <-]).
  exists mon. split; [reflexivity|]. split; [exact Hw|].
  pose proof (notify_reaches_waiters false 1 2 _ _ _ 1%nat 0 false mon demo_wait_exec ltac:(vm_compute; reflexivity)) as Hn.
  specialize (Hn ltac:(vm_compute; reflexivity) Hm ltac:(revert Hm; vm_compute; by intros [= <-])).
  change (tid 1) with 2 in Hn. fold s in Hn. destruct (notify_step 2 false mon s) as [[s' mon'] l].
  destruct Hn as (-> & _ & [(_ & -> & _)|(pre & t & post & p & Ew & _ & _ & _ & -> & _)]); split; try reflexivity.
  rewrite Hw in Ew. destruct pre as [|? [|? ?]]; [by injection Ew as _ <-|discriminate..].
Defined.

Lemma lock_queries_witness :
  GetLockOwnerThreadId false (fst (demo_end 2 demo_wait)) = Done 2 /\
  exists waiters, MonitorInfo false (fst (demo_end 2 demo_wait)) = Done (Some 2, 1, waiters).
Proof.
  destruct (lock_queries false 1 2 _ _ _ demo_wait_exec ltac:(vm_compute; reflexivity)) as (H1 & _ & waiters & H2 & _).
  split; [rewrite H1; vm_compute; reflexivity|]. exists waiters. rewrite H2. vm_compute. reflexivity.
Defined.

(** Three threads: the first two wait, in this order; the first is interrupted,
    the third enters and notifies, and the first returns from its wait. *)
Definition demo_interrupt : list (event Z) :=
  Call 1 (CallEnter false) :: steps 1 2 ++ Call 1 (CallWait forever) :: steps 1 7 ++
  Call 2 (CallEnter false) :: steps 2 2 ++ Call 2 (CallWait forever) :: steps 2 2 ++
  Interrupt 1 :: Call 3 (CallEnter false) :: steps 3 2 ++ Call 3 (CallNotify false) :: steps 3 2 ++
  Call 3 CallExit :: steps 3 2 ++ steps 1 4.
(** A thread that was interrupted while it waited takes a notification
    with it: until it has run again its [wait_monitor_] is set, so [Notify]
    chooses it, and it then returns with the exception all the same; the other
    thread that waits is not signalled and has left no trace of the
    notification. *)
Example notification_lost_to_interrupt :
  exists s ls m, run false 1 (demo_start 3) demo_interrupt = Some (Done (s, ls)) /\
    (3, Ret RNotified) ∈ ls /\ (1, Ret (RWaited true)) ∈ ls /\
    pc_at s 2 = Some (Waiting m forever 0 false) /\ pc_at s 1 = Some Running /\ pc_at s 3 = Some Running.
Proof.
  eexists _, _, _. split; [vm_compute; reflexivity|].
  split; [apply (list_elem_of_lookup_2 _ 16); vm_compute; reflexivity|].
  split; [apply (list_elem_of_lookup_2 _ 22); vm_compute; reflexivity|].
  repeat split; vm_compute; reflexivity.
Qed.
